(* ===== verification/_CoqProject ===== *)
-Q . S2P
Prelude.v
CString.v
WatchCache.v
DirTree.v
WatchTree.v
InotifyEvents.v
DirCommands.v
DirProps.v
DirEventProps.v
DirSafety.v
DirTheorems.v
DirMain.v
Process.v
NumArgs.v
Nanosleep.v
PdeathSignal.v
SeekIo.v
FilePerms.v
PsTree.v
TMount.v
IpcCreate.v
WaitStatus.v
PopenGlob.v
FcntlLocking.v
UgidFunctions.v
AclUpdate.v
AclProps.v
AclTheorems.v
SeccompBpf.v
SeccompPolicy.v
SeccompPrograms.v
SeccompNotify.v
SeccompSupervisor.v
ScmFunctions.v
SeccompTarget.v
SeccompOpenat.v
FdIo.v
FdIoProps.v
Environ.v
MyEnviron.v
Execlp.v
SystemCmd.v
Sockets.v
ScmMulti.v
ScmSingle.v
SeqnumSocket.v
Transitions.v
PipeOS.v
FifoDemos.v
PipePrograms.v
PipeSync.v
ChangeCase.v
TtyFunctions.v
Descriptors.v
PtyRelay.v
CopyLoops.v
TeeCopy.v
CpSparse.v
EchoServers.v
ProdCondvar.v
ThreadIncr.v
OnceInit.v
Barrier.v
Strerror.v
MultiJoin.v
MsgFile.v
SeqnumFifo.v
SemInit.v
SimpleInit.v
MultiSigchld.v
SelfPipe.v
ShmTransfer.v
UsernsExec.v
UsernsProps.v
UsernsCaps.v
UsernsSync.v
NsRun.v
PidFile.v
SemOps.v
NsCapable.v
