(* ===== verification/Prelude.v ===== *)
(** * Verification of the example programs of "The Linux Programming Interface"

    The repository holds the programs of the book three times: src/tlpi-dist
    (the distribution version, with the authors' comments), src/tlpi-book (the
    same programs as printed) and src/chapterN with src/lib (exercises on the
    same libraries). This development models programs and libraries of
    src/tlpi-dist and some exercises of src/chapterN, in eight groups that
    share a semantics of C code.

    ** Semantics (Prelude, CString, Process)

    A C function is a function of the monad [M S A := S -> outcome S A]: it
    returns a value in a new state, ends the process ([Exit], with an
    [exit_kind]) or has undefined behaviour ([Undef]): an access outside an
    array, a null pointer, memory never written that is printed or taken for a
    string. [wp m Q E s] says
    that [m] run in [s] is free of undefined behaviour, returns only in [Q] and
    ends the process only in [E]; the models are total functions, so a [wp] is
    also a statement that the code returns or ends the process. The loop rules
    for [for_each] and the rules for [bind], [when] and system calls are the
    proof rules of every file.

    Static variables and objects that outlive a call are fields of the state or
    arguments and results; integers are [Z], converted by [to_signed] and
    [to_unsigned] where the source converts; strings are lists of characters
    without their null, buffers whose bytes matter are lists of bytes. The
    kernel, libacl, the BPF machine and the user database are not part of the
    repository: each is a class of operations on a type [K] chosen by the
    reader, and what the proofs need of it is a second class of laws, or
    hypotheses of the theorem. Every class of laws has an instance here, at
    which the witnesses evaluate the theorems. Other processes may run between
    any two calls: an operation may return any new [K].

    CString is string.h, snprintf and the strtol family; Process is
    lib/error_functions.c (errExit, err_exit, fatal, usageErr, ...) over a
    process with its buffered output, errno and kernel, with rules for every
    way of ending. Theorem error_reports: which output is flushed, the text of
    a report, and its bound [BUF_SIZE].

    ** inotify_dtree (WatchCache to DirMain)

    src/tlpi-dist/inotify/inotify_dtree.c keeps a cache of the directories
    below some roots in step with the file system from inotify events.
    WatchCache is the array of slots, its searches, stores and growth, refined
    to a finite map from watch descriptors to paths ([cache_map]); DirTree the
    static variables ([dtree]) and the system calls ([InotifyOS]); WatchTree
    the operations on subtrees, roots and the whole cache; InotifyEvents the
    event handler, one definition per branch, and the loop over a buffer;
    DirCommands the interactive commands, the options and the main loop.
    DirProps, DirEventProps and DirSafety are the library of rules; DirTheorems
    and DirMain the theorems: no sequence of events leads to
    undefined behaviour and every branch keeps the invariant [dt_ok]
    (event_handler_safe, startup_establishes, commands_keep_invariant,
    reinitialize_restores), each kind of event does to the map what it stands
    for (rename_within_tree, moved_out_zaps_subtree, delete_self_forgets,
    create_watches_subtree, rename_round_trip), and the loop ends
    (event_loop_terminates). This is of a program that does not check its cache
    (-x), which reads a buffer that has not been filled (check_free_slot); and,
    where the cache may grow ([dt_quiet]), of one that logs nothing noisily:
    slots fresh from realloc are [Unwritten], and with a log file or the noisy
    level the program prints them (growth_logged). What the kernel is said to
    have granted, refused or found on a walk it has in a state of the run
    ([os_call]). [process_loop] takes fuel, one unit a turn;
    [turns] bounds the turns for the events in the buffer and those pending in
    the kernel. Paths longer than PATH_MAX are excluded by the class
    [ShortPaths], as the source's list of known limitations does.

    ** acl_update and its libraries (NumArgs to AclTheorems)

    UgidFunctions is users_groups/ugid_functions.c, NumArgs lib/get_num.c and
    timers/itimerspec_from_str.c. AclUpdate is acl/acl_update.c: parseEntrySpec
    and parseACL with each rejection, findEntry, setPerms, updateACL and main.
    AclProps: parsing inverts printing and accepts only well-formed entries
    (parseACL_show, parseACL_sound). AclProps and AclTheorems: against
    libacl's documented laws ([LibAclLaws]) updateACL refines the update of a
    map from tag and qualifier to permissions (updateACL_refines), never stores
    an invalid ACL (only_valid_ACLs_stored), and main touches no file unless
    its options ask for one operation and the text parses (main_guards).
    oversized_id_wraps is an error of the source: identifiers of 2^32 and more
    wrap.

    ** seccomp (SeccompBpf to SeccompSupervisor)

    SeccompBpf holds the filters of the ten programs as lists of instructions;
    SeccompPolicy what each decides for every system call, on every
    architecture it handles; SeccompPrograms the code that installs them, and
    that no filter is installed before no-new-privileges is set
    and nothing goes wrong, except that seccomp_deny_syscall does not stop
    after its usage message. SeccompNotify is the supervisor of
    seccomp_unotify_mkdir.c with seccomp_functions.c, and SeccompSupervisor its
    protocol as a typestate of the kernel: each request answered once,
    directories made only where the name starts with /tmp/, pathnames taken only between two valid
    checks of the request; and the read of an uninitialised buffer that its
    test for /bye makes. [notif_loop] takes the number of turns. ScmFunctions is
    sockets/scm_functions.c: descriptors sent over a pair of sockets arrive in
    order (descriptor_passed), but recvfd leaks what it rejects (recvfd_leaks).
    SeccompTarget is the target process and main of both programs
    (mkdir_target_calls) and SeccompOpenat the supervisor and target of
    seccomp_unotify_openat.c, which gives the target descriptors for the files
    it opens (openat_supervisor_policy, openat_target_calls).

    ** Input, sockets and processes (FdIo to EchoServers, SeekIo to FcntlLocking, PidFile)

    FdIo and FdIoProps: sockets/rdwrn.c, read_line.c and read_line_buf.c for
    every way in which the kernel splits and interrupts the transfer
    ([ByteStream]). The loops take fuel; the theorems show that the length of
    the transfer and the number of interruptions are enough. Sockets:
    inet_sockets.c and unix_sockets.c account for every
    descriptor and list of addresses ([SocketLaws]); a socket that cannot
    listen leaks. Environ: proc/setenv.c on the array of pointers, as updates
    of a map from names to values (environment_updates). Execlp:
    procexec/execlp.c refines a search through the candidates of PATH
    ([try_all]); the loop over PATH has one unit of fuel for each of its
    characters and one more; a script makes it overrun an array. SystemCmd:
    procexec/system.c leaves signal mask and actions as they were on every
    path, and its child gets the right ones (system_restores_signals); the loop
    over interrupted waits takes fuel, one unit a wait. PidFile: the lock
    wrappers of filelock/region_locking.c and createPidFile, which never
    touches the file of a running instance (createPidFile_exclusive). SeekIo:
    the whole of fileio/seek_io.c carries out its arguments one after the
    other on the bytes and the offset of a regular file (seek_io_runs).
    SeqnumSocket: the sequence number servers and clients on sockets
    (is_seqnum_sv.c, is_seqnum_cl.c and their second versions): over any number
    of connections each valid request gets the number so far (sequence_served).
    ScmMulti and ScmSingle: sockets/scm_multi_send.c, scm_multi_recv.c and the
    programs scm_rights_* and scm_cred_*, with the control data byte by byte:
    what the CMSG macros write fills the buffer and is read back
    (control_round_trip, single_round_trip). FilePerms: files/file_perms.c
    prints every mode exactly (filePermStr_exact), and chiflag.c changes only
    the flags named, but carries those of one file over to the next
    (chiflag_changes). Descriptors: the table of descriptors through
    pty/pty_master_open.c, pty_fork.c, whose child gets the slave of the new
    master (ptyFork_contract), and daemons/become_daemon.c, which closes what is
    below the limit of descriptors and leaves the rest open
    (becomeDaemon_descriptors). CopyLoops is the loop
    that copies from one descriptor to another, with its rule, and
    fileio/copy.c (copy_copies); EchoServers the programs us_xfr_* and is_echo_*
    that use it, whose servers send back or write what each client sends and
    keep no connection open (echo_clients_served, xfr_collects, xfr_sends,
    echo_client_ends). WaitStatus: procexec/print_wait_status.c
    (wait_status_shown). PopenGlob: pipes/popen_glob.c gives the shell nothing
    but words of letters, digits and wildcards (only_safe_commands).
    FcntlLocking: filelock/i_fcntl_locking.c, with the directives of sscanf that
    it uses, makes only valid requests (only_valid_requests) and those that are
    asked for (command_carried_out). Nanosleep: timers/t_nanosleep.c and
    t_clock_nanosleep.c sleep for their interval however often they are
    interrupted (nanosleep_sleeps, clock_nanosleep_sleeps). PdeathSignal:
    procexec/pdeath_signal.c builds the chain of processes that its arguments
    describe (ancestors_as_described). PtyRelay: pty/script.c and pty/unbuffer.c;
    what is typed goes to the master, what comes back to the screen and the
    typescript, and the terminal gets its settings back (session_relayed). The
    child is followed up to its exec. The relay takes a unit of fuel for each
    turn of its loop; [budget] bounds the turns in which there is something to
    read. TMount:
    filesys/t_mount.c succeeds only with the mount that its options describe
    (t_mount_mounts). IpcCreate: the six programs that create an object
    of System V or POSIX IPC (svshm_create.c, svsem_create.c, svmsg_create.c,
    pmsg_create.c, psem_create.c, pshm_create.c); the key or name, the flags and
    the size are those of the command line (sysv_objects_requested and
    pmsg_create_requests, for the first four). Loops take a unit of fuel for each byte, line or
    interruption still to come, and one more.

    ** Exercises (TeeCopy, CpSparse, MyEnviron, PsTree)

    TeeCopy is chapter4/tee.c (tee_copies): standard output and each file get
    the input or, when the program fails, a beginning of it. CpSparse is
    chapter4/cp.c (cp_copies), whose copy may lack nulls at its end. MyEnviron
    is chapter6/exercise_3.c on the array of Environ
    (my_environment_updates); its test is run in full (exercise_3_output).
    PsTree is chapter12/exercise_2.c (pstree_shows_tree): the processes listed
    in /proc are read into the array of pointers, each with the parent and the
    command that its files say ([gathered_from]) and none left out that has not
    gone, and the descendants of process 1 are printed once each, below their
    parents. TeeCopy and CpSparse
    take a unit of fuel for each byte of the input and one more, PsTree one for
    each entry, line and generation; the array bounds the processes by
    MAX_PROCESSES, and past it the source writes outside the array.

    ** Programs on pipes (PipeOS to ChangeCase)

    PipeOS is the interface between programs and the kernel's pipes: a program
    is a function [code] from program counters to calls, and a step of the
    system is a call that one process makes, with blocking, end of file, SIGPIPE
    and the copy that fork makes of a standard output with a buffer of 4096
    characters, delivered in whole blocks when it is full. [prompt] is the
    assumption that time passes only when all processes wait; without it a sleep
    may end at any time. FifoDemos: the four demonstrations of chapter44/mkfifo.c.
    The first and the last deliver what is written to their FIFO
    (fifo_demos_deliver); as the program calls them it gets stuck in the second
    (second_demo_hangs), and the third never reads (nonblocking_never_reads).
    PipePrograms: pipes/simple_pipe.c and the one of chapter44, for strings of
    any length and any capacity (simple_pipe_echoes); with a long string the
    child of the latter prints what its parent had said (long_string_twice).
    PipeSync: pipes/pipe_sync.c for any number of children, where calls may fail
    (pipe_sync_waits): the parent goes on when each has done its work or has
    ended with failure; and the one of chapter44 with its three children
    (pipe_sync_44_waits). ChangeCase: pipes/change_case.c, for every input
    (change_case_converts). Programs whose arguments or input have no bound are
    proved with invariants, those of constant size by following every schedule
    (the exploration of Transitions), with fuel 100 or 200, more than the length
    of their longest run; the exploration fails when its fuel is not enough.

    ** Concurrent programs (Transitions to ShmTransfer, TtyFunctions, SemOps)

    Transitions is the library of transition systems: runs, the states they
    reach, invariants, who holds a lock, and termination of every schedule from
    a measure ([always_ends]). Each program is a step function for each process
    or thread, one event for each access to what is shared. ProdCondvar:
    threads/prod_condvar.c; every schedule ends with everything consumed, when
    the counts add up to an int (prod_condvar_completes, total_overflows).
    ThreadIncr: threads/thread_incr.c and its four variants with a mutex, a
    spinlock, a read/write lock and a semaphore (psem/thread_incr_psem.c), over
    the interface [Guard]; with a guard that keeps the laws of a lock nothing is
    lost (guarded_increments_all), without one the result is between bounds
    (unguarded_bounds). OnceInit: threads/one_time_init.c (init_runs_once).
    MultiJoin: threads/thread_multijoin.c for any number of threads
    (multijoin_completes). Barrier: threads/pthread_barrier_demo.c, where no
    thread starts a round before all have ended the one before
    (barrier_rounds). Strerror: threads/strerror.c, whose buffer the threads
    share, and its versions with thread-specific data and thread-local storage,
    whose buffers they do not (strerror_per_thread). SemInit:
    svsem/svsem_good_init.c and svsem_bad_init.c: in the first nobody uses the
    semaphore before it is initialised (good_init_orders), in the second an
    operation may be lost (bad_init_bounds, addition_lost). TtyFunctions:
    tty/tty_functions.c and test_tty_functions.c with signals between any two
    calls: in cbreak mode, whenever the program is stopped or ends by itself the
    terminal has settings that the user has made (terminal_given_back). SimpleInit:
    namespaces/simple_init.c: children are reaped whatever the order of events
    (init_reaps_children), but a wakeup can be lost (wakeup_lost). MultiSigchld:
    in procexec/multi_SIGCHLD.c it cannot, and the parent fails only when a fork
    does (children_all_reaped). SelfPipe:
    altio/self_pipe.c loses no signal between select and its test
    (signal_not_lost). MsgFile: svmsg/svmsg_file_server.c and its client,
    with a bounded queue for each process; every client gets its file, block by
    block (msg_files_served). SeqnumFifo: pipes/fifo_seqnum_server.c and any
    number of clients over their FIFOs (seqnum_clients_numbered); a client that
    is killed blocks the server. ShmTransfer: the writer and
    the reader of svshm/svshm_xfr_writer.c and svshm_xfr_reader.c over the
    binary semaphores of svsem/binary_sems.c, one event for each call; a call
    may fail (shm_transfer_safe) and without failures the input is copied
    (shm_transfer_completes). Both suppose that the objects do not exist
    before; stale_block_is_read is a run with objects left over. SemOps: the
    parser of svsem/svsem_op.c stays in its array (parseOps_bounds) and inverts
    printing (parseOps_round_trip) for numbers that fit a short.

    ** Namespaces (UsernsExec to NsRun, NsCapable)

    UsernsExec is namespaces/userns_child_exec.c with userns_functions.c and
    the two functions of cap/cap_functions.c it uses: the options, the maps
    written for the child, and the requests the child carries out. UsernsProps
    and UsernsCaps: the loop over the options agrees with a direct reading of
    the whole list (parse_command_options_reference), the files of the maps get
    what was asked for (child_maps_written), securebits printed are securebits
    parsed (securebits_round_trip), and a capability is changed set by set
    (modify_capability_steps). UsernsSync is the pipe between the two processes
    (maps_before_command). NsRun: unshare.c, ns_exec.c, ns_run.c and
    ns_child_exec.c run a command after exactly the changes of namespace that
    are asked for, with the descriptors they were started with (unshare_runs,
    ns_exec_runs, ns_run_runs, ns_child_exec_runs); unshare takes a fork that
    fails for a child that has ended. NsCapable: namespaces/ns_capable.c decides what the
    tree of namespaces says (ns_capable_verdict); the walk takes as many turns
    as the namespace has ancestors.

    ** What is not modelled

    Text written as a progress report by the seccomp supervisors; signals that
    interrupt a program at an arbitrary point, where a program has no handler or
    no state that the handler shares; what a child does after a successful exec;
    the output of commands that a program runs. execlp_searches is stated for
    allocations that succeed, although the model has their failures. getopt is
    glibc's, so the options it returns are arguments of the models. Most of the
    remaining files are demonstrations of a few system calls each, whose
    behaviour is the kernel's, and the copies of the programs under
    src/tlpi-book and src/chapterN. Worth modelling next: svsem/event_flags.c,
    procexec/acct_view.c and inotify/rand_dtree.c. *)
From Stdlib Require Import ZArith Lia.
From stdpp Require Import base tactics list sets fin_sets.

(** ** The effect of a C program: state passing, termination, undefined behaviour *)

(** How a process stops running a program: [exit]/[_exit] with one of the
    standard statuses or another, [abort], or a successful [exec] of another
    program. *)
Inductive exit_kind :=
| EXIT_SUCCESS
| EXIT_FAILURE
| EXIT_STATUS (n : Z)
| ABORT
| EXECED.

#[export] Instance exit_kind_eq_dec : EqDecision exit_kind.
Proof. solve_decision. Defined.

(** Running C code either returns a value in a new state, ends the process,
    or has undefined behaviour (an access out of bounds, an uninitialised
    read). *)
Inductive outcome (S A : Type) :=
| Ret (a : A) (s : S)
| Exit (k : exit_kind) (s : S)
| Undef.
Arguments Ret {S A} a s.
Arguments Exit {S A} k s.
Arguments Undef {S A}.

Definition M (S A : Type) : Type := S -> outcome S A.

Definition ret {S A} (a : A) : M S A := fun s => Ret a s.
Definition bind {S A B} (m : M S A) (f : A -> M S B) : M S B := fun s =>
  match m s with
  | Ret a s' => f a s'
  | Exit k s' => Exit k s'
  | Undef => Undef
  end.
Definition get {S} : M S S := fun s => Ret s s.
Definition modify {S} (f : S -> S) : M S unit := fun s => Ret tt (f s).
Definition exit {S A} (k : exit_kind) : M S A := fun s => Exit k s.
Definition undef {S A} : M S A := fun _ => Undef.

Declare Scope c_scope.
Delimit Scope c_scope with c.
Notation "'let!' x ':=' m 'in' k" := (bind m (fun x => k))
  (at level 10, x pattern, m at level 100, k at level 200) : c_scope.
Notation "m ';;;' k" := (bind m (fun _ => k))
  (at level 199, right associativity) : c_scope.
#[global] Open Scope c_scope.

(** [for (x in l) body]: the body runs once per element, in order. *)
Fixpoint for_each {S B} (l : list B) (body : B -> M S unit) : M S unit :=
  match l with
  | [] => ret tt
  | x :: l' => body x ;;; for_each l' body
  end.

(** A loop whose body may leave it with [break]: [Some r] leaves, [None]
    goes round again. *)
Fixpoint for_break {S B R} (l : list B) (body : B -> M S (option R)) : M S (option R) :=
  match l with
  | [] => ret None
  | x :: l' =>
      let! r := body x in
      match r with
      | Some _ => ret r
      | None => for_break l' body
      end
  end.

Definition when {S} (b : bool) (m : M S unit) : M S unit :=
  if b then m else ret tt.

(** ** Machine integers *)

#[local] Open Scope Z_scope.

Definition INT_MAX : Z := 2147483647.
Definition INT_MIN : Z := -2147483648.
Definition LONG_MAX : Z := 9223372036854775807.
Definition LONG_MIN : Z := -9223372036854775808.

(** Conversion to an unsigned type of [w] bits, and to a signed one (the
    two's complement result every supported compiler gives). *)
Definition to_unsigned (w z : Z) : Z := z mod 2 ^ w.
Definition to_signed (w z : Z) : Z :=
  let u := z mod 2 ^ w in
  if bool_decide (u < 2 ^ (w - 1))%Z then u else (u - 2 ^ w)%Z.

(** [if (mask & flag)]. *)
Definition has_bit (mask flag : Z) : bool := negb (Z.land mask flag =? 0)%Z.

(** ** Weakest preconditions *)

(** [wp m Q E s]: run in [s], the code has no undefined behaviour, returns
    only values and states in [Q] and ends the process only in [E]. *)
Definition wp {S A} (m : M S A) (Q : A -> S -> Prop) (E : exit_kind -> S -> Prop)
    (s : S) : Prop :=
  match m s with
  | Ret a s' => Q a s'
  | Exit k s' => E k s'
  | Undef => False
  end.

Create HintDb tlpi.

Section wp_rules.
Context {St : Type}.
Implicit Types (s : St) (E : exit_kind -> St -> Prop).

Lemma wp_ret {A} (a : A) (Q : A -> St -> Prop) E s : Q a s -> wp (ret a) Q E s.
Proof. done. Qed.

Lemma wp_bind {A B} (m : M St A) (f : A -> M St B) Q E s :
  wp m (fun a s' => wp (f a) Q E s') E s -> wp (bind m f) Q E s.
Proof. unfold wp, bind. by destruct (m s). Qed.

Lemma wp_get (Q : St -> St -> Prop) E s : Q s s -> wp get Q E s.
Proof. done. Qed.

Lemma wp_modify (f : St -> St) (Q : unit -> St -> Prop) E s :
  Q tt (f s) -> wp (modify f) Q E s.
Proof. done. Qed.

Lemma wp_exit {A} k (Q : A -> St -> Prop) E s : E k s -> wp (exit k) Q E s.
Proof. done. Qed.

Lemma wp_mono {A} (m : M St A) (Q Q' : A -> St -> Prop) E E' s :
  wp m Q E s -> (forall a s', Q a s' -> Q' a s') -> (forall k s', E k s' -> E' k s') ->
  wp m Q' E' s.
Proof. unfold wp. destruct (m s); eauto. Qed.

Lemma wp_when b (m : M St unit) Q E s :
  (b = true -> wp m Q E s) -> (b = false -> Q tt s) -> wp (when b m) Q E s.
Proof. destruct b; unfold when; eauto using wp_ret. Qed.

(** The loop rule: an invariant over the elements already done. *)
Lemma wp_for_each {B} (l : list B) (body : B -> M St unit) (I : list B -> St -> Prop) E s :
  I [] s ->
  (forall done x rest s', l = done ++ x :: rest -> I done s' ->
     wp (body x) (fun _ => I (done ++ [x])) E s') ->
  wp (for_each l body) (fun _ => I l) E s.
Proof.
  intros HI Hbody.
  enough (Hall : forall rest done s', l = done ++ rest -> I done s' ->
            wp (for_each rest body) (fun _ => I l) E s') by by apply (Hall l []).
  induction rest as [|x rest IH]; intros done s' -> Hd; simpl.
  - apply wp_ret. by rewrite app_nil_r.
  - apply wp_bind. eapply wp_mono; [by eapply Hbody| |done].
    intros a s'' Hs. apply (IH (done ++ [x])); [by rewrite <-app_assoc|done].
Qed.

(** The simple form, with an invariant of the state alone. *)
Lemma wp_for_each_inv {B} (l : list B) (body : B -> M St unit) (I : St -> Prop) E s :
  I s -> (forall x s', x ∈ l -> I s' -> wp (body x) (fun _ => I) E s') ->
  wp (for_each l body) (fun _ => I) E s.
Proof.
  intros HI Hb. apply (wp_for_each l body (fun _ => I)); [done|].
  intros done x rest s' -> Hs. apply Hb; [set_solver|done].
Qed.

(** Sequencing two pieces of code that keep an invariant. *)
Lemma wp_seq_inv {A B} (m : M St A) (f : A -> M St B) (I : St -> Prop) Q E s :
  wp m (fun _ => I) E s -> (forall a s', I s' -> wp (f a) Q E s') -> wp (bind m f) Q E s.
Proof. intros Hm Hf. apply wp_bind. eapply wp_mono; eauto. Qed.

Lemma wp_when_inv b (m : M St unit) (I : St -> Prop) E s :
  I s -> (b = true -> wp m (fun _ => I) E s) -> wp (when b m) (fun _ => I) E s.
Proof. intros HI Hm. by apply wp_when. Qed.

(** From a weakest precondition to the run itself. *)
Lemma wp_run {A} (m : M St A) Q E s :
  wp m Q E s ->
  (exists a s', m s = Ret a s' /\ Q a s') \/ (exists k s', m s = Exit k s' /\ E k s').
Proof. unfold wp. destruct (m s); naive_solver. Qed.

(** Running a sequence whose first part is known. *)
Lemma bind_Ret {A B} (m : M St A) (f : A -> M St B) s a s' : m s = Ret a s' -> bind m f s = f a s'.
Proof. unfold bind. by intros ->. Qed.
Lemma bind_Exit {A B} (m : M St A) (f : A -> M St B) s k s' : m s = Exit k s' -> bind m f s = Exit k s'.
Proof. unfold bind. by intros ->. Qed.

End wp_rules.

#[export] Hint Resolve wp_ret wp_get wp_modify wp_exit : tlpi.

(** One structural step through the code of a weakest precondition. *)
Ltac wp_step :=
  lazymatch goal with
  | |- wp (bind _ _) _ _ _ => apply wp_bind
  | |- wp (ret _) _ _ _ => apply wp_ret
  | |- wp get _ _ _ => apply wp_get
  | |- wp (modify _) _ _ _ => apply wp_modify
  | |- wp (exit _) _ _ _ => apply wp_exit
  | |- wp (when ?b _) _ _ _ => apply wp_when; intros ?
  | |- wp (if ?b then _ else _) _ _ _ => destruct b eqn:?
  | |- wp (match ?x with _ => _ end) _ _ _ => destruct x eqn:?
  end.
Ltac wp_steps := repeat (wp_step; cbn beta iota).

(** ** Lists and integers *)

Lemma has_bit_spec (mask flag : Z) :
  has_bit mask flag = true <-> Z.land mask flag <> 0%Z.
Proof. unfold has_bit. rewrite negb_true_iff, Z.eqb_neq. done. Qed.

Lemma to_unsigned_range w z : (0 <= w)%Z -> (0 <= to_unsigned w z < 2 ^ w)%Z.
Proof. intros. apply Z.mod_pos_bound. lia. Qed.

Lemma to_unsigned_small w z : (0 <= z < 2 ^ w)%Z -> to_unsigned w z = z.
Proof. intros. by apply Z.mod_small. Qed.

Lemma to_signed_small w z :
  (0 < w)%Z -> (- 2 ^ (w - 1) <= z < 2 ^ (w - 1))%Z -> to_signed w z = z.
Proof.
  intros Hw Hz. unfold to_signed.
  assert (Hp : (2 ^ w = 2 * 2 ^ (w - 1))%Z)
    by (rewrite <-Z.pow_succ_r by lia; f_equal; lia).
  case_bool_decide as Hd; destruct (Z_lt_le_dec z 0).
  - exfalso. rewrite <-(Z.mod_add z 1), Z.mod_small in Hd by lia. lia.
  - apply Z.mod_small. lia.
  - rewrite <-(Z.mod_add z 1), Z.mod_small by lia. lia.
  - rewrite Z.mod_small in Hd by lia. lia.
Qed.

Lemma to_signed_range w z :
  (0 < w)%Z -> (- 2 ^ (w - 1) <= to_signed w z < 2 ^ (w - 1))%Z.
Proof.
  intros Hw. unfold to_signed.
  assert (Hp : (2 ^ w = 2 * 2 ^ (w - 1))%Z)
    by (rewrite <-Z.pow_succ_r by lia; f_equal; lia).
  pose proof (Z.mod_pos_bound z (2 ^ w) ltac:(lia)).
  case_bool_decide; lia.
Qed.

Lemma list_insert_fmap_ne {A B} (f : A -> B) (l : list A) (i : nat) x :
  (forall y, l !! i = Some y -> f x = f y) -> f <$> <[i:=x]> l = f <$> l.
Proof.
  intros H. apply list_eq. intros j. rewrite !list_lookup_fmap.
  destruct (decide (i = j)) as [<-|Hn].
  - destruct (l !! i) as [y|] eqn:E.
    + rewrite list_lookup_insert_eq by eauto using lookup_lt_Some. simpl.
      by rewrite (H y).
    + rewrite list_insert_ge by by apply lookup_ge_None. by rewrite E.
  - by rewrite list_lookup_insert_ne.
Qed.
