(* ===== verification/CString.v ===== *)
(** C strings and the parts of the C library that the modelled programs use
    on them: searching and comparing, bounded formatting, decimal output and
    the [strtol] family.

    A C string is the list of its characters before the terminating null.
    [strncpy], [snprintf] and friends are given by what they leave in a buffer
    of a known size. *)
From Stdlib Require Import ZArith Lia Ascii String.
From stdpp Require Import base tactics list strings sets.
From S2P Require Import Prelude.
#[local] Open Scope Z_scope.

Abbreviation cstr := (list ascii).

(** A string literal. *)
Definition lit (s : string) : cstr := list_ascii_of_string s.

Definition SLASH : ascii := "/"%char.
Definition COLON : ascii := ":"%char.
Definition COMMA : ascii := ","%char.
Definition EQUALS : ascii := "="%char.
Definition NEWLINE : ascii := ascii_of_nat 10.
Definition NUL : ascii := ascii_of_nat 0.
Definition TAB : ascii := ascii_of_nat 9.
Definition QUOTE : ascii := ascii_of_nat 34.

Definition strlen (s : cstr) : Z := Z.of_nat (length s).

Definition streq (s t : cstr) : bool := bool_decide (s = t).

(** [strchr(s, c)]: what comes before and what comes after the first [c]. *)
Fixpoint strchr (c : ascii) (s : cstr) : option (cstr * cstr) :=
  match s with
  | [] => None
  | x :: s' =>
      if bool_decide (x = c) then Some ([], s')
      else match strchr c s' with
           | Some (pre, post) => Some (x :: pre, post)
           | None => None
           end
  end.

(** [strncmp(p, s, strlen(p)) == 0]: [p] is a prefix of [s]. *)
Fixpoint strncmp_prefix (p s : cstr) : bool :=
  match p, s with
  | [], _ => true
  | x :: p', y :: s' => bool_decide (x = y) && strncmp_prefix p' s'
  | _ :: _, [] => false
  end.

(** [s[n] == c] for a [c] other than the null, and [s[n] == '\0'], for
    [n <= strlen(s)]. *)
Definition char_is (s : cstr) (n : nat) (c : ascii) : bool := bool_decide (s !! n = Some c).
Definition at_nul (s : cstr) (n : nat) : bool := bool_decide (length s = n).

(** What [snprintf(buf, size, ...)] leaves in [buf] when the formatted text
    is [s]. *)
Definition snprintf (size : Z) (s : cstr) : cstr := take (Z.to_nat (size - 1)) s.

(** ** Numbers *)

Definition digit_char (d : Z) : ascii := ascii_of_nat (Z.to_nat (48 + d)).

(** [printf("%d", z)] *)
Fixpoint show_digits (fuel : nat) (z : Z) (acc : cstr) : cstr :=
  match fuel with
  | O => acc
  | S f =>
      let acc' := digit_char (z mod 10) :: acc in
      if z / 10 =? 0 then acc' else show_digits f (z / 10) acc'
  end.
Definition show_Z (z : Z) : cstr :=
  if z <? 0 then "-"%char :: show_digits (S (Z.to_nat (Z.log2 (- z)))) (- z) []
  else show_digits (S (Z.to_nat (Z.log2 z))) z [].

Definition char_code (c : ascii) : Z := Z.of_nat (nat_of_ascii c).

(** [isspace] in the C locale. *)
Definition isspace (c : ascii) : bool :=
  let n := char_code c in (n =? 32) || ((9 <=? n) && (n <=? 13)).

Definition isdigit (c : ascii) : bool := (48 <=? char_code c) && (char_code c <=? 57).

(** The value of a character as a digit of some base up to 36. *)
Definition digit_value (c : ascii) : option Z :=
  let n := char_code c in
  if (48 <=? n) && (n <=? 57) then Some (n - 48)
  else if (97 <=? n) && (n <=? 122) then Some (n - 87)
  else if (65 <=? n) && (n <=? 90) then Some (n - 55)
  else None.

Fixpoint skip_space (s : cstr) : cstr :=
  match s with
  | c :: s' => if isspace c then skip_space s' else s
  | [] => []
  end.

(** The longest run of digits of [base]: its value (added to [acc]), the
    number of digits and the rest. *)
Fixpoint scan_digits (base acc : Z) (n : nat) (s : cstr) : Z * nat * cstr :=
  match s with
  | [] => (acc, n, [])
  | c :: s' =>
      match digit_value c with
      | Some d => if d <? base then scan_digits base (acc * base + d) (S n) s'
                  else (acc, n, s)
      | None => (acc, n, s)
      end
  end.

(** The sign of a numeral. *)
Definition scan_sign (s : cstr) : bool * cstr :=
  match s with
  | c :: s' =>
      if bool_decide (c = "-"%char) then (true, s')
      else if bool_decide (c = "+"%char) then (false, s')
      else (false, s)
  | [] => (false, s)
  end.

(** The base actually used and the text after its prefix: base 0 reads [0x],
    [0] or nothing, base 16 accepts [0x]; [0x] counts only before a hex digit. *)
Definition scan_base (base : Z) (s : cstr) : Z * cstr :=
  match s with
  | z :: x :: d :: rest =>
      if bool_decide (z = "0"%char)
         && (bool_decide (x = "x"%char) || bool_decide (x = "X"%char))
         && ((base =? 0) || (base =? 16))
         && match digit_value d with Some v => v <? 16 | None => false end
      then (16, d :: rest)
      else if base =? 0 then (if bool_decide (z = "0"%char) then 8 else 10, s)
      else (base, s)
  | z :: _ =>
      if base =? 0 then (if bool_decide (z = "0"%char) then 8 else 10, s)
      else (base, s)
  | [] => (if base =? 0 then 10 else base, s)
  end.

(** [strtol(s, &endptr, base)]: the result, the text at [endptr] and whether
    [errno] was set to [ERANGE]. With no digits, [endptr] is [s]. *)
Definition strtol (s : cstr) (base : Z) : Z * cstr * bool :=
  let (neg, s1) := scan_sign (skip_space s) in
  let (b, s2) := scan_base base s1 in
  let '(v, n, rest) := scan_digits b 0 0 s2 in
  match n with
  | O => (0, s, false)
  | S _ =>
      let r := if neg then - v else v in
      if r <? LONG_MIN then (LONG_MIN, rest, true)
      else if LONG_MAX <? r then (LONG_MAX, rest, true)
      else (r, rest, false)
  end.

(** [atoi(s)] is [(int) strtol(s, NULL, 10)]. *)
Definition atoi (s : cstr) : Z := to_signed 32 (strtol s 10).1.1.

(** "%x" of an unsigned int. *)
Definition hex_digit (d : Z) : ascii :=
  if d <? 10 then ascii_of_nat (Z.to_nat (48 + d)) else ascii_of_nat (Z.to_nat (87 + d)).
Fixpoint show_hex_digits (n : nat) (z : Z) (acc : cstr) : cstr :=
  match n with
  | O => acc
  | S n =>
      let acc' := hex_digit (z mod 16) :: acc in
      if z / 16 =? 0 then acc' else show_hex_digits n (z / 16) acc'
  end.
Definition show_hex (z : Z) : cstr := show_hex_digits 8 z [].

(** ** Characters and lines *)

(** [isalpha] and [isalnum] in the C locale. *)
Definition isalpha (c : ascii) : bool :=
  let n := char_code c in ((65 <=? n) && (n <=? 90)) || ((97 <=? n) && (n <=? 122)).
Definition isalnum (c : ascii) : bool := isalpha c || isdigit c.

(** The characters that [fgets(buf, S n, fp)] takes from the input, and what it
    leaves; at the end of the input nothing is taken, and fgets returns NULL. *)
Fixpoint take_line (n : nat) (input : cstr) : cstr * cstr :=
  match n, input with
  | S n, c :: rest =>
      if bool_decide (c = NEWLINE) then ([c], rest)
      else let (line, left) := take_line n rest in (c :: line, left)
  | _, _ => ([], input)
  end.

(** The string in an array of characters: what is before the first null. *)
Fixpoint string_in (buf : cstr) : cstr :=
  match buf with
  | [] => []
  | c :: rest => if bool_decide (c = NUL) then [] else c :: string_in rest
  end.

(** [if (s[len - 1] == c) s[len - 1] = 0], for a string that is not empty. *)
Definition strip_last (c : ascii) (s : cstr) : cstr :=
  match last s with
  | Some d => if bool_decide (d = c) then take (length s - 1) s else s
  | None => s
  end.

(** [strstr]: the text from the first occurrence of [t] on. *)
Fixpoint strstr (s t : cstr) : option cstr :=
  if strncmp_prefix t s then Some s
  else match s with [] => None | _ :: s' => strstr s' t end.

(** ** The command line *)

(** One result of [getopt]: the option character and [optarg]. *)
Inductive option_arg := Opt (c : ascii) (arg : cstr).

(** A switch over letters, each of which stands for a flag, and the flags that
    a string of letters sets. *)
Fixpoint case_of (c : ascii) (cases : list (ascii * Z)) : option Z :=
  match cases with
  | [] => None
  | (d, flag) :: cases => if bool_decide (c = d) then Some flag else case_of c cases
  end.
Definition letter_flags (cases : list (ascii * Z)) (ls : cstr) : Z :=
  foldr (fun c flags => Z.lor (default 0%Z (case_of c cases)) flags) 0%Z ls.

(** ** Facts about searching and comparing *)

Lemma strchr_Some c s pre post :
  strchr c s = Some (pre, post) <-> s = pre ++ c :: post /\ c ∉ pre.
Proof.
  revert pre. induction s as [|x s IH]; intros pre; simpl.
  - split; [done|]. intros [H _]. by destruct pre.
  - case_bool_decide as Hx.
    + split.
      * intros [= <- <-]. subst x. split; [done|set_solver].
      * intros [He Hn]. destruct pre as [|y pre]; simplify_eq/=; [done|]. set_solver.
    + destruct (strchr c s) as [[p q]|] eqn:Hs.
      * split.
        -- intros [= <- <-]. destruct (IH p) as [[H1 H2] _]; [done|]. subst s.
           split; [done|set_solver].
        -- intros [He Hn]. destruct pre as [|y pre]; simplify_eq/=.
           destruct (IH pre) as [_ H]. rewrite not_elem_of_cons in Hn.
           destruct Hn. by injection (H (conj eq_refl H1)) as -> ->.
      * split; [done|]. intros [He Hn]. destruct pre as [|y pre]; simplify_eq/=.
        destruct (IH pre) as [_ H]. rewrite not_elem_of_cons in Hn. destruct Hn.
        discriminate (H (conj eq_refl H1)).
Qed.

Lemma strchr_None c s : strchr c s = None <-> c ∉ s.
Proof.
  induction s as [|x s IH]; simpl; [set_solver|].
  rewrite not_elem_of_cons. case_bool_decide as Hx; [naive_solver|].
  destruct (strchr c s) as [[p q]|]; naive_solver.
Qed.

Lemma strncmp_prefix_spec p s :
  strncmp_prefix p s = true <-> exists r, s = p ++ r.
Proof.
  revert s. induction p as [|x p IH]; intros s; simpl; [naive_solver|].
  destruct s as [|y s]; [naive_solver|].
  rewrite andb_true_iff, bool_decide_eq_true, IH. naive_solver.
Qed.

Lemma snprintf_fits size s : strlen s < size -> snprintf size s = s.
Proof. intros. unfold snprintf, strlen in *. apply take_ge. lia. Qed.

Lemma snprintf_bound size s : 0 < size -> strlen (snprintf size s) < size.
Proof. intros. unfold snprintf, strlen. rewrite length_take. lia. Qed.

(** ** Printing and reading numbers *)

Lemma char_code_digit d : 0 <= d <= 9 -> char_code (digit_char d) = 48 + d.
Proof.
  intros. unfold char_code, digit_char. rewrite nat_ascii_embedding by lia. lia.
Qed.

Lemma digit_value_digit d : 0 <= d <= 9 -> digit_value (digit_char d) = Some d.
Proof.
  intros. unfold digit_value. rewrite char_code_digit by done.
  replace ((48 <=? 48 + d) && (48 + d <=? 57)) with true by lia. f_equal. lia.
Qed.

(** Reading the printed digits of [z] multiplies the value read so far by
    some power and adds [z]: the invariant of the printing loop. *)
Lemma scan_show_digits f z acc a n :
  0 <= z < 2 ^ (Z.of_nat f + 1) ->
  exists m k, (0 < k)%nat /\ scan_digits 10 a n (show_digits (S f) z acc)
    = scan_digits 10 (a * m + z) (n + k) acc.
Proof.
  revert z acc. induction f as [|f IH]; intros z acc Hz.
  - change (2 ^ (Z.of_nat 0 + 1)) with 2 in Hz.
    assert (z = 0 \/ z = 1) as [-> | ->] by lia; exists 10, 1%nat; split; try lia;
      cbn [show_digits]; rewrite Nat.add_1_r; done.
  - assert (Hp : 2 ^ (Z.of_nat (S f) + 1) = 2 * 2 ^ (Z.of_nat f + 1))
      by (rewrite <-Z.pow_succ_r by lia; f_equal; lia).
    pose proof (Z.div_mod z 10 ltac:(lia)). pose proof (Z.mod_pos_bound z 10 ltac:(lia)).
    change (show_digits (S (S f)) z acc) with
      (if z / 10 =? 0 then digit_char (z mod 10) :: acc
       else show_digits (S f) (z / 10) (digit_char (z mod 10) :: acc)).
    destruct (Z.eqb_spec (z / 10) 0) as [Hz0|Hz0].
    + exists 10, 1%nat. split; [lia|]. cbn [scan_digits].
      rewrite digit_value_digit by lia. replace (z mod 10 <? 10) with true by lia.
      f_equal; lia.
    + assert (0 <= z / 10 < 2 ^ (Z.of_nat f + 1)) as Hd by lia.
      destruct (IH (z / 10) (digit_char (z mod 10) :: acc) Hd) as (m & k & Hk & ->).
      exists (m * 10), (S k). split; [lia|]. cbn [scan_digits].
      rewrite digit_value_digit by lia. replace (z mod 10 <? 10) with true by lia.
      f_equal; lia.
Qed.

Lemma scan_show_log z a :
  0 <= z ->
  exists k, (0 < k)%nat /\ exists m,
    scan_digits 10 a 0 (show_digits (S (Z.to_nat (Z.log2 z))) z []) = (a * m + z, k, []).
Proof.
  intros Hz. destruct (scan_show_digits (Z.to_nat (Z.log2 z)) z [] a 0) as (m & k & Hk & ->).
  - rewrite Z2Nat.id by apply Z.log2_nonneg.
    destruct (decide (z = 0)) as [->|]; [done|].
    pose proof (Z.log2_spec z ltac:(lia)). lia.
  - eauto.
Qed.

(** Every printed character is a digit or the sign. *)
Lemma show_digits_no c f z acc :
  0 <= z -> digit_value c = None -> c ∈ show_digits f z acc -> c ∈ acc.
Proof.
  intros Hz Hc. revert z acc Hz. induction f as [|f IH]; intros z acc Hz; simpl; [done|].
  pose proof (Z.mod_pos_bound z 10 ltac:(lia)). destruct (z / 10 =? 0).
  - intros [->|Hin]%elem_of_cons; [|done]. by rewrite digit_value_digit in Hc by lia.
  - intros Hin%IH; [|apply Z.div_pos; lia]. apply elem_of_cons in Hin as [->|Hin]; [|done].
    by rewrite digit_value_digit in Hc by lia.
Qed.

Lemma show_Z_no z c : digit_value c = None -> c <> "-"%char -> c ∉ show_Z z.
Proof.
  intros Hc Hm Hin. unfold show_Z in Hin. destruct (Z.ltb_spec z 0).
  - apply elem_of_cons in Hin as [->|Hin]; [done|].
    apply show_digits_no in Hin; [by apply elem_of_nil in Hin|lia|done].
  - apply show_digits_no in Hin; [by apply elem_of_nil in Hin|lia|done].
Qed.

(** The first printed character is a digit, so neither a space nor a sign. *)
Lemma show_digits_head f z acc :
  0 <= z -> exists d rest, 0 <= d <= 9 /\ show_digits (S f) z acc = digit_char d :: rest.
Proof.
  revert z acc. induction f as [|f IH]; intros z acc Hz;
    pose proof (Z.mod_pos_bound z 10 ltac:(lia)).
  - exists (z mod 10), acc. split; [lia|]. simpl. by destruct (z / 10 =? 0).
  - change (show_digits (S (S f)) z acc) with
      (if z / 10 =? 0 then digit_char (z mod 10) :: acc
       else show_digits (S f) (z / 10) (digit_char (z mod 10) :: acc)).
    destruct (z / 10 =? 0); [by exists (z mod 10), acc; split; [lia|]|].
    apply IH. apply Z.div_pos; lia.
Qed.

Lemma show_Z_nonempty_char z : exists c r, show_Z z = c :: r.
Proof.
  unfold show_Z. destruct (Z.ltb_spec z 0); [eauto|].
  destruct (show_digits_head (Z.to_nat (Z.log2 z)) z []) as (d & r & _ & ->); [lia|eauto].
Qed.

Lemma digit_char_neutral d :
  0 <= d <= 9 ->
  isspace (digit_char d) = false /\ digit_char d <> "-"%char /\ digit_char d <> "+"%char.
Proof.
  intros Hd. pose proof (char_code_digit d Hd) as Hc. repeat split.
  - unfold isspace. rewrite Hc. lia.
  - intros He. rewrite He in Hc. change (char_code "-") with 45 in Hc. lia.
  - intros He. rewrite He in Hc. change (char_code "+") with 43 in Hc. lia.
Qed.

Lemma scan_base_10 s : scan_base 10 s = (10, s).
Proof.
  destruct s as [|z [|x [|d s]]]; try done. simpl.
  by rewrite !andb_false_r.
Qed.

Lemma strtol_10 s :
  strtol s 10 =
  let (neg, s2) := scan_sign (skip_space s) in
  let '(v, n, rest) := scan_digits 10 0 0 s2 in
  match n with
  | O => (0, s, false)
  | S _ =>
      let r := if neg : bool then - v else v in
      if r <? LONG_MIN then (LONG_MIN, rest, true)
      else if LONG_MAX <? r then (LONG_MAX, rest, true)
      else (r, rest, false)
  end.
Proof. unfold strtol. destruct (scan_sign (skip_space s)) as [neg s2]. by rewrite scan_base_10. Qed.

(** [strtol] reads back what [printf("%ld")] prints. *)
Lemma strtol_show z :
  LONG_MIN <= z <= LONG_MAX -> strtol (show_Z z) 10 = (z, [], false).
Proof.
  intros Hz. rewrite strtol_10. unfold show_Z. destruct (Z.ltb_spec z 0).
  - cbn [skip_space]. change (isspace "-") with false. cbn [scan_sign].
    rewrite bool_decide_eq_true_2 by done.
    destruct (scan_show_log (- z) 0) as (k & Hk & m & ->); [lia|].
    destruct k; [lia|]. cbv zeta. replace (- (0 * m + - z)) with z by lia.
    by replace (z <? LONG_MIN) with false by lia; replace (LONG_MAX <? z) with false by lia.
  - destruct (scan_show_log z 0) as (k & Hk & m & Hscan); [lia|].
    destruct (show_digits_head (Z.to_nat (Z.log2 z)) z []) as (d & rest & Hd & Hs); [lia|].
    rewrite Hs in *. destruct (digit_char_neutral d Hd) as (H1 & H2 & H3).
    cbn [skip_space]. rewrite H1. unfold scan_sign.
    rewrite !bool_decide_eq_false_2 by done. rewrite Hscan.
    destruct k; [lia|]. cbv zeta. replace (0 * m + z) with z by lia.
    by replace (z <? LONG_MIN) with false by lia; replace (LONG_MAX <? z) with false by lia.
Qed.

(** A numeral followed by something that is not a digit. *)
Definition digits_stop (rest : cstr) : Prop :=
  match rest with [] => True | c :: _ => match digit_value c with Some d => 10 <= d | None => True end end.

Lemma show_digits_app f z acc rest : show_digits f z acc ++ rest = show_digits f z (acc ++ rest).
Proof.
  revert z acc. induction f as [|f IH]; intros z acc; simpl; [done|].
  destruct (z / 10 =? 0); [done|]. by rewrite IH.
Qed.

Lemma strtol_show_app z rest :
  0 <= z <= LONG_MAX -> digits_stop rest -> strtol (show_Z z ++ rest) 10 = (z, rest, false).
Proof.
  intros Hz Hrest. rewrite strtol_10. unfold show_Z. rewrite (proj2 (Z.ltb_ge z 0)) by lia.
  rewrite show_digits_app. simpl ([] ++ rest).
  destruct (scan_show_digits (Z.to_nat (Z.log2 z)) z rest 0 0) as (m & k & Hk & Hscan).
  { rewrite Z2Nat.id by apply Z.log2_nonneg. destruct (decide (z = 0)) as [->|]; [done|].
    pose proof (Z.log2_spec z ltac:(lia)). lia. }
  destruct (show_digits_head (Z.to_nat (Z.log2 z)) z rest) as (d & r & Hd & Hs); [lia|].
  rewrite Hs in *. destruct (digit_char_neutral d Hd) as (H1 & H2 & H3).
  cbn [skip_space]. rewrite H1. unfold scan_sign. rewrite !bool_decide_eq_false_2 by done. rewrite Hscan.
  assert (Hstop : scan_digits 10 (0 * m + z) (0 + k) rest = (0 * m + z, (0 + k)%nat, rest)).
  { unfold digits_stop in Hrest. destruct rest as [|c rest]; [done|]. simpl.
    destruct (digit_value c) as [v|]; [|done]. by rewrite (proj2 (Z.ltb_ge v 10)) by done. }
  rewrite Hstop. destruct k; [lia|]. cbn [Nat.add]. cbv zeta. replace (0 * m + z) with z by lia.
  unfold LONG_MIN. by replace (z <? -9223372036854775808) with false by lia; replace (LONG_MAX <? z) with false by lia.
Qed.

(** A numeral in the [long] range is never reported as [ERANGE], and the
    result is always a [long]. *)
Lemma strtol_range s base v rest e :
  strtol s base = (v, rest, e) -> LONG_MIN <= v <= LONG_MAX.
Proof.
  unfold strtol. destruct (scan_sign _) as [neg s1]. destruct (scan_base _ _) as [b s2].
  destruct (scan_digits _ _ _ _) as [[w n] r]. destruct n.
  - intros [= <- <- <-]. unfold LONG_MIN, LONG_MAX. lia.
  - cbv zeta. repeat match goal with |- context [if ?b then _ else _] =>
      match type of b with bool => destruct b eqn:? end end;
    intros [= <- <- <-]; unfold LONG_MIN, LONG_MAX in *; lia.
Qed.

Lemma atoi_show z : INT_MIN <= z <= INT_MAX -> atoi (show_Z z) = z.
Proof.
  intros Hz. unfold atoi, INT_MIN, INT_MAX in *.
  rewrite strtol_show by (unfold LONG_MIN, LONG_MAX; lia). apply to_signed_small; lia.
Qed.

#[export] Hint Resolve snprintf_fits : tlpi.

(** ** Facts about lines *)

Lemma take_line_app n input : (take_line n input).1 ++ (take_line n input).2 = input.
Proof.
  revert input. induction n as [|n IH]; intros [|c rest]; simpl; try done.
  case_bool_decide; [done|]. specialize (IH rest). destruct (take_line n rest). simpl in *. by rewrite IH.
Qed.

Lemma take_line_length n input : (length (take_line n input).1 <= n)%nat.
Proof.
  revert input. induction n as [|n IH]; intros [|c rest]; simpl; try lia.
  case_bool_decide; [simpl; lia|]. specialize (IH rest). destruct (take_line n rest). simpl in *. lia.
Qed.

Lemma take_line_nil n input : (take_line (S n) input).1 = [] <-> input = [].
Proof. destruct input as [|c rest]; simpl; [done|]. case_bool_decide; [done|]. by destruct (take_line n rest). Qed.

Lemma string_in_length buf : (length (string_in buf) <= length buf)%nat.
Proof. induction buf as [|c buf IH]; simpl; [lia|]. case_bool_decide; simpl; lia. Qed.

Lemma strip_last_length c s : (length (strip_last c s) <= length s)%nat.
Proof. unfold strip_last. destruct (last s); [|lia]. case_bool_decide; [|lia]. rewrite length_take. lia. Qed.

Lemma string_in_id buf : NUL ∉ buf -> string_in buf = buf.
Proof.
  induction buf as [|c buf IH]; simpl; [done|]. intros Hn. rewrite bool_decide_eq_false_2 by (intros ->; apply Hn; by left).
  f_equal. apply IH. intros ?. apply Hn. by right.
Qed.

Lemma take_line_shorter n input line rest : take_line (S n) input = (line, rest) -> input <> [] -> (length rest < length input)%nat.
Proof.
  intros Ht Hi. pose proof (take_line_app (S n) input) as Ha. pose proof (take_line_nil n input) as Hn.
  rewrite Ht in Ha, Hn. simpl in *. rewrite <-Ha, length_app. destruct line; [by destruct Hi; apply Hn|simpl; lia].
Qed.

(** ** Letters that stand for flags *)

(** Every flag has bits of its own. *)
Definition own_bits (cases : list (ascii * Z)) : Prop :=
  Forall (fun x => Forall (fun y => Z.land y.2 x.2 = if bool_decide (y.1 = x.1) then x.2 else 0%Z) cases
    /\ x.2 <> 0%Z) cases.

Lemma letter_flags_app cases ls ls' : letter_flags cases (ls ++ ls') = Z.lor (letter_flags cases ls) (letter_flags cases ls').
Proof.
  induction ls as [|c ls IH]; [done|].
  change (letter_flags cases ((c :: ls) ++ ls')) with (Z.lor (default 0%Z (case_of c cases)) (letter_flags cases (ls ++ ls'))).
  rewrite IH. apply Z.lor_assoc.
Qed.

Lemma case_of_elem c flag cases : case_of c cases = Some flag -> (c, flag) ∈ cases.
Proof.
  induction cases as [|[d fl] cases IH]; cbn [case_of]; [done|]. case_bool_decide; [intros; simplify_eq; left|right; by apply IH].
Qed.

Lemma letter_flags_bit cases c flag ls : own_bits cases -> (c, flag) ∈ cases ->
  Forall (fun c => is_Some (case_of c cases)) ls -> has_bit (letter_flags cases ls) flag = true <-> c ∈ ls.
Proof.
  intros Hown Hc Hall. unfold has_bit. rewrite negb_true_iff, Z.eqb_neq.
  pose proof (proj1 (Forall_forall _ _) Hown _ Hc) as [Hb Hnz]. cbn [fst snd] in Hb, Hnz.
  induction Hall as [|d ls [fl Hd] Hall IH].
  { cbn. split; [by intros []|by intros ?%elem_of_nil]. }
  change (letter_flags cases (d :: ls)) with (Z.lor (default 0%Z (case_of d cases)) (letter_flags cases ls)).
  rewrite Hd. change (default 0%Z (Some fl)) with fl.
  rewrite Z.land_lor_distr_l, Z.lor_eq_0_iff, elem_of_cons.
  pose proof (proj1 (Forall_forall _ _) Hb _ (case_of_elem _ _ _ Hd)) as He. cbn [fst snd] in He. rewrite He.
  case_bool_decide as Hdc; [subst d; naive_solver|]. destruct IH as [IH1 IH2]. split.
  - intros H. right. apply IH1. tauto.
  - intros [->|H]; [done|]. specialize (IH2 H). tauto.
Qed.
