(* ===== verification/WatchCache.v ===== *)
(** The watch list cache of inotify_dtree.c (src/tlpi-dist/inotify): a
    dynamically sized array of slots, searched linearly, that maps inotify
    watch descriptors to directory pathnames.

    The array operations are the C loops over [wlCache]; [cacheSize] is the
    length of the list. The specification is a finite map from watch
    descriptors to pathnames ([cache_map]) and the lemmas here show that each
    array operation implements the map operation it stands for. *)
From Stdlib Require Import ZArith Lia Ascii String.
From stdpp Require Import base tactics list strings gmap sets.
From S2P Require Import Prelude CString.
#[local] Open Scope Z_scope.

Definition PATH_MAX : Z := 4096.
Definition NAME_MAX : Z := 255.

(** [struct watch]; [wd] is -1 in an unused slot. [Unwritten] is a slot that
    has not been written since realloc gave it: its [wd] is an unspecified
    integer, and the bytes of its [path] need not be a string. *)
Inductive watch :=
| Watch (wd : Z) (path : cstr)
| Unwritten (wd : Z).

Definition wd (x : watch) : Z := match x with Watch w _ | Unwritten w => w end.
Definition written (x : watch) : bool := match x with Watch _ _ => true | Unwritten _ => false end.

(** The pathname of a slot that has been written; the slots of the cache have
    been, except while [findEmptyCacheSlot] clears the new ones. *)
Definition path (x : watch) : cstr := match x with Watch _ p => p | Unwritten _ => [] end.

Definition empty_slot : watch := Watch (-1) [].

Definition in_use (w : watch) : bool := 0 <=? wd w.

(** The number of slots added when the array is full. *)
Definition ALLOC_INCR : Z := 200.

(** [findWatch]: the first slot whose descriptor is [w]; [None] is -1. *)
Definition findWatch (w : Z) (c : list watch) : option nat :=
  fst <$> list_find (fun x => wd x = w) c.

(** The store of [markCacheSlotEmpty]. *)
Definition slot_clear (slot : nat) (c : list watch) : list watch :=
  <[slot := empty_slot]> c.

(** The search of [findEmptyCacheSlot] for a free slot. *)
Definition find_free (c : list watch) : option nat :=
  fst <$> list_find (fun x => wd x = -1) c.

(** The store of [addWatchToCache]. *)
Definition slot_fill (slot : nat) (w : Z) (p : cstr) (c : list watch) : list watch :=
  <[slot := Watch w p]> c.

(** [pathnameToCacheSlot] and [pathnameInCache]. *)
Definition pathnameToCacheSlot (p : cstr) (c : list watch) : option nat :=
  fst <$> list_find (fun x => 0 <= wd x /\ path x = p) c.

Definition pathnameInCache (p : cstr) (c : list watch) : bool :=
  match pathnameToCacheSlot p c with Some _ => true | None => false end.

(** [strncmp(p, path, len) == 0 && (path[len] == '/' || path[len] == '\0')]
    with [len = strlen(p)]: the test [rewriteCachedPaths] and [zapSubtree]
    use for "is [path] the directory [p] or below it?". *)
Definition subtree_test (p q : cstr) : bool :=
  strncmp_prefix p q && (char_is q (length p) SLASH || at_nul q (length p)).

(** One turn of the loop of [rewriteCachedPaths]: [newPath] is printed into a
    buffer of [PATH_MAX] bytes. *)
Definition rewrite_slot (fullPath newPrefix : cstr) (w : watch) : watch :=
  if subtree_test fullPath (path w)
  then Watch (wd w) (snprintf PATH_MAX (newPrefix ++ drop (length fullPath) (path w)))
  else w.

(** ** The specification: a map from descriptors to pathnames *)

Definition used (c : list watch) : list watch := filter (fun x => in_use x = true) c.

Definition cache_map (c : list watch) : gmap Z cstr :=
  list_to_map ((fun x => (wd x, path x)) <$> used c).

(** [q] is the directory [p] or lies below it. *)
Definition in_subtree (p q : cstr) : Prop := q = p \/ exists r, q = p ++ SLASH :: r.

(** The invariant of the array: descriptors of used slots are distinct, free
    slots hold -1 and the empty string, and every pathname fits its array. *)
Definition slot_ok (x : watch) : Prop :=
  (0 <= wd x \/ x = empty_slot) /\ strlen (path x) < PATH_MAX /\ written x = true.

Definition cache_ok (c : list watch) : Prop :=
  NoDup (wd <$> used c) /\ Forall slot_ok c.

(** ** The subtree test *)

Lemma subtree_test_spec p q : subtree_test p q = true <-> in_subtree p q.
Proof.
  unfold subtree_test, in_subtree, char_is, at_nul.
  rewrite andb_true_iff, orb_true_iff, !bool_decide_eq_true, strncmp_prefix_spec.
  split.
  - intros [[r ->] [H|H]].
    + rewrite lookup_app_r, Nat.sub_diag in H by lia. destruct r; simplify_eq/=. eauto.
    + rewrite length_app in H. destruct r; simpl in H; [|lia]. left. by rewrite app_nil_r.
  - intros [->|[r ->]].
    + split; [exists []; by rewrite app_nil_r|by right].
    + split; [eauto|left]. by rewrite lookup_app_r, Nat.sub_diag by lia.
Qed.

#[export] Instance in_subtree_dec p q : Decision (in_subtree p q).
Proof.
  refine (match subtree_test p q as b return subtree_test p q = b -> _ with
          | true => fun H => left _ | false => fun H => right _ end eq_refl).
  - by apply subtree_test_spec.
  - rewrite <-subtree_test_spec. by rewrite H.
Defined.

Lemma subtree_test_decide p q : subtree_test p q = bool_decide (in_subtree p q).
Proof.
  case_bool_decide as H.
  - by apply subtree_test_spec.
  - apply not_true_iff_false. by rewrite subtree_test_spec.
Qed.

Lemma in_subtree_refl p : in_subtree p p.
Proof. by left. Qed.

Lemma in_subtree_trans p q r : in_subtree p q -> in_subtree q r -> in_subtree p r.
Proof.
  intros [->|[x ->]] [->|[y ->]]; unfold in_subtree; eauto.
  right. exists (x ++ SLASH :: y). by rewrite <-app_assoc.
Qed.

Lemma in_subtree_nil p : p <> [] -> ~ in_subtree p [].
Proof. intros Hp [H|[r H]]; [done|]. by destruct p. Qed.

(** ** Used slots under the array operations *)

Lemma used_app c d : used (c ++ d) = used c ++ used d.
Proof. apply filter_app. Qed.

Lemma used_cons x c : used (x :: c) = if in_use x then x :: used c else used c.
Proof. unfold used. rewrite filter_cons. by destruct (in_use x). Qed.

Lemma used_replicate n : used (replicate n empty_slot) = [].
Proof. induction n as [|n IH]; [done|]. simpl. by rewrite used_cons. Qed.

Lemma elem_of_used x c : x ∈ used c <-> x ∈ c /\ 0 <= wd x.
Proof. unfold used, in_use. rewrite list_elem_of_filter, Z.leb_le. naive_solver. Qed.

Lemma slot_split {A} (c : list A) j x :
  c !! j = Some x -> exists l r, c = l ++ x :: r /\ j = length l.
Proof.
  intros H. exists (take j c), (drop (S j) c). split.
  - symmetry. by apply take_drop_middle.
  - rewrite length_take. apply lookup_lt_Some in H. lia.
Qed.

Lemma insert_middle {A} (l r : list A) x y :
  <[length l := y]> (l ++ x :: r) = l ++ y :: r.
Proof. by rewrite insert_app_r_alt, Nat.sub_diag by lia. Qed.

(** Clearing a used slot removes exactly that entry. *)
Lemma used_clear c j x :
  c !! j = Some x -> 0 <= wd x ->
  exists l r, used c = l ++ x :: r /\ used (slot_clear j c) = l ++ r.
Proof.
  intros H Hx. destruct (slot_split _ _ _ H) as (l & r & -> & ->).
  exists (used l), (used r). unfold slot_clear. rewrite insert_middle, !used_app, !used_cons.
  replace (in_use x) with true by (unfold in_use; lia). done.
Qed.

(** Filling a free slot adds exactly one entry. *)
Lemma used_fill c j x w p :
  c !! j = Some x -> wd x < 0 -> 0 <= w ->
  exists l r, used c = l ++ r /\ used (slot_fill j w p c) = l ++ Watch w p :: r.
Proof.
  intros H Hx Hw. destruct (slot_split _ _ _ H) as (l & r & -> & ->).
  exists (used l), (used r). unfold slot_fill. rewrite insert_middle, !used_app, !used_cons.
  replace (in_use x) with false by (unfold in_use; lia).
  replace (in_use (Watch w p)) with true by (unfold in_use; simpl; lia). done.
Qed.

(** ** The searches *)

Lemma findWatch_Some w c j :
  findWatch w c = Some j <->
  exists x, c !! j = Some x /\ wd x = w /\ forall i y, (i < j)%nat -> c !! i = Some y -> wd y <> w.
Proof.
  unfold findWatch. rewrite fmap_Some. split.
  - intros [[i x] [H ->]]. apply list_find_Some in H as (H1 & H2 & H3). simpl. eauto.
  - intros (x & H1 & H2 & H3). exists (j, x). split; [|done]. apply list_find_Some.
    split; [done|]. split; [done|]. intros i y Hi Hl. eauto.
Qed.

Lemma findWatch_None w c : findWatch w c = None <-> forall x, x ∈ c -> wd x <> w.
Proof.
  unfold findWatch. rewrite fmap_None, list_find_None, Forall_forall. done.
Qed.

Lemma findWatch_lookup w c j :
  findWatch w c = Some j -> exists x, c !! j = Some x /\ wd x = w.
Proof. rewrite findWatch_Some. naive_solver. Qed.

Lemma find_free_lookup c j : find_free c = Some j -> exists x, c !! j = Some x /\ wd x = -1.
Proof.
  unfold find_free. rewrite fmap_Some. intros [[i x] [H ->]].
  apply list_find_Some in H as (H1 & H2 & _). eauto.
Qed.

Lemma find_free_None c : find_free c = None <-> forall x, x ∈ c -> wd x <> -1.
Proof. unfold find_free. rewrite fmap_None, list_find_None, Forall_forall. done. Qed.

Lemma pathnameInCache_spec p c :
  pathnameInCache p c = true <-> exists x, x ∈ c /\ 0 <= wd x /\ path x = p.
Proof.
  unfold pathnameInCache, pathnameToCacheSlot.
  destruct (list_find _ c) as [[i x]|] eqn:E; simpl.
  - apply list_find_Some in E as (H1 & [H2 H3] & _).
    split; [intros _|done]. exists x. eauto using list_elem_of_lookup_2.
  - split; [done|]. intros (x & Hx & H1 & H2). apply list_find_None in E.
    rewrite Forall_forall in E. by destruct (E x Hx).
Qed.

(** ** The array implements the map *)

Lemma cache_map_NoDup c :
  NoDup (wd <$> used c) -> NoDup (((fun x => (wd x, path x)) <$> used c).*1).
Proof. intros H. by rewrite <-list_fmap_compose. Qed.

Lemma written_Watch x : written x = true -> x = Watch (wd x) (path x).
Proof. by destruct x. Qed.

Lemma cache_ok_written c x : cache_ok c -> x ∈ c -> written x = true.
Proof. intros [_ Hf] Hx. rewrite Forall_forall in Hf. by apply Hf. Qed.

Lemma cache_map_Some c w p :
  cache_ok c -> cache_map c !! w = Some p <-> Watch w p ∈ used c.
Proof.
  intros Hok. unfold cache_map. rewrite <-elem_of_list_to_map by apply cache_map_NoDup, Hok.
  rewrite list_elem_of_fmap. split.
  - intros (x & [= -> ->] & H). rewrite <-written_Watch; [done|].
    apply (cache_ok_written c); [done|]. by apply elem_of_used in H as [H _].
  - intros H. by exists (Watch w p).
Qed.

Lemma cache_map_None c w :
  cache_map c !! w = None <-> forall x, x ∈ used c -> wd x <> w.
Proof.
  unfold cache_map. rewrite <-not_elem_of_list_to_map.
  rewrite <-list_fmap_compose, list_elem_of_fmap. split.
  - intros H x Hx He. apply H. exists x. by rewrite <-He.
  - intros H (x & -> & Hx). by apply (H x).
Qed.

(** What [findWatch] finds is the map's binding. *)
Lemma findWatch_map c w :
  cache_ok c -> 0 <= w ->
  cache_map c !! w = (findWatch w c ≫= fun j => path <$> c !! j).
Proof.
  intros Hok Hw. destruct (findWatch w c) as [j|] eqn:E; simpl.
  - destruct (findWatch_lookup _ _ _ E) as (x & Hx & <-). rewrite Hx. simpl.
    apply list_elem_of_lookup_2 in Hx. apply cache_map_Some; [done|].
    rewrite <-written_Watch by by eapply cache_ok_written. by apply elem_of_used.
  - apply cache_map_None. intros x [Hx _]%elem_of_used. by eapply findWatch_None.
Qed.

Lemma NoDup_middle {A} (l r : list A) x : NoDup (l ++ x :: r) <-> (x ∉ l ++ r) /\ NoDup (l ++ r).
Proof. by rewrite <-Permutation_middle, NoDup_cons. Qed.

Lemma list_to_map_middle {A} (l r : list (Z * A)) x :
  NoDup ((l ++ x :: r).*1) ->
  list_to_map (l ++ x :: r) = <[x.1 := x.2]> (list_to_map (l ++ r) : gmap Z A).
Proof.
  intros H. rewrite (list_to_map_proper (l ++ x :: r) (x :: l ++ r));
    [by destruct x|done|by rewrite Permutation_middle].
Qed.

Lemma cache_map_clear c j x :
  cache_ok c -> c !! j = Some x -> 0 <= wd x ->
  cache_map (slot_clear j c) = delete (wd x) (cache_map c).
Proof.
  intros [Hnd _] Hj Hx. destruct (used_clear _ _ _ Hj Hx) as (l & r & Hu & Hc).
  pose proof (cache_map_NoDup _ Hnd) as Hn. unfold cache_map. rewrite Hc. rewrite Hu in Hn |- *.
  rewrite (fmap_app _ l (x :: r)), fmap_cons in Hn |- *.
  rewrite list_to_map_middle by done.
  rewrite fmap_app, delete_insert_id; [done|]. apply not_elem_of_list_to_map.
  rewrite fmap_app, fmap_cons in Hn. apply NoDup_middle in Hn as [Hn _]. by rewrite fmap_app.
Qed.

Lemma cache_map_fill c j x w p :
  cache_ok c -> c !! j = Some x -> wd x < 0 -> 0 <= w -> cache_map c !! w = None ->
  cache_map (slot_fill j w p c) = <[w := p]> (cache_map c).
Proof.
  intros [Hnd _] Hj Hx Hw Hfresh.
  destruct (used_fill _ _ _ w p Hj Hx Hw) as (l & r & Hu & Hc).
  pose proof (cache_map_NoDup _ Hnd) as Hn.
  rewrite cache_map_None in Hfresh. unfold cache_map. rewrite Hc. rewrite Hu in *.
  rewrite fmap_app, fmap_cons, list_to_map_middle; [by rewrite fmap_app|].
  rewrite fmap_app, fmap_cons. apply NoDup_middle. rewrite <-!fmap_app. split; [|done].
  rewrite <-list_fmap_compose, list_elem_of_fmap. intros (y & He & Hy). by apply (Hfresh y).
Qed.

(** ** Each operation keeps the invariant *)

Lemma empty_slot_ok : slot_ok empty_slot.
Proof. split; [by right|]. unfold strlen, PATH_MAX. simpl. lia. Qed.

Lemma cache_ok_nil : cache_ok [].
Proof. split; constructor. Qed.

Lemma cache_ok_clear c j : cache_ok c -> cache_ok (slot_clear j c).
Proof.
  intros [Hnd Hf]. split; [|by apply Forall_insert, empty_slot_ok].
  destruct (c !! j) as [x|] eqn:Hj.
  - destruct (slot_split _ _ _ Hj) as (l & r & -> & ->). unfold slot_clear.
    rewrite insert_middle. rewrite used_app, used_cons, fmap_app in *.
    change (in_use empty_slot) with false. cbn iota. destruct (in_use x); [|done].
    rewrite fmap_cons in Hnd. by apply NoDup_middle in Hnd as [_ Hnd].
  - unfold slot_clear. rewrite list_insert_ge; [done|]. by apply lookup_ge_None.
Qed.

Lemma cache_ok_fill c j x w p :
  cache_ok c -> c !! j = Some x -> wd x < 0 -> 0 <= w -> strlen p < PATH_MAX ->
  cache_map c !! w = None -> cache_ok (slot_fill j w p c).
Proof.
  intros [Hnd Hf] Hj Hx Hw Hp Hfresh. split.
  - destruct (used_fill _ _ _ w p Hj Hx Hw) as (l & r & Hu & Hc).
    rewrite cache_map_None in Hfresh. rewrite Hc, fmap_app, fmap_cons. rewrite Hu in *.
    apply NoDup_middle. rewrite <-fmap_app. split; [|done].
    rewrite list_elem_of_fmap. intros (y & He & Hy). by apply (Hfresh y).
  - apply Forall_insert; [done|]. split; [by left|done].
Qed.

Lemma cache_ok_grow c n : cache_ok c -> cache_ok (c ++ replicate n empty_slot).
Proof.
  intros [Hnd Hf]. split.
  - by rewrite used_app, used_replicate, app_nil_r.
  - apply Forall_app. split; [done|]. apply Forall_replicate, empty_slot_ok.
Qed.

Lemma cache_map_grow c n : cache_map (c ++ replicate n empty_slot) = cache_map c.
Proof. unfold cache_map. by rewrite used_app, used_replicate, app_nil_r. Qed.

(** ** The rewrite of a renamed subtree *)

Lemma rewrite_slot_wd a b x : wd (rewrite_slot a b x) = wd x.
Proof. unfold rewrite_slot. by destruct (subtree_test _ _). Qed.

(** The pathname of [q] after the directory [a] was renamed to [b]. *)
Definition renamed (a b q : cstr) : cstr :=
  if bool_decide (in_subtree a q) then b ++ drop (length a) q else q.

Lemma rewrite_slot_path a b x :
  path (rewrite_slot a b x) = renamed a b (path x)
  \/ PATH_MAX <= strlen (renamed a b (path x)).
Proof.
  unfold rewrite_slot, renamed. rewrite subtree_test_decide.
  destruct (bool_decide (in_subtree a (path x))); simpl; [|by left].
  destruct (Z_lt_le_dec (strlen (b ++ drop (length a) (path x))) PATH_MAX); [|by right].
  left. by apply snprintf_fits.
Qed.

Lemma used_fmap_wd (f : watch -> watch) c :
  (forall x, wd (f x) = wd x) -> used (f <$> c) = f <$> used c.
Proof.
  intros Hf. induction c as [|x c IH]; [done|]. rewrite fmap_cons, !used_cons.
  replace (in_use (f x)) with (in_use x) by (unfold in_use; by rewrite Hf).
  destruct (in_use x); [|done]. by rewrite fmap_cons, IH.
Qed.

Lemma cache_ok_rewrite a b c :
  a <> [] -> cache_ok c -> cache_ok (rewrite_slot a b <$> c).
Proof.
  intros Ha [Hnd Hf]. split.
  - rewrite used_fmap_wd by apply rewrite_slot_wd. rewrite <-list_fmap_compose.
    erewrite list_fmap_ext; [exact Hnd|]. intros i x _. apply rewrite_slot_wd.
  - apply Forall_fmap. eapply Forall_impl; [exact Hf|]. intros x [Hx Hp].
    unfold compose, rewrite_slot. rewrite subtree_test_decide.
    case_bool_decide as Hs; [|done]. split; simpl.
    + left. destruct Hx as [Hx|Hx]; [done|]. subst x. by apply in_subtree_nil in Hs.
    + split; [by apply snprintf_bound|done].
Qed.

Lemma cache_map_rewrite a b c :
  cache_ok c ->
  (forall q, in_subtree a q -> q ∈ path <$> used c ->
     strlen (b ++ drop (length a) q) < PATH_MAX) ->
  cache_map (rewrite_slot a b <$> c) = renamed a b <$> cache_map c.
Proof.
  intros [Hnd _] Hfit. unfold cache_map. rewrite used_fmap_wd by apply rewrite_slot_wd.
  rewrite <-list_to_map_fmap, <-!list_fmap_compose. f_equal. apply list_fmap_ext.
  intros i x Hx. unfold compose. simpl. rewrite rewrite_slot_wd. f_equal.
  unfold rewrite_slot, renamed. rewrite subtree_test_decide. case_bool_decide as Hs; [|done].
  simpl. apply snprintf_fits. apply Hfit; [done|]. apply list_elem_of_fmap.
  exists x. eauto using list_elem_of_lookup_2.
Qed.

Lemma renamed_in a b q : in_subtree a q -> exists r, q = a ++ r /\ renamed a b q = b ++ r /\ in_subtree b (b ++ r).
Proof.
  intros Hs. unfold renamed. rewrite bool_decide_eq_true_2 by done.
  destruct Hs as [->|[r ->]].
  - exists []. rewrite drop_all, !app_nil_r. split_and!; [done|done|apply in_subtree_refl].
  - exists (SLASH :: r). rewrite drop_app_length. split_and!; [done|done|]. right. eauto.
Qed.

(** Renaming back undoes the rewrite of a slot. *)
Lemma rewrite_slot_back a b x :
  written x = true -> strlen (path x) < PATH_MAX -> ~ in_subtree b (path x) ->
  (in_subtree a (path x) -> strlen (b ++ drop (length a) (path x)) < PATH_MAX) ->
  rewrite_slot b a (rewrite_slot a b x) = x.
Proof.
  intros Hwr Hx Hb Hfit. unfold rewrite_slot. rewrite !subtree_test_decide.
  destruct (decide (in_subtree a (path x))) as [Hs|Hs].
  - rewrite (bool_decide_eq_true_2 (in_subtree a _)) by done. cbn [path wd].
    rewrite snprintf_fits by auto.
    destruct (renamed_in _ b _ Hs) as (r & Hr & _ & Hbr). rewrite Hr, drop_app_length.
    rewrite bool_decide_eq_true_2 by done. rewrite drop_app_length, <-Hr.
    rewrite snprintf_fits by done. by destruct x.
  - rewrite (bool_decide_eq_false_2 (in_subtree a _)) by done.
    by rewrite bool_decide_eq_false_2.
Qed.
