(* ===== verification/DirTree.v ===== *)
(** The state of inotify_dtree.c (src/tlpi-dist/inotify), the operating
    system it runs on, and its logging.

    The static variables of the program are the fields of [dtree]; [main]'s
    local [inotifyFd], which the handlers receive by address, is a field too.
    The kernel and the file system are a type [K] with the operations of the
    class [InotifyOS]; each call may change [K] in any way (other processes
    run at the same time). [cacheSize] is the length of [wlCache] and
    [numRootDirs] the length of [rootDirPaths].

    Messages are kept unformatted, as the format string of the source and
    its arguments, in the stream they are written to. *)
From Stdlib Require Import ZArith Lia Ascii String.
From stdpp Require Import base tactics list strings gmap sets.
From S2P Require Import Prelude CString WatchCache.
#[local] Open Scope Z_scope.

(** ** Events and messages *)

Definition IN_MOVED_FROM : Z := 0x40.
Definition IN_MOVED_TO : Z := 0x80.
Definition IN_CREATE : Z := 0x100.
Definition IN_DELETE_SELF : Z := 0x400.
Definition IN_MOVE_SELF : Z := 0x800.
Definition IN_UNMOUNT : Z := 0x2000.
Definition IN_Q_OVERFLOW : Z := 0x4000.
Definition IN_IGNORED : Z := 0x8000.
Definition IN_ONLYDIR : Z := 0x1000000.
Definition IN_ISDIR : Z := 0x40000000.

Definition ENOENT : Z := 2.
Definition EINTR : Z := 4.
Definition ENOMEM : Z := 12.

(** [struct inotify_event]; [ev_len] counts the bytes of the name field with
    its padding, [ev_name] is the string in it. *)
Record inotify_event := Event {
  ev_wd : Z;
  ev_mask : Z;
  ev_cookie : Z;
  ev_len : Z;
  ev_name : cstr
}.

Definition sizeof_inotify_event : Z := 16.
Definition ev_size (e : inotify_event) : Z := sizeof_inotify_event + ev_len e.

Definition INOTIFY_READ_BUF_LEN : Z := 100 * (sizeof_inotify_event + NAME_MAX + 1).

(** An argument of a [printf]-style call; [AErr] is [strerror(errno)]. *)
Inductive logarg := AInt (z : Z) | AStr (s : cstr) | AErr (e : Z) | AChr (c : ascii).
Record logmsg := Msg { msg_format : string; msg_args : list logarg }.

Definition VB_BASIC : Z := 1.
Definition VB_NOISY : Z := 2.

(** ** The operating system *)

(** What [lstat] reports of a file. *)
Record stat := Stat { st_isdir : bool; st_ino : Z; st_dev : Z }.

(** A [read] of inotify events: whole events, or an error. An empty list is a
    return of 0. *)
Inductive event_read := ReadEvents (evs : list inotify_event) | ReadError (e : Z).

(** The calls the program makes. [os_realloc] gives the integers that happen
    to be where the new slots have their [wd], [None] when out of memory;
    [os_nftw] the objects visited below a directory, with whether each is a directory, and the error if the walk
    failed; [os_select] the descriptors that are ready; [os_read_stdin] the
    bytes typed, [None] for an error or end of file. *)
Class InotifyOS (K : Type) := {
  os_realloc : K -> Z -> Z -> K * option (list Z);
  os_inotify_init : K -> K * (Z + Z);
  os_close : K -> Z -> K;
  os_add_watch : K -> Z -> cstr -> Z -> K * (Z + Z);
  os_rm_watch : K -> Z -> Z -> K * option Z;
  os_nftw : K -> cstr -> K * (list (cstr * bool) * option Z);
  os_lstat : K -> cstr -> K * (Z + stat);
  os_read : K -> Z -> Z -> K * event_read;
  os_sigaction : K -> K * option Z;
  os_ualarm : K -> Z -> K;
  os_select : K -> Z -> K * (Z + list Z);
  os_read_stdin : K -> Z -> K * option (list ascii);
  os_fopen : K -> cstr -> K * bool;
  os_fputs : K -> cstr -> cstr -> K;
  os_fclose : K -> cstr -> K
}.

(** Documented behaviour the theorems rely on: the memory obtained has the
    size asked for, watch descriptors are not negative, and file descriptors
    are not negative. *)
Class InotifyOSLaws (K : Type) `{InotifyOS K} := {
  os_realloc_size k old new k' slots :
    os_realloc k old new = (k', Some slots) -> Z.of_nat (length slots) = new - old;
  os_add_watch_nonneg k fd p fl k' w : os_add_watch k fd p fl = (k', inr w) -> 0 <= w;
  os_init_nonneg k k' fd : os_inotify_init k = (k', inr fd) -> 0 <= fd
}.

Section State.
Context {K : Type}.

Record dtree := Dtree {
  verboseMask : Z;
  checkCache : bool;
  dumpCache : bool;
  readBufferSize : Z;
  stopFile : option cstr;
  abortOnCacheProblem : bool;
  logfp : bool;
  inotifyReadCnt : Z;
  wlCache : list watch;
  rootDirPaths : list (option cstr);
  ignoreRootDirs : Z;
  dirCnt : Z;
  ifd : Z;
  reinitCnt : Z;
  overflowCnt : Z;
  inotifyFd : Z;
  to_stderr : list logmsg;
  to_logfile : list logmsg;
  to_stdout : list logmsg;
  stopFileMade : option cstr;
  os : K
}.

Definition set_verboseMask (v : Z) (s : dtree) : dtree :=
  Dtree v (checkCache s) (dumpCache s) (readBufferSize s) (stopFile s)
    (abortOnCacheProblem s) (logfp s) (inotifyReadCnt s) (wlCache s) (rootDirPaths s)
    (ignoreRootDirs s) (dirCnt s) (ifd s) (reinitCnt s) (overflowCnt s) (inotifyFd s)
    (to_stderr s) (to_logfile s) (to_stdout s) (stopFileMade s) (os s).
Definition set_checkCache (v : bool) (s : dtree) : dtree :=
  Dtree (verboseMask s) v (dumpCache s) (readBufferSize s) (stopFile s)
    (abortOnCacheProblem s) (logfp s) (inotifyReadCnt s) (wlCache s) (rootDirPaths s)
    (ignoreRootDirs s) (dirCnt s) (ifd s) (reinitCnt s) (overflowCnt s) (inotifyFd s)
    (to_stderr s) (to_logfile s) (to_stdout s) (stopFileMade s) (os s).
Definition set_dumpCache (v : bool) (s : dtree) : dtree :=
  Dtree (verboseMask s) (checkCache s) v (readBufferSize s) (stopFile s)
    (abortOnCacheProblem s) (logfp s) (inotifyReadCnt s) (wlCache s) (rootDirPaths s)
    (ignoreRootDirs s) (dirCnt s) (ifd s) (reinitCnt s) (overflowCnt s) (inotifyFd s)
    (to_stderr s) (to_logfile s) (to_stdout s) (stopFileMade s) (os s).
Definition set_readBufferSize (v : Z) (s : dtree) : dtree :=
  Dtree (verboseMask s) (checkCache s) (dumpCache s) v (stopFile s)
    (abortOnCacheProblem s) (logfp s) (inotifyReadCnt s) (wlCache s) (rootDirPaths s)
    (ignoreRootDirs s) (dirCnt s) (ifd s) (reinitCnt s) (overflowCnt s) (inotifyFd s)
    (to_stderr s) (to_logfile s) (to_stdout s) (stopFileMade s) (os s).
Definition set_stopFile (v : option cstr) (s : dtree) : dtree :=
  Dtree (verboseMask s) (checkCache s) (dumpCache s) (readBufferSize s) v
    (abortOnCacheProblem s) (logfp s) (inotifyReadCnt s) (wlCache s) (rootDirPaths s)
    (ignoreRootDirs s) (dirCnt s) (ifd s) (reinitCnt s) (overflowCnt s) (inotifyFd s)
    (to_stderr s) (to_logfile s) (to_stdout s) (stopFileMade s) (os s).
Definition set_abortOnCacheProblem (v : bool) (s : dtree) : dtree :=
  Dtree (verboseMask s) (checkCache s) (dumpCache s) (readBufferSize s) (stopFile s) v
    (logfp s) (inotifyReadCnt s) (wlCache s) (rootDirPaths s) (ignoreRootDirs s)
    (dirCnt s) (ifd s) (reinitCnt s) (overflowCnt s) (inotifyFd s) (to_stderr s)
    (to_logfile s) (to_stdout s) (stopFileMade s) (os s).
Definition set_logfp (v : bool) (s : dtree) : dtree :=
  Dtree (verboseMask s) (checkCache s) (dumpCache s) (readBufferSize s) (stopFile s)
    (abortOnCacheProblem s) v (inotifyReadCnt s) (wlCache s) (rootDirPaths s)
    (ignoreRootDirs s) (dirCnt s) (ifd s) (reinitCnt s) (overflowCnt s) (inotifyFd s)
    (to_stderr s) (to_logfile s) (to_stdout s) (stopFileMade s) (os s).
Definition set_inotifyReadCnt (v : Z) (s : dtree) : dtree :=
  Dtree (verboseMask s) (checkCache s) (dumpCache s) (readBufferSize s) (stopFile s)
    (abortOnCacheProblem s) (logfp s) v (wlCache s) (rootDirPaths s) (ignoreRootDirs s)
    (dirCnt s) (ifd s) (reinitCnt s) (overflowCnt s) (inotifyFd s) (to_stderr s)
    (to_logfile s) (to_stdout s) (stopFileMade s) (os s).
Definition set_wlCache (v : list watch) (s : dtree) : dtree :=
  Dtree (verboseMask s) (checkCache s) (dumpCache s) (readBufferSize s) (stopFile s)
    (abortOnCacheProblem s) (logfp s) (inotifyReadCnt s) v (rootDirPaths s)
    (ignoreRootDirs s) (dirCnt s) (ifd s) (reinitCnt s) (overflowCnt s) (inotifyFd s)
    (to_stderr s) (to_logfile s) (to_stdout s) (stopFileMade s) (os s).
Definition set_rootDirPaths (v : list (option cstr)) (s : dtree) : dtree :=
  Dtree (verboseMask s) (checkCache s) (dumpCache s) (readBufferSize s) (stopFile s)
    (abortOnCacheProblem s) (logfp s) (inotifyReadCnt s) (wlCache s) v (ignoreRootDirs s)
    (dirCnt s) (ifd s) (reinitCnt s) (overflowCnt s) (inotifyFd s) (to_stderr s)
    (to_logfile s) (to_stdout s) (stopFileMade s) (os s).
Definition set_ignoreRootDirs (v : Z) (s : dtree) : dtree :=
  Dtree (verboseMask s) (checkCache s) (dumpCache s) (readBufferSize s) (stopFile s)
    (abortOnCacheProblem s) (logfp s) (inotifyReadCnt s) (wlCache s) (rootDirPaths s) v
    (dirCnt s) (ifd s) (reinitCnt s) (overflowCnt s) (inotifyFd s) (to_stderr s)
    (to_logfile s) (to_stdout s) (stopFileMade s) (os s).
Definition set_dirCnt (v : Z) (s : dtree) : dtree :=
  Dtree (verboseMask s) (checkCache s) (dumpCache s) (readBufferSize s) (stopFile s)
    (abortOnCacheProblem s) (logfp s) (inotifyReadCnt s) (wlCache s) (rootDirPaths s)
    (ignoreRootDirs s) v (ifd s) (reinitCnt s) (overflowCnt s) (inotifyFd s) (to_stderr s)
    (to_logfile s) (to_stdout s) (stopFileMade s) (os s).
Definition set_ifd (v : Z) (s : dtree) : dtree :=
  Dtree (verboseMask s) (checkCache s) (dumpCache s) (readBufferSize s) (stopFile s)
    (abortOnCacheProblem s) (logfp s) (inotifyReadCnt s) (wlCache s) (rootDirPaths s)
    (ignoreRootDirs s) (dirCnt s) v (reinitCnt s) (overflowCnt s) (inotifyFd s)
    (to_stderr s) (to_logfile s) (to_stdout s) (stopFileMade s) (os s).
Definition set_reinitCnt (v : Z) (s : dtree) : dtree :=
  Dtree (verboseMask s) (checkCache s) (dumpCache s) (readBufferSize s) (stopFile s)
    (abortOnCacheProblem s) (logfp s) (inotifyReadCnt s) (wlCache s) (rootDirPaths s)
    (ignoreRootDirs s) (dirCnt s) (ifd s) v (overflowCnt s) (inotifyFd s) (to_stderr s)
    (to_logfile s) (to_stdout s) (stopFileMade s) (os s).
Definition set_overflowCnt (v : Z) (s : dtree) : dtree :=
  Dtree (verboseMask s) (checkCache s) (dumpCache s) (readBufferSize s) (stopFile s)
    (abortOnCacheProblem s) (logfp s) (inotifyReadCnt s) (wlCache s) (rootDirPaths s)
    (ignoreRootDirs s) (dirCnt s) (ifd s) (reinitCnt s) v (inotifyFd s) (to_stderr s)
    (to_logfile s) (to_stdout s) (stopFileMade s) (os s).
Definition set_inotifyFd (v : Z) (s : dtree) : dtree :=
  Dtree (verboseMask s) (checkCache s) (dumpCache s) (readBufferSize s) (stopFile s)
    (abortOnCacheProblem s) (logfp s) (inotifyReadCnt s) (wlCache s) (rootDirPaths s)
    (ignoreRootDirs s) (dirCnt s) (ifd s) (reinitCnt s) (overflowCnt s) v (to_stderr s)
    (to_logfile s) (to_stdout s) (stopFileMade s) (os s).
Definition set_to_stderr (v : list logmsg) (s : dtree) : dtree :=
  Dtree (verboseMask s) (checkCache s) (dumpCache s) (readBufferSize s) (stopFile s)
    (abortOnCacheProblem s) (logfp s) (inotifyReadCnt s) (wlCache s) (rootDirPaths s)
    (ignoreRootDirs s) (dirCnt s) (ifd s) (reinitCnt s) (overflowCnt s) (inotifyFd s) v
    (to_logfile s) (to_stdout s) (stopFileMade s) (os s).
Definition set_to_logfile (v : list logmsg) (s : dtree) : dtree :=
  Dtree (verboseMask s) (checkCache s) (dumpCache s) (readBufferSize s) (stopFile s)
    (abortOnCacheProblem s) (logfp s) (inotifyReadCnt s) (wlCache s) (rootDirPaths s)
    (ignoreRootDirs s) (dirCnt s) (ifd s) (reinitCnt s) (overflowCnt s) (inotifyFd s)
    (to_stderr s) v (to_stdout s) (stopFileMade s) (os s).
Definition set_to_stdout (v : list logmsg) (s : dtree) : dtree :=
  Dtree (verboseMask s) (checkCache s) (dumpCache s) (readBufferSize s) (stopFile s)
    (abortOnCacheProblem s) (logfp s) (inotifyReadCnt s) (wlCache s) (rootDirPaths s)
    (ignoreRootDirs s) (dirCnt s) (ifd s) (reinitCnt s) (overflowCnt s) (inotifyFd s)
    (to_stderr s) (to_logfile s) v (stopFileMade s) (os s).
Definition set_stopFileMade (v : option cstr) (s : dtree) : dtree :=
  Dtree (verboseMask s) (checkCache s) (dumpCache s) (readBufferSize s) (stopFile s)
    (abortOnCacheProblem s) (logfp s) (inotifyReadCnt s) (wlCache s) (rootDirPaths s)
    (ignoreRootDirs s) (dirCnt s) (ifd s) (reinitCnt s) (overflowCnt s) (inotifyFd s)
    (to_stderr s) (to_logfile s) (to_stdout s) v (os s).
Definition set_os (v : K) (s : dtree) : dtree :=
  Dtree (verboseMask s) (checkCache s) (dumpCache s) (readBufferSize s) (stopFile s)
    (abortOnCacheProblem s) (logfp s) (inotifyReadCnt s) (wlCache s) (rootDirPaths s)
    (ignoreRootDirs s) (dirCnt s) (ifd s) (reinitCnt s) (overflowCnt s) (inotifyFd s)
    (to_stderr s) (to_logfile s) (to_stdout s) (stopFileMade s) v.

End State.
Arguments dtree K : clear implicits.

(** ** Output *)

Section Output.
Context {K : Type}.
Abbreviation DM := (M (dtree K)).

Definition fprintf_stderr (fmt : string) (args : list logarg) : DM unit :=
  modify (fun s => set_to_stderr (to_stderr s ++ [Msg fmt args]) s).
Definition printf (fmt : string) (args : list logarg) : DM unit :=
  modify (fun s => set_to_stdout (to_stdout s ++ [Msg fmt args]) s).

(** [fprintf(logfp, ...)]: undefined when no log file was opened. *)
Definition fprintf_log (fmt : string) (args : list logarg) : DM unit :=
  let! s := get in
  if logfp s then modify (fun s => set_to_logfile (to_logfile s ++ [Msg fmt args]) s)
  else undef.

(** Whether a message of these levels goes anywhere. *)
Definition shown (vb_mask : Z) (s : dtree K) : bool :=
  (vb_mask =? 0) || has_bit vb_mask (verboseMask s) || logfp s.

Definition logMessage (vb_mask : Z) (fmt : string) (args : list logarg) : DM unit :=
  let! s := get in
  when ((vb_mask =? 0) || has_bit vb_mask (verboseMask s)) (fprintf_stderr fmt args) ;;;
  when (logfp s) (fprintf_log fmt args).

Definition dumpCacheToLog : DM unit :=
  let! s := get in
  for_each (zip (seq 0 (length (wlCache s))) (wlCache s)) (fun '(j, x) =>
    when (in_use x)
      (fprintf_log "%d: wd = %d; %s\n" [AInt (Z.of_nat j); AInt (wd x); AStr (path x)])) ;;;
  fprintf_log "Total entries: %d\n" [AInt (Z.of_nat (length (used (wlCache s))))].

(** The result of [open(stopFile, ...)] is not looked at. *)
Definition createStopFileAndAbort {A} : DM A :=
  modify (fun s => set_stopFileMade (stopFile s) s) ;;;
  dumpCacheToLog ;;;
  exit ABORT.

Definition displayInotifyEvent (ev : inotify_event) : DM unit :=
  logMessage VB_NOISY "==> wd = %d; " [AInt (ev_wd ev)] ;;;
  when (0 <? ev_cookie ev) (logMessage VB_NOISY "cookie = %4d; " [AInt (ev_cookie ev)]) ;;;
  logMessage VB_NOISY "mask = " [] ;;;
  when (has_bit (ev_mask ev) IN_ISDIR) (logMessage VB_NOISY "IN_ISDIR " []) ;;;
  when (has_bit (ev_mask ev) IN_CREATE) (logMessage VB_NOISY "IN_CREATE " []) ;;;
  when (has_bit (ev_mask ev) IN_DELETE_SELF) (logMessage VB_NOISY "IN_DELETE_SELF " []) ;;;
  when (has_bit (ev_mask ev) IN_MOVE_SELF) (logMessage VB_NOISY "IN_MOVE_SELF " []) ;;;
  when (has_bit (ev_mask ev) IN_MOVED_FROM) (logMessage VB_NOISY "IN_MOVED_FROM " []) ;;;
  when (has_bit (ev_mask ev) IN_MOVED_TO) (logMessage VB_NOISY "IN_MOVED_TO " []) ;;;
  when (has_bit (ev_mask ev) IN_IGNORED) (logMessage VB_NOISY "IN_IGNORED " []) ;;;
  when (has_bit (ev_mask ev) IN_Q_OVERFLOW) (logMessage VB_NOISY "IN_Q_OVERFLOW " []) ;;;
  when (has_bit (ev_mask ev) IN_UNMOUNT) (logMessage VB_NOISY "IN_UNMOUNT " []) ;;;
  logMessage VB_NOISY "\n" [] ;;;
  when (0 <? ev_len ev) (logMessage VB_NOISY "        name = %s\n" [AStr (ev_name ev)]).

End Output.
