(* ===== verification/WatchTree.v ===== *)
(** inotify_dtree.c (src/tlpi-dist/inotify): the functions that keep the
    watch cache, the table of root directories and the kernel's watch list in
    step: adding and clearing cache slots, walking a subtree to watch it,
    zapping a subtree, rewriting the paths of a renamed one, and rebuilding
    everything. *)
From Stdlib Require Import ZArith Lia Ascii String.
From stdpp Require Import base tactics list strings gmap sets.
From S2P Require Import Prelude CString WatchCache DirTree.
#[local] Open Scope Z_scope.

Section Code.
Context {K : Type} `{InotifyOS K}.
Abbreviation DM := (M (dtree K)).

(** [wlCache[slot]], an access out of bounds being undefined. *)
Definition read_slot (slot : nat) : DM watch :=
  let! s := get in
  match wlCache s !! slot with
  | Some x => ret x
  | None => undef
  end.

Definition update_cache (f : list watch -> list watch) : DM unit :=
  modify (fun s => set_wlCache (f (wlCache s)) s).

Definition slots_of (s : dtree K) : list nat := seq 0 (length (wlCache s)).

(** A call into the kernel. *)
Definition sys {A} (call : K -> K * A) : DM A := fun s =>
  let (k', a) := call (os s) in Ret a (set_os k' s).

Definition lstat (p : cstr) : DM (Z + stat) := sys (fun k => os_lstat k p).

(** ** The cache *)

Definition freeCache : DM unit := modify (set_wlCache []).

(** [sb] is declared outside the loop and not initialised; the else branch
    belongs to the test for an unused slot. *)
Fixpoint check_slots (slots : list (nat * watch)) (sb : option stat) (failures : Z) : DM Z :=
  match slots with
  | [] => ret failures
  | (j, x) :: rest =>
      if in_use x then
        let! r := lstat (path x) in
        match r with
        | inl e =>
            logMessage 0 "checkCacheConsistency: stat: [slot = %d; wd = %d] %s: %s\n"
              [AInt (Z.of_nat j); AInt (wd x); AStr (path x); AErr e] ;;;
            check_slots rest sb (failures + 1)
        | inr st => check_slots rest (Some st) failures
        end
      else
        match sb with
        | None => undef
        | Some st =>
            if st_isdir st then check_slots rest sb failures
            else
              logMessage 0 "checkCacheConsistency: %s is not a directory\n" [AStr (path x)] ;;;
              exit EXIT_FAILURE
        end
  end.

Definition checkCacheConsistency : DM unit :=
  let! s := get in
  let! failures := check_slots (zip (slots_of s) (wlCache s)) None 0 in
  when (0 <? failures)
    (logMessage VB_NOISY "checkCacheConsistency: %d failures\n" [AInt failures]).

(** [None] stands for the return of -1. *)
Definition findWatchChecked (w : Z) : DM (option nat) :=
  let! s := get in
  match findWatch w (wlCache s) with
  | Some slot => ret (Some slot)
  | None =>
      logMessage 0 "Could not find watch %d\n" [AInt w] ;;;
      if abortOnCacheProblem s then createStopFileAndAbort else ret None
  end.

(** The descriptor of a slot that has not been written is an integer like any
    other to pass on, but printing it, or such a slot's bytes as a string, is
    undefined. *)
Definition markCacheSlotEmpty (slot : nat) : DM unit :=
  let! x := read_slot slot in
  let! s := get in
  when (negb (written x) && shown VB_NOISY s) undef ;;;
  logMessage VB_NOISY "        markCacheSlotEmpty: slot = %d;  wd = %d; path = %s\n"
    [AInt (Z.of_nat slot); AInt (wd x); AStr (path x)] ;;;
  update_cache (slot_clear slot).

Definition findEmptyCacheSlot : DM nat :=
  let! s := get in
  match find_free (wlCache s) with
  | Some j => ret j
  | None =>
      let cacheSize := Z.of_nat (length (wlCache s)) in
      let! r := sys (fun k => os_realloc k cacheSize (cacheSize + ALLOC_INCR)) in
      match r with
      | None => fprintf_stderr "realloc: %s\n" [AErr ENOMEM] ;;; exit EXIT_FAILURE
      | Some fresh =>
          update_cache (fun c => c ++ (Unwritten <$> fresh)) ;;;
          for_each (seq (length (wlCache s)) (length fresh)) markCacheSlotEmpty ;;;
          ret (length (wlCache s))
      end
  end.

(** [strncpy] of a pathname of [PATH_MAX] bytes or more would leave [path]
    without a terminating null, and every later use of it as a string would
    read past the array: the store is undefined. *)
Definition addWatchToCache (w : Z) (pathname : cstr) : DM nat :=
  let! slot := findEmptyCacheSlot in
  if strlen pathname <? PATH_MAX
  then update_cache (slot_fill slot w pathname) ;;; ret slot
  else undef.

(** ** The root directories *)

(** The first loop of [copyRootDirPaths]: every argument is a directory. *)
Fixpoint check_roots (argv : list cstr) : DM unit :=
  match argv with
  | [] => ret tt
  | p :: rest =>
      let! r := lstat p in
      match r with
      | inl _ => fprintf_stderr "lstat() failed on '%s'\n" [AStr p] ;;; exit EXIT_FAILURE
      | inr st =>
          if st_isdir st then check_roots rest
          else fprintf_stderr "'%s' is not a directory\n" [AStr p] ;;; exit EXIT_FAILURE
      end
  end.

(** The second loop: [before] holds the paths and i-nodes copied so far. *)
Fixpoint copy_roots (argv : list cstr) (before : list (cstr * stat)) :
    DM (list (cstr * stat)) :=
  match argv with
  | [] => ret before
  | p :: rest =>
      let! r := lstat p in
      match r with
      | inl e => fprintf_stderr "lstat: %s\n" [AErr e] ;;; exit EXIT_FAILURE
      | inr st =>
          match list_find (fun q => st_ino q.2 = st_ino st /\ st_dev q.2 = st_dev st) before with
          | Some (_, q) =>
              fprintf_stderr "Duplicate filesystem objects: %s, %s\n" [AStr p; AStr q.1] ;;;
              exit EXIT_FAILURE
          | None => copy_roots rest (before ++ [(p, st)])
          end
      end
  end.

Definition copyRootDirPaths (argv : list cstr) : DM unit :=
  check_roots argv ;;;
  let! roots := copy_roots argv [] in
  modify (fun s => set_ignoreRootDirs 0 (set_rootDirPaths ((fun q => Some q.1) <$> roots) s)).

Definition findRootDirPath (p : cstr) (roots : list (option cstr)) : option nat :=
  fst <$> list_find (fun r => r = Some p) roots.

Definition isRootDirPath (p : cstr) (roots : list (option cstr)) : bool :=
  match findRootDirPath p roots with Some _ => true | None => false end.

Definition zapRootDirPath (p : cstr) : DM unit :=
  printf "zapRootDirPath: %s\n" [AStr p] ;;;
  let! s := get in
  match findRootDirPath p (rootDirPaths s) with
  | None => fprintf_stderr "zapRootDirPath(): path not found!\n" [] ;;; exit EXIT_FAILURE
  | Some j =>
      modify (fun s => set_ignoreRootDirs (ignoreRootDirs s + 1)
                         (set_rootDirPaths (<[j := None]> (rootDirPaths s)) s)) ;;;
      let! s := get in
      when (ignoreRootDirs s =? Z.of_nat (length (rootDirPaths s)))
        (fprintf_stderr "No more root paths left to monitor; bye!\n" [] ;;; exit EXIT_SUCCESS)
  end.

(** ** Walking a subtree *)

Definition watch_flags (isRoot : bool) : Z :=
  let flags := Z.lor (Z.lor (Z.lor IN_CREATE IN_MOVED_FROM) IN_MOVED_TO) IN_DELETE_SELF in
  Z.lor (if isRoot then Z.lor flags IN_MOVE_SELF else flags) IN_ONLYDIR.

(** The function [nftw] calls for each object; it returns 0 or exits. *)
Definition traverseTree (pathname : cstr) (isdir : bool) : DM unit :=
  if negb isdir then ret tt else
  let! s := get in
  let! r := sys (fun k => os_add_watch k (ifd s) pathname
                            (watch_flags (isRootDirPath pathname (rootDirPaths s)))) in
  match r with
  | inl e =>
      logMessage VB_BASIC "inotify_add_watch: %s: %s\n" [AStr pathname; AErr e] ;;;
      if e =? ENOENT then ret tt else exit EXIT_FAILURE
  | inr w =>
      let! s := get in
      match findWatch w (wlCache s) with
      | Some _ => logMessage VB_BASIC "WD %d already in cache (%s)\n" [AInt w; AStr pathname]
      | None =>
          modify (fun s => set_dirCnt (dirCnt s + 1) s) ;;;
          let! slot := addWatchToCache w pathname in
          logMessage VB_NOISY "    watchDir: wd = %d [cache slot: %d]; %s\n"
            [AInt w; AInt (Z.of_nat slot); AStr pathname]
      end
  end.

Definition watchDir (fd : Z) (pathname : cstr) : DM Z :=
  modify (fun s => set_ifd fd (set_dirCnt 0 s)) ;;;
  let! (visited, err) := sys (fun k => os_nftw k pathname) in
  for_each visited (fun '(p, isdir) => traverseTree p isdir) ;;;
  match err with
  | Some e =>
      logMessage VB_BASIC
        "nftw: %s: %s (directory probably deleted before we could watch)\n"
        [AStr pathname; AErr e]
  | None => ret tt
  end ;;;
  let! s := get in ret (dirCnt s).

Definition watchSubtree (fd : Z) (p : cstr) : DM unit :=
  let! cnt := watchDir fd p in
  logMessage VB_BASIC "    watchSubtree: %s: %d entries added\n" [AStr p; AInt cnt].

(** ** Renames and removals *)

Definition rewrite_step (fullPath newPrefix : cstr) (j : nat) : DM unit :=
  let! x := read_slot j in
  when (subtree_test fullPath (path x))
    (let text := newPrefix ++ drop (length fullPath) (path x) in
     let newPath := snprintf PATH_MAX text in
     when (PATH_MAX <? strlen text)
       (logMessage VB_BASIC "Truncated pathname: %s\n" [AStr newPath]) ;;;
     update_cache (<[j := Watch (wd x) newPath]>) ;;;
     logMessage VB_NOISY "    wd %d [cache slot %d] ==> %s\n"
       [AInt (wd x); AInt (Z.of_nat j); AStr newPath]).

Definition rewriteCachedPaths (oldPathPrefix oldName newPathPrefix newName : cstr) : DM unit :=
  let fullPath := snprintf PATH_MAX (oldPathPrefix ++ SLASH :: oldName) in
  let newPrefix := snprintf PATH_MAX (newPathPrefix ++ SLASH :: newName) in
  logMessage VB_BASIC "Rename: %s ==> %s\n" [AStr fullPath; AStr newPrefix] ;;;
  let! s := get in
  for_each (slots_of s) (rewrite_step fullPath newPrefix).

(** The loop of [zapSubtree]; leaving it with [break] gives -1. *)
Fixpoint zap_loop (fd : Z) (pn : cstr) (js : list nat) (cnt : Z) : DM Z :=
  match js with
  | [] => ret cnt
  | j :: rest =>
      let! x := read_slot j in
      if in_use x && subtree_test pn (path x) then
        logMessage VB_NOISY "    removing watch: wd = %d (%s)\n" [AInt (wd x); AStr (path x)] ;;;
        let! r := sys (fun k => os_rm_watch k fd (wd x)) in
        match r with
        | Some e =>
            logMessage 0 "inotify_rm_watch wd = %d (%s): %s\n"
              [AInt (wd x); AStr (path x); AErr e] ;;;
            ret (-1)
        | None => markCacheSlotEmpty j ;;; zap_loop fd pn rest (cnt + 1)
        end
      else zap_loop fd pn rest cnt
  end.

Definition zapSubtree (fd : Z) (p : cstr) : DM Z :=
  logMessage VB_NOISY "Zapping subtree: %s\n" [AStr p] ;;;
  let! s := get in
  zap_loop fd p (slots_of s) 0.

(** ** Rebuilding the cache *)

Definition reinitialize (oldInotifyFd : Z) : DM Z :=
  (if 0 <=? oldInotifyFd then
     modify (fun s => set_os (os_close (os s) oldInotifyFd) s) ;;;
     modify (fun s => set_reinitCnt (reinitCnt s + 1) s) ;;;
     let! s := get in
     logMessage 0 "Reinitializing cache and inotify FD (reinitCnt = %d)\n" [AInt (reinitCnt s)]
   else
     logMessage 0 "Initializing cache\n" [] ;;;
     modify (set_reinitCnt 0)) ;;;
  let! r := sys os_inotify_init in
  match r with
  | inl e => fprintf_stderr "inotify_init: %s\n" [AErr e] ;;; exit EXIT_FAILURE
  | inr fd =>
      logMessage VB_BASIC "    new inotifyFd = %d\n" [AInt fd] ;;;
      freeCache ;;;
      let! s := get in
      for_each (rootDirPaths s) (fun r =>
        match r with Some p => watchSubtree fd p | None => ret tt end) ;;;
      let! s := get in
      when (0 <=? oldInotifyFd)
        (logMessage 0 "Rebuilt cache with %d entries\n"
           [AInt (Z.of_nat (length (used (wlCache s))))]) ;;;
      ret fd
  end.

End Code.
