(* ===== verification/InotifyEvents.v ===== *)
(** inotify_dtree.c (src/tlpi-dist/inotify): the handling of inotify events.

    The buffer filled by [read] is the list of its events together with the
    number of bytes from the current position to [buf + numRead]; pointers
    into it only ever advance by whole events, or by [INOTIFY_READ_BUF_LEN]
    to discard what is left. [processNextInotifyEvent] is split as its source
    is, one definition per branch. *)
From Stdlib Require Import ZArith Lia Ascii String.
From stdpp Require Import base tactics list strings gmap sets.
From S2P Require Import Prelude CString WatchCache DirTree WatchTree.
#[local] Open Scope Z_scope.

Section Code.
Context {K : Type} `{InotifyOS K}.
Abbreviation DM := (M (dtree K)).

(** Replace the inotify descriptor by that of a rebuilt cache. *)
Definition rebuild : DM unit :=
  let! s := get in
  let! fd := reinitialize (inotifyFd s) in
  modify (set_inotifyFd fd).

(** How a branch ends: [return v] at once, or fall through to the checks at
    the end of the function with the number of bytes consumed. *)
Inductive branch_end := Return (v : Z) | FallThrough (evLen : Z).

(** [wlCache[evCacheSlot].path]; the slot was set only if the event carries a
    watch descriptor. *)
Definition event_path (evCacheSlot : option nat) : DM cstr :=
  match evCacheSlot with
  | Some slot => let! x := read_slot slot in ret (path x)
  | None => undef
  end.

(** The consistency check at the top: [None] when the watch descriptor is
    unknown, otherwise the value of [evCacheSlot], if it was assigned. *)
Definition event_slot (ev : inotify_event) : DM (option (option nat)) :=
  if negb (ev_wd ev =? -1) && negb (has_bit (ev_mask ev) IN_IGNORED) then
    let! r := findWatchChecked (ev_wd ev) in
    match r with
    | Some slot => ret (Some (Some slot))
    | None => ret None
    end
  else ret (Some None).

(** A subdirectory was created in, or renamed into, the tree. *)
Definition on_create (ev : inotify_event) (evCacheSlot : option nat) : DM branch_end :=
  let! dir := event_path evCacheSlot in
  let fullPath := snprintf (PATH_MAX + NAME_MAX) (dir ++ SLASH :: ev_name ev) in
  logMessage VB_BASIC "Directory creation on wd %d: %s\n" [AInt (ev_wd ev); AStr fullPath] ;;;
  let! s := get in
  when (negb (pathnameInCache fullPath (wlCache s))) (watchSubtree (inotifyFd s) fullPath) ;;;
  ret (FallThrough (ev_size ev)).

(** A directory was deleted. *)
Definition on_delete_self (ev : inotify_event) (evCacheSlot : option nat) : DM branch_end :=
  let! dir := event_path evCacheSlot in
  logMessage VB_BASIC "Clearing watchlist item %d (%s)\n" [AInt (ev_wd ev); AStr dir] ;;;
  let! s := get in
  when (isRootDirPath dir (rootDirPaths s)) (zapRootDirPath dir) ;;;
  match evCacheSlot with
  | Some slot => markCacheSlotEmpty slot
  | None => undef
  end ;;;
  ret (FallThrough (ev_size ev)).

(** A directory left the tree: the watches and entries below it go. *)
Definition moved_out (ev : inotify_event) (evCacheSlot : option nat) (bufSize : Z)
    (firstTry : bool) : DM branch_end :=
  let! dir := event_path evCacheSlot in
  logMessage VB_NOISY "MOVED_OUT: %p %p\n" [AStr dir; AStr (ev_name ev)] ;;;
  logMessage VB_NOISY "firstTry = %d; remaining bytes = %d\n"
    [AInt (if firstTry then 1 else 0); AInt (bufSize - ev_size ev)] ;;;
  let fullPath := snprintf (PATH_MAX + NAME_MAX) (dir ++ SLASH :: ev_name ev) in
  let! s := get in
  let! cnt := zapSubtree (inotifyFd s) fullPath in
  if cnt =? -1 then rebuild ;;; ret (Return INOTIFY_READ_BUF_LEN)
  else ret (FallThrough (ev_size ev)).

(** A directory was renamed: within the tree if the next event is the
    matching "moved to", otherwise out of it, or undecided if there is no next
    event yet. [later] are the events after [ev], [bufSize] the bytes from
    [ev] to the end of the data. *)
Definition on_moved_from (ev : inotify_event) (evCacheSlot : option nat)
    (later : list inotify_event) (bufSize : Z) (firstTry : bool) : DM branch_end :=
  if ev_size ev <? bufSize then
    match later with
    | [] => undef
    | nextEv :: _ =>
        if has_bit (ev_mask nextEv) IN_MOVED_TO && (ev_cookie nextEv =? ev_cookie ev) then
          let! r := findWatchChecked (ev_wd nextEv) in
          match r with
          | None => rebuild ;;; ret (Return INOTIFY_READ_BUF_LEN)
          | Some nextSlot =>
              let! dir := event_path evCacheSlot in
              let! dir' := event_path (Some nextSlot) in
              rewriteCachedPaths dir (ev_name ev) dir' (ev_name nextEv) ;;;
              ret (FallThrough (ev_size ev + ev_size nextEv))
          end
        else moved_out ev evCacheSlot bufSize firstTry
    end
  else if negb firstTry then moved_out ev evCacheSlot bufSize firstTry
  else logMessage VB_NOISY "HANGING IN_MOVED_FROM\n" [] ;;; ret (Return (-1)).

(** The event queue overflowed: rebuild and drop the rest of the buffer. *)
Definition on_overflow : DM branch_end :=
  modify (fun s => set_overflowCnt (overflowCnt s + 1) s) ;;;
  let! s := get in
  logMessage 0 "Queue overflow (%d) (inotifyReadCnt = %d)\n"
    [AInt (overflowCnt s); AInt (inotifyReadCnt s)] ;;;
  rebuild ;;;
  ret (FallThrough INOTIFY_READ_BUF_LEN).

(** The file system was unmounted. *)
Definition on_unmount (ev : inotify_event) (evCacheSlot : option nat) : DM branch_end :=
  let! dir := event_path evCacheSlot in
  logMessage 0 "Filesystem unmounted: %s\n" [AStr dir] ;;;
  match evCacheSlot with
  | Some slot => markCacheSlotEmpty slot
  | None => undef
  end ;;;
  ret (FallThrough (ev_size ev)).

(** A root directory was renamed: stop watching it. *)
Definition on_root_moved (ev : inotify_event) (dir : cstr) : DM branch_end :=
  logMessage 0 "Root path moved: %s\n" [AStr dir] ;;;
  zapRootDirPath dir ;;;
  let! s := get in
  let! cnt := zapSubtree (inotifyFd s) dir in
  if cnt =? -1 then rebuild ;;; ret (Return INOTIFY_READ_BUF_LEN)
  else ret (FallThrough (ev_size ev)).

(** The chain of tests on the event mask. *)
Definition dispatch (ev : inotify_event) (evCacheSlot : option nat)
    (later : list inotify_event) (bufSize : Z) (firstTry : bool) : DM branch_end :=
  let mask := ev_mask ev in
  if has_bit mask IN_ISDIR && has_bit mask (Z.lor IN_CREATE IN_MOVED_TO) then
    on_create ev evCacheSlot
  else if has_bit mask IN_DELETE_SELF then on_delete_self ev evCacheSlot
  else if Z.land mask (Z.lor IN_MOVED_FROM IN_ISDIR) =? Z.lor IN_MOVED_FROM IN_ISDIR then
    on_moved_from ev evCacheSlot later bufSize firstTry
  else if has_bit mask IN_Q_OVERFLOW then on_overflow
  else if has_bit mask IN_UNMOUNT then on_unmount ev evCacheSlot
  else if has_bit mask IN_MOVE_SELF then
    let! dir := event_path evCacheSlot in
    let! s := get in
    if isRootDirPath dir (rootDirPaths s) then on_root_moved ev dir
    else ret (FallThrough (ev_size ev))
  else ret (FallThrough (ev_size ev)).

(** The result is the number of bytes to skip; -1 asks for another read. *)
Definition processNextInotifyEvent (evs : list inotify_event) (bufSize : Z)
    (firstTry : bool) : DM Z :=
  match evs with
  | [] => undef
  | ev :: later =>
      displayInotifyEvent ev ;;;
      let! found := event_slot ev in
      match found with
      | None => rebuild ;;; ret INOTIFY_READ_BUF_LEN
      | Some evCacheSlot =>
          let! r := dispatch ev evCacheSlot later bufSize firstTry in
          match r with
          | Return v => ret v
          | FallThrough evLen =>
              let! s := get in
              when (checkCache s) checkCacheConsistency ;;;
              when (dumpCache s) dumpCacheToLog ;;;
              ret evLen
          end
      end
  end.

(** ** Reading the events *)

Definition events_size (evs : list inotify_event) : Z :=
  foldr (fun e n => ev_size e + n) 0 evs.

(** [evp += n]: the events before the new position are gone. *)
Fixpoint skip_bytes (n : Z) (evs : list inotify_event) : list inotify_event :=
  if n <=? 0 then evs
  else match evs with
       | [] => []
       | e :: rest => skip_bytes (n - ev_size e) rest
       end.

Definition read_events (size : Z) : DM event_read :=
  let! s := get in sys (fun k => os_read k (inotifyFd s) size).

Definition count_read : DM unit :=
  modify (fun s => set_inotifyReadCnt (inotifyReadCnt s + 1) s).

(** The second [read], after the unprocessed bytes were moved to the start of
    the buffer: it may be interrupted by the timer. [errno != -1] always
    holds, so [numRead += nr] is executed for [nr == -1] too. The result is the
    new buffer. *)
Definition read_more (evs : list inotify_event) (numRead : Z) : DM (list inotify_event * Z) :=
  modify (fun s => set_os (os_ualarm (os s) 2000) s) ;;;
  let! r := read_events (INOTIFY_READ_BUF_LEN - numRead) in
  modify (fun s => set_os (os_ualarm (os s) 0) s) ;;;
  match r with
  | ReadError e =>
      if negb (e =? EINTR) then fprintf_stderr "read: %s\n" [AErr e] ;;; exit EXIT_FAILURE
      else
        count_read ;;;
        let! s := get in
        logMessage VB_NOISY "\n==========> SECONDARY Read %d: got %zd bytes\n"
          [AInt (inotifyReadCnt s); AInt (-1)] ;;;
        ret (evs, numRead + -1)
  | ReadEvents [] =>
      fprintf_stderr "read() from inotify fd returned 0!" [] ;;; exit EXIT_FAILURE
  | ReadEvents more =>
      count_read ;;;
      let! s := get in
      logMessage VB_NOISY "\n==========> SECONDARY Read %d: got %zd bytes\n"
        [AInt (inotifyReadCnt s); AInt (events_size more)] ;;;
      ret (evs ++ more, numRead + events_size more)
  end.

(** The loop over the buffer: [remaining] is [buf + numRead - evp]. [fuel]
    bounds the number of turns; [false] means it was used up. *)
Fixpoint process_loop (fuel : nat) (evs : list inotify_event) (remaining : Z)
    (firstTry : bool) : DM bool :=
  if remaining <=? 0 then ret true else
  match fuel with
  | O => ret false
  | S fuel' =>
      let! evLen := processNextInotifyEvent evs remaining firstTry in
      if 0 <? evLen then
        process_loop fuel' (skip_bytes evLen evs) (remaining - evLen) true
      else
        let! (evs', remaining') := read_more evs remaining in
        process_loop fuel' evs' remaining' false
  end.

(** A [-b] size larger than the buffer lets [read] run past its end. *)
Definition processInotifyEvents (fuel : nat) : DM bool :=
  let! r := sys os_sigaction in
  match r with
  | Some e => fprintf_stderr "sigaction: %s\n" [AErr e] ;;; exit EXIT_FAILURE
  | None =>
      let! s := get in
      let cnt := if 0 <? readBufferSize s then readBufferSize s else INOTIFY_READ_BUF_LEN in
      let! r := read_events cnt in
      match r with
      | ReadError e => fprintf_stderr "read: %s\n" [AErr e] ;;; exit EXIT_FAILURE
      | ReadEvents [] =>
          fprintf_stderr "read() from inotify fd returned 0!" [] ;;; exit EXIT_FAILURE
      | ReadEvents evs =>
          if INOTIFY_READ_BUF_LEN <? events_size evs then undef else
          count_read ;;;
          let! s := get in
          logMessage VB_NOISY "\n==========> Read %d: got %zd bytes\n"
            [AInt (inotifyReadCnt s); AInt (events_size evs)] ;;;
          process_loop fuel evs (events_size evs) true
      end
  end.

End Code.
