(* ===== verification/DirCommands.v ===== *)
(** inotify_dtree.c (src/tlpi-dist/inotify): the interactive commands, the
    command line and the main loop. *)
From Stdlib Require Import ZArith Lia Ascii String.
From stdpp Require Import base tactics list strings gmap sets.
From S2P Require Import Prelude CString WatchCache DirTree WatchTree InotifyEvents.
#[local] Open Scope Z_scope.

Section Code.
Context {K : Type} `{InotifyOS K}.
Abbreviation DM := (M (dtree K)).

Definition MAX_LINE : Z := 100.

(** The string at the start of a byte buffer: up to the first null. *)
Fixpoint c_string (l : list ascii) : cstr :=
  match l with
  | [] => []
  | c :: l' => if bool_decide (c = NUL) then [] else c :: c_string l'
  end.

Fixpoint take_word (s : cstr) : cstr :=
  match s with
  | [] => []
  | c :: s' => if isspace c then [] else c :: take_word s'
  end.

(** [sscanf(line, "%c %s\n", &cmd, arg)]: the second conversion fails on a
    line with nothing but space after the command. *)
Definition scan_command (line : cstr) : option (ascii * option cstr) :=
  match line with
  | [] => None
  | c :: rest =>
      match take_word (skip_space rest) with
      | [] => Some (c, None)
      | w => Some (c, Some w)
      end
  end.

(** Reading [arg] when it was not assigned is undefined. *)
Definition the_arg (arg : option cstr) : DM cstr :=
  match arg with Some a => ret a | None => undef end.

Definition displayCommandList : DM unit :=
  for_each
    ["Commands:\n"; "0        Rebuild cache\n";
     "a path   Add/refresh pathname watches and cache\n";
     "c        Verify cached pathnames\n"; "d        Toggle cache dumping\n";
     "l        List cached pathnames\n"; "q        Quit\n";
     "v [n]    Toggle/set verbose level for messages to stderr\n";
     "             0 = no messages\n"; "             1 = basic messages\n";
     "             2 = verbose messages\n"; "             3 = basic and verbose messages\n";
     "w file   Write directory list to file\n"; "x        Toggle cache checking\n";
     "z path   Zap pathname and watches from cache\n"]%string
    (fun line => printf line []).

(** The loop of [checkAllCachedPathnamesExist], with its two counters. *)
Fixpoint verify_slots (verbose : bool) (slots : list (nat * watch)) (cnt failures : Z) :
    DM (Z * Z) :=
  match slots with
  | [] => ret (cnt, failures)
  | (j, x) :: rest =>
      if negb (in_use x) then verify_slots verbose rest cnt failures else
      let! r := lstat (path x) in
      match r with
      | inl e =>
          when verbose
            (logMessage VB_BASIC "stat: [slot = %d; wd = %d] %s: %s\n"
               [AInt (Z.of_nat j); AInt (wd x); AStr (path x); AErr e]) ;;;
          verify_slots verbose rest cnt (failures + 1)
      | inr st =>
          if negb (st_isdir st) then
            when verbose (logMessage 0 "%s is not a directory\n" [AStr (path x)]) ;;;
            exit EXIT_FAILURE
          else
            when verbose
              (logMessage VB_NOISY "OK: [slot = %d; wd = %d] %s\n"
                 [AInt (Z.of_nat j); AInt (wd x); AStr (path x)]) ;;;
            verify_slots verbose rest (cnt + 1) failures
      end
  end.

Definition checkAllCachedPathnamesExist (cmd : ascii) : DM unit :=
  let! s := get in
  let! (cnt, failures) :=
    verify_slots (bool_decide (cmd = "c"%char)) (zip (slots_of s) (wlCache s)) 0 0 in
  logMessage 0 "Successfully verified %d entries\n" [AInt cnt] ;;;
  logMessage 0 "Failures: %d\n" [AInt failures].

(** ['a']: refresh a subtree. *)
Definition cmd_add (arg : cstr) : DM unit :=
  let! s := get in
  let! cnt := zapSubtree (inotifyFd s) arg in
  (if cnt =? 0 then logMessage VB_BASIC "Adding new subtree: %s\n" [AStr arg]
   else logMessage VB_BASIC "Zapped: %s, %d entries\n" [AStr arg; AInt cnt]) ;;;
  watchSubtree (inotifyFd s) arg.

(** ['l']: list the cache. *)
Definition cmd_list : DM unit :=
  let! s := get in
  for_each (zip (slots_of s) (wlCache s)) (fun '(j, x) =>
    when (in_use x)
      (logMessage 0 "%d: %d %s\n" [AInt (Z.of_nat j); AInt (wd x); AStr (path x)])) ;;;
  logMessage VB_BASIC "Total entries: %d\n" [AInt (Z.of_nat (length (used (wlCache s))))].

(** ['w']: a failed [fopen] is reported, and the null stream then used. *)
Definition cmd_write (arg : cstr) : DM unit :=
  let! ok := sys (fun k => os_fopen k arg) in
  if negb (ok : bool) then fprintf_stderr "fopen" [] ;;; undef else
  let! s := get in
  for_each (wlCache s) (fun x =>
    when (in_use x) (modify (fun s => set_os (os_fputs (os s) arg (path x)) s))) ;;;
  modify (fun s => set_os (os_fclose (os s) arg) s).

Definition on_off (b : bool) : cstr := lit (if b then "on" else "off").

(** The [switch] of [executeCommand]. *)
Definition run_command (cmd : ascii) (arg : option cstr) : DM unit :=
  if bool_decide (cmd = "a"%char) then let! a := the_arg arg in cmd_add a
  else if bool_decide (cmd = "c"%char) || bool_decide (cmd = "C"%char) then
    checkAllCachedPathnamesExist cmd
  else if bool_decide (cmd = "l"%char) then cmd_list
  else if bool_decide (cmd = "q"%char) then exit EXIT_SUCCESS
  else if bool_decide (cmd = "v"%char) then
    match arg with
    | Some a => modify (set_verboseMask (atoi a))
    | None =>
        let! s := get in
        let v := if verboseMask s =? 0 then 1 else 0 in
        modify (set_verboseMask v) ;;;
        printf "%s\n" [AStr (on_off (negb (v =? 0)))]
    end
  else if bool_decide (cmd = "d"%char) then
    let! s := get in
    modify (set_dumpCache (negb (dumpCache s))) ;;;
    printf "%s\n" [AStr (on_off (negb (dumpCache s)))]
  else if bool_decide (cmd = "x"%char) then
    let! s := get in
    modify (set_checkCache (negb (checkCache s))) ;;;
    printf "%s\n" [AStr (on_off (negb (checkCache s)))]
  else if bool_decide (cmd = "w"%char) then let! a := the_arg arg in cmd_write a
  else if bool_decide (cmd = "z"%char) then
    let! a := the_arg arg in
    let! s := get in
    let! cnt := zapSubtree (inotifyFd s) a in
    logMessage VB_BASIC "Zapped: %s, %d entries\n" [AStr a; AInt cnt]
  else if bool_decide (cmd = "0"%char) then
    modify (fun s => set_os (os_close (os s) (inotifyFd s)) s) ;;;
    let! fd := reinitialize (-1) in
    modify (set_inotifyFd fd)
  else
    printf "Unrecognized command: %c\n" [AChr cmd] ;;;
    displayCommandList.

(** The last byte read, normally the newline, is replaced by a null. *)
Definition executeCommand : DM unit :=
  let! r := sys (fun k => os_read_stdin k MAX_LINE) in
  match r with
  | None | Some [] => printf "bye!\n" [] ;;; exit EXIT_FAILURE
  | Some bytes =>
      let line := c_string (take (length bytes - 1) bytes) in
      match scan_command line with
      | None => ret tt
      | Some (cmd, arg) => run_command cmd arg
      end
  end.

(** ** The main program *)

Definition usageError (pname : cstr) : DM unit :=
  fprintf_stderr "Usage: %s [options] directory-path...\n\n" [AStr pname] ;;;
  for_each
    ["    -v lvl   Display logging information\n"; "    -l file  Send logging information to a file\n";
     "    -x       Check cache consistency after each operation\n";
     "    -d       Dump cache to log after every operation\n";
     "    -b size  Set buffer size for read() from inotify FD\n";
     "    -a file  Abort when cache inconsistency detected, and create 'stop' file\n"]%string
    (fun line => fprintf_stderr line []) ;;;
  exit EXIT_FAILURE.

Definition parse_option (pname : cstr) (o : option_arg) : DM unit :=
  let '(Opt c arg) := o in
  if bool_decide (c = "a"%char) then
    modify (fun s => set_stopFile (Some arg) (set_abortOnCacheProblem true s))
  else if bool_decide (c = "x"%char) then modify (set_checkCache true)
  else if bool_decide (c = "d"%char) then modify (set_dumpCache true)
  else if bool_decide (c = "v"%char) then modify (set_verboseMask (atoi arg))
  else if bool_decide (c = "b"%char) then
    modify (set_readBufferSize (atoi arg))
  else if bool_decide (c = "l"%char) then
    let! ok := sys (fun k => os_fopen k arg) in
    if ok : bool then
      modify (set_logfp true)
    else fprintf_stderr "fopen" [] ;;; exit EXIT_FAILURE
  else usageError pname.

(** [main] up to its loop: the options [getopt] returns and the operands. *)
Definition startup (pname : cstr) (opts : list option_arg) (dirs : list cstr) : DM unit :=
  for_each opts (parse_option pname) ;;;
  when (bool_decide (dirs = [])) (usageError pname) ;;;
  copyRootDirPaths dirs ;;;
  let! fd := reinitialize (-1) in
  modify (set_inotifyFd fd) ;;;
  printf "%s> " [AStr pname].

(** One turn of [main]'s loop. [inotifyFd] is read again after the command,
    which may have replaced it. *)
Definition main_turn (pname : cstr) (fuel : nat) : DM bool :=
  let! s := get in
  let! r := sys (fun k => os_select k (inotifyFd s)) in
  match r with
  | inl e => fprintf_stderr "select: %s\n" [AErr e] ;;; exit EXIT_FAILURE
  | inr rfds =>
      when (bool_decide (0 ∈ rfds)) (executeCommand ;;; printf "%s> " [AStr pname]) ;;;
      let! s := get in
      if bool_decide (inotifyFd s ∈ rfds) then processInotifyEvents fuel else ret true
  end.

End Code.

(** [main]'s local and static variables at the start. *)
Definition initial {K} (k : K) : dtree K :=
  Dtree 0 false false 0 None false false 0 [] [] 0 0 0 0 0 (-1) [] [] [] None k.
