(* ===== verification/DirProps.v ===== *)
(** inotify_dtree.c: what each function leaves alone, weakest preconditions of
    the functions that change the cache, and what walking, renaming and zapping
    a subtree do to the map of watched directories and the table of root
    directories. Every rule says the code runs without undefined behaviour under
    its premises. *)
From Stdlib Require Import ZArith Lia Ascii String.
From stdpp Require Import base tactics list strings gmap sets relations.
From S2P Require Import Prelude CString WatchCache DirTree WatchTree.
#[local] Open Scope Z_scope.

Section Frame.
Context {K : Type} `{InotifyOS K}.
Implicit Types (s : dtree K) (E : exit_kind -> dtree K -> Prop).

(** One call into the kernel other than a read. *)
Inductive os_call : K -> K -> Prop :=
| call_realloc k a b : os_call k (os_realloc k a b).1
| call_init k : os_call k (os_inotify_init k).1
| call_close k fd : os_call k (os_close k fd)
| call_add k fd p fl : os_call k (os_add_watch k fd p fl).1
| call_rm k fd w : os_call k (os_rm_watch k fd w).1
| call_nftw k p : os_call k (os_nftw k p).1
| call_lstat k p : os_call k (os_lstat k p).1
| call_ualarm k n : os_call k (os_ualarm k n).

(** From [s] to [s'] only the cache, the output, the kernel and the two
    variables of the traversal changed. *)
Record walk_only s s' : Prop := {
  wo_verbose : verboseMask s' = verboseMask s;
  wo_check : checkCache s' = checkCache s;
  wo_dump : dumpCache s' = dumpCache s;
  wo_bufsize : readBufferSize s' = readBufferSize s;
  wo_abort : abortOnCacheProblem s' = abortOnCacheProblem s;
  wo_logfp : logfp s' = logfp s;
  wo_roots : rootDirPaths s' = rootDirPaths s;
  wo_ignored : ignoreRootDirs s' = ignoreRootDirs s;
  wo_fd : inotifyFd s' = inotifyFd s;
  wo_os : rtc os_call (os s) (os s')
}.

(** The same, and the traversal variables did not change either. *)
Record cache_only s s' : Prop := {
  co_cnt : dirCnt s' = dirCnt s;
  co_ifd : ifd s' = ifd s;
  co_verbose : verboseMask s' = verboseMask s;
  co_check : checkCache s' = checkCache s;
  co_dump : dumpCache s' = dumpCache s;
  co_bufsize : readBufferSize s' = readBufferSize s;
  co_abort : abortOnCacheProblem s' = abortOnCacheProblem s;
  co_logfp : logfp s' = logfp s;
  co_roots : rootDirPaths s' = rootDirPaths s;
  co_ignored : ignoreRootDirs s' = ignoreRootDirs s;
  co_fd : inotifyFd s' = inotifyFd s;
  co_os : rtc os_call (os s) (os s')
}.

(** Nothing but the output, and possibly the kernel, changed. *)
Definition output_only s s' : Prop := cache_only s s' /\ wlCache s' = wlCache s.

#[export] Instance cache_only_preorder : PreOrder cache_only.
Proof.
  split.
  - intros s. split; done.
  - intros s1 s2 s3 [] []. split; try congruence. by etrans.
Qed.

#[export] Instance output_only_preorder : PreOrder output_only.
Proof.
  split.
  - intros s. by split.
  - intros s1 s2 s3 [H1 H2] [H3 H4]. split; [by etrans|congruence].
Qed.

#[export] Instance walk_only_preorder : PreOrder walk_only.
Proof.
  split.
  - intros s. split; done.
  - intros s1 s2 s3 [] []. split; try congruence. by etrans.
Qed.

Lemma cache_walk s s' : cache_only s s' -> walk_only s s'.
Proof. by intros []. Qed.

Lemma walk_only_cnt s s' v : walk_only s s' -> walk_only s (set_dirCnt v s').
Proof. intros []. by split. Qed.

Lemma output_cache s s' : output_only s s' -> cache_only s s'.
Proof. by intros []. Qed.

Lemma cache_only_os s k : os_call (os s) k -> cache_only s (set_os k s).
Proof. intros Hk. split; try done. by apply rtc_once. Qed.

Lemma output_only_os s k : os_call (os s) k -> output_only s (set_os k s).
Proof. intros Hk. split; [by apply cache_only_os|done]. Qed.

Lemma cache_only_cache s c : cache_only s (set_wlCache c s).
Proof. by split. Qed.

(** ** Output *)

Lemma wp_fprintf_stderr fmt args Q E s :
  (forall s', output_only s s' -> Q tt s') -> wp (fprintf_stderr fmt args) Q E s.
Proof. intros HQ. apply wp_modify, HQ. by repeat split. Qed.

Lemma wp_printf fmt args Q E s :
  (forall s', output_only s s' -> Q tt s') -> wp (printf fmt args) Q E s.
Proof. intros HQ. apply wp_modify, HQ. by repeat split. Qed.

Lemma wp_fprintf_log fmt args Q E s :
  logfp s = true -> (forall s', output_only s s' -> Q tt s') ->
  wp (fprintf_log fmt args) Q E s.
Proof.
  intros Hl HQ. apply wp_bind, wp_get. rewrite Hl. apply wp_modify, HQ. by repeat split.
Qed.

Lemma wp_logMessage vb fmt args Q E s :
  (forall s', output_only s s' -> Q tt s') -> wp (logMessage vb fmt args) Q E s.
Proof.
  intros HQ. apply wp_bind, wp_get, wp_bind, wp_when; intros _.
  - apply wp_fprintf_stderr. intros s1 H1. apply wp_when; intros Hl.
    + apply wp_fprintf_log; [by rewrite (co_logfp _ _ (output_cache _ _ H1))|].
      intros s2 H2. apply HQ. by etrans.
    + by apply HQ.
  - apply wp_when; intros Hl; [by apply wp_fprintf_log|by apply HQ].
Qed.

Lemma wp_log_inv vb fmt args E s0 s :
  output_only s0 s -> wp (logMessage vb fmt args) (fun _ => output_only s0) E s.
Proof. intros H0. apply wp_logMessage. intros s1 H1. by etrans. Qed.

Lemma wp_displayInotifyEvent ev Q E s :
  (forall s', output_only s s' -> Q tt s') -> wp (displayInotifyEvent ev) Q E s.
Proof.
  intros HQ. unfold displayInotifyEvent.
  apply (wp_mono _ (fun _ => output_only s) _ E); [|by intros [] ?; apply HQ|done].
  repeat (eapply (wp_seq_inv _ _ (output_only s));
    [try (apply wp_when_inv; [|intros _]); try apply wp_log_inv; done|intros ? ? ?]).
  apply wp_when_inv; intros; by try apply wp_log_inv.
Qed.

Lemma wp_dumpCacheToLog Q E s :
  logfp s = true -> (forall s', output_only s s' -> Q tt s') -> wp dumpCacheToLog Q E s.
Proof.
  intros Hl HQ. apply wp_bind, wp_get, wp_bind.
  eapply wp_mono; [apply (wp_for_each_inv _ _ (output_only s)); [done|]| |done].
  - intros [j x] s1 _ H1. apply wp_when; intros _; [|done].
    apply wp_fprintf_log; [by rewrite (co_logfp _ _ (output_cache _ _ H1))|].
    intros s2 H2. by etrans.
  - intros [] s1 H1. apply wp_fprintf_log; [by rewrite (co_logfp _ _ (output_cache _ _ H1))|].
    intros s2 H2. apply HQ. by etrans.
Qed.

(** ** Kernel calls and slots *)

(** No message of the noisy level goes anywhere: no log file, and that bit of
    the verbose mask clear. *)
Definition quiet s : Prop := shown VB_NOISY s = false.

Lemma quiet_walk s s' : walk_only s s' -> quiet s -> quiet s'.
Proof. intros [] Hq. unfold quiet, shown in *. congruence. Qed.

Lemma quiet_cache s s' : cache_only s s' -> quiet s -> quiet s'.
Proof. intros Hc. by apply quiet_walk, cache_walk. Qed.

Lemma wp_sys {A} (call : K -> K * A) Q E s :
  Q (call (os s)).2 (set_os (call (os s)).1 s) -> wp (sys call) Q E s.
Proof. unfold wp, sys. by destruct (call (os s)). Qed.

Lemma wp_read_slot slot x Q E s :
  wlCache s !! slot = Some x -> Q x s -> wp (read_slot slot) Q E s.
Proof. intros Hx HQ. apply wp_bind, wp_get. by rewrite Hx. Qed.

Lemma wp_lstat p Q E s :
  (forall r s', output_only s s' -> Q r s') -> wp (lstat p) Q E s.
Proof. intros HQ. apply wp_sys, HQ, output_only_os. constructor. Qed.

Lemma wp_markCacheSlotEmpty slot x Q E s :
  wlCache s !! slot = Some x -> written x = true \/ quiet s ->
  (forall s', cache_only s s' -> wlCache s' = slot_clear slot (wlCache s) -> Q tt s') ->
  wp (markCacheSlotEmpty slot) Q E s.
Proof.
  intros Hx Hw HQ. apply wp_bind. eapply wp_read_slot; [done|]. apply wp_bind, wp_get, wp_bind, wp_when; intros Hu.
  { exfalso. unfold quiet in Hw. destruct (written x); [done|]. destruct Hw; [done|]. by destruct (shown VB_NOISY s). }
  apply wp_bind, wp_logMessage. intros s1 [H1 H2]. apply wp_modify, HQ.
  - etrans; [done|]. apply cache_only_cache.
  - simpl. by rewrite H2.
Qed.

(** ** findEmptyCacheSlot *)

(** The array after the search for a free slot: grown by [ALLOC_INCR] empty
    slots if there was none. *)
Definition with_room (c : list watch) : list watch :=
  match find_free c with
  | Some _ => c
  | None => c ++ replicate (Z.to_nat ALLOC_INCR) empty_slot
  end.

Definition free_slot (c : list watch) : nat :=
  match find_free c with Some j => j | None => length c end.

Lemma insert_after {A} (l : list A) n x y r :
  <[(length l + n)%nat := y]> (l ++ replicate n y ++ x :: r) = l ++ replicate (S n) y ++ r.
Proof.
  rewrite app_assoc. replace (length l + n)%nat with (length (l ++ replicate n y))
    by by rewrite length_app, length_replicate.
  rewrite insert_middle, replicate_S_end, <-!app_assoc. done.
Qed.

Lemma wp_mark_fresh c fresh s E :
  quiet s -> wlCache s = c ++ fresh ->
  wp (for_each (seq (length c) (length fresh)) markCacheSlotEmpty)
    (fun _ s' => cache_only s s' /\ wlCache s' = c ++ replicate (length fresh) empty_slot) E s.
Proof.
  intros Hq Hc. eapply wp_mono; [apply (wp_for_each _ _ (fun done s' => cache_only s s' /\
    wlCache s' = c ++ replicate (length done) empty_slot ++ drop (length done) fresh))| |done].
  - by split.
  - intros done x rest s' Hseq [H1 H2].
    assert (Hx : (x = length c + length done)%nat /\ (length done < length fresh)%nat).
    { assert (Hl : seq (length c) (length fresh) !! length done = Some x)
        by by rewrite Hseq, lookup_app_r, Nat.sub_diag by lia.
      apply lookup_seq in Hl as [-> Hl]. lia. }
    destruct Hx as [-> Hlt]. destruct (lookup_lt_is_Some_2 _ _ Hlt) as [y Hy].
    pose proof (drop_S _ _ _ Hy) as Hd. rewrite Hd in H2.
    apply wp_markCacheSlotEmpty with y.
    + rewrite H2, lookup_app_r, lookup_app_r by (rewrite ?length_replicate; lia).
      by replace (length c + length done - length c - length (replicate (length done) empty_slot))%nat
        with 0%nat by (rewrite length_replicate; lia).
    + right. by eapply quiet_cache.
    + intros s2 H3 H4. split; [by etrans|]. rewrite H4, H2. unfold slot_clear.
      rewrite insert_after, length_app, Nat.add_1_r. done.
  - intros [] s' [H1 H2]. split; [done|]. rewrite H2, length_seq, drop_all. by rewrite app_nil_r.
Qed.

Context `{!InotifyOSLaws K}.

Lemma wp_findEmptyCacheSlot Q E s :
  (forall k s', E k s') -> quiet s ->
  (forall s', cache_only s s' -> wlCache s' = with_room (wlCache s) ->
     Q (free_slot (wlCache s)) s') ->
  wp findEmptyCacheSlot Q E s.
Proof.
  intros HE Hquiet HQ. apply wp_bind, wp_get. unfold with_room, free_slot in *.
  destruct (find_free (wlCache s)) as [j|]; [by apply wp_ret, HQ|].
  apply wp_bind, wp_sys.
  destruct (os_realloc _ _ _) as [k' [fresh|]] eqn:Hr; simpl.
  - pose proof (os_realloc_size _ _ _ _ _ Hr) as Hlen.
    assert (H1 : cache_only s (set_wlCache (wlCache s ++ (Unwritten <$> fresh)) (set_os k' s))).
    { etrans; [apply (cache_only_os _ k')|apply cache_only_cache].
      replace k' with (os_realloc (os s) (Z.of_nat (length (wlCache s)))
        (Z.of_nat (length (wlCache s)) + ALLOC_INCR)).1 by by rewrite Hr. constructor. }
    apply wp_bind, wp_modify, wp_bind. cbn [wlCache set_os].
    rewrite <-(length_fmap Unwritten fresh).
    eapply (wp_mono _ _ _ E); [apply wp_mark_fresh; [by eapply quiet_cache|done]| |done].
    intros [] s' [H2 H3]. apply wp_ret, HQ; [by etrans|]. rewrite H3, length_fmap.
    by replace (length fresh) with (Z.to_nat ALLOC_INCR) by lia.
  - apply wp_bind, wp_fprintf_stderr. intros. apply wp_exit, HE.
Qed.

Lemma free_slot_lookup c :
  exists x, with_room c !! free_slot c = Some x /\ wd x = -1.
Proof.
  unfold with_room, free_slot. destruct (find_free c) as [j|] eqn:Hf.
  - by apply find_free_lookup.
  - exists empty_slot. split; [|done]. by rewrite lookup_app_r, Nat.sub_diag by lia.
Qed.

Lemma with_room_ok c : cache_ok c -> cache_ok (with_room c).
Proof. unfold with_room. destruct (find_free c); [done|]. apply cache_ok_grow. Qed.

Lemma with_room_map c : cache_map (with_room c) = cache_map c.
Proof. unfold with_room. destruct (find_free c); [done|]. apply cache_map_grow. Qed.

(** Adding a watch that is not in the cache binds its pathname. *)
Lemma wp_addWatchToCache w p Q E s :
  (forall k s', E k s') -> quiet s -> cache_ok (wlCache s) -> 0 <= w -> strlen p < PATH_MAX ->
  cache_map (wlCache s) !! w = None ->
  (forall slot s', cache_only s s' -> cache_ok (wlCache s') ->
     cache_map (wlCache s') = <[w := p]> (cache_map (wlCache s)) -> Q slot s') ->
  wp (addWatchToCache w p) Q E s.
Proof.
  intros HE Hquiet Hok Hw Hp Hfresh HQ. apply wp_bind, wp_findEmptyCacheSlot; [done|done|].
  intros s1 H1 H2. rewrite (proj2 (Z.ltb_lt _ _) Hp). apply wp_bind, wp_modify, wp_ret.
  destruct (free_slot_lookup (wlCache s)) as (x & Hx & Hwd).
  apply HQ; simpl; rewrite ?H2.
  - etrans; [done|]. apply cache_only_cache.
  - apply cache_ok_fill with x; rewrite ?with_room_map; auto using with_room_ok. lia.
  - erewrite cache_map_fill; rewrite ?with_room_map; eauto using with_room_ok. lia.
Qed.

End Frame.

(** Paths handed out by the walk fit [PATH_MAX] ("Known limitations" of the
    source: longer ones are not handled). *)
Class ShortPaths (K : Type) `{InotifyOS K} :=
  os_nftw_short k p k' visited err q d :
    os_nftw k p = (k', (visited, err)) -> (q, d) ∈ visited -> strlen q < PATH_MAX.

(** What a successful [inotify_add_watch] of [p] returning [w] does to the
    map: a descriptor already known is left alone. *)
Definition add_entry (m : gmap Z cstr) (e : cstr * Z) : gmap Z cstr :=
  match m !! e.2 with
  | Some _ => m
  | None => <[e.2 := e.1]> m
  end.

(** The map entries below [p] are those of the subtree. *)
Definition without_subtree (p : cstr) (m : gmap Z cstr) : gmap Z cstr :=
  filter (fun e => ~ in_subtree p e.2) m.

(** The root table: [ignoreRootDirs] counts the zapped entries, and at least
    one is left. *)
Definition zapped (roots : list (option cstr)) : list (option cstr) :=
  filter (fun r => r = None) roots.

Definition roots_ok {K} (s : dtree K) : Prop :=
  ignoreRootDirs s = Z.of_nat (length (zapped (rootDirPaths s))).

Section Props.
Context {K : Type} `{InotifyOS K} `{!InotifyOSLaws K}.
Implicit Types (s : dtree K) (E : exit_kind -> dtree K -> Prop).

(** ** Walking *)

(** The directories among the objects a walk visited. *)
Definition visited_dirs (visited : list (cstr * bool)) : list cstr :=
  (filter (fun v => v.2 = true) visited).*1.

(** The kernel's answers to [inotify_add_watch] on [fd], at some moment after
    [k0]: a descriptor was granted, or the path had vanished. *)
Definition granted (k0 : K) (fd : Z) (p : cstr) (w : Z) : Prop :=
  exists k fl, rtc os_call k0 k /\ (os_add_watch k fd p fl).2 = inr w.
Definition vanished (k0 : K) (fd : Z) (p : cstr) : Prop :=
  exists k fl, rtc os_call k0 k /\ (os_add_watch k fd p fl).2 = inl ENOENT.

Lemma granted_later k0 k1 fd p w : rtc os_call k0 k1 -> granted k1 fd p w -> granted k0 fd p w.
Proof. intros Hk (k & fl & H1 & H2). exists k, fl. split; [by etrans|done]. Qed.
Lemma vanished_later k0 k1 fd p : rtc os_call k0 k1 -> vanished k1 fd p -> vanished k0 fd p.
Proof. intros Hk (k & fl & H1 & H2). exists k, fl. split; [by etrans|done]. Qed.

(** [ws] are the watches obtained for the objects visited: for directories
    only, in order, each granted by the kernel, and none left out unless it
    had vanished. *)
Definition walked (k0 : K) (fd : Z) (visited : list (cstr * bool)) (ws : list (cstr * Z)) : Prop :=
  ws.*1 `sublist_of` visited_dirs visited /\
  Forall (fun e => granted k0 fd e.1 e.2) ws /\
  forall q, q ∈ visited_dirs visited -> q ∈ ws.*1 \/ vanished k0 fd q.

Lemma walked_later k0 k1 fd visited ws : rtc os_call k0 k1 -> walked k1 fd visited ws -> walked k0 fd visited ws.
Proof.
  intros Hk (H1 & H2 & H3). split_and!; [done| |].
  - eapply Forall_impl; [exact H2|]. intros e. by apply granted_later.
  - intros q Hq. destruct (H3 q Hq); eauto using vanished_later.
Qed.

Lemma walked_nil k0 fd : walked k0 fd [] [].
Proof. split_and!; [done|done|]. intros q Hq. by apply elem_of_nil in Hq. Qed.

Lemma walked_app k0 fd v1 v2 ws1 ws2 :
  walked k0 fd v1 ws1 -> walked k0 fd v2 ws2 -> walked k0 fd (v1 ++ v2) (ws1 ++ ws2).
Proof.
  intros (H1 & H2 & H3) (H4 & H5 & H6). unfold walked, visited_dirs in *.
  rewrite filter_app, !fmap_app. split_and!; [by apply sublist_app|by apply Forall_app|].
  intros q. rewrite !elem_of_app. intros [Hq|Hq]; [destruct (H3 _ Hq)|destruct (H6 _ Hq)]; tauto.
Qed.

Lemma walked_granted k0 fd p w : granted k0 fd p w -> walked k0 fd [(p, true)] [(p, w)].
Proof. intros Hg. split_and!; [done|by repeat constructor|]. intros q Hq. by left. Qed.

Lemma walked_vanished k0 fd p : vanished k0 fd p -> walked k0 fd [(p, true)] [].
Proof.
  intros Hv. split_and!; [apply sublist_nil_l|done|]. intros q Hq.
  apply list_elem_of_singleton in Hq as ->. by right.
Qed.

Lemma wp_traverseTree p d Q E s :
  (forall k s', E k s') -> quiet s -> cache_ok (wlCache s) -> strlen p < PATH_MAX ->
  (forall s' ws, walk_only s s' -> ifd s' = ifd s -> cache_ok (wlCache s') ->
     walked (os s) (ifd s) [(p, d)] ws ->
     cache_map (wlCache s') = foldl add_entry (cache_map (wlCache s)) ws ->
     dirCnt s' - dirCnt s
     = Z.of_nat (size (cache_map (wlCache s'))) - Z.of_nat (size (cache_map (wlCache s))) ->
     Q tt s') ->
  wp (traverseTree p d) Q E s.
Proof.
  intros HE Hquiet Hok Hp HQ. unfold traverseTree. destruct d; simpl;
    [|by apply wp_ret, (HQ s []); [| | |apply walked_nil| |lia]].
  apply wp_bind, wp_get, wp_bind, wp_sys.
  set (fl := watch_flags _). destruct (os_add_watch (os s) (ifd s) p fl) as [k' r] eqn:Hk. simpl.
  assert (H1 : cache_only s (set_os k' s)).
  { apply cache_only_os. replace k' with (os_add_watch (os s) (ifd s) p fl).1 by by rewrite Hk.
    constructor. }
  destruct r as [e|w].
  - apply wp_bind, wp_logMessage. intros s2 [H2 H3].
    destruct (Z.eqb_spec e ENOENT) as [->|]; [|by apply wp_exit].
    apply wp_ret, (HQ s2 []); rewrite ?H3; [| |done| |done|].
    + by apply cache_walk; etrans.
    + by rewrite (co_ifd _ _ H2).
    + apply walked_vanished. exists (os s), fl. by rewrite Hk.
    + rewrite (co_cnt _ _ H2). simpl. lia.
  - assert (Hg : granted (os s) (ifd s) p w) by (exists (os s), fl; by rewrite Hk).
    pose proof (os_add_watch_nonneg _ _ _ _ _ _ Hk) as Hw.
    apply wp_bind, wp_get. cbn [wlCache set_os].
    destruct (findWatch w (wlCache s)) as [j|] eqn:Hf.
    + assert (Hm : is_Some (cache_map (wlCache s) !! w)).
      { rewrite findWatch_map by (apply Hok || done). rewrite Hf. simpl.
        destruct (findWatch_lookup _ _ _ Hf) as (x & -> & _). eauto. }
      apply wp_logMessage. intros s2 [H2 H3]. apply (HQ s2 [(p, w)]); rewrite ?H3; [| |done|by apply walked_granted| |].
      * by apply cache_walk; etrans.
      * by rewrite (co_ifd _ _ H2).
      * unfold add_entry. simpl. by destruct Hm as [q ->].
      * rewrite (co_cnt _ _ H2). simpl. lia.
    + assert (Hm : cache_map (wlCache s) !! w = None).
      { rewrite findWatch_map by (apply Hok || done). by rewrite Hf. }
      apply wp_bind, wp_modify, wp_bind, wp_addWatchToCache; try done.
      intros slot s2 H2 Hok2 Hm2. apply wp_logMessage. intros s3 [H3 H4].
      cbn [wlCache set_os set_dirCnt] in Hm2.
      apply (HQ s3 [(p, w)]); rewrite ?H4; [| |done|by apply walked_granted| |].
      * etrans; [by apply walk_only_cnt, cache_walk|]. by apply cache_walk; etrans.
      * by rewrite (co_ifd _ _ H3), (co_ifd _ _ H2).
      * rewrite Hm2. unfold add_entry. simpl. by rewrite Hm.
      * rewrite Hm2, map_size_insert_None by done.
        rewrite (co_cnt _ _ H3), (co_cnt _ _ H2). simpl. lia.
Qed.

Context `{!ShortPaths K}.

Lemma wp_watchDir fd p Q E s :
  (forall k s', E k s') -> quiet s -> cache_ok (wlCache s) ->
  (forall s' ws cnt, walk_only s s' -> cache_ok (wlCache s') ->
     walked (os s) fd (os_nftw (os s) p).2.1 ws ->
     cache_map (wlCache s') = foldl add_entry (cache_map (wlCache s)) ws ->
     cnt = Z.of_nat (size (cache_map (wlCache s'))) - Z.of_nat (size (cache_map (wlCache s))) ->
     Q cnt s') ->
  wp (watchDir fd p) Q E s.
Proof.
  intros HE Hquiet Hok HQ. apply wp_bind, wp_modify, wp_bind, wp_sys. cbn [os set_ifd set_dirCnt].
  destruct (os_nftw (os s) p) as [k' [visited err]] eqn:Hk. cbn [fst snd].
  set (s1 := set_os k' _). assert (H1 : walk_only s s1).
  { split; try done. apply rtc_once. change (os s1) with k'.
    replace k' with (os_nftw (os s) p).1 by by rewrite Hk. constructor. }
  eapply wp_seq_inv with (I := fun s' => exists ws, walk_only s s' /\ cache_ok (wlCache s') /\
    (ifd s' = fd /\ walked (os s) fd visited ws) /\
    cache_map (wlCache s') = foldl add_entry (cache_map (wlCache s)) ws /\
    dirCnt s' = Z.of_nat (size (cache_map (wlCache s'))) -
                Z.of_nat (size (cache_map (wlCache s)))).
  - eapply wp_mono with (E := E);
      [apply (wp_for_each _ _ (fun done s' => exists ws, walk_only s s' /\ cache_ok (wlCache s') /\
         (ifd s' = fd /\ walked (os s) fd done ws) /\
         cache_map (wlCache s') = foldl add_entry (cache_map (wlCache s)) ws /\
         dirCnt s' = Z.of_nat (size (cache_map (wlCache s'))) -
                     Z.of_nat (size (cache_map (wlCache s)))))|by intros []|done].
    + exists []. split_and!; try done; try apply walked_nil. simpl. lia.
    + intros done [q d] rest s2 Hv (ws & H2 & Hok2 & [Hfd Hw] & Hm & Hc).
      apply wp_traverseTree; [done|by eapply quiet_walk|done| |].
      { eapply (os_nftw_short _ _ _ _ _ q d); [exact Hk|]. rewrite Hv. set_solver. }
      intros s3 ws' H3 Hfd3 Hok3 Hws Hm3 Hc3. rewrite Hfd in *.
      assert (Hws0 : walked (os s) fd [(q, d)] ws') by by eapply walked_later, Hws; apply H2.
      exists (ws ++ ws'). split_and!; [by etrans|done|done|by apply walked_app| |lia].
      by rewrite Hm3, Hm, foldl_app.
  - intros [] s2 (ws & H2 & Hok2 & [_ Hw] & Hm & Hc).
    assert (Hend : forall s', output_only s2 s' -> wp (let! s := get in ret (dirCnt s)) Q E s').
    { intros s' [H3 H4]. apply wp_bind, wp_get, wp_ret. rewrite (co_cnt _ _ H3), Hc.
      apply (HQ s' ws); rewrite ?H4; try done. etrans; [done|by apply cache_walk]. }
    apply wp_bind. destruct err; [by apply wp_logMessage|]. by apply wp_ret, Hend.
Qed.

Lemma wp_watchSubtree fd p Q E s :
  (forall k s', E k s') -> quiet s -> cache_ok (wlCache s) ->
  (forall s' ws, walk_only s s' -> cache_ok (wlCache s') ->
     walked (os s) fd (os_nftw (os s) p).2.1 ws ->
     cache_map (wlCache s') = foldl add_entry (cache_map (wlCache s)) ws -> Q tt s') ->
  wp (watchSubtree fd p) Q E s.
Proof.
  intros HE Hquiet Hok HQ. apply wp_bind, wp_watchDir; [done..|].
  intros s1 ws cnt H1 Hok1 Hs Hm _. apply wp_logMessage. intros s2 [H2 H3].
  apply (HQ s2 ws); rewrite ?H3; try done. etrans; [done|by apply cache_walk].
Qed.

(** ** Renaming *)

Lemma wp_rewrite_step a b j x Q E s :
  wlCache s !! j = Some x ->
  (forall s', cache_only s s' -> wlCache s' = <[j := rewrite_slot a b x]> (wlCache s) -> Q tt s') ->
  wp (rewrite_step a b j) Q E s.
Proof.
  intros Hx HQ. apply wp_bind. eapply wp_read_slot; [done|].
  unfold rewrite_slot in HQ. apply wp_when; intros Ht; rewrite Ht in HQ.
  - cbv zeta. apply wp_seq_inv with (I := output_only s).
    { apply wp_when_inv; [done|]. intros _. by apply wp_log_inv. }
    intros [] s1 [H1 H2]. apply wp_bind, wp_modify, wp_logMessage. intros s2 [H3 H4].
    apply HQ; [|by rewrite H4; simpl; rewrite H2].
    etrans; [done|]. etrans; [apply cache_only_cache|done].
  - apply HQ; [done|]. by rewrite list_insert_id.
Qed.

Lemma wp_rewriteCachedPaths oldp oldn newp newn Q E s :
  let a := snprintf PATH_MAX (oldp ++ SLASH :: oldn) in
  let b := snprintf PATH_MAX (newp ++ SLASH :: newn) in
  (forall s', cache_only s s' -> wlCache s' = rewrite_slot a b <$> wlCache s -> Q tt s') ->
  wp (rewriteCachedPaths oldp oldn newp newn) Q E s.
Proof.
  intros a b HQ. apply wp_bind, wp_logMessage. intros s1 [H1 H2].
  apply wp_bind, wp_get. unfold slots_of. rewrite H2.
  eapply (wp_mono _ _ _ E); [apply (wp_for_each _ _ (fun done s' => cache_only s s' /\
    wlCache s' = (rewrite_slot a b <$> take (length done) (wlCache s)) ++
                 drop (length done) (wlCache s)))| |done].
  - by split.
  - intros done j rest s' Hseq [H3 H4].
    assert (Hl : seq 0 (length (wlCache s)) !! length done = Some j)
      by by rewrite Hseq, lookup_app_r, Nat.sub_diag by lia.
    apply lookup_seq in Hl as [-> Hl]. simpl.
    destruct (lookup_lt_is_Some_2 _ _ Hl) as [x Hx].
    pose proof (drop_S _ _ _ Hx) as Hd. rewrite Hd in H4.
    assert (Hlen : length (rewrite_slot a b <$> take (length done) (wlCache s)) = length done)
      by (rewrite length_fmap, length_take; lia).
    apply wp_rewrite_step with x.
    + rewrite H4, lookup_app_r by lia. by rewrite Hlen, Nat.sub_diag.
    + intros s2 H5 H6. split; [by etrans|]. rewrite H6, H4, length_app, Nat.add_1_r.
      rewrite <-Hlen at 1. rewrite insert_middle.
      rewrite (take_S_r _ _ _ Hx), fmap_app, <-app_assoc. done.
  - intros [] s' [H3 H4]. apply HQ; [done|]. rewrite H4, length_seq, drop_all, firstn_all.
    by rewrite app_nil_r.
Qed.

(** ** Zapping *)

Lemma without_subtree_id p m :
  (forall w q, m !! w = Some q -> ~ in_subtree p q) -> without_subtree p m = m.
Proof. intros Hm. apply map_filter_id. intros w q Hq. by apply (Hm w). Qed.

Lemma without_subtree_delete p m w q :
  m !! w = Some q -> in_subtree p q -> without_subtree p (delete w m) = without_subtree p m.
Proof.
  intros Hq Hp. unfold without_subtree. rewrite map_filter_delete.
  apply delete_id, map_lookup_filter_None. right. intros q' Hq' Hn. simplify_eq.
  by apply Hn.
Qed.

(** After [k0] the kernel refused to drop the watch of one of the directories
    below [p]. *)
Definition refused (k0 : K) (fd : Z) (p : cstr) (m : gmap Z cstr) : Prop :=
  exists k w q, rtc os_call k0 k /\ m !! w = Some q /\ in_subtree p q /\ is_Some (os_rm_watch k fd w).2.

Lemma refused_later k0 k1 fd p m : rtc os_call k0 k1 -> refused k1 fd p m -> refused k0 fd p m.
Proof. intros Hk (k & w & q & H1 & H2). exists k, w, q. split; [by etrans|done]. Qed.

Lemma wp_zap_loop fd p Q E m n cnt s :
  cache_ok (wlCache s) -> length (wlCache s) = (n + m)%nat ->
  (forall i x, (i < n)%nat -> wlCache s !! i = Some x -> 0 <= wd x -> ~ in_subtree p (path x)) ->
  (forall r s', cache_only s s' -> cache_ok (wlCache s') ->
     (r = -1 /\ cache_map (wlCache s') ⊆ cache_map (wlCache s) /\
        refused (os s) fd p (cache_map (wlCache s)) \/
      cache_map (wlCache s') = without_subtree p (cache_map (wlCache s)) /\
      r = cnt + Z.of_nat (size (cache_map (wlCache s))) - Z.of_nat (size (cache_map (wlCache s'))))
     -> Q r s') ->
  wp (zap_loop fd p (seq n m) cnt) Q E s.
Proof.
  revert n cnt s. induction m as [|m IH]; intros n cnt s Hok Hlen Hdone HQ.
  - apply wp_ret, HQ; [done|done|]. right. rewrite without_subtree_id; [split; [done|lia]|].
    intros w q Hq. apply cache_map_Some in Hq; [|apply Hok].
    apply elem_of_used in Hq as [Hq Hw]. apply list_elem_of_lookup in Hq as [i Hi].
    apply (Hdone i _ ltac:(apply lookup_lt_Some in Hi; lia) Hi Hw).
  - cbn [seq zap_loop]. destruct (lookup_lt_is_Some_2 (wlCache s) n ltac:(lia)) as [x Hx].
    apply wp_bind. eapply wp_read_slot; [done|].
    destruct (in_use x && subtree_test p (path x)) eqn:Ht.
    + apply andb_true_iff in Ht as [Hu Ht]. apply subtree_test_spec in Ht.
      unfold in_use in Hu. assert (Hw : 0 <= wd x) by lia.
      assert (Hm : cache_map (wlCache s) !! wd x = Some (path x)).
      { pose proof (list_elem_of_lookup_2 _ _ _ Hx) as Hin. apply cache_map_Some; [done|].
        rewrite <-written_Watch by by eapply cache_ok_written. by apply elem_of_used. }
      apply wp_bind, wp_logMessage. intros s1 [H1 H2]. apply wp_bind, wp_sys.
      destruct (os_rm_watch (os s1) fd (wd x)) as [k' r] eqn:Hr. simpl.
      assert (H3 : cache_only s1 (set_os k' s1)).
      { apply cache_only_os. replace k' with (os_rm_watch (os s1) fd (wd x)).1 by by rewrite Hr.
        constructor. }
      destruct r as [e|].
      * apply wp_bind, wp_logMessage. intros s2 [H4 H5]. simpl in H5.
        apply wp_ret, HQ; rewrite ?H5, ?H2; [by etrans; [|etrans]|done|].
        left. split_and!; [done|done|]. exists (os s1), (wd x), (path x). rewrite Hr. by split_and!; [apply H1|..].
      * apply wp_bind, wp_markCacheSlotEmpty with x; [by simpl; rewrite H2|left; by eapply cache_ok_written, list_elem_of_lookup_2|].
        cbn [wlCache set_os]. rewrite H2. intros s2 H4 H5.
        pose proof (cache_map_clear _ _ _ Hok Hx Hw) as Hdel.
        apply IH; rewrite ?H5.
        -- by apply cache_ok_clear.
        -- unfold slot_clear. rewrite length_insert. lia.
        -- intros i y Hi Hy Hwy. unfold slot_clear in Hy. destruct (decide (i = n)) as [->|Hne].
           ++ rewrite list_lookup_insert_eq in Hy by (apply lookup_lt_Some in Hx; lia).
              by simplify_eq/=.
           ++ rewrite list_lookup_insert_ne in Hy by done. apply (Hdone i); (lia || done).
        -- intros r s3 H6 Hok3 Hr3. apply HQ; [by etrans; [|etrans; [|etrans]]|done|].
           rewrite Hdel in Hr3. rewrite map_size_delete_Some in Hr3 by eauto.
           assert (size (cache_map (wlCache s)) <> 0)%nat
             by (intros He; apply map_size_empty_inv in He; rewrite He in Hm; done).
           erewrite without_subtree_delete in Hr3 by done.
           destruct Hr3 as [(-> & Hsub & Hex)|[-> ->]]; [left|right; split; [done|lia]].
           split_and!; [done|etrans; [done|]; apply delete_subseteq|].
           destruct Hex as (k & w & q & Hk & Hq & Hs & He). exists k, w, q. split_and!; [|by apply lookup_delete_Some in Hq as [_ Hq]|done|done].
           etrans; [apply H1|]. etrans; [apply H3|]. etrans; [apply H4|done].
    + apply IH; [done|lia| |done]. intros i y Hi Hy Hwy.
      destruct (decide (i = n)) as [->|Hne]; [|apply (Hdone i); (lia || done)].
      simplify_eq. rewrite <-subtree_test_spec. intros Hs.
      unfold in_use in Ht. rewrite Hs in Ht. lia.
Qed.

Lemma wp_zapSubtree fd p Q E s :
  cache_ok (wlCache s) ->
  (forall r s', cache_only s s' -> cache_ok (wlCache s') ->
     (r = -1 /\ cache_map (wlCache s') ⊆ cache_map (wlCache s) /\
        refused (os s) fd p (cache_map (wlCache s)) \/
      cache_map (wlCache s') = without_subtree p (cache_map (wlCache s)) /\
      r = Z.of_nat (size (cache_map (wlCache s))) - Z.of_nat (size (cache_map (wlCache s'))))
     -> Q r s') ->
  wp (zapSubtree fd p) Q E s.
Proof.
  intros Hok HQ. apply wp_bind, wp_logMessage. intros s1 [H1 H2]. apply wp_bind, wp_get.
  unfold slots_of. apply wp_zap_loop; rewrite ?H2; [done|done|intros; lia|].
  intros r s2 H3 Hok2 Hr. apply HQ; [by etrans|done|]. rewrite Z.add_0_l in Hr.
  destruct Hr as [(Hr & Hsub & Href)|Hr]; [left; split_and!; [done..|]; eapply refused_later, Href; apply H1|by right].
Qed.

End Props.
