(* ===== verification/DirEventProps.v ===== *)
(** inotify_dtree.c: the invariant [dt_ok] of the event handling, well-formed
    events, and weakest preconditions of zapping roots and rebuilding the
    cache, on which the event branches depend. *)
From Stdlib Require Import ZArith Lia Ascii String.
From stdpp Require Import base tactics list strings gmap sets relations.
From S2P Require Import Prelude CString WatchCache DirTree WatchTree InotifyEvents.
From S2P Require Import DirProps.
#[local] Open Scope Z_scope.

(** The invariant between events. With the [-a] option, or while dumping
    after each event, there must be a log file; the [-x] check is off. *)
Record dt_ok {K} (s : dtree K) : Prop := {
  ok_cache : cache_ok (wlCache s);
  ok_roots : roots_ok s;
  ok_abort : abortOnCacheProblem s = true -> logfp s = true;
  ok_dump : dumpCache s = true -> logfp s = true;
  ok_check : checkCache s = false
}.

(** Documented form of the events: only the overflow event has no watch
    descriptor, and an "ignored" event carries no other bit. *)
Definition event_ok (ev : inotify_event) : Prop :=
  0 <= ev_len ev /\
  (ev_wd ev = -1 -> ev_mask ev = IN_Q_OVERFLOW) /\ -1 <= ev_wd ev /\
  (has_bit (ev_mask ev) IN_IGNORED = true -> ev_mask ev = IN_IGNORED).

(** A read returns whole, well-formed events that fit the space given. *)
Class EventSource (K : Type) `{InotifyOS K} := {
  os_read_fits k fd n k' evs :
    os_read k fd n = (k', ReadEvents evs) -> Forall event_ok evs /\ events_size evs <= n
}.

Section Props.
Context {K : Type} `{InotifyOS K} `{!InotifyOSLaws K} `{!ShortPaths K}.
Implicit Types (s : dtree K) (E : exit_kind -> dtree K -> Prop).

Lemma dt_ok_walk s s' : dt_ok s -> walk_only s s' -> cache_ok (wlCache s') -> dt_ok s'.
Proof.
  intros [H1 H2 H3 H4 H5] [] Hc. unfold roots_ok in *.
  split; unfold roots_ok; intros;
    repeat match goal with He : _ s' = _ |- _ => rewrite He in * end; auto.
Qed.

Lemma dt_ok_cache s s' : dt_ok s -> cache_only s s' -> cache_ok (wlCache s') -> dt_ok s'.
Proof. intros Hs Hc. apply dt_ok_walk with s; [done|by apply cache_walk]. Qed.

Lemma dt_ok_output s s' : dt_ok s -> output_only s s' -> dt_ok s'.
Proof.
  intros Hs [Hc He]. apply (dt_ok_cache s); [done|done|]. rewrite He. apply Hs.
Qed.

Lemma dt_ok_fd s fd : dt_ok s -> dt_ok (set_inotifyFd fd s).
Proof. intros []. by split. Qed.

(** ** The checks around a branch *)

Lemma wp_findWatchChecked w Q E s :
  (abortOnCacheProblem s = true -> logfp s = true) -> (forall k s', E k s') ->
  (forall slot, findWatch w (wlCache s) = Some slot -> Q (Some slot) s) ->
  (forall s', findWatch w (wlCache s) = None -> output_only s s' -> Q None s') ->
  wp (findWatchChecked w) Q E s.
Proof.
  intros Hl HE H1 H2. apply wp_bind, wp_get. destruct (findWatch _ _); [by apply wp_ret, H1|].
  apply wp_bind, wp_logMessage. intros s1 H3.
  destruct (abortOnCacheProblem s); [|by apply wp_ret, H2].
  apply wp_bind, wp_modify, wp_bind, wp_dumpCacheToLog.
  - simpl. rewrite (co_logfp _ _ (output_cache _ _ H3)). auto.
  - intros s2 _. by apply wp_exit.
Qed.

(** ** Rebuilding *)

(** The walk of a live root, at some moment after [k0], contributes only
    directories found below it. *)
Definition below_roots (k0 : K) (roots : list (option cstr)) (m : gmap Z cstr) : Prop :=
  forall w q, m !! w = Some q ->
    exists root k, rtc os_call k0 k /\ Some root ∈ roots /\ q ∈ visited_dirs (os_nftw k root).2.1.

(** Every live root was walked after [k0], and every directory that the walk
    came across is watched, unless it had vanished by then. *)
Definition covers_roots (k0 : K) (fd : Z) (roots : list (option cstr)) (m : gmap Z cstr) : Prop :=
  forall root, Some root ∈ roots -> exists k, rtc os_call k0 k /\
    forall q, q ∈ visited_dirs (os_nftw k root).2.1 ->
      vanished k0 fd q \/ exists w, granted k0 fd q w /\ is_Some (m !! w).

Lemma below_roots_later k0 k1 roots m : rtc os_call k0 k1 -> below_roots k1 roots m -> below_roots k0 roots m.
Proof.
  intros Hk H1 w q Hq. destruct (H1 w q Hq) as (root & k & H2 & H3). exists root, k. split; [by etrans|done].
Qed.
Lemma covers_roots_later k0 k1 fd roots m : rtc os_call k0 k1 -> covers_roots k1 fd roots m -> covers_roots k0 fd roots m.
Proof.
  intros Hk H1 root Hr. destruct (H1 root Hr) as (k & H2 & H3). exists k. split; [by etrans|]. intros q Hq.
  destruct (H3 q Hq) as [Hv|(w & Hg & Hw)]; [left; by eapply vanished_later|right]. exists w. split; [by eapply granted_later|done].
Qed.

(** The map is what walks of the live roots after [k0] found. *)
Definition rebuilt (k0 : K) s : Prop :=
  below_roots k0 (rootDirPaths s) (cache_map (wlCache s)) /\
  covers_roots k0 (inotifyFd s) (rootDirPaths s) (cache_map (wlCache s)).

Lemma foldl_add_entry ws m w q :
  foldl add_entry m ws !! w = Some q -> m !! w = Some q \/ q ∈ ws.*1.
Proof.
  revert m. induction ws as [|[p v] ws IH]; intros m Hq; [by left|].
  destruct (IH _ Hq) as [Hm|Hin]; [|right; by apply elem_of_cons; right].
  unfold add_entry in Hm. simpl in Hm. destruct (m !! v); [by left|].
  apply lookup_insert_Some in Hm as [[<- <-]|[_ Hm]]; [right; apply elem_of_cons|]; by left.
Qed.

Lemma add_entry_subseteq m e : m ⊆ add_entry m e.
Proof. unfold add_entry. destruct (m !! e.2) eqn:Hm; [done|]. by apply insert_subseteq. Qed.

Lemma foldl_add_entry_subseteq ws m : m ⊆ foldl add_entry m ws.
Proof.
  revert m. induction ws as [|e ws IH]; intros m; [done|].
  etrans; [apply add_entry_subseteq|apply IH].
Qed.

Lemma foldl_add_entry_bound ws m q w : (q, w) ∈ ws -> is_Some (foldl add_entry m ws !! w).
Proof.
  revert m. induction ws as [|e ws IH]; intros m Hin; [by apply elem_of_nil in Hin|].
  apply elem_of_cons in Hin as [<-|Hin]; [|by apply IH].
  assert (Hs : is_Some (add_entry m (q, w) !! w)).
  { unfold add_entry. simpl. destruct (m !! w) eqn:Hm; [by rewrite Hm|].
    by rewrite lookup_insert_eq. }
  destruct Hs as [x Hx]. exists x.
  cbn [foldl]. eapply lookup_weaken; [exact Hx|apply foldl_add_entry_subseteq].
Qed.

(** What a walk does for the coverage of the roots. *)
Lemma covers_walk k0 fd roots m root k ws :
  covers_roots k0 fd roots m -> rtc os_call k0 k -> walked k fd (os_nftw k root).2.1 ws ->
  covers_roots k0 fd (roots ++ [Some root]) (foldl add_entry m ws).
Proof.
  intros Hc Hk (_ & Hg & Hw)%(walked_later _ _ _ _ _ Hk) r Hr. apply elem_of_app in Hr as [Hr|Hr].
  - destruct (Hc _ Hr) as (k' & Hk' & Hcov). exists k'. split; [done|]. intros q Hq.
    destruct (Hcov q Hq) as [Hv|(w & Hgw & x & Hx)]; [by left|right]. exists w. split; [done|].
    exists x. by eapply lookup_weaken, foldl_add_entry_subseteq.
  - apply list_elem_of_singleton in Hr as [= ->]. exists k. split; [done|]. intros q Hq.
    destruct (Hw q Hq) as [Hin|Hv]; [right|by left].
    apply list_elem_of_fmap in Hin as ([q' w] & -> & Hin). exists w. split.
    + rewrite Forall_forall in Hg. by apply (Hg _ Hin).
    + by eapply foldl_add_entry_bound.
Qed.

Lemma wp_reinitialize old Q E s :
  (forall k s', E k s') -> quiet s ->
  (forall fd s', walk_only s s' -> cache_ok (wlCache s') ->
     below_roots (os s) (rootDirPaths s) (cache_map (wlCache s')) ->
     covers_roots (os s) fd (rootDirPaths s) (cache_map (wlCache s')) -> 0 <= fd -> Q fd s') ->
  wp (reinitialize old) Q E s.
Proof.
  intros HE Hquiet HQ. apply wp_seq_inv with (I := walk_only s).
  { destruct (0 <=? old).
    - apply wp_bind, wp_modify, wp_bind, wp_modify, wp_bind, wp_get, wp_logMessage.
      intros s1 [H1 _]. etrans; [|by apply cache_walk]. split; try done.
      apply rtc_once. constructor.
    - apply wp_bind, wp_logMessage. intros s1 [H1 _]. apply wp_modify.
      etrans; [by apply cache_walk|]. by split. }
  intros [] s1 H1. apply wp_bind, wp_sys.
  destruct (os_inotify_init (os s1)) as [k' r] eqn:Hi. cbn [fst snd].
  assert (H2 : walk_only s1 (set_os k' s1)).
  { apply cache_walk, cache_only_os. replace k' with (os_inotify_init (os s1)).1 by by rewrite Hi.
    constructor. }
  destruct r as [e|fd]; [apply wp_bind, wp_fprintf_stderr; intros; by apply wp_exit|].
  pose proof (os_init_nonneg _ _ _ Hi) as Hfd.
  apply wp_bind, wp_logMessage. intros s2 [H3 _]. apply wp_bind, wp_modify, wp_bind, wp_get.
  assert (H4 : walk_only s (set_wlCache [] s2)).
  { etrans; [done|]. etrans; [done|]. etrans; [by apply cache_walk|].
    apply cache_walk, cache_only_cache. }
  apply wp_seq_inv with (I := fun s' => walk_only s s' /\ cache_ok (wlCache s') /\
    below_roots (os s) (rootDirPaths s) (cache_map (wlCache s')) /\
    covers_roots (os s) fd (rootDirPaths s) (cache_map (wlCache s'))).
  - rewrite (wo_roots _ _ H4) in *. apply (wp_for_each _ _ (fun done s' => walk_only s s' /\
      cache_ok (wlCache s') /\ below_roots (os s) (rootDirPaths s) (cache_map (wlCache s')) /\
      covers_roots (os s) fd done (cache_map (wlCache s')))).
    + split_and!; [done|apply cache_ok_nil|done|]. intros r Hr. by apply elem_of_nil in Hr.
    + intros done [p|] rest s3 Hp (H5 & Hok & Hb & Hcov).
      * apply wp_watchSubtree; [done|by eapply quiet_walk|done|]. intros s4 ws H6 Hok' Hw Hm.
        split_and!; [by etrans|done| |by rewrite Hm; eapply covers_walk; [done|apply H5|]].
        intros w q Hq. rewrite Hm in Hq.
        apply foldl_add_entry in Hq as [Hq|Hq]; [by apply (Hb w)|].
        exists p, (os s3). split_and!; [apply H5|rewrite Hp; set_solver|].
        by eapply elem_of_sublist, Hw.
      * apply wp_ret. split_and!; try done. intros r Hr. apply Hcov. set_solver.
  - intros [] s3 (H5 & Hok & Hb & Hcov). apply wp_bind, wp_get.
    eapply (wp_seq_inv _ _ (output_only s3)).
    { apply wp_when_inv; [done|]. intros _. by apply wp_log_inv. }
    intros [] s4 [H6 H7]. apply wp_ret, HQ; rewrite ?H7; try done.
    etrans; [done|by apply cache_walk].
Qed.

Lemma wp_rebuild Q E s :
  (forall k s', E k s') -> dt_ok s -> quiet s ->
  (forall s', dt_ok s' -> quiet s' -> rtc os_call (os s) (os s') -> rootDirPaths s' = rootDirPaths s ->
     rebuilt (os s) s' -> Q tt s') ->
  wp rebuild Q E s.
Proof.
  intros HE Hs Hq HQ. apply wp_bind, wp_get, wp_bind, wp_reinitialize; [done|done|].
  intros fd s1 H1 Hc Hb Hcov _. apply wp_modify, HQ; [|change (quiet s1); by eapply quiet_walk|apply H1|apply H1|].
  - by apply dt_ok_fd, (dt_ok_walk s).
  - unfold rebuilt. simpl. by rewrite (wo_roots _ _ H1).
Qed.

(** ** The root table *)

Lemma findRootDirPath_lookup p roots j :
  findRootDirPath p roots = Some j -> roots !! j = Some (Some p).
Proof.
  unfold findRootDirPath. rewrite fmap_Some. intros [[i r] [Hf ->]].
  apply list_find_Some in Hf as (Hl & -> & _). done.
Qed.

Lemma isRootDirPath_spec p roots : isRootDirPath p roots = true <-> Some p ∈ roots.
Proof.
  unfold isRootDirPath. destruct (findRootDirPath p roots) as [j|] eqn:Hf.
  - split; [intros _|done]. apply findRootDirPath_lookup in Hf.
    eauto using list_elem_of_lookup_2.
  - split; [done|]. unfold findRootDirPath in Hf.
    rewrite fmap_None, list_find_None, Forall_forall in Hf. intros Hp. by destruct (Hf _ Hp).
Qed.

Lemma zapped_insert roots j p :
  roots !! j = Some (Some p) ->
  length (zapped (<[j := None]> roots)) = S (length (zapped roots)).
Proof.
  intros Hj. destruct (slot_split _ _ _ Hj) as (l & r & -> & ->).
  rewrite insert_middle. unfold zapped. rewrite !filter_app, !filter_cons, !length_app. simpl. lia.
Qed.

Lemma all_zapped roots :
  length (zapped roots) = length roots <-> forall q, Some q ∉ roots.
Proof.
  unfold zapped. induction roots as [|[p|] roots IH].
  - split; [|done]. intros _ q Hq. by apply elem_of_nil in Hq.
  - rewrite filter_cons_False by done. split.
    + intros Hl. pose proof (length_filter (fun r => r = None) roots). simpl in Hl. lia.
    + intros Hq. exfalso. apply (Hq p). by left.
  - rewrite filter_cons_True by done. simpl. rewrite Nat.succ_inj_wd, IH. set_solver.
Qed.

(** Zapping a root keeps the count right; it ends the program successfully
    exactly when there is no root left, with a failure when [p] is not a root. *)
Lemma wp_zapRootDirPath p Q E s :
  roots_ok s -> (forall s', Some p ∉ rootDirPaths s -> E EXIT_FAILURE s') ->
  (forall s', (forall q, Some q ∉ rootDirPaths s') -> E EXIT_SUCCESS s') ->
  (forall j s', findRootDirPath p (rootDirPaths s) = Some j ->
     rootDirPaths s' = <[j := None]> (rootDirPaths s) -> roots_ok s' ->
     (exists q, Some q ∈ rootDirPaths s') ->
     walk_only (set_ignoreRootDirs (ignoreRootDirs s')
                 (set_rootDirPaths (rootDirPaths s') s)) s' ->
     wlCache s' = wlCache s -> Q tt s') ->
  wp (zapRootDirPath p) Q E s.
Proof.
  intros Hr Hp HE HQ. apply wp_bind, wp_printf. intros s1 [H1 H2]. apply wp_bind, wp_get.
  rewrite (co_roots _ _ H1). pose proof (isRootDirPath_spec p (rootDirPaths s)) as Hroot.
  unfold isRootDirPath in Hroot.
  destruct (findRootDirPath p (rootDirPaths s)) as [j|] eqn:Hf;
    [|apply wp_bind, wp_fprintf_stderr; intros; apply wp_exit, Hp; by rewrite <-Hroot].
  apply wp_bind, wp_modify, wp_bind, wp_get.
  set (s2 := set_ignoreRootDirs _ _).
  assert (Hr2 : roots_ok s2).
  { unfold roots_ok in *. simpl. rewrite ?(co_roots _ _ H1), (co_ignored _ _ H1).
    rewrite (zapped_insert _ _ p) by by apply findRootDirPath_lookup. lia. }
  apply wp_when; intros Hlast.
  - apply wp_bind, wp_fprintf_stderr. intros s3 [H3 _]. apply wp_exit, HE.
    rewrite (co_roots _ _ H3). apply all_zapped. unfold roots_ok in Hr2. lia.
  - apply (HQ j); [done| |done| | |done].
    + by simpl; rewrite (co_roots _ _ H1).
    + destruct (decide (Exists is_Some (rootDirPaths s2))) as [Hx|Hx].
      * apply Exists_exists in Hx as (r & Hin & q & ->). by exists q.
      * exfalso. apply Z.eqb_neq in Hlast. apply Hlast. rewrite Hr2. f_equal.
        apply all_zapped. intros q Hq. apply Hx, Exists_exists. eauto.
    + destruct H1; by split.
Qed.

Lemma dt_ok_zapped s s' :
  dt_ok s -> roots_ok s' ->
  walk_only (set_ignoreRootDirs (ignoreRootDirs s') (set_rootDirPaths (rootDirPaths s') s)) s' ->
  wlCache s' = wlCache s -> dt_ok s'.
Proof.
  intros [] Hr [] Hc. simpl in *. split; intros;
    repeat match goal with He : _ s' = _ |- _ => rewrite He in * end; auto.
Qed.

Lemma wp_zapRoot_ok p Q E s :
  (forall k s', E k s') -> dt_ok s ->
  (forall s', dt_ok s' -> wlCache s' = wlCache s -> rtc os_call (os s) (os s') ->
     (quiet s -> quiet s') -> Q tt s') ->
  wp (zapRootDirPath p) Q E s.
Proof.
  intros HE Hs HQ. apply wp_zapRootDirPath; [apply Hs|done|done|].
  intros j s' _ _ Hr _ Hwalk Hc. apply HQ; [by eapply dt_ok_zapped|done|apply Hwalk|].
  intros Hq. by eapply quiet_walk; [exact Hwalk|].
Qed.

End Props.
