(* ===== verification/DirSafety.v ===== *)
(** inotify_dtree.c: what each branch of the event handler does, as weakest
    preconditions, up to the loop over a buffer of events. The loop and the main
    loop keep the invariant; with finitely many events pending in the kernel,
    the loop over the buffer ends, and a bound on its turns is given. *)
From Stdlib Require Import ZArith Lia Ascii String.
From stdpp Require Import base tactics list strings gmap sets relations.
From S2P Require Import Prelude CString WatchCache DirTree WatchTree InotifyEvents DirProps DirEventProps.
#[local] Open Scope Z_scope.

(** The only kernel events without a slot. *)
Definition slotless (ev : inotify_event) : bool :=
  (ev_wd ev =? -1) || has_bit (ev_mask ev) IN_IGNORED.

(** The possible results of handling the first of [evs]. *)
Definition result_ok (evs : list inotify_event) (firstTry : bool) (v : Z) : Prop :=
  match evs with
  | [] => False
  | ev :: later =>
      (v = -1 /\ firstTry = true) \/ v = INOTIFY_READ_BUF_LEN \/ v = ev_size ev \/
      (exists nextEv rest, later = nextEv :: rest /\ v = ev_size ev + ev_size nextEv)
  end.

Definition end_value (r : branch_end) : Z :=
  match r with Return v => v | FallThrough v => v end.

Section Branches.
Context {K : Type} `{InotifyOS K} `{!InotifyOSLaws K} `{!ShortPaths K}.
Implicit Types (s : dtree K) (E : exit_kind -> dtree K -> Prop).

(** The invariant of a program that logs nothing when the cache grows. *)
Definition dt_quiet s : Prop := dt_ok s /\ quiet s.

(** [s'] is a good state reached from [s] without reading events. *)
Definition good s s' : Prop := dt_quiet s' /\ rtc os_call (os s) (os s').

Lemma good_refl s : dt_quiet s -> good s s.
Proof. by split. Qed.

Lemma good_ok s s' : good s s' -> dt_ok s'.
Proof. by intros [[] _]. Qed.

Lemma good_trans s1 s2 s3 : good s1 s2 -> good s2 s3 -> good s1 s3.
Proof. intros [_ H1] [H2 H3]. split; [done|by etrans]. Qed.

Lemma good_cache s s1 s2 : good s s1 -> cache_only s1 s2 -> cache_ok (wlCache s2) -> good s s2.
Proof.
  intros [[H1 Hq] H2] Ho Hc. split; [split; [by eapply dt_ok_cache|by eapply quiet_cache]|].
  etrans; [done|]. apply (co_os _ _ Ho).
Qed.

Lemma good_output s s1 s2 : good s s1 -> output_only s1 s2 -> good s s2.
Proof. intros Hg [Hc He]. eapply good_cache; [done..|]. rewrite He. apply (ok_cache _ (good_ok _ _ Hg)). Qed.

Lemma wp_log_good vb fmt args E s0 s :
  good s0 s -> wp (logMessage vb fmt args) (fun _ => good s0) E s.
Proof. intros Hg. apply wp_logMessage. intros s1 H1. by eapply good_output. Qed.

(** ** Safety of the branches *)

Context (E : exit_kind -> dtree K -> Prop) (HE : forall k s, E k s).

(** An event's slot holds its watch descriptor. *)
Definition slot_of ev (slot : nat) s : Prop :=
  exists x, wlCache s !! slot = Some x /\ wd x = ev_wd ev.

Lemma slot_of_output ev slot s s' : slot_of ev slot s -> output_only s s' -> slot_of ev slot s'.
Proof. intros (x & Hx & Hw) [_ Hc]. exists x. by rewrite Hc. Qed.

Lemma wp_mark_good ev slot s0 s :
  good s0 s -> slot_of ev slot s -> wp (markCacheSlotEmpty slot) (fun _ => good s0) E s.
Proof.
  intros Hg (x & Hx & _). apply wp_markCacheSlotEmpty with x; [done|right; apply Hg|].
  intros s1 H1 H2. eapply good_cache; [done|done|]. rewrite H2. apply cache_ok_clear, (ok_cache _ (good_ok _ _ Hg)).
Qed.

Lemma wp_rebuild_good s0 s : good s0 s -> wp rebuild (fun _ => good s0) E s.
Proof.
  intros [[H1 Hq] H2]. apply wp_rebuild; [done..|]. intros s1 H3 Hq1 H4 _ _. split; [done|by etrans].
Qed.

Lemma wp_zap_good fd p s0 s : good s0 s -> wp (zapSubtree fd p) (fun _ => good s0) E s.
Proof.
  intros Hg. apply wp_zapSubtree; [apply (ok_cache _ (good_ok _ _ Hg))|]. intros r s1 H1 H2 _. by eapply good_cache.
Qed.

Lemma wp_watch_good fd p s0 s : good s0 s -> wp (watchSubtree fd p) (fun _ => good s0) E s.
Proof.
  intros [[H1 Hq] H2]. apply wp_watchSubtree; [done|done|apply H1|]. intros s1 ws H3 Hc _ _.
  split; [split; [by eapply dt_ok_walk|by eapply quiet_walk]|]. etrans; [done|apply H3].
Qed.

Lemma wp_zapRoot_good p s0 s :
  good s0 s ->
  wp (zapRootDirPath p) (fun _ s' => good s0 s' /\ wlCache s' = wlCache s) E s.
Proof.
  intros [[H1 Hq] H2]. apply wp_zapRoot_ok; [done|done|]. intros s1 H3 H4 H5 H6.
  split; [split; [split; [done|by apply H6]|by etrans]|done].
Qed.

Lemma wp_event_path ev slot s (Q : cstr -> dtree K -> Prop) :
  slot_of ev slot s ->
  (forall x, wlCache s !! slot = Some x -> wd x = ev_wd ev -> Q (path x) s) ->
  wp (event_path (Some slot)) Q E s.
Proof. intros (x & Hx & Hw) HQ. apply wp_bind. eapply wp_read_slot; [done|]. by apply wp_ret, HQ. Qed.

Lemma wp_on_create ev slot s0 s :
  good s0 s -> slot_of ev slot s ->
  wp (on_create ev (Some slot)) (fun r s' => good s0 s' /\ r = FallThrough (ev_size ev)) E s.
Proof.
  intros Hg Hs. apply wp_bind, (wp_event_path ev); [done|]. intros x _ _.
  eapply wp_seq_inv; [by apply wp_log_good|]. intros _ s1 H1. apply wp_bind, wp_get.
  eapply wp_seq_inv; [apply wp_when_inv; [done|]; intros _; by apply wp_watch_good|].
  intros _ s2 H2. by apply wp_ret.
Qed.

Lemma wp_on_delete_self ev slot s0 s :
  good s0 s -> slot_of ev slot s ->
  wp (on_delete_self ev (Some slot)) (fun r s' => good s0 s' /\ r = FallThrough (ev_size ev)) E s.
Proof.
  intros Hg Hs. apply wp_bind, (wp_event_path ev); [done|]. intros x _ _.
  apply wp_bind, wp_logMessage. intros s1 H1.
  pose proof (good_output _ _ _ Hg H1) as Hg1. pose proof (slot_of_output _ _ _ _ Hs H1) as Hs1.
  apply wp_bind, wp_get.
  apply wp_seq_inv with (I := fun s' => good s0 s' /\ slot_of ev slot s').
  { apply wp_when_inv; [done|]. intros _. eapply (wp_mono _ _ _ E); [by apply wp_zapRoot_good| |done].
    intros _ s2 [H2 H3]. split; [done|]. unfold slot_of. by rewrite H3. }
  intros _ s2 [H2 H3]. eapply wp_seq_inv; [by eapply wp_mark_good|]. intros _ s3 H4. by apply wp_ret.
Qed.

Lemma wp_on_unmount ev slot s0 s :
  good s0 s -> slot_of ev slot s ->
  wp (on_unmount ev (Some slot)) (fun r s' => good s0 s' /\ r = FallThrough (ev_size ev)) E s.
Proof.
  intros Hg Hs. apply wp_bind, (wp_event_path ev); [done|]. intros x _ _.
  apply wp_bind, wp_logMessage. intros s1 H1.
  eapply wp_seq_inv; [eapply wp_mark_good;
    [by eapply good_output|by eapply slot_of_output]|]. intros _ s2 H2. by apply wp_ret.
Qed.

Lemma wp_rebuild_return s0 s :
  good s0 s ->
  wp (rebuild ;;; ret (Return INOTIFY_READ_BUF_LEN))
    (fun r s' => good s0 s' /\ r = Return INOTIFY_READ_BUF_LEN) E s.
Proof.
  intros Hg. eapply wp_seq_inv; [by apply wp_rebuild_good|]. intros _ s1 H1. by apply wp_ret.
Qed.

Lemma wp_on_root_moved ev dir s0 s :
  good s0 s ->
  wp (on_root_moved ev dir)
    (fun r s' => good s0 s' /\ (r = Return INOTIFY_READ_BUF_LEN \/ r = FallThrough (ev_size ev))) E s.
Proof.
  intros Hg. eapply wp_seq_inv; [by apply wp_log_good|]. intros _ s1 H1.
  apply wp_bind. eapply (wp_mono _ _ _ E); [by apply wp_zapRoot_good| |done].
  intros [] s2 [H2 _]. apply wp_bind, wp_get.
  eapply wp_seq_inv; [by apply wp_zap_good|]. intros cnt s3 H3.
  destruct (cnt =? -1); [|apply wp_ret; by eauto].
  eapply (wp_mono _ _ _ E); [by apply wp_rebuild_return|naive_solver|done].
Qed.

Lemma wp_moved_out ev slot n b s0 s :
  good s0 s -> slot_of ev slot s ->
  wp (moved_out ev (Some slot) n b)
    (fun r s' => good s0 s' /\ (r = Return INOTIFY_READ_BUF_LEN \/ r = FallThrough (ev_size ev))) E s.
Proof.
  intros Hg Hs. apply wp_bind, (wp_event_path ev); [done|]. intros x _ _.
  eapply wp_seq_inv; [by apply wp_log_good|]. intros _ s1 H1.
  eapply wp_seq_inv; [by apply wp_log_good|]. intros _ s2 H2.
  apply wp_bind, wp_get. eapply wp_seq_inv; [by apply wp_zap_good|]. intros cnt s3 H3.
  destruct (cnt =? -1); [|apply wp_ret; by eauto].
  eapply (wp_mono _ _ _ E); [by apply wp_rebuild_return|naive_solver|done].
Qed.

Lemma wp_on_overflow s0 s :
  good s0 s ->
  wp on_overflow (fun r s' => good s0 s' /\ r = FallThrough INOTIFY_READ_BUF_LEN) E s.
Proof.
  intros Hg. apply wp_bind, wp_modify, wp_bind, wp_get.
  eapply wp_seq_inv; [apply wp_log_good; by destruct Hg as [[[] ?] ?]|]. intros _ s1 H1.
  eapply wp_seq_inv; [by apply wp_rebuild_good|]. intros _ s2 H2. by apply wp_ret.
Qed.

Lemma snprintf_nonempty size a c b : 1 < size -> snprintf size (a ++ c :: b) <> [].
Proof.
  intros Hs He. apply (f_equal length) in He. unfold snprintf in He.
  rewrite length_take, length_app in He. simpl in He. lia.
Qed.

Lemma wp_on_moved_from ev slot later n b s0 s :
  good s0 s -> slot_of ev slot s -> n <= ev_size ev + events_size later ->
  wp (on_moved_from ev (Some slot) later n b)
    (fun r s' => good s0 s' /\ result_ok (ev :: later) b (end_value r)) E s.
Proof.
  intros Hg Hs Hn. unfold on_moved_from.
  assert (Hout : wp (moved_out ev (Some slot) n b)
    (fun r s' => good s0 s' /\ result_ok (ev :: later) b (end_value r)) E s).
  { eapply (wp_mono _ _ _ E); [by apply wp_moved_out| |done].
    intros r s' [Hg' [-> | ->]]; (split; [done|]); simpl; tauto. }
  destruct (ev_size ev <? n) eqn:Hlt.
  - destruct later as [|nextEv rest]; [simpl in Hn; lia|].
    destruct (has_bit _ _ && _); [|done].
    apply wp_bind, wp_findWatchChecked; [apply (good_ok _ _ Hg)|done| |].
    + intros slot' Hf. apply wp_bind, (wp_event_path ev); [done|]. intros x _ _.
      apply wp_bind. destruct (findWatch_lookup _ _ _ Hf) as (y & Hy & Hwy).
      apply (wp_event_path nextEv); [by exists y|]. intros z _ _.
      apply wp_bind, wp_rewriteCachedPaths. intros s1 H1 H2. apply wp_ret. split.
      * eapply good_cache; [done|done|]. rewrite H2.
        apply cache_ok_rewrite; [apply snprintf_nonempty; done|apply (good_ok _ _ Hg)].
      * simpl. right; right; right. by exists nextEv, rest.
    + intros s1 _ H1. eapply (wp_mono _ _ _ E);
        [apply wp_rebuild_return; by eapply good_output| |done].
      intros r s' [Hg' ->]. split; [done|]. simpl. tauto.
  - destruct b; simpl negb; [|done].
    eapply wp_seq_inv; [by apply wp_log_good|]. intros _ s1 H1. apply wp_ret.
    split; [done|]. simpl. tauto.
Qed.

(** ** Safety of one event *)

Lemma slotless_dispatch ev later n b :
  event_ok ev -> slotless ev = true ->
  dispatch (K:=K) ev None later n b
  = if ev_wd ev =? -1 then on_overflow else ret (FallThrough (ev_size ev)).
Proof.
  intros (_ & H1 & _ & H2) Hs. unfold slotless in Hs. unfold dispatch.
  destruct (Z.eqb_spec (ev_wd ev) (-1)) as [Hw|Hw].
  - by rewrite (H1 Hw).
  - simpl in Hs. by rewrite (H2 Hs).
Qed.

Lemma wp_dispatch ev later slot n b s0 s :
  event_ok ev -> good s0 s -> n <= ev_size ev + events_size later ->
  match slot with Some j => slot_of ev j s | None => slotless ev = true end ->
  wp (dispatch ev slot later n b)
    (fun r s' => good s0 s' /\ result_ok (ev :: later) b (end_value r)) E s.
Proof.
  intros Hev Hg Hn Hs. destruct slot as [slot|].
  - assert (Hft : forall m, wp m (fun r s' => good s0 s' /\ r = FallThrough (ev_size ev)) E s ->
      wp m (fun r s' => good s0 s' /\ result_ok (ev :: later) b (end_value r)) E s).
    { intros m Hm. eapply (wp_mono _ _ _ E); [done| |done]. intros r s' [Hg' ->].
      split; [done|]. simpl. tauto. }
    unfold dispatch. destruct (_ && _); [by apply Hft, wp_on_create|].
    destruct (has_bit _ _); [by apply Hft, wp_on_delete_self|].
    destruct (_ =? _); [by apply wp_on_moved_from|].
    destruct (has_bit _ IN_Q_OVERFLOW).
    { eapply (wp_mono _ _ _ E); [by apply wp_on_overflow| |done].
      intros r s' [Hg' ->]. split; [done|]. simpl. tauto. }
    destruct (has_bit _ _); [by apply Hft, wp_on_unmount|].
    destruct (has_bit _ _); [|by apply Hft, wp_ret].
    apply wp_bind, (wp_event_path ev); [done|]. intros x _ _. apply wp_bind, wp_get.
    destruct (isRootDirPath _ _); [|by apply Hft, wp_ret].
    eapply (wp_mono _ _ _ E); [by apply wp_on_root_moved| |done].
    intros r s' [Hg' [-> | ->]]; (split; [done|]); simpl; tauto.
  - rewrite slotless_dispatch by done. destruct (ev_wd ev =? -1).
    + eapply (wp_mono _ _ _ E); [by apply wp_on_overflow| |done].
      intros r s' [Hg' ->]. split; [done|]. simpl. tauto.
    + apply wp_ret. split; [done|]. simpl. tauto.
Qed.

(** The checks at the end of the function change nothing but the output. *)
Lemma wp_final_checks l (Q : Z -> dtree K -> Prop) s :
  dt_ok s -> (forall s', output_only s s' -> Q l s') ->
  wp (let! s := get in
      when (checkCache s) checkCacheConsistency ;;;
      when (dumpCache s) dumpCacheToLog ;;;
      ret l) Q E s.
Proof.
  intros Hs HQ. apply wp_bind, wp_get. rewrite (ok_check _ Hs). simpl.
  apply wp_bind, wp_ret, wp_bind, wp_when; intros Hd.
  - apply wp_dumpCacheToLog; [by apply ok_dump in Hd|]. intros s1 H1. by apply wp_ret, HQ.
  - by apply wp_ret, HQ.
Qed.

Lemma wp_processNext evs n b s :
  dt_quiet s -> Forall event_ok evs -> evs <> [] -> n <= events_size evs ->
  wp (processNextInotifyEvent evs n b)
    (fun v s' => good s s' /\ result_ok evs b v) E s.
Proof.
  intros Hs Hev Hne Hn. destruct evs as [|ev later]; [done|].
  apply Forall_cons in Hev as [Hev _]. simpl in Hn. unfold processNextInotifyEvent.
  apply wp_bind, wp_displayInotifyEvent. intros s1 H1.
  pose proof (good_output _ _ _ (good_refl _ Hs) H1) as Hg.
  apply wp_bind. unfold event_slot.
  assert (Hd : forall slot, match slot with Some j => slot_of ev j s1 | None => slotless ev = true end ->
    wp (let! r := dispatch ev slot later n b in
        match r with
        | Return v => ret v
        | FallThrough l =>
            let! s := get in
            when (checkCache s) checkCacheConsistency ;;;
            when (dumpCache s) dumpCacheToLog ;;;
            ret l
        end) (fun v s' => good s s' /\ result_ok (ev :: later) b v) E s1).
  { intros slot Hslot. apply wp_bind. eapply (wp_mono _ _ _ E); [by apply wp_dispatch| |done].
    intros [v|l] s2 [H2 H3]; [by apply wp_ret|]. apply wp_final_checks; [apply (good_ok _ _ H2)|].
    intros s3 H4. split; [by eapply good_output|done]. }
  destruct (negb (ev_wd ev =? -1) && negb (has_bit (ev_mask ev) IN_IGNORED)) eqn:Hc.
  - apply wp_bind, wp_findWatchChecked; [apply (good_ok _ _ Hg)|done| |].
    + intros slot Hf. apply wp_ret, Hd. by apply findWatch_lookup in Hf.
    + intros s2 _ H2. apply wp_ret. eapply wp_seq_inv;
        [apply wp_rebuild_good; by eapply good_output|].
      intros _ s3 H3. apply wp_ret. split; [done|]. simpl. tauto.
  - apply wp_ret, Hd. unfold slotless. destruct (_ =? _), (has_bit _ _); done.
Qed.

End Branches.

(** A kernel with finitely many events to deliver: each event read is one
    fewer pending, and no other call makes new ones. *)
Class FiniteEvents (K : Type) `{InotifyOS K} := {
  pending : K -> nat;
  pending_call k k' : os_call k k' -> (pending k' <= pending k)%nat;
  pending_read k fd n : (pending (os_read k fd n).1 +
    match (os_read k fd n).2 with ReadEvents evs => length evs | ReadError _ => 0 end
    <= pending k)%nat
}.

(** The number of turns needed from a position in the buffer. *)
Definition turns (evs : list inotify_event) (npending : nat) (firstTry : bool) : nat :=
  (2 * (length evs + npending) + if firstTry then 1 else 0)%nat.

(** The bytes and events of a buffer position agree. *)
Definition position_ok (evs : list inotify_event) (remaining : Z) : Prop :=
  Forall event_ok evs /\ remaining <= INOTIFY_READ_BUF_LEN /\
  (0 < remaining -> remaining <= events_size evs).

Lemma ev_size_pos ev : event_ok ev -> 0 < ev_size ev.
Proof. intros [H _]. unfold ev_size, sizeof_inotify_event. lia. Qed.

Lemma events_size_app l r : events_size (l ++ r) = events_size l + events_size r.
Proof. induction l as [|e l IH]; simpl; lia. Qed.

Lemma events_size_nonneg l : Forall event_ok l -> 0 <= events_size l.
Proof. induction 1 as [|e l He _ IH]; simpl; [lia|]. pose proof (ev_size_pos e He). lia. Qed.

Lemma skip_bytes_suffix n evs : exists pre, evs = pre ++ skip_bytes n evs.
Proof.
  revert n. induction evs as [|e evs IH]; intros n; simpl.
  - exists []. by destruct (n <=? 0).
  - destruct (n <=? 0); [by exists []|]. destruct (IH (n - ev_size e)) as [pre Hpre].
    exists (e :: pre). simpl. by f_equal.
Qed.

Lemma skip_bytes_nonpos n evs : n <= 0 -> skip_bytes n evs = evs.
Proof. intros Hn. destruct evs; simpl; by replace (n <=? 0) with true by lia. Qed.

Lemma skip_bytes_shrinks n evs : 0 < n -> evs <> [] -> (length (skip_bytes n evs) < length evs)%nat.
Proof.
  destruct evs as [|e evs]; [done|]. intros Hn _. simpl.
  replace (n <=? 0) with false by lia.
  destruct (skip_bytes_suffix (n - ev_size e) evs) as [pre Hpre].
  apply (f_equal length) in Hpre. rewrite length_app in Hpre. lia.
Qed.

(** After a result of the event handler the position is right again. *)
Lemma position_advance evs n b v :
  position_ok evs n -> 0 < n -> result_ok evs b v -> 0 < v ->
  position_ok (skip_bytes v evs) (n - v).
Proof.
  intros (Hev & Hle & Hn) Hpos Hv Hv0. destruct evs as [|ev later]; [done|].
  specialize (Hn Hpos). destruct (skip_bytes_suffix v (ev :: later)) as [pre Hpre].
  split_and!; [|lia|].
  { rewrite Hpre in Hev. apply Forall_app in Hev. apply Hev. }
  apply Forall_cons in Hev as [He Hl]. pose proof (ev_size_pos _ He).
  simpl in Hv, Hn. intros Hpos'. simpl. replace (v <=? 0) with false by lia.
  destruct Hv as [[-> _]|[->|[->|(nx & rest & -> & ->)]]]; [lia|lia| |].
  - rewrite skip_bytes_nonpos by lia. lia.
  - apply Forall_cons in Hl as [Hx _]. pose proof (ev_size_pos _ Hx). simpl in *.
    replace (ev_size ev + ev_size nx - ev_size ev <=? 0) with false by lia.
    rewrite skip_bytes_nonpos by lia. lia.
Qed.

Section Loop.
Context {K : Type} `{InotifyOS K} `{!InotifyOSLaws K} `{!ShortPaths K} `{!EventSource K}.
Context `{!FiniteEvents K}.
Context (E : exit_kind -> dtree K -> Prop) (HE : forall k s, E k s).
Implicit Types (s : dtree K).

Lemma pending_calls k k' : rtc os_call k k' -> (pending k' <= pending k)%nat.
Proof.
  induction 1 as [k|k1 k2 k3 H1 _ IH]; [done|]. pose proof (pending_call _ _ H1). lia.
Qed.

Lemma dt_quiet_count s v : dt_quiet s -> dt_quiet (set_inotifyReadCnt v s).
Proof. intros [[] Hq]. by split. Qed.

Lemma dt_quiet_os s k : dt_quiet s -> dt_quiet (set_os k s).
Proof. intros [[] Hq]. by split. Qed.

Lemma dt_quiet_output s s' : dt_quiet s -> output_only s s' -> dt_quiet s'.
Proof. intros Hs Ho. by apply (good_output s s s'); [apply good_refl|]. Qed.

(** The second read leaves the events in place, adds what it got, and moves
    that many out of the kernel. *)
Lemma wp_read_more evs n s :
  dt_quiet s -> position_ok evs n -> 0 < n ->
  wp (read_more evs n) (fun r s' => dt_quiet s' /\ position_ok r.1 r.2 /\
     (length r.1 + pending (os s') <= length evs + pending (os s))%nat) E s.
Proof.
  intros Hs (Hev & Hle & Hn) Hpos. unfold read_more, read_events.
  apply wp_bind, wp_modify, wp_bind, wp_bind, wp_get, wp_sys, wp_bind, wp_modify.
  cbn [os set_os inotifyFd].
  set (k1 := os_ualarm (os s) 2000).
  destruct (os_read k1 (inotifyFd s) (INOTIFY_READ_BUF_LEN - n)) as [k2 r] eqn:Hr.
  assert (Hp1 : (pending k1 <= pending (os s))%nat) by (apply pending_call; constructor).
  pose proof (pending_read k1 (inotifyFd s) (INOTIFY_READ_BUF_LEN - n)) as Hp2.
  rewrite Hr in Hp2. cbn [fst snd] in Hp2 |- *.
  assert (Hp3 : (pending (os_ualarm k2 0) <= pending k2)%nat) by (apply pending_call; constructor).
  set (s1 := set_os _ _). assert (Hs1 : dt_quiet s1) by by repeat apply dt_quiet_os.
  assert (Ho1 : os s1 = os_ualarm k2 0) by done.
  assert (Hend : forall fmt args evs' n', position_ok evs' n' ->
    (length evs' + pending k2 <= length evs + pending (os s))%nat ->
    wp (count_read ;;; let! s := get in
        logMessage VB_NOISY fmt (args s) ;;; ret (evs', n'))
      (fun r s' => dt_quiet s' /\ position_ok r.1 r.2 /\
         (length r.1 + pending (os s') <= length evs + pending (os s))%nat) E s1).
  { intros fmt args evs' n' Hpos' Hlen. apply wp_bind, wp_modify, wp_bind, wp_get, wp_bind.
    apply wp_logMessage. intros s2 H2. apply wp_ret. split_and!; [|done|].
    - eapply dt_quiet_output; [|done]. by apply dt_quiet_count.
    - pose proof (pending_calls _ _ (co_os _ _ (output_cache _ _ H2))) as Hp.
      simpl in Hp. rewrite ?Ho1 in Hp. simpl. lia. }
  destruct r as [[|e more]|e].
  - apply wp_bind, wp_fprintf_stderr. intros. by apply wp_exit.
  - destruct (os_read_fits _ _ _ _ _ Hr) as [Hok Hfit].
    apply (Hend _ (fun s => [AInt (inotifyReadCnt s); AInt (events_size (e :: more))])).
    + split_and!; [by apply Forall_app|lia|]. rewrite events_size_app. lia.
    + rewrite length_app. lia.
  - destruct (e =? EINTR); simpl negb.
    + apply (Hend _ (fun s => [AInt (inotifyReadCnt s); AInt (-1)])); [|lia].
      split_and!; [done|lia|lia].
    + apply wp_bind, wp_fprintf_stderr. intros. by apply wp_exit.
Qed.

(** The loop is safe, keeps the invariant, and finishes if it has the fuel. *)
Lemma wp_process_loop fuel evs n b s :
  dt_quiet s -> position_ok evs n ->
  wp (process_loop fuel evs n b)
    (fun fin s' => dt_quiet s' /\
       ((turns evs (pending (os s)) b < fuel)%nat -> fin = true)) E s.
Proof.
  revert evs n b s. induction fuel as [|fuel IH]; intros evs n b s Hs Hpos; simpl.
  - destruct (n <=? 0); apply wp_ret; (split; [done|]); [done|lia].
  - destruct (Z.leb_spec n 0) as [|Hn]; [by apply wp_ret|].
    assert (Hne : evs <> []) by (intros ->; destruct Hpos as (_ & _ & Hp); simpl in Hp; lia).
    apply wp_bind. eapply (wp_mono _ _ _ E);
      [apply wp_processNext; [done|done|apply Hpos|done|by apply Hpos]| |done].
    intros v s1 [[Hs1 Hc] Hv]. pose proof (pending_calls _ _ Hc) as Hp.
    destruct (Z.ltb_spec 0 v) as [Hv0|Hv0].
    + eapply (wp_mono _ _ _ E); [apply IH; [done|by eapply position_advance]| |done].
      intros fin s2 [H1 H2]. split; [done|]. intros Hf. apply H2.
      pose proof (skip_bytes_shrinks _ _ Hv0 Hne). unfold turns in *. destruct b; lia.
    + assert (b = true) as ->.
      { destruct evs as [|ev later]; [done|]. destruct Hpos as (Hev & _).
        apply Forall_cons in Hev as [He Hl]. pose proof (ev_size_pos _ He).
        destruct Hv as [[_ ->]|[->|[->|(nx & rest & -> & ->)]]]; [done| |lia|].
        - exfalso. by compute in Hv0.
        - apply Forall_cons in Hl as [Hx _]. pose proof (ev_size_pos _ Hx). lia. }
      apply wp_bind. eapply (wp_mono _ _ _ E); [by apply wp_read_more| |done].
      intros [evs' n'] s2 (H1 & H2 & H3). simpl in H2, H3.
      eapply (wp_mono _ _ _ E); [by apply IH| |done].
      intros fin s3 [H4 H5]. split; [done|]. intros Hf. apply H5. unfold turns in *. lia.
Qed.

Lemma wp_processInotifyEvents fuel s :
  dt_quiet s -> readBufferSize s <= INOTIFY_READ_BUF_LEN ->
  (forall k, pending (os_sigaction k).1 <= pending k)%nat ->
  wp (processInotifyEvents fuel)
    (fun fin s' => dt_quiet s' /\ ((2 * pending (os s) + 1 < fuel)%nat -> fin = true)) E s.
Proof.
  intros Hs Hsize Hsig. apply wp_bind, wp_sys. pose proof (Hsig (os s)) as Hp0.
  destruct (os_sigaction (os s)) as [k1 [e|]]; cbn [fst snd] in *.
  { apply wp_bind, wp_fprintf_stderr. intros. by apply wp_exit. }
  apply wp_bind, wp_get. cbv zeta. apply wp_bind. unfold read_events.
  apply wp_bind, wp_get, wp_sys. cbn [os set_os inotifyFd readBufferSize].
  set (size := if 0 <? readBufferSize s then _ else _).
  assert (Hsz : size <= INOTIFY_READ_BUF_LEN) by (unfold size; destruct (0 <? _); lia).
  pose proof (pending_read k1 (inotifyFd s) size) as Hp1.
  destruct (os_read k1 (inotifyFd s) size) as [k2 [[|e evs]|e]] eqn:Hr; cbn [fst snd] in *.
  - apply wp_bind, wp_fprintf_stderr. intros. by apply wp_exit.
  - destruct (os_read_fits _ _ _ _ _ Hr) as [Hok Hfit].
    replace (INOTIFY_READ_BUF_LEN <? events_size (e :: evs)) with false by lia.
    apply wp_bind, wp_modify, wp_bind, wp_get, wp_bind, wp_logMessage. intros s1 H1.
    pose proof (pending_calls _ _ (co_os _ _ (output_cache _ _ H1))) as Hp2. simpl in Hp2.
    eapply (wp_mono _ _ _ E); [apply wp_process_loop|..]; [| | |done].
    + eapply dt_quiet_output; [|done]. by apply dt_quiet_count, dt_quiet_os, dt_quiet_os.
    + split_and!; [done|lia|lia].
    + intros fin s2 [H2 H3]. split; [done|]. intros Hf. apply H3. unfold turns.
      simpl in *. lia.
  - apply wp_bind, wp_fprintf_stderr. intros. by apply wp_exit.
Qed.

End Loop.
