(* ===== verification/DirTheorems.v ===== *)
(** inotify_dtree.c (src/tlpi-dist/inotify): the main theorems, with a small
    concrete kernel at which their hypotheses hold. *)
From Stdlib Require Import ZArith Lia Ascii String.
From stdpp Require Import base tactics list strings gmap sets relations.
From S2P Require Import Prelude CString WatchCache DirTree WatchTree InotifyEvents.
From S2P Require Import DirProps DirEventProps DirSafety.
#[local] Open Scope Z_scope.

(** ** A kernel to evaluate the theorems at *)

(** The directories that exist, the next watch descriptor to hand out, and how
    many times an event will still be reported. *)
Record demo := Demo { demo_dirs : list cstr; demo_next : nat; demo_left : nat }.

Definition demo_event : inotify_event :=
  Event 1 (Z.lor IN_CREATE IN_ISDIR) 0 16 (lit "new").

#[export] Instance demo_os : InotifyOS demo := {
  os_realloc k old new :=
    (k, if new <? old then None else Some (replicate (Z.to_nat (new - old)) 7));
  os_inotify_init k := (k, inr 3);
  os_close k fd := k;
  os_add_watch k fd p fl :=
    (Demo (demo_dirs k) (S (demo_next k)) (demo_left k), inr (Z.of_nat (demo_next k)));
  os_rm_watch k fd w := (k, None);
  os_nftw k p :=
    (k, ((fun d => (d, true)) <$>
           filter (fun d => in_subtree p d /\ strlen d < PATH_MAX) (demo_dirs k), None));
  os_lstat k p :=
    (k, if bool_decide (p ∈ demo_dirs k) then inr (Stat true 0 0) else inl ENOENT);
  os_read k fd n :=
    match demo_left k with
    | S m => if 32 <=? n then (Demo (demo_dirs k) (demo_next k) m, ReadEvents [demo_event])
                else (k, ReadError EINTR)
    | O => (k, ReadError EINTR)
    end;
  os_sigaction k := (k, None);
  os_ualarm k n := k;
  os_select k fd := (k, inr [fd]);
  os_read_stdin k n := (k, None);
  os_fopen k p := (k, true);
  os_fputs k p l := k;
  os_fclose k p := k
}.

(** A state watching the tree d, d/a, d/a/b and the directory e. *)
Definition demo_cache : list watch :=
  [Watch 1 (lit "d"); Watch 2 (lit "d/a"); empty_slot; Watch 4 (lit "d/a/b"); Watch 5 (lit "e");
   Watch 6 (lit "d/ab")].

Definition demo_state : dtree demo :=
  set_rootDirPaths [Some (lit "d"); Some (lit "e")]
    (set_wlCache demo_cache (set_inotifyFd 3
       (Dtree 0 false false 0 None false false 0 [] [] 0 0 0 0 0 (-1) [] [] [] None
          (Demo [lit "d"; lit "d/a"; lit "d/c"; lit "d/c/x"] 7 1)))).

#[export] Instance demo_laws : InotifyOSLaws demo.
Proof.
  split.
  - intros k old new k' slots. simpl. destruct (Z.ltb_spec new old); [done|].
    intros [= _ <-]. rewrite length_replicate. lia.
  - intros k fd p fl k' w [= _ <-]. lia.
  - by intros k k' fd [= _ <-].
Qed.

#[export] Instance demo_short : ShortPaths demo.
Proof.
  intros k p k' visited err q d [= _ <- _] Hq.
  apply list_elem_of_fmap in Hq as (x & [= -> _] & Hx). by apply list_elem_of_filter in Hx as [[_ ?] _].
Qed.

#[export] Instance demo_source : EventSource demo.
Proof.
  constructor. intros k fd n k' evs. simpl. destruct (demo_left k) as [|m]; [done|].
  destruct (Z.leb_spec 32 n); [|done]. intros [= _ <-]. split; [|by simpl].
  repeat constructor; vm_compute; congruence.
Qed.

#[export] Instance demo_finite : FiniteEvents demo.
Proof.
  refine {| pending := demo_left |}.
  - intros k k' Hc. destruct Hc; simpl; done.
  - intros k fd n. simpl. destruct (demo_left k) as [|m] eqn:Hl; simpl; [lia|].
    destruct (32 <=? n); simpl; lia.
Defined.

Lemma demo_dt_ok : dt_ok demo_state.
Proof.
  split; try done. split.
  - apply (bool_decide_unpack _). by vm_compute.
  - repeat (apply Forall_cons; split; [split_and!; [first [left; simpl; lia|by right]|by vm_compute|done]|]).
    by apply Forall_nil.
Qed.

Lemma demo_dt_quiet : dt_quiet demo_state.
Proof. split; [apply demo_dt_ok|done]. Qed.

(** ** Handling one event whose watch descriptor is known *)

Section Known.
Context {K : Type} `{InotifyOS K} `{!InotifyOSLaws K} `{!ShortPaths K}.
Implicit Types (s : dtree K).

Lemma findWatch_slot c w p :
  cache_ok c -> 0 <= w -> cache_map c !! w = Some p ->
  exists slot, findWatch w c = Some slot /\ c !! slot = Some (Watch w p).
Proof.
  intros Hc Hw Hm. rewrite findWatch_map in Hm by done.
  destruct (findWatch w c) as [slot|] eqn:Hf; [|done]. exists slot. split; [done|].
  destruct (findWatch_lookup _ _ _ Hf) as (x & Hx & <-). simpl in Hm. rewrite Hx in *.
  injection Hm as <-. by rewrite <-written_Watch by by eapply cache_ok_written, list_elem_of_lookup_2.
Qed.

Lemma wp_event_known ev later n b dir (Q : Z -> dtree K -> Prop) E s :
  dt_ok s -> 0 <= ev_wd ev -> has_bit (ev_mask ev) IN_IGNORED = false ->
  cache_map (wlCache s) !! ev_wd ev = Some dir ->
  (forall slot s1, output_only s s1 -> wlCache s !! slot = Some (Watch (ev_wd ev) dir) ->
     wp (dispatch ev (Some slot) later n b)
       (fun r s2 => match r with
                    | Return v => Q v s2
                    | FallThrough v =>
                        dt_ok s2 /\ forall s3, output_only s2 s3 -> Q v s3
                    end) E s1) ->
  wp (processNextInotifyEvent (ev :: later) n b) Q E s.
Proof.
  intros Hs Hw Hi Hm Hd. apply wp_bind, wp_displayInotifyEvent. intros s1 H1.
  apply wp_bind. unfold event_slot. rewrite Hi.
  replace (ev_wd ev =? -1) with false by lia. simpl. apply wp_bind, wp_bind, wp_get.
  destruct (findWatch_slot _ _ _ (ok_cache _ Hs) Hw Hm) as (slot & Hf & Hx).
  rewrite (proj2 H1), Hf. apply wp_ret, wp_ret, wp_bind.
  eapply (wp_mono _ _ _ E); [by apply (Hd slot s1)| |done].
  intros [v|v] s2; [by intros; apply wp_ret|]. intros [H2 H3].
  apply wp_bind, wp_get. rewrite (ok_check _ H2). apply wp_bind, wp_ret, wp_bind, wp_when; intros Hdump.
  - apply wp_dumpCacheToLog; [by apply ok_dump in Hdump|]. intros s3 H4. by apply wp_ret, H3.
  - by apply wp_ret, H3.
Qed.

Lemma wp_event_path_at slot x s s1 (Q : cstr -> dtree K -> Prop) E :
  wlCache s !! slot = Some x -> wlCache s1 = wlCache s -> Q (path x) s1 ->
  wp (event_path (Some slot)) Q E s1.
Proof. intros Hx Hc HQ. apply wp_bind, wp_read_slot with x; [by rewrite Hc|]. by apply wp_ret. Qed.

(** The tests on the mask of an event about a directory moved away. *)
Lemma dispatch_moved_from ev slot later n b :
  ev_mask ev = Z.lor IN_MOVED_FROM IN_ISDIR ->
  dispatch (K:=K) ev slot later n b = on_moved_from ev slot later n b.
Proof. unfold dispatch. by intros ->. Qed.

Lemma moved_out_chosen ev slot later n b :
  (if ev_size ev <? n then
     exists nextEv rest, later = nextEv :: rest /\
       (has_bit (ev_mask nextEv) IN_MOVED_TO = false \/ ev_cookie nextEv <> ev_cookie ev)
   else b = false) ->
  on_moved_from (K:=K) ev slot later n b = moved_out ev slot n b.
Proof.
  unfold on_moved_from. destruct (ev_size ev <? n); [|by intros ->].
  intros (nextEv & rest & -> & [-> | Hc]); [done|].
  rewrite (proj2 (Z.eqb_neq _ _) Hc). by rewrite andb_false_r.
Qed.

End Known.

(** ** The theorems *)

(** C1: Whatever the events in the buffer and whatever the kernel answers,
    [processNextInotifyEvent] never runs into undefined behaviour (no access
    outside the cache, no use of the uninitialised slot number), and leaves
    the cache in its invariant: distinct watch descriptors, free slots empty,
    paths that fit their arrays, and a correct count of zapped roots. The
    result is the size of the one or two events it consumed, the whole buffer,
    or -1 on a first try only. This holds of a program that neither checks the
    cache after each event (-x) nor logs noisily (no -l, nor -a and -d, which
    need it, and a level without VB_NOISY): with logging on, growing the cache prints slots that have never
    been written (growth_logged), and the check reads a stat buffer that has
    not been filled (check_free_slot). *)
Theorem event_handler_safe {K} `{InotifyOS K} `{!InotifyOSLaws K} `{!ShortPaths K}
    (evs : list inotify_event) (n : Z) (firstTry : bool) (s : dtree K) :
  dt_quiet s -> Forall event_ok evs -> evs <> [] -> n <= events_size evs ->
  wp (processNextInotifyEvent evs n firstTry)
    (fun v s' => dt_quiet s' /\ result_ok evs firstTry v) (fun _ _ => True) s.
Proof.
  intros Hs Hev Hne Hn. eapply (wp_mono _ _ _ (fun _ _ => True));
    [by apply (wp_processNext (fun _ _ => True))| |done].
  by intros v s' [[H1 _] H2].
Qed.

(** C2: The loop of [processInotifyEvents] over a buffer keeps the invariant
    of a program that neither checks the cache nor logs noisily, and
    terminates: with the events in the buffer and [pending] more in the
    kernel it makes at most [turns] turns, although a "moved from" at the end
    of the buffer sends it back to read more. *)
Theorem event_loop_terminates {K} `{InotifyOS K} `{!InotifyOSLaws K} `{!ShortPaths K}
    `{!EventSource K} `{!FiniteEvents K} (fuel : nat) (evs : list inotify_event) (s : dtree K) :
  dt_quiet s -> Forall event_ok evs -> events_size evs <= INOTIFY_READ_BUF_LEN ->
  (turns evs (pending (os s)) true < fuel)%nat ->
  wp (process_loop fuel evs (events_size evs) true)
    (fun finished s' => dt_quiet s' /\ finished = true) (fun _ _ => True) s.
Proof.
  intros Hs Hev Hle Hf. eapply (wp_mono _ _ _ (fun _ _ => True));
    [by apply (wp_process_loop (fun _ _ => True))| |done].
  intros fin s' [H1 H2]. split; [done|]. by apply H2.
Qed.

(** C3: A rename within the monitored trees, reported as two consecutive
    events with one cookie, rewrites the paths of exactly the renamed
    directory and what lies below it: the map of watched directories becomes
    its image under [renamed], and both events are consumed. *)
Theorem rename_within_tree {K} `{InotifyOS K} `{!InotifyOSLaws K} `{!ShortPaths K}
    (ev nextEv : inotify_event) rest n b dir dir' (s : dtree K) :
  let a := dir ++ SLASH :: ev_name ev in
  let a' := dir' ++ SLASH :: ev_name nextEv in
  dt_ok s -> 0 <= ev_wd ev -> 0 <= ev_wd nextEv ->
  ev_mask ev = Z.lor IN_MOVED_FROM IN_ISDIR -> has_bit (ev_mask nextEv) IN_MOVED_TO = true ->
  ev_cookie nextEv = ev_cookie ev -> ev_size ev < n ->
  cache_map (wlCache s) !! ev_wd ev = Some dir ->
  cache_map (wlCache s) !! ev_wd nextEv = Some dir' ->
  strlen a < PATH_MAX -> strlen a' < PATH_MAX ->
  (forall q, in_subtree a q -> q ∈ path <$> used (wlCache s) ->
     strlen (a' ++ drop (length a) q) < PATH_MAX) ->
  wp (processNextInotifyEvent (ev :: nextEv :: rest) n b)
    (fun v s' => v = ev_size ev + ev_size nextEv /\ dt_ok s' /\
       cache_map (wlCache s') = renamed a a' <$> cache_map (wlCache s))
    (fun _ _ => False) s.
Proof.
  intros a a' Hs Hw Hw' Hmask Hto Hck Hn Hm Hm' Ha Ha' Hfit.
  apply wp_event_known with dir; [done|done|by rewrite Hmask|done|].
  intros slot s1 H1 Hslot. rewrite dispatch_moved_from by done. unfold on_moved_from.
  replace (ev_size ev <? n) with true by lia. rewrite Hto, Hck, Z.eqb_refl. simpl andb.
  pose proof (dt_ok_output _ _ Hs H1) as Hs1. destruct H1 as [_ Hc].
  destruct (findWatch_slot _ _ _ (ok_cache _ Hs) Hw' Hm') as (slot' & Hf & Hslot').
  apply wp_bind, wp_bind, wp_get. rewrite Hc, Hf. apply wp_ret.
  apply wp_bind, wp_event_path_at with (Watch (ev_wd ev) dir) s; [done..|].
  apply wp_bind, wp_event_path_at with (Watch (ev_wd nextEv) dir') s; [done..|].
  apply wp_bind, wp_rewriteCachedPaths. simpl path. fold a a'.
  rewrite !snprintf_fits by done. intros s2 H2 H3. apply wp_ret.
  assert (Hane : a <> []) by (unfold a; by destruct dir).
  rewrite Hc in H3. assert (Hok2 : cache_ok (wlCache s2)).
  { rewrite H3. by apply cache_ok_rewrite, Hs. }
  split; [by eapply dt_ok_cache|]. intros s3 H4. split_and!; [done| |].
  - eapply dt_ok_output; [|done]. by eapply dt_ok_cache.
  - destruct H4 as [_ ->]. rewrite H3. apply cache_map_rewrite; [apply Hs|done].
Qed.

(** C4: A directory moved out of the monitored trees (no matching "moved to"
    follows, or none can follow) takes its whole subtree out of the map, and
    nothing else; only if the kernel refuses, while this is done, to drop the
    watch of a directory of that subtree is the rest of the buffer dropped and
    the cache rebuilt instead: it then holds what walks of the live roots have
    found since. The program does not check the cache or log noisily. *)
Theorem moved_out_zaps_subtree {K} `{InotifyOS K} `{!InotifyOSLaws K} `{!ShortPaths K}
    (ev : inotify_event) later n b dir (s : dtree K) :
  let a := dir ++ SLASH :: ev_name ev in
  dt_quiet s -> 0 <= ev_wd ev -> ev_mask ev = Z.lor IN_MOVED_FROM IN_ISDIR ->
  (if ev_size ev <? n then
     exists nextEv rest, later = nextEv :: rest /\
       (has_bit (ev_mask nextEv) IN_MOVED_TO = false \/ ev_cookie nextEv <> ev_cookie ev)
   else b = false) ->
  cache_map (wlCache s) !! ev_wd ev = Some dir -> strlen a < PATH_MAX + NAME_MAX ->
  wp (processNextInotifyEvent (ev :: later) n b)
    (fun v s' => dt_quiet s' /\ rootDirPaths s' = rootDirPaths s /\
       ((v = ev_size ev /\ cache_map (wlCache s') = without_subtree a (cache_map (wlCache s))) \/
        (v = INOTIFY_READ_BUF_LEN /\ refused (os s) (inotifyFd s) a (cache_map (wlCache s)) /\
         rebuilt (os s) s')))
    (fun _ _ => True) s.
Proof.
  intros a [Hs Hq] Hw Hmask Hnext Hm Ha.
  apply wp_event_known with dir; [done|done|by rewrite Hmask|done|].
  intros slot s1 H1 Hslot. rewrite dispatch_moved_from by done.
  rewrite moved_out_chosen by done.
  apply wp_bind, wp_event_path_at with (Watch (ev_wd ev) dir) s; [done|apply H1|].
  apply wp_bind, wp_logMessage. intros s2 H2. apply wp_bind, wp_logMessage. intros s3 H3.
  assert (H4 : output_only s s3) by (etrans; [done|by etrans]).
  pose proof (dt_ok_output _ _ Hs H4) as Hs3. destruct H4 as [H4 Hc].
  cbn [path]. fold a. rewrite snprintf_fits by done.
  apply wp_bind, wp_get, wp_bind, wp_zapSubtree; [apply Hs3|].
  intros r s4 H5 Hok Hr. assert (H45 : cache_only s s4) by by etrans. destruct Hr as [(-> & _ & Href)|[Hmap Hr]].
  - change (-1 =? -1) with true. cbn iota.
    apply wp_bind, wp_rebuild; [done|by eapply dt_ok_cache|by eapply quiet_cache|].
    intros s5 H6 Hq5 _ Hroots [Hb Hcov]. apply wp_ret. split; [done|]. split; [by rewrite Hroots, (co_roots _ _ H45)|].
    right. split; [done|]. split; [|split; [by eapply below_roots_later, Hb; apply H45|by eapply covers_roots_later, Hcov; apply H45]].
    rewrite <-(co_fd _ _ H4), <-Hc. eapply refused_later, Href. apply H4.
  - assert (Hsz : (size (cache_map (wlCache s4)) <= size (cache_map (wlCache s3)))%nat).
    { rewrite Hmap. apply map_size_filter. }
    replace (r =? -1) with false by lia. apply wp_ret.
    split; [by eapply dt_ok_cache|]. intros s5 H6. pose proof (output_cache _ _ H6) as H7.
    split; [eapply dt_quiet_output; [|done]; split; [by eapply dt_ok_cache|by eapply quiet_cache]|split; [|left; split; [done|]]].
    + by rewrite (co_roots _ _ H7), (co_roots _ _ H45).
    + destruct H6 as [_ ->]. by rewrite Hmap, Hc.
Qed.

(** The deletion of a watched directory removes exactly its entry from the
    map; if it was a root, the root is forgotten too, and the program ends
    successfully exactly when that was the last one. *)
Theorem delete_self_forgets {K} `{InotifyOS K} `{!InotifyOSLaws K} `{!ShortPaths K}
    (ev : inotify_event) later n b dir (s : dtree K) :
  dt_ok s -> 0 <= ev_wd ev -> ev_mask ev = IN_DELETE_SELF ->
  cache_map (wlCache s) !! ev_wd ev = Some dir ->
  wp (processNextInotifyEvent (ev :: later) n b)
    (fun v s' => v = ev_size ev /\ dt_ok s' /\
       cache_map (wlCache s') = delete (ev_wd ev) (cache_map (wlCache s)) /\
       rootDirPaths s' = match findRootDirPath dir (rootDirPaths s) with
                         | Some j => <[j := None]> (rootDirPaths s)
                         | None => rootDirPaths s
                         end /\
       (Some dir ∈ rootDirPaths s -> exists q, Some q ∈ rootDirPaths s'))
    (fun k s' => k = EXIT_SUCCESS /\ Some dir ∈ rootDirPaths s /\
                 forall q, Some q ∉ rootDirPaths s') s.
Proof.
  intros Hs Hw Hmask Hm.
  apply wp_event_known with dir; [done|done|by rewrite Hmask|done|].
  intros slot s1 H1 Hslot. unfold dispatch. rewrite Hmask.
  change (has_bit IN_DELETE_SELF IN_ISDIR && _) with false.
  change (has_bit IN_DELETE_SELF IN_DELETE_SELF) with true. cbn iota.
  apply wp_bind, wp_event_path_at with (Watch (ev_wd ev) dir) s; [done|apply H1|].
  apply wp_bind, wp_logMessage. intros s2 H2.
  assert (H3 : output_only s s2) by by etrans.
  pose proof (dt_ok_output _ _ Hs H3) as Hs2. destruct H3 as [Ho Hc].
  apply wp_bind, wp_get. cbn [path]. rewrite (co_roots _ _ Ho).
  apply wp_seq_inv with (I := fun s' => dt_ok s' /\ wlCache s' = wlCache s /\
    rootDirPaths s' = match findRootDirPath dir (rootDirPaths s) with
                      | Some j => <[j := None]> (rootDirPaths s)
                      | None => rootDirPaths s
                      end /\
    (Some dir ∈ rootDirPaths s -> exists q, Some q ∈ rootDirPaths s')).
  { pose proof (isRootDirPath_spec dir (rootDirPaths s)) as Hroot.
    unfold isRootDirPath in *. destruct (findRootDirPath _ _) as [j|] eqn:Hf; simpl.
    - apply wp_zapRootDirPath; [apply Hs2|rewrite (co_roots _ _ Ho); tauto| |].
      + intros s' Hn. by rewrite <-Hroot.
      + intros j' s' Hj Hr Hok Hq Hwalk Hcache. rewrite (co_roots _ _ Ho), Hf in *.
        injection Hj as <-. split_and!; [by eapply dt_ok_zapped|congruence|done|done].
    - apply wp_ret. split_and!; [done|done|by rewrite (co_roots _ _ Ho)|].
      rewrite <-Hroot. done. }
  intros [] s3 (Hs3 & Hc3 & Hr3 & Hq3). rewrite <-Hc3 in Hslot.
  apply wp_bind, wp_markCacheSlotEmpty with (Watch (ev_wd ev) dir); [done|by left|].
  intros s4 H4 H5. apply wp_ret.
  assert (Hs4 : dt_ok s4).
  { eapply dt_ok_cache; [done..|]. rewrite H5. apply cache_ok_clear, Hs3. }
  split; [done|]. intros s5 H6. split_and!; [done|by eapply dt_ok_output| | |].
  - destruct H6 as [_ ->]. rewrite H5, <-Hc3.
    by apply (cache_map_clear _ _ (Watch (ev_wd ev) dir)); [apply Hs3|..].
  - by rewrite (co_roots _ _ (output_cache _ _ H6)), (co_roots _ _ H4).
  - by rewrite (co_roots _ _ (output_cache _ _ H6)), (co_roots _ _ H4).
Qed.

(** C5: A directory created in, or moved into, a watched one: if its path is
    already cached nothing changes; otherwise its subtree is walked, every
    entry is kept, and every directory found is watched or has vanished. The
    program does not check the cache or log noisily. *)
Theorem create_watches_subtree {K} `{InotifyOS K} `{!InotifyOSLaws K} `{!ShortPaths K}
    (ev : inotify_event) later n b dir (s : dtree K) :
  let p := dir ++ SLASH :: ev_name ev in
  dt_quiet s -> 0 <= ev_wd ev -> has_bit (ev_mask ev) IN_IGNORED = false ->
  has_bit (ev_mask ev) IN_ISDIR = true ->
  has_bit (ev_mask ev) (Z.lor IN_CREATE IN_MOVED_TO) = true ->
  cache_map (wlCache s) !! ev_wd ev = Some dir -> strlen p < PATH_MAX + NAME_MAX ->
  wp (processNextInotifyEvent (ev :: later) n b)
    (fun v s' => v = ev_size ev /\ dt_quiet s' /\
       if pathnameInCache p (wlCache s) then wlCache s' = wlCache s
       else exists k ws, rtc os_call (os s) k /\ walked k (inotifyFd s) (os_nftw k p).2.1 ws /\
              cache_map (wlCache s') = foldl add_entry (cache_map (wlCache s)) ws)
    (fun _ _ => True) s.
Proof.
  intros p [Hs Hq] Hw Hign Hdir Hcr Hm Hp.
  apply wp_event_known with dir; [done|done|done|done|].
  intros slot s1 H1 Hslot. unfold dispatch. rewrite Hdir, Hcr. cbn [andb].
  apply wp_bind, wp_event_path_at with (Watch (ev_wd ev) dir) s; [done|apply H1|].
  cbn [path]. fold p. rewrite snprintf_fits by done.
  apply wp_bind, wp_logMessage. intros s2 H2.
  assert (H3 : output_only s s2) by by etrans.
  pose proof (dt_ok_output _ _ Hs H3) as Hs2.
  apply wp_bind, wp_get, wp_bind. rewrite (proj2 H3).
  destruct (pathnameInCache p (wlCache s)); simpl.
  - apply wp_ret, wp_ret. split; [done|]. intros s3 H4.
    split; [done|]. split; [apply (dt_quiet_output s); [done|by etrans]|]. by rewrite (proj2 H4), (proj2 H3).
  - apply wp_watchSubtree; [done|eapply quiet_cache; [apply output_cache, H3|done]|apply Hs2|]. intros s3 ws H4 Hok Hwk Hmap. apply wp_ret.
    assert (Hs3 : dt_ok s3) by by eapply dt_ok_walk.
    split; [done|]. intros s4 H5. split; [done|]. split.
    { eapply dt_quiet_output; [split; [exact Hs3|]|done]. eapply quiet_walk; [exact H4|].
      eapply quiet_cache; [apply output_cache, H3|done]. }
    exists (os s2), ws. rewrite <-(co_fd _ _ (output_cache _ _ H3)). split_and!; [apply (co_os _ _ (output_cache _ _ H3))|done|].
    by rewrite (proj2 H5), Hmap, (proj2 H3).
Qed.

(** C6: [reinitialize] needs nothing of the old cache: from any state it ends
    with the cache invariant, a cache of directories below the live roots only,
    and every directory the walks of those roots found watched on the new
    descriptor or vanished. *)
Theorem reinitialize_restores {K} `{InotifyOS K} `{!InotifyOSLaws K} `{!ShortPaths K}
    (old : Z) (s : dtree K) : quiet s ->
  wp (reinitialize old)
    (fun fd s' => 0 <= fd /\ cache_ok (wlCache s') /\ rootDirPaths s' = rootDirPaths s /\
       below_roots (os s) (rootDirPaths s) (cache_map (wlCache s')) /\
       covers_roots (os s) fd (rootDirPaths s) (cache_map (wlCache s')))
    (fun _ _ => True) s.
Proof.
  intros Hq. apply wp_reinitialize; [done|done|]. intros fd s' H1 H2 H3 H4 H5.
  split_and!; [done|done|apply H1|done|done].
Qed.

(** Renaming a directory and renaming it back leaves the cache as it was,
    provided nothing was cached under the new name and the paths fit. *)
Theorem rename_round_trip {K} `{InotifyOS K} (p n p' n' : cstr) (s : dtree K) :
  let a := p ++ SLASH :: n in
  let b := p' ++ SLASH :: n' in
  cache_ok (wlCache s) -> strlen a < PATH_MAX -> strlen b < PATH_MAX ->
  (forall x, x ∈ wlCache s -> ~ in_subtree b (path x)) ->
  (forall x, x ∈ wlCache s -> in_subtree a (path x) ->
     strlen (b ++ drop (length a) (path x)) < PATH_MAX) ->
  wp (rewriteCachedPaths p n p' n' ;;; rewriteCachedPaths p' n' p n)
    (fun _ s' => wlCache s' = wlCache s) (fun _ _ => False) s.
Proof.
  intros a b [_ Hok] Ha Hb Hnew Hfit. apply wp_bind, wp_rewriteCachedPaths. fold a b.
  rewrite !snprintf_fits by done. intros s1 _ H1. apply wp_rewriteCachedPaths. fold a b.
  rewrite !snprintf_fits by done. intros s2 _ ->. rewrite H1, <-list_fmap_compose.
  rewrite <-list_fmap_id. apply list_fmap_ext. intros i x Hx%list_elem_of_lookup_2.
  rewrite Forall_forall in Hok. destruct (Hok _ Hx) as (_ & Hlen & Hwr). by apply rewrite_slot_back; auto.
Qed.

(** ** The theorems at the demonstration kernel *)

Lemma demo_event_ok : Forall event_ok [demo_event].
Proof. repeat constructor; vm_compute; congruence. Qed.

Lemma event_handler_safe_witness :
  wp (processNextInotifyEvent [demo_event] 32 true)
    (fun v s' => dt_quiet s' /\ result_ok [demo_event] true v) (fun _ _ => True) demo_state.
Proof.
  apply (event_handler_safe [demo_event] 32 true demo_state);
    [apply demo_dt_quiet|apply demo_event_ok|done|by vm_compute].
Defined.

Lemma event_loop_terminates_witness :
  wp (process_loop 6 [demo_event] 32 true)
    (fun finished s' => dt_quiet s' /\ finished = true) (fun _ _ => True) demo_state.
Proof.
  apply (event_loop_terminates 6 [demo_event] demo_state);
    [apply demo_dt_quiet|apply demo_event_ok|by vm_compute|].
  apply Nat.ltb_lt. by vm_compute.
Defined.

(** d/a is renamed to e/z: d/a and d/a/b move, d/ab does not. *)
Definition from_event : inotify_event := Event 1 (Z.lor IN_MOVED_FROM IN_ISDIR) 9 16 (lit "a").
Definition to_event : inotify_event := Event 5 (Z.lor IN_MOVED_TO IN_ISDIR) 9 16 (lit "z").

Lemma rename_within_tree_witness :
  wp (processNextInotifyEvent [from_event; to_event] 64 true)
    (fun v s' => v = 64 /\ dt_ok s' /\
       cache_map (wlCache s')
       = renamed (lit "d/a") (lit "e/z") <$> cache_map (wlCache demo_state))
    (fun _ _ => False) demo_state /\
  renamed (lit "d/a") (lit "e/z") (lit "d/a/b") = lit "e/z/b" /\
  renamed (lit "d/a") (lit "e/z") (lit "d/ab") = lit "d/ab".
Proof.
  split; [|done].
  apply (rename_within_tree from_event to_event [] 64 true (lit "d") (lit "e") demo_state);
    try done; try apply demo_dt_ok.
  intros q Hq Hin. assert (Hall : Forall (fun q => strlen q <= 5) (path <$> used demo_cache)).
  { apply (bool_decide_unpack _). by vm_compute. }
  rewrite Forall_forall in Hall. specialize (Hall q Hin). unfold strlen, PATH_MAX in *.
  rewrite length_app, length_drop. simpl. lia.
Defined.

Lemma moved_out_zaps_subtree_witness :
  wp (processNextInotifyEvent [from_event] 32 false)
    (fun v s' => dt_quiet s' /\ rootDirPaths s' = rootDirPaths demo_state /\
       ((v = 32 /\ cache_map (wlCache s') = without_subtree (lit "d/a") (cache_map demo_cache)) \/
        (v = INOTIFY_READ_BUF_LEN /\ refused (os demo_state) 3 (lit "d/a") (cache_map demo_cache) /\
         rebuilt (os demo_state) s')))
    (fun _ _ => True) demo_state.
Proof.
  apply (moved_out_zaps_subtree from_event [] 32 false (lit "d") demo_state);
    try done; try apply demo_dt_quiet.
Defined.

Definition deleted_event : inotify_event := Event 5 IN_DELETE_SELF 0 0 [].

Lemma delete_self_forgets_witness :
  wp (processNextInotifyEvent [deleted_event] 16 true)
    (fun v s' => v = 16 /\ dt_ok s' /\
       cache_map (wlCache s') = delete 5 (cache_map demo_cache) /\
       rootDirPaths s' = [Some (lit "d"); None] /\
       (Some (lit "e") ∈ rootDirPaths demo_state -> exists q, Some q ∈ rootDirPaths s'))
    (fun k s' => k = EXIT_SUCCESS /\ Some (lit "e") ∈ rootDirPaths demo_state /\
                 forall q, Some q ∉ rootDirPaths s') demo_state.
Proof.
  apply (delete_self_forgets deleted_event [] 16 true (lit "e") demo_state);
    try done; apply demo_dt_ok.
Defined.

(** d/c appears, with d/c/x below it. *)
Definition created_event : inotify_event := Event 1 (Z.lor IN_CREATE IN_ISDIR) 0 16 (lit "c").

Lemma create_watches_subtree_witness :
  wp (processNextInotifyEvent [created_event] 32 true)
    (fun v s' => v = 32 /\ dt_quiet s' /\
       exists (k : demo) ws, rtc os_call (os demo_state) k /\ walked k 3 (os_nftw k (lit "d/c")).2.1 ws /\
         cache_map (wlCache s') = foldl add_entry (cache_map demo_cache) ws)
    (fun _ _ => True) demo_state.
Proof.
  apply (create_watches_subtree created_event [] 32 true (lit "d") demo_state);
    try done; try apply demo_dt_quiet.
Defined.

Lemma reinitialize_restores_witness :
  wp (reinitialize 3)
    (fun fd s' => 0 <= fd /\ cache_ok (wlCache s') /\ rootDirPaths s' = rootDirPaths demo_state /\
       below_roots (os demo_state) (rootDirPaths demo_state) (cache_map (wlCache s')) /\
       covers_roots (os demo_state) fd (rootDirPaths demo_state) (cache_map (wlCache s')))
    (fun _ _ => True) demo_state.
Proof. apply (reinitialize_restores 3 demo_state). done. Defined.

Lemma rename_round_trip_witness :
  wp (rewriteCachedPaths (lit "d") (lit "a") (lit "e") (lit "z") ;;;
      rewriteCachedPaths (lit "e") (lit "z") (lit "d") (lit "a"))
    (fun _ s' => wlCache s' = demo_cache) (fun _ _ => False) demo_state.
Proof.
  apply (rename_round_trip (lit "d") (lit "a") (lit "e") (lit "z") demo_state);
    [apply demo_dt_ok|done|done| |].
  - assert (Hall : Forall (fun x => ~ in_subtree (lit "e/z") (path x)) demo_cache).
    { apply (bool_decide_unpack _). by vm_compute. }
    rewrite Forall_forall in Hall. exact Hall.
  - assert (Hall : Forall (fun x => in_subtree (lit "d/a") (path x) ->
      strlen (lit "e/z" ++ drop 3 (path x)) < PATH_MAX) demo_cache).
    { apply (bool_decide_unpack _). by vm_compute. }
    rewrite Forall_forall in Hall. exact Hall.
Defined.
