(* ===== verification/DirMain.v ===== *)
(** inotify_dtree.c (src/tlpi-dist/inotify): the command line establishes the
    invariant of the event handler and the interactive commands keep it. *)
From Stdlib Require Import ZArith Lia Ascii String.
From stdpp Require Import base tactics list strings gmap sets relations.
From S2P Require Import Prelude CString WatchCache DirTree WatchTree InotifyEvents DirCommands.
From S2P Require Import DirProps DirEventProps DirSafety DirTheorems.
#[local] Open Scope Z_scope.

(** A level of verbosity without noisy messages. *)
Definition quiet_level (arg : cstr) : Prop := has_bit VB_NOISY (atoi arg) = false.

(** The commands that need no more than the invariant: [d], [x] and [w]
    depend on a log file, on initialised memory and on [fopen], and [v] must not
    turn noisy messages on. *)
Definition plain_command (cmd : ascii) (arg : option cstr) : Prop :=
  cmd <> "d"%char /\ cmd <> "x"%char /\ cmd <> "w"%char /\
  (cmd = "a"%char \/ cmd = "z"%char -> is_Some arg) /\
  (cmd = "v"%char -> forall level, arg = Some level -> quiet_level level).

Section Commands.
Context {K : Type} `{InotifyOS K} `{!InotifyOSLaws K} `{!ShortPaths K}.
Context (E : exit_kind -> dtree K -> Prop) (HE : forall k s, E k s).
Implicit Types (s : dtree K).

Lemma wp_verify_slots v slots cnt fl s0 s :
  output_only s0 s -> wp (verify_slots v slots cnt fl) (fun _ => output_only s0) E s.
Proof.
  revert cnt fl s. induction slots as [|[j x] slots IH]; intros cnt fl s Hs; simpl;
    [by apply wp_ret|].
  destruct (in_use x); simpl; [|by apply IH]. apply wp_bind, wp_lstat. intros r s1 H1.
  assert (Hs1 : output_only s0 s1) by by etrans.
  destruct r as [e|st]; [|destruct (st_isdir st); simpl].
  - eapply wp_seq_inv; [apply wp_when_inv; [done|]; intros _; by apply wp_log_inv|].
    intros _ s2 H2. by apply IH.
  - eapply wp_seq_inv; [apply wp_when_inv; [done|]; intros _; by apply wp_log_inv|].
    intros _ s2 H2. by apply IH.
  - eapply wp_seq_inv; [apply wp_when_inv; [done|]; intros _; by apply wp_log_inv|].
    intros _ s2 H2. by apply wp_exit.
Qed.

Lemma wp_printf_good fmt args s0 s :
  good s0 s -> wp (printf fmt args) (fun _ => good s0) E s.
Proof. intros Hg. apply wp_printf. intros s1 H1. by eapply good_output. Qed.

Lemma wp_displayCommandList s0 s :
  good s0 s -> wp displayCommandList (fun _ => good s0) E s.
Proof.
  intros Hg. apply wp_for_each_inv; [done|]. intros x s1 _ H1. by apply wp_printf_good.
Qed.

Lemma wp_check_pathnames cmd s :
  dt_quiet s -> wp (checkAllCachedPathnamesExist cmd) (fun _ => good s) E s.
Proof.
  intros Hs. apply wp_bind, wp_get, wp_bind.
  eapply (wp_mono _ _ _ E); [by apply wp_verify_slots| |done].
  intros [cnt fl] s1 H1. pose proof (good_output _ _ _ (good_refl _ Hs) H1) as Hg.
  eapply wp_seq_inv; [by apply wp_log_good|]. intros _ s2 H2. by apply wp_log_good.
Qed.

Lemma wp_cmd_list s : dt_quiet s -> wp cmd_list (fun _ => good s) E s.
Proof.
  intros Hs. apply wp_bind, wp_get. eapply wp_seq_inv.
  - apply wp_for_each_inv; [by apply good_refl|]. intros [j x] s1 _ H1.
    apply wp_when_inv; [done|]. intros _. by apply wp_log_good.
  - intros _ s1 H1. by apply wp_log_good.
Qed.

Lemma wp_cmd_add arg s : dt_quiet s -> wp (cmd_add arg) (fun _ => good s) E s.
Proof.
  intros Hs. apply wp_bind, wp_get. eapply wp_seq_inv; [by apply wp_zap_good, good_refl|].
  intros cnt s1 H1. eapply wp_seq_inv; [destruct (cnt =? 0); by apply wp_log_good|].
  intros _ s2 H2. by apply wp_watch_good.
Qed.

Lemma wp_run_command cmd arg s :
  dt_quiet s -> plain_command cmd arg -> wp (run_command cmd arg) (fun _ => dt_quiet) E s.
Proof.
  intros Hs (Hd & Hx & Hw & Harg & Hlevel). unfold run_command.
  assert (Hgood : forall m : M (dtree K) unit, wp m (fun _ => good s) E s ->
    wp m (fun _ => dt_quiet) E s).
  { intros m Hm. eapply (wp_mono _ _ _ E); [done| |done]. by intros _ s' []. }
  rewrite (bool_decide_eq_false_2 _ Hd), (bool_decide_eq_false_2 _ Hx),
    (bool_decide_eq_false_2 _ Hw).
  case_bool_decide as Ha.
  { destruct Harg as [a ->]; [by left|]. by apply wp_bind, wp_ret, Hgood, wp_cmd_add. }
  destruct (_ || _); [by apply Hgood, wp_check_pathnames|].
  case_bool_decide; [by apply Hgood, wp_cmd_list|].
  case_bool_decide; [by apply wp_exit|].
  case_bool_decide as Hv.
  { assert (Hset : forall v, has_bit VB_NOISY v = false -> dt_quiet (set_verboseMask v s)).
    { intros v Hbit. destruct Hs as [[] Hq]. split; [done|]. unfold quiet, shown in *. simpl in *. rewrite Hbit.
      by destruct (logfp s); [rewrite orb_true_r in Hq|]. }
    destruct arg; [by apply wp_modify, Hset, Hlevel|].
    apply wp_bind, wp_get, wp_bind, wp_modify, wp_printf. intros s1 Ho.
    eapply dt_quiet_output; [|done]. apply Hset. by destruct (verboseMask s =? 0). }
  case_bool_decide.
  { destruct Harg as [a ->]; [by right|]. apply wp_bind, wp_ret, wp_bind, wp_get.
    apply Hgood. eapply wp_seq_inv; [by apply wp_zap_good, good_refl|].
    intros cnt s1 Hg. by apply wp_log_good. }
  case_bool_decide.
  { destruct Hs as [Hs Hq]. apply wp_bind, wp_modify, wp_bind, wp_reinitialize; [done|done|].
    intros fd s1 Hw1 Hc _ _ _. apply wp_modify. split; [|change (quiet s1); by eapply quiet_walk].
    apply dt_ok_fd. eapply dt_ok_walk; [|done|done]. by destruct Hs. }
  apply Hgood. eapply wp_seq_inv; [by apply wp_printf_good, good_refl|].
  intros _ s1 Hg. by apply wp_displayCommandList.
Qed.

(** ** The command line *)

(** Options under which the event handler has what it needs: no cache checking
    and nothing logged noisily. -a and -d are of use only with a log file. *)
Definition option_ok (o : option_arg) : Prop :=
  let '(Opt c arg) := o in
  c <> "x"%char /\ c <> "l"%char /\ c <> "a"%char /\ c <> "d"%char /\ (c = "v"%char -> quiet_level arg).
Definition options_ok (opts : list option_arg) : Prop := Forall option_ok opts.

(** The program before it reads the directories, with the kernel [k]. *)
Definition unstarted (k : K) s : Prop :=
  checkCache s = false /\ abortOnCacheProblem s = false /\ dumpCache s = false /\ quiet s /\
  os s = k /\ wlCache s = [].

Lemma wp_usageError pname Q s : wp (usageError pname) Q E s.
Proof.
  apply wp_bind, wp_fprintf_stderr. intros s1 _.
  apply wp_seq_inv with (I := fun _ => True); [|intros; by apply wp_exit].
  apply wp_for_each_inv; [done|]. intros x s2 _ _. by apply wp_fprintf_stderr.
Qed.

Lemma wp_parse_option pname o k s :
  option_ok o -> unstarted k s -> wp (parse_option pname o) (fun _ => unstarted k) E s.
Proof.
  destruct o as [c arg]. intros (Hx & Hl & Ha & Hd & Hv) (H1 & H2 & H3 & H4 & H5 & H6). unfold parse_option.
  rewrite (bool_decide_eq_false_2 (c = "a"%char)), (bool_decide_eq_false_2 (c = "x"%char)), (bool_decide_eq_false_2 (c = "d"%char)) by done.
  case_bool_decide as Hc.
  { apply wp_modify. split_and!; try done. unfold quiet, shown in *. simpl in *. rewrite (Hv Hc).
    by destruct (logfp s); [rewrite orb_true_r in H4|]. }
  case_bool_decide; [by apply wp_modify|]. rewrite bool_decide_eq_false_2 by done. by apply wp_usageError.
Qed.

(** [copyRootDirPaths] changes the table of roots and, through [lstat], the
    kernel; the table holds the arguments in order. *)
Lemma wp_check_roots argv s0 s :
  output_only s0 s -> wp (check_roots argv) (fun _ => output_only s0) E s.
Proof.
  revert s. induction argv as [|p argv IH]; intros s Hs; simpl; [by apply wp_ret|].
  apply wp_bind, wp_lstat. intros r s1 H1. assert (Hs1 : output_only s0 s1) by by etrans.
  destruct r as [e|st]; [apply wp_bind, wp_fprintf_stderr; intros; by apply wp_exit|].
  destruct (st_isdir st); [by apply IH|].
  apply wp_bind, wp_fprintf_stderr; intros; by apply wp_exit.
Qed.

Definition same_object (q r : cstr * stat) : Prop :=
  st_ino q.2 = st_ino r.2 /\ st_dev q.2 = st_dev r.2.

(** No two roots are the same file system object. *)
Definition distinct_objects (l : list (cstr * stat)) : Prop :=
  forall i j q r, l !! i = Some q -> l !! j = Some r -> same_object q r -> i = j.

Lemma distinct_objects_snoc l x :
  distinct_objects l -> (forall q, q ∈ l -> ~ same_object q x) -> distinct_objects (l ++ [x]).
Proof.
  intros Hl Hx i j q r Hi Hj Hs.
  apply lookup_snoc_Some in Hi as [[Hi1 Hi]|[-> ->]], Hj as [[Hj1 Hj]|[-> ->]]; [by eapply Hl| | |done].
  - apply list_elem_of_lookup_2 in Hi. by destruct (Hx _ Hi).
  - apply list_elem_of_lookup_2 in Hj. destruct (Hx _ Hj). unfold same_object in *. intuition congruence.
Qed.

Lemma wp_copy_roots argv before s0 s :
  output_only s0 s -> distinct_objects before ->
  wp (copy_roots argv before)
    (fun roots s' => output_only s0 s' /\ roots.*1 = before.*1 ++ argv /\
                     distinct_objects roots) E s.
Proof.
  revert before s. induction argv as [|p argv IH]; intros before s Hs Hd; simpl.
  { apply wp_ret. by rewrite app_nil_r. }
  apply wp_bind, wp_lstat. intros r s1 H1. assert (Hs1 : output_only s0 s1) by by etrans.
  destruct r as [e|st]; [apply wp_bind, wp_fprintf_stderr; intros; by apply wp_exit|].
  destruct (list_find _ before) as [[i q]|] eqn:Hf.
  { apply wp_bind, wp_fprintf_stderr; intros; by apply wp_exit. }
  apply list_find_None in Hf. rewrite Forall_forall in Hf.
  eapply (wp_mono _ _ _ E); [apply IH; [done|]| |done].
  - apply distinct_objects_snoc; [done|]. exact Hf.
  - intros roots s2 (H2 & H3 & H4). split_and!; [done| |done].
    by rewrite H3, fmap_app, <-app_assoc.
Qed.

Lemma zapped_live (dirs : list cstr) : zapped (Some <$> dirs) = [].
Proof.
  unfold zapped. induction dirs as [|d dirs IH]; [done|].
  by rewrite fmap_cons, filter_cons_False.
Qed.

End Commands.

(** ** The theorems *)

(** C7: From the program's initial state, [main] with acceptable options (not
    -x, and none that log noisily) and operands reaches its loop, if at all, in
    the invariant: every operand is a root, and the cache holds directories
    below the roots, all those that the walks found. *)
Theorem startup_establishes {K} `{InotifyOS K} `{!InotifyOSLaws K} `{!ShortPaths K}
    (pname : cstr) (opts : list option_arg) (dirs : list cstr) (k : K) :
  options_ok opts ->
  wp (startup pname opts dirs)
    (fun _ s' => dt_quiet s' /\ dirs <> [] /\ rootDirPaths s' = Some <$> dirs /\
       below_roots k (Some <$> dirs) (cache_map (wlCache s')) /\
       covers_roots k (inotifyFd s') (Some <$> dirs) (cache_map (wlCache s')))
    (fun _ _ => True) (initial k).
Proof.
  intros Hopts. set (E := fun (_ : exit_kind) (_ : dtree K) => True).
  assert (HE : forall k s, E k s) by done.
  apply wp_seq_inv with (I := unstarted k).
  { apply (wp_for_each_inv _ _ (unstarted k)); [done|]. intros o s Ho Hs. apply wp_parse_option; [done| |done].
    unfold options_ok in Hopts. rewrite Forall_forall in Hopts. by apply Hopts. }
  intros [] s (F1 & F2 & F3 & Hq & Hos & Hc). apply wp_bind, wp_when; intros Hd.
  { by apply wp_usageError. }
  apply bool_decide_eq_false in Hd. apply wp_bind. eapply wp_seq_inv; [by apply (wp_check_roots E HE dirs s s)|].
  intros [] s1 H1. apply wp_bind. eapply (wp_mono _ _ _ E); [apply (wp_copy_roots E HE dirs [] s);
    [exact H1|intros i j q r Hi; by destruct i]| |done].
  intros roots s2 ([H2 H3] & Hroots & _). apply wp_modify, wp_bind.
  set (s3 := set_ignoreRootDirs 0 _). simpl in Hroots.
  assert (Hr3 : rootDirPaths s3 = Some <$> dirs).
  { simpl. rewrite <-Hroots, <-list_fmap_compose. done. }
  assert (Hq3 : quiet s3) by (change (quiet s2); by eapply quiet_cache).
  assert (Hk3 : rtc os_call k (os s3)) by (change (os s3) with (os s2); rewrite <-Hos; apply H2).
  apply wp_reinitialize; [done|done|]. rewrite Hr3.
  intros fd s4 H4 Hc4 Hb Hcov _. apply wp_bind, wp_modify, wp_printf. intros s5 H56. pose proof H56 as [H5 H6].
  simpl in H6. rewrite H6, (co_fd _ _ H5), (co_roots _ _ H5). simpl.
  rewrite (wo_roots _ _ H4), Hr3.
  split; [|split_and!; [done|done|by eapply below_roots_later|by eapply covers_roots_later]].
  apply (dt_quiet_output (set_inotifyFd fd s4)); [|done]. split; [|change (quiet s4); by eapply quiet_walk].
  apply dt_ok_fd, (dt_ok_walk s3); [|done|done].
  split.
  - simpl. rewrite H3, Hc. apply cache_ok_nil.
  - unfold roots_ok. by rewrite Hr3, zapped_live.
  - simpl. rewrite (co_abort _ _ H2). congruence.
  - simpl. rewrite (co_dump _ _ H2). congruence.
  - simpl. by rewrite (co_check _ _ H2).
Qed.

(** The interactive commands other than [d], [x] and [w], and [v] with a level
    that is not noisy, never run into undefined behaviour and keep the invariant
    of the event handler, provided [a] and [z] come with an argument. *)
Theorem commands_keep_invariant {K} `{InotifyOS K} `{!InotifyOSLaws K} `{!ShortPaths K}
    (cmd : ascii) (arg : option cstr) (s : dtree K) :
  dt_quiet s -> plain_command cmd arg ->
  wp (run_command cmd arg) (fun _ => dt_quiet) (fun _ _ => True) s.
Proof. intros Hs Hp. by apply wp_run_command. Qed.

(** ** At the demonstration kernel *)

Lemma startup_establishes_witness :
  wp (startup (lit "dtree") [Opt "v"%char (lit "1"); Opt "b"%char (lit "4096")] [lit "d"])
    (fun _ s' => dt_quiet s' /\ [lit "d"] <> [] /\ rootDirPaths s' = [Some (lit "d")] /\
       below_roots (os demo_state) [Some (lit "d")] (cache_map (wlCache s')) /\
       covers_roots (os demo_state) (inotifyFd s') [Some (lit "d")] (cache_map (wlCache s')))
    (fun _ _ => True) (initial (os demo_state)).
Proof.
  apply (startup_establishes (lit "dtree") [Opt "v"%char (lit "1"); Opt "b"%char (lit "4096")] [lit "d"] (os demo_state)).
  repeat constructor; done.
Defined.

Lemma commands_keep_invariant_witness :
  wp (run_command "z"%char (Some (lit "d/a"))) (fun _ => dt_quiet) (fun _ _ => True) demo_state.
Proof.
  apply (commands_keep_invariant "z"%char (Some (lit "d/a")) demo_state);
    [apply demo_dt_quiet|]. split_and!; [done|done|done|eauto|done].
Defined.

(** ** What the excluded commands and options do *)

(** Dumping the cache without a log file is undefined. *)
Lemma dump_without_log {K} (s : dtree K) : logfp s = false -> dumpCacheToLog s = Undef.
Proof.
  intros Hl. assert (Hu : forall fmt args, fprintf_log fmt args s = Undef).
  { intros. unfold fprintf_log, bind, get. by rewrite Hl. }
  set (body := fun '(j, x) => when (in_use x)
    (fprintf_log (K:=K) "%d: wd = %d; %s\n" [AInt (Z.of_nat j); AInt (wd x); AStr (path x)])).
  assert (Hgen : forall l, for_each l body s = Undef \/ for_each l body s = Ret tt s).
  { induction l as [|[j x] l IH]; [by right|]. cbn [for_each]. unfold bind, body at 1 3, when.
    destruct (in_use x); [left; by rewrite Hu|exact IH]. }
  unfold dumpCacheToLog, bind, get. fold body.
  by destruct (Hgen (zip (seq 0 (length (wlCache s))) (wlCache s))) as [-> | ->].
Qed.

(** The commands [a], [z] and [w] without an argument use an uninitialised
    array. *)
Lemma command_without_arg {K} `{InotifyOS K} (s : dtree K) :
  run_command "a"%char None s = Undef /\ run_command "z"%char None s = Undef /\
  run_command "w"%char None s = Undef.
Proof. done. Qed.

(** With a log file, or with noisy messages, a cache that grows is printed
    before its new slots have been written. *)
Lemma growth_logged {K} `{InotifyOS K} (s : dtree K) k w ws :
  find_free (wlCache s) = None -> shown VB_NOISY s = true ->
  os_realloc (os s) (Z.of_nat (length (wlCache s))) (Z.of_nat (length (wlCache s)) + ALLOC_INCR) = (k, Some (w :: ws)) ->
  findEmptyCacheSlot s = Undef.
Proof.
  intros Hf Hshown Hr. unfold findEmptyCacheSlot, bind, get. rewrite Hf. unfold sys. rewrite Hr.
  unfold update_cache, modify. cbn [length seq for_each].
  unfold bind, markCacheSlotEmpty, read_slot, bind, get. cbn [wlCache set_wlCache set_os].
  rewrite lookup_app_r, Nat.sub_diag by lia. cbn. unfold shown in *. cbn in *. by rewrite Hshown.
Qed.

(** The cache check reads an uninitialised [stat] buffer as soon as the first
    slot is free. *)
Lemma check_free_slot {K} `{InotifyOS K} (rest : list watch) (s : dtree K) :
  wlCache s = empty_slot :: rest -> checkCacheConsistency s = Undef.
Proof. intros Hs. unfold checkCacheConsistency, bind, get, slots_of. by rewrite Hs. Qed.
