(* ===== verification/Process.v ===== *)
(** error_functions.c (src/tlpi-dist/lib): a process with its standard streams,
    and the functions that report an error and end it.

    [out_pending] is what stdio still holds for standard output, [out_done]
    what has been written; standard error is unbuffered here, every message
    being flushed. The list of error names is generated when the library is
    built and [strerror] belongs to the C library: both are read through the
    class [ErrnoText]. A message arrives formatted, as [vsnprintf] would leave
    it in a large enough buffer. *)
From Stdlib Require Import ZArith Lia Ascii String.
From stdpp Require Import base tactics list strings.
From S2P Require Import Prelude CString.
#[local] Open Scope Z_scope.

Class ErrnoText := {
  MAX_ENAME : Z;
  ename : Z -> cstr;
  strerror : Z -> cstr
}.

Record proc (K : Type) := Proc {
  kern : K;
  errno : Z;
  EF_DUMPCORE : option cstr;
  out_pending : cstr;
  out_done : cstr;
  err_out : cstr
}.
Arguments Proc {K}.
Arguments kern {K}.
Arguments errno {K}.
Arguments EF_DUMPCORE {K}.
Arguments out_pending {K}.
Arguments out_done {K}.
Arguments err_out {K}.

Section Setters.
Context {K : Type}.
Implicit Types (s : proc K).

Definition set_kern (k : K) s : proc K :=
  Proc k (errno s) (EF_DUMPCORE s) (out_pending s) (out_done s) (err_out s).
Definition set_errno (e : Z) s : proc K :=
  Proc (kern s) e (EF_DUMPCORE s) (out_pending s) (out_done s) (err_out s).
Definition set_out (p d : cstr) s : proc K :=
  Proc (kern s) (errno s) (EF_DUMPCORE s) p d (err_out s).
Definition set_err (t : cstr) s : proc K :=
  Proc (kern s) (errno s) (EF_DUMPCORE s) (out_pending s) (out_done s) t.

End Setters.

(** Error numbers. *)
Definition EINTR : Z := 4.
Definition ENOEXEC : Z := 8.
Definition EACCES : Z := 13.
Definition EINVAL : Z := 22.
Definition ENOSYS : Z := 38.

Definition BUF_SIZE : Z := 500.

Section Code.
Context `{ErrnoText} {K : Type}.
Abbreviation PM := (M (proc K)).

(** ** stdio *)

Definition putout (t : cstr) : PM unit :=
  modify (fun s => set_out (out_pending s ++ t) (out_done s) s).
Definition fflush_stdout : PM unit :=
  modify (fun s => set_out [] (out_done s ++ out_pending s) s).
Definition puterr (t : cstr) : PM unit :=
  modify (fun s => set_err (err_out s ++ t) s).

(** [exit] flushes the stdio buffers, [_exit] and [abort] do not. *)
Definition exit3 {A} (k : exit_kind) : PM A := fflush_stdout ;;; exit k.
Definition abort {A} : PM A := exit ABORT.

(** The [errExit] macro of the programs that do not use error_functions.c. *)
Definition perror_exit {A} (msg : cstr) : PM A :=
  let! s := get in
  puterr (msg ++ lit ": " ++ strerror (errno s) ++ [NEWLINE]) ;;;
  exit3 EXIT_FAILURE.

(** ** error_functions.c *)

Definition terminate {A} (useExit3 : bool) : PM A :=
  let! s := get in
  match EF_DUMPCORE s with
  | Some (_ :: _) => abort
  | _ => if useExit3 then exit3 EXIT_FAILURE else exit EXIT_FAILURE
  end.

Definition errText (useErr : bool) (err : Z) : cstr :=
  if useErr then
    snprintf BUF_SIZE
      (lit " [" ++ (if (0 <? err) && (err <=? MAX_ENAME) then ename err else lit "?UNKNOWN?")
         ++ lit " " ++ strerror err ++ lit "]")
  else snprintf BUF_SIZE (lit ":").

Definition outputError (useErr : bool) (err : Z) (flushStdout : bool) (msg : cstr) : PM unit :=
  let userMsg := snprintf BUF_SIZE msg in
  let buf := snprintf BUF_SIZE
    (lit "ERROR" ++ errText useErr err ++ lit " " ++ userMsg ++ [NEWLINE]) in
  when flushStdout fflush_stdout ;;;
  puterr buf.

Definition errMsg (msg : cstr) : PM unit :=
  let! s := get in
  outputError true (errno s) true msg ;;;
  modify (set_errno (errno s)).

Definition errExit {A} (msg : cstr) : PM A :=
  let! s := get in
  outputError true (errno s) true msg ;;;
  terminate true.

Definition err_exit {A} (msg : cstr) : PM A :=
  let! s := get in
  outputError true (errno s) false msg ;;;
  terminate false.

Definition errExitEN {A} (errnum : Z) (msg : cstr) : PM A :=
  outputError true errnum true msg ;;;
  terminate true.

Definition fatal {A} (msg : cstr) : PM A :=
  outputError false 0 true msg ;;;
  terminate true.

Definition usageErr {A} (msg : cstr) : PM A :=
  fflush_stdout ;;;
  puterr (lit "Usage: ") ;;;
  puterr msg ;;;
  exit3 EXIT_FAILURE.

Definition cmdLineErr {A} (msg : cstr) : PM A :=
  fflush_stdout ;;;
  puterr (lit "Command-line usage error: ") ;;;
  puterr msg ;;;
  exit3 EXIT_FAILURE.

(** A call into the kernel that may fail with an error number. *)
Definition syscall {A} (call : K -> K * (Z + A)) : PM (option A) := fun s =>
  match call (kern s) with
  | (k, inl e) => Ret None (set_errno e (set_kern k s))
  | (k, inr a) => Ret (Some a) (set_kern k s)
  end.

(** One that cannot fail. *)
Definition syscall_ {A} (call : K -> K * A) : PM A := fun s =>
  let (k, a) := call (kern s) in Ret a (set_kern k s).

(** ** How these functions end *)

(** The process as it was, but for output and [errno]. *)
Definition same_kern (s s' : proc K) : Prop := kern s' = kern s.

(** The end of a reported error. *)
Definition fatal_end (s s' : proc K) (k : exit_kind) : Prop :=
  kern s' = kern s /\
  k = (match EF_DUMPCORE s with Some (_ :: _) => ABORT | _ => EXIT_FAILURE end).

Lemma errExit_run {A} msg s :
  exists s', errExit (A:=A) msg s
    = Exit (match EF_DUMPCORE s with Some (_ :: _) => ABORT | _ => EXIT_FAILURE end) s' /\
  kern s' = kern s /\ out_done s' = out_done s ++ out_pending s /\ out_pending s' = [] /\
  err_out s' = err_out s ++ snprintf BUF_SIZE
    (lit "ERROR" ++ errText true (errno s) ++ lit " " ++ snprintf BUF_SIZE msg ++ [NEWLINE]).
Proof.
  unfold errExit, outputError, terminate, exit3, abort, fflush_stdout, puterr, when, bind, get,
    modify, exit. cbn. destruct (EF_DUMPCORE s) as [[|]|]; eexists; (split; [reflexivity|]);
    cbn; by rewrite ?app_nil_r.
Qed.

Lemma err_exit_run {A} msg s :
  exists s', err_exit (A:=A) msg s
    = Exit (match EF_DUMPCORE s with Some (_ :: _) => ABORT | _ => EXIT_FAILURE end) s' /\
  kern s' = kern s /\ out_done s' = out_done s /\ out_pending s' = out_pending s /\
  err_out s' = err_out s ++ snprintf BUF_SIZE
    (lit "ERROR" ++ errText true (errno s) ++ lit " " ++ snprintf BUF_SIZE msg ++ [NEWLINE]).
Proof.
  unfold err_exit, outputError, terminate, exit3, abort, fflush_stdout, puterr, when, bind, get,
    modify, exit. cbn. destruct (EF_DUMPCORE s) as [[|]|]; eexists; split; [reflexivity|by cbn..].
Qed.

(** Programs that report an error end; they neither return nor go wrong. *)
Lemma wp_errExit {A} msg (Q : A -> proc K -> Prop) E s :
  (forall k s', kern s' = kern s -> E k s') -> wp (errExit msg) Q E s.
Proof. intros HE. destruct (errExit_run (A:=A) msg s) as (s' & Hr & Hk & _). unfold wp. rewrite Hr. auto. Qed.

(** The exits of a program that reports an error. *)
Lemma wp_errExit_fails {A} msg (Q : A -> proc K -> Prop) E s :
  (forall k s', k <> EXIT_SUCCESS -> kern s' = kern s -> E k s') -> wp (errExit msg) Q E s.
Proof.
  intros HE. destruct (errExit_run (A:=A) msg s) as (s' & Hr & Hk & _). unfold wp. rewrite Hr. apply HE; [|done].
  by destruct (EF_DUMPCORE s) as [[]|].
Qed.

Lemma wp_err_exit {A} msg (Q : A -> proc K -> Prop) E s :
  (forall k s', kern s' = kern s -> E k s') -> wp (err_exit msg) Q E s.
Proof. intros HE. destruct (err_exit_run (A:=A) msg s) as (s' & Hr & Hk & _). unfold wp. rewrite Hr. auto. Qed.

Lemma wp_terminate_fails {A} b (Q : A -> proc K -> Prop) E s :
  (forall k s', k <> EXIT_SUCCESS -> kern s' = kern s -> E k s') -> wp (terminate b) Q E s.
Proof.
  intros HE. apply wp_bind, wp_get. destruct (EF_DUMPCORE s) as [[|]|]; [|by apply wp_exit, HE|];
    (destruct b; [apply wp_bind, wp_modify|]; by apply wp_exit, HE).
Qed.

Lemma wp_terminate {A} b (Q : A -> proc K -> Prop) E s :
  (forall k s', kern s' = kern s -> E k s') -> wp (terminate b) Q E s.
Proof. intros HE. apply wp_terminate_fails. auto. Qed.

Lemma wp_outputError u e f msg Q E s :
  (forall s', kern s' = kern s -> errno s' = errno s -> Q tt s') ->
  wp (outputError u e f msg) Q E s.
Proof.
  intros HQ. apply wp_bind, wp_when; intros _; [apply wp_modify|]; apply wp_modify; by apply HQ.
Qed.

Lemma wp_errMsg msg Q E s :
  (forall s', kern s' = kern s -> errno s' = errno s -> Q tt s') -> wp (errMsg msg) Q E s.
Proof.
  intros HQ. apply wp_bind, wp_get, wp_bind, wp_outputError. intros s' H1 H2.
  apply wp_modify, HQ; [done|]. simpl. done.
Qed.

Lemma wp_fatal_fails {A} msg (Q : A -> proc K -> Prop) E s :
  (forall k s', k <> EXIT_SUCCESS -> kern s' = kern s -> E k s') -> wp (fatal msg) Q E s.
Proof.
  intros HE. apply wp_bind, wp_outputError. intros s1 H1 _. apply wp_terminate_fails.
  intros k s2 Hn H2. apply HE; [done|congruence].
Qed.

Lemma wp_fatal {A} msg (Q : A -> proc K -> Prop) E s :
  (forall k s', kern s' = kern s -> E k s') -> wp (fatal msg) Q E s.
Proof. intros HE. apply wp_fatal_fails. auto. Qed.

Lemma wp_errExitEN_fails {A} en msg (Q : A -> proc K -> Prop) E s :
  (forall k s', k <> EXIT_SUCCESS -> kern s' = kern s -> E k s') -> wp (errExitEN en msg) Q E s.
Proof.
  intros HE. apply wp_bind, wp_outputError. intros s1 H1 _. apply wp_terminate_fails.
  intros k s2 Hn H2. apply HE; [done|congruence].
Qed.

Lemma wp_errExitEN {A} en msg (Q : A -> proc K -> Prop) E s :
  (forall k s', kern s' = kern s -> E k s') -> wp (errExitEN en msg) Q E s.
Proof. intros HE. apply wp_errExitEN_fails. auto. Qed.

Lemma wp_usageErr {A} msg (Q : A -> proc K -> Prop) E s :
  (forall s', kern s' = kern s -> E EXIT_FAILURE s') -> wp (usageErr msg) Q E s.
Proof.
  intros HE. apply wp_bind, wp_modify, wp_bind, wp_modify, wp_bind, wp_modify, wp_bind, wp_modify.
  by apply wp_exit, HE.
Qed.

Lemma wp_cmdLineErr {A} msg (Q : A -> proc K -> Prop) E s :
  (forall s', kern s' = kern s -> E EXIT_FAILURE s') -> wp (cmdLineErr msg) Q E s.
Proof.
  intros HE. apply wp_bind, wp_modify, wp_bind, wp_modify, wp_bind, wp_modify, wp_bind, wp_modify.
  by apply wp_exit, HE.
Qed.

Lemma wp_puterr t Q E s :
  (forall s', kern s' = kern s -> errno s' = errno s -> Q tt s') -> wp (puterr t) Q E s.
Proof. intros HQ. by apply wp_modify, HQ. Qed.

Lemma wp_putout t Q E s :
  (forall s', kern s' = kern s -> errno s' = errno s -> Q tt s') -> wp (putout t) Q E s.
Proof. intros HQ. by apply wp_modify, HQ. Qed.

Lemma wp_exit3 {A} k (Q : A -> proc K -> Prop) E s :
  (forall s', kern s' = kern s -> E k s') -> wp (exit3 k) Q E s.
Proof. intros HE. apply wp_bind, wp_modify. by apply wp_exit, HE. Qed.

Lemma wp_perror_exit {A} msg (Q : A -> proc K -> Prop) (E : exit_kind -> proc K -> Prop) s :
  (forall s', kern s' = kern s -> E EXIT_FAILURE s') -> wp (perror_exit msg) Q E s.
Proof. intros HE. apply wp_bind, wp_get, wp_bind, wp_modify, wp_bind, wp_modify, wp_exit. by apply HE. Qed.

Lemma wp_syscall {A} (call : K -> K * (Z + A)) (Q : option A -> proc K -> Prop) E s :
  (forall k e, call (kern s) = (k, inl e) -> Q None (set_errno e (set_kern k s))) ->
  (forall k a, call (kern s) = (k, inr a) -> Q (Some a) (set_kern k s)) ->
  wp (syscall call) Q E s.
Proof. intros HN HS. unfold wp, syscall. destruct (call (kern s)) as [k [e|a]]; auto. Qed.

Lemma wp_syscall_ {A} (call : K -> K * A) (Q : A -> proc K -> Prop) E s :
  Q (call (kern s)).2 (set_kern (call (kern s)).1 s) -> wp (syscall_ call) Q E s.
Proof. unfold wp, syscall_. by destruct (call (kern s)). Qed.

End Code.

(** [errExit] delivers the pending standard output and then a line with the
    error's name and text and the caller's message, and ends the process
    unsuccessfully; [err_exit] reports the same but leaves the pending output
    undelivered. No report is longer than [BUF_SIZE] - 1 characters, and one
    that fits ends in a newline. *)
Theorem error_reports `{ErrnoText} {K A : Type} (msg : cstr) (s : proc K) :
  let report := lit "ERROR" ++ errText true (errno s) ++ lit " "
                  ++ snprintf BUF_SIZE msg ++ [NEWLINE] in
  let k := match EF_DUMPCORE s with Some (_ :: _) => ABORT | _ => EXIT_FAILURE end in
  exists s1 s2, errExit (A:=A) msg s = Exit k s1 /\ err_exit (A:=A) msg s = Exit k s2 /\
    out_done s1 = out_done s ++ out_pending s /\ out_pending s1 = [] /\
    out_done s2 = out_done s /\ out_pending s2 = out_pending s /\
    err_out s1 = err_out s ++ snprintf BUF_SIZE report /\ err_out s2 = err_out s1 /\
    strlen (snprintf BUF_SIZE report) < BUF_SIZE /\
    (strlen report < BUF_SIZE -> err_out s1 = err_out s ++ report).
Proof.
  intros report k. destruct (errExit_run (A:=A) msg s) as (s1 & H1 & _ & H2 & H3 & H4).
  destruct (err_exit_run (A:=A) msg s) as (s2 & H5 & _ & H6 & H7 & H8).
  exists s1, s2. split_and!; try done; try congruence.
  - by apply snprintf_bound.
  - intros Hfit. rewrite H4. f_equal. by apply snprintf_fits.
Qed.
