(* ===== verification/NumArgs.v ===== *)
(** get_num.c (src/tlpi-dist/lib) and itimerspec_from_str.c
    (src/tlpi-dist/timers): numbers on the command line. *)
From Stdlib Require Import ZArith Lia Ascii String.
From stdpp Require Import base tactics list strings.
From S2P Require Import Prelude CString Process.
#[local] Open Scope Z_scope.

Definition GN_NONNEG : Z := 1.
Definition GN_GT_0 : Z := 2.
Definition GN_ANY_BASE : Z := 64.
Definition GN_BASE_8 : Z := 128.
Definition GN_BASE_16 : Z := 256.

Definition ERANGE : Z := 34.

Section Code.
Context {K : Type}.
Abbreviation PM := (M (proc K)).

(** [None] is a NULL [arg] or [name]. *)
Definition gnFail {A} (fname msg : cstr) (arg name : option cstr) : PM A :=
  puterr (fname ++ lit " error") ;;;
  match name with Some n => puterr (lit " (in " ++ n ++ lit ")") | None => ret tt end ;;;
  puterr (lit ": " ++ msg ++ [NEWLINE]) ;;;
  match arg with
  | Some (c :: a) => puterr (lit "        offending text: " ++ c :: a ++ [NEWLINE])
  | _ => ret tt
  end ;;;
  exit3 EXIT_FAILURE.

Definition num_base (flags : Z) : Z :=
  if has_bit flags GN_ANY_BASE then 0
  else if has_bit flags GN_BASE_8 then 8
  else if has_bit flags GN_BASE_16 then 16 else 10.

Definition getNum (fname : cstr) (arg : option cstr) (flags : Z) (name : option cstr) : PM Z :=
  match arg with
  | None | Some [] => gnFail fname (lit "null or empty string") arg name
  | Some a =>
      modify (set_errno 0) ;;;
      let '(res, endptr, erange) := strtol a (num_base flags) in
      when erange (modify (set_errno ERANGE)) ;;;
      let! s := get in
      if negb (errno s =? 0) then gnFail fname (lit "strtol() failed") arg name
      else if negb (bool_decide (endptr = [])) then
        gnFail fname (lit "nonnumeric characters") arg name
      else if has_bit flags GN_NONNEG && (res <? 0) then
        gnFail fname (lit "negative value not allowed") arg name
      else if has_bit flags GN_GT_0 && (res <=? 0) then
        gnFail fname (lit "value must be > 0") arg name
      else ret res
  end.

Definition getLong (arg : option cstr) (flags : Z) (name : option cstr) : PM Z :=
  getNum (lit "getLong") arg flags name.

Definition getInt (arg : option cstr) (flags : Z) (name : option cstr) : PM Z :=
  let! res := getNum (lit "getInt") arg flags name in
  if (INT_MAX <? res) || (res <? INT_MIN) then
    gnFail (lit "getInt") (lit "integer out of range") arg name
  else ret res.

(** What a flag asks of the number. *)
Definition meets (flags res : Z) : Prop :=
  (has_bit flags GN_NONNEG = true -> 0 <= res) /\ (has_bit flags GN_GT_0 = true -> 0 < res).

Lemma wp_gnFail {A} fname msg arg name (Q : A -> proc K -> Prop) E s :
  (forall s', kern s' = kern s -> E EXIT_FAILURE s') -> wp (gnFail fname msg arg name) Q E s.
Proof.
  intros HE. apply wp_bind, wp_modify, wp_bind.
  assert (Hend : forall s1, kern s1 = kern s -> wp (A:=A)
    (puterr (lit ": " ++ msg ++ [NEWLINE]) ;;;
     match arg with
     | Some (c :: a) => puterr (lit "        offending text: " ++ c :: a ++ [NEWLINE])
     | _ => ret tt
     end ;;; exit3 EXIT_FAILURE) Q E s1).
  { intros s1 H1. apply wp_bind, wp_modify, wp_bind.
    destruct arg as [[|]|].
    all: first [apply wp_modify | apply wp_ret].
    all: apply wp_exit3; intros s2 H2; apply HE;
      simpl in *; congruence. }
  destruct name; [by apply wp_modify, Hend|by apply wp_ret, Hend].
Qed.

(** [getNum] on any text: the number it denotes, checked against the flags. *)
Lemma wp_getNum fname arg flags name (Q : Z -> proc K -> Prop) E s :
  (forall s', kern s' = kern s -> E EXIT_FAILURE s') ->
  (forall a res, arg = Some a -> a <> [] -> strtol a (num_base flags) = (res, [], false) ->
     meets flags res -> Q res (set_errno 0 s)) ->
  wp (getNum fname arg flags name) Q E s.
Proof.
  intros HE HQ. unfold getNum. destruct arg as [[|c a]|]; try by apply wp_gnFail.
  apply wp_bind, wp_modify.
  destruct (strtol (c :: a) (num_base flags)) as [[res endptr] erange] eqn:Hs.
  apply wp_bind. destruct erange; [apply wp_modify, wp_bind, wp_get; by apply wp_gnFail|].
  apply wp_ret, wp_bind, wp_get. simpl.
  destruct (bool_decide (endptr = [])) eqn:He; [|by apply wp_gnFail].
  apply bool_decide_eq_true in He as ->. simpl negb. cbn iota.
  destruct (has_bit flags GN_NONNEG && (res <? 0)) eqn:Hn; [by apply wp_gnFail|].
  destruct (has_bit flags GN_GT_0 && (res <=? 0)) eqn:Hg; [by apply wp_gnFail|].
  apply wp_ret, (HQ (c :: a)); try done. split; intros Hf; rewrite Hf in *; simpl in *; lia.
Qed.

(** Printed numbers are accepted exactly when they meet the flags. *)
Lemma getNum_show fname flags name z s :
  num_base flags = 10 -> LONG_MIN <= z <= LONG_MAX -> meets flags z ->
  getNum fname (Some (show_Z z)) flags name s = Ret z (set_errno 0 s).
Proof.
  intros Hb Hz [H1 H2]. unfold getNum. rewrite Hb, strtol_show by done.
  pose proof (show_Z_nonempty_char z) as (c & r & ->). unfold bind, modify, when, get, ret. simpl.
  replace (has_bit flags GN_NONNEG && (z <? 0)) with false
    by (destruct (has_bit flags GN_NONNEG); simpl; lia).
  by replace (has_bit flags GN_GT_0 && (z <=? 0)) with false
    by (destruct (has_bit flags GN_GT_0); simpl; lia).
Qed.

(** ** itimerspec_from_str.c *)

Record itimerspec := Itimerspec {
  value_sec : Z; value_nsec : Z; interval_sec : Z; interval_nsec : Z }.

(** "sec[/nsec]" *)
Definition timespec_part (str : cstr) : Z * Z :=
  match strchr SLASH str with
  | Some (sec, nsec) => (atoi sec, atoi nsec)
  | None => (atoi str, 0)
  end.

Definition itimerspecFromStr (str : cstr) : itimerspec :=
  match strchr COLON str with
  | Some (value, interval) =>
      let '(vs, vn) := timespec_part value in
      let '(ints, intn) := timespec_part interval in
      Itimerspec vs vn ints intn
  | None => let '(vs, vn) := timespec_part str in Itimerspec vs vn 0 0
  end.

Definition show_timespec (sec nsec : Z) : cstr := show_Z sec ++ SLASH :: show_Z nsec.
Definition show_itimerspec (t : itimerspec) : cstr :=
  show_timespec (value_sec t) (value_nsec t)
    ++ COLON :: show_timespec (interval_sec t) (interval_nsec t).

Lemma timespec_part_show sec nsec :
  INT_MIN <= sec <= INT_MAX -> INT_MIN <= nsec <= INT_MAX ->
  timespec_part (show_timespec sec nsec) = (sec, nsec).
Proof.
  intros H1 H2. unfold timespec_part, show_timespec.
  rewrite (proj2 (strchr_Some SLASH _ (show_Z sec) (show_Z nsec))).
  - by rewrite !atoi_show.
  - split; [done|]. by apply show_Z_no.
Qed.

End Code.

(** [getInt] either returns the number the whole of its argument denotes in
    the base the flags ask for, an [int] that meets the sign flags, and leaves
    the process as it was but for [errno], or ends it with a failure. The decimal form of every
    [int] that meets the flags is accepted. *)
Theorem getInt_correct {K} (arg name : option cstr) (flags : Z) (s : proc K) :
  wp (getInt arg flags name)
    (fun res s' => s' = set_errno 0 s /\ INT_MIN <= res <= INT_MAX /\ meets flags res /\
       exists a, arg = Some a /\ strtol a (num_base flags) = (res, [], false))
    (fun k s' => k = EXIT_FAILURE /\ kern s' = kern s) s /\
  (forall z, num_base flags = 10 -> INT_MIN <= z <= INT_MAX -> meets flags z ->
     getInt (Some (show_Z z)) flags name s = Ret z (set_errno 0 s)).
Proof.
  split.
  - apply wp_bind, wp_getNum; [done|]. intros a res Ha _ Hs Hm.
    destruct ((INT_MAX <? res) || (res <? INT_MIN)) eqn:Hr; [by apply wp_gnFail|].
    apply wp_ret. split_and!; [done|lia|lia|done..|]. eauto.
  - intros z Hb Hz Hm. unfold getInt, bind.
    rewrite getNum_show by (done || unfold LONG_MIN, LONG_MAX, INT_MIN, INT_MAX in *; lia).
    by replace ((INT_MAX <? z) || (z <? INT_MIN)) with false by lia.
Qed.

(** [itimerspecFromStr] reads back the printed form of every timer
    setting, with the interval present or left out. *)
Theorem itimerspec_round_trip (t : itimerspec) :
  INT_MIN <= value_sec t <= INT_MAX -> INT_MIN <= value_nsec t <= INT_MAX ->
  INT_MIN <= interval_sec t <= INT_MAX -> INT_MIN <= interval_nsec t <= INT_MAX ->
  itimerspecFromStr (show_itimerspec t) = t /\
  itimerspecFromStr (show_timespec (value_sec t) (value_nsec t))
    = Itimerspec (value_sec t) (value_nsec t) 0 0 /\
  itimerspecFromStr (show_Z (value_sec t)) = Itimerspec (value_sec t) 0 0 0.
Proof.
  intros H1 H2 H3 H4. destruct t as [vs vn ints intn]; simpl in *.
  assert (Hcol : forall a b, COLON ∉ show_timespec a b).
  { intros a b. unfold show_timespec. rewrite elem_of_app, elem_of_cons.
    intros [Hc|[Hc|Hc]]; [|done|]; by eapply show_Z_no in Hc. }
  unfold itimerspecFromStr, show_itimerspec. simpl. split_and!.
  - rewrite (proj2 (strchr_Some COLON _ (show_timespec vs vn) (show_timespec ints intn))) by done.
    by rewrite !timespec_part_show.
  - rewrite (proj2 (strchr_None COLON _)) by done. by rewrite timespec_part_show.
  - rewrite (proj2 (strchr_None COLON _)) by by apply show_Z_no.
    unfold timespec_part. rewrite (proj2 (strchr_None SLASH _)) by by apply show_Z_no.
    by rewrite atoi_show.
Qed.

Lemma itimerspec_round_trip_witness :
  itimerspecFromStr (lit "5/250:1/7") = Itimerspec 5 250 1 7 /\
  itimerspecFromStr (lit "5/250") = Itimerspec 5 250 0 0 /\
  itimerspecFromStr (lit "5") = Itimerspec 5 0 0 0.
Proof.
  apply (itimerspec_round_trip (Itimerspec 5 250 1 7)); unfold INT_MIN, INT_MAX; simpl; lia.
Defined.
