(* ===== verification/Nanosleep.v ===== *)
(** Sleeping through interruptions: timers/t_nanosleep.c and
    timers/t_clock_nanosleep.c (src/tlpi-dist). *)
From Stdlib Require Import ZArith Lia Ascii String.
From stdpp Require Import base tactics list strings.
From S2P Require Import Prelude CString Process NumArgs.
#[local] Open Scope Z_scope.

Record timespec := Timespec { tv_sec : Z; tv_nsec : Z }.

(** How a sleep ends; [remain] is what is written there. *)
Inductive slept := Completed | Stopped (errnum : Z) (remain : option timespec).

Class SleepOS (K : Type) := {
  os_catch_sigint : K -> K * (Z + unit);
  os_gettimeofday : K -> K * (Z + Z * Z);
  os_clock_gettime : K -> K * (Z + timespec);
  os_nanosleep : K -> timespec -> K * slept;
  os_clock_nanosleep : K -> bool -> timespec -> K * slept
}.

(** How printf shows the seconds between two times, as a double; the width is
    that of the format or none. *)
Class TimeText := secs_text : option nat -> Z * Z -> Z * Z -> cstr.

Section Code.
Context `{ErrnoText} `{TimeText} {K : Type} {OS : SleepOS K}.
Abbreviation PM := (M (proc K)).

(** "%<w>ld" and "%09ld" for what is not negative. *)
Definition padded (c : ascii) (w : nat) (z : Z) : cstr := replicate (w - length (show_Z z)) c ++ show_Z z.
Definition timespec_text (w : nat) (t : timespec) : cstr :=
  padded " "%char w (tv_sec t) ++ lit "." ++ padded "0"%char 9 (tv_nsec t).

Definition get_time : PM (Z * Z) :=
  let! r := syscall os_gettimeofday in
  match r with Some t => ret t | None => errExit (lit "gettimeofday") end.

Definition catch_sigint : PM unit :=
  let! r := syscall os_catch_sigint in
  when (bool_decide (r = None)) (errExit (lit "sigaction")).

(** ** t_nanosleep.c *)

Fixpoint nanosleep_loop (fuel : nat) (start : Z * Z) (request : timespec) : PM unit :=
  match fuel with
  | O => undef
  | S fuel =>
      let! s := syscall_ (fun k => os_nanosleep k request) in
      match s with
      | Stopped e remain =>
          modify (set_errno e) ;;;
          when (negb (e =? EINTR)) (errExit (lit "nanosleep")) ;;;
          let! finish := get_time in
          putout (lit "Slept for: " ++ secs_text (Some 9%nat) start finish ++ lit " secs" ++ [NEWLINE]) ;;;
          match remain with
          | None => undef
          | Some remain =>
              putout (lit "Remaining: " ++ timespec_text 2 remain ++ [NEWLINE]) ;;;
              nanosleep_loop fuel start remain
          end
      | Completed =>
          let! finish := get_time in
          putout (lit "Slept for: " ++ secs_text (Some 9%nat) start finish ++ lit " secs" ++ [NEWLINE])
      end
  end.

Definition nanosleep_main (fuel : nat) (argv : list cstr) : PM unit :=
  match argv with
  | [prog; secs; nanosecs] =>
      if bool_decide (secs = lit "--help") then usageErr (prog ++ lit " secs nanosecs" ++ [NEWLINE])
      else
        let! tv_sec := getLong (Some secs) 0 (Some (lit "secs")) in
        let! tv_nsec := getLong (Some nanosecs) 0 (Some (lit "nanosecs")) in
        catch_sigint ;;;
        let! start := get_time in
        nanosleep_loop fuel start (Timespec tv_sec tv_nsec) ;;;
        putout (lit "Sleep complete" ++ [NEWLINE]) ;;;
        exit3 EXIT_SUCCESS
  | prog :: _ => usageErr (prog ++ lit " secs nanosecs" ++ [NEWLINE])
  | [] => undef
  end.

(** ** t_clock_nanosleep.c *)

(** [a += b] on longs. *)
Definition add_long (a b : Z) : PM Z :=
  if (LONG_MIN <=? a + b) && (a + b <=? LONG_MAX) then ret (a + b) else undef.

(** The time to sleep until. *)
Definition absolute_request (secs nanosecs : cstr) : PM timespec :=
  let! r := syscall os_clock_gettime in
  match r with
  | None => errExit (lit "clock_gettime")
  | Some now =>
      putout (lit "Initial CLOCK_REALTIME value: " ++ timespec_text 0 now ++ [NEWLINE]) ;;;
      let! n := getLong (Some secs) 0 (Some (lit "secs")) in
      let! sec := add_long (tv_sec now) n in
      let! n := getLong (Some nanosecs) 0 (Some (lit "nanosecs")) in
      let! nsec := add_long (tv_nsec now) n in
      if 1000000000 <=? nsec then
        let! sec := add_long sec (Z.quot nsec 1000000000) in
        ret (Timespec sec (Z.rem nsec 1000000000))
      else ret (Timespec sec nsec)
  end.

Definition relative_request (secs nanosecs : cstr) : PM timespec :=
  let! sec := getLong (Some secs) 0 (Some (lit "secs")) in
  let! nsec := getLong (Some nanosecs) 0 (Some (lit "nanosecs")) in
  ret (Timespec sec nsec).

(** The end of the turn in which a sleep was interrupted: what to sleep for in
    the next. *)
Definition after_interruption (abstime : bool) (request : timespec) (remain : option timespec) : PM timespec :=
  if abstime then ret request
  else
    match remain with
    | None => undef
    | Some remain => putout (lit "... Remaining: " ++ timespec_text 0 remain) ;;; ret remain
    end.

Fixpoint clock_nanosleep_loop (fuel : nat) (abstime : bool) (start : Z * Z) (request : timespec) : PM unit :=
  match fuel with
  | O => undef
  | S fuel =>
      let! s := syscall_ (fun k => os_clock_nanosleep k abstime request) in
      match s with
      | Stopped e remain =>
          when (negb (e =? EINTR)) (errExitEN e (lit "clock_nanosleep")) ;;;
          putout (lit "Interrupted... ") ;;;
          let! finish := get_time in
          putout (lit "Slept: " ++ secs_text None start finish ++ lit " secs") ;;;
          let! request := after_interruption abstime request remain in
          putout (lit "... Restarting" ++ [NEWLINE]) ;;;
          clock_nanosleep_loop fuel abstime start request
      | Completed =>
          let! finish := get_time in
          putout (lit "Slept: " ++ secs_text None start finish ++ lit " secs")
      end
  end.

Definition clock_nanosleep_main (fuel : nat) (argv : list cstr) : PM unit :=
  match argv with
  | prog :: secs :: nanosecs :: rest =>
      if bool_decide (secs = lit "--help") then usageErr (prog ++ lit " secs nanosecs [a]" ++ [NEWLINE])
      else
        catch_sigint ;;;
        let abstime := negb (bool_decide (rest = [])) in
        let! request := (if abstime then absolute_request secs nanosecs else relative_request secs nanosecs) in
        let! start := get_time in
        clock_nanosleep_loop fuel abstime start request ;;;
        putout ([NEWLINE] ++ lit "Sleep complete" ++ [NEWLINE]) ;;;
        exit3 EXIT_SUCCESS
  | prog :: _ => usageErr (prog ++ lit " secs nanosecs [a]" ++ [NEWLINE])
  | [] => undef
  end.

End Code.

(** ** The time that passes *)

Definition nanos (t : timespec) : Z := tv_sec t * 1000000000 + tv_nsec t.

(** The clock, which nobody sets while the program runs, and how often the
    user will still interrupt it; the kernel rounds sleeps up. *)
Class SleepLaws (K : Type) {OS : SleepOS K} := {
  now : K -> Z;
  interruptions : K -> nat;
  sl_other k : forall k', k' = (os_catch_sigint k).1 \/ k' = (os_gettimeofday k).1 \/ k' = (os_clock_gettime k).1 ->
    now k <= now k' /\ (interruptions k' <= interruptions k)%nat;
  sl_gettime k t : (os_clock_gettime k).2 = inr t ->
    now k <= nanos t /\ 0 <= tv_nsec t < 1000000000 /\ 0 <= tv_sec t < 2 ^ 62;
  sl_sleep k request : let (k', r) := os_nanosleep k request in
    match r with
    | Completed => now k + nanos request <= now k' /\ now k <= now k'
    | Stopped e remain => now k <= now k' /\
        (e = EINTR -> exists m, remain = Some m /\ now k + nanos request <= now k' + nanos m /\
           (interruptions k' < interruptions k)%nat)
    end;
  sl_clock_sleep k abstime request : let (k', r) := os_clock_nanosleep k abstime request in
    match r with
    | Completed => (if abstime then 0 else now k) + nanos request <= now k' /\ now k <= now k'
    | Stopped e remain => now k <= now k' /\
        (e = EINTR -> (interruptions k' < interruptions k)%nat /\
           (abstime = false -> exists m, remain = Some m /\ now k + nanos request <= now k' + nanos m))
    end
}.

Section Sleep.
Context `{ET : ErrnoText} `{TT : TimeText} {K : Type} {OS : SleepOS K} {SL : SleepLaws K}.
Implicit Types (s : proc K).

Definition if_success (P : K -> Prop) (e : exit_kind) s : Prop := e = EXIT_SUCCESS -> P (kern s).

(** A call that lets time pass and nothing else. *)
Definition later s s' : Prop :=
  now (kern s) <= now (kern s') /\ (interruptions (kern s') <= interruptions (kern s))%nat.

Lemma wp_get_time (Q : Z * Z -> proc K -> Prop) P s :
  (forall t s', later s s' -> Q t s') -> wp get_time Q (if_success P) s.
Proof.
  intros HQ. apply wp_bind, wp_syscall.
  - intros k e Hk. apply wp_errExit_fails. by intros ? ? ? _ ?.
  - intros k t Hk. apply wp_ret, HQ. apply sl_other. right; left. by rewrite Hk.
Qed.

Lemma wp_catch_sigint (Q : unit -> proc K -> Prop) P s :
  (forall s', later s s' -> Q tt s') -> wp catch_sigint Q (if_success P) s.
Proof.
  intros HQ. apply wp_bind, wp_syscall.
  - intros k e Hk. apply wp_when; [intros _|done]. apply wp_errExit_fails. by intros ? ? ? _ ?.
  - intros k t Hk. apply wp_when; [done|intros _]. apply HQ, sl_other. left. by rewrite Hk.
Qed.

Lemma wp_getLong_time arg name (Q : Z -> proc K -> Prop) P s :
  (forall a res s', arg = Some a -> strtol a 10 = (res, [], false) -> kern s' = kern s -> Q res s') ->
  wp (getLong arg 0 name) Q (if_success P) s.
Proof. intros HQ. apply wp_getNum; [by intros s' _ ?|]. intros a res Ha _ Hs _. by eapply HQ. Qed.

Lemma wp_nanosleep_loop fuel start request (Q : unit -> proc K -> Prop) P s :
  (interruptions (kern s) < fuel)%nat ->
  (forall s', now (kern s) + nanos request <= now (kern s') -> Q tt s') ->
  wp (nanosleep_loop fuel start request) Q (if_success P) s.
Proof.
  revert request s. induction fuel as [|fuel IH]; intros request s Hf HQ; [lia|]. cbn [nanosleep_loop].
  apply wp_bind, wp_syscall_. pose proof (sl_sleep (kern s) request) as Hl.
  destruct (os_nanosleep _ _) as [k [|e remain]]; cbn [fst snd].
  - apply wp_bind, wp_get_time. intros t s1 [H1 _]. apply wp_putout. intros s2 H2 _. apply HQ. rewrite H2.
    simpl in *. lia.
  - apply wp_bind, wp_modify, wp_bind, wp_when; [intros _; apply wp_errExit_fails; by intros ? ? ? _ ?|intros He].
    destruct Hl as [Ht Hl]. destruct Hl as (m & -> & Hm & Hi); [lia|].
    apply wp_bind, wp_get_time. intros t s1 [H1 H1']. apply wp_bind, wp_putout. intros s2 H2 _.
    apply wp_bind, wp_putout. intros s3 H3 _. apply IH; rewrite H3, H2; simpl in *; [lia|].
    intros s' Hs'. apply HQ. lia.
Qed.

(** Whatever interrupts it, if t_nanosleep ends with success it has slept for
    the time in its arguments at least. *)
Theorem nanosleep_sleeps (argv : list cstr) (s : proc K) :
  argv <> [] ->
  wp (nanosleep_main (S (interruptions (kern s))) argv) (fun _ _ => False)
     (if_success (fun k => exists prog a b secs nsecs, argv = [prog; a; b] /\
        strtol a 10 = (secs, [], false) /\ strtol b 10 = (nsecs, [], false) /\
        now (kern s) + nanos (Timespec secs nsecs) <= now k)) s.
Proof.
  intros Ha. assert (Hu : forall (P : K -> Prop) msg, wp (usageErr msg) (fun (_ : unit) _ => False) (if_success P) s)
    by (intros; apply wp_usageErr; by intros ? ? ?).
  destruct argv as [|prog [|a [|b [|]]]]; try done; try apply Hu. unfold nanosleep_main. case_bool_decide; [apply Hu|].
  apply wp_bind, wp_getLong_time. intros ? secs s1 [= <-] Hsec H1. apply wp_bind, wp_getLong_time. intros ? nsecs s2 [= <-] Hnsec H2.
  apply wp_bind, wp_catch_sigint. intros s3 [H3 H3']. apply wp_bind, wp_get_time. intros start s4 [H4 H4'].
  apply wp_bind, wp_nanosleep_loop; [rewrite H2, H1 in *; lia|]. intros s5 H5. apply wp_bind, wp_putout. intros s6 H6 _.
  apply wp_exit3. intros s7 H7 _. exists prog, a, b, secs, nsecs. split_and!; try done. rewrite H7, H6. rewrite H2, H1 in *. lia.
Qed.

Lemma wp_clock_nanosleep_loop fuel (abstime : bool) start request (Q : unit -> proc K -> Prop) P s :
  (interruptions (kern s) < fuel)%nat ->
  (forall s', (if abstime then 0 else now (kern s)) + nanos request <= now (kern s') -> Q tt s') ->
  wp (clock_nanosleep_loop fuel abstime start request) Q (if_success P) s.
Proof.
  revert request s. induction fuel as [|fuel IH]; intros request s Hf HQ; [lia|]. cbn [clock_nanosleep_loop].
  apply wp_bind, wp_syscall_. pose proof (sl_clock_sleep (kern s) abstime request) as Hl.
  destruct (os_clock_nanosleep _ _ _) as [k [|e remain]]; cbn [fst snd].
  - apply wp_bind, wp_get_time. intros t s1 [H1 _]. apply wp_putout. intros s2 H2 _. apply HQ. rewrite H2.
    simpl in *. lia.
  - apply wp_bind, wp_when; [intros _; apply wp_errExitEN_fails; by intros ? ? ? _ ?|intros He].
    destruct Hl as [Ht Hl]. destruct Hl as (Hi & Hm); [lia|].
    apply wp_bind, wp_putout. intros s0 H0 _. apply wp_bind, wp_get_time. intros t s1 [H1 H1'].
    apply wp_bind, wp_putout. intros s2 H2 _. apply wp_bind. rewrite H0 in *. simpl in *. unfold after_interruption. destruct abstime.
    + apply wp_ret, wp_bind, wp_putout. intros s3 H3 _. apply IH; [rewrite H3, H2; lia|done].
    + destruct Hm as (m & -> & Hm); [done|]. apply wp_bind, wp_putout. intros s3 H3 _. apply wp_ret, wp_bind, wp_putout.
      intros s4 H4 _. apply IH; rewrite H4, H3, H2; [lia|]. intros s' Hs'. apply HQ. lia.
Qed.

Lemma wp_add_long a b (Q : Z -> proc K -> Prop) E s :
  LONG_MIN <= a + b <= LONG_MAX -> Q (a + b) s -> wp (add_long a b) Q E s.
Proof.
  intros Hab HQ. unfold add_long. rewrite (proj2 (Z.leb_le _ _)), (proj2 (Z.leb_le _ _)) by lia. by apply wp_ret.
Qed.

(** The time of the request is a time that the kernel takes, the interval
    later than now. *)
Lemma wp_absolute_request secs nsecs (Q : timespec -> proc K -> Prop) P s :
  0 <= secs < 2 ^ 61 -> 0 <= nsecs < 2 ^ 62 ->
  (forall request s', later s s' -> 0 <= tv_nsec request < 1000000000 ->
     now (kern s) + nanos (Timespec secs nsecs) <= nanos request -> Q request s') ->
  wp (absolute_request (show_Z secs) (show_Z nsecs)) Q (if_success P) s.
Proof.
  intros Hs Hn HQ. apply wp_bind, wp_syscall; [intros k e _; apply wp_errExit_fails; by intros ? ? ? _ ?|]. intros k t Hk.
  destruct (sl_gettime (kern s) t) as (Ht & Htn & Hts); [by rewrite Hk|].
  assert (Hlater : later s (set_kern k s)) by (apply sl_other; right; right; by rewrite Hk).
  apply wp_bind, wp_putout. intros s1 H1 _.
  assert (LONG_MIN = - 2 ^ 63 /\ LONG_MAX = 2 ^ 63 - 1) as [Hmin Hmax] by done.
  apply wp_bind, wp_getLong_time. intros ? n s2 [= <-] Hsec H2. rewrite strtol_show in Hsec by lia. injection Hsec as <-.
  apply wp_bind, wp_add_long; [lia|].
  apply wp_bind, wp_getLong_time. intros ? n s3 [= <-] Hnsec H3. rewrite strtol_show in Hnsec by lia. injection Hnsec as <-.
  apply wp_bind, wp_add_long; [lia|].
  assert (Hk3 : later s s3) by (unfold later in *; rewrite H3, H2, H1; exact Hlater).
  unfold nanos in *. cbn [tv_sec tv_nsec] in *. destruct (Z.leb_spec 1000000000 (tv_nsec t + nsecs)).
  - pose proof (Z.quot_rem (tv_nsec t + nsecs) 1000000000). pose proof (Z.rem_bound_pos (tv_nsec t + nsecs) 1000000000).
    assert (0 <= Z.quot (tv_nsec t + nsecs) 1000000000 < 2 ^ 60) by nia.
    apply wp_bind, wp_add_long; [lia|]. apply wp_ret, HQ; [done|cbn [tv_sec tv_nsec]; lia..].
  - apply wp_ret, HQ; [done|cbn [tv_sec tv_nsec]; lia..].
Qed.

(** However often it is interrupted, if t_clock_nanosleep ends with
    success the interval in its arguments has passed, whether it sleeps for
    what remains after each interruption or until the time it has worked out;
    and it does end, without overflow for intervals below [2 ^ 61] seconds. *)
Theorem clock_nanosleep_sleeps (prog : cstr) (secs nsecs : Z) (rest : list cstr) (s : proc K) :
  0 <= secs < 2 ^ 61 -> 0 <= nsecs < 2 ^ 62 ->
  wp (clock_nanosleep_main (S (interruptions (kern s))) (prog :: show_Z secs :: show_Z nsecs :: rest)) (fun _ _ => False)
     (if_success (fun k => now (kern s) + nanos (Timespec secs nsecs) <= now k)) s.
Proof.
  intros Hs Hn. unfold clock_nanosleep_main. case_bool_decide; [apply wp_usageErr; by intros ? ? ?|].
  apply wp_bind, wp_catch_sigint. intros s1 [H1 H1']. apply wp_bind.
  assert (Hend : forall (abstime : bool) request s2, later s1 s2 ->
    (if abstime then now (kern s1) else 0) + nanos (Timespec secs nsecs) <= nanos request ->
    wp (let! start := get_time in
        clock_nanosleep_loop (S (interruptions (kern s))) abstime start request ;;;
        putout ([NEWLINE] ++ lit "Sleep complete" ++ [NEWLINE]) ;;; exit3 EXIT_SUCCESS)%c (fun (_ : unit) _ => False)
      (if_success (fun k => now (kern s) + nanos (Timespec secs nsecs) <= now k)) s2).
  { intros abstime request s2 [H2 H2'] Hr. apply wp_bind, wp_get_time. intros start s3 [H3 H3'].
    apply wp_bind, wp_clock_nanosleep_loop; [lia|]. intros s4 H4. apply wp_bind, wp_putout. intros s5 H5 _.
    apply wp_exit3. intros s6 H6 _. rewrite H6, H5. destruct abstime; lia. }
  assert (LONG_MIN = - 2 ^ 63 /\ LONG_MAX = 2 ^ 63 - 1) as [Hmin Hmax] by done.
  case_bool_decide; simpl negb; cbn iota.
  - apply wp_bind, wp_getLong_time. intros ? n s2 [= <-] Hsec H2. rewrite strtol_show in Hsec by lia. injection Hsec as <-.
    apply wp_bind, wp_getLong_time. intros ? n s3 [= <-] Hnsec H3. rewrite strtol_show in Hnsec by lia. injection Hnsec as <-.
    apply wp_ret, Hend; [|lia]. unfold later. by rewrite H3, H2.
  - apply wp_absolute_request; [done|done|]. intros request s2 H2 _ Hr. by apply Hend.
Qed.
End Sleep.

(** ** Runs *)

Definition of_nanos (z : Z) : timespec := Timespec (z / 1000000000) (z mod 1000000000).

Lemma nanos_of_nanos z : nanos (of_nanos z) = z.
Proof. unfold nanos. simpl. pose proof (Z.div_mod z 1000000000). lia. Qed.

(** A clock within the range of its type, and how often a sleep will be
    interrupted, each time after one second. *)
Record demo_clock := DemoClock { d_now : Z; d_left : nat }.

Definition demo_sleep (k : demo_clock) (until : Z) (remain : option timespec) : demo_clock * slept :=
  match d_left k with
  | O => (DemoClock (Z.max (d_now k) until) 0, Completed)
  | S n => (DemoClock (d_now k + 1000000000) n, Stopped EINTR remain)
  end.

#[export] Instance demo_sleep_os : SleepOS demo_clock := {|
  os_catch_sigint k := (k, inr tt);
  os_gettimeofday k := (k, inr (d_now k / 1000000000, d_now k mod 1000000000 / 1000));
  os_clock_gettime k :=
    (k, if (0 <=? d_now k) && (d_now k <? 2 ^ 62 * 1000000000) then inr (of_nanos (d_now k)) else inl EINVAL);
  os_nanosleep k request :=
    demo_sleep k (d_now k + nanos request) (Some (of_nanos (nanos request - 1000000000)));
  os_clock_nanosleep k abstime request :=
    if abstime then demo_sleep k (nanos request) None
    else demo_sleep k (d_now k + nanos request) (Some (of_nanos (nanos request - 1000000000)))
|}.

#[export] Instance demo_sleep_laws : SleepLaws demo_clock.
Proof.
  refine {| now := d_now; interruptions := d_left |}.
  - intros k k'. cbn. intros [-> | [-> | ->]]; lia.
  - intros k t. cbn. destruct (Z.leb_spec 0 (d_now k)); [|done]. destruct (Z.ltb_spec (d_now k) (2 ^ 62 * 1000000000)); [|done].
    intros [= <-]. rewrite nanos_of_nanos. unfold of_nanos. cbn [tv_sec tv_nsec].
    pose proof (Z.mod_pos_bound (d_now k) 1000000000). split_and!; [lia..| |apply Z.div_lt_upper_bound; lia]. by apply Z.div_pos.
  - intros [t [|n]] request; cbn; [lia|]. split; [lia|]. intros _. eexists. rewrite nanos_of_nanos. split_and!; [done|lia..].
  - intros [t [|n]] [] request; cbn; [lia..| |]; (split; [lia|]); intros _; (split; [lia|]); [done|]. intros _.
    eexists. rewrite nanos_of_nanos. split; [done|lia].
Defined.

#[export] Instance demo_sleep_texts : ErrnoText :=
  {| MAX_ENAME := 0; ename := fun _ => []; strerror := fun _ => [] |}.
#[export] Instance demo_secs : TimeText := fun _ _ _ => lit "t".

Definition demo_proc (t : Z) (n : nat) : proc demo_clock := Proc (DemoClock t n) 0 None [] [] [].

Lemma nanosleep_sleeps_witness :
  let argv := [lit "t_nanosleep"; lit "5"; lit "250"] in
  match nanosleep_main 3 argv (demo_proc 7000000000 2) with Exit EXIT_SUCCESS s => d_now (kern s) | _ => 0 end = 12000000250 /\
  wp (nanosleep_main (S (interruptions (kern (demo_proc 7000000000 2)))) argv) (fun _ _ => False)
     (if_success (fun k => exists prog a b secs nsecs, argv = [prog; a; b] /\
        strtol a 10 = (secs, [], false) /\ strtol b 10 = (nsecs, [], false) /\
        now (kern (demo_proc 7000000000 2)) + nanos (Timespec secs nsecs) <= now k)) (demo_proc 7000000000 2).
Proof. intros argv. split; [by vm_compute|]. apply (nanosleep_sleeps argv). done. Defined.

Lemma clock_nanosleep_sleeps_witness :
  let argv := [lit "t_clock_nanosleep"; show_Z 5; show_Z 1500000000; lit "a"] in
  match clock_nanosleep_main 3 argv (demo_proc 7600000000 2) with Exit EXIT_SUCCESS s => d_now (kern s) | _ => 0 end = 14100000000 /\
  wp (clock_nanosleep_main (S (interruptions (kern (demo_proc 7600000000 2)))) argv) (fun _ _ => False)
     (if_success (fun k => now (kern (demo_proc 7600000000 2)) + nanos (Timespec 5 1500000000) <= now k))
     (demo_proc 7600000000 2).
Proof.
  intros argv. split; [by vm_compute|].
  apply (clock_nanosleep_sleeps (lit "t_clock_nanosleep") 5 1500000000 [lit "a"]); by split.
Defined.

(** The end of a long interval overflows; nanoseconds that are negative are not
    brought into their range. *)
Example interval_overflows :
  clock_nanosleep_main 3 [lit "t"; show_Z LONG_MAX; lit "0"; lit "a"] (demo_proc 7600000000 0) = Undef.
Proof. by vm_compute. Qed.
Example negative_nanoseconds :
  match absolute_request (lit "9") (lit "-700000000") (demo_proc 7600000000 0) with Ret t _ => t | _ => Timespec 0 0 end =
    Timespec 16 (-100000000).
Proof. by vm_compute. Qed.
