(* ===== verification/PdeathSignal.v ===== *)
(** procexec/pdeath_signal.c (src/tlpi-dist): a chain of processes described by
    the arguments, each with its threads, of which one creates the next. What
    is built is a value of [family].

    Left out: the text that the processes print, the order in which threads run
    and end, and what the signal does; a process that exits on an error leaves
    [Failed], whatever threads it had created. *)
From Stdlib Require Import ZArith Lia Ascii String.
From stdpp Require Import base tactics list strings.
From S2P Require Import Prelude CString.
#[local] Open Scope Z_scope.

Record threadParam := ThreadParam {
  sleepTime : Z;
  argv : list cstr;
  threadNum : nat;
  ancestorNum : nat;
  createNextChild : bool
}.

(** The process of the child, an ancestor with its threads and what its
    creating threads create, a process that could not be created or has exited
    with an error, and one with undefined behaviour. *)
Inductive family :=
| Orphan (parentNum : nat)
| Ancestor (num : nat) (subreaper : bool) (threads : list (nat * Z)) (next : list family)
| Failed (num : nat)
| Undefined (num : nat).

(** The calls that can fail: fork, prctl in an ancestor, and malloc and
    pthread_create for a thread. *)
Class PdeathOS := {
  fork_succeeds : nat -> bool;
  prctl_succeeds : nat -> bool;
  malloc_succeeds : nat -> nat -> bool;
  thread_succeeds : nat -> nat -> bool
}.

(** The tokens that [strtok(s, ":")] gives one after the other: what is between
    colons, if it is not empty. *)
Fixpoint strtok_colon (s token : cstr) : list cstr :=
  match s with
  | [] => match token with [] => [] | _ => [rev token] end
  | c :: s =>
      if bool_decide (c = COLON) then match token with [] => strtok_colon s [] | _ => rev token :: strtok_colon s [] end
      else strtok_colon s (c :: token)
  end.

Section Code.
Context {OS : PdeathOS}.

(** The loop of createThreads from thread [tnum] on: the parameters of each
    thread, the initial one first, and whether a plus was found; [None] if the
    process exits. *)
Fixpoint thread_loop (tokens : list cstr) (rest : list cstr) (num tnum : nat) (nextParentMarked : bool) :
    option (list threadParam * bool) :=
  match tokens with
  | [] => Some ([], nextParentMarked)
  | token :: tokens =>
      if negb (malloc_succeeds num tnum) then None
      else
        let plus := char_is token 0 "+"%char in
        if plus && nextParentMarked then None
        else
          let tokenp := if plus then tail token else token in
          if negb (tnum =? 0)%nat && negb (thread_succeeds num tnum) then None
          else
            match thread_loop tokens rest num (S tnum) (plus || nextParentMarked) with
            | None => None
            | Some (params, marked) => Some (ThreadParam (atoi tokenp) rest tnum num plus :: params, marked)
            end
  end.

(** The initial thread creates the next process if no other does. *)
Definition mark_initial (marked : bool) (params : list threadParam) : list threadParam :=
  match params with
  | p :: params =>
      (if marked then p else ThreadParam (sleepTime p) (argv p) (threadNum p) (ancestorNum p) true) :: params
  | [] => []
  end.

Definition createOrphanChild (num : nat) : family := if fork_succeeds num then Orphan num else Failed num.

(** What a thread creates. *)
Definition performPerThreadSteps (create : list cstr -> nat -> family) (p : threadParam) : list family :=
  if createNextChild p then
    [match argv p with
     | [] => createOrphanChild (S (ancestorNum p))
     | _ => create (argv p) (S (ancestorNum p))
     end]
  else [].

(** With no token the parameters of the initial thread are never set. *)
Definition createThreads (create : list cstr -> nat -> family) (subreaper : bool) (ancestorArg : cstr)
    (rest : list cstr) (num : nat) : family :=
  match thread_loop (strtok_colon ancestorArg []) rest num 0 false with
  | None => Failed num
  | Some ([], _) => Undefined num
  | Some (params, marked) =>
      let params := mark_initial marked params in
      Ancestor num subreaper ((fun p => (threadNum p, sleepTime p)) <$> params)
        (mbind (performPerThreadSteps create) params)
  end.

Fixpoint createAncestor (args : list cstr) (num : nat) : family :=
  match args with
  | [] => Undefined num
  | arg :: rest =>
      if negb (fork_succeeds num) then Failed num
      else
        if char_is arg 0 "@"%char then
          if negb (prctl_succeeds num) then Failed num
          else createThreads (fun _ => createAncestor rest) true (tail arg) rest num
        else createThreads (fun _ => createAncestor rest) false arg rest num
  end.

(** [main] on the arguments after the program's name; [None] is the usage
    message. The two times are given to the child. *)
Definition pdeath_main (args : list cstr) : option (Z * Z * family) :=
  match args with
  | pre :: post :: rest =>
      Some (atoi pre, atoi post, match rest with [] => createOrphanChild 1 | _ => createAncestor rest 1 end)
  | _ => None
  end.

End Code.

(** ** The chain that is described *)

(** What the usage message says of one argument: a subreaper or not, and its
    threads, with the one that has a plus. *)
Record spec := Spec { s_subreaper : bool; s_threads : list (bool * Z) }.

Definition show_thread (t : bool * Z) : cstr := (if t.1 then lit "+" else []) ++ show_Z t.2.
Fixpoint show_threads (l : list (bool * Z)) : cstr :=
  match l with
  | [] => []
  | [t] => show_thread t
  | t :: l => show_thread t ++ [COLON] ++ show_threads l
  end.
Definition show_spec (s : spec) : cstr := (if s_subreaper s then lit "@" else []) ++ show_threads (s_threads s).

(** One thread at least, one plus at most, numbers of seconds. *)
Definition spec_ok (s : spec) : Prop :=
  s_threads s <> [] /\ (length (filter (fun t => t.1 = true) (s_threads s)) <= 1)%nat /\
  Forall (fun t => 0 <= t.2 <= INT_MAX) (s_threads s).

Fixpoint chain (l : list spec) (num : nat) : family :=
  match l with
  | [] => Orphan num
  | s :: l => Ancestor num (s_subreaper s) (imap (fun i t => (i, t.2)) (s_threads s)) [chain l (S num)]
  end.

Lemma char_is_cons c d s : char_is (d :: s) 0 c = bool_decide (d = c).
Proof. unfold char_is. simpl. apply bool_decide_ext. naive_solver. Qed.

Lemma show_thread_no_colon t : 0 <= t.2 -> (COLON ∉ show_thread t) /\ show_thread t <> [].
Proof.
  intros Ht. unfold show_thread. split.
  - intros [H|H]%elem_of_app; [destruct t.1; [by apply list_elem_of_singleton in H|by apply elem_of_nil in H]|].
    by apply (show_Z_no t.2 COLON) in H.
  - destruct (show_Z_nonempty_char t.2) as (c & r & ->). by destruct t.1.
Qed.

Lemma strtok_token t s acc : COLON ∉ t -> strtok_colon (t ++ s) acc = strtok_colon s (rev t ++ acc).
Proof.
  revert acc. induction t as [|c t IH]; intros acc Hn; [done|]. simpl. rewrite bool_decide_eq_false_2 by (intros ->; apply Hn; by left).
  rewrite IH by (intros ?; apply Hn; by right). by rewrite <-app_assoc.
Qed.

Lemma strtok_show l : Forall (fun t => 0 <= t.2 <= INT_MAX) l -> strtok_colon (show_threads l) [] = show_thread <$> l.
Proof.
  induction l as [|t l IH]; intros Hl; [done|]. inversion Hl as [|? ? Ht Hl']; subst. destruct (show_thread_no_colon t) as [Hn Hne]; [lia|].
  assert (Hend : forall r, strtok_colon (show_thread t ++ r) [] = strtok_colon r (rev (show_thread t))) by (intros; by rewrite strtok_token, app_nil_r by done).
  assert (Hrev : rev (show_thread t) <> []) by (intros H; apply Hne; rewrite <-(rev_involutive (show_thread t)), H; done).
  cbn [fmap list_fmap]. rewrite <-IH by done. destruct l as [|u l].
  - change (show_threads [t]) with (show_thread t). rewrite <-(app_nil_r (show_thread t)) at 1. rewrite Hend. simpl.
    destruct (rev (show_thread t)) eqn:Hr; [done|]. by rewrite <-Hr, rev_involutive.
  - change (show_threads (t :: u :: l)) with (show_thread t ++ [COLON] ++ show_threads (u :: l)). rewrite Hend. cbn [app strtok_colon].
    rewrite bool_decide_eq_true_2 by done. destruct (rev (show_thread t)) eqn:Hr; [done|]. by rewrite <-Hr, rev_involutive.
Qed.

Section Chain.
Context {OS : PdeathOS}.

(** Threads whose parameters have been set create one process for each of them
    that is to create one. *)
Lemma steps_replicate create rest num (params : list threadParam) :
  Forall (fun p => argv p = rest /\ ancestorNum p = num) params ->
  mbind (performPerThreadSteps create) params =
    replicate (length (filter (fun p => createNextChild p = true) params))
      (match rest with [] => createOrphanChild (S num) | _ => create rest (S num) end).
Proof.
  induction 1 as [|p params [Ha Hn] Hp IH]; [done|]. cbn [mbind list_bind]. rewrite filter_cons. unfold performPerThreadSteps at 1.
  rewrite Ha, Hn. destruct (createNextChild p); [rewrite decide_True by done; simpl; by f_equal|by rewrite decide_False by done].
Qed.

Definition params_of (rest : list cstr) (num tnum : nat) (l : list (bool * Z)) : list threadParam :=
  imap (fun i t => ThreadParam t.2 rest (tnum + i) num t.1) l.

Lemma params_of_cons rest num tnum t l :
  params_of rest num tnum (t :: l) = ThreadParam t.2 rest tnum num t.1 :: params_of rest num (S tnum) l.
Proof.
  unfold params_of. simpl. f_equal; [f_equal; lia|]. apply imap_ext. intros i x _. simpl. f_equal. lia.
Qed.

Lemma params_of_Forall rest num tnum l : Forall (fun p => argv p = rest /\ ancestorNum p = num) (params_of rest num tnum l).
Proof. revert tnum. induction l as [|t l IH]; intros tnum; [constructor|]. rewrite params_of_cons. by constructor. Qed.

Definition pluses (l : list (bool * Z)) : nat := length (filter (fun t => t.1 = true) l).

Lemma params_of_pluses rest num tnum l :
  length (filter (fun p => createNextChild p = true) (params_of rest num tnum l)) = pluses l.
Proof.
  revert tnum. unfold pluses. induction l as [|[b z] l IH]; intros tnum; [done|]. rewrite params_of_cons, !filter_cons. simpl.
  destruct b; [rewrite !decide_True by done; simpl; by rewrite IH|by rewrite !decide_False by done].
Qed.

(** What a token says of its thread. *)
Lemma token_read t : 0 <= t.2 <= INT_MAX ->
  char_is (show_thread t) 0 "+"%char = t.1 /\ atoi (if t.1 then tail (show_thread t) else show_thread t) = t.2 /\
  char_is (show_thread t) 0 "@"%char = false.
Proof.
  intros Ht. assert (Hat : atoi (show_Z t.2) = t.2) by (apply atoi_show; unfold INT_MIN; lia).
  assert (Hhead : forall c, digit_value c = None -> c <> "-"%char -> char_is (show_Z t.2) 0 c = false).
  { intros c H1 H2. apply bool_decide_eq_false_2. intros H%list_elem_of_lookup_2. by apply (show_Z_no t.2 c). }
  unfold show_thread. destruct t as [[] z]; cbn [fst snd] in *.
  - cbn [lit list_ascii_of_string app tail]. rewrite !char_is_cons. by split_and!.
  - cbn [app]. rewrite !Hhead by done. by split_and!.
Qed.

Context (Hmalloc : forall n i, malloc_succeeds n i = true) (Hthread : forall n i, thread_succeeds n i = true).

Lemma thread_loop_show l rest num tnum (marked : bool) :
  Forall (fun t => 0 <= t.2 <= INT_MAX) l -> (pluses l + (if marked then 1 else 0) <= 1)%nat ->
  thread_loop (show_thread <$> l) rest num tnum marked = Some (params_of rest num tnum l, marked || (0 <? pluses l)%nat).
Proof.
  intros Hl. revert tnum marked. induction Hl as [|t l Ht Hl IH]; intros tnum marked Hp; [by rewrite orb_false_r|].
  cbn [fmap list_fmap thread_loop]. rewrite Hmalloc, Hthread, andb_false_r. cbn [negb]. destruct (token_read t Ht) as (-> & -> & _).
  unfold pluses in Hp. rewrite filter_cons in Hp. fold (pluses l) in Hp.
  assert (Hcount : pluses (t :: l) = ((if t.1 then 1 else 0) + pluses l)%nat).
  { unfold pluses. rewrite filter_cons. destruct t.1; [by rewrite decide_True|by rewrite decide_False]. }
  rewrite params_of_cons, Hcount. destruct t.1 eqn:Hb; [rewrite decide_True in Hp by done|rewrite decide_False in Hp by done]; simpl in Hp.
  - destruct marked; [fold (pluses l) in Hp; lia|]. cbn [andb orb]. rewrite IH by (fold (pluses l) in Hp; lia). done.
  - cbn [andb orb]. by rewrite IH by (fold (pluses l) in Hp; lia).
Qed.

(** After the loop one thread is to create the next process. *)
Lemma one_creator rest num l : l <> [] -> (pluses l <= 1)%nat ->
  length (filter (fun p => createNextChild p = true) (mark_initial (0 <? pluses l)%nat (params_of rest num 0 l))) = 1%nat.
Proof.
  intros Hne Hp. pose proof (params_of_pluses rest num 0 l) as Hc. destruct (Nat.ltb_spec 0 (pluses l)) as [H|H].
  - destruct l as [|t l]; [done|]. rewrite params_of_cons in *. cbn [mark_initial]. lia.
  - destruct l as [|t l]; [done|]. rewrite params_of_cons in *. cbn [mark_initial]. rewrite filter_cons in *. simpl in *.
    destruct (decide (t.1 = true)); simpl in Hc; lia.
Qed.

Lemma mark_initial_keeps marked params :
  (fun p => (threadNum p, sleepTime p)) <$> mark_initial marked params = (fun p => (threadNum p, sleepTime p)) <$> params /\
  (forall rest num, Forall (fun p => argv p = rest /\ ancestorNum p = num) params ->
     Forall (fun p => argv p = rest /\ ancestorNum p = num) (mark_initial marked params)).
Proof.
  destruct params as [|p params]; [by split|]. destruct marked; [by split|]. split; [done|].
  intros rest num H. inversion H; subst. by constructor.
Qed.

Lemma params_of_shown rest num l : (fun p => (threadNum p, sleepTime p)) <$> params_of rest num 0 l = imap (fun i t => (i, t.2)) l.
Proof. unfold params_of. apply list_eq. intros i. rewrite list_lookup_fmap, !list_lookup_imap. by destruct (l !! i). Qed.

Lemma createThreads_show create subreaper l rest num :
  l <> [] -> (pluses l <= 1)%nat -> Forall (fun t => 0 <= t.2 <= INT_MAX) l ->
  createThreads create subreaper (show_threads l) rest num =
    Ancestor num subreaper (imap (fun i t => (i, t.2)) l)
      [match rest with [] => createOrphanChild (S num) | _ => create rest (S num) end].
Proof.
  intros Hne Hp Hl. unfold createThreads. rewrite strtok_show, thread_loop_show by (try done; lia). cbn [orb].
  destruct (params_of rest num 0 l) as [|p params] eqn:Hpar; [destruct l; [done|]; by rewrite params_of_cons in Hpar|].
  rewrite <-Hpar. destruct (mark_initial_keeps (0 <? pluses l)%nat (params_of rest num 0 l)) as [Hkeep Hall]. cbv zeta.
  rewrite Hkeep, params_of_shown, (steps_replicate create rest num) by (apply Hall, params_of_Forall).
  by rewrite one_creator.
Qed.

Context (Hfork : forall n, fork_succeeds n = true) (Hprctl : forall n, prctl_succeeds n = true).

Lemma createAncestor_show l num : l <> [] -> Forall spec_ok l -> createAncestor (show_spec <$> l) num = chain l num.
Proof.
  revert num. induction l as [|s l IH]; intros num Hne Hl; [done|]. inversion Hl as [|? ? (H1 & H2 & H3) Hl']; subst.
  cbn [fmap list_fmap createAncestor]. rewrite Hfork, Hprctl. cbn [negb].
  assert (Hgo : forall sub, createThreads (fun _ => createAncestor (show_spec <$> l)) sub (show_threads (s_threads s)) (show_spec <$> l) num =
    Ancestor num sub (imap (fun i t => (i, t.2)) (s_threads s)) [chain l (S num)]).
  { intros sub. rewrite createThreads_show by done. do 2 f_equal. destruct l as [|s' l]; [simpl; unfold createOrphanChild; by rewrite Hfork|].
    cbn [fmap list_fmap]. by apply IH. }
  cbn [chain]. destruct (s_subreaper s) eqn:Hs.
  - assert (show_spec s = "@"%char :: show_threads (s_threads s)) as -> by (unfold show_spec; by rewrite Hs).
    rewrite char_is_cons, bool_decide_eq_true_2 by done. apply Hgo.
  - assert (show_spec s = show_threads (s_threads s)) as -> by (unfold show_spec; by rewrite Hs).
    assert (Hat : char_is (show_threads (s_threads s)) 0 "@"%char = false); [|rewrite Hat; apply Hgo].
    destruct (s_threads s) as [|t ts]; [done|]. inversion H3 as [|? ? Ht _]; subst.
    destruct (token_read t Ht) as (_ & _ & Hat). destruct (show_thread_no_colon t) as [_ Hn]; [lia|].
    destruct ts as [|u ts]; [exact Hat|].
    change (show_threads (t :: u :: ts)) with (show_thread t ++ [COLON] ++ show_threads (u :: ts)).
    destruct (show_thread t); [done|]. cbn [app]. rewrite char_is_cons in Hat |- *. exact Hat.
Qed.
End Chain.

(** For arguments as the usage message asks for them, if no call fails,
    the processes are the chain that they describe: one ancestor for each
    argument, in order and numbered, with a thread for each number and its
    time, a subreaper where there is an at sign; in each process exactly one
    thread creates the next one; and the last creates the child. *)
Theorem ancestors_as_described {OS : PdeathOS} (pre post : Z) (l : list spec) :
  (forall n, fork_succeeds n = true) -> (forall n, prctl_succeeds n = true) ->
  (forall n i, malloc_succeeds n i = true) -> (forall n i, thread_succeeds n i = true) ->
  INT_MIN <= pre <= INT_MAX -> INT_MIN <= post <= INT_MAX -> Forall spec_ok l ->
  pdeath_main (show_Z pre :: show_Z post :: (show_spec <$> l)) = Some (pre, post, chain l 1).
Proof.
  intros Hf Hp Hm Ht Hpre Hpost Hl. unfold pdeath_main. rewrite !atoi_show by done. do 2 f_equal.
  destruct l as [|s l]; [simpl; unfold createOrphanChild; by rewrite Hf|].
  cbn [fmap list_fmap]. by apply (createAncestor_show Hm Ht Hf Hp (s :: l)).
Qed.

(** ** Runs *)

Definition all_succeed : PdeathOS :=
  {| fork_succeeds _ := true; prctl_succeeds _ := true; malloc_succeeds _ _ := true; thread_succeeds _ _ := true |}.
Existing Instance all_succeed.

(** The example of the source: 1 20 @4:+5:6 @3:+2 2 *)
Definition demo_specs : list spec :=
  [Spec true [(false, 4); (true, 5); (false, 6)]; Spec true [(false, 3); (true, 2)]; Spec false [(false, 2)]].

Lemma ancestors_as_described_witness :
  show_spec <$> demo_specs = [lit "@4:+5:6"; lit "@3:+2"; lit "2"] /\
  pdeath_main (show_Z 1 :: show_Z 20 :: (show_spec <$> demo_specs)) = Some (1, 20, chain demo_specs 1).
Proof.
  split; [by vm_compute|]. apply (ancestors_as_described 1 20 demo_specs); try done.
  repeat constructor; simpl; unfold INT_MAX; try done; lia.
Defined.

(** With no number in an argument the parameters of the initial thread are read
    but never set. *)
Example no_token : pdeath_main [lit "1"; lit "20"; lit "@"] = Some (1, 20, Undefined 1).
Proof. by vm_compute. Qed.
Example two_pluses : pdeath_main [lit "1"; lit "20"; lit "+1:+2"] = Some (1, 20, Failed 1).
Proof. by vm_compute. Qed.
