(* ===== verification/SeekIo.v ===== *)
(** fileio/seek_io.c (src/tlpi-dist): reading, writing and seeking in a file as
    the arguments say, against a regular file as a sequence of bytes with an
    offset. *)
From Stdlib Require Import ZArith Lia Ascii String.
From stdpp Require Import base tactics list strings.
From S2P Require Import Prelude CString Process NumArgs.
#[local] Open Scope Z_scope.

Class FileOS (K : Type) := {
  os_open_rw : K -> cstr -> K * (Z + Z);
  os_malloc : K -> Z -> K * bool;
  os_read_fd : K -> Z -> Z -> K * (Z + list ascii);
  os_write_fd : K -> Z -> cstr -> K * (Z + Z);
  os_lseek_set : K -> Z -> Z -> K * (Z + Z);
  os_close_fd : K -> Z -> K * (Z + unit)
}.

Definition isprint (c : ascii) : bool := (32 <=? char_code c) && (char_code c <=? 126).

(** "%02x" for a byte. *)
Definition hex_byte (c : ascii) : cstr := [hex_digit (char_code c / 16); hex_digit (char_code c mod 16)].

Definition shown (text : bool) (c : ascii) : cstr :=
  if text then [if isprint c then c else "?"%char] else hex_byte c ++ lit " ".

(** What is printed for a read, a write and a seek. *)
Definition read_text (arg : cstr) (text : bool) (bytes : list ascii) : cstr :=
  match bytes with
  | [] => arg ++ lit ": end-of-file" ++ [NEWLINE]
  | _ => arg ++ lit ": " ++ concat (shown text <$> bytes) ++ [NEWLINE]
  end.
Definition write_text (arg : cstr) (n : Z) : cstr :=
  arg ++ lit ": wrote " ++ show_Z n ++ lit " bytes" ++ [NEWLINE].
Definition seek_text (arg : cstr) : cstr := arg ++ lit ": seek succeeded" ++ [NEWLINE].

Section Code.
Context `{ErrnoText} {K : Type} {OS : FileOS K}.
Abbreviation PM := (M (proc K)).

(** Arguments r and R. *)
Definition read_op (fd : Z) (arg num : cstr) (text : bool) : PM unit :=
  let! n := getLong (Some num) GN_ANY_BASE (Some arg) in
  let len := to_unsigned 64 n in
  let! buf := syscall_ (fun k => os_malloc k len) in
  if negb buf then errExit (lit "malloc")
  else
    let! numRead := syscall (fun k => os_read_fd k fd len) in
    match numRead with
    | None => errExit (lit "read")
    | Some bytes => putout (read_text arg text bytes)
    end.

Definition write_op (fd : Z) (arg t : cstr) : PM unit :=
  let! numWritten := syscall (fun k => os_write_fd k fd t) in
  match numWritten with
  | None => errExit (lit "write")
  | Some n => putout (write_text arg n)
  end.

Definition seek_op (fd : Z) (arg num : cstr) : PM unit :=
  let! offset := getLong (Some num) GN_ANY_BASE (Some arg) in
  let! r := syscall (fun k => os_lseek_set k fd offset) in
  match r with
  | None => errExit (lit "lseek")
  | Some _ => putout (seek_text arg)
  end.

(** The switch on the first character of an argument. *)
Definition io_op (fd : Z) (arg : cstr) : PM unit :=
  let bad := cmdLineErr (lit "Argument must start with [rRws]: " ++ arg ++ [NEWLINE]) in
  match arg with
  | c :: rest =>
      if decide (c = "r")%char then read_op fd arg rest true
      else if decide (c = "R")%char then read_op fd arg rest false
      else if decide (c = "w")%char then write_op fd arg rest
      else if decide (c = "s")%char then seek_op fd arg rest
      else bad
  | [] => bad
  end.

Definition usage_text (pname : cstr) : cstr :=
  pname ++ lit " file {r<length>|R<length>|w<string>|s<offset>}..." ++ [NEWLINE].

Definition main (argv : list cstr) : PM unit :=
  let pname := default [] (argv !! 0%nat) in
  if (length argv <? 3)%nat || bool_decide (argv !! 1%nat = Some (lit "--help")) then usageErr (usage_text pname)
  else
    let! fd := syscall (fun k => os_open_rw k (default [] (argv !! 1%nat))) in
    match fd with
    | None => errExit (lit "open")
    | Some fd =>
        for_each (drop 2 argv) (io_op fd) ;;;
        let! r := syscall (fun k => os_close_fd k fd) in
        match r with None => errExit (lit "close") | Some _ => exit3 EXIT_SUCCESS end
    end.

End Code.

(** ** A regular file *)

(** The bytes of a file after [t] has been written at [off]: a hole before it
    is filled with null bytes. *)
Definition overlay (content : list ascii) (off : nat) (t : list ascii) : list ascii :=
  match t with
  | [] => content
  | _ => take off (content ++ replicate (off - length content) NUL) ++ t ++ drop (off + length t) content
  end.

(** What an argument does to content and offset, and prints. Reads and writes
    may transfer less than asked for; a read gets nothing only at the end of
    the file or when it asks for nothing. *)
Inductive io_step : cstr -> list ascii * nat -> list ascii * nat -> cstr -> Prop :=
| step_read c text num n content off got :
    (c = "r" /\ text = true \/ c = "R" /\ text = false)%char ->
    strtol num 0 = (n, [], false) -> num <> [] ->
    (got <= Z.to_nat (to_unsigned 64 n))%nat ->
    (take got (drop off content) = [] -> to_unsigned 64 n = 0 \/ (length content <= off)%nat) ->
    io_step (c :: num) (content, off) (content, off + length (take got (drop off content)))%nat
      (read_text (c :: num) text (take got (drop off content)))
| step_write t n content off :
    (n <= length t)%nat ->
    io_step ("w"%char :: t) (content, off) (overlay content off (take n t), off + n)%nat
      (write_text ("w"%char :: t) (Z.of_nat n))
| step_seek num n content off :
    strtol num 0 = (n, [], false) -> num <> [] -> 0 <= n ->
    io_step ("s"%char :: num) (content, off) (content, Z.to_nat n) (seek_text ("s"%char :: num)).

Inductive io_run : list cstr -> list ascii * nat -> list ascii * nat -> cstr -> Prop :=
| run_nil f : io_run [] f f []
| run_cons arg args f f1 f2 t1 t2 :
    io_step arg f f1 t1 -> io_run args f1 f2 t2 -> io_run (arg :: args) f f2 (t1 ++ t2).

(** POSIX on a regular file opened for reading and writing. *)
Class FileLaws (K : Type) {OS : FileOS K} (name : cstr) := {
  stored : K -> option (list ascii);
  opened : K -> Z -> option (list ascii * nat);
  fl_opened k fd content off : opened k fd = Some (content, off) -> stored k = Some content;
  fl_open k k' fd : os_open_rw k name = (k', inr fd) -> opened k' fd = Some (default [] (stored k), 0%nat);
  fl_malloc k n k' r fd f : os_malloc k n = (k', r) -> opened k fd = Some f -> opened k' fd = Some f;
  fl_read k fd n k' bytes content off : os_read_fd k fd n = (k', inr bytes) -> 0 <= n ->
    opened k fd = Some (content, off) ->
    opened k' fd = Some (content, off + length bytes)%nat /\
    (exists got, (got <= Z.to_nat n)%nat /\ bytes = take got (drop off content)) /\
    (bytes = [] -> n = 0 \/ (length content <= off)%nat);
  fl_write k fd t k' n content off : os_write_fd k fd t = (k', inr n) ->
    opened k fd = Some (content, off) ->
    0 <= n <= strlen t /\
    opened k' fd = Some (overlay content off (take (Z.to_nat n) t), off + Z.to_nat n)%nat;
  fl_lseek k fd n k' r content off : os_lseek_set k fd n = (k', inr r) ->
    opened k fd = Some (content, off) -> 0 <= n /\ opened k' fd = Some (content, Z.to_nat n);
  fl_close k fd k' r : os_close_fd k fd = (k', inr r) -> stored k' = stored k
}.

Section Correct.
Context `{ET : ErrnoText} {K : Type} {OS : FileOS K} (name : cstr) {FL : FileLaws K name}.
Implicit Types (s : proc K).

Lemma run_snoc args arg f f1 f2 t1 t2 :
  io_run args f f1 t1 -> io_step arg f1 f2 t2 -> io_run (args ++ [arg]) f f2 (t1 ++ t2).
Proof.
  induction 1 as [f|a args f g h u1 u2 Hs _ IH]; intros Hstep; simpl.
  - rewrite <-(app_nil_r t2). by eapply run_cons; [|apply run_nil].
  - rewrite <-app_assoc. by eapply run_cons, IH.
Qed.

(** The output of a process, delivered or not. *)
Definition printed s : cstr := out_done s ++ out_pending s.

(** The file of descriptor [fd] is [f], and [t] has been printed. *)
Definition at_ (fd : Z) (f : list ascii * nat) (t : cstr) s : Prop := opened (kern s) fd = Some f /\ printed s = t.

(** The run may still fail; ending with success is another matter. *)
Definition unless_success (e : exit_kind) s : Prop := e <> EXIT_SUCCESS.

Lemma wp_print fd f t u (Q : unit -> proc K -> Prop) E s :
  at_ fd f t s -> (forall s', at_ fd f (t ++ u) s' -> Q tt s') -> wp (putout u) Q E s.
Proof.
  intros [Hf Ht] HQ. apply wp_modify, HQ. split; [done|]. unfold printed in *. simpl. by rewrite (assoc_L (++)), Ht.
Qed.

Lemma wp_number fd f t num arg (Q : Z -> proc K -> Prop) s :
  at_ fd f t s -> (forall n s', strtol num 0 = (n, [], false) -> num <> [] -> at_ fd f t s' -> Q n s') ->
  wp (getLong (Some num) GN_ANY_BASE arg) Q unless_success s.
Proof.
  intros Hs HQ. apply wp_getNum; [by intros s' _|]. intros a n [= <-] Hne Hn _. by apply HQ.
Qed.

(** One argument. *)
Lemma wp_io_op fd arg f t s (Q : unit -> proc K -> Prop) :
  at_ fd f t s -> (forall f' u s', io_step arg f f' u -> at_ fd f' (t ++ u) s' -> Q tt s') ->
  wp (io_op fd arg) Q unless_success s.
Proof.
  intros Hs HQ. destruct f as [content off]. unfold io_op. destruct arg as [|c num]; [by apply wp_cmdLineErr|].
  assert (Hread : forall text, (c = "r" /\ text = true \/ c = "R" /\ text = false)%char ->
    wp (read_op fd (c :: num) num text) Q unless_success s).
  { intros text Hc. apply wp_bind. eapply wp_number; [exact Hs|]. intros n s1 Hn Hne [Hf Ht].
    apply wp_bind. unfold wp at 1, syscall_. destruct (os_malloc (kern s1) _) as [k ok] eqn:Hm.
    eapply fl_malloc in Hm; [|exact Hf]. destruct ok; simpl; [|by apply wp_errExit_fails].
    apply wp_bind, wp_syscall; simpl; intros k' r Hr; [by apply wp_errExit_fails|].
    assert (Hpos : 0 <= to_unsigned 64 n) by (apply to_unsigned_range; lia).
    destruct (fl_read _ _ _ _ _ _ _ Hr Hpos Hm) as (Ho & (got & Hgot & ->) & Hnil).
    eapply (wp_print fd (content, _) t); [by split|]. intros s' Hs'. eapply HQ; [|exact Hs'].
    by eapply step_read. }
  repeat case_decide; [by apply Hread; auto|by apply Hread; auto| | |by apply wp_cmdLineErr].
  - destruct Hs as [Hf Ht]. apply wp_bind, wp_syscall; intros k r Hr; [by apply wp_errExit_fails|].
    destruct (fl_write _ _ _ _ _ _ _ Hr Hf) as [Hn Ho].
    eapply (wp_print fd _ t); [by split|]. intros s' Hs'. eapply HQ; [|exact Hs'].
    rewrite <-(Z2Nat.id r) at 3 by lia. subst c. apply step_write. unfold strlen in Hn. lia.
  - apply wp_bind. eapply wp_number; [exact Hs|]. intros n s1 Hn Hne [Hf Ht].
    apply wp_bind, wp_syscall; intros k r Hr; [by apply wp_errExit_fails|].
    destruct (fl_lseek _ _ _ _ _ _ _ Hr Hf) as [Hpos Ho].
    eapply (wp_print fd _ t); [by split|]. intros s' Hs'. eapply HQ; [|exact Hs'].
    subst c. by apply step_seek.
Qed.

(** When seek_io ends successfully, its arguments have been carried out one
    after the other on the bytes and the offset of the file, every number in
    them was one for strtol, and what they print has been delivered; each
    step moves the offset by what was transferred, and a write past the end
    leaves a hole of null bytes. The file is left with the resulting bytes.
    Otherwise the program ends with a failure. *)
Theorem seek_io_runs (pname : cstr) (args : list cstr) s :
  name <> lit "--help" ->
  wp (main (pname :: name :: args)) (fun _ _ => False)
    (fun e s' => e = EXIT_SUCCESS -> args <> [] /\
       exists content off text, io_run args (default [] (stored (kern s)), 0%nat) (content, off) text /\
         stored (kern s') = Some content /\
         out_done s' = out_done s ++ out_pending s ++ text) s.
Proof.
  intros Hname. unfold main. simpl. rewrite (bool_decide_eq_false_2 (Some name = _)) by (intros [= Hx]; by apply Hname). rewrite orb_false_r.
  destruct (decide (args = [])) as [->|Hne]; [by apply wp_usageErr|].
  rewrite (proj2 (Nat.ltb_ge _ _)) by (destruct args; [done|simpl; lia]).
  apply wp_bind, wp_syscall; intros k fd Hk; [by apply wp_errExit_fails|].
  pose proof (fl_open _ _ _ Hk) as Hf. rewrite drop_0. set (f0 := (default [] (stored (kern s)), 0%nat)) in *.
  set (I := fun done s' => exists f text, io_run done f0 f text /\ at_ fd f (printed s ++ text) s').
  apply wp_bind. eapply (wp_mono _ (fun _ => I args) _ unless_success).
  - apply (wp_for_each args (io_op fd) I).
    + exists f0, []. split; [apply run_nil|]. split; [done|]. by rewrite app_nil_r.
    + intros done x rest s' _ (f & text & Hrun & Hs'). eapply wp_io_op; [exact Hs'|].
      intros f' u s2 Hstep Hs2. exists f', (text ++ u). split; [by eapply run_snoc|]. by rewrite app_assoc.
  - intros _ s1 ([content off] & text & Hrun & Hf1 & Ht1). apply wp_bind, wp_syscall; intros k' r Hr; [by apply wp_errExit_fails|].
    apply wp_bind, wp_modify, wp_exit. intros _. split; [done|]. exists content, off, text.
    split; [done|]. simpl. split; [by rewrite (fl_close _ _ _ _ Hr); eapply fl_opened|]. unfold printed in Ht1. rewrite Ht1. by rewrite app_assoc.
  - intros e s' He Hx. by destruct He.
Qed.

End Correct.

(** ** A file in memory *)

(** The file, once it exists, and its descriptor's offset. *)
Definition demo_store : Type := option (list ascii) * option nat.

#[export] Instance demo_file_os : FileOS demo_store := {
  os_open_rw k name := ((Some (default [] k.1), Some 0%nat), inr 3);
  os_malloc k n := (k, n <? 2 ^ 40);
  os_read_fd k fd n :=
    match k with
    | (Some c, Some o) =>
        let bytes := if n <? Z.of_nat (length c) then take (Z.to_nat n) (drop o c) else drop o c in
        ((Some c, Some (o + length bytes)%nat), inr bytes)
    | _ => (k, inl 9)
    end;
  os_write_fd k fd t :=
    match k with
    | (Some c, Some o) => ((Some (overlay c o t), Some (o + length t)%nat), inr (strlen t))
    | _ => (k, inl 9)
    end;
  os_lseek_set k fd n :=
    match k with
    | (Some c, Some o) => if n <? 0 then (k, inl EINVAL) else ((Some c, Some (Z.to_nat n)), inr n)
    | _ => (k, inl 9)
    end;
  os_close_fd k fd := ((k.1, None), inr tt)
}.

#[export] Instance demo_file_laws : FileLaws demo_store (lit "myfile").
Proof.
  refine {| stored k := k.1;
    opened k fd := match k with (Some c, Some o) => Some (c, o) | _ => None end |}.
  - by intros [[c|] [o|]] fd content off [= -> ->].
  - by intros k k' fd [= <- <-].
  - by intros k n k' r fd f [= <- _].
  - intros [[c|] [o|]] fd n k' bytes content off Hr Hn Ho; simplify_eq/=. split; [done|].
    destruct (Z.ltb_spec n (Z.of_nat (length content))).
    + split; [by exists (Z.to_nat n)|]. intros Hnil. apply (f_equal length) in Hnil.
      rewrite length_take, length_drop in Hnil. simpl in Hnil. lia.
    + split.
      * exists (length content). split; [lia|]. rewrite firstn_all2; [done|]. rewrite length_drop. lia.
      * intros Hnil. apply (f_equal length) in Hnil. rewrite length_drop in Hnil. simpl in Hnil. lia.
  - intros [[c|] [o|]] fd t k' n content off Hr Ho; simplify_eq/=. unfold strlen. rewrite Nat2Z.id, firstn_all.
    split; [lia|done].
  - intros [[c|] [o|]] fd n k' r content off Hr Ho; simplify_eq/=. destruct (Z.ltb_spec n 0); by simplify_eq/=.
  - by intros k fd k' r [= <- _].
Defined.

#[export] Instance demo_file_texts : ErrnoText :=
  { MAX_ENAME := 3; ename := fun _ => lit "EX"; strerror := fun _ => lit "text" }.
Definition demo_shell : proc demo_store := Proc (None, None) 0 None [] [] [].

(** The example of the source. *)
Example wxyz_s1_r2 :
  exists s', main [lit "seek_io"; lit "myfile"; lit "wxyz"; lit "s1"; lit "r2"] demo_shell = Exit EXIT_SUCCESS s' /\
    stored (kern s') = Some (lit "xyz") /\
    out_done s' = lit "wxyz: wrote 3 bytes" ++ [NEWLINE] ++ lit "s1: seek succeeded" ++ [NEWLINE] ++
      lit "r2: yz" ++ [NEWLINE].
Proof. eexists. split; [vm_compute; reflexivity|]. split; by vm_compute. Qed.

(** Reading nothing is reported as the end of the file, wherever the offset
    is. *)
Example reading_nothing :
  exists s', main [lit "seek_io"; lit "myfile"; lit "wab"; lit "s0"; lit "r0"] demo_shell = Exit EXIT_SUCCESS s' /\
    out_done s' = lit "wab: wrote 2 bytes" ++ [NEWLINE] ++ lit "s0: seek succeeded" ++ [NEWLINE] ++
      lit "r0: end-of-file" ++ [NEWLINE].
Proof. eexists. split; [vm_compute; reflexivity|by vm_compute]. Qed.

Lemma seek_io_runs_witness :
  wp (main [lit "seek_io"; lit "myfile"; lit "s2"; lit "wab"]) (fun _ _ => False)
    (fun e s' => e = EXIT_SUCCESS -> [lit "s2"; lit "wab"] <> [] /\
       exists content off text,
         io_run [lit "s2"; lit "wab"] (default [] (stored (kern demo_shell)), 0%nat) (content, off) text /\
         stored (kern s') = Some content /\
         out_done s' = out_done demo_shell ++ out_pending demo_shell ++ text) demo_shell.
Proof. apply (seek_io_runs (lit "myfile") (lit "seek_io") [lit "s2"; lit "wab"] demo_shell). by vm_compute. Defined.
