(* ===== verification/FilePerms.v ===== *)
(** The modes and flags of files: files/file_perms.c shows permissions as ls
    does, files/chiflag.c changes the inode flags of the files it is given
    (src/tlpi-dist). *)
From Stdlib Require Import ZArith Lia Ascii String.
From stdpp Require Import base tactics list strings gmap.
From S2P Require Import Prelude CString Process.
#[local] Open Scope Z_scope.

(** ** file_perms.c *)

(** In octal: 4000, 2000, 1000, 400 and so on down to 1. *)
Definition S_ISUID : Z := 2048.
Definition S_ISGID : Z := 1024.
Definition S_ISVTX : Z := 512.
Definition S_IRUSR : Z := 256.
Definition S_IWUSR : Z := 128.
Definition S_IXUSR : Z := 64.
Definition S_IRGRP : Z := 32.
Definition S_IWGRP : Z := 16.
Definition S_IXGRP : Z := 8.
Definition S_IROTH : Z := 4.
Definition S_IWOTH : Z := 2.
Definition S_IXOTH : Z := 1.

Definition FP_SPECIAL : Z := 1.
Definition STR_SIZE : Z := 10.

Definition filePermStr (perm flags : Z) : cstr :=
  let on bit (c : ascii) := if has_bit perm bit then c else "-"%char in
  let exec x special (lower upper : ascii) :=
    let shown := has_bit perm special && has_bit flags FP_SPECIAL in
    if has_bit perm x then (if shown then lower else "x"%char) else (if shown then upper else "-"%char) in
  snprintf STR_SIZE
    [on S_IRUSR "r"%char; on S_IWUSR "w"%char; exec S_IXUSR S_ISUID "s"%char "S"%char;
     on S_IRGRP "r"%char; on S_IWGRP "w"%char; exec S_IXGRP S_ISGID "s"%char "S"%char;
     on S_IROTH "r"%char; on S_IWOTH "w"%char; exec S_IXOTH S_ISVTX "t"%char "T"%char].

(** ** chiflag.c *)

Class FlagOS (K : Type) := {
  os_open_rdonly : K -> cstr -> K * (Z + Z);
  os_getflags : K -> Z -> K * (Z + Z);
  os_setflags : K -> Z -> Z -> K * (Z + unit);
  os_close_file : K -> Z -> K * (Z + unit)
}.

(** The letters of the usage message with the flags of the switch. *)
Definition flag_of (c : ascii) : option Z :=
  match c with
  | "a" => Some 0x20 | "A" => Some 0x80 | "c" => Some 0x4 | "d" => Some 0x40 | "D" => Some 0x10000
  | "i" => Some 0x10 | "j" => Some 0x4000 | "s" => Some 0x1 | "S" => Some 0x8 | "t" => Some 0x8000
  | "T" => Some 0x20000 | "u" => Some 0x2
  | _ => None
  end%char.

Section Code.
Context `{ErrnoText} {K : Type} {OS : FlagOS K}.
Abbreviation PM := (M (proc K)).

Definition usage_lines : list cstr :=
  [lit "+ add attribute; - remove attribute; = set attributes absolutely" ++ [NEWLINE; NEWLINE];
   lit "'attrib-chars' contains one or more of:" ++ [NEWLINE]] ++
  ((fun l => l ++ [NEWLINE]) <$>
    [lit "a   Force open() to include O_APPEND (privilege required)";
     lit "A   Do not update last access time";
     lit "c   Compress (requires e2compr package)";
     lit "d   Do not backup with dump(8)";
     lit "D   Synchronous directory updates";
     lit "i   Immutable (privilege required)";
     lit "j   Enable ext3/ext4 data journaling";
     lit "s   Secure deletion (not implemented)";
     lit "S   Synchronous file updates";
     lit "t   Disable tail-packing (Reiserfs only)";
     lit "T   Mark as top-level directory for Orlov algorithm";
     lit "u   Undelete (not implemented)"]).

Definition usageError {A} (progName : cstr) : PM A :=
  puterr (lit "Usage: " ++ progName ++ lit " {+-=}{attrib-chars} file..." ++ [NEWLINE; NEWLINE]) ;;;
  for_each usage_lines (fun l => puterr (lit "    " ++ l)) ;;;
  exit3 EXIT_FAILURE.

(** The loop over the characters of [argv[1]]. *)
Fixpoint build_mask (prog chars : cstr) (attr : Z) : PM Z :=
  match chars with
  | [] => ret attr
  | p :: rest =>
      match flag_of p with
      | Some f => build_mask prog rest (Z.lor attr f)
      | None => usageError prog
      end
  end.

(** One file: the value of [attr] after it. *)
Definition change_file (mode : ascii) (attr : Z) (name : cstr) : PM Z :=
  let! fd := syscall (fun k => os_open_rdonly k name) in
  match fd with
  | None => errMsg (lit "open: " ++ name) ;;; ret attr
  | Some fd =>
      let! attr :=
        (if bool_decide (mode = "+"%char \/ mode = "-"%char) then
           let! oldAttr := syscall (fun k => os_getflags k fd) in
           match oldAttr with
           | None => errExit (lit "ioctl1: " ++ name)
           | Some oldAttr =>
               ret (if bool_decide (mode = "-"%char) then Z.land oldAttr (Z.lnot attr) else Z.lor oldAttr attr)
           end
         else ret attr) in
      let! r := syscall (fun k => os_setflags k fd attr) in
      when (bool_decide (r = None)) (errExit (lit "ioctl2: " ++ name)) ;;;
      let! c := syscall (fun k => os_close_file k fd) in
      when (bool_decide (c = None)) (errExit (lit "close")) ;;;
      ret attr
  end.

Fixpoint change_files (mode : ascii) (attr : Z) (names : list cstr) : PM unit :=
  match names with
  | [] => ret tt
  | name :: rest => let! attr := change_file mode attr name in change_files mode attr rest
  end.

(** [main]; strchr finds the null that ends an empty [argv[1]], and the loop
    then starts after it. *)
Definition chiflag_main (argv : list cstr) : PM unit :=
  match argv with
  | prog :: arg :: file :: files =>
      match arg with
      | [] => undef
      | mode :: chars =>
          if negb (bool_decide (mode ∈ lit "+-=")) || bool_decide (arg = lit "--help") then usageError prog
          else
            let! attr := build_mask prog chars 0 in
            change_files mode attr (file :: files) ;;;
            exit3 EXIT_SUCCESS
      end
  | prog :: _ => usageError prog
  | [] => undef
  end.

End Code.

(** ** The string of permissions is read back *)

(** What ls means by the three characters of a class, as bits of the class and
    its special bit. *)
Definition read_class (special : Z) (low upp : ascii) (cs : cstr) : option Z :=
  match cs with
  | [r; w; x] =>
      let bit c b (ch : ascii) := if bool_decide (ch = c) then Some b else if bool_decide (ch = "-"%char) then Some 0 else None in
      let xbit := if bool_decide (x = low) then Some (1 + special) else if bool_decide (x = upp) then Some special
                  else bit "x"%char 1 x in
      match bit "r"%char 4 r, bit "w"%char 2 w, xbit with
      | Some a, Some b, Some c => Some (a + b + c)
      | _, _, _ => None
      end
  | _ => None
  end.

(** The mode that a string stands for; the special bits are counted in units
    of a class of their own. *)
Definition read_perms (s : cstr) : option Z :=
  match read_class 64 "s"%char "S"%char (take 3 s), read_class 128 "s"%char "S"%char (take 3 (drop 3 s)),
        read_class 512 "t"%char "T"%char (drop 6 s) with
  | Some u, Some g, Some o =>
      let special := (if 64 <=? u then S_ISUID else 0) + (if 128 <=? g then S_ISGID else 0) + (if 512 <=? o then S_ISVTX else 0) in
      Some (special + u mod 64 * 64 + g mod 128 * 8 + o mod 512)
  | _, _, _ => None
  end.

Lemma has_bit_mask perm mask b : Z.land mask b = b -> has_bit (Z.land perm mask) b = has_bit perm b.
Proof. intros H. unfold has_bit. by rewrite <-Z.land_assoc, H. Qed.

Lemma filePermStr_mask perm flags : filePermStr perm flags = filePermStr (Z.land perm 4095) flags.
Proof. unfold filePermStr. cbv zeta. by rewrite !(has_bit_mask perm 4095). Qed.

(** All the modes, with and without the special bits. *)
Lemma every_mode : forallb (fun perm => forallb (fun flags =>
    bool_decide (read_perms (filePermStr perm flags) =
      Some (Z.land perm (if has_bit flags FP_SPECIAL then 4095 else 511)))) [0; FP_SPECIAL])
  (seqZ 0 4096) = true.
Proof. by vm_compute. Qed.

Lemma filePermStr_flag perm flags : filePermStr perm flags = filePermStr perm (Z.land flags FP_SPECIAL).
Proof. unfold filePermStr. by rewrite (has_bit_mask flags FP_SPECIAL FP_SPECIAL eq_refl). Qed.

(** For every mode and flags, the string says exactly which permissions
    the mode has, and with FP_SPECIAL also its set-user-ID, set-group-ID and
    sticky bits. *)
Theorem filePermStr_exact (perm flags : Z) :
  read_perms (filePermStr perm flags) =
    Some (Z.land perm (if has_bit flags FP_SPECIAL then 4095 else 511)).
Proof.
  rewrite filePermStr_mask, filePermStr_flag, <-(has_bit_mask flags FP_SPECIAL FP_SPECIAL eq_refl).
  assert (Hp : Z.land perm (if has_bit (Z.land flags FP_SPECIAL) FP_SPECIAL then 4095 else 511) =
    Z.land (Z.land perm 4095) (if has_bit (Z.land flags FP_SPECIAL) FP_SPECIAL then 4095 else 511))
    by (rewrite <-Z.land_assoc; by destruct (has_bit _ _)).
  rewrite Hp. clear Hp.
  assert (Hr : Z.land perm 4095 ∈ seqZ 0 4096).
  { apply elem_of_seqZ. change 4095 with (Z.ones 12). rewrite Z.land_ones by lia. by apply Z.mod_pos_bound. }
  assert (Hf : Z.land flags FP_SPECIAL ∈ [0; FP_SPECIAL]).
  { change FP_SPECIAL with (Z.ones 1) at 1. rewrite Z.land_ones by lia.
    assert (0 <= flags mod 2 < 2) by (by apply Z.mod_pos_bound). change (2 ^ 1) with 2.
    apply list_elem_of_In. assert (flags mod 2 = 0 \/ flags mod 2 = 1) as [->| ->] by lia; simpl; auto. }
  apply (bool_decide_eq_true_1 _). pose proof every_mode as Hall.
  pose proof (proj1 (forallb_forall _ _) Hall _ (proj1 (list_elem_of_In _ _) Hr)) as Hall'.
  exact (proj1 (forallb_forall _ _) Hall' _ (proj1 (list_elem_of_In _ _) Hf)).
Qed.

(** ** The flags of files *)

(** A file system as the flags of its files by name, and the descriptors of a
    process. *)
Class FlagLaws (K : Type) {OS : FlagOS K} := {
  attrs : K -> gmap cstr Z;
  handles : K -> gmap Z cstr;
  fl_open k name :
    match os_open_rdonly k name with
    | (k', inr fd) => is_Some (attrs k !! name) /\ attrs k' = attrs k /\ handles k !! fd = None /\
        handles k' = <[fd := name]> (handles k)
    | (k', inl _) => attrs k !! name = None /\ attrs k' = attrs k /\ handles k' = handles k
    end;
  fl_get k fd name : handles k !! fd = Some name ->
    match os_getflags k fd with
    | (k', inr f) => attrs k !! name = Some f /\ attrs k' = attrs k /\ handles k' = handles k
    | _ => True
    end;
  fl_set k fd name v : handles k !! fd = Some name ->
    match os_setflags k fd v with
    | (k', inr _) => attrs k' = <[name := v]> (attrs k) /\ handles k' = handles k
    | _ => True
    end;
  fl_close k fd : match os_close_file k fd with
    | (k', inr _) => attrs k' = attrs k /\ handles k' = delete fd (handles k)
    | _ => True
    end
}.

(** The flags that the usage message promises. *)
Definition wanted (mode : ascii) (attr old : Z) : Z :=
  if bool_decide (mode = "="%char) then attr
  else if bool_decide (mode = "-"%char) then Z.land old (Z.lnot attr) else Z.lor old attr.

Definition mask_of (chars : cstr) : option Z :=
  foldl (fun a c => a ← a; f ← flag_of c; Some (Z.lor a f)) (Some 0) chars.

Section Flags.
Context `{ET : ErrnoText} {K : Type} {OS : FlagOS K} {FL : FlagLaws K}.
Implicit Types (s : proc K) (files : list cstr).

(** [files] have been given their flags and everything is closed. *)
Definition changed (mode : ascii) (attr : Z) (files : list cstr) (k k' : K) : Prop :=
  handles k' = handles k /\
  forall name, attrs k' !! name =
    if decide (name ∈ files) then wanted mode attr <$> attrs k !! name else attrs k !! name.

(** How many of [files] can be opened. *)
Definition present (k : K) (files : list cstr) : nat :=
  length (filter (fun f => is_Some (attrs k !! f)) files).

Definition on_success (P : K -> Prop) (e : exit_kind) s : Prop := e = EXIT_SUCCESS -> P (kern s).

Lemma wp_build_mask prog chars a attr (Q : Z -> proc K -> Prop) E s :
  foldl (fun a c => a ← a; f ← flag_of c; Some (Z.lor a f)) (Some a) chars = Some attr ->
  Q attr s -> wp (build_mask prog chars a) Q E s.
Proof.
  revert a. induction chars as [|c chars IH]; intros a; simpl.
  - intros [= ->] HQ. by apply wp_ret.
  - destruct (flag_of c); simpl; [apply IH|]. intros Hf. exfalso. clear -Hf. by induction chars.
Qed.

(** A file that can be opened is changed, and with it the mask. *)
Lemma wp_change_file mode attr name (Q : Z -> proc K -> Prop) P s :
  mode ∈ lit "+-=" ->
  (attrs (kern s) !! name = None ->
   forall s', attrs (kern s') = attrs (kern s) -> handles (kern s') = handles (kern s) -> Q attr s') ->
  (forall old s', attrs (kern s) !! name = Some old ->
   attrs (kern s') = <[name := wanted mode attr old]> (attrs (kern s)) -> handles (kern s') = handles (kern s) ->
   Q (wanted mode attr old) s') ->
  wp (change_file mode attr name) Q (on_success P) s.
Proof.
  intros Hm HN HS. apply wp_bind, wp_syscall.
  - intros k e Ho. pose proof (fl_open (kern s) name) as Hl. rewrite Ho in Hl. destruct Hl as (Ha & Hk & Hh).
    apply wp_bind, wp_errMsg. intros s1 Hs1 _. apply wp_ret, HN; [done|by rewrite Hs1..].
  - intros k fd Ho. pose proof (fl_open (kern s) name) as Hl. rewrite Ho in Hl.
    destruct Hl as ((old & Hold) & Hk & Hfree & Hh). apply wp_bind.
    assert (Hrest : forall v s1, v = wanted mode attr old -> attrs (kern s1) = attrs (kern s) ->
      handles (kern s1) = <[fd := name]> (handles (kern s)) ->
      wp (let! r := syscall (fun k => os_setflags k fd v) in
          when (bool_decide (r = None)) (errExit (lit "ioctl2: " ++ name)) ;;;
          let! c := syscall (fun k => os_close_file k fd) in
          when (bool_decide (c = None)) (errExit (lit "close")) ;;; ret v)%c Q (on_success P) s1).
    { intros v s1 -> Ha1 Hh1. apply wp_bind, wp_syscall; [intros ? ? _; apply wp_bind, wp_when; [intros _; apply wp_errExit_fails; by intros ? ? ? _ ?|done]|].
      intros k2 [] H2. pose proof (fl_set (kern s1) fd name (wanted mode attr old)) as Hl.
      rewrite H2, Hh1, lookup_insert_eq in Hl. destruct (Hl eq_refl) as [Ha2 Hh2]. apply wp_bind, wp_when; [done|intros _].
      apply wp_bind, wp_syscall; [intros ? ? _; apply wp_bind, wp_when; [intros _; apply wp_errExit_fails; by intros ? ? ? _ ?|done]|].
      intros k3 [] H3. pose proof (fl_close k2 fd) as Hl3. simpl in H3. rewrite H3 in Hl3. destruct Hl3 as [Ha3 Hh3].
      apply wp_bind, wp_when; [done|intros _]. apply wp_ret, HS; simpl; [done|by rewrite Ha3, Ha2, Ha1|].
      rewrite Hh3, Hh2. by rewrite delete_insert_eq, delete_id. }
    case_bool_decide as Hpm.
    + apply wp_bind, wp_syscall; [intros ? ? _; apply wp_errExit_fails; by intros ? ? ? _ ?|].
      intros k1 f H1. pose proof (fl_get k fd name) as Hl. simpl in H1. rewrite H1, Hh, lookup_insert_eq in Hl.
      destruct (Hl eq_refl) as (Hf & Ha1 & Hh1). apply wp_ret, Hrest; [|simpl; congruence..].
      assert (f = old) as -> by congruence. unfold wanted. rewrite (bool_decide_eq_false_2 (mode = "="%char)); [done|].
      intros ->. by destruct Hpm.
    + apply wp_ret, Hrest; [|done..]. unfold wanted. rewrite bool_decide_eq_true_2; [done|].
      clear -Hm Hpm. simpl in Hm. set_unfold in Hm. naive_solver.
Qed.
Lemma wp_change_files mode attr files (Q : unit -> proc K -> Prop) P s :
  mode ∈ lit "+-=" -> mode = "="%char \/ (present (kern s) files <= 1)%nat ->
  (forall s', changed mode attr files (kern s) (kern s') -> Q tt s') ->
  wp (change_files mode attr files) Q (on_success P) s.
Proof.
  intros Hm. revert attr s Q. induction files as [|f files IH]; intros attr s Q Hone HQ.
  - apply wp_ret, HQ. split; [done|]. intros name. by rewrite decide_False by (by intros ?%elem_of_nil).
  - simpl. apply wp_bind, wp_change_file; [done|intros Hf s1 Ha Hh|intros old s1 Hf Ha Hh].
    + apply IH; [rewrite <-Ha in Hf; destruct Hone as [|Hone]; [by left|right]; unfold present in *; rewrite Ha in *; by rewrite filter_cons_False in Hone by (rewrite Hf; by intros [])|].
      intros s2 [Hh2 H2]. apply HQ. split; [congruence|]. intros name. rewrite H2, Ha.
      destruct (decide (name = f)) as [->|Hne]; [rewrite Hf; by destruct (decide _), (decide _)|].
      destruct (decide (name ∈ files)); [by rewrite decide_True by by right|by rewrite decide_False by set_solver].
    + assert (Hrest : mode = "="%char \/ forall g, g ∈ files -> attrs (kern s) !! g = None).
      { destruct Hone as [|Hone]; [by left|right]. intros g Hg. unfold present in Hone.
        rewrite filter_cons_True in Hone by (by rewrite Hf). simpl in Hone.
        destruct (attrs (kern s) !! g) eqn:Hgs; [|done]. exfalso.
        assert (Hin : g ∈ filter (fun f => is_Some (attrs (kern s) !! f)) files) by (apply list_elem_of_filter; eauto).
        destruct (filter _ files); [by apply elem_of_nil in Hin|simpl in Hone; lia]. }
      apply IH.
      * destruct Hrest as [|Hrest]; [by left|right]. unfold present. rewrite Ha.
        replace (filter _ files) with (@nil cstr); [simpl; lia|]. symmetry. clear -Hrest Hf.
        induction files as [|g files IH]; [done|]. rewrite filter_cons_False; [apply IH; set_solver|].
        rewrite lookup_insert_ne by (intros ->; rewrite Hrest in Hf by left; done).
        rewrite Hrest by left. by intros [].
      * intros s2 [Hh2 H2]. apply HQ. split; [congruence|]. intros name. rewrite H2, Ha. clear H2 HQ IH.
        destruct (decide (name = f)) as [->|Hne].
        -- rewrite lookup_insert_eq, Hf, (decide_True (P := f ∈ f :: files)) by left. simpl.
           destruct Hrest as [->|Hrest]; [by destruct (decide _)|].
           rewrite decide_False; [done|]. intros Hin. by rewrite (Hrest _ Hin) in Hf.
        -- rewrite lookup_insert_ne by done. destruct (decide (name ∈ files)) as [Hin|].
           ++ rewrite (decide_True (P := name ∈ f :: files)) by by right.
              destruct Hrest as [->|Hrest]; [by unfold wanted|by rewrite (Hrest _ Hin)].
           ++ by rewrite (decide_False (P := name ∈ f :: files)) by set_solver.
Qed.

(** With letters that the usage message lists, a run that succeeds has
    given every file that it can open the flags that were asked for, left the
    other files alone and closed what it opened, if the mode is =, or if the
    mode is + or - and at most one of the names is of a file that can be
    opened. *)
Theorem chiflag_changes (prog chars : cstr) (mode : ascii) (files : list cstr) (attr : Z) (s : proc K) :
  mode ∈ lit "+-=" -> mask_of chars = Some attr -> files <> [] ->
  mode = "="%char \/ (present (kern s) files <= 1)%nat ->
  wp (chiflag_main (prog :: (mode :: chars) :: files)) (fun _ _ => False)
     (on_success (changed mode attr files (kern s))) s.
Proof.
  intros Hm Hattr Hf Hone. destruct files as [|f files]; [by exfalso|].
  assert (Hrun : chiflag_main (prog :: (mode :: chars) :: f :: files) =
    (let! attr := build_mask prog chars 0 in change_files mode attr (f :: files) ;;; exit3 EXIT_SUCCESS)%c).
  { unfold chiflag_main. rewrite (bool_decide_eq_true_2 _ Hm), bool_decide_eq_false_2; [reflexivity|].
    intros [= -> ->]. by vm_compute in Hattr. }
  rewrite Hrun. apply wp_bind, (wp_build_mask _ _ _ attr); [exact Hattr|].
  apply wp_bind. apply (wp_change_files mode attr (f :: files)); [exact Hm|exact Hone|]. intros s1 H1.
  apply wp_exit3. intros s2 H2 _. by rewrite H2.
Qed.
End Flags.

(** ** Runs *)

Example ls_modes : filePermStr 2541 FP_SPECIAL = lit "rwsr-xr-x" /\ filePermStr 1023 FP_SPECIAL = lit "rwxrwxrwt" /\
  filePermStr 2468 FP_SPECIAL = lit "rwSr--r--" /\ filePermStr 2541 0 = lit "rwxr-xr-x".
Proof. by vm_compute. Qed.

(** Files by name, the descriptors of the process. *)
Definition demo_files : Type := gmap cstr Z * gmap Z cstr.

#[export] Instance demo_flag_os : FlagOS demo_files := {|
  os_open_rdonly k name :=
    match k.1 !! name with
    | Some _ => let fd := fresh (dom k.2) in ((k.1, <[fd := name]> k.2), inr fd)
    | None => (k, inl 2)
    end;
  os_getflags k fd :=
    match k.2 !! fd with
    | Some name => match k.1 !! name with Some f => (k, inr f) | None => (k, inl 9) end
    | None => (k, inl 9)
    end;
  os_setflags k fd v :=
    match k.2 !! fd with Some name => ((<[name := v]> k.1, k.2), inr tt) | None => (k, inl 9) end;
  os_close_file k fd := ((k.1, delete fd k.2), inr tt)
|}.

#[export] Instance demo_flag_laws : FlagLaws demo_files.
Proof.
  refine {| attrs := fst; handles := snd |}.
  - intros [a h] name. simpl. destruct (a !! name) eqn:Ha; [|done]. split_and!; try done.
    apply not_elem_of_dom. apply is_fresh.
  - intros [a h] fd name Hh. simpl in *. rewrite Hh. by destruct (a !! name) eqn:Ha.
  - intros [a h] fd name v Hh. simpl in *. by rewrite Hh.
  - by intros [a h] fd.
Defined.

#[export] Instance demo_flag_texts : ErrnoText :=
  {| MAX_ENAME := 0; ename := fun _ => []; strerror := fun _ => [] |}.

(** Two files: f with the flag A, g without flags. *)
Definition demo_flags : proc demo_files :=
  Proc ({[ lit "f" := 128; lit "g" := 0 ]}, ∅) 0 None [] [] [].

Lemma chiflag_changes_witness :
  wp (chiflag_main [lit "chiflag"; lit "+ai"; lit "f"; lit "missing"]) (fun _ _ => False)
     (on_success (changed "+"%char 48 [lit "f"; lit "missing"] (kern demo_flags))) demo_flags /\
  wanted "+"%char 48 128 = 176.
Proof.
  split; [|done]. apply (chiflag_changes (lit "chiflag") (lit "ai") "+"%char [lit "f"; lit "missing"] 48 demo_flags).
  - by apply list_elem_of_In; left.
  - done.
  - done.
  - right. by vm_compute; lia.
Defined.

(** With two files the second gets the flags of the first: [attr] is written
    over. *)
Example flags_carried_over :
  match chiflag_main [lit "chiflag"; lit "+a"; lit "f"; lit "g"] demo_flags with
  | Exit EXIT_SUCCESS s => attrs (kern s) !! lit "f" = Some 160 /\ attrs (kern s) !! lit "g" = Some 160
  | _ => False
  end /\ wanted "+"%char 32 0 = 32.
Proof. by vm_compute. Qed.

(** With - the second file keeps a flag that the first has lost. *)
Example flag_not_removed :
  match chiflag_main [lit "chiflag"; lit "-A"; lit "f"; lit "g"]
          (set_kern ({[ lit "f" := 128; lit "g" := 128 ]}, ∅) demo_flags) with
  | Exit EXIT_SUCCESS s => attrs (kern s) !! lit "f" = Some 0 /\ attrs (kern s) !! lit "g" = Some 128
  | _ => False
  end.
Proof. by vm_compute. Qed.

(** An empty first argument passes the test. *)
Example empty_mode_overruns : chiflag_main [lit "chiflag"; []; lit "f"] demo_flags = Undef.
Proof. done. Qed.
