(* ===== verification/PsTree.v ===== *)
(** chapter12/exercise_2.c: the tree of all processes, from the files of /proc.
    A struct Process is at the place of the array [processes] where its pointer
    is put, and [children] holds such places. Loops over the directory and over
    lines take fuel, and the recursion of print_process_tree takes a unit for
    each generation. *)
From Stdlib Require Import ZArith Lia Ascii String.
From stdpp Require Import base tactics list strings relations.
From S2P Require Import Prelude CString Process.
#[local] Open Scope Z_scope.

Definition MAX_PROCESSES : Z := 10000.
Definition MAX_CMD_LEN : Z := 1024.
Definition MAX_LINE_LEN : Z := 256.

Record Process := Proc_ { pid : Z; ppid : Z; cmd : cstr; children : list nat }.

(** [opendir]; [readdir] with the name and whether [d_type] is DT_DIR; [malloc]
    of a struct Process; and [fopen] with all that can be read from the file. *)
Class ProcFS (K : Type) := {
  os_opendir : K -> cstr -> K * (Z + unit);
  os_readdir : K -> K * option (cstr * bool);
  os_malloc : K -> K * bool;
  os_file : K -> cstr -> K * (Z + cstr)
}.

Section Code.
Context `{ErrnoText} {K : Type} {OS : ProcFS K}.
Abbreviation PM := (M (proc K)).

(** The loop over the lines; [None] is a loop that is not finished. *)
Fixpoint ppid_line (fuel : nat) (input : cstr) : option Z :=
  match fuel with
  | O => None
  | S fuel =>
      match take_line (Z.to_nat MAX_LINE_LEN - 1) input with
      | ([], _) => Some (-1)
      | (line, rest) =>
          if strncmp_prefix (lit "PPid:") (string_in line) then Some (atoi (drop 5 (string_in line)))
          else ppid_line fuel rest
      end
  end.

Definition pid_path (pid : Z) (name : string) : cstr :=
  snprintf 256 (lit "/proc/" ++ show_Z pid ++ lit "/" ++ lit name).

Definition get_ppid (pid : Z) : PM Z :=
  let! content := syscall (fun k => os_file k (pid_path pid "status")) in
  match content with
  | None => ret (-1)
  | Some content =>
      match ppid_line (S (length content)) content with
      | None => undef
      | Some ppid => ret ppid
      end
  end.

Definition unknown : cstr := lit "[unknown]".

Definition get_cmdline (pid : Z) : PM cstr :=
  let! content := syscall (fun k => os_file k (pid_path pid "cmdline")) in
  match content with
  | None => ret (snprintf MAX_CMD_LEN unknown)
  | Some content =>
      let buffer := (fun c => if bool_decide (c = NUL) then " "%char else c) <$> take (Z.to_nat MAX_CMD_LEN - 1) content in
      match buffer with
      | [] =>
          let! comm := syscall (fun k => os_file k (pid_path pid "comm")) in
          match comm with
          | None => ret (snprintf MAX_CMD_LEN unknown)
          | Some comm =>
              match (take_line (Z.to_nat MAX_CMD_LEN - 1) comm).1 with
              | [] => ret (snprintf MAX_CMD_LEN unknown)
              | line => ret (snprintf MAX_CMD_LEN (strip_last NEWLINE (string_in line)))
              end
          end
      | _ => ret (snprintf MAX_CMD_LEN buffer)
      end
  end.

(** [perror]. *)
Definition perror (msg : cstr) : PM unit :=
  let! s := get in puterr (msg ++ lit ": " ++ strerror (errno s) ++ [NEWLINE]).

Definition create_process (pid : Z) : PM Process :=
  let! ok := syscall_ (fun k => os_malloc k) in
  if negb ok then perror (lit "malloc") ;;; exit3 EXIT_FAILURE
  else
    let! ppid := get_ppid pid in
    let! cmd := get_cmdline pid in
    ret (Proc_ pid ppid cmd []).

Fixpoint is_pid (name : cstr) : bool :=
  match name with [] => true | c :: name => if negb (isdigit c) then false else is_pid name end.

(** The loop over the directory; the array is a list of the length
    [process_count]. *)
Fixpoint scan (fuel : nat) (processes : list Process) : PM (list Process) :=
  match fuel with
  | O => undef
  | S fuel =>
      let! entry := syscall_ (fun k => os_readdir k) in
      match entry with
      | None => ret processes
      | Some (d_name, is_dir) =>
          if is_dir && is_pid d_name then
            let! p := create_process (atoi d_name) in
            if negb (ppid p =? -1) then
              if Z.of_nat (length processes) <? MAX_PROCESSES then scan fuel (processes ++ [p]) else undef
            else scan fuel processes
          else scan fuel processes
      end
  end.

Definition with_children (cs : list nat) (p : Process) : Process := Proc_ (pid p) (ppid p) (cmd p) cs.

Definition add_child (parent child : nat) (processes : list Process) : list Process :=
  alter (fun p => if Z.of_nat (length (children p)) <? MAX_PROCESSES then with_children (children p ++ [child]) p else p)
    parent processes.

Fixpoint find_from (i : nat) (pid_ : Z) (processes : list Process) : option nat :=
  match processes with
  | [] => None
  | p :: processes => if pid p =? pid_ then Some i else find_from (S i) pid_ processes
  end.
Definition find_process (pid_ : Z) (processes : list Process) : option nat := find_from 0 pid_ processes.

(** One turn of the loop of build_process_tree. *)
Definition link (processes : list Process) (i : nat) : list Process :=
  match processes !! i with
  | Some proc =>
      if 0 <? ppid proc then
        match find_process (ppid proc) processes with
        | Some parent => add_child parent i processes
        | None => processes
        end
      else processes
  | None => processes
  end.

Definition build_process_tree (processes : list Process) : list Process :=
  foldl link processes (seq 0 (length processes)).

(** One line of the tree. *)
Definition process_line (level : nat) (p : Process) : cstr :=
  mjoin (replicate level (lit "  ")) ++ show_Z (pid p) ++ lit " " ++ cmd p ++ [NEWLINE].

Fixpoint print_process_tree (fuel : nat) (processes : list Process) (i level : nat) : PM unit :=
  match fuel with
  | O => undef
  | S fuel =>
      match processes !! i with
      | None => undef
      | Some proc =>
          putout (process_line level proc) ;;;
          for_each (children proc) (fun c => print_process_tree fuel processes c (S level))
      end
  end.

Definition pstree_main (fuel : nat) : PM unit :=
  let! dir := syscall (fun k => os_opendir k (lit "/proc")) in
  match dir with
  | None => perror (lit "opendir") ;;; exit3 EXIT_FAILURE
  | Some _ =>
      let! processes := scan fuel [] in
      let processes := build_process_tree processes in
      match find_process 1 processes with
      | Some init_process =>
          putout (lit "Process Tree (root: init):" ++ [NEWLINE]) ;;;
          print_process_tree (length processes) processes init_process 0
      | None => putout (lit "Could not find init process (PID 1)" ++ [NEWLINE])
      end ;;;
      exit3 EXIT_SUCCESS
  end.

End Code.

(** ** The tree *)

(** The process that the loop takes for the parent of the one at place [i]. *)
Definition parent_of (ps : list Process) (i : nat) : option nat :=
  p ← ps !! i; if 0 <? ppid p then find_process (ppid p) ps else None.

(** The ancestor [d] generations up. *)
Fixpoint up (ps : list Process) (d i : nat) : option nat :=
  match d with O => Some i | S d => parent_of ps i ≫= up ps d end.

(** The children of [i] in the order of the array. *)
Definition kids (ps : list Process) (i : nat) : list nat :=
  filter (fun j => parent_of ps j = Some i) (seq 0 (length ps)).

(** The order of the tree: each process at level [d] is followed by the listings
    of its children, one after the other. *)
Inductive preorder (ps : list Process) : nat -> nat -> list (nat * nat) -> Prop :=
| preorder_node i d ls : Forall2 (fun c l => preorder ps c (S d) l) (kids ps i) ls -> preorder ps i d ((i, d) :: mjoin ls).

Section Find.

Lemma find_from_spec i v ps j : find_from i v ps = Some j ->
  (i <= j < i + length ps)%nat /\ exists p, ps !! (j - i)%nat = Some p /\ pid p = v.
Proof.
  revert i. induction ps as [|p ps IH]; intros i; simpl; [done|]. case_match eqn:Hp.
  - intros [= <-]. apply Z.eqb_eq in Hp. split; [lia|]. exists p. by rewrite Nat.sub_diag.
  - intros Hf. destruct (IH _ Hf) as (Hr & q & Hq & Hv). split; [lia|]. exists q.
    replace (j - i)%nat with (S (j - S i)) by lia. done.
Qed.

(** Only the identifiers matter. *)
Lemma find_from_pids i v ps ps' : pid <$> ps = pid <$> ps' -> find_from i v ps = find_from i v ps'.
Proof.
  revert i ps'. induction ps as [|p ps IH]; intros i [|p' ps'] He; simplify_eq/=; [done|].
  rewrite H. case_match; [done|]. by apply IH.
Qed.

Lemma parent_of_lt ps i j : parent_of ps i = Some j -> (i < length ps /\ j < length ps)%nat.
Proof.
  unfold parent_of. destruct (ps !! i) eqn:Hi; simpl; [|done]. case_match; [|done]. intros Hf.
  apply find_from_spec in Hf. apply lookup_lt_Some in Hi. lia.
Qed.

(** Linking changes the children alone. *)
Definition same_fields (ps ps' : list Process) : Prop :=
  ((fun p => (pid p, ppid p, cmd p)) <$> ps) = ((fun p => (pid p, ppid p, cmd p)) <$> ps').

Lemma same_fields_lookup ps ps' i p : same_fields ps ps' -> ps !! i = Some p ->
  exists p', ps' !! i = Some p' /\ pid p' = pid p /\ ppid p' = ppid p /\ cmd p' = cmd p.
Proof.
  intros He Hi. assert (Hl := f_equal (fun l => l !! i) He). simpl in Hl. rewrite !list_lookup_fmap, Hi in Hl.
  destruct (ps' !! i) as [p'|]; simplify_eq/=. by exists p'.
Qed.

Lemma same_fields_pids ps ps' : same_fields ps ps' -> pid <$> ps = pid <$> ps'.
Proof.
  intros He. assert (Hm := f_equal (fmap (fun x => x.1.1)) He). by rewrite <-!list_fmap_compose in Hm.
Qed.

Lemma same_fields_length ps ps' : same_fields ps ps' -> length ps = length ps'.
Proof. intros He. apply (f_equal length) in He. by rewrite !length_fmap in He. Qed.

Lemma same_fields_parent ps ps' i : same_fields ps ps' -> parent_of ps i = parent_of ps' i.
Proof.
  intros He. unfold parent_of. destruct (ps !! i) as [p|] eqn:Hi; simpl.
  - destruct (same_fields_lookup _ _ _ _ He Hi) as (p' & -> & _ & Hpp & _). simpl. rewrite Hpp. unfold find_process.
    by rewrite (find_from_pids _ _ _ _ (same_fields_pids _ _ He)).
  - apply lookup_ge_None in Hi. rewrite (same_fields_length _ _ He) in Hi. by rewrite (proj2 (lookup_ge_None _ _)).
Qed.

Lemma fmap_alter_same {A B} (g : A -> B) (f : A -> A) i (l : list A) :
  (forall x, g (f x) = g x) -> g <$> alter f i l = g <$> l.
Proof.
  intros Hg. revert i. induction l as [|x l IH]; intros [|i]; [done|done| |]; cbn.
  - by rewrite Hg.
  - f_equal. apply IH.
Qed.

Lemma link_fields ps i : same_fields ps (link ps i).
Proof.
  unfold link. destruct (ps !! i); [|done]. case_match; [|done]. case_match; [|done]. unfold add_child, same_fields.
  symmetry. apply fmap_alter_same. intros q. by case_match.
Qed.

(** After the first [n] turns each process has its children among the first
    [n], as long as none has more than the array holds. *)
Definition linked (n : nat) (ps0 ps : list Process) : Prop :=
  same_fields ps0 ps /\
  forall i p, ps !! i = Some p -> children p = filter (fun j => parent_of ps0 j = Some i) (seq 0 n).

Lemma linked_step n ps0 ps : (n < length ps0)%nat -> Z.of_nat (length ps0) <= MAX_PROCESSES ->
  linked n ps0 ps -> linked (S n) ps0 (link ps n).
Proof.
  intros Hn Hmax [Hsame Hch].
  assert (Hsame' : same_fields ps0 (link ps n)) by (etrans; [exact Hsame|apply link_fields]).
  split; [done|]. intros i p Hp. rewrite seq_S, filter_app. cbn [Nat.add].
  assert (Hpar : parent_of ps0 n = parent_of ps n) by by apply same_fields_parent.
  assert (Hlink : link ps n = match parent_of ps n with Some parent => add_child parent n ps | None => ps end).
  { unfold link, parent_of. destruct (ps !! n); simpl; [|done]. by case_match. }
  rewrite Hlink in Hp. rewrite filter_cons, filter_nil, Hpar. destruct (parent_of ps n) as [parent|] eqn:Hpn.
  - unfold add_child in Hp. destruct (decide (parent = i)) as [->|Hne].
    + rewrite list_lookup_alter_eq in Hp. destruct (ps !! i) as [q|] eqn:Hq; simplify_eq/=.
      rewrite decide_True by done. rewrite <-(Hch _ _ Hq). case_match eqn:Hlen; [done|].
      apply Z.ltb_ge in Hlen. rewrite (Hch _ _ Hq) in Hlen. pose proof (length_filter (fun j => parent_of ps0 j = Some i) (seq 0 n)) as Hf.
      rewrite length_seq in Hf. lia.
    + rewrite list_lookup_alter_ne in Hp by done. rewrite decide_False by congruence. rewrite app_nil_r. by apply Hch.
  - rewrite decide_False by done. rewrite app_nil_r. by apply Hch.
Qed.

Lemma build_links ps : Z.of_nat (length ps) <= MAX_PROCESSES -> (forall p, p ∈ ps -> children p = []) ->
  same_fields ps (build_process_tree ps) /\
  forall i p, build_process_tree ps !! i = Some p -> children p = kids ps i.
Proof.
  intros Hmax Hnil. unfold build_process_tree. assert (H : forall n, (n <= length ps)%nat -> linked n ps (foldl link ps (seq 0 n))).
  { induction n as [|n IH]; intros Hn.
    - split; [done|]. intros i p Hp. by apply Hnil, list_elem_of_lookup_2 with i.
    - rewrite seq_S, foldl_app. apply linked_step; [lia|done|]. apply IH. lia. }
  destruct (H (length ps)) as [Hs Hc]; [lia|]. by split.
Qed.

(** ** Generations *)

Lemma up_add ps a b i : up ps (a + b) i = up ps a i ≫= up ps b.
Proof. revert i. induction a as [|a IH]; intros i; simpl; [done|]. destruct (parent_of ps i); simpl; [apply IH|done]. Qed.

Lemma up_root_unique ps a b i r : parent_of ps r = None -> up ps a i = Some r -> up ps b i = Some r -> a = b.
Proof.
  intros Hr. assert (H : forall a b, (a < b)%nat -> up ps a i = Some r -> up ps b i = Some r -> False).
  { clear a b. intros a b Hlt Ha Hb. replace b with (a + S (b - a - 1))%nat in Hb by lia.
    rewrite up_add, Ha in Hb. simpl in Hb. by rewrite Hr in Hb. }
  intros Ha Hb. destruct (lt_eq_lt_dec a b) as [[Hlt| ->]|Hlt]; [|done|]; exfalso; eauto.
Qed.

Lemma up_lt ps d i j : (i < length ps)%nat -> up ps d i = Some j -> (j < length ps)%nat.
Proof.
  revert i. induction d as [|d IH]; intros i Hi; simpl; [by intros [= <-]|].
  destruct (parent_of ps i) eqn:Hp; simpl; [|done]. apply IH. by eapply parent_of_lt.
Qed.

(** A process that descends from a root does so in fewer generations than there
    are processes: its ancestors are all different. *)
Lemma generations_bound ps d i r : parent_of ps r = None -> (i < length ps)%nat -> up ps d i = Some r -> (d < length ps)%nat.
Proof.
  intros Hr Hi Hd.
  assert (Hsome : forall k, (k <= d)%nat -> is_Some (up ps k i)).
  { intros k Hk. replace d with (k + (d - k))%nat in Hd by lia. rewrite up_add in Hd. by destruct (up ps k i). }
  pose (anc k := default 0%nat (up ps k i)).
  assert (Hnd : NoDup (anc <$> seq 0 (S d))).
  { apply NoDup_fmap_2_strong; [|apply NoDup_seq]. intros a b Ha Hb He.
    apply elem_of_seq in Ha, Hb. destruct (Hsome a) as [x Hx], (Hsome b) as [y Hy]; [lia..|].
    unfold anc in He. rewrite Hx, Hy in He. simpl in He. subst y.
    assert (Hxa : up ps (d - a) x = Some r). { replace d with (a + (d - a))%nat in Hd by lia. by rewrite up_add, Hx in Hd. }
    assert (Hxb : up ps (d - b) x = Some r). { replace d with (b + (d - b))%nat in Hd by lia. by rewrite up_add, Hy in Hd. }
    pose proof (up_root_unique _ _ _ _ _ Hr Hxa Hxb). lia. }
  assert (Hsub : (anc <$> seq 0 (S d)) ⊆ seq 0 (length ps)).
  { intros x Hx. apply list_elem_of_fmap in Hx as (k & -> & Hk). apply elem_of_seq in Hk. apply elem_of_seq.
    destruct (Hsome k) as [y Hy]; [lia|]. unfold anc. rewrite Hy. simpl. pose proof (up_lt _ _ _ _ Hi Hy). lia. }
  pose proof (NoDup_submseteq _ _ Hnd Hsub) as Hle. apply submseteq_length in Hle.
  rewrite length_fmap, !length_seq in Hle. lia.
Qed.
End Find.

(** ** What is printed *)

Fixpoint listing (fuel : nat) (ps : list Process) (i level : nat) : list (nat * nat) :=
  match fuel with
  | O => []
  | S fuel => (i, level) :: (kids ps i ≫= fun c => listing fuel ps c (S level))
  end.

Definition text_of (ps : list Process) (l : list (nat * nat)) : cstr :=
  l ≫= fun x => match ps !! x.1 with Some p => process_line x.2 p | None => [] end.

Lemma text_of_app ps l l' : text_of ps (l ++ l') = text_of ps l ++ text_of ps l'.
Proof. apply bind_app. Qed.

Lemma text_of_bind {B} ps (l : list B) (f : B -> list (nat * nat)) : text_of ps (l ≫= f) = l ≫= fun x => text_of ps (f x).
Proof. induction l as [|x l IH]; [done|]. by rewrite !bind_cons, text_of_app, IH. Qed.

Lemma kids_spec ps i c : c ∈ kids ps i <-> parent_of ps c = Some i.
Proof.
  unfold kids. rewrite list_elem_of_filter, elem_of_seq. split; [by intros []|]. intros Hp. split; [done|].
  apply parent_of_lt in Hp. lia.
Qed.

Section Printing.
Context {K : Type}.
Implicit Types (s : proc K).
Context (ps : list Process) (r : nat).
Hypothesis linked_up : forall i p, ps !! i = Some p -> children p = kids ps i.
Hypothesis root : parent_of ps r = None.

(** Process [i] at this level, with enough fuel for all below it. *)
Definition placed (fuel i level : nat) : Prop :=
  (i < length ps)%nat /\ up ps level i = Some r /\ (length ps <= fuel + level)%nat.

Lemma placed_fuel fuel i level : placed fuel i level -> exists fuel', fuel = S fuel'.
Proof.
  intros (Hi & Hu & Hf). pose proof (generations_bound _ _ _ _ root Hi Hu). destruct fuel; [lia|by eexists].
Qed.

Lemma placed_child fuel i level c : placed (S fuel) i level -> c ∈ kids ps i -> placed fuel c (S level).
Proof.
  intros (Hi & Hu & Hf) Hc%kids_spec. split; [exact (proj1 (parent_of_lt _ _ _ Hc))|]. split; [|lia]. simpl. rewrite Hc. exact Hu.
Qed.

Definition printed (t : cstr) s : proc K := set_out (out_pending s ++ t) (out_done s) s.

Lemma for_each_prints {B} (l : list B) (body : B -> M (proc K) unit) (text : B -> cstr) s :
  (forall x s', x ∈ l -> body x s' = Ret tt (printed (text x) s')) ->
  for_each l body s = Ret tt (printed (l ≫= text) s).
Proof.
  revert s. induction l as [|x l IH]; intros s Hb; cbn [for_each].
  - unfold ret, printed. cbn. rewrite app_nil_r. by destruct s.
  - unfold bind. rewrite Hb by left. rewrite IH by (intros; apply Hb; by right).
    unfold printed. cbn. by rewrite app_assoc.
Qed.

Lemma print_run fuel i level s : placed fuel i level ->
  print_process_tree fuel ps i level s = Ret tt (printed (text_of ps (listing fuel ps i level)) s).
Proof.
  revert i level s. induction fuel as [|fuel IH]; intros i level s Hp.
  { destruct (placed_fuel _ _ _ Hp) as [? [=]]. }
  cbn [print_process_tree listing]. destruct (lookup_lt_is_Some_2 ps i) as [p Hi]; [apply Hp|]. rewrite Hi.
  unfold bind, putout, modify. rewrite (linked_up _ _ Hi).
  rewrite (for_each_prints _ _ (fun c => text_of ps (listing fuel ps c (S level)))).
  - rewrite <-text_of_bind. unfold printed. cbn. rewrite Hi, <-app_assoc. done.
  - intros c s' Hc. apply IH. by eapply placed_child.
Qed.

Lemma listing_preorder fuel i level : placed fuel i level -> preorder ps i level (listing fuel ps i level).
Proof.
  revert i level. induction fuel as [|fuel IH]; intros i level Hp.
  { destruct (placed_fuel _ _ _ Hp) as [? [=]]. }
  cbn [listing]. assert (Hall : forall c, c ∈ kids ps i -> preorder ps c (S level) (listing fuel ps c (S level))).
  { intros c Hc. apply IH. by eapply placed_child. }
  replace (kids ps i ≫= _) with (mjoin ((fun c => listing fuel ps c (S level)) <$> kids ps i)).
  - constructor. revert Hall. generalize (kids ps i) as cs. induction cs as [|c cs IHc]; intros Hall; [constructor|].
    constructor; [apply Hall; left|]. apply IHc. intros; apply Hall; by right.
  - generalize (kids ps i) as cs. induction cs as [|c cs IHc]; [done|]. cbn. by f_equal.
Qed.

Lemma listing_elem fuel i level j e : placed fuel i level ->
  (j, e) ∈ listing fuel ps i level <-> exists m, e = (level + m)%nat /\ up ps m j = Some i /\ (j < length ps)%nat.
Proof.
  revert i level. induction fuel as [|fuel IH]; intros i level Hp.
  { destruct (placed_fuel _ _ _ Hp) as [? [=]]. }
  cbn [listing]. rewrite elem_of_cons, list_elem_of_bind. split.
  - intros [He|(c & Hin & Hc)]; simplify_eq.
    + exists 0%nat. split; [lia|]. split; [done|apply Hp].
    + pose proof (placed_child _ _ _ _ Hp Hc) as Hpc. apply (IH _ _ Hpc) in Hin as (m & -> & Hm & Hj).
      exists (m + 1)%nat. split; [lia|]. split; [|done]. rewrite up_add, Hm. simpl. apply kids_spec in Hc. by rewrite Hc.
  - intros (m & -> & Hm & Hj). destruct m as [|m]; [left; simpl in Hm; simplify_eq; by rewrite Nat.add_0_r|]. right.
    replace (S m) with (m + 1)%nat in Hm by lia. rewrite up_add in Hm. destruct (up ps m j) as [c|] eqn:Hc; [|done].
    simpl in Hm. destruct (parent_of ps c) as [i'|] eqn:Hpc; simplify_eq/=. assert (Hkid : c ∈ kids ps i) by by apply kids_spec.
    exists c. split; [|done]. apply IH; [by eapply placed_child|]. exists m. split; [lia|done].
Qed.

Lemma listing_NoDup fuel i level : placed fuel i level -> NoDup (listing fuel ps i level).*1.
Proof.
  assert (Hroot : forall fuel i level j e, placed fuel i level -> (j, e) ∈ listing fuel ps i level -> up ps e j = Some r).
  { clear fuel i level. intros fuel i level j e Hp Hin. apply listing_elem in Hin as (m & -> & Hm & _); [|done].
    rewrite Nat.add_comm, up_add, Hm. apply Hp. }
  intros Hp. apply NoDup_fmap_2_strong.
  { intros [j e] [j' e'] H1 H2 He. simpl in He. subst j'. f_equal.
    eapply up_root_unique; [exact root|by eapply Hroot|by eapply Hroot]. }
  revert i level Hp. induction fuel as [|fuel IH]; intros i level Hp; [constructor|].
  cbn [listing]. constructor.
  - intros (c & Hin & Hc)%list_elem_of_bind. apply listing_elem in Hin as (m & He & _); [lia|by eapply placed_child].
  - apply NoDup_bind.
    + intros c c' [j e] Hc Hc' Hin Hin'. apply listing_elem in Hin as (m & He & Hm & _); [|by eapply placed_child].
      apply listing_elem in Hin' as (m' & He' & Hm' & _); [|by eapply placed_child].
      assert (m = m') by lia. congruence.
    + intros c Hc. apply IH. by eapply placed_child.
    + apply NoDup_filter, NoDup_seq.
Qed.
End Printing.

(** ** What the files say *)

(** What fgets takes from a file with room for [n] characters: up to a newline,
    or [n] of them, or all that is left. *)
Definition fgets_piece (n : nat) (line rest : cstr) : Prop :=
  line <> [] /\ (length line <= n)%nat /\
  ((exists l, line = l ++ [NEWLINE] /\ NEWLINE ∉ l) \/ NEWLINE ∉ line /\ (length line = n \/ rest = [])).

(** The number after the first piece that starts with PPid:, or -1. *)
Inductive parent_said : cstr -> Z -> Prop :=
| said_nowhere : parent_said [] (-1)
| said_here line rest r :
    fgets_piece 255 line rest -> string_in line = lit "PPid:" ++ r -> parent_said (line ++ rest) (atoi r)
| said_later line rest v :
    fgets_piece 255 line rest -> (forall r, string_in line <> lit "PPid:" ++ r) -> parent_said rest v ->
    parent_said (line ++ rest) v.

(** The first 1023 characters with blanks for nulls. *)
Definition blanked (content cmd : cstr) : Prop :=
  length cmd = Nat.min 1023 (length content) /\
  forall i c, (i < 1023)%nat -> content !! i = Some c -> cmd !! i = Some (if bool_decide (c = NUL) then " "%char else c).

(** The string in a line, without the newline at its end. *)
Definition without_newline (line cmd : cstr) : Prop :=
  string_in line = cmd ++ [NEWLINE] \/ string_in line = cmd /\ last cmd <> Some NEWLINE.

Lemma take_line_piece n input line rest : take_line (S n) input = (line, rest) -> input <> [] ->
  input = line ++ rest /\ fgets_piece (S n) line rest.
Proof.
  intros Ht Hi. pose proof (take_line_app (S n) input) as Ha. pose proof (take_line_nil n input) as Hn.
  pose proof (take_line_length (S n) input) as Hlen. rewrite Ht in Ha, Hn, Hlen. cbn [fst snd] in *. split; [done|].
  split; [tauto|]. split; [done|]. clear Ha Hn Hlen Hi. revert n input line rest Ht.
  enough (H : forall n input line rest, take_line n input = (line, rest) ->
    (exists l, line = l ++ [NEWLINE] /\ NEWLINE ∉ l) \/ NEWLINE ∉ line /\ (length line = n \/ rest = [])) by eauto.
  induction n as [|n IH]; intros [|c input] line rest; simpl; intros Ht; simplify_eq;
    try (right; split; [by apply not_elem_of_nil|by auto]).
  case_bool_decide as Hc; simplify_eq/=; [left; exists []; split; [done|by apply not_elem_of_nil]|].
  destruct (take_line n input) as [l r] eqn:Hl. simplify_eq. destruct (IH _ _ _ Hl) as [(l' & -> & Hn)|[Hn Hr]]; [left|right].
  - exists (c :: l'). split; [done|]. by rewrite not_elem_of_cons.
  - rewrite not_elem_of_cons. split; [done|]. simpl. destruct Hr as [->|]; auto.
Qed.

Lemma ppid_line_said fuel input : (length input < fuel)%nat -> exists v, ppid_line fuel input = Some v /\ parent_said input v.
Proof.
  revert input. induction fuel as [|fuel IH]; intros input Hf; [lia|]. cbn [ppid_line].
  change (Z.to_nat MAX_LINE_LEN - 1)%nat with (S 254). destruct (take_line (S 254) input) as [line rest] eqn:Hl.
  destruct (decide (input = [])) as [->|Hne]; [simplify_eq/=; exists (-1); split; [done|constructor]|].
  destruct (take_line_piece _ _ _ _ Hl Hne) as [-> Hpiece]. pose proof (take_line_shorter _ _ _ _ Hl Hne).
  destruct line as [|c line]; [by destruct Hpiece|]. destruct (strncmp_prefix (lit "PPid:") (string_in (c :: line))) eqn:Hp.
  - apply strncmp_prefix_spec in Hp as [r Hr]. eexists. split; [done|]. rewrite Hr. change 5%nat with (length (lit "PPid:")).
    rewrite drop_app_length. by eapply said_here.
  - destruct (IH rest) as (v & Hv & Hsaid); [lia|]. exists v. split; [done|]. apply said_later; [done| |done].
    intros r Hr. assert (Ht : strncmp_prefix (lit "PPid:") (string_in (c :: line)) = true) by (apply strncmp_prefix_spec; eauto).
    congruence.
Qed.

(** A piece is what fgets takes. *)
Lemma fgets_piece_line n line rest : fgets_piece n line rest -> take_line n (line ++ rest) = (line, rest).
Proof.
  intros (_ & Hlen & Hp). revert n Hlen Hp. induction line as [|c line IH]; intros n Hlen Hp.
  - destruct Hp as [([|? ?] & ? & _)|[_ [<- | ->]]]; [done|done|by destruct rest|by destruct n].
  - destruct n as [|n]; [simpl in Hlen; lia|]. simpl in Hlen |- *. case_bool_decide as Hc.
    + subst c. destruct Hp as [(l & He & Hn)|[Hn _]]; [|by rewrite elem_of_cons in Hn; destruct Hn; left].
      destruct l as [|d l]; simplify_eq/=; [done|]. destruct Hn. by left.
    + rewrite IH; [done|lia|]. destruct Hp as [(l & He & Hn)|[Hn Hr]].
      * left. destruct l as [|d l]; simplify_eq/=. exists l. rewrite not_elem_of_cons in Hn. tauto.
      * right. rewrite not_elem_of_cons in Hn. split; [tauto|]. destruct Hr as [Hr|Hr]; [left; simpl in Hr; lia|by right].
Qed.

(** A file says one number. *)
Lemma parent_said_line content v fuel : parent_said content v -> (length content < fuel)%nat -> ppid_line fuel content = Some v.
Proof.
  intros Hs. revert fuel. induction Hs as [|line rest r Hp Hr|line rest v Hp Hr Hs IH]; intros fuel Hf; (destruct fuel as [|fuel]; [lia|]); [done|..];
    cbn [ppid_line]; change (Z.to_nat MAX_LINE_LEN - 1)%nat with 255%nat; rewrite (fgets_piece_line _ _ _ Hp);
    (destruct line as [|c line]; [by destruct Hp|]).
  - rewrite (proj2 (strncmp_prefix_spec _ _)) by eauto. rewrite Hr. change 5%nat with (length (lit "PPid:")).
    by rewrite drop_app_length.
  - destruct (strncmp_prefix _ _) eqn:He; [apply strncmp_prefix_spec in He as [r He]; by destruct (Hr r)|].
    apply IH. rewrite length_app in Hf. simpl in Hf. lia.
Qed.

(** ** The whole program *)

(** A call of this program. *)
Inductive proc_call {K} `{OS : ProcFS K} : K -> K -> Prop :=
| call_opendir k name : proc_call k (os_opendir k name).1
| call_readdir k : proc_call k (os_readdir k).1
| call_malloc k : proc_call k (os_malloc k).1
| call_file k name : proc_call k (os_file k name).1.

(** The entries that the directory has still to give; process 1 has no parent. *)
Class ProcLaws (K : Type) {OS : ProcFS K} := {
  entries : K -> list (cstr * bool);
  pl_opendir k name : entries (os_opendir k name).1 = entries k;
  pl_readdir k : match os_readdir k with
    | (k', Some e) => entries k = e :: entries k'
    | (k', None) => entries k = [] /\ entries k' = []
    end;
  pl_malloc k : entries (os_malloc k).1 = entries k;
  pl_file k name : entries (os_file k name).1 = entries k;
  pl_init k content v : (os_file k (pid_path 1 "status")).2 = inr content -> parent_said content v -> v <= 0
}.

Section Main.
Context `{ET : ErrnoText} {K : Type} {OS : ProcFS K} {PL : ProcLaws K}.
Implicit Types (s : proc K).

(** What the files of a process give when the kernel is [k]. *)
Definition parent_read (k : K) (v ppid : Z) : Prop :=
  match (os_file k (pid_path v "status")).2 with inl _ => ppid = -1 | inr content => parent_said content ppid end.

Inductive command_read (k : K) (v : Z) : cstr -> Prop :=
| command_hidden k' e : os_file k (pid_path v "cmdline") = (k', inl e) -> command_read k v (lit "[unknown]")
| command_args k' content cmd : os_file k (pid_path v "cmdline") = (k', inr content) -> content <> [] ->
    blanked content cmd -> command_read k v cmd
| command_name k' line rest cmd : os_file k (pid_path v "cmdline") = (k', inr []) ->
    (os_file k' (pid_path v "comm")).2 = inr (line ++ rest) -> fgets_piece 1023 line rest ->
    without_newline line cmd -> command_read k v cmd
| command_nameless k' : os_file k (pid_path v "cmdline") = (k', inr []) ->
    (forall comm, (os_file k' (pid_path v "comm")).2 = inr comm -> comm = []) -> command_read k v (lit "[unknown]").

(** A directory whose name has digits only. *)
Definition process_entry (e : cstr * bool) : Prop := e.2 = true /\ Forall (fun c => isdigit c = true) e.1.

(** The processes that reading the entries from [k] on gives: one for each
    entry of a process, in their order, except those whose parent is not found
    when it is looked for, with the parent and then the command that the files
    say at moments one after the other. *)
Inductive gathered_from : K -> list (cstr * bool) -> list Process -> Prop :=
| gathered_none k : gathered_from k [] []
| gathered_other k e es ps : ~ process_entry e -> gathered_from k es ps -> gathered_from k (e :: es) ps
| gathered_gone k k1 e es ps : process_entry e -> rtc proc_call k k1 -> parent_read k1 (atoi e.1) (-1) ->
    gathered_from k1 es ps -> gathered_from k (e :: es) ps
| gathered_one k k1 k2 e es ps parent cmd : process_entry e ->
    rtc proc_call k k1 -> parent_read k1 (atoi e.1) parent -> parent <> -1 ->
    rtc proc_call k1 k2 -> command_read k2 (atoi e.1) cmd ->
    gathered_from k2 es ps -> gathered_from k (e :: es) (Proc_ (atoi e.1) parent cmd [] :: ps).

Lemma gathered_later k k' es ps : rtc proc_call k k' -> gathered_from k' es ps -> gathered_from k es ps.
Proof.
  intros Hk Hg. revert k Hk. induction Hg; intros k0 Hk; [constructor|apply gathered_other; auto| |].
  - eapply gathered_gone; [done| |done|done]. by etrans.
  - eapply gathered_one; [done| |done..]. by etrans.
Qed.

Lemma is_pid_spec name : is_pid name = true <-> Forall (fun c => isdigit c = true) name.
Proof.
  induction name as [|c name IH]; simpl; [done|]. rewrite Forall_cons. destruct (isdigit c); simpl; [rewrite IH; tauto|].
  split; [done|]. by intros [].
Qed.

Lemma process_entry_spec name is_dir : is_dir && is_pid name = true <-> process_entry (name, is_dir).
Proof. unfold process_entry. simpl. by rewrite andb_true_iff, is_pid_spec. Qed.

(** Nothing is printed, and no entry is read. *)
Definition quiet s s' : Prop :=
  out_pending s' = out_pending s /\ out_done s' = out_done s /\ entries (kern s') = entries (kern s) /\
  rtc proc_call (kern s) (kern s').

Lemma wp_file (path : cstr) (Q : option cstr -> proc K -> Prop) E s :
  (forall r s', quiet s s' -> (match r with Some c => os_file (kern s) path = (kern s', inr c)
     | None => exists e, os_file (kern s) path = (kern s', inl e) end) -> Q r s') ->
  wp (syscall (fun k => os_file k path)) Q E s.
Proof.
  intros HQ. pose proof (pl_file (kern s) path) as He. pose proof (call_file (kern s) path) as Hc.
  apply wp_syscall; intros k r Hk; rewrite Hk in He, Hc; apply HQ; eauto; split_and!; try done; by apply rtc_once.
Qed.

Lemma quiet_trans s1 s2 s3 : quiet s1 s2 -> quiet s2 s3 -> quiet s1 s3.
Proof. intros (?&?&?&?) (?&?&?&?). unfold quiet. split_and!; [congruence..|by etrans]. Qed.

Lemma wp_get_ppid v (Q : Z -> proc K -> Prop) E s :
  (forall r s', quiet s s' -> parent_read (kern s) v r -> Q r s') -> wp (get_ppid v) Q E s.
Proof.
  intros HQ. unfold parent_read in HQ. apply wp_bind, wp_file. intros [content|] s' Hq Hc.
  - destruct (ppid_line_said (S (length content)) content) as (r & Hr & Hs); [lia|]. rewrite Hr.
    apply wp_ret, HQ; [done|]. by rewrite Hc.
  - destruct Hc as [e Hc]. apply wp_ret, HQ; [done|]. by rewrite Hc.
Qed.

Lemma snprintf_cmd t : (length t <= 1023)%nat -> snprintf MAX_CMD_LEN t = t.
Proof. intros Ht. apply snprintf_fits. unfold strlen, MAX_CMD_LEN. lia. Qed.

Lemma strip_without line : line <> [] -> without_newline line (strip_last NEWLINE (string_in line)).
Proof.
  intros _. unfold without_newline, strip_last. destruct (last (string_in line)) as [d|] eqn:Hl; [|right; split; [done|congruence]].
  case_bool_decide as Hd; [left|right; split; [done|congruence]]. subst d. apply last_Some in Hl as [l Hl]. rewrite Hl.
  rewrite length_app. simpl. replace (length l + 1 - 1)%nat with (length l) by lia. by rewrite take_app_length.
Qed.

Lemma wp_get_cmdline v (Q : cstr -> proc K -> Prop) E s :
  (forall r s', quiet s s' -> command_read (kern s) v r -> Q r s') -> wp (get_cmdline v) Q E s.
Proof.
  intros HQ. apply wp_bind, wp_file. intros [content|] s' Hq Hc; [|destruct Hc; apply wp_ret, HQ; [done|by eapply command_hidden]].
  cbv zeta. set (buffer := _ <$> take _ content).
  assert (Hb : blanked content buffer).
  { unfold buffer. split; [by rewrite length_fmap, length_take|]. intros i c Hi Hl.
    by rewrite list_lookup_fmap, lookup_take_lt, Hl. }
  clearbody buffer.
  destruct (decide (content = [])) as [->|Hne].
  - assert (Hlen : length buffer = 0%nat) by apply Hb. destruct buffer; [|done].
    apply wp_bind, wp_file. intros r s2 Hq2 Hr.
    assert (Hnone : (forall comm, r = Some comm -> comm = []) -> command_read (kern s) v (lit "[unknown]")).
    { intros Hn. eapply command_nameless; [exact Hc|]. destruct r as [comm|]; [|destruct Hr as [e Hr]]; rewrite Hr; [|done].
      intros comm' [= <-]. by apply Hn. }
    assert (Hq3 : quiet s s2) by by eapply quiet_trans.
    destruct r as [comm|]; [|apply wp_ret, HQ; [done|by apply Hnone]].
    change (Z.to_nat MAX_CMD_LEN - 1)%nat with (S 1022). destruct (take_line (S 1022) comm) as [line rest] eqn:Hl. cbn [fst].
    destruct (decide (comm = [])) as [->|Hcn]; [simplify_eq/=; apply wp_ret, HQ; [done|apply Hnone; by intros ? [= <-]]|].
    destruct (take_line_piece _ _ _ _ Hl Hcn) as [-> Hp]. destruct line as [|c line]; [by destruct Hp|].
    apply wp_ret, HQ; [done|]. rewrite snprintf_cmd.
    + eapply command_name; [exact Hc|by rewrite Hr|exact Hp|by apply strip_without].
    + pose proof (strip_last_length NEWLINE (string_in (c :: line))). pose proof (string_in_length (c :: line)).
      destruct Hp as (_ & Hp & _). lia.
  - assert (Hlen : length buffer = Nat.min 1023 (length content)) by apply Hb.
    destruct buffer as [|c buffer]; [destruct content; [done|simpl in Hlen; lia]|].
    apply wp_ret, HQ; [done|]. rewrite snprintf_cmd by lia. by eapply command_args.
Qed.

(** Before [k] made by the program nothing failed that would end it. *)
Definition gave_up (k0 : K) : Prop :=
  exists k, rtc proc_call k0 k /\ ((exists e, (os_opendir k (lit "/proc")).2 = inl e) \/ (os_malloc k).2 = false).

Lemma gave_up_later k0 k1 : rtc proc_call k0 k1 -> gave_up k1 -> gave_up k0.
Proof. intros Hk (k & H1 & H2). exists k. split; [by etrans|done]. Qed.

Lemma wp_create_process v (Q : Process -> proc K -> Prop) (E : exit_kind -> proc K -> Prop) s :
  (forall s', out_done s' = out_done s ++ out_pending s -> gave_up (kern s) -> E EXIT_FAILURE s') ->
  (forall parent cmd s' k1 k2, quiet s s' -> rtc proc_call (kern s) k1 -> parent_read k1 v parent ->
     rtc proc_call k1 k2 -> command_read k2 v cmd -> rtc proc_call k2 (kern s') -> Q (Proc_ v parent cmd []) s') ->
  wp (create_process v) Q E s.
Proof.
  intros HE HQ. apply wp_bind, wp_syscall_. pose proof (pl_malloc (kern s)) as Hm. pose proof (call_malloc (kern s)) as Hc.
  destruct (os_malloc (kern s)).2 eqn:Hok; cbn [negb].
  - set (s0 := set_kern _ s). assert (Hq0 : quiet s s0) by (split_and!; [done|done|exact Hm|by apply rtc_once]).
    apply wp_bind, wp_get_ppid. intros parent s1 Hq1 Hp. apply wp_bind, wp_get_cmdline. intros c s2 Hq2 Hcmd.
    apply wp_ret. apply (HQ parent c s2 (kern s0) (kern s1)); [|apply Hq0|done|apply Hq1|done|apply Hq2].
    eapply quiet_trans; [|exact Hq2]. by eapply quiet_trans.
  - apply wp_bind, wp_bind, wp_get, wp_modify, wp_bind, wp_modify, wp_exit, HE; [done|]. exists (kern s). split; [done|]. by right.
Qed.

(** What scan gathers. *)
Definition gathered (ps : list Process) : Prop :=
  forall p, p ∈ ps -> children p = [] /\ ppid p <> -1 /\ (pid p = 1 -> ppid p <= 0).

Lemma init_parent k v parent : parent_read k v parent -> v = 1 -> parent <= 0.
Proof.
  unfold parent_read. intros Hp ->. destruct (os_file k (pid_path 1 "status")) as [k' [e|content]] eqn:Hk; simpl in Hp; [lia|].
  eapply (pl_init k content); [by rewrite Hk|done].
Qed.

Lemma wp_scan fuel ps (Q : list Process -> proc K -> Prop) (E : exit_kind -> proc K -> Prop) s :
  (length (entries (kern s)) < fuel)%nat -> Z.of_nat (length ps + length (entries (kern s))) <= MAX_PROCESSES ->
  gathered ps -> (forall s', out_done s' = out_done s ++ out_pending s -> gave_up (kern s) -> E EXIT_FAILURE s') ->
  (forall more s', out_pending s' = out_pending s -> out_done s' = out_done s -> gathered (ps ++ more) ->
     gathered_from (kern s) (entries (kern s)) more -> Z.of_nat (length (ps ++ more)) <= MAX_PROCESSES ->
     Q (ps ++ more) s') ->
  wp (scan fuel ps) Q E s.
Proof.
  revert ps s Q. induction fuel as [|fuel IH]; intros ps s Q Hf Hmax Hg HE HQ; [lia|]. cbn [scan].
  apply wp_bind, wp_syscall_. pose proof (pl_readdir (kern s)) as Hl. pose proof (call_readdir (kern s)) as Hcall.
  destruct (os_readdir (kern s)) as [k [[name is_dir]|]]; cbn [fst snd] in *.
  2:{ destruct Hl as [He _]. apply wp_ret. rewrite <-(app_nil_r ps). apply HQ; rewrite ?app_nil_r; try done.
      - rewrite He. constructor.
      - rewrite He in Hmax. simpl in Hmax. by rewrite Nat.add_0_r in Hmax. }
  rewrite Hl in Hf, Hmax, HQ. simpl in Hf, Hmax. apply rtc_once in Hcall.
  assert (Hgo : forall p s1, quiet (set_kern k s) s1 ->
    (forall ps', gathered_from (kern s1) (entries k) ps' -> gathered_from k ((name, is_dir) :: entries k) (p ++ ps')) ->
    (length p <= 1)%nat -> gathered (ps ++ p) -> wp (scan fuel (ps ++ p)) Q E s1).
  { intros p s1 (Hp1 & Hd1 & He1 & Hk1) Hfrom Hlen Hgp. cbn [kern set_kern out_pending out_done] in *.
    apply IH; [rewrite He1; lia|rewrite He1, length_app; lia|done| |].
    - intros s' Hs' Hgave. apply HE; [by rewrite Hs', Hp1, Hd1|]. eapply gave_up_later, Hgave. by etrans.
    - intros more s2 Hp2 Hd2 Hg2 Hs2 Hm2. rewrite <-app_assoc in *. apply HQ; try done; [by rewrite Hp2, Hp1|by rewrite Hd2, Hd1|].
      eapply gathered_later; [exact Hcall|]. apply Hfrom. by rewrite He1 in Hs2. }
  destruct (is_dir && is_pid name) eqn:Hnum.
  2:{ rewrite <-(app_nil_r ps). apply (Hgo []); [split_and!; done| |simpl; lia|by rewrite app_nil_r].
      intros ps' Hps. apply gathered_other; [|done]. rewrite <-process_entry_spec. by rewrite Hnum. }
  apply process_entry_spec in Hnum. apply wp_bind, wp_create_process.
  { intros s' Hs' Hgave. apply HE; [done|]. by eapply gave_up_later. }
  intros parent cmd s1 k1 k2 Hq Hk1 Hpar Hk2 Hcmd Hk3. cbn [ppid]. cbn [kern set_kern] in Hk1.
  destruct (Z.eqb_spec parent (-1)) as [->|Hpp]; cbn [negb].
  - rewrite <-(app_nil_r ps). apply (Hgo []); [done| |simpl; lia|by rewrite app_nil_r].
    intros ps' Hps. eapply gathered_gone; [done|exact Hk1|done|]. eapply gathered_later, Hps. by etrans.
  - rewrite (proj2 (Z.ltb_lt _ _)) by lia. apply Hgo; [done| |done|].
    + intros ps' Hps. eapply gathered_one; [done|exact Hk1|exact Hpar|done|exact Hk2|exact Hcmd|]. by eapply gathered_later.
    + intros q [Hq'|Hq'%list_elem_of_singleton]%elem_of_app; [by apply Hg|]. subst q. split_and!; [done|done|].
      by apply (init_parent k1).
Qed.

(** What is printed for the processes [ps]: process 1 and everything below it,
    each process once and as many levels in as it is generations down. *)
Definition shows_tree (ps : list Process) (text : cstr) : Prop :=
  match find_process 1 ps with
  | Some r => exists l, preorder ps r 0 l /\ NoDup l.*1 /\
      (forall j d, (j, d) ∈ l <-> up ps d j = Some r /\ (j < length ps)%nat) /\
      text = lit "Process Tree (root: init):" ++ [NEWLINE] ++ text_of ps l
  | None => text = lit "Could not find init process (PID 1)" ++ [NEWLINE]
  end.

(** Linking changes neither the generations nor the lines. *)
Lemma same_fields_kids ps ps' i : same_fields ps ps' -> kids ps i = kids ps' i.
Proof.
  intros Hs. unfold kids. rewrite (same_fields_length _ _ Hs). apply list_filter_iff. intros j.
  by rewrite (same_fields_parent _ _ j Hs).
Qed.

Lemma same_fields_listing ps ps' fuel i level : same_fields ps ps' -> listing fuel ps i level = listing fuel ps' i level.
Proof.
  intros Hs. revert i level. induction fuel as [|fuel IH]; intros i level; [done|]. cbn [listing].
  rewrite (same_fields_kids _ _ i Hs). f_equal. apply list_bind_ext; [|done]. intros c. apply IH.
Qed.

Lemma same_fields_text ps ps' l : same_fields ps ps' -> text_of ps l = text_of ps' l.
Proof.
  intros Hs. apply list_bind_ext; [|done]. intros [i d]. simpl. assert (Hs' : same_fields ps' ps) by done.
  destruct (ps !! i) as [p|] eqn:Hi.
  - destruct (same_fields_lookup _ _ _ _ Hs Hi) as (p' & -> & Hpid & _ & Hcmd). unfold process_line. by rewrite Hpid, Hcmd.
  - destruct (ps' !! i) as [p'|] eqn:Hi'; [|done]. destruct (same_fields_lookup _ _ _ _ Hs' Hi') as (p & Hp & _). congruence.
Qed.

Lemma gathered_root ps r : gathered ps -> find_process 1 ps = Some r -> parent_of ps r = None /\ (r < length ps)%nat.
Proof.
  intros Hg Hr. apply find_from_spec in Hr as (Hlt & p & Hp & Hpid). rewrite Nat.sub_0_r in Hp. split; [|lia].
  destruct (Hg p) as (_ & _ & Hinit); [by eapply list_elem_of_lookup_2|].
  unfold parent_of. rewrite Hp. simpl. rewrite (proj2 (Z.ltb_ge _ _)); [done|by apply Hinit].
Qed.

Lemma tree_printed ps s : gathered ps -> Z.of_nat (length ps) <= MAX_PROCESSES ->
  exists text, shows_tree ps text /\
    (match find_process 1 (build_process_tree ps) with
     | Some init_process =>
         putout (lit "Process Tree (root: init):" ++ [NEWLINE]) ;;;
         print_process_tree (length (build_process_tree ps)) (build_process_tree ps) init_process 0
     | None => putout (lit "Could not find init process (PID 1)" ++ [NEWLINE])
     end) s = Ret tt (printed text s).
Proof.
  intros Hg Hmax. destruct (build_links ps Hmax (fun p Hp => proj1 (Hg p Hp))) as [Hsame Hch].
  set (t := build_process_tree ps) in *. assert (Hs' : same_fields t ps) by done.
  assert (Hfind : find_process 1 t = find_process 1 ps) by exact (find_from_pids 0 1 _ _ (same_fields_pids _ _ Hs')).
  unfold shows_tree. rewrite Hfind. destruct (find_process 1 ps) as [r|] eqn:Hr; [|by eexists].
  destruct (gathered_root _ _ Hg Hr) as [Hroot Hlt].
  assert (Hpl : placed ps r (length ps) r 0) by (split; [done|]; split; [done|lia]).
  eexists. split.
  - exists (listing (length ps) ps r 0). split; [by eapply listing_preorder|]. split; [by eapply listing_NoDup|]. split; [|reflexivity].
    intros j d. rewrite (listing_elem ps r Hroot _ _ _ _ _ Hpl). split.
    + intros (m & -> & H1 & H2). done.
    + intros [H1 H2]. by exists d.
  - assert (Hkids : forall i p, t !! i = Some p -> children p = kids t i).
    { intros i p Hp. rewrite (Hch _ _ Hp). by apply same_fields_kids. }
    rewrite <-(same_fields_length _ _ Hsame).
    assert (Hplt : placed t r (length ps) r 0) by (rewrite (same_fields_length _ _ Hsame) in Hlt |- *; split; [done|]; split; [done|lia]).
    unfold bind, putout, modify.
    rewrite (print_run t r Hkids (eq_trans (same_fields_parent _ _ r Hs') Hroot) _ _ _ _ Hplt).
    rewrite (same_fields_listing _ _ _ _ _ Hs'), (same_fields_text _ _ _ Hs'). unfold printed. cbn. by rewrite <-app_assoc.
Qed.

(** C12: with at most MAX_PROCESSES entries in /proc the program always ends,
    without undefined behaviour, whatever the files say and however they change
    while they are read. Unless opendir or malloc fails, when it prints nothing,
    it gathers the processes of all numeric entries, in their order, with the
    parent and the command that their files say, except those that have gone;
    and it prints their tree: process 1 and exactly the processes that descend
    from it, each once, below its parent and as many levels in as it is
    generations away. *)
Theorem pstree_shows_tree s : (length (entries (kern s)) <= Z.to_nat MAX_PROCESSES)%nat ->
  wp (pstree_main (S (length (entries (kern s))))) (fun _ _ => False)
    (fun e s' => e = EXIT_FAILURE /\ out_done s' = out_done s ++ out_pending s /\ gave_up (kern s) \/
       e = EXIT_SUCCESS /\ exists ps text,
         gathered_from (kern s) (entries (kern s)) ps /\ shows_tree ps text /\
         out_done s' = out_done s ++ out_pending s ++ text) s.
Proof.
  intros Hmax. unfold pstree_main. pose proof (pl_opendir (kern s) (lit "/proc")) as Hd.
  pose proof (call_opendir (kern s) (lit "/proc")) as Hcall.
  apply wp_bind, wp_syscall; intros k r Hk; rewrite Hk in Hd, Hcall; simpl in Hd, Hcall; apply rtc_once in Hcall.
  { apply wp_bind, wp_bind, wp_get, wp_modify, wp_bind, wp_modify, wp_exit. left. split_and!; [done|done|].
    exists (kern s). split; [done|]. left. exists r. by rewrite Hk. }
  apply wp_bind, wp_scan; [simpl; rewrite Hd; lia|simpl; rewrite Hd; unfold MAX_PROCESSES in *; lia|by intros p Hp%elem_of_nil| |].
  { intros s' Hs' Hg. left. split_and!; [done|done|by eapply gave_up_later]. }
  intros ps s1 Hp1 Hd1 Hg Hfrom Hlen. change ([] ++ ps) with ps in *. simpl in Hp1, Hd1, Hfrom.
  destruct (tree_printed ps s1 Hg Hlen) as (text & Hshow & Hrun).
  apply wp_bind. unfold wp at 1. rewrite Hrun. apply wp_bind, wp_modify, wp_exit. right. split; [done|]. exists ps, text.
  split_and!; [|done|].
  - rewrite <-Hd. by eapply gathered_later.
  - unfold printed. cbn. by rewrite Hp1, Hd1.
Qed.
End Main.

(** ** Runs *)

(** The entries still to be read and the files, which do not change. *)
Record demo_proc := DemoProc { dp_entries : list (cstr * bool); dp_files : list (cstr * cstr) }.

Definition demo_file (k : demo_proc) (path : cstr) : option cstr :=
  snd <$> List.find (fun f => bool_decide (f.1 = path)) (dp_files k).

(** What cannot be true of process 1 is not found. *)
Definition demo_read (k : demo_proc) (path : cstr) : demo_proc * (Z + cstr) :=
  match demo_file k path with
  | Some content =>
      if bool_decide (path = pid_path 1 "status")
         && match ppid_line (S (length content)) content with Some v => 0 <? v | None => false end
      then (k, inl 2) else (k, inr content)
  | None => (k, inl 2)
  end.

#[export] Instance demo_proc_fs : ProcFS demo_proc := {|
  os_opendir k name := (k, inr tt);
  os_readdir k := match dp_entries k with [] => (k, None) | e :: es => (DemoProc es (dp_files k), Some e) end;
  os_malloc k := (k, true);
  os_file := demo_read
|}.

#[export] Instance demo_proc_laws : ProcLaws demo_proc.
Proof.
  refine {| entries := dp_entries |}; try done.
  - intros k. simpl. by destruct (dp_entries k) eqn:?.
  - intros k name. cbn [os_file demo_proc_fs]. unfold demo_read. destruct (demo_file k name); [|done]. by destruct (_ && _).
  - intros k content v. cbn [os_file demo_proc_fs]. unfold demo_read. destruct (demo_file k _) as [c|]; [|done].
    rewrite bool_decide_eq_true_2 by done. destruct (match ppid_line _ c with Some _ => _ | None => _ end) eqn:Hw; cbn [andb snd]; [done|].
    intros [= ->] Hv. rewrite (parent_said_line _ _ (S (length content)) Hv) in Hw by lia. by apply Z.ltb_ge in Hw.
Defined.

#[export] Instance demo_proc_texts : ErrnoText := {| MAX_ENAME := 0; ename _ := []; strerror _ := [] |}.

Definition status (name ppid : string) : cstr :=
  lit "Name:" ++ TAB :: lit name ++ [NEWLINE] ++ lit "PPid:" ++ TAB :: lit ppid ++ [NEWLINE].

Definition demo_pstree : proc demo_proc :=
  Proc (DemoProc
    [(lit ".", true); (lit "1", true); (lit "7", true); (lit "sys", true); (lit "9", true); (lit "12", true); (lit "13", true)]
    [(lit "/proc/1/status", status "init" "0"); (lit "/proc/1/cmdline", lit "init" ++ [NUL]);
     (lit "/proc/7/status", status "sh" "1"); (lit "/proc/7/comm", lit "sh" ++ [NEWLINE]); (lit "/proc/7/cmdline", []);
     (lit "/proc/9/status", status "ls" "12");
     (lit "/proc/12/status", status "b" "7"); (lit "/proc/12/cmdline", lit "b" ++ [NUL] ++ lit "x");
     (lit "/proc/13/status", status "lost" "99")]) 0 None [] [] [].

Lemma pstree_shows_tree_witness :
  (length (entries (kern demo_pstree)) <= Z.to_nat MAX_PROCESSES)%nat /\
  wp (pstree_main (S (length (entries (kern demo_pstree))))) (fun _ _ => False)
    (fun e s' => e = EXIT_FAILURE /\ out_done s' = out_done demo_pstree ++ out_pending demo_pstree /\ gave_up (kern demo_pstree) \/
       e = EXIT_SUCCESS /\ exists ps text,
         gathered_from (kern demo_pstree) (entries (kern demo_pstree)) ps /\ shows_tree ps text /\
         out_done s' = out_done demo_pstree ++ out_pending demo_pstree ++ text) demo_pstree.
Proof.
  assert (H : (length (entries (kern demo_pstree)) <= Z.to_nat MAX_PROCESSES)%nat).
  { unfold MAX_PROCESSES. simpl. lia. }
  split; [exact H|]. by apply (pstree_shows_tree demo_pstree).
Defined.

Example demo_tree :
  match pstree_main 8 demo_pstree with
  | Exit EXIT_SUCCESS s => out_done s =
      lit "Process Tree (root: init):" ++ [NEWLINE] ++ lit "1 init " ++ [NEWLINE] ++ lit "  7 sh" ++ [NEWLINE]
      ++ lit "    12 b x" ++ [NEWLINE] ++ lit "      9 [unknown]" ++ [NEWLINE]
  | _ => False
  end.
Proof. vm_compute. reflexivity. Qed.

(** One entry more than the array has elements. *)
Example too_many_processes :
  scan 2 (replicate (Z.to_nat MAX_PROCESSES) (Proc_ 1 0 [] []))
    (Proc (DemoProc [(lit "2", true)] [(lit "/proc/2/status", status "a" "1")]) 0 None [] [] []) = Undef.
Proof. vm_compute. reflexivity. Qed.
