(* ===== verification/TMount.v ===== *)
(** filesys/t_mount.c (src/tlpi-dist): the options of a call of mount. [getopt]
    is the list of the options it returns, and the operands. *)
From Stdlib Require Import ZArith Lia Ascii String.
From stdpp Require Import base tactics list strings.
From S2P Require Import Prelude CString Process.
#[local] Open Scope Z_scope.

Definition MS_RDONLY : Z := 1.
Definition MS_NOSUID : Z := 2.
Definition MS_NODEV : Z := 4.
Definition MS_NOEXEC : Z := 8.
Definition MS_SYNCHRONOUS : Z := 16.
Definition MS_REMOUNT : Z := 32.
Definition MS_MANDLOCK : Z := 64.
Definition MS_DIRSYNC : Z := 128.
Definition MS_NOATIME : Z := 1024.
Definition MS_NODIRATIME : Z := 2048.
Definition MS_BIND : Z := 4096.
Definition MS_MOVE : Z := 8192.
Definition MS_REC : Z := 16384.
Definition MS_UNBINDABLE : Z := Z.shiftl 1 17.
Definition MS_PRIVATE : Z := Z.shiftl 1 18.
Definition MS_SLAVE : Z := Z.shiftl 1 19.
Definition MS_SHARED : Z := Z.shiftl 1 20.
Definition MS_RELATIME : Z := Z.shiftl 1 21.

(** [source], [target], [fstype], [flags] and [data]. *)
Class MountOS (K : Type) := { os_mount : K -> cstr -> cstr -> option cstr -> Z -> option cstr -> K * (Z + unit) }.

(** The cases of the inner switch. *)
Definition mount_flags : list (ascii * Z) :=
  [("b", MS_BIND); ("d", MS_DIRSYNC); ("l", MS_MANDLOCK); ("m", MS_MOVE); ("A", MS_NOATIME); ("V", MS_NODEV);
   ("D", MS_NODIRATIME); ("E", MS_NOEXEC); ("S", MS_NOSUID); ("p", MS_PRIVATE); ("r", MS_RDONLY); ("c", MS_REC);
   ("T", MS_RELATIME); ("R", MS_REMOUNT); ("h", MS_SHARED); ("v", MS_SLAVE); ("s", MS_SYNCHRONOUS); ("u", MS_UNBINDABLE)]%char.

Section Code.
Context `{ErrnoText} {K : Type} {OS : MountOS K}.
Abbreviation PM := (M (proc K)).

(** The usage message is [text]. *)
Definition usageError {A} (text : cstr) (msg : option cstr) : PM A :=
  match msg with Some msg => puterr msg | None => ret tt end ;;;
  puterr text ;;;
  exit3 EXIT_FAILURE.

Fixpoint flag_loop (text optarg : cstr) (flags : Z) : PM Z :=
  match optarg with
  | [] => ret flags
  | c :: optarg =>
      match case_of c mount_flags with
      | Some flag => flag_loop text optarg (Z.lor flags flag)
      | None => usageError text None
      end
  end.

Fixpoint mount_options (text : cstr) (opts : list option_arg) (flags : Z) (fstype data : option cstr) :
    PM (Z * option cstr * option cstr) :=
  match opts with
  | [] => ret (flags, fstype, data)
  | Opt c optarg :: opts =>
      if bool_decide (c = "o"%char) then mount_options text opts flags fstype (Some optarg)
      else if bool_decide (c = "t"%char) then mount_options text opts flags (Some optarg) data
      else if bool_decide (c = "f"%char) then
        let! flags := flag_loop text optarg flags in mount_options text opts flags fstype data
      else usageError text None
  end.

Definition t_mount (text : cstr) (opts : list option_arg) (operands : list cstr) : PM unit :=
  let! (r, data) := mount_options text opts 0 None None in
  let '(flags, fstype) := r in
  match operands with
  | [source; target] =>
      let! m := syscall (fun k => os_mount k source target fstype flags data) in
      match m with None => errExit (lit "mount") | Some _ => exit3 EXIT_SUCCESS end
  | _ => usageError text (Some (lit "Wrong number of arguments" ++ [NEWLINE]))
  end.

End Code.

(** ** What is mounted *)

(** The letters of all options -f, and the last argument of an option. *)
Definition letters (opts : list option_arg) : cstr :=
  opts ≫= fun '(Opt c arg) => if bool_decide (c = "f"%char) then arg else [].
Fixpoint last_arg (c : ascii) (before : option cstr) (opts : list option_arg) : option cstr :=
  match opts with
  | [] => before
  | Opt c' arg :: opts => last_arg c (if bool_decide (c' = c) then Some arg else before) opts
  end.

Section Props.
Context `{ET : ErrnoText} {K : Type} {OS : MountOS K}.
Implicit Types (s : proc K).

Definition on_success (R : proc K -> Prop) (e : exit_kind) s : Prop := e = EXIT_SUCCESS -> R s.

Lemma wp_usage {A} text msg (Q : A -> proc K -> Prop) (R : proc K -> Prop) s : wp (usageError text msg) Q (on_success R) s.
Proof.
  apply wp_bind. assert (H : forall s1, wp (A := A) (puterr text ;;; exit3 EXIT_FAILURE) Q (on_success R) s1).
  { intros s1. apply wp_bind, wp_puterr. intros s2 _ _. by apply wp_exit3. }
  destruct msg; [apply wp_puterr; intros s1 _ _; apply H|apply wp_ret, H].
Qed.

Lemma wp_flag_loop text ls flags (Q : Z -> proc K -> Prop) (R : proc K -> Prop) s :
  (Forall (fun c => is_Some (case_of c mount_flags)) ls -> Q (Z.lor flags (letter_flags mount_flags ls)) s) ->
  wp (flag_loop text ls flags) Q (on_success R) s.
Proof.
  revert flags. induction ls as [|c ls IH]; intros flags HQ; cbn [flag_loop].
  - apply wp_ret. rewrite <-(Z.lor_0_r flags). by apply HQ.
  - destruct (case_of c mount_flags) as [flag|] eqn:Hc; [|apply wp_usage]. apply IH. intros Hall.
    cbn [letter_flags foldr] in HQ. rewrite Hc in HQ. cbn [default] in HQ. rewrite Z.lor_assoc in HQ. apply HQ. by constructor.
Qed.

Lemma wp_mount_options text opts flags fstype data (Q : Z * option cstr * option cstr -> proc K -> Prop) (R : proc K -> Prop) s :
  (Forall (fun c => is_Some (case_of c mount_flags)) (letters opts) ->
   Q (Z.lor flags (letter_flags mount_flags (letters opts)), last_arg "t" fstype opts, last_arg "o" data opts) s) ->
  wp (mount_options text opts flags fstype data) Q (on_success R) s.
Proof.
  revert flags fstype data. induction opts as [|[c arg] opts IH]; intros flags fstype data HQ; cbn [mount_options].
  - apply wp_ret. rewrite <-(Z.lor_0_r flags). by apply HQ.
  - cbn [last_arg] in HQ.
    destruct (decide (c = "o"%char)) as [->|Ho]; [apply IH; exact HQ|rewrite (bool_decide_eq_false_2 (c = "o"%char)) in * by done].
    destruct (decide (c = "t"%char)) as [->|Ht]; [apply IH; exact HQ|rewrite (bool_decide_eq_false_2 (c = "t"%char)) in * by done].
    destruct (decide (c = "f"%char)) as [->|Hf]; [|rewrite (bool_decide_eq_false_2 (c = "f"%char)) by done; apply wp_usage].
    apply wp_bind, wp_flag_loop. intros Hall. apply IH. intros Hall'. change (letters (Opt "f" arg :: opts)) with (arg ++ letters opts) in HQ.
    rewrite letter_flags_app, Z.lor_assoc in HQ. apply HQ. by apply Forall_app.
Qed.

Lemma mount_own_bits : own_bits mount_flags.
Proof. unfold own_bits. apply (bool_decide_unpack _). vm_compute. exact I. Qed.

(** Exactly the flags of the letters given. *)
Definition flags_asked (opts : list option_arg) (flags : Z) : Prop :=
  Forall (fun c => is_Some (case_of c mount_flags)) (letters opts) /\
  flags = letter_flags mount_flags (letters opts) /\
  forall c flag, (c, flag) ∈ mount_flags -> has_bit flags flag = true <-> c ∈ letters opts.

(** t_mount always ends, without undefined behaviour, and with success only
    when it has mounted its first operand on its second, with the type and the
    data of the last -t and -o, and each flag set exactly when its letter occurs
    in an argument of -f; every letter there is one of the program's. *)
Theorem t_mount_mounts text opts operands s :
  wp (t_mount text opts operands) (fun _ _ => False) (on_success (fun s' => exists source target flags k u,
    operands = [source; target] /\ flags_asked opts flags /\
    os_mount k source target (last_arg "t" None opts) flags (last_arg "o" None opts) = (kern s', inr u))) s.
Proof.
  apply wp_bind, wp_mount_options. intros Hall. rewrite Z.lor_0_l. destruct operands as [|source [|target [|]]]; try apply wp_usage.
  apply wp_bind, wp_syscall; intros k u Hk; [apply wp_errExit_fails; by intros e s' He _ ->|].
  apply wp_bind, wp_modify, wp_exit. intros _. exists source, target, (letter_flags mount_flags (letters opts)), (kern s), u.
  split_and!; [done| |exact Hk]. split_and!; [done|done|]. intros c flag Hc. by apply letter_flags_bit; [apply mount_own_bits|..].
Qed.
End Props.

(** ** Runs *)

#[export] Instance demo_mounts : MountOS (list (cstr * cstr * Z)) := {| os_mount k source target _ flags _ := (k ++ [(source, target, flags)], inr tt) |}.
#[export] Instance demo_mount_texts : ErrnoText := {| MAX_ENAME := 0; ename _ := []; strerror _ := [] |}.

Example read_only_bind :
  match t_mount [] [Opt "f" (lit "rb")] [lit "/a"; lit "/b"] (Proc [] 0 None [] [] []) with
  | Exit EXIT_SUCCESS s => kern s = [(lit "/a", lit "/b", 4097)]
  | _ => False
  end.
Proof. reflexivity. Qed.

(** The usage message offers L, which the program does not know. *)
Example no_lazytime :
  match t_mount [] [Opt "f" (lit "L")] [lit "/a"; lit "/b"] (Proc [] 0 None [] [] []) with
  | Exit EXIT_FAILURE s => kern s = []
  | _ => False
  end.
Proof. reflexivity. Qed.
