(* ===== verification/IpcCreate.v ===== *)
(** The programs of src/tlpi-dist that create one object of System V IPC
    (svshm/svshm_create.c, svsem/svsem_create.c, svmsg/svmsg_create.c) or of
    POSIX IPC (pmsg/pmsg_create.c, psem/psem_create.c, pshm/pshm_create.c).
    [getopt] is the list of the options it returns, and the operands. *)
From Stdlib Require Import ZArith Lia Ascii String.
From stdpp Require Import base tactics list strings.
From S2P Require Import Prelude CString Process NumArgs.
#[local] Open Scope Z_scope.

Definition IPC_CREAT : Z := 512.
Definition IPC_EXCL : Z := 1024.
Definition IPC_PRIVATE : Z := 0.
Definition O_RDWR : Z := 2.
Definition O_CREAT : Z := 64.
Definition O_EXCL : Z := 128.
(** S_IRUSR | S_IWUSR *)
Definition owner_rw : Z := Z.lor 256 128.

(** What is asked of the kernel. *)
Inductive request :=
| ShmGet (key size flags : Z)
| SemGet (key nsems flags : Z)
| MsgGet (key flags : Z)
| MqOpen (name : cstr) (flags perms : Z) (attr : option (Z * Z))
| SemOpen (name : cstr) (flags perms value : Z)
| ShmOpen (name : cstr) (flags perms : Z)
| Ftruncate (fd size : Z)
| Mmap (size fd : Z).

Class IpcOS (K : Type) := {
  os_ftok : K -> cstr -> Z -> K * (Z + Z);
  os_request : K -> request -> K * (Z + Z)
}.

Section Code.
Context `{ErrnoText} {K : Type} {OS : IpcOS K}.
Abbreviation PM := (M (proc K)).

(** The usage messages are the [text] of each program. *)
Definition usageError {A} (text : cstr) (msg : option cstr) : PM A :=
  match msg with Some msg => puterr msg | None => ret tt end ;;;
  puterr text ;;;
  exit3 EXIT_FAILURE.

(** [sscanf(arg, "%li", &lkey)]; [None] when it does not return 1. *)
Definition scan_li (arg : cstr) : option Z :=
  let '(v, rest, _) := strtol arg 0 in
  if bool_decide (rest = arg) then None else Some v.

(** ** System V: the options *)

(** [numKeyFlags], [flags] and [key], which is not set at first. *)
Fixpoint sysv_options (text : cstr) (bad : option cstr) (opts : list option_arg)
    (numKeyFlags flags : Z) (key : option Z) : PM (Z * Z * option Z) :=
  match opts with
  | [] => ret (numKeyFlags, flags, key)
  | Opt c optarg :: opts =>
      if bool_decide (c = "c"%char) then sysv_options text bad opts numKeyFlags (Z.lor flags IPC_CREAT) key
      else if bool_decide (c = "f"%char) then
        let! r := syscall (fun k => os_ftok k optarg 1) in
        match r with
        | None => errExit (lit "ftok")
        | Some key => sysv_options text bad opts (numKeyFlags + 1) flags (Some key)
        end
      else if bool_decide (c = "k"%char) then
        match scan_li optarg with
        | None => cmdLineErr (lit "-k option requires a numeric argument" ++ [NEWLINE])
        | Some lkey => sysv_options text bad opts (numKeyFlags + 1) flags (Some (to_signed 32 lkey))
        end
      else if bool_decide (c = "p"%char) then sysv_options text bad opts (numKeyFlags + 1) flags (Some IPC_PRIVATE)
      else if bool_decide (c = "x"%char) then sysv_options text bad opts numKeyFlags (Z.lor flags IPC_EXCL) key
      else usageError text bad
  end.

Definition one_key (text : cstr) (bad : option cstr) (opts : list option_arg) : PM (Z * Z) :=
  let! (n, key) := sysv_options text bad opts 0 0 None in
  let '(numKeyFlags, flags) := n in
  when (negb (numKeyFlags =? 1)) (usageError text
    (Some (lit "Exactly one of the options -f, -k, or -p must be supplied" ++ [NEWLINE]))) ;;;
  match key with None => undef | Some key => ret (flags, key) end.

(** [(there is none) ? (S_IRUSR | S_IWUSR) : getInt(..., GN_BASE_8, "octal-perms")] as
    an unsigned int. *)
Definition octal_perms (operand : option cstr) : PM Z :=
  match operand with
  | None => ret owner_rw
  | Some operand =>
      let! perms := getInt (Some operand) GN_BASE_8 (Some (lit "octal-perms")) in
      ret (to_unsigned 32 perms)
  end.

(** The call, and the identifier. *)
Definition get_and_show (r : request) (name : string) : PM unit :=
  let! id := syscall (fun k => os_request k r) in
  match id with
  | None => errExit (lit name)
  | Some id => putout (show_Z id ++ [NEWLINE]) ;;; exit3 EXIT_SUCCESS
  end.

(** Bits of [flags | perms] as an int. *)
Definition or_perms (flags perms : Z) : Z := to_signed 32 (Z.lor flags perms).

Definition svshm_create (text : cstr) (opts : list option_arg) (operands : list cstr) : PM unit :=
  let! (flags, key) := one_key text None opts in
  match operands with
  | [] => usageError text (Some (lit "Size of segment must be specified" ++ [NEWLINE]))
  | size :: rest =>
      let! segSize := getLong (Some size) GN_ANY_BASE (Some (lit "seg-size")) in
      let! perms := octal_perms (head rest) in
      get_and_show (ShmGet key (to_unsigned 64 (to_signed 32 segSize)) (or_perms flags perms)) "shmget"
  end.

Definition svsem_create (text : cstr) (opts : list option_arg) (operands : list cstr) : PM unit :=
  let! (flags, key) := one_key text None opts in
  match operands with
  | [] => usageError text (Some (lit "Must specify number of semaphores" ++ [NEWLINE]))
  | nsems :: rest =>
      let! numSems := getInt (Some nsems) 0 (Some (lit "num-sems")) in
      let! perms := octal_perms (head rest) in
      get_and_show (SemGet key numSems (or_perms flags perms)) "semget"
  end.

Definition svmsg_create (text : cstr) (opts : list option_arg) (operands : list cstr) : PM unit :=
  let! (flags, key) := one_key text (Some (lit "Bad option" ++ [NEWLINE])) opts in
  let! perms := octal_perms (head operands) in
  get_and_show (MsgGet key (or_perms flags perms)) "msgget".

(** ** POSIX *)

(** [flags] and [attr]; the bool is [attrp != NULL]. *)
Fixpoint mq_options (text : cstr) (opts : list option_arg) (flags : Z) (attr : Z * Z) (attrp : bool) :
    PM (Z * (Z * Z) * bool) :=
  match opts with
  | [] => ret (flags, attr, attrp)
  | Opt c optarg :: opts =>
      if bool_decide (c = "c"%char) then mq_options text opts (Z.lor flags O_CREAT) attr attrp
      else if bool_decide (c = "m"%char) then mq_options text opts flags (atoi optarg, attr.2) true
      else if bool_decide (c = "s"%char) then mq_options text opts flags (attr.1, atoi optarg) true
      else if bool_decide (c = "x"%char) then mq_options text opts (Z.lor flags O_EXCL) attr attrp
      else usageError text None
  end.

Definition pmsg_create (text : cstr) (opts : list option_arg) (operands : list cstr) : PM unit :=
  let! (r, attrp) := mq_options text opts O_RDWR (10, 2048) false in
  let '(flags, attr) := r in
  match operands with
  | [] => usageError text None
  | name :: rest =>
      let! perms := octal_perms (head rest) in
      let! mqd := syscall (fun k => os_request k (MqOpen name flags perms (if attrp then Some attr else None))) in
      match mqd with None => errExit (lit "mq_open") | Some _ => exit3 EXIT_SUCCESS end
  end.

Fixpoint create_options (text : cstr) (opts : list option_arg) (flags : Z) : PM Z :=
  match opts with
  | [] => ret flags
  | Opt c _ :: opts =>
      if bool_decide (c = "c"%char) then create_options text opts (Z.lor flags O_CREAT)
      else if bool_decide (c = "x"%char) then create_options text opts (Z.lor flags O_EXCL)
      else usageError text None
  end.

Definition psem_create (text : cstr) (opts : list option_arg) (operands : list cstr) : PM unit :=
  let! flags := create_options text opts 0 in
  match operands with
  | [] => usageError text None
  | name :: rest =>
      let! perms := octal_perms (head rest) in
      let! value := match rest with
        | _ :: v :: _ => getInt (Some v) 0 (Some (lit "value"))
        | _ => ret 0
        end in
      let! sem := syscall (fun k => os_request k (SemOpen name flags perms (to_unsigned 32 value))) in
      match sem with None => errExit (lit "sem_open") | Some _ => exit3 EXIT_SUCCESS end
  end.

Definition pshm_create (text : cstr) (opts : list option_arg) (operands : list cstr) : PM unit :=
  let! flags := create_options text opts O_RDWR in
  match operands with
  | name :: size :: rest =>
      let! size := getLong (Some size) GN_ANY_BASE (Some (lit "size")) in
      let size := to_unsigned 64 size in
      let! perms := match head rest with
        | None => ret owner_rw
        | Some p =>
            let! perms := getLong (Some p) GN_BASE_8 (Some (lit "octal-perms")) in
            ret (to_unsigned 32 perms)
        end in
      let! fd := syscall (fun k => os_request k (ShmOpen name flags perms)) in
      match fd with
      | None => errExit (lit "shm_open")
      | Some fd =>
          let! r := syscall (fun k => os_request k (Ftruncate fd (to_signed 64 size))) in
          when (bool_decide (r = None)) (errExit (lit "ftruncate")) ;;;
          when (0 <? size) (
            let! addr := syscall (fun k => os_request k (Mmap size fd)) in
            when (bool_decide (addr = None)) (errExit (lit "mmap"))) ;;;
          exit3 EXIT_SUCCESS
      end
  | _ => usageError text None
  end.

End Code.

(** ** What is asked for *)

Definition option_char (o : option_arg) : ascii := match o with Opt c _ => c end.
Definition is_key (o : option_arg) : bool := bool_decide (option_char o ∈ lit "fkp").
Definition given (c : ascii) (opts : list option_arg) : bool := existsb (fun o => bool_decide (option_char o = c)) opts.

(** The flags of the options that are given, in any order and number. *)
Definition flags_asked (creat excl : Z) (opts : list option_arg) : Z :=
  Z.lor (if given "c" opts then creat else 0) (if given "x" opts then excl else 0).

Section Props.
Context `{ET : ErrnoText} {K : Type} {OS : IpcOS K}.
Implicit Types (s : proc K).

(** The key that an option stands for. *)
Inductive key_of : option_arg -> Z -> Prop :=
| key_path arg k k' key : os_ftok k arg 1 = (k', inr key) -> key_of (Opt "f" arg) key
| key_number arg l : scan_li arg = Some l -> key_of (Opt "k" arg) (to_signed 32 l)
| key_private arg : key_of (Opt "p" arg) IPC_PRIVATE.

Definition quiet s s' : Prop := out_pending s' = out_pending s /\ out_done s' = out_done s.

(** What a successful end says. *)
Definition on_success (R : proc K -> Prop) (e : exit_kind) s : Prop := e = EXIT_SUCCESS -> R s.

Lemma wp_ipc_usage {A} text msg (Q : A -> proc K -> Prop) (R : proc K -> Prop) s : wp (usageError text msg) Q (on_success R) s.
Proof.
  apply wp_bind. assert (H : forall s1, wp (A := A) (puterr text ;;; exit3 EXIT_FAILURE) Q (on_success R) s1).
  { intros s1. apply wp_bind, wp_puterr. intros s2 _ _. by apply wp_exit3. }
  destruct msg; [apply wp_puterr; intros s1 _ _; apply H|apply wp_ret, H].
Qed.

Lemma wp_error {A} msg (Q : A -> proc K -> Prop) (R : proc K -> Prop) s : wp (errExit msg) Q (on_success R) s.
Proof. apply wp_errExit_fails. by intros e s' He _ ->. Qed.

Lemma wp_numeric arg flags name (Q : Z -> proc K -> Prop) (R : proc K -> Prop) s :
  (forall res s', quiet s s' -> strtol arg (num_base flags) = (res, [], false) -> INT_MIN <= res <= INT_MAX -> Q res s') ->
  wp (getInt (Some arg) flags name) Q (on_success R) s.
Proof.
  intros HQ. eapply wp_mono; [apply (proj1 (getInt_correct (Some arg) name flags s))| |].
  - intros res s' (-> & Hr & _ & a & [= <-] & Hs). by apply HQ.
  - by intros e s' [-> _] [=].
Qed.

Lemma wp_octal_perms operand (Q : Z -> proc K -> Prop) (R : proc K -> Prop) s :
  (forall perms s', quiet s s' -> match operand with
     | None => perms = owner_rw
     | Some o => exists v, strtol o 8 = (v, [], false) /\ perms = to_unsigned 32 v
     end -> Q perms s') ->
  wp (octal_perms operand) Q (on_success R) s.
Proof.
  intros HQ. destruct operand as [o|]; [|by apply wp_ret, HQ].
  apply wp_bind, wp_numeric. intros v s' Hq Hs _. apply wp_ret, HQ; [done|]. by exists v.
Qed.

Lemma flags_asked_cons creat excl o opts flags :
  Z.lor flags (flags_asked creat excl (o :: opts)) =
  Z.lor (Z.lor flags (flags_asked creat excl [o])) (flags_asked creat excl opts).
Proof.
  unfold flags_asked. cbn [given existsb]. rewrite !orb_false_r. unfold given.
  apply Z.bits_inj'. intros n Hn. rewrite !Z.lor_spec. set (b := bool_decide (option_char o = "c"%char)).
  set (b' := bool_decide (option_char o = "x"%char)). set (l := existsb _ opts). set (l' := existsb _ opts).
  destruct b, b', l, l'; cbn [orb]; rewrite ?Z.bits_0;
    destruct (Z.testbit flags n), (Z.testbit creat n), (Z.testbit excl n); done.
Qed.

(** What the loop over the options has found. *)
Definition keys (opts : list option_arg) : list option_arg := filter (fun o => is_key o = true) opts.

Lemma wp_sysv_options text bad opts n flags key (Q : Z * Z * option Z -> proc K -> Prop) (R : proc K -> Prop) s :
  (forall key' s', quiet s s' ->
     match last (keys opts) with Some o => exists v, key' = Some v /\ key_of o v | None => key' = key end ->
     Q (n + Z.of_nat (length (keys opts)), Z.lor flags (flags_asked IPC_CREAT IPC_EXCL opts), key') s') ->
  wp (sysv_options text bad opts n flags key) Q (on_success R) s.
Proof.
  revert n flags key s Q. induction opts as [|[c arg] opts IH]; intros n flags key s Q HQ.
  { apply wp_ret. specialize (HQ key s). cbn in HQ. rewrite Z.add_0_r, Z.lor_0_r in HQ. by apply HQ. }
  assert (Hnokey : forall flags', is_key (Opt c arg) = false -> Z.lor flags (flags_asked IPC_CREAT IPC_EXCL [Opt c arg]) = flags' ->
    wp (sysv_options text bad opts n flags' key) Q (on_success R) s).
  { intros flags' Hk <-. apply IH. intros key' s' Hq Hl. rewrite <-flags_asked_cons.
    assert (He : keys (Opt c arg :: opts) = keys opts) by (unfold keys; rewrite filter_cons, decide_False; [done|congruence]).
    rewrite <-He in Hl |- *. by apply HQ. }
  assert (Hkey : forall v s1, quiet s s1 -> key_of (Opt c arg) v -> is_key (Opt c arg) = true ->
    flags_asked IPC_CREAT IPC_EXCL [Opt c arg] = 0 ->
    wp (sysv_options text bad opts (n + 1) flags (Some v)) Q (on_success R) s1).
  { intros v s1 Hq Hv Hk Hfl. apply IH. intros key' s' Hq' Hl.
    assert (He : keys (Opt c arg :: opts) = Opt c arg :: keys opts) by (unfold keys; rewrite filter_cons, decide_True; done).
    specialize (HQ key' s'). rewrite He, flags_asked_cons, Hfl, Z.lor_0_r in HQ. cbn [length] in HQ.
    replace (n + Z.of_nat (S (length (keys opts)))) with (n + 1 + Z.of_nat (length (keys opts))) in HQ by lia.
    apply HQ; [destruct Hq, Hq'; split; congruence|]. destruct (keys opts) as [|o os] eqn:Hos; [by exists v|].
    rewrite last_cons_cons. destruct (last (o :: os)) eqn:Hlast; [exact Hl|]. by apply last_None in Hlast. }
  cbn [sysv_options]. case_bool_decide as Hc; [subst c; by apply Hnokey|]. clear Hc.
  case_bool_decide as Hf; [subst c|].
  { apply wp_bind, wp_syscall; intros k r Hr; [apply wp_error|]. apply Hkey; [done| |done|done]. by econstructor. }
  case_bool_decide as Hk; [subst c|].
  { destruct (scan_li arg) as [l|] eqn:Hl; [|by apply wp_cmdLineErr]. apply Hkey; [done| |done|done]. by constructor. }
  case_bool_decide as Hp; [subst c|].
  { apply Hkey; [done|constructor|done|done]. }
  case_bool_decide as Hx; [subst c; by apply Hnokey|]. apply wp_ipc_usage.
Qed.

(** Exactly one of the options for the key was given, and gives the key. *)
Definition one_key_given (opts : list option_arg) (key : Z) : Prop := exists o, keys opts = [o] /\ key_of o key.

Lemma wp_one_key text bad opts (Q : Z * Z -> proc K -> Prop) (R : proc K -> Prop) s :
  (forall key s', quiet s s' -> one_key_given opts key -> Q (flags_asked IPC_CREAT IPC_EXCL opts, key) s') ->
  wp (one_key text bad opts) Q (on_success R) s.
Proof.
  intros HQ. apply wp_bind, wp_sysv_options. intros key' s' Hq Hl. apply wp_bind, wp_when; intros Hn.
  { apply wp_ipc_usage. }
  apply negb_false_iff, Z.eqb_eq in Hn. destruct (keys opts) as [|o [|]] eqn:Hk; simpl in Hn; try lia.
  destruct Hl as (v & -> & Hv). apply wp_ret, HQ; [done|]. by exists o.
Qed.

(** The call was [r], and its result has been printed. *)
Definition shown_by (s : proc K) (r : request) (s' : proc K) : Prop :=
  exists k id, os_request k r = (kern s', inr id) /\ out_done s' = out_done s ++ out_pending s ++ show_Z id ++ [NEWLINE].

Lemma wp_get_and_show r name (R : proc K -> Prop) s0 s :
  quiet s0 s -> (forall s', shown_by s0 r s' -> R s') ->
  wp (get_and_show r name) (fun _ _ => False) (on_success R) s.
Proof.
  intros [Hp Hd] HR. apply wp_bind, wp_syscall; intros k id Hk; [apply wp_error|].
  apply wp_bind, wp_modify, wp_bind, wp_modify, wp_exit. intros _. apply HR. exists (kern s), id. split; [exact Hk|].
  cbn. by rewrite Hp, Hd.
Qed.

Lemma ipc_quiet_trans s1 s2 s3 : quiet s1 s2 -> quiet s2 s3 -> quiet s1 s3.
Proof. intros [??] [??]. split; congruence. Qed.

(** The permissions that an operand stands for; without it they are rw-------. *)
Definition perms_of (operand : option cstr) (perms : Z) : Prop :=
  match operand with
  | None => perms = owner_rw
  | Some o => exists v, strtol o 8 = (v, [], false) /\ perms = to_unsigned 32 v
  end.

(** each of the three programs that create an object of System V IPC ends,
    without undefined behaviour, whatever its command line: the key is never
    used without having been set. It ends with success only when exactly one of
    -f, -k and -p was given; it has then asked for the object with the key of
    that option, with IPC_CREAT and IPC_EXCL exactly when -c and -x were given,
    in whatever order, or-ed with the permissions, and with the number that its
    operand denotes, and it has printed the identifier. *)
Theorem sysv_objects_requested (text : cstr) (opts : list option_arg) (operands : list cstr) s :
  let flags := flags_asked IPC_CREAT IPC_EXCL opts in
  wp (svshm_create text opts operands) (fun _ _ => False) (on_success (fun s' => exists key size v perms,
      one_key_given opts key /\ head operands = Some size /\ strtol size 0 = (v, [], false) /\
      perms_of (head (tail operands)) perms /\
      shown_by s (ShmGet key (to_unsigned 64 (to_signed 32 v)) (or_perms flags perms)) s')) s /\
  wp (svsem_create text opts operands) (fun _ _ => False) (on_success (fun s' => exists key nsems v perms,
      one_key_given opts key /\ head operands = Some nsems /\ strtol nsems 10 = (v, [], false) /\ INT_MIN <= v <= INT_MAX /\
      perms_of (head (tail operands)) perms /\ shown_by s (SemGet key v (or_perms flags perms)) s')) s /\
  wp (svmsg_create text opts operands) (fun _ _ => False) (on_success (fun s' => exists key perms,
      one_key_given opts key /\ perms_of (head operands) perms /\ shown_by s (MsgGet key (or_perms flags perms)) s')) s.
Proof.
  intros flags. split_and!.
  - apply wp_bind, wp_one_key. intros key s1 Hq1 Hkey. destruct operands as [|size rest]; [apply wp_ipc_usage|].
    apply wp_bind. eapply wp_getNum; [by intros s' _ [=]|]. intros a v [= <-] _ Hv _. cbn beta.
    apply wp_bind, wp_octal_perms. intros perms s3 Hq3 Hperms.
    eapply (wp_get_and_show _ _ _ s); [eapply ipc_quiet_trans; [exact Hq1|exact Hq3]|]. intros s' Hs'. by exists key, size, v, perms.
  - apply wp_bind, wp_one_key. intros key s1 Hq1 Hkey. destruct operands as [|nsems rest]; [apply wp_ipc_usage|].
    apply wp_bind, wp_numeric. intros v s2 Hq2 Hv Hrange. apply wp_bind, wp_octal_perms. intros perms s3 Hq3 Hperms.
    eapply (wp_get_and_show _ _ _ s); [eapply ipc_quiet_trans; [exact Hq1|by eapply ipc_quiet_trans]|]. intros s' Hs'. by exists key, nsems, v, perms.
  - apply wp_bind, wp_one_key. intros key s1 Hq1 Hkey. apply wp_bind, wp_octal_perms. intros perms s3 Hq3 Hperms.
    eapply (wp_get_and_show _ _ _ s); [by eapply ipc_quiet_trans|]. intros s' Hs'. by exists key, perms.
Qed.

End Props.

(** The attributes of pmsg_create: those of the last -m and -s, or 10 and 2048,
    and none when neither was given. *)
Definition last_number (c : ascii) (default_ : Z) (opts : list option_arg) : Z :=
  match last (filter (fun o => option_char o = c) opts) with Some (Opt _ arg) => atoi arg | None => default_ end.
Definition attr_asked (opts : list option_arg) : option (Z * Z) :=
  if given "m" opts || given "s" opts then Some (last_number "m" 10 opts, last_number "s" 2048 opts) else None.

Lemma last_number_cons c d o opts :
  last_number c d (o :: opts) = last_number c (match o with Opt c' arg => if bool_decide (c' = c) then atoi arg else d end) opts.
Proof.
  unfold last_number. rewrite filter_cons. destruct o as [c' arg]. simpl. case_decide as Hc.
  - rewrite bool_decide_eq_true_2 by done. destruct (filter _ opts) as [|o os]; [done|]. by rewrite last_cons_cons; destruct (last (o :: os)) eqn:Hl; [|apply last_None in Hl].
  - by rewrite bool_decide_eq_false_2.
Qed.

Section Posix.
Context `{ET : ErrnoText} {K : Type} {OS : IpcOS K}.
Implicit Types (s : proc K).

Lemma wp_mq_options text opts flags attr attrp (Q : Z * (Z * Z) * bool -> proc K -> Prop) (R : proc K -> Prop) s :
  Q (Z.lor flags (flags_asked O_CREAT O_EXCL opts), (last_number "m" attr.1 opts, last_number "s" attr.2 opts),
     attrp || given "m" opts || given "s" opts) s ->
  wp (mq_options text opts flags attr attrp) Q (on_success R) s.
Proof.
  revert flags attr attrp. induction opts as [|[c arg] opts IH]; intros flags [a b] attrp HQ.
  { apply wp_ret. cbn in HQ. by rewrite Z.lor_0_r, !orb_false_r in HQ. }
  rewrite flags_asked_cons, !last_number_cons in HQ. unfold given in HQ. cbn [existsb option_char fst snd] in HQ.
  fold (given "m" opts) (given "s" opts) in HQ. cbn [mq_options fst snd].
  destruct (decide (c = "c"%char)) as [->|Hc]; [apply IH; exact HQ|rewrite (bool_decide_eq_false_2 (c = "c"%char)) by done].
  destruct (decide (c = "m"%char)) as [->|Hm].
  { apply IH. refine (eq_ind _ (fun x => Q x s) HQ _ _). change (flags_asked O_CREAT O_EXCL [Opt "m" arg]) with 0. rewrite Z.lor_0_r.
    cbn [fst snd]. f_equal. by destruct attrp. }
  rewrite (bool_decide_eq_false_2 (c = "m"%char)) by done.
  destruct (decide (c = "s"%char)) as [->|Hs].
  { apply IH. refine (eq_ind _ (fun x => Q x s) HQ _ _). change (flags_asked O_CREAT O_EXCL [Opt "s" arg]) with 0. rewrite Z.lor_0_r.
    cbn [fst snd]. f_equal. by destruct attrp, (given "m" opts). }
  rewrite (bool_decide_eq_false_2 (c = "s"%char)) by done.
  destruct (decide (c = "x"%char)) as [->|Hx]; [apply IH; exact HQ|rewrite (bool_decide_eq_false_2 (c = "x"%char)) by done].
  apply wp_ipc_usage.
Qed.

(** pmsg_create always ends, without undefined behaviour, and with success only
    when it has opened the queue that its operand names with exactly the flags
    and attributes of its options. *)
Theorem pmsg_create_requests text opts operands s :
  wp (pmsg_create text opts operands) (fun _ _ => False) (on_success (fun s' => exists name perms k id,
      head operands = Some name /\ perms_of (head (tail operands)) perms /\
      os_request k (MqOpen name (Z.lor O_RDWR (flags_asked O_CREAT O_EXCL opts)) perms (attr_asked opts)) = (kern s', inr id))) s.
Proof.
  apply wp_bind, wp_mq_options. cbn [fst snd orb]. destruct operands as [|name rest]; [apply wp_ipc_usage|].
  apply wp_bind, wp_octal_perms. intros perms s1 _ Hperms. apply wp_bind, wp_syscall; intros k id Hk; [apply wp_error|].
  apply wp_bind, wp_modify, wp_exit. intros _. by exists name, perms, (kern s1), id.
Qed.
End Posix.

(** ** Runs *)

(** The requests made; every one succeeds. *)
#[export] Instance demo_ipc : IpcOS (list request) := {| os_ftok k _ _ := (k, inr 5); os_request k r := (k ++ [r], inr 7) |}.
#[export] Instance demo_ipc_texts : ErrnoText := {| MAX_ENAME := 0; ename _ := []; strerror _ := [] |}.
Definition no_requests : proc (list request) := Proc [] 0 None [] [] [].
Definition requests (o : outcome (proc (list request)) unit) : option (list request) :=
  match o with Exit EXIT_SUCCESS s => Some (kern s) | _ => None end.

Example shm_created :
  requests (svshm_create [] [Opt "k" (lit "0x10"); Opt "c" []] [lit "4096"; lit "640"] no_requests) = Some [ShmGet 16 4096 (IPC_CREAT + 416)].
Proof. reflexivity. Qed.

(** The permissions are not checked: their ninth bit is IPC_CREAT. *)
Example perms_create_queue :
  requests (svmsg_create [] [Opt "k" (lit "1")] [lit "1600"] no_requests) = Some [MsgGet 1 (Z.lor IPC_CREAT 384)].
Proof. reflexivity. Qed.

(** A size of 2^32 becomes 0, and a key of 2^32 IPC_PRIVATE. *)
Example numbers_cut :
  requests (svshm_create [] [Opt "k" (lit "4294967296")] [lit "4294967296"] no_requests) = Some [ShmGet IPC_PRIVATE 0 owner_rw].
Proof. reflexivity. Qed.

(** A size that is not a number is taken for zero. *)
Example message_size_zero :
  requests (pmsg_create [] [Opt "s" (lit "big")] [lit "/q"] no_requests) = Some [MqOpen (lit "/q") O_RDWR owner_rw (Some (10, 0))].
Proof. reflexivity. Qed.
