(* ===== verification/WaitStatus.v ===== *)
(** procexec/print_wait_status.c (src/tlpi-dist): a status returned by waitpid
    taken apart and shown. *)
From Stdlib Require Import ZArith Lia Ascii String.
From stdpp Require Import base tactics list strings.
From S2P Require Import Prelude CString Process.
#[local] Open Scope Z_scope.

(** The macros of sys/wait.h on Linux. *)
Definition WTERMSIG (status : Z) : Z := Z.land status 127.
Definition WIFEXITED (status : Z) : bool := WTERMSIG status =? 0.
Definition WEXITSTATUS (status : Z) : Z := Z.shiftr (Z.land status 65280) 8.
Definition WIFSIGNALED (status : Z) : bool := 0 <? Z.shiftr (to_signed 8 (Z.land status 127 + 1)) 1.
Definition WCOREDUMP (status : Z) : bool := has_bit status 128.
Definition WIFSTOPPED (status : Z) : bool := Z.land status 255 =? 127.
Definition WSTOPSIG (status : Z) : Z := WEXITSTATUS status.
Definition WIFCONTINUED (status : Z) : bool := status =? 65535.

(** The text of each signal. *)
Class SignalText := strsignal : Z -> cstr.

Section Code.
Context `{SignalText} {K : Type}.
Abbreviation PM := (M (proc K)).

Definition status_line (status : Z) : cstr :=
  if WIFEXITED status then lit "child exited, status=" ++ show_Z (WEXITSTATUS status) ++ [NEWLINE]
  else if WIFSIGNALED status then
    lit "child killed by signal " ++ show_Z (WTERMSIG status) ++ lit " (" ++ strsignal (WTERMSIG status) ++ lit ")" ++
    (if WCOREDUMP status then lit " (core dumped)" else []) ++ [NEWLINE]
  else if WIFSTOPPED status then
    lit "child stopped by signal " ++ show_Z (WSTOPSIG status) ++ lit " (" ++ strsignal (WSTOPSIG status) ++ lit ")" ++ [NEWLINE]
  else if WIFCONTINUED status then lit "child continued" ++ [NEWLINE]
  else lit "what happened to this child? (status=" ++ show_hex (to_unsigned 32 status) ++ lit ")" ++ [NEWLINE].

Definition printWaitStatus (msg : option cstr) (status : Z) : PM unit :=
  match msg with Some m => putout m | None => ret tt end ;;;
  putout (status_line status).

End Code.

(** ** What became of a child *)

Inductive fate := Exited (n : Z) | Killed (sig : Z) (core : bool) | Stopped (sig : Z) | Continued.

(** What the kernel can report: exit statuses are bytes, 127 is not a signal. *)
Definition fate_ok (f : fate) : Prop :=
  match f with
  | Exited n => 0 <= n < 256
  | Killed sig _ => 1 <= sig < 127
  | Stopped sig => 1 <= sig < 128
  | Continued => True
  end.

(** The status word of the kernel. *)
Definition status_of (f : fate) : Z :=
  match f with
  | Exited n => n * 256
  | Killed sig core => sig + (if core then 128 else 0)
  | Stopped sig => sig * 256 + 127
  | Continued => 65535
  end.

Definition fate_line `{SignalText} (f : fate) : cstr :=
  match f with
  | Exited n => lit "child exited, status=" ++ show_Z n ++ [NEWLINE]
  | Killed sig core =>
      lit "child killed by signal " ++ show_Z sig ++ lit " (" ++ strsignal sig ++ lit ")" ++
      (if core then lit " (core dumped)" else []) ++ [NEWLINE]
  | Stopped sig => lit "child stopped by signal " ++ show_Z sig ++ lit " (" ++ strsignal sig ++ lit ")" ++ [NEWLINE]
  | Continued => lit "child continued" ++ [NEWLINE]
  end.

(** The branch that a status takes, and what it finds. *)
Definition branch (status : Z) : option fate :=
  if WIFEXITED status then Some (Exited (WEXITSTATUS status))
  else if WIFSIGNALED status then Some (Killed (WTERMSIG status) (WCOREDUMP status))
  else if WIFSTOPPED status then Some (Stopped (WSTOPSIG status))
  else if WIFCONTINUED status then Some Continued
  else None.

#[export] Instance fate_eq_dec : EqDecision fate.
Proof. solve_decision. Defined.

Lemma branch_line `{SignalText} status f : branch status = Some f -> status_line status = fate_line f.
Proof.
  unfold branch, status_line. intros Hf.
  destruct (WIFEXITED status); [by injection Hf as <-|]. destruct (WIFSIGNALED status); [by injection Hf as <-|].
  destruct (WIFSTOPPED status); [by injection Hf as <-|]. destruct (WIFCONTINUED status); [by injection Hf as <-|done].
Qed.

Lemma every_status :
  forallb (fun n => bool_decide (branch (status_of (Exited n)) = Some (Exited n))) (seqZ 0 256) &&
  forallb (fun n => bool_decide (branch (status_of (Killed n true)) = Some (Killed n true)) &&
                    bool_decide (branch (status_of (Killed n false)) = Some (Killed n false))) (seqZ 1 126) &&
  forallb (fun n => bool_decide (branch (status_of (Stopped n)) = Some (Stopped n))) (seqZ 1 127) = true.
Proof. by vm_compute. Qed.

Lemma branch_status f : fate_ok f -> branch (status_of f) = Some f.
Proof.
  pose proof every_status as Hall. rewrite !andb_true_iff, !forallb_forall in Hall.
  destruct Hall as [[He Hk] Hs]. intros Hf.
  assert (Hin : forall a n x, a <= x < a + n -> In x (seqZ a n)) by (intros; apply list_elem_of_In, elem_of_seqZ; lia).
  destruct f as [n|n []|n|]; simpl in Hf.
  - apply (bool_decide_eq_true_1 _), He, Hin; lia.
  - apply (bool_decide_eq_true_1 _). apply (fun a => proj1 (proj1 (andb_true_iff _ _) (Hk n a))), Hin; lia.
  - apply (bool_decide_eq_true_1 _). apply (fun a => proj2 (proj1 (andb_true_iff _ _) (Hk n a))), Hin; lia.
  - apply (bool_decide_eq_true_1 _), Hs, Hin; lia.
  - done.
Qed.

(** Whatever became of a child, the line printed for its status says so: the
    branch for statuses that should not happen is never taken. *)
Theorem wait_status_shown `{SignalText} {K : Type} (msg : option cstr) (f : fate) (s : proc K) :
  fate_ok f ->
  printWaitStatus msg (status_of f) s =
    Ret tt (set_out (out_pending s ++ default [] msg ++ fate_line f) (out_done s) s).
Proof.
  intros Hf. unfold printWaitStatus. rewrite (branch_line _ f) by by apply branch_status.
  unfold bind, putout, modify, ret. by destruct msg; simpl; rewrite ?app_assoc.
Qed.

#[export] Instance demo_signals : SignalText := fun n => lit "signal " ++ show_Z n.

Lemma wait_status_shown_witness :
  fate_ok (Killed 11 true) /\
  printWaitStatus (Some [TAB]) 139 (Proc tt 0 None [] [] []) =
    Ret tt (set_out ([] ++ [TAB] ++ fate_line (Killed 11 true)) [] (Proc tt 0 None [] [] [])).
Proof. split; [done|]. apply (wait_status_shown (Some [TAB]) (Killed 11 true)). done. Defined.
