(* ===== verification/PopenGlob.v ===== *)
(** pipes/popen_glob.c (src/tlpi-dist): patterns read from standard input are
    checked and given to a shell. *)
From Stdlib Require Import ZArith Lia Ascii String.
From stdpp Require Import base tactics list strings.
From S2P Require Import Prelude CString Process WaitStatus.
#[local] Open Scope Z_scope.

Definition POPEN_PREFIX : cstr := lit "/bin/ls -d ".
Definition POPEN_SUFFIX : cstr := lit " 2> /dev/null".
Definition POPEN_FMT : cstr := POPEN_PREFIX ++ lit "%s" ++ POPEN_SUFFIX.
Definition PAT_SIZE : nat := 50.
Definition PCMD_BUF_SIZE : Z := strlen POPEN_FMT + 1 + Z.of_nat PAT_SIZE.
Definition PATH_MAX : nat := 4096.

(** Standard input, and pipes from commands: [os_gets k n] and [os_fgets k n fp]
    give the characters that fgets leaves in an array of [n]. *)
Class GlobOS (K : Type) := {
  os_gets : K -> nat -> K * option cstr;
  os_popen : K -> cstr -> K * option Z;
  os_fgets : K -> nat -> Z -> K * option cstr;
  os_pclose : K -> Z -> K * Z
}.

(** The characters that the test passes: [strchr] finds the null as well. *)
Definition valid_char (c : ascii) : bool :=
  isalnum c || bool_decide (c ∈ lit "_*?[^-].") || bool_decide (c = NUL).

Section Code.
Context `{SignalText} {K : Type} {OS : GlobOS K}.
Abbreviation PM := (M (proc K)).

(** The first of the characters that fails the test. *)
Fixpoint bad_char (chars : cstr) : option ascii :=
  match chars with
  | [] => None
  | c :: rest => if valid_char c then bad_char rest else Some c
  end.

Definition incr (n : Z) : PM Z := if n <? INT_MAX then ret (n + 1) else undef.

(** The pathnames that the command prints, counted. *)
Fixpoint read_paths (fuel : nat) (fp : Z) (fileCnt : Z) : PM Z :=
  match fuel with
  | O => undef
  | S fuel =>
      let! r := syscall_ (fun k => os_fgets k PATH_MAX fp) in
      match r with
      | None => ret fileCnt
      | Some pathname =>
          putout (string_in pathname) ;;;
          let! fileCnt := incr fileCnt in
          read_paths fuel fp fileCnt
      end
  end.

Definition glob_command (pat : cstr) : cstr := snprintf PCMD_BUF_SIZE (POPEN_PREFIX ++ pat ++ POPEN_SUFFIX).

(** "%#x" *)
Definition show_hex_alt (z : Z) : cstr := if z =? 0 then lit "0" else lit "0x" ++ show_hex z.

Definition run_glob (fuel : nat) (pat : cstr) : PM unit :=
  let! fp := syscall_ (fun k => os_popen k (glob_command pat)) in
  match fp with
  | None => putout (lit "popen() failed" ++ [NEWLINE])
  | Some fp =>
      let! fileCnt := read_paths fuel fp 0 in
      let! status := syscall_ (fun k => os_pclose k fp) in
      putout (lit "    " ++ show_Z fileCnt ++ lit " matching file" ++ (if fileCnt =? 1 then [] else lit "s") ++ [NEWLINE]) ;;;
      putout (lit "    pclose() status = " ++ show_hex_alt (to_unsigned 32 status) ++ [NEWLINE]) ;;;
      when (negb (status =? -1)) (printWaitStatus (Some [TAB]) status)
  end.

(** One turn, for the string in [pat]: the test goes over the null that is put
    in the place of the newline. *)
Definition glob_line (fuel : nat) (pat : cstr) : PM unit :=
  if strlen pat <=? 1 then ret tt
  else
    let stripped := strip_last NEWLINE pat in
    match bad_char (stripped ++ replicate (length pat - length stripped) NUL) with
    | Some c => putout (lit "Bad pattern character: " ++ [c] ++ [NEWLINE])
    | None => run_glob fuel stripped
    end.

(** [main]: a unit of the first fuel for each line, of the second for each
    pathname. *)
Fixpoint glob_loop (fuel paths : nat) : PM unit :=
  match fuel with
  | O => undef
  | S fuel =>
      putout (lit "pattern: ") ;;;
      fflush_stdout ;;;
      let! r := syscall_ (fun k => os_gets k PAT_SIZE) in
      match r with
      | None => ret tt
      | Some line => glob_line paths (string_in line) ;;; glob_loop fuel paths
      end
  end.

Definition glob_main (fuel paths : nat) : PM unit := glob_loop fuel paths ;;; exit3 EXIT_SUCCESS.

End Code.

(** ** What reaches the shell *)

(** Standard input, the commands given to popen so far, and how many lines the
    command of a pipe still prints. *)
Class GlobLaws (K : Type) {OS : GlobOS K} := {
  stdin : K -> cstr;
  commands : K -> list cstr;
  to_print : K -> Z -> nat;
  print_bound : nat;
  gl_bound : Z.of_nat print_bound <= INT_MAX;
  gl_gets k n : let (k', r) := os_gets k (S n) in
    commands k' = commands k /\
    match r with
    | None => stdin k = []
    | Some line => stdin k <> [] /\ take_line n (stdin k) = (line, stdin k')
    end;
  gl_popen k cmd : let (k', r) := os_popen k cmd in
    stdin k' = stdin k /\ commands k' = commands k ++ [cmd] /\
    match r with None => True | Some fp => (to_print k' fp <= print_bound)%nat end;
  gl_fgets k n fp : let (k', r) := os_fgets k n fp in
    stdin k' = stdin k /\ commands k' = commands k /\
    match r with None => True | Some _ => (to_print k' fp < to_print k fp)%nat end;
  gl_pclose k fp : let (k', _) := os_pclose k fp in stdin k' = stdin k /\ commands k' = commands k
}.

(** The input as fgets cuts it. *)
Fixpoint lines_of (fuel : nat) (input : cstr) : list cstr :=
  match fuel, input with
  | S fuel, _ :: _ => let (line, rest) := take_line (PAT_SIZE - 1) input in line :: lines_of fuel rest
  | _, _ => []
  end.

(** No character that means more to the shell than a wildcard does, and no
    space. *)
Definition safe_char (c : ascii) : bool := isalnum c || bool_decide (c ∈ lit "_*?[^-].").

(** The pattern in a line, if it is accepted. *)
Definition pattern (line : cstr) : option cstr :=
  let pat := string_in line in
  if (2 <=? length pat)%nat && forallb safe_char (strip_last NEWLINE pat) then Some (strip_last NEWLINE pat) else None.

Definition safe_command (cmd : cstr) : Prop :=
  exists pat, cmd = POPEN_PREFIX ++ pat ++ POPEN_SUFFIX /\ Forall (fun c => safe_char c = true) pat /\
    (1 <= length pat < PAT_SIZE)%nat.

Lemma string_in_no_nul buf : NUL ∉ string_in buf.
Proof.
  induction buf as [|c buf IH]; simpl; [by intros ?%elem_of_nil|]. case_bool_decide as Hc; [by intros ?%elem_of_nil|].
  intros [?|?]%elem_of_cons; [by subst|done].
Qed.

Lemma strip_last_prefix c s : exists r, s = strip_last c s ++ r.
Proof.
  unfold strip_last. destruct (last s); [|exists []; by rewrite app_nil_r].
  case_bool_decide; [|exists []; by rewrite app_nil_r]. exists (drop (length s - 1) s). by rewrite take_drop.
Qed.

Lemma bad_char_None chars : bad_char chars = None <-> forallb valid_char chars = true.
Proof. induction chars as [|c chars IH]; simpl; [done|]. destruct (valid_char c); simpl; [done|]. by split. Qed.

Lemma valid_string pat n : NUL ∉ pat ->
  forallb valid_char (pat ++ replicate n NUL) = forallb safe_char pat.
Proof.
  intros Hn. rewrite forallb_app. assert (forallb valid_char (replicate n NUL) = true) as -> by (by induction n).
  rewrite andb_true_r. induction pat as [|c pat IH]; simpl; [done|].
  unfold valid_char at 1. fold (safe_char c). rewrite bool_decide_eq_false_2, orb_false_r by (intros ->; apply Hn; by left).
  f_equal. apply IH. intros ?. apply Hn. by right.
Qed.

Lemma pattern_length line pat : pattern line = Some pat -> (length line < PAT_SIZE)%nat ->
  (1 <= length pat < PAT_SIZE)%nat /\ Forall (fun c => safe_char c = true) pat.
Proof.
  unfold pattern. intros Hp Hl. destruct ((2 <=? _)%nat) eqn:H2; [|done]. destruct (forallb _ _) eqn:Hf; [|done].
  injection Hp as <-. pose proof (string_in_length line). pose proof (strip_last_length NEWLINE (string_in line)).
  apply Nat.leb_le in H2. split; [|by apply Forall_forall; intros c Hc; rewrite forallb_forall in Hf; apply Hf, list_elem_of_In].
  split; [|lia]. unfold strip_last. destruct (last _); [|lia]. case_bool_decide; [rewrite length_take|]; lia.
Qed.

Lemma lines_of_length fuel input : Forall (fun line => (length line < PAT_SIZE)%nat) (lines_of fuel input).
Proof.
  revert input. induction fuel as [|fuel IH]; intros [|c rest]; try by constructor.
  change (Forall (fun line => (length line < PAT_SIZE)%nat)
    (let (line, rest) := take_line (PAT_SIZE - 1) (c :: rest) in line :: lines_of fuel rest)).
  pose proof (take_line_length (PAT_SIZE - 1) (c :: rest)) as Hl. destruct (take_line _ _). simpl in Hl. constructor; [unfold PAT_SIZE; lia|apply IH].
Qed.

Section Glob.
Context `{ET : ErrnoText} `{ST : SignalText} {K : Type} {OS : GlobOS K} {GL : GlobLaws K}.
Implicit Types (s : proc K).

Lemma glob_command_fits pat : (length pat < PAT_SIZE)%nat -> glob_command pat = POPEN_PREFIX ++ pat ++ POPEN_SUFFIX.
Proof.
  intros Hp. apply snprintf_fits. unfold PCMD_BUF_SIZE, POPEN_FMT, strlen. rewrite !length_app.
  assert (length (lit "%s") = 2%nat) as -> by done. unfold PAT_SIZE in *. lia.
Qed.

(** What a turn of the program keeps. *)
Definition keeps (s s' : proc K) : Prop := stdin (kern s') = stdin (kern s) /\ commands (kern s') = commands (kern s).

Lemma wp_printWaitStatus msg status Q E s :
  (forall s', keeps s s' -> Q tt s') -> wp (printWaitStatus msg status) Q E s.
Proof.
  intros HQ. destruct msg; apply wp_bind; [apply wp_putout; intros s1 H1 _|apply wp_ret];
    apply wp_putout; intros s2 H2 _; apply HQ; split; congruence.
Qed.

Lemma wp_read_paths fuel fp cnt Q E s :
  (to_print (kern s) fp < fuel)%nat -> 0 <= cnt -> cnt + Z.of_nat fuel <= INT_MAX + 1 ->
  (forall n s', keeps s s' -> Q n s') -> wp (read_paths fuel fp cnt) Q E s.
Proof.
  revert cnt s. induction fuel as [|fuel IH]; intros cnt s Hf Hc Hm HQ; [lia|].
  simpl. apply wp_bind, wp_syscall_. pose proof (gl_fgets (kern s) PATH_MAX fp) as Hl.
  destruct (os_fgets _ _ _) as [k [pathname|]]; simpl; destruct Hl as (Hi & Hk & Hp); [|by apply wp_ret, HQ].
  apply wp_bind, wp_putout. intros s1 H1 _. simpl in H1. apply wp_bind. unfold incr. rewrite (proj2 (Z.ltb_lt _ _)) by lia.
  apply wp_ret, IH; [rewrite H1; lia|lia..|]. intros n s' [H2 H3]. apply HQ. split; congruence.
Qed.

(** A line gives one command if it is accepted and none if it is not. *)
Lemma wp_glob_line line (Q : unit -> proc K -> Prop) E s :
  (length line < PAT_SIZE)%nat ->
  (forall s', stdin (kern s') = stdin (kern s) ->
     commands (kern s') = commands (kern s) ++
       ((fun pat => POPEN_PREFIX ++ pat ++ POPEN_SUFFIX) <$> option_list (pattern line)) -> Q tt s') ->
  wp (glob_line (S print_bound) (string_in line)) Q E s.
Proof.
  intros Hlen HQ. pose proof (pattern_length line) as Hpl. unfold glob_line, pattern, strlen in *.
  destruct (Z.leb_spec (Z.of_nat (length (string_in line))) 1).
  { apply wp_ret, HQ; [done|]. rewrite (proj2 (Nat.leb_gt _ _)) by lia. by rewrite app_nil_r. }
  rewrite (proj2 (Nat.leb_le _ _)) in * by lia. simpl andb in *.
  set (pat := strip_last NEWLINE (string_in line)) in *.
  assert (Hv : forallb valid_char (pat ++ replicate (length (string_in line) - length pat) NUL) = forallb safe_char pat).
  { apply valid_string. destruct (strip_last_prefix NEWLINE (string_in line)) as [r Hr]. fold pat in Hr.
    intros Hn. apply (string_in_no_nul line). rewrite Hr. apply elem_of_app. by left. }
  destruct (bad_char _) as [c|] eqn:Hb.
  - apply wp_putout. intros s1 H1 _. apply HQ; rewrite H1; [done|]. destruct (forallb safe_char pat); [|by rewrite app_nil_r].
    apply bad_char_None in Hv. congruence.
  - apply bad_char_None in Hb. rewrite Hv in Hb. rewrite Hb in *. destruct (Hpl pat eq_refl Hlen) as [Hp _].
    unfold run_glob. rewrite glob_command_fits by lia. apply wp_bind, wp_syscall_.
    pose proof (gl_popen (kern s) (POPEN_PREFIX ++ pat ++ POPEN_SUFFIX)) as Hl.
    destruct (os_popen _ _) as [k [fp|]]; cbn [fst snd]; destruct Hl as (Hi & Hk & Hb'); [|by apply wp_putout; intros s1 H1 _; apply HQ; rewrite H1].
    apply wp_bind, wp_read_paths; [simpl; lia|lia|pose proof gl_bound; lia|]. intros n s1 [H1 H2].
    apply wp_bind, wp_syscall_. pose proof (gl_pclose (kern s1) fp) as Hc. destruct (os_pclose _ _) as [k' status].
    destruct Hc as [H3 H4]. cbn [fst snd] in *. apply wp_bind, wp_putout. intros s2 H5 _. apply wp_bind, wp_putout.
    intros s3 H6 _. apply wp_when; intros _; [apply wp_printWaitStatus; intros s4 [H7 H8]|]; apply HQ; simpl in *; congruence.
Qed.

Lemma wp_glob_loop fuel input (Q : unit -> proc K -> Prop) E s :
  stdin (kern s) = input -> (length input < fuel)%nat ->
  (forall s', commands (kern s') = commands (kern s) ++
     ((fun pat => POPEN_PREFIX ++ pat ++ POPEN_SUFFIX) <$> omap pattern (lines_of fuel input)) -> Q tt s') ->
  wp (glob_loop fuel (S print_bound)) Q E s.
Proof.
  revert input s. induction fuel as [|fuel IH]; intros input s Hi Hf HQ; [lia|].
  cbn [glob_loop]. apply wp_bind, wp_putout. intros s0 H0 _. apply wp_bind, wp_modify, wp_bind, wp_syscall_. cbn [kern set_out]. rewrite H0.
  pose proof (gl_gets (kern s) (PAT_SIZE - 1)) as Hl. change (S (PAT_SIZE - 1)) with PAT_SIZE in Hl.
  destruct (os_gets (kern s) PAT_SIZE) as [k [line|]]; cbn [fst snd]; destruct Hl as [Hk Hl].
  - destruct Hl as [Hne Ht]. rewrite Hi in *. destruct input as [|c input]; [done|].
    pose proof (take_line_length (PAT_SIZE - 1) (c :: input)) as Hlen. rewrite Ht in Hlen. cbn [fst] in Hlen.
    apply wp_bind, wp_glob_line; [unfold PAT_SIZE in *; lia|]. intros s1 H1 H2.
    apply (IH (stdin k)); [exact H1| |].
    + apply (take_line_shorter _ _ _ _ Ht) in Hne. lia.
    + intros s2 H3. apply HQ. rewrite H3, H2. cbn [lines_of]. rewrite Ht. cbn [omap list_omap]. rewrite <-app_assoc.
      cbn [kern set_kern]. rewrite Hk. f_equal. by destruct (pattern line).
  - rewrite Hi in Hl. subst input. apply wp_ret, HQ. rewrite Hl. by rewrite app_nil_r.
Qed.

(** C35: For every input the program comes to its end with success, having
    given the shell one command for each line that is accepted, in order and
    whole; and a command is ls on a word of at most 49 letters, digits and
    wildcards. *)
Theorem only_safe_commands (s : proc K) :
  wp (glob_main (S (length (stdin (kern s)))) (S print_bound)) (fun _ _ => False)
    (fun e s' => e = EXIT_SUCCESS /\ exists new,
       commands (kern s') = commands (kern s) ++ new /\ Forall safe_command new /\
       new = (fun pat => POPEN_PREFIX ++ pat ++ POPEN_SUFFIX) <$>
               omap pattern (lines_of (S (length (stdin (kern s)))) (stdin (kern s)))) s.
Proof.
  apply wp_bind, (wp_glob_loop _ (stdin (kern s))); [done|lia|]. intros s1 H1. apply wp_exit3. intros s2 H2.
  split; [done|]. eexists. split; [by rewrite H2|]. split; [|done].
  apply Forall_fmap, Forall_forall. intros pat (line & Hl & Hp)%list_elem_of_omap.
  pose proof (proj1 (Forall_forall _ _) (lines_of_length _ _) _ Hl) as Hlen.
  destruct (pattern_length _ _ Hp Hlen). by exists pat.
Qed.
End Glob.

(** ** Runs *)

(** Standard input, the commands so far, and the lines that each of them still
    prints: a command prints one. *)
Record demo_shell := DemoShell { d_stdin : cstr; d_commands : list cstr; d_left : list cstr }.

#[export] Instance demo_glob_os : GlobOS demo_shell := {|
  os_gets k n :=
    match n, d_stdin k with
    | S n, _ :: _ => let (line, rest) := take_line n (d_stdin k) in (DemoShell rest (d_commands k) (d_left k), Some line)
    | _, _ => (k, None)
    end;
  os_popen k cmd := (DemoShell (d_stdin k) (d_commands k ++ [cmd]) [lit "found" ++ [NEWLINE]], Some 3);
  os_fgets k n fp :=
    match d_left k with
    | [] => (k, None)
    | l :: rest => (DemoShell (d_stdin k) (d_commands k) rest, Some l)
    end;
  os_pclose k fp := (k, 0)
|}.

#[export] Instance demo_glob_laws : GlobLaws demo_shell.
Proof.
  refine {| stdin := d_stdin; commands := d_commands; to_print k _ := length (d_left k); print_bound := 1 |}.
  - done.
  - intros [i c l] n. simpl. destruct i as [|a i]; [done|].
    destruct (take_line n (a :: i)) as [line rest] eqn:Ht. simpl. by split_and!.
  - intros [i c l] cmd. simpl. split_and!; [done..|lia].
  - intros [i c l] n fp. simpl. destruct l; simpl; [done|]. split_and!; [done..|lia].
  - by intros [i c l] fp.
Defined.

#[export] Instance demo_glob_texts : ErrnoText :=
  {| MAX_ENAME := 0; ename := fun _ => []; strerror := fun _ => [] |}.

Definition demo_input : cstr := lit "*.c" ++ [NEWLINE] ++ lit "a; rm b" ++ [NEWLINE; NEWLINE] ++ lit "[^x-z]?".
Definition demo_proc (input : cstr) : proc demo_shell := Proc (DemoShell input [] []) 0 None [] [] [].

Definition given (input : cstr) : list cstr :=
  match glob_main (S (length input)) 2 (demo_proc input) with Exit _ s => d_commands (kern s) | _ => [] end.

Lemma only_safe_commands_witness :
  let s := demo_proc demo_input in
  given demo_input = [lit "/bin/ls -d *.c 2> /dev/null"; lit "/bin/ls -d [^x-z]? 2> /dev/null"] /\
  wp (glob_main (S (length (stdin (kern s)))) (S print_bound)) (fun _ _ => False)
    (fun e s' => e = EXIT_SUCCESS /\ exists new,
       commands (kern s') = commands (kern s) ++ new /\ Forall safe_command new /\
       new = (fun pat => POPEN_PREFIX ++ pat ++ POPEN_SUFFIX) <$>
               omap pattern (lines_of (S (length (stdin (kern s)))) (stdin (kern s)))) s.
Proof. intros s. split; [by vm_compute|]. exact (only_safe_commands s). Defined.

(** A pattern may start with a minus: ls takes it as options. *)
Example options_given : given (lit "-R" ++ [NEWLINE]) = [lit "/bin/ls -d -R 2> /dev/null"].
Proof. by vm_compute. Qed.

(** A last line of one character without a newline is taken for an empty one. *)
Example short_line_lost : given (lit "*") = [] /\ given (lit "*" ++ [NEWLINE]) = [lit "/bin/ls -d * 2> /dev/null"].
Proof. by vm_compute. Qed.

(** A line that is too long is not refused but taken as several patterns. *)
Example long_line_cut :
  given (replicate 52 "a"%char ++ [NEWLINE]) =
    [POPEN_PREFIX ++ replicate 49 "a"%char ++ POPEN_SUFFIX; POPEN_PREFIX ++ replicate 3 "a"%char ++ POPEN_SUFFIX].
Proof. by vm_compute. Qed.
