(* ===== verification/FcntlLocking.v ===== *)
(** filelock/i_fcntl_locking.c (src/tlpi-dist): record locks on files, by
    commands read from standard input. *)
From Stdlib Require Import ZArith Lia Ascii String.
From stdpp Require Import base tactics list strings sets.
From S2P Require Import Prelude CString Process FilePerms.
#[local] Open Scope Z_scope.

Definition MAX_LINE : nat := 100.
Definition F_GETLK : Z := 5.
Definition F_SETLK : Z := 6.
Definition F_SETLKW : Z := 7.
Definition F_OFD_GETLK : Z := 36.
Definition F_OFD_SETLK : Z := 37.
Definition F_OFD_SETLKW : Z := 38.
Definition F_RDLCK : Z := 0.
Definition F_WRLCK : Z := 1.
Definition F_UNLCK : Z := 2.
Definition SEEK_SET : Z := 0.
Definition SEEK_CUR : Z := 1.
Definition SEEK_END : Z := 2.
Definition EAGAIN : Z := 11.
Definition EDEADLK : Z := 35.

Record flock := Flock { l_type : Z; l_whence : Z; l_start : Z; l_len : Z; l_pid : Z }.

(** [os_gets] is fgets on standard input, as the characters that it stores. *)
Class LockOS (K : Type) := {
  os_gets : K -> nat -> K * option cstr;
  os_open_rdwr : K -> cstr -> K * (Z + Z);
  os_st_mode : K -> Z -> K * (Z + Z);
  os_fcntl_lock : K -> Z -> Z -> flock -> K * (Z + flock);
  os_getpid : K -> K * Z;
  os_calloc : K -> Z -> K * bool
}.

(** ** sscanf *)

(** The directives of the formats: white space, "%c", "%d" and "%lld"; what
    they store. A number that does not fit is brought into range as strtoll
    does, and "%d" takes its low bits. *)
Inductive directive := Blank | CharD | IntD | LongLongD.
Inductive stored := SChar (c : ascii) | SNum (z : Z).

(** The values stored, in order; their number is the result if that is not
    EOF. *)
Fixpoint sscanf (s : cstr) (format : list directive) : list stored :=
  match format with
  | [] => []
  | Blank :: format => sscanf (skip_space s) format
  | CharD :: format => match s with [] => [] | c :: s => SChar c :: sscanf s format end
  | d :: format =>
      let '(v, rest, _) := strtol s 10 in
      if bool_decide (rest = s) then []
      else SNum (match d with IntD => to_signed 32 v | _ => v end) :: sscanf rest format
  end.

(** " %c %c %lld %lld %c", after "%d" if there are several files. *)
Definition command_format : list directive := [Blank; CharD; Blank; CharD; Blank; LongLongD; Blank; LongLongD; Blank; CharD].
Definition numbered_format : list directive := IntD :: command_format.

(** The variables that sscanf fills, which keep their values from one command
    to the next; before the first one they may have any. *)
Record vars := Vars { fileNum : Z; cmdCh : ascii; lock : ascii; st : Z; len : Z; whence : ascii }.

(** Assignment in the order of the arguments of sscanf. *)
Definition store_command (v : vars) (l : list stored) : vars :=
  let char i d := match l !! i with Some (SChar c) => c | _ => d end in
  let num i d := match l !! i with Some (SNum z) => z | _ => d end in
  Vars (fileNum v) (char 0%nat (cmdCh v)) (char 1%nat (lock v)) (num 2%nat (st v)) (num 3%nat (len v)) (char 4%nat (whence v)).

Definition scan_command (several : bool) (line : cstr) (v : vars) : nat * vars :=
  let v := Vars (fileNum v) (cmdCh v) (lock v) (st v) (len v) "s"%char in
  if several then
    let l := sscanf line numbered_format in
    let num := match l with SNum z :: _ => z | _ => fileNum v end in
    (length l, store_command (Vars num (cmdCh v) (lock v) (st v) (len v) (whence v)) (tail l))
  else
    let l := sscanf line command_format in
    (length l, store_command (Vars 1 (cmdCh v) (lock v) (st v) (len v) (whence v)) l).

Section Code.
Context `{ErrnoText} {K : Type} {OS : LockOS K}.
Abbreviation PM := (M (proc K)).

Definition mandLockingEnabled (fd : Z) : PM bool :=
  let! sb := syscall (fun k => os_st_mode k fd) in
  match sb with
  | None => errExit (lit "stat")
  | Some st_mode => ret (has_bit st_mode S_ISGID && negb (has_bit st_mode S_IXGRP))
  end.

Definition locking_text (mandatory : bool) : cstr := if mandatory then lit "mandatory" else lit "advisory".

(** "%-10s" *)
Definition left10 (t : cstr) : cstr := t ++ replicate (10 - length t) " "%char.
(** "%2d" *)
Definition right2 (z : Z) : cstr := replicate (2 - length (show_Z z)) " "%char ++ show_Z z.

(** [files]: the file names with their descriptors, from [argv[1]] on. *)
Definition displayCmdFmt (files : list (cstr * Z)) : PM unit :=
  (match files with
   | [_] => putout (lit "
Format: cmd lock start length [whence]

")
   | _ =>
       putout (lit "
Format: file-num cmd lock start length [whence]

") ;;;
       putout (lit "    file-num is a number from the following list
") ;;;
       for_each (zip (seqZ 1 (Z.of_nat (length files))) files) (fun '(j, (name, fd)) =>
         let! m := mandLockingEnabled fd in
         putout (lit "        " ++ right2 j ++ lit "  " ++ left10 name ++ lit " [" ++ locking_text m ++ lit " locking]" ++ [NEWLINE]))
   end) ;;;
  for_each [lit "    'cmd' is 'g' (GETLK), 's' (SETLK), or 'w' (SETLKW)";
            lit "        or for OFD locks: 'G' (OFD_GETLK), 'S' (OFD_SETLK), or 'W' (OFD_SETLKW)";
            lit "    'lock' is 'r' (READ), 'w' (WRITE), or 'u' (UNLOCK)";
            lit "    'start' and 'length' specify byte range to lock";
            lit "    'whence' is 's' (SEEK_SET, default), 'c' (SEEK_CUR), or 'e' (SEEK_END)" ++ [NEWLINE]]
    (fun t => putout (t ++ [NEWLINE])).

Definition command_code (cmdCh : ascii) : Z :=
  match cmdCh with
  | "G" => F_OFD_GETLK | "S" => F_OFD_SETLK | "W" => F_OFD_SETLKW
  | "g" => F_GETLK | "s" => F_SETLK | _ => F_SETLKW
  end%char.

Definition lock_request (v : vars) : flock :=
  Flock (match lock v with "r" => F_RDLCK | "w" => F_WRLCK | _ => F_UNLCK end%char)
    (match whence v with "c" => SEEK_CUR | "e" => SEEK_END | _ => SEEK_SET end%char) (st v) (len v) 0.

Definition say (t : cstr) : PM unit :=
  let! pid := syscall_ os_getpid in
  putout (lit "[PID=" ++ show_Z pid ++ lit "] " ++ t ++ [NEWLINE]).

(** The request and its report. *)
Definition perform (fd : Z) (v : vars) : PM unit :=
  let cmd := command_code (cmdCh v) in
  let! status := syscall (fun k => os_fcntl_lock k fd cmd (lock_request v)) in
  if (cmd =? F_GETLK) || (cmd =? F_OFD_GETLK) then
    match status with
    | None => errMsg (lit "fcntl")
    | Some fl =>
        if l_type fl =? F_UNLCK then say (lit "Lock can be placed")
        else say (lit "Denied by " ++ (if l_type fl =? F_RDLCK then lit "READ" else lit "WRITE") ++ lit " lock on " ++
                  show_Z (l_start fl) ++ lit ":" ++ show_Z (l_len fl) ++ lit " (held by PID " ++ show_Z (l_pid fl) ++ lit ")")
    end
  else
    match status with
    | Some _ => say (if bool_decide (lock v = "u"%char) then lit "unlocked" else lit "got lock")
    | None =>
        let! s := get in
        if (errno s =? EAGAIN) || (errno s =? EACCES) then say (lit "failed (incompatible lock)")
        else if errno s =? EDEADLK then say (lit "failed (deadlock)")
        else errMsg (lit "fcntl")
    end.

(** [strchr] of a character that is not null. *)
Definition one_of (c : ascii) (s : cstr) : bool := bool_decide (c ∈ s) || bool_decide (c = NUL).

(** A command, on a line whose last character has been removed. *)
Definition run_command (files : list (cstr * Z)) (line : cstr) (v : vars) : PM vars :=
  let several := negb (length files =? 1)%nat in
  let (numRead, v) := scan_command several line v in
  if (fileNum v <? 1) || (Z.of_nat (length files) <? fileNum v) then
    putout (lit "File number must be in range 1 to " ++ show_Z (Z.of_nat (length files)) ++ [NEWLINE]) ;;; ret v
  else
    match files !! Z.to_nat (fileNum v - 1) with
    | None => undef
    | Some (_, fd) =>
        if negb (if several then 5 <=? numRead else 4 <=? numRead)%nat ||
           negb (one_of (cmdCh v) (lit "gswGSW")) || negb (one_of (lock v) (lit "rwu")) || negb (one_of (whence v) (lit "sce")) then
          putout (lit "Invalid command!" ++ [NEWLINE]) ;;; ret v
        else perform fd v ;;; ret v
    end.

(** The loop over lines, a unit of fuel for each: the last character goes,
    whatever it is. *)
Fixpoint command_loop (fuel : nat) (files : list (cstr * Z)) (v : vars) : PM unit :=
  match fuel with
  | O => undef
  | S fuel =>
      let! pid := syscall_ os_getpid in
      putout (lit "PID=" ++ show_Z pid ++ lit "> ") ;;;
      fflush_stdout ;;;
      let! r := syscall_ (fun k => os_gets k MAX_LINE) in
      match r with
      | None => exit3 EXIT_SUCCESS
      | Some buf =>
          match string_in buf with
          | [] => undef
          | text =>
              let line := take (length text - 1) text in
              match line with
              | [] => command_loop fuel files v
              | c :: _ =>
                  if bool_decide (c = "?"%char) then displayCmdFmt files ;;; command_loop fuel files v
                  else let! v := run_command files line v in command_loop fuel files v
              end
          end
      end
  end.

Fixpoint open_files (names : list cstr) : PM (list (cstr * Z)) :=
  match names with
  | [] => ret []
  | name :: names =>
      let! fd := syscall (fun k => os_open_rdwr k name) in
      match fd with
      | None => errExit (lit "open (" ++ name ++ lit ")")
      | Some fd => let! rest := open_files names in ret ((name, fd) :: rest)
      end
  end.

(** [junk] is what the variables hold before anything is stored in them. *)
Definition i_fcntl_main (fuel : nat) (junk : vars) (argv : list cstr) : PM unit :=
  match argv with
  | prog :: name :: names =>
      if bool_decide (name = lit "--help") then usageErr (prog ++ lit " file..." ++ [NEWLINE])
      else
        let! ok := syscall_ (fun k => os_calloc k (Z.of_nat (length argv) * 4)) in
        when (negb ok) (errExit (lit "calloc")) ;;;
        let! files := open_files (name :: names) in
        putout (lit "File       Locking" ++ [NEWLINE] ++ lit "----       -------" ++ [NEWLINE]) ;;;
        for_each files (fun '(name, fd) =>
          let! m := mandLockingEnabled fd in putout (left10 name ++ lit " " ++ locking_text m ++ [NEWLINE])) ;;;
        putout ([NEWLINE] ++ lit "Enter ? for help" ++ [NEWLINE]) ;;;
        command_loop fuel files junk
  | prog :: _ => usageErr (prog ++ lit " file..." ++ [NEWLINE])
  | [] => usageErr (lit " file..." ++ [NEWLINE])
  end.

End Code.

(** ** Numbers and characters of a command *)

Lemma skip_blank c s : isspace c = false -> skip_space (" "%char :: c :: s) = c :: s.
Proof. intros Hc. simpl. by rewrite Hc. Qed.

Lemma skip_show z rest : 0 <= z -> skip_space (show_Z z ++ rest) = show_Z z ++ rest.
Proof.
  intros Hz. unfold show_Z. rewrite (proj2 (Z.ltb_ge z 0)) by lia. rewrite show_digits_app.
  destruct (show_digits_head (Z.to_nat (Z.log2 z)) z ([] ++ rest)) as (d & r & Hd & ->); [lia|].
  destruct (digit_char_neutral d Hd) as (H1 & _). cbn [skip_space]. by rewrite H1.
Qed.

Lemma sscanf_blank s format : sscanf s (Blank :: format) = sscanf (skip_space s) format.
Proof. done. Qed.
Lemma sscanf_char c s format : sscanf (c :: s) (CharD :: format) = SChar c :: sscanf s format.
Proof. done. Qed.

(** A number in a command is read back. *)
Lemma sscanf_number z rest d format : d = IntD /\ 0 <= z <= INT_MAX \/ d = LongLongD /\ 0 <= z <= LONG_MAX ->
  digits_stop rest -> sscanf (show_Z z ++ rest) (d :: format) = SNum z :: sscanf rest format.
Proof.
  intros Hd Hr. assert (Hz : 0 <= z <= LONG_MAX) by (unfold INT_MAX, LONG_MAX in *; lia).
  assert (Hne : rest <> show_Z z ++ rest).
  { intros He. apply (f_equal length) in He. rewrite length_app in He. destruct (show_Z_nonempty_char z) as (c & r & Hs).
    rewrite Hs in He. simpl in He. lia. }
  destruct Hd as [[-> Hz']|[-> _]]; cbn [sscanf]; rewrite (strtol_show_app z rest Hz Hr), bool_decide_eq_false_2 by done; [|done].
  rewrite to_signed_small; [done|lia|]. unfold INT_MAX in Hz'. lia.
Qed.

Definition long_ok (x : stored) : Prop := match x with SNum z => LONG_MIN <= z <= LONG_MAX | SChar _ => True end.

Lemma sscanf_range s format : Forall long_ok (sscanf s format).
Proof.
  revert s. induction format as [|d format IH]; intros s; [by constructor|].
  destruct d; cbn [sscanf]; [apply IH|destruct s; [by constructor|by constructor]| |].
  all: destruct (strtol s 10) as [[v rest] e] eqn:Hs; apply strtol_range in Hs; case_bool_decide; constructor; [|apply IH].
  - pose proof (to_signed_range 32 v ltac:(lia)). unfold long_ok, LONG_MIN, LONG_MAX. change (2 ^ (32 - 1)) with 2147483648 in *. lia.
  - done.
Qed.

(** ** What is asked of the kernel *)

(** Standard input, the requests made so far, and the descriptors opened. *)
Class LockLaws (K : Type) {OS : LockOS K} := {
  stdin : K -> cstr;
  requests : K -> list (Z * Z * flock);
  descriptors : K -> list Z;
  ll_gets k n : let (k', r) := os_gets k (S n) in
    requests k' = requests k /\ descriptors k' = descriptors k /\
    match r with
    | None => stdin k = []
    | Some line => stdin k <> [] /\ take_line n (stdin k) = (line, stdin k')
    end;
  ll_open k name : match os_open_rdwr k name with
    | (k', r) => stdin k' = stdin k /\ requests k' = requests k /\
        descriptors k' = descriptors k ++ match r with inr fd => [fd] | inl _ => [] end
    end;
  ll_fcntl k fd cmd fl : let k' := (os_fcntl_lock k fd cmd fl).1 in
    stdin k' = stdin k /\ descriptors k' = descriptors k /\ requests k' = requests k ++ [(fd, cmd, fl)];
  ll_other k k' : (exists fd, k' = (os_st_mode k fd).1) \/ k' = (os_getpid k).1 \/ (exists n, k' = (os_calloc k n).1) ->
    stdin k' = stdin k /\ requests k' = requests k /\ descriptors k' = descriptors k
}.

(** A request that the interface of fcntl allows, on one of the files. *)
Definition valid_request (fds : list Z) (r : Z * Z * flock) : Prop :=
  let '(fd, cmd, fl) := r in
  fd ∈ fds /\ cmd ∈ [F_GETLK; F_SETLK; F_SETLKW; F_OFD_GETLK; F_OFD_SETLK; F_OFD_SETLKW] /\
  l_type fl ∈ [F_RDLCK; F_WRLCK; F_UNLCK] /\ l_whence fl ∈ [SEEK_SET; SEEK_CUR; SEEK_END] /\ l_pid fl = 0 /\
  LONG_MIN <= l_start fl <= LONG_MAX /\ LONG_MIN <= l_len fl <= LONG_MAX.

(** The variables hold numbers of their types. *)
Definition vars_ok (v : vars) : Prop := LONG_MIN <= st v <= LONG_MAX /\ LONG_MIN <= len v <= LONG_MAX.

Lemma store_command_ok v l : vars_ok v -> Forall long_ok l -> vars_ok (store_command v l).
Proof.
  intros [H1 H2] Hl. rewrite Forall_lookup in Hl. split; cbn.
  - destruct (l !! 2%nat) as [[]|] eqn:Hi; try done. apply (Hl _ _ Hi).
  - destruct (l !! 3%nat) as [[]|] eqn:Hi; try done. apply (Hl _ _ Hi).
Qed.

Lemma scan_command_ok several line v : vars_ok v -> vars_ok (scan_command several line v).2.
Proof.
  intros Hv. unfold scan_command. destruct several; cbn [snd]; apply store_command_ok; try done; [|apply sscanf_range].
  pose proof (sscanf_range line numbered_format) as H. destruct H; [by constructor|done].
Qed.

Lemma command_code_valid c : command_code c ∈ [F_GETLK; F_SETLK; F_SETLKW; F_OFD_GETLK; F_OFD_SETLK; F_OFD_SETLKW].
Proof. apply (bool_decide_eq_true_1 _). destruct c as [[] [] [] [] [] [] [] []]; by vm_compute. Qed.

Lemma lock_request_valid fds fd v : vars_ok v -> fd ∈ fds -> valid_request fds (fd, command_code (cmdCh v), lock_request v).
Proof.
  intros [H1 H2] Hfd. split; [done|]. split; [apply command_code_valid|]. unfold lock_request. cbn [l_type l_whence l_pid l_start l_len].
  split_and!; try done; try apply H1; try apply H2.
  - generalize (lock v). intros c. apply (bool_decide_eq_true_1 _). destruct c as [[] [] [] [] [] [] [] []]; by vm_compute.
  - generalize (whence v). intros c. apply (bool_decide_eq_true_1 _). destruct c as [[] [] [] [] [] [] [] []]; by vm_compute.
Qed.

Section Locking.
Context `{ET : ErrnoText} {K : Type} {OS : LockOS K} {LL : LockLaws K}.
Implicit Types (s : proc K).

(** Since [k0] only valid requests have been made; at the end of the program,
    and while it has the files [fds] and [input] is still to be read. *)
Definition asked (k0 k : K) : Prop :=
  exists new, requests k = requests k0 ++ new /\ Forall (valid_request (descriptors k)) new.
Definition asking (k0 : K) (fds : list Z) (input : cstr) s : Prop :=
  stdin (kern s) = input /\ descriptors (kern s) = fds /\ asked k0 (kern s).
Definition ends_asked (k0 : K) (e : exit_kind) s : Prop := asked k0 (kern s).

Lemma asking_quiet k0 fds input s k' :
  stdin k' = stdin (kern s) /\ requests k' = requests (kern s) /\ descriptors k' = descriptors (kern s) ->
  asking k0 fds input s -> forall s', kern s' = k' -> asking k0 fds input s'.
Proof. intros (H1 & H2 & H3) H s' Hs. unfold asking, asked in *. by rewrite Hs, H1, H2, H3. Qed.

Lemma asking_same k0 fds input s s' : kern s' = kern s -> asking k0 fds input s -> asking k0 fds input s'.
Proof. intros H. unfold asking. by rewrite H. Qed.

Lemma asking_ends k0 fds input s : asking k0 fds input s -> forall s' e, kern s' = kern s -> ends_asked k0 e s'.
Proof. intros (_ & _ & H) s' e Hs. unfold ends_asked. by rewrite Hs. Qed.

Lemma wp_says k0 fds input t s : asking k0 fds input s -> wp (putout t) (fun _ => asking k0 fds input) (ends_asked k0) s.
Proof. intros H. apply wp_putout. intros s' Hs _. by apply (asking_same _ _ _ s). Qed.

Lemma wp_asking_fails {A} k0 fds input msg (Q : A -> proc K -> Prop) s :
  asking k0 fds input s -> wp (errExit msg) Q (ends_asked k0) s.
Proof. intros H. apply wp_errExit. intros e s' Hs. by eapply asking_ends. Qed.

Lemma wp_mandLockingEnabled k0 fds input fd s :
  asking k0 fds input s -> wp (mandLockingEnabled fd) (fun _ => asking k0 fds input) (ends_asked k0) s.
Proof.
  intros H. apply wp_bind, wp_syscall; intros k r Hk;
    pose proof (ll_other (kern s) k (or_introl (ex_intro _ fd (eq_sym (f_equal fst Hk))))) as Hq.
  - apply (wp_asking_fails k0 fds input). by apply (asking_quiet k0 fds input s k).
  - apply wp_ret. by apply (asking_quiet k0 fds input s k).
Qed.

Lemma wp_getpid k0 fds input (Q : Z -> proc K -> Prop) E s :
  asking k0 fds input s -> (forall pid s', asking k0 fds input s' -> Q pid s') -> wp (syscall_ os_getpid) Q E s.
Proof.
  intros H HQ. apply wp_syscall_, HQ.
  apply (asking_quiet k0 fds input s (os_getpid (kern s)).1); [apply ll_other; right; by left|done|done].
Qed.

Lemma wp_say_pid k0 fds input t s : asking k0 fds input s -> wp (say t) (fun _ => asking k0 fds input) (ends_asked k0) s.
Proof. intros H. apply wp_bind, (wp_getpid k0 fds input); [done|]. intros pid s1 H1. by apply wp_says. Qed.

Lemma wp_complains k0 fds input msg s : asking k0 fds input s -> wp (errMsg msg) (fun _ => asking k0 fds input) (ends_asked k0) s.
Proof. intros H. apply wp_errMsg. intros s' Hs _. by apply (asking_same _ _ _ s). Qed.

Lemma wp_displayCmdFmt k0 fds input files s :
  asking k0 fds input s -> wp (displayCmdFmt files) (fun _ => asking k0 fds input) (ends_asked k0) s.
Proof.
  intros H. apply wp_seq_inv with (I := asking k0 fds input).
  - destruct files as [|[] [|]]; [..|idtac]; try by apply wp_says.
    all: apply wp_seq_inv with (I := asking k0 fds input); [by apply wp_says|]; intros _ s1 H1.
    all: apply wp_seq_inv with (I := asking k0 fds input); [by apply wp_says|]; intros _ s2 H2.
    all: apply wp_for_each_inv; [done|]; intros [j [name fd]] s3 _ H3.
    all: apply wp_seq_inv with (I := asking k0 fds input); [by apply wp_mandLockingEnabled|]; intros m s4 H4; by apply wp_says.
  - intros _ s1 H1. apply wp_for_each_inv; [done|]. intros t s2 _ H2. by apply wp_says.
Qed.

Lemma wp_request k0 fds input fd v s :
  fd ∈ fds -> vars_ok v -> asking k0 fds input s ->
  wp (perform fd v) (fun _ => asking k0 fds input) (ends_asked k0) s.
Proof.
  intros Hfd Hv (Hi & Hd & new & Hr & Hval). unfold perform. cbv zeta. apply wp_bind.
  pose proof (ll_fcntl (kern s) fd (command_code (cmdCh v)) (lock_request v)) as (H1 & H2 & H3).
  assert (Hnow : forall k s', (os_fcntl_lock (kern s) fd (command_code (cmdCh v)) (lock_request v)).1 = k -> kern s' = k ->
    asking k0 fds input s').
  { intros k s' Hk Hs. rewrite Hk in *. split_and!; [congruence..|]. exists (new ++ [(fd, command_code (cmdCh v), lock_request v)]).
    rewrite Hs, H3, Hr, app_assoc, H2, Hd in *. split; [done|]. apply Forall_app. split; [done|].
    apply Forall_singleton. by apply lock_request_valid. }
  apply wp_syscall; intros k r Hk.
  - specialize (Hnow k (set_errno r (set_kern k s)) (f_equal fst Hk) eq_refl). destruct (_ || _); [by apply wp_complains|].
    apply wp_bind, wp_get. repeat (case_match; [by apply wp_say_pid|]). by apply wp_complains.
  - specialize (Hnow k (set_kern k s) (f_equal fst Hk) eq_refl). destruct (_ || _); [case_match; by apply wp_say_pid|by apply wp_say_pid].
Qed.

Lemma wp_locking_command k0 files input line v s :
  vars_ok v -> asking k0 files.*2 input s ->
  wp (run_command files line v) (fun v' s' => vars_ok v' /\ asking k0 files.*2 input s') (ends_asked k0) s.
Proof.
  intros Hv H. unfold run_command. pose proof (scan_command_ok (negb (length files =? 1)%nat) line v Hv) as Hv'.
  destruct (scan_command _ _ _) as [numRead v']. cbn [snd] in Hv'.
  assert (Hsay : forall t, wp (putout t ;;; ret v') (fun v' s' => vars_ok v' /\ asking k0 files.*2 input s') (ends_asked k0) s).
  { intros t. apply wp_seq_inv with (I := asking k0 files.*2 input); [by apply wp_says|]. intros _ s1 H1. by apply wp_ret. }
  destruct (_ || _) eqn:Hn; [apply Hsay|]. apply orb_false_iff in Hn as [Hn1 Hn2].
  destruct (files !! _) as [[name fd]|] eqn:Hf; [|apply lookup_ge_None in Hf; lia].
  destruct (_ || _); [apply Hsay|]. apply wp_seq_inv with (I := asking k0 files.*2 input); [|intros _ s1 H1; by apply wp_ret].
  apply wp_request; [|done|done]. apply list_elem_of_lookup_2 in Hf. by apply (list_elem_of_fmap_2 snd) in Hf.
Qed.

Lemma wp_command_loop fuel k0 files input v s :
  (length input < fuel)%nat -> NUL ∉ input -> vars_ok v -> asking k0 files.*2 input s ->
  wp (command_loop fuel files v) (fun _ _ => False) (ends_asked k0) s.
Proof.
  revert input v s. induction fuel as [|fuel IH]; intros input v s Hf Hn Hv H; [lia|]. cbn [command_loop].
  apply wp_bind, (wp_getpid k0 files.*2 input); [done|]. intros pid s1 H1.
  apply wp_seq_inv with (I := asking k0 files.*2 input); [by apply wp_says|]. intros _ s2 H2.
  apply wp_bind, wp_modify, wp_bind, wp_syscall_. cbn [kern set_out]. destruct H2 as (Hi & Hd & Ha).
  pose proof (ll_gets (kern s2) (MAX_LINE - 1)) as Hl. change (S (MAX_LINE - 1)) with MAX_LINE in Hl.
  destruct (os_gets (kern s2) MAX_LINE) as [k [buf|]]; cbn [fst snd]; destruct Hl as (Hr & Hd' & Hl).
  - destruct Hl as [Hne Ht]. rewrite Hi in *. pose proof (take_line_app (MAX_LINE - 1) input) as Happ.
    pose proof (take_line_nil (MAX_LINE - 2) input) as Hnil. change (S (MAX_LINE - 2)) with (MAX_LINE - 1)%nat in Hnil.
    pose proof (take_line_shorter _ _ _ _ Ht Hne) as Hlt. rewrite Ht in Happ, Hnil. cbn [fst snd] in *.
    assert (Hnb : NUL ∉ buf) by (intros Hb; apply Hn; rewrite <-Happ; apply elem_of_app; by left).
    assert (Hnk : NUL ∉ stdin k) by (intros Hb; apply Hn; rewrite <-Happ; apply elem_of_app; by right).
    rewrite (string_in_id buf Hnb). destruct buf as [|c0 buf]; [by destruct Hne; apply Hnil|].
    assert (H3 : forall s3, kern s3 = k -> asking k0 files.*2 (stdin k) s3).
    { intros s3 Hs3. unfold asking, asked in *. rewrite Hs3, Hr, Hd'. by split_and!. }
    destruct (take _ (c0 :: buf)) as [|c line]; [apply (IH (stdin k)); [lia|done|done|by apply H3]|].
    case_bool_decide.
    + apply wp_seq_inv with (I := asking k0 files.*2 (stdin k)); [by apply wp_displayCmdFmt, H3|].
      intros _ s3 H4. apply (IH (stdin k)); [lia|done..].
    + apply wp_bind. eapply wp_mono; [by apply wp_locking_command; [|apply H3]| |done].
      intros v' s3 [Hv' H4]. apply (IH (stdin k)); [lia|done..].
  - apply wp_exit3. intros s3 Hs3. unfold ends_asked, asked in *. cbn [kern set_kern] in Hs3. by rewrite Hs3, Hr, Hd'.
Qed.

Lemma wp_open_files k0 names fds input s :
  stdin (kern s) = input -> descriptors (kern s) = fds -> requests (kern s) = requests k0 ->
  wp (open_files names) (fun files s' => stdin (kern s') = input /\ descriptors (kern s') = fds ++ files.*2 /\
    requests (kern s') = requests k0) (ends_asked k0) s.
Proof.
  revert fds s. induction names as [|name names IH]; intros fds s Hi Hd Hr; cbn [open_files].
  { apply wp_ret. by rewrite app_nil_r. }
  apply wp_bind, wp_syscall; intros k r Hk; pose proof (ll_open (kern s) name) as Hl; rewrite Hk in Hl; destruct Hl as (H1 & H2 & H3).
  - apply wp_errExit. intros e s' Hs. exists []. rewrite Hs, app_nil_r. cbn. split; [congruence|by constructor].
  - apply wp_bind. eapply wp_mono; [apply (IH (fds ++ [r])); cbn; congruence| |done].
    intros files s' (H4 & H5 & H6). apply wp_ret. rewrite H5, <-app_assoc. by split_and!.
Qed.

(** For every input without nulls the program comes to an end, without
    undefined behaviour, whatever its variables hold at first; and each request
    it has made is one that fcntl allows, for a file that it has opened. *)
Theorem only_valid_requests (junk : vars) (prog name : cstr) (names : list cstr) s :
  NUL ∉ stdin (kern s) -> descriptors (kern s) = [] -> vars_ok junk ->
  wp (i_fcntl_main (S (length (stdin (kern s)))) junk (prog :: name :: names)) (fun _ _ => False)
    (fun _ s' => asked (kern s) (kern s')) s.
Proof.
  intros Hn Hd Hv. set (input := stdin (kern s)) in *. unfold i_fcntl_main.
  assert (H0 : asking (kern s) [] input s) by (split_and!; [done..|exists []; rewrite app_nil_r; by split; [|constructor]]).
  case_bool_decide; [apply wp_usageErr; intros s' Hs; by apply (asking_ends _ _ _ _ H0 s' EXIT_FAILURE)|].
  apply wp_bind, wp_syscall_. destruct (ll_other (kern s) (os_calloc (kern s) (Z.of_nat (length (prog :: name :: names)) * 4)).1) as (H1 & H2 & H3);
    [right; right; by eexists|]. set (k := (os_calloc _ _).1) in *. clearbody k.
  apply wp_bind, wp_when; intros _.
  { apply wp_errExit. intros e s' Hs. exists []. rewrite Hs, app_nil_r. split; [done|constructor]. }
  apply wp_bind. eapply wp_mono; [apply (wp_open_files (kern s) (name :: names) [] input); cbn; [exact H1|by rewrite H3|exact H2]| |done].
  intros files s1 (H4 & H5 & H6). assert (H7 : asking (kern s) files.*2 input s1).
  { split_and!; [done..|]. exists []. rewrite app_nil_r. by split; [|constructor]. }
  apply wp_seq_inv with (I := asking (kern s) files.*2 input); [by apply wp_says|]. intros _ s2 H8.
  apply wp_seq_inv with (I := asking (kern s) files.*2 input).
  { apply wp_for_each_inv; [done|]. intros [nm fd] s3 _ H9.
    apply wp_seq_inv with (I := asking (kern s) files.*2 input); [by apply wp_mandLockingEnabled|]. intros m s4 H10. by apply wp_says. }
  intros _ s3 H9. apply wp_seq_inv with (I := asking (kern s) files.*2 input); [by apply wp_says|]. intros _ s4 H10.
  apply (wp_command_loop _ _ _ input); [lia|done..].
Qed.

(** ** A command is carried out as it is written *)

Definition command_line (num : option Z) (cmd lck : ascii) (start length : Z) (whence : ascii) : cstr :=
  match num with Some n => show_Z n ++ [" "%char] | None => [] end ++
  [cmd; " "%char; lck; " "%char] ++ show_Z start ++ [" "%char] ++ show_Z length ++ [" "%char; whence].

Lemma sscanf_command cmd lck start length whence :
  isspace cmd = false -> isspace lck = false -> isspace whence = false ->
  0 <= start <= LONG_MAX -> 0 <= length <= LONG_MAX ->
  sscanf (command_line None cmd lck start length whence) command_format =
    [SChar cmd; SChar lck; SNum start; SNum length; SChar whence].
Proof.
  intros Hc Hl Hw Hs Hlen. unfold command_line, command_format. cbn [app].
  assert (Hb : forall z r, 0 <= z -> skip_space (" "%char :: show_Z z ++ r) = show_Z z ++ r) by (intros; cbn [skip_space]; by apply skip_show).
  rewrite sscanf_blank. replace (skip_space (cmd :: _)) with (cmd :: " "%char :: lck :: " "%char :: show_Z start ++ " "%char :: show_Z length ++ [" "%char; whence])
    by (cbn [skip_space]; by rewrite Hc).
  rewrite sscanf_char, sscanf_blank, skip_blank, sscanf_char by done.
  rewrite sscanf_blank, Hb, sscanf_number by (first [lia|by right|by vm_compute]).
  rewrite sscanf_blank, Hb, sscanf_number by (first [lia|by right|by vm_compute]).
  by rewrite sscanf_blank, skip_blank.
Qed.

Lemma sscanf_numbered (num : nat) cmd lck start length whence : Z.of_nat num + 1 <= INT_MAX ->
  sscanf (command_line (Some (Z.of_nat num + 1)) cmd lck start length whence) numbered_format =
    SNum (Z.of_nat num + 1) :: sscanf (command_line None cmd lck start length whence) command_format.
Proof.
  intros Hn. unfold command_line at 1, numbered_format. rewrite <-app_assoc.
  by rewrite sscanf_number by (first [left; split; [done|lia]|by vm_compute]).
Qed.

Lemma command_chars c : c ∈ lit "gswGSW" \/ c ∈ lit "rwu" \/ c ∈ lit "sce" -> isspace c = false.
Proof.
  assert (Hall : Forall (fun c => isspace c = false) (lit "gswGSW" ++ lit "rwu" ++ lit "sce"))
    by (apply (bool_decide_eq_true_1 _); by vm_compute).
  rewrite !Forall_app, !Forall_forall in Hall. naive_solver.
Qed.

(** A command written with blanks between its parts makes the request
    that it says, on the file with its number or on the only file. *)
Theorem command_carried_out (files : list (cstr * Z)) (num : nat) (cmd lck wh : ascii) (start length : Z) (v : vars) s :
  cmd ∈ lit "gswGSW" -> lck ∈ lit "rwu" -> wh ∈ lit "sce" -> 0 <= start <= LONG_MAX -> 0 <= length <= LONG_MAX ->
  (num < List.length files)%nat -> Z.of_nat (List.length files) <= INT_MAX ->
  let several := negb (List.length files =? 1)%nat in
  run_command files (command_line (if several then Some (Z.of_nat num + 1) else None) cmd lck start length wh) v s =
  (let v' := Vars (Z.of_nat num + 1) cmd lck start length wh in
   perform (default 0 (files.*2 !! num)) v' ;;; ret v')%c s.
Proof.
  intros Hc Hl Hw Hs Hlen Hnum Hmax several.
  assert (Hspace : forall c, c ∈ lit "gswGSW" \/ c ∈ lit "rwu" \/ c ∈ lit "sce" -> isspace c = false) by apply command_chars.
  assert (Hscan := sscanf_command cmd lck start length wh
    (Hspace _ (or_introl Hc)) (Hspace _ (or_intror (or_introl Hl))) (Hspace _ (or_intror (or_intror Hw))) Hs Hlen).
  assert (Hv : scan_command several (command_line (if several then Some (Z.of_nat num + 1) else None) cmd lck start length wh) v =
    ((if several then 6 else 5)%nat, Vars (Z.of_nat num + 1) cmd lck start length wh)).
  { unfold scan_command, several. destruct (Nat.eqb_spec (List.length files) 1) as [H1|H1]; cbn [negb].
    - assert (num = 0%nat) as -> by lia. by rewrite Hscan.
    - by rewrite (sscanf_numbered num), Hscan by lia. }
  unfold run_command. fold several. rewrite Hv. cbn [fileNum].
  rewrite (proj2 (Z.ltb_ge _ _)), (proj2 (Z.ltb_ge _ _)) by lia. cbn [orb].
  replace (Z.to_nat (Z.of_nat num + 1 - 1)) with num by lia.
  destruct (lookup_lt_is_Some_2 files num Hnum) as [[name fd] Hf]. rewrite Hf, list_lookup_fmap, Hf. cbn [fmap option_fmap option_map snd default].
  assert (Hone : forall c t, c ∈ t -> one_of c t = true) by (intros c t H; unfold one_of; by rewrite bool_decide_eq_true_2).
  cbn [cmdCh lock whence]. rewrite !Hone by done. by destruct several.
Qed.
End Locking.

(** ** Runs *)

(** Standard input, the requests, the descriptors; every request succeeds. *)
Record demo_locks := DemoLocks { d_stdin : cstr; d_requests : list (Z * Z * flock); d_fds : list Z }.

#[export] Instance demo_lock_os : LockOS demo_locks := {|
  os_gets k n :=
    match n, d_stdin k with
    | S n, _ :: _ => let (line, rest) := take_line n (d_stdin k) in (DemoLocks rest (d_requests k) (d_fds k), Some line)
    | _, _ => (k, None)
    end;
  os_open_rdwr k name :=
    let fd := 3 + Z.of_nat (length (d_fds k)) in (DemoLocks (d_stdin k) (d_requests k) (d_fds k ++ [fd]), inr fd);
  os_st_mode k fd := (k, inr S_ISGID);
  os_fcntl_lock k fd cmd fl := (DemoLocks (d_stdin k) (d_requests k ++ [(fd, cmd, fl)]) (d_fds k), inr fl);
  os_getpid k := (k, 77);
  os_calloc k n := (k, true)
|}.

#[export] Instance demo_lock_laws : LockLaws demo_locks.
Proof.
  refine {| stdin := d_stdin; requests := d_requests; descriptors := d_fds |}.
  - intros [i r d] n. simpl. destruct i as [|a i]; [done|].
    destruct (take_line n (a :: i)) as [line rest] eqn:Ht. simpl. by split_and!.
  - by intros [i r d] name.
  - by intros [i r d] fd cmd fl.
  - intros k k' [[fd ->] | [-> | [n ->]]]; done.
Defined.

#[export] Instance demo_lock_texts : ErrnoText :=
  {| MAX_ENAME := 0; ename := fun _ => []; strerror := fun _ => [] |}.

Definition demo_junk : vars := Vars 7 NUL NUL 0 0 NUL.
Definition demo_input : cstr := lit "2 w w 10 20 e" ++ [NEWLINE; NEWLINE] ++ lit "?" ++ [NEWLINE] ++ lit "1 g r 0 0" ++ [NEWLINE].
Definition demo_proc (input : cstr) : proc demo_locks := Proc (DemoLocks input [] []) 0 None [] [] [].

Definition made (junk : vars) (argv : list cstr) (input : cstr) : option (list (Z * Z * flock)) :=
  match i_fcntl_main (S (length input)) junk argv (demo_proc input) with Exit EXIT_SUCCESS s => Some (d_requests (kern s)) | _ => None end.

Lemma only_valid_requests_witness :
  let s := demo_proc demo_input in
  made demo_junk [lit "i_fcntl_locking"; lit "a"; lit "b"] demo_input =
    Some [(4, F_SETLKW, Flock F_WRLCK SEEK_END 10 20 0); (3, F_GETLK, Flock F_RDLCK SEEK_SET 0 0 0)] /\
  wp (i_fcntl_main (S (length (stdin (kern s)))) demo_junk [lit "i_fcntl_locking"; lit "a"; lit "b"]) (fun _ _ => False)
    (fun _ s' => asked (kern s) (kern s')) s.
Proof.
  intros s. split; [by vm_compute|]. apply (only_valid_requests demo_junk (lit "i_fcntl_locking") (lit "a") [lit "b"] s).
  - apply (bool_decide_eq_true_1 _). by vm_compute.
  - done.
  - by vm_compute.
Defined.

Lemma command_carried_out_witness :
  let s := demo_proc [] in
  run_command [(lit "a", 3); (lit "b", 4)] (command_line (Some 2) "w" "w" 10 20 "e") demo_junk s =
  (let v := Vars 2 "w" "w" 10 20 "e" in perform 4 v ;;; ret v)%c s.
Proof.
  intros s. apply (command_carried_out [(lit "a", 3); (lit "b", 4)] 1 "w" "w" "e" 10 20 demo_junk s).
  1-3: apply (bool_decide_eq_true_1 _); by vm_compute.
  all: simpl; unfold LONG_MAX, INT_MAX; lia.
Defined.

(** The last character of a line is removed whatever it is: a command at the
    end of the input without a newline locks another range. *)
Example digit_lost : made demo_junk [lit "i_fcntl_locking"; lit "a"] (lit "s w 0 10") =
  Some [(3, F_SETLK, Flock F_WRLCK SEEK_SET 0 1 0)].
Proof. by vm_compute. Qed.

(** The answer to a first line that is no command depends on what was in
    [fileNum] before. *)
Example stale_number : let run n := run_command [(lit "a", 3); (lit "b", 4)] (lit "x") (Vars n NUL NUL 0 0 NUL) (demo_proc []) in
  match run 1, run 7 with
  | Ret _ s, Ret _ s' => out_pending s = lit "Invalid command!" ++ [NEWLINE] /\
      out_pending s' = lit "File number must be in range 1 to 2" ++ [NEWLINE]
  | _, _ => False
  end.
Proof. by vm_compute. Qed.

(** A line that starts with a null makes the program write before its array. *)
Example null_line : i_fcntl_main 3 demo_junk [lit "i_fcntl_locking"; lit "a"] (demo_proc [NUL; NEWLINE]) = Undef.
Proof. by vm_compute. Qed.
