(* ===== verification/UgidFunctions.v ===== *)
(** ugid_functions.c (src/tlpi-dist/users_groups): names and numbers of users
    and groups. The user and group databases are read through the class
    [UserDb]. *)
From Stdlib Require Import ZArith Lia Ascii String.
From stdpp Require Import base tactics list strings.
From S2P Require Import Prelude CString.
#[local] Open Scope Z_scope.

(** [getpwnam] and [getpwuid] give a record or NULL; only the names and the
    identifiers of the records are used. *)
Class UserDb := {
  getpwnam : cstr -> option Z;
  getpwuid : Z -> option cstr;
  getgrnam : cstr -> option Z;
  getgrgid : Z -> option cstr
}.

(** [(uid_t) -1], the error value. *)
Definition BAD_ID : Z := to_unsigned 32 (-1).

Section Code.
Context `{UserDb}.

Definition userNameFromId (uid : Z) : option cstr := getpwuid uid.
Definition groupNameFromId (gid : Z) : option cstr := getgrgid gid.

(** [u = strtol(name, &endptr, 10)] converts the [long] to [uid_t]. *)
Definition userIdFromName (name : cstr) : Z :=
  if bool_decide (name = []) then BAD_ID
  else
    let '(u, endptr, _) := strtol name 10 in
    if bool_decide (endptr = []) then to_unsigned 32 u
    else match getpwnam name with
         | None => BAD_ID
         | Some uid => uid
         end.

Definition groupIdFromName (name : cstr) : Z :=
  if bool_decide (name = []) then BAD_ID
  else
    let '(g, endptr, _) := strtol name 10 in
    if bool_decide (endptr = []) then to_unsigned 32 g
    else match getgrnam name with
         | None => BAD_ID
         | Some gid => gid
         end.

(** ** Correctness *)

Lemma show_Z_nonempty z : show_Z z <> [].
Proof. by destruct (show_Z_nonempty_char z) as (c & r & ->). Qed.

Lemma userIdFromName_show u : 0 <= u < 2 ^ 32 -> userIdFromName (show_Z u) = u.
Proof.
  intros Hu. unfold userIdFromName. rewrite bool_decide_eq_false_2 by apply show_Z_nonempty.
  rewrite strtol_show by (unfold LONG_MIN, LONG_MAX; lia). simpl. by apply to_unsigned_small.
Qed.

Lemma groupIdFromName_show g : 0 <= g < 2 ^ 32 -> groupIdFromName (show_Z g) = g.
Proof.
  intros Hu. unfold groupIdFromName. rewrite bool_decide_eq_false_2 by apply show_Z_nonempty.
  rewrite strtol_show by (unfold LONG_MIN, LONG_MAX; lia). simpl. by apply to_unsigned_small.
Qed.

(** A name is taken for a number when all of it is one. *)
Definition numeric (name : cstr) : bool := bool_decide ((strtol name 10).1.2 = []).

Lemma userIdFromName_name name uid :
  name <> [] -> numeric name = false -> getpwnam name = Some uid -> userIdFromName name = uid.
Proof.
  intros Hn Hnum Hp. unfold userIdFromName, numeric in *.
  rewrite bool_decide_eq_false_2 by done. destruct (strtol name 10) as [[u e] r]. simpl in Hnum.
  by rewrite Hnum, Hp.
Qed.

Lemma groupIdFromName_name name gid :
  name <> [] -> numeric name = false -> getgrnam name = Some gid -> groupIdFromName name = gid.
Proof.
  intros Hn Hnum Hp. unfold groupIdFromName, numeric in *.
  rewrite bool_decide_eq_false_2 by done. destruct (strtol name 10) as [[u e] r]. simpl in Hnum.
  by rewrite Hnum, Hp.
Qed.

End Code.

(** In a consistent user database, the identifier of a user's name is the
    user's, for every user whose name is not itself a number; and the decimal
    form of an identifier always denotes it. The same holds of groups. *)
Theorem ids_round_trip `{UserDb} (id : Z) (name : cstr) :
  (forall n u, getpwuid u = Some n -> getpwnam n = Some u) ->
  (forall n g, getgrgid g = Some n -> getgrnam n = Some g) ->
  name <> [] -> numeric name = false -> 0 <= id < 2 ^ 32 ->
  userIdFromName (show_Z id) = id /\ groupIdFromName (show_Z id) = id /\
  (userNameFromId id = Some name -> userIdFromName name = id) /\
  (groupNameFromId id = Some name -> groupIdFromName name = id).
Proof.
  intros Hu Hg Hn Hnum Hid. split_and!.
  - by apply userIdFromName_show.
  - by apply groupIdFromName_show.
  - intros Hq. apply userIdFromName_name; [done|done|]. by apply Hu.
  - intros Hq. apply groupIdFromName_name; [done|done|]. by apply Hg.
Qed.

(** A small user database: root and mtk. *)
#[export] Instance small_db : UserDb := {
  getpwnam n := if bool_decide (n = lit "root") then Some 0
                else if bool_decide (n = lit "mtk") then Some 1000 else None;
  getpwuid u := if bool_decide (u = 0) then Some (lit "root")
                else if bool_decide (u = 1000) then Some (lit "mtk") else None;
  getgrnam n := if bool_decide (n = lit "root") then Some 0
                else if bool_decide (n = lit "users") then Some 100 else None;
  getgrgid g := if bool_decide (g = 0) then Some (lit "root")
                else if bool_decide (g = 100) then Some (lit "users") else None
}.

Lemma ids_round_trip_witness :
  userNameFromId 1000 = Some (lit "mtk") /\
  userIdFromName (show_Z 1000) = 1000 /\ groupIdFromName (show_Z 1000) = 1000 /\
  (userNameFromId 1000 = Some (lit "mtk") -> userIdFromName (lit "mtk") = 1000) /\
  (groupNameFromId 1000 = Some (lit "mtk") -> groupIdFromName (lit "mtk") = 1000).
Proof.
  split; [done|]. apply (ids_round_trip 1000 (lit "mtk")); [| |done|by vm_compute|lia].
  - intros n u. simpl. repeat case_bool_decide; intros [= <-]; by subst.
  - intros n g. simpl. repeat case_bool_decide; intros [= <-]; by subst.
Defined.
