(* ===== verification/AclUpdate.v ===== *)
(** acl_update.c (src/tlpi-dist/acl): parsing the text form of an access
    control list and applying it to the ACLs of files.

    [struct AccessControlEntry] is [ace]; [perms] is [None] until assigned.
    The ACL objects of libacl, their entries and the ACLs of files are behind
    the class [LibAcl]: an [acl_t] is a value of type [A], updated by each
    call, and an [acl_entry_t] a handle of type [H] into it. *)
From Stdlib Require Import ZArith Lia Ascii String.
From stdpp Require Import base tactics list strings gmap.
From S2P Require Import Prelude CString Process UgidFunctions.
#[local] Open Scope Z_scope.

(** <sys/acl.h> *)
Definition ACL_USER_OBJ : Z := 1.
Definition ACL_USER : Z := 2.
Definition ACL_GROUP_OBJ : Z := 4.
Definition ACL_GROUP : Z := 8.
Definition ACL_MASK : Z := 16.
Definition ACL_OTHER : Z := 32.
Definition ACL_READ : Z := 4.
Definition ACL_WRITE : Z := 2.
Definition ACL_EXECUTE : Z := 1.

Inductive acl_type := ACL_TYPE_ACCESS | ACL_TYPE_DEFAULT.

(** The calls of libacl. Those on an object give [None] when they return -1;
    [acl_entries] is what successive calls of [acl_get_entry] return. *)
Class LibAcl (K A H : Type) := {
  acl_get_file : K -> cstr -> acl_type -> K * (Z + A);
  acl_set_file : K -> cstr -> acl_type -> A -> K * (Z + unit);
  acl_delete_def_file : K -> cstr -> K * (Z + unit);
  acl_free : K -> K * (Z + unit);
  acl_entries : A -> option (list H);
  acl_get_tag_type : A -> H -> option Z;
  acl_get_qualifier : A -> H -> option Z;
  acl_delete_entry : A -> H -> option A;
  acl_create_entry : A -> option (A * H);
  acl_set_tag_type : A -> H -> Z -> option A;
  acl_set_qualifier : A -> H -> Z -> option A;
  acl_clear_perms : A -> H -> option A;
  acl_add_perm : A -> H -> Z -> option A;
  acl_calc_mask : A -> option A;
  acl_valid : A -> bool
}.

Definition MAX_ENTRIES : Z := 10000.

Record ace := Ace { tag : Z; qual : Z; perms : option Z }.

Inductive Operation :=
| unspecifiedOp | modifyEntries | removeEntries | removeDefaultACL | checkValidACL.

#[export] Instance Operation_eq_dec : EqDecision Operation.
Proof. solve_decision. Defined.

(** ** Parsing *)

(** The ways an entry can be rejected, with the text quoted in the message. *)
Inductive spec_error :=
| MissingColon (entryStr : cstr)
| PermsNotAllowed
| PermsMissing
| BadTag (t : cstr)
| BadUser (name : cstr)
| BadGroup (name : cstr)
| BadPermChar (c : ascii).

Section Parse.
Context `{UserDb}.

Definition tag_of (name : cstr) (hasQual : bool) : option Z :=
  if streq name (lit "u") || streq name (lit "user") then
    Some (if hasQual then ACL_USER else ACL_USER_OBJ)
  else if streq name (lit "g") || streq name (lit "group") then
    Some (if hasQual then ACL_GROUP else ACL_GROUP_OBJ)
  else if streq name (lit "o") || streq name (lit "other") then Some ACL_OTHER
  else if streq name (lit "m") || streq name (lit "mask") then Some ACL_MASK
  else None.

(** The loop over the characters of the permissions. *)
Fixpoint parse_perms (p : cstr) (acc : Z) : spec_error + Z :=
  match p with
  | [] => inr acc
  | c :: p' =>
      if bool_decide (c = "r"%char) then parse_perms p' (Z.lor acc ACL_READ)
      else if bool_decide (c = "w"%char) then parse_perms p' (Z.lor acc ACL_WRITE)
      else if bool_decide (c = "x"%char) then parse_perms p' (Z.lor acc ACL_EXECUTE)
      else if bool_decide (c = "-"%char) then parse_perms p' acc
      else inl (BadPermChar c)
  end.

Definition parseEntrySpec (entryStr : cstr) (permsReqd : bool) : spec_error + ace :=
  match strchr COLON entryStr with
  | None => inl (MissingColon entryStr)
  | Some (name, rest) =>
      let hasQual := negb (at_nul rest 0) && negb (char_is rest 0 COLON) in
      let '(q, colon2) := match strchr COLON rest with
                          | Some (q, p) => (q, Some p)
                          | None => (rest, None)
                          end in
      let permStr := match colon2 with Some p => p | None => [] end in
      let hasPerms := bool_decide (permStr <> []) in
      if hasPerms && negb permsReqd then inl PermsNotAllowed
      else if negb hasPerms && permsReqd then inl PermsMissing
      else match tag_of name hasQual with
      | None => inl (BadTag name)
      | Some t =>
          let id := if t =? ACL_USER then userIdFromName q
                    else if t =? ACL_GROUP then groupIdFromName q else 0 in
          if (t =? ACL_USER) && (id =? BAD_ID) then inl (BadUser q)
          else if (t =? ACL_GROUP) && (id =? BAD_ID) then inl (BadGroup q)
          else if hasPerms then
            match parse_perms permStr 0 with
            | inl e => inl e
            | inr p => inr (Ace t id (Some p))
            end
          else inr (Ace t id None)
      end
  end.

(** The message on standard error. *)
Definition spec_message (e : spec_error) : cstr :=
  match e with
  | MissingColon s => lit "Missing initial colon in ACL entry: " ++ s
  | PermsNotAllowed => lit "Cannot specify permissions here"
  | PermsMissing => lit "Must specify permissions"
  | BadTag t => lit "Bad tag: " ++ t
  | BadUser n => lit "Bad user ID: " ++ n
  | BadGroup n => lit "Bad group ID: " ++ n
  | BadPermChar c => lit "Bad character in permissions string: " ++ [c]
  end ++ [NEWLINE].

(** The loop of [parseACL]; [room] is [MAX_ENTRIES - n]. The result is the
    entries, or the text written to standard error. *)
Fixpoint parse_entries (room : nat) (nextEntry : cstr) (permsReqd : bool) : cstr + list ace :=
  match room with
  | O => inl (lit "Too many entries in ACL" ++ [NEWLINE])
  | S room' =>
      let '(entry, comma) := match strchr COMMA nextEntry with
                             | Some (e, rest) => (e, Some rest)
                             | None => (nextEntry, None)
                             end in
      match parseEntrySpec entry permsReqd with
      | inl e => inl (spec_message e)
      | inr a =>
          match comma with
          | None => inr [a]
          | Some rest =>
              match parse_entries room' rest permsReqd with
              | inl e => inl e
              | inr l => inr (a :: l)
              end
          end
      end
  end.

Definition parseACL (aclStr : cstr) (permsReqd : bool) : cstr + list ace :=
  parse_entries (Z.to_nat MAX_ENTRIES) aclStr permsReqd.

End Parse.

(** ** Applying *)

Section Apply.
Context `{UserDb} `{ErrnoText} {K A En : Type} `{LibAcl K A En}.
Abbreviation PM := (M (proc K)).

(** A libacl call on an object; -1 ends the program. *)
Definition orExit {B} (r : option B) (name : cstr) : PM B :=
  match r with Some x => ret x | None => errExit name end.

Fixpoint find_loop (acl : A) (entries : list En) (t q : Z) : PM (option En) :=
  match entries with
  | [] => ret None
  | entry :: rest =>
      let! entryTag := orExit (acl_get_tag_type acl entry) (lit "acl_get_tag_type") in
      if t =? entryTag then
        if (t =? ACL_USER) || (t =? ACL_GROUP) then
          let! id := orExit (acl_get_qualifier acl entry) (lit "acl_get_qualifier") in
          let! freed := syscall acl_free in
          match freed with
          | None => errExit (lit "acl_free")
          | Some _ => if q =? id then ret (Some entry) else find_loop acl rest t q
          end
        else ret (Some entry)
      else find_loop acl rest t q
  end.

Definition findEntry (acl : A) (t q : Z) : PM (option En) :=
  let! entries := orExit (acl_entries acl) (lit "acl_get_entry") in
  find_loop acl entries t q.

Definition add_perm (acl : A) (entry : En) (p flag : Z) : PM A :=
  if has_bit p flag then orExit (acl_add_perm acl entry flag) (lit "acl_add_perm") else ret acl.

Definition setPerms (acl : A) (entry : En) (p : Z) : PM A :=
  let! acl := orExit (acl_clear_perms acl entry) (lit "acl_clear_perms") in
  let! acl := add_perm acl entry p ACL_READ in
  let! acl := add_perm acl entry p ACL_WRITE in
  add_perm acl entry p ACL_EXECUTE.

(** The entry that is missing is created with its tag and qualifier. *)
Definition create_entry (acl : A) (e : ace) : PM (A * En) :=
  let! (acl, entry) := orExit (acl_create_entry acl) (lit "acl_create_entry") in
  let! acl := orExit (acl_set_tag_type acl entry (tag e)) (lit "acl_set_tag_type") in
  let! acl := (if (tag e =? ACL_USER) || (tag e =? ACL_GROUP)
               then orExit (acl_set_qualifier acl entry (qual e)) (lit "acl_set_qualifier")
               else ret acl) in
  ret (acl, entry).

(** The change one entry of the list makes to the object. *)
Definition apply_entry (operation : Operation) (acl : A) (e : ace) : PM A :=
  let! found := findEntry acl (tag e) (qual e) in
  if bool_decide (operation = removeEntries) then
    match found with
    | Some entry => orExit (acl_delete_entry acl entry) (lit "acl_delete_entry")
    | None => ret acl
    end
  else
    let! (acl, entry) := (match found with
                          | Some entry => ret (acl, entry)
                          | None => create_entry acl e
                          end) in
    match perms e with
    | Some p => setPerms acl entry p
    | None => undef
    end.

(** The loop of [updateACL]: after each entry the file is updated. *)
Fixpoint update_loop (file : cstr) (type : acl_type) (operation : Operation)
    (recalcMask : bool) (aclist : list ace) (acl : A) : PM A :=
  match aclist with
  | [] => ret acl
  | e :: rest =>
      let! acl := apply_entry operation acl e in
      let! acl := (if recalcMask then orExit (acl_calc_mask acl) (lit "acl_calc_mask")
                   else ret acl) in
      if negb (acl_valid acl) then errExit (lit "acl_valid") else
      let! r := syscall (fun k => acl_set_file k file type acl) in
      match r with
      | None => errExit (lit "acl_set_file")
      | Some _ => update_loop file type operation recalcMask rest acl
      end
  end.

Definition updateACL (file : cstr) (useDefaultACL : bool) (aclist : list ace)
    (operation : Operation) (recalcMask : bool) : PM unit :=
  let type := if useDefaultACL then ACL_TYPE_DEFAULT else ACL_TYPE_ACCESS in
  let! r := syscall (fun k => acl_get_file k file type) in
  match r with
  | None => errExit (lit "acl_get_file")
  | Some acl =>
      update_loop file type operation recalcMask aclist acl ;;;
      let! freed := syscall acl_free in
      match freed with
      | None => errExit (lit "acl_free")
      | Some _ => ret tt
      end
  end.

(** ** The command line *)

Definition usage_text (progName : cstr) : cstr :=
  lit "Usage: " ++ progName ++ lit " -m acl [-d] [-n] file..." ++ [NEWLINE] ++
  lit "   or: " ++ progName ++ lit " -x acl [-d] [-n] file..." ++ [NEWLINE] ++
  lit "   or: " ++ progName ++ lit " -k file..." ++ [NEWLINE; NEWLINE] ++
  lit "   or: " ++ progName ++ lit " -V acl" ++ [NEWLINE; NEWLINE] ++
  lit "      -m  Modify/create ACL entries" ++ [NEWLINE] ++
  lit "      -x  Remove ACL entries" ++ [NEWLINE] ++
  lit "      -k  Remove default ACL" ++ [NEWLINE; NEWLINE] ++
  lit "      -V  Check validity of 'acl'" ++ [NEWLINE; NEWLINE] ++
  lit "      'acl' consists of one or more comma-separated entries of the form:" ++ [NEWLINE] ++
  lit "      " ++ [NEWLINE] ++ lit "            tag:[qualifier][:[perms]]" ++ [NEWLINE; NEWLINE] ++
  lit "            'perms' are specified only for -m" ++ [NEWLINE; NEWLINE] ++
  lit "      -d  Apply operation to default ACL" ++ [NEWLINE] ++
  lit "      -n  Don't recalculate mask entry" ++ [NEWLINE] ++
  lit "            NOTE: if you specify this option and have specified" ++ [NEWLINE] ++
  lit "            the -m option, then you may encounter errors if the" ++ [NEWLINE] ++
  lit "            file does not already have a mask entry." ++ [NEWLINE].

Definition usageError {B} (progName : cstr) (msg : option cstr) (shortUsage : bool) : PM B :=
  match msg with Some m => puterr (m ++ [NEWLINE]) | None => ret tt end ;;;
  if shortUsage then
    puterr (lit "Type '" ++ progName ++ lit " --help' for usage information" ++ [NEWLINE]) ;;;
    exit3 EXIT_FAILURE
  else puterr (usage_text progName) ;;; exit3 EXIT_FAILURE.

(** What the options set. *)
Record settings := Settings {
  operation : Operation;
  recalcMask : bool;
  useDefaultACL : bool;
  optCnt : Z;
  aclSpec : option cstr
}.

Definition no_options : settings := Settings unspecifiedOp true false 0 None.

(** One option; [None] is the default case, a bad option. *)
Definition set_option (o : option_arg) (c : settings) : option settings :=
  let '(Opt opt optarg) := o in
  if bool_decide (opt = "m"%char) then
    Some (Settings modifyEntries (recalcMask c) (useDefaultACL c) (optCnt c + 1) (Some optarg))
  else if bool_decide (opt = "x"%char) then
    Some (Settings removeEntries (recalcMask c) (useDefaultACL c) (optCnt c + 1) (Some optarg))
  else if bool_decide (opt = "k"%char) then
    Some (Settings removeDefaultACL (recalcMask c) (useDefaultACL c) (optCnt c + 1) (aclSpec c))
  else if bool_decide (opt = "V"%char) then
    Some (Settings checkValidACL (recalcMask c) (useDefaultACL c) (optCnt c + 1) (Some optarg))
  else if bool_decide (opt = "d"%char) then
    Some (Settings (operation c) (recalcMask c) true (optCnt c) (aclSpec c))
  else if bool_decide (opt = "n"%char) then
    Some (Settings (operation c) false (useDefaultACL c) (optCnt c) (aclSpec c))
  else None.

Fixpoint parse_options (progName : cstr) (opts : list option_arg) (c : settings) : PM settings :=
  match opts with
  | [] => ret c
  | o :: rest =>
      match set_option o c with
      | Some c' => parse_options progName rest c'
      | None => usageError progName (Some (lit "Bad option" ++ [NEWLINE])) true
      end
  end.

(** Parse the text given to an option, or fail with [otherwise]. *)
Definition parse_spec {B} (spec : option cstr) (permsReqd : bool) (otherwise : PM B)
    (use : list ace -> PM B) : PM B :=
  match spec with
  | None => undef
  | Some text =>
      match parseACL text permsReqd with
      | inl err => puterr err ;;; otherwise
      | inr aclist => use aclist
      end
  end.

(** The loop over the operands. *)
Definition process_file (c : settings) (aclist : list ace) (file : cstr) : PM unit :=
  if bool_decide (operation c = removeDefaultACL) then
    let! r := syscall (fun k => acl_delete_def_file k file) in
    match r with
    | None => errExit (lit "acl_delete_def_file: " ++ file)
    | Some _ => ret tt
    end
  else if bool_decide (operation c = modifyEntries) || bool_decide (operation c = removeEntries) then
    updateACL file (useDefaultACL c) aclist (operation c) (recalcMask c)
  else fatal (lit "Bad logic!").

(** [main], from the options [getopt] returns and the operands. *)
Definition run (progName : cstr) (opts : list option_arg) (files : list cstr) : PM unit :=
  let! c := parse_options progName opts no_options in
  (if negb (optCnt c =? 1) then
     usageError progName (Some (lit "Specify exactly one of -m, -x, -k, or -V" ++ [NEWLINE])) true
   else ret tt) ;;;
  (if bool_decide (operation c = checkValidACL) && useDefaultACL c then
     usageError progName (Some (lit "Can't specify -d with -V" ++ [NEWLINE])) true
   else ret tt) ;;;
  (if bool_decide (operation c = checkValidACL) then
     parse_spec (aclSpec c) true (fatal (lit "Bad ACL entry specification"))
       (fun _ => putout (lit "ACL is valid" ++ [NEWLINE]) ;;; exit3 EXIT_SUCCESS)
   else ret tt) ;;;
  let! aclist :=
    (if bool_decide (operation c = modifyEntries) || bool_decide (operation c = removeEntries) then
       parse_spec (aclSpec c) (bool_decide (operation c = modifyEntries))
         (usageError progName (Some (lit "Bad ACL specification" ++ [NEWLINE])) true) ret
     else ret []) in
  for_each files (process_file c aclist) ;;;
  exit3 EXIT_SUCCESS.

Definition main (argv : list cstr) (opts : list option_arg) (files : list cstr) : PM unit :=
  let progName := default [] (argv !! 0%nat) in
  if (Z.of_nat (length argv) <? 2) || bool_decide (argv !! 1%nat = Some (lit "--help"))
  then usageError progName None false
  else run progName opts files.

End Apply.
