(* ===== verification/AclProps.v ===== *)
(** acl_update.c: parsing inverts printing and accepts only well-formed
    entries; numeric identifiers that do not fit. The update of a file's ACL
    refines the update of a map from tags and qualifiers to permissions.

    [LibAclLaws] states what libacl documents of its calls, in terms of a view
    of an ACL object as a finite map from entry handles to entries; a small
    model of libacl satisfies it. *)
From Stdlib Require Import ZArith Lia Ascii String.
From stdpp Require Import base tactics list strings gmap fin_maps.
From S2P Require Import Prelude CString Process UgidFunctions AclUpdate.
#[local] Open Scope Z_scope.

(** ** Printing *)

Definition tag_name (t : Z) : cstr :=
  if (t =? ACL_USER_OBJ) || (t =? ACL_USER) then lit "user"
  else if (t =? ACL_GROUP_OBJ) || (t =? ACL_GROUP) then lit "group"
  else if t =? ACL_MASK then lit "mask" else lit "other".

Definition qualified (t : Z) : bool := (t =? ACL_USER) || (t =? ACL_GROUP).

Definition show_perms (p : Z) : cstr :=
  [if has_bit p ACL_READ then "r"%char else "-"%char;
   if has_bit p ACL_WRITE then "w"%char else "-"%char;
   if has_bit p ACL_EXECUTE then "x"%char else "-"%char].

Definition show_qual (e : ace) : cstr := if qualified (tag e) then show_Z (qual e) else [].

Definition show_entry (e : ace) : cstr :=
  tag_name (tag e) ++ COLON :: show_qual e ++
  match perms e with Some p => COLON :: show_perms p | None => [] end.

Fixpoint show_acl (l : list ace) : cstr :=
  match l with
  | [] => []
  | [e] => show_entry e
  | e :: rest => show_entry e ++ COMMA :: show_acl rest
  end.

(** A well-formed entry, with permissions exactly when they are required. *)
Record ace_ok (permsReqd : bool) (e : ace) : Prop := {
  ok_tag : tag e ∈ [ACL_USER_OBJ; ACL_USER; ACL_GROUP_OBJ; ACL_GROUP; ACL_MASK; ACL_OTHER];
  ok_qual : if qualified (tag e) then 0 <= qual e < BAD_ID else qual e = 0;
  ok_perms : if permsReqd then exists p, perms e = Some p /\ 0 <= p <= 7 else perms e = None
}.

Section Parsing.
Context `{UserDb}.

Lemma perm_cases p :
  0 <= p <= 7 -> p = 0 \/ p = 1 \/ p = 2 \/ p = 3 \/ p = 4 \/ p = 5 \/ p = 6 \/ p = 7.
Proof. lia. Qed.

Lemma parse_show_perms p : 0 <= p <= 7 -> parse_perms (show_perms p) 0 = inr p.
Proof.
  intros Hp%perm_cases. by destruct Hp as [->|[->|[->|[->|[->|[->|[->| ->]]]]]]].
Qed.

Lemma parse_perms_range s acc p :
  0 <= acc <= 7 -> parse_perms s acc = inr p -> 0 <= p <= 7.
Proof.
  revert acc. induction s as [|c s IH]; intros acc Hacc; simpl; [naive_solver|].
  assert (Hlor : forall f, f ∈ [ACL_READ; ACL_WRITE; ACL_EXECUTE] -> 0 <= Z.lor acc f <= 7).
  { intros f Hf. rewrite !elem_of_cons, elem_of_nil in Hf. apply perm_cases in Hacc.
    destruct Hf as [->|[->|[->|[]]]];
      by destruct Hacc as [->|[->|[->|[->|[->|[->|[->| ->]]]]]]]. }
  repeat case_bool_decide; intros Hp; [..|by apply IH in Hp|done];
    (apply IH in Hp; [done|]; apply Hlor; rewrite !elem_of_cons; tauto).
Qed.

Lemma tag_name_no t c : c ∈ tag_name t -> c ∉ [COLON; COMMA].
Proof.
  unfold tag_name. repeat case_match; intros Hc;
    repeat (apply elem_of_cons in Hc as [->|Hc]; [by apply (bool_decide_unpack _)|]);
    by apply elem_of_nil in Hc.
Qed.

Lemma show_perms_no p c : c ∈ show_perms p -> c ∉ [COLON; COMMA].
Proof.
  unfold show_perms. repeat case_match; intros Hc;
    repeat (apply elem_of_cons in Hc as [->|Hc]; [by apply (bool_decide_unpack _)|]);
    by apply elem_of_nil in Hc.
Qed.

Lemma show_qual_no e c : digit_value c = None -> c <> "-"%char -> c ∉ show_qual e.
Proof.
  intros H1 H2. unfold show_qual. destruct (qualified (tag e)); [by apply show_Z_no|].
  apply not_elem_of_nil.
Qed.

Lemma tag_of_name t q :
  t ∈ [ACL_USER_OBJ; ACL_USER; ACL_GROUP_OBJ; ACL_GROUP; ACL_MASK; ACL_OTHER] ->
  q = qualified t -> tag_of (tag_name t) q = Some t.
Proof.
  intros Ht ->. rewrite !elem_of_cons, elem_of_nil in Ht.
  by destruct Ht as [->|[->|[->|[->|[->|[->|[]]]]]]].
Qed.

Lemma head_not_colon c r :
  c <> COLON -> negb (at_nul (c :: r) 0) && negb (char_is (c :: r) 0 COLON) = true.
Proof.
  intros Hc. apply andb_true_iff. split; [done|]. apply negb_true_iff.
  unfold char_is. apply bool_decide_eq_false_2. intros [= ->]. by destruct Hc.
Qed.

Lemma show_qual_head e rest :
  negb (at_nul (show_qual e ++ rest) 0) && negb (char_is (show_qual e ++ rest) 0 COLON)
  = qualified (tag e) \/ (rest <> [] /\ forall r, rest <> COLON :: r).
Proof.
  unfold show_qual. destruct (qualified (tag e)).
  - left. destruct (show_Z_nonempty_char (qual e)) as (c & r & Hc). rewrite Hc. cbn [app].
    rewrite (head_not_colon c) by (intros ->; apply (show_Z_no (qual e) COLON); [done|done|];
      rewrite Hc; by left).
    done.
  - destruct rest as [|c r]; [by left|]. destruct (decide (c = COLON)) as [->|Hn]; [by left|right].
    split; [done|]. intros r' [= -> _]. by destruct Hn.
Qed.

Lemma entry_id e :
  (if qualified (tag e) then 0 <= qual e < BAD_ID else qual e = 0) ->
  (if tag e =? ACL_USER then userIdFromName (show_qual e)
   else if tag e =? ACL_GROUP then groupIdFromName (show_qual e) else 0) = qual e.
Proof.
  intros Hq. unfold show_qual, qualified in *. change BAD_ID with 4294967295 in Hq.
  destruct (tag e =? ACL_USER); simpl in *; [apply userIdFromName_show; lia|].
  destruct (tag e =? ACL_GROUP); simpl in *; [apply groupIdFromName_show; lia|done].
Qed.

(** An entry that was printed is read back. *)
Lemma parse_show_entry permsReqd e :
  ace_ok permsReqd e -> parseEntrySpec (show_entry e) permsReqd = inr e.
Proof.
  intros [Ht Hq Hp]. unfold parseEntrySpec, show_entry.
  set (rest := show_qual e ++ _).
  rewrite (proj2 (strchr_Some COLON _ (tag_name (tag e)) rest))
    by (split; [done|]; intros Hin; apply tag_name_no in Hin; by apply Hin; left).
  assert (Hnc : COLON ∉ show_qual e) by by apply show_qual_no.
  pose proof (entry_id e Hq) as Hid.
  assert (Hbad1 : (tag e =? ACL_USER) && (qual e =? BAD_ID) = false).
  { unfold qualified in Hq. destruct (tag e =? ACL_USER); simpl in *; lia. }
  assert (Hbad2 : (tag e =? ACL_GROUP) && (qual e =? BAD_ID) = false).
  { unfold qualified in Hq. destruct (tag e =? ACL_GROUP); rewrite ?orb_true_r in Hq; simpl in *; lia. }
  destruct permsReqd.
  - destruct Hp as (p & Hpe & Hp). subst rest. rewrite Hpe.
    rewrite (proj2 (strchr_Some COLON _ (show_qual e) (show_perms p))) by done.
    destruct (show_qual_head e (COLON :: show_perms p)) as [->|[_ Hr]];
      [|by edestruct Hr].
    rewrite bool_decide_eq_true_2 by done. cbn [negb andb]. rewrite tag_of_name by done.
    rewrite Hid, Hbad1, Hbad2, (parse_show_perms p Hp).
    destruct e as [t q pe]. simpl in *. by subst pe.
  - subst rest. rewrite Hp, app_nil_r. rewrite (proj2 (strchr_None COLON _)) by done.
    rewrite bool_decide_eq_false_2 by tauto. simpl.
    pose proof (show_qual_head e []) as Hh. rewrite app_nil_r in Hh.
    destruct Hh as [->|[? _]]; [|done]. rewrite tag_of_name by done.
    rewrite Hid, Hbad1, Hbad2. destruct e as [t q pe]. simpl in *. by subst pe.
Qed.

Lemma show_entry_no_comma e : COMMA ∉ show_entry e.
Proof.
  unfold show_entry. rewrite !elem_of_app, elem_of_cons, !elem_of_app.
  intros [Hc|[Hc|[Hc|Hc]]]; [apply tag_name_no in Hc; by apply Hc; right; left|done|by eapply show_qual_no in Hc|].
  destruct (perms e) as [p|]; [|by apply elem_of_nil in Hc].
  apply elem_of_cons in Hc as [Hc|Hc]; [done|].
  apply show_perms_no in Hc. by apply Hc; right; left.
Qed.

Lemma parse_entries_show permsReqd l room :
  l <> [] -> (length l <= room)%nat -> Forall (ace_ok permsReqd) l ->
  parse_entries room (show_acl l) permsReqd = inr l.
Proof.
  intros Hne Hlen Hok. revert room Hne Hlen.
  induction Hok as [|e l He Hl IH]; intros room Hne Hlen; [done|].
  destruct room as [|room]; [simpl in Hlen; lia|]. destruct l as [|e' l].
  - cbn [parse_entries show_acl].
    rewrite (proj2 (strchr_None COMMA _)) by apply show_entry_no_comma.
    by rewrite parse_show_entry.
  - cbn [parse_entries].
    change (show_acl (e :: e' :: l)) with (show_entry e ++ COMMA :: show_acl (e' :: l)).
    rewrite (proj2 (strchr_Some COMMA _ (show_entry e) (show_acl (e' :: l))))
      by (split; [done|apply show_entry_no_comma]).
    rewrite parse_show_entry by done. rewrite IH; [done|done|simpl in *; lia].
Qed.

(** ** What is accepted *)

(** The identifiers of the user and group databases. *)
Definition ids_ok : Prop :=
  (forall n u, getpwnam n = Some u -> 0 <= u < 2 ^ 32) /\
  (forall n g, getgrnam n = Some g -> 0 <= g < 2 ^ 32).

Lemma userIdFromName_range n : ids_ok -> 0 <= userIdFromName n < 2 ^ 32.
Proof.
  intros [Hu _]. unfold userIdFromName. case_bool_decide; [done|].
  destruct (strtol n 10) as [[u e] r]. case_bool_decide; [by apply to_unsigned_range|].
  destruct (getpwnam n) eqn:Hn; [by eapply Hu|done].
Qed.

Lemma groupIdFromName_range n : ids_ok -> 0 <= groupIdFromName n < 2 ^ 32.
Proof.
  intros [_ Hg]. unfold groupIdFromName. case_bool_decide; [done|].
  destruct (strtol n 10) as [[u e] r]. case_bool_decide; [by apply to_unsigned_range|].
  destruct (getgrnam n) eqn:Hn; [by eapply Hg|done].
Qed.

Lemma tag_of_range name q t :
  tag_of name q = Some t ->
  t ∈ [ACL_USER_OBJ; ACL_USER; ACL_GROUP_OBJ; ACL_GROUP; ACL_MASK; ACL_OTHER].
Proof. unfold tag_of. repeat case_match; intros [= <-]; set_solver. Qed.

Lemma parseEntrySpec_sound s permsReqd e :
  ids_ok -> parseEntrySpec s permsReqd = inr e -> ace_ok permsReqd e.
Proof.
  intros Hids. unfold parseEntrySpec. destruct (strchr COLON s) as [[name rest]|]; [|done].
  set (q := negb _ && _).
  destruct (match strchr COLON rest with Some (q0, p) => (q0, Some p) | None => (rest, None) end)
    as [qs colon2].
  destruct (tag_of name q) as [t|] eqn:Ht; [|by repeat case_match].
  apply tag_of_range in Ht.
  pose proof (userIdFromName_range qs Hids) as Hu. pose proof (groupIdFromName_range qs Hids) as Hg.
  set (id := if t =? ACL_USER then _ else _).
  destruct (_ && negb permsReqd) eqn:H1; [done|]. destruct (negb _ && permsReqd) eqn:H2; [done|].
  destruct ((t =? ACL_USER) && _) eqn:H3; [done|]. destruct ((t =? ACL_GROUP) && _) eqn:H4; [done|].
  assert (Hid : if qualified t then 0 <= id < BAD_ID else id = 0).
  { unfold id, qualified in *. change BAD_ID with 4294967295 in *.
    destruct (t =? ACL_USER); simpl in *; [lia|]. destruct (t =? ACL_GROUP); simpl in *; lia. }
  destruct (bool_decide _) eqn:H5.
  - destruct permsReqd; [|done]. destruct (parse_perms _ 0) as [er|p] eqn:Hp; [done|].
    intros [= <-]. split; [done|done|]. exists p. split; [done|].
    by eapply parse_perms_range in Hp.
  - destruct permsReqd; [done|]. intros [= <-]. by split.
Qed.

Lemma parse_entries_sound room s permsReqd l :
  ids_ok -> parse_entries room s permsReqd = inr l ->
  Forall (ace_ok permsReqd) l /\ (0 < length l <= room)%nat.
Proof.
  intros Hids. revert s l. induction room as [|room IH]; intros s l; simpl; [done|].
  destruct (match strchr COMMA s with Some (e, rest) => (e, Some rest) | None => (s, None) end)
    as [entry comma].
  destruct (parseEntrySpec entry permsReqd) as [er|e] eqn:He; [done|].
  apply parseEntrySpec_sound in He; [|done]. destruct comma as [rest|].
  - destruct (parse_entries room rest permsReqd) as [er|l'] eqn:Hl; [done|]. intros [= <-].
    destruct (IH _ _ Hl). split; [by constructor|simpl; lia].
  - intros [= <-]. split; [by apply Forall_singleton|simpl; lia].
Qed.

End Parsing.

(** C37: [parseACL] reads back every printed list of well-formed entries, with
    permissions as [-m] wants them or without as [-x] does. *)
Theorem parseACL_show `{UserDb} (permsReqd : bool) (l : list ace) :
  l <> [] -> Z.of_nat (length l) <= MAX_ENTRIES -> Forall (ace_ok permsReqd) l ->
  parseACL (show_acl l) permsReqd = inr l.
Proof. intros Hne Hlen Hok. apply parse_entries_show; [done|lia|done]. Qed.

(** C38: Whatever text [parseACL] accepts, the result is one to [MAX_ENTRIES]
    entries with a known tag, a user or group identifier other than the error
    value where the tag takes one, and permissions, of the three bits, exactly
    when they were required. *)
Theorem parseACL_sound `{UserDb} (text : cstr) (permsReqd : bool) (l : list ace) :
  ids_ok -> parseACL text permsReqd = inr l ->
  Forall (ace_ok permsReqd) l /\ 0 < Z.of_nat (length l) <= MAX_ENTRIES.
Proof.
  intros Hids Hp. apply parse_entries_sound in Hp as [Hl Hn]; [|done]. split; [done|]. lia.
Qed.

(** Identifiers are not checked for overflow: the text of 2^32 denotes the
    user and the group 0, and any identifier plus 2^32 that identifier. *)
Theorem oversized_id_wraps `{UserDb} (id : Z) :
  0 <= id < BAD_ID ->
  parseEntrySpec (lit "user:" ++ show_Z (id + 2 ^ 32) ++ lit ":rwx") true
  = inr (Ace ACL_USER id (Some 7)).
Proof.
  intros Hid. change BAD_ID with 4294967295 in Hid. change (2 ^ 32) with 4294967296.
  unfold parseEntrySpec.
  set (rest := show_Z (id + 4294967296) ++ lit ":rwx").
  rewrite (proj2 (strchr_Some COLON (lit "user:" ++ rest) (lit "user") rest))
    by (split; [done|by apply (bool_decide_unpack _)]).
  rewrite (proj2 (strchr_Some COLON rest (show_Z (id + 4294967296)) (lit "rwx")))
    by (split; [done|by apply show_Z_no]).
  assert (Hu : userIdFromName (show_Z (id + 4294967296)) = id).
  { unfold userIdFromName. rewrite bool_decide_eq_false_2 by apply show_Z_nonempty.
    rewrite strtol_show by (unfold LONG_MIN, LONG_MAX; lia). 
    replace (id + 4294967296) with (id + 1 * 2 ^ 32) by lia. cbn [fst snd].
    change (to_unsigned 32 (id + 1 * 2 ^ 32) = id). unfold to_unsigned.
    rewrite Z_mod_plus_full. apply Z.mod_small. lia. }
  destruct (show_Z_nonempty_char (id + 4294967296)) as (c & r & Hc).
  assert (Hcol : c <> COLON).
  { intros ->. apply (show_Z_no (id + 4294967296) COLON); [done|done|]. rewrite Hc. by left. }
  assert (Hq : negb (at_nul rest 0) && negb (char_is rest 0 COLON) = true).
  { unfold rest. rewrite Hc. by apply head_not_colon. }
  rewrite Hq. simpl. rewrite Hu. change BAD_ID with 4294967295. by replace (id =? 4294967295) with false by lia.
Qed.

Lemma parseACL_show_witness :
  parseACL (lit "user:1000:rw-,group:100:--x,other::---") true
  = inr [Ace ACL_USER 1000 (Some 6); Ace ACL_GROUP 100 (Some 1); Ace ACL_OTHER 0 (Some 0)].
Proof.
  apply (parseACL_show true
    [Ace ACL_USER 1000 (Some 6); Ace ACL_GROUP 100 (Some 1); Ace ACL_OTHER 0 (Some 0)]);
    [done|done|].
  repeat apply Forall_cons_2; [..|by apply Forall_nil];
    (split; [by apply (bool_decide_unpack _)|by vm_compute|eexists; split; [done|lia]]).
Defined.

Lemma parseACL_sound_witness :
  Forall (ace_ok false) [Ace ACL_USER 1000 None; Ace ACL_MASK 0 None] /\
  0 < Z.of_nat (length [Ace ACL_USER 1000 None; Ace ACL_MASK 0 None]) <= MAX_ENTRIES.
Proof.
  apply (parseACL_sound (lit "u:mtk,m:")); [|by vm_compute].
  split; intros n u; simpl; repeat case_bool_decide; intros [= <-]; lia.
Defined.

Lemma oversized_id_wraps_witness :
  parseEntrySpec (lit "user:4294967296:rwx") true = inr (Ace ACL_USER 0 (Some 7)).
Proof. apply (oversized_id_wraps 0). by vm_compute. Defined.

(** An entry of an ACL object. *)
Record aent := Aent { a_tag : Z; a_qual : Z; a_perms : Z }.

(** What identifies an entry: the qualifier counts for users and groups only. *)
Definition key_of (t q : Z) : Z * Z := (t, if qualified t then q else 0).
Definition akey (e : aent) : Z * Z := key_of (a_tag e) (a_qual e).
Definition ekey (e : ace) : Z * Z := key_of (tag e) (qual e).

(** ** Views of ACL objects *)

Section Views.
Context {En : Type} `{Countable En}.
Implicit Types (v : gmap En aent).

Definition unique_keys v : Prop :=
  forall h1 h2 e1 e2, v !! h1 = Some e1 -> v !! h2 = Some e2 -> akey e1 = akey e2 -> h1 = h2.

(** The permissions of each tag and qualifier. *)
Definition amap v : gmap (Z * Z) Z :=
  list_to_map ((fun he => (akey he.2, a_perms he.2)) <$> map_to_list v).

Lemma amap_lookup v k p :
  unique_keys v ->
  amap v !! k = Some p <-> exists h e, v !! h = Some e /\ akey e = k /\ a_perms e = p.
Proof.
  intros Hu. unfold amap. rewrite <-elem_of_list_to_map.
  - rewrite list_elem_of_fmap. split.
    + intros ([h e] & [= -> ->] & Hin). apply elem_of_map_to_list in Hin. eauto.
    + intros (h & e & Hl & <- & <-). exists (h, e). by rewrite elem_of_map_to_list.
  - rewrite <-list_fmap_compose. apply NoDup_fmap_2_strong; [|apply NoDup_map_to_list].
    intros [h1 e1] [h2 e2] H1 H2 He. apply elem_of_map_to_list in H1, H2.
    assert (h1 = h2) as -> by by eapply Hu. by simplify_eq.
Qed.

(** Setting an entry that is new, or that already had the key. *)
Definition may_set v h e : Prop :=
  forall h' e', v !! h' = Some e' -> akey e' = akey e -> h' = h.

Lemma unique_insert v h e : unique_keys v -> may_set v h e -> unique_keys (<[h := e]> v).
Proof.
  intros Hu Hm h1 h2 e1 e2 H1 H2 He.
  apply lookup_insert_Some in H1 as [[<- <-]|[Hn1 H1]], H2 as [[<- <-]|[Hn2 H2]].
  - done.
  - symmetry. by eapply Hm.
  - by eapply Hm.
  - by eapply Hu.
Qed.

Lemma amap_insert v h e :
  unique_keys v -> may_set v h e ->
  (forall e', v !! h = Some e' -> akey e' = akey e) ->
  amap (<[h := e]> v) = <[akey e := a_perms e]> (amap v).
Proof.
  intros Hu Hm Hk. apply map_eq. intros k. apply option_eq. intros p.
  rewrite amap_lookup by by apply unique_insert. rewrite lookup_insert_Some, amap_lookup by done.
  split.
  - intros (h' & e' & Hl & <- & <-). apply lookup_insert_Some in Hl as [[<- <-]|[Hn Hl]]; [by left|].
    right. split; [|by eauto]. intros He. apply Hn. symmetry. by eapply Hm.
  - intros [[<- <-]|[Hn (h' & e' & Hl & <- & <-)]].
    + exists h, e. by rewrite lookup_insert_eq.
    + exists h', e'. rewrite lookup_insert_ne; [done|]. intros <-. apply Hn. symmetry. by apply Hk.
Qed.

Lemma unique_delete v h : unique_keys v -> unique_keys (delete h v).
Proof. intros Hu h1 h2 e1 e2 [_ H1]%lookup_delete_Some [_ H2]%lookup_delete_Some. by eapply Hu. Qed.

Lemma amap_delete v h e :
  unique_keys v -> v !! h = Some e -> amap (delete h v) = delete (akey e) (amap v).
Proof.
  intros Hu Hh. apply map_eq. intros k. apply option_eq. intros p.
  rewrite amap_lookup by by apply unique_delete. rewrite lookup_delete_Some, amap_lookup by done.
  split.
  - intros (h' & e' & [Hn Hl]%lookup_delete_Some & <- & <-). split; [|by eauto].
    intros He. apply Hn. by eapply Hu.
  - intros [Hn (h' & e' & Hl & <- & <-)]. exists h', e'. split; [|done].
    apply lookup_delete_Some. split; [|done]. intros <-. by simplify_eq.
Qed.

Lemma amap_missing v k :
  unique_keys v -> (forall h e, v !! h = Some e -> akey e <> k) -> amap v !! k = None.
Proof.
  intros Hu Hn. apply eq_None_not_Some. intros [p Hp].
  apply amap_lookup in Hp as (h & e & Hl & Hk & _); [|done]. by apply (Hn h e).
Qed.

End Views.

(** The permissions the mask entry gets: those of any user, the owning group
    or any group. *)
Definition group_class (m : gmap (Z * Z) Z) : Z :=
  map_fold (fun k p acc =>
    if qualified k.1 || (k.1 =? ACL_GROUP_OBJ) then Z.lor p acc else acc) 0 m.

Definition set_mask (m : gmap (Z * Z) Z) : gmap (Z * Z) Z :=
  <[(ACL_MASK, 0) := group_class m]> m.

(** The access control list of a file. *)
Definition file_acl {K A En} `{LibAcl K A En} (k : K) (f : cstr) (t : acl_type) : option A :=
  match (acl_get_file k f t).2 with inr a => Some a | inl _ => None end.

(** Documented behaviour of libacl. *)
Class LibAclLaws (K A En : Type) `{LibAcl K A En} `{Countable En} := {
  view : A -> gmap En aent;
  entries_view a l h : acl_entries a = Some l -> h ∈ l <-> is_Some (view a !! h);
  tag_view a h t e : acl_get_tag_type a h = Some t -> view a !! h = Some e -> a_tag e = t;
  qual_view a h q e :
    acl_get_qualifier a h = Some q -> view a !! h = Some e -> qualified (a_tag e) = true ->
    a_qual e = q;
  delete_view a h a' : acl_delete_entry a h = Some a' -> view a' = delete h (view a);
  create_view a a' h :
    acl_create_entry a = Some (a', h) ->
    view a !! h = None /\ exists e, view a' = <[h := e]> (view a);
  set_tag_view a h t a' e :
    acl_set_tag_type a h t = Some a' -> view a !! h = Some e ->
    view a' = <[h := Aent t (a_qual e) (a_perms e)]> (view a);
  set_qual_view a h q a' e :
    acl_set_qualifier a h q = Some a' -> view a !! h = Some e ->
    view a' = <[h := Aent (a_tag e) q (a_perms e)]> (view a);
  clear_view a h a' e :
    acl_clear_perms a h = Some a' -> view a !! h = Some e ->
    view a' = <[h := Aent (a_tag e) (a_qual e) 0]> (view a);
  add_view a h p a' e :
    acl_add_perm a h p = Some a' -> view a !! h = Some e ->
    view a' = <[h := Aent (a_tag e) (a_qual e) (Z.lor (a_perms e) p)]> (view a);
  calc_view a a' :
    acl_calc_mask a = Some a' -> unique_keys (view a) ->
    unique_keys (view a') /\ amap (view a') = set_mask (amap (view a));
  get_unique k f t k' a : acl_get_file k f t = (k', inr a) -> unique_keys (view a);
  get_keeps k f t k' a f' t' :
    acl_get_file k f t = (k', inr a) -> file_acl k' f' t' = file_acl k f' t';
  free_keeps k k' r f t : acl_free k = (k', r) -> file_acl k' f t = file_acl k f t;
  set_get k f t a k' :
    acl_set_file k f t a = (k', inr tt) ->
    exists a', file_acl k' f t = Some a' /\ amap (view a') = amap (view a)
}.

(** ** The specification *)

Definition spec_entry (op : Operation) (m : gmap (Z * Z) Z) (e : ace) : gmap (Z * Z) Z :=
  if bool_decide (op = removeEntries) then delete (ekey e) m
  else <[ekey e := default 0 (perms e)]> m.

Definition spec_step (op : Operation) (recalc : bool) (m : gmap (Z * Z) Z) (e : ace) :
    gmap (Z * Z) Z :=
  let m' := spec_entry op m e in if recalc then set_mask m' else m'.

Section Refine.
Context {UD : UserDb} {ET : ErrnoText} {K A En : Type} {EqD : EqDecision En} {Cnt : Countable En}.
Context {LA : LibAcl K A En} {Laws : LibAclLaws K A En}.
Implicit Types (s : proc K) (a : A).
Context (E : exit_kind -> proc K -> Prop).

(** Only calls of [acl_free] happened. *)
Definition freed s s' : Prop := forall f t, file_acl (kern s') f t = file_acl (kern s) f t.

(** Every way out reports an error. *)
Context (HE : forall k s, E k s).

Lemma wp_orExit {B} (r : option B) name (Q : B -> proc K -> Prop) s :
  (forall x, r = Some x -> Q x s) -> wp (orExit r name) Q E s.
Proof. intros HQ. destruct r as [x|]; [by apply wp_ret, HQ|]. by apply wp_errExit. Qed.

Lemma key_of_match e t q :
  a_tag e = t -> (qualified t = true -> a_qual e = q) -> akey e = key_of t q.
Proof.
  intros <- Hq. unfold akey, key_of. destruct (qualified (a_tag e)); [by rewrite Hq|done].
Qed.

Lemma wp_find_loop a l t q (Q : option En -> proc K -> Prop) s :
  (forall h, h ∈ l -> is_Some (view a !! h)) ->
  (forall h e s', freed s s' -> view a !! h = Some e -> akey e = key_of t q -> Q (Some h) s') ->
  (forall s', freed s s' ->
     (forall h e, h ∈ l -> view a !! h = Some e -> akey e <> key_of t q) -> Q None s') ->
  wp (find_loop a l t q) Q E s.
Proof.
  revert s. induction l as [|h l IH]; intros s Hl HS HN; simpl.
  { apply wp_ret, HN; [done|]. intros h e Hin. by apply elem_of_nil in Hin. }
  destruct (Hl h) as [e He]; [by left|].
  assert (Hskip : forall s', freed s s' -> akey e <> key_of t q -> wp (find_loop a l t q) Q E s').
  { intros s' Hf Hne. apply IH.
    - intros h' Hin. apply Hl. by right.
    - intros h' e' s2 Hf2 H1 H2. apply (HS h' e'); [|done|done]. intros f ty. by rewrite Hf2.
    - intros s2 Hf2 Hnone. apply HN; [intros f ty; by rewrite Hf2|].
      intros h' e' [->|Hin]%elem_of_cons Hv; [by simplify_eq|by apply (Hnone h')]. }
  apply wp_bind, wp_orExit. intros t' Ht. pose proof (tag_view _ _ _ _ Ht He) as Hte.
  destruct (Z.eqb_spec t t') as [<-|Hne].
  - change ((t =? ACL_USER) || (t =? ACL_GROUP)) with (qualified t).
    destruct (qualified t) eqn:Hqt.
    + apply wp_bind, wp_orExit. intros q' Hq. rewrite <-Hte in Hqt.
      pose proof (qual_view _ _ _ _ Hq He Hqt) as Hqe. rewrite Hte in Hqt.
      apply wp_bind, wp_syscall; intros k r Hk; [by apply wp_errExit|].
      assert (Hf : freed s (set_kern k s)) by (intros f ty; by eapply free_keeps).
      destruct (Z.eqb_spec q q') as [<-|Hqn].
      * apply wp_ret, (HS h e); [done|done|]. by apply key_of_match.
      * apply Hskip; [done|]. unfold akey, key_of. rewrite Hte, Hqt. intros [= Hx]. congruence.
    + apply wp_ret, (HS h e); [done|done|]. by apply key_of_match; [|rewrite Hqt].
  - apply Hskip; [done|]. unfold akey, key_of. intros [= Hx _]. congruence.
Qed.

Lemma wp_findEntry a t q (Q : option En -> proc K -> Prop) s :
  (forall h e s', freed s s' -> view a !! h = Some e -> akey e = key_of t q -> Q (Some h) s') ->
  (forall s', freed s s' -> (forall h e, view a !! h = Some e -> akey e <> key_of t q) -> Q None s') ->
  wp (findEntry a t q) Q E s.
Proof.
  intros HS HN. apply wp_bind, wp_orExit. intros l Hl.
  apply wp_find_loop; [intros h; by apply (entries_view a l h)|done|].
  intros s' Hf Hnone. apply HN; [done|]. intros h e He. apply (Hnone h e); [|done].
  apply (entries_view a l h Hl). by exists e.
Qed.

(** [setPerms] sets exactly the permissions asked for. *)
Lemma wp_add_perm a h p flag (Q : A -> proc K -> Prop) s e :
  view a !! h = Some e ->
  (forall a', view a' = <[h := Aent (a_tag e) (a_qual e)
       (if has_bit p flag then Z.lor (a_perms e) flag else a_perms e)]> (view a) -> Q a' s) ->
  wp (add_perm a h p flag) Q E s.
Proof.
  intros He HQ. unfold add_perm. destruct (has_bit p flag).
  - apply wp_orExit. intros a' Ha. apply HQ. by eapply add_view.
  - apply wp_ret, HQ. rewrite insert_id; [done|]. by destruct e.
Qed.

Lemma perms_of_bits p :
  0 <= p <= 7 ->
  (let p1 := if has_bit p ACL_READ then Z.lor 0 ACL_READ else 0 in
   let p2 := if has_bit p ACL_WRITE then Z.lor p1 ACL_WRITE else p1 in
   if has_bit p ACL_EXECUTE then Z.lor p2 ACL_EXECUTE else p2) = p.
Proof. intros Hp%perm_cases. by destruct Hp as [->|[->|[->|[->|[->|[->|[->| ->]]]]]]]. Qed.

Lemma wp_setPerms a h p (Q : A -> proc K -> Prop) s e :
  view a !! h = Some e -> 0 <= p <= 7 ->
  (forall a', view a' = <[h := Aent (a_tag e) (a_qual e) p]> (view a) -> Q a' s) ->
  wp (setPerms a h p) Q E s.
Proof.
  intros He Hp HQ. apply wp_bind, wp_orExit. intros a1 H1.
  pose proof (clear_view _ _ _ _ H1 He) as V1.
  assert (L1 : view a1 !! h = Some (Aent (a_tag e) (a_qual e) 0)) by by rewrite V1, lookup_insert_eq.
  apply wp_bind. eapply wp_add_perm; [done|]. intros a2 V2. apply wp_bind.
  eapply wp_add_perm; [by rewrite V2, lookup_insert_eq|]. intros a3 V3.
  eapply wp_add_perm; [by rewrite V3, lookup_insert_eq|]. intros a4 V4.
  apply HQ. rewrite V4, V3, V2, V1, !insert_insert_eq. simpl. f_equal. f_equal.
  by apply (perms_of_bits p).
Qed.

Lemma wp_create_entry a e (Q : A * En -> proc K -> Prop) s :
  (forall a' h pm, view a !! h = None ->
     (exists q, view a' = <[h := Aent (tag e) q pm]> (view a) /\
        akey (Aent (tag e) q pm) = ekey e) -> Q (a', h) s) ->
  wp (create_entry a e) Q E s.
Proof.
  intros HQ. apply wp_bind, wp_orExit. intros [a1 h] H1.
  destruct (create_view _ _ _ H1) as [Hn [e0 V1]].
  apply wp_bind, wp_orExit. intros a2 H2.
  assert (L1 : view a1 !! h = Some e0) by by rewrite V1, lookup_insert_eq.
  pose proof (set_tag_view _ _ _ _ _ H2 L1) as V2. rewrite V1, insert_insert_eq in V2.
  apply wp_bind. change ((tag e =? ACL_USER) || (tag e =? ACL_GROUP)) with (qualified (tag e)).
  destruct (qualified (tag e)) eqn:Hq.
  - apply wp_orExit. intros a3 H3. apply wp_ret, (HQ a3 h (a_perms e0)); [done|].
    exists (qual e). split; [|done].
    rewrite (set_qual_view _ _ _ _ (Aent (tag e) (a_qual e0) (a_perms e0)) H3)
      by by rewrite V2, lookup_insert_eq.
    by rewrite V2, insert_insert_eq.
  - apply wp_ret, wp_ret, (HQ a2 h (a_perms e0)); [done|]. exists (a_qual e0). split; [done|].
    unfold akey, ekey, key_of. simpl. by rewrite Hq.
Qed.

(** One entry of the list does to the object what the specification says. *)
Lemma wp_apply_entry op a e (Q : A -> proc K -> Prop) s :
  unique_keys (view a) -> (op = removeEntries \/ exists p, perms e = Some p /\ 0 <= p <= 7) ->
  (forall a' s', freed s s' -> unique_keys (view a') ->
     amap (view a') = spec_entry op (amap (view a)) e -> Q a' s') ->
  wp (apply_entry op a e) Q E s.
Proof.
  intros Hu Hop HQ. unfold spec_entry in HQ. apply wp_bind, wp_findEntry.
  - intros h e0 s' Hf He Hk. fold (ekey e) in Hk. case_bool_decide as Hrm.
    + apply wp_orExit. intros a' Ha. apply delete_view in Ha. apply HQ; [done| |]; rewrite Ha.
      * by apply unique_delete.
      * rewrite (amap_delete _ _ e0) by done. by rewrite Hk.
    + destruct Hop as [?|(p & Hp & Hr)]; [done|]. apply wp_bind, wp_ret. rewrite Hp in *.
      apply wp_setPerms with e0; [done|done|]. intros a' Ha.
      assert (Hm : may_set (view a) h (Aent (a_tag e0) (a_qual e0) p)).
      { intros h' e' Hl Hk'. by eapply Hu. }
      apply HQ; [done| |]; rewrite Ha; [by apply unique_insert|].
      rewrite amap_insert; [|done|done|by intros e' He'; simplify_eq]. by rewrite <-Hk.
  - intros s' Hf Hnone. fold (ekey e) in Hnone. case_bool_decide as Hrm.
    + apply wp_ret, HQ; [done|done|]. rewrite delete_id; [done|]. by apply amap_missing.
    + destruct Hop as [?|(p & Hp & Hr)]; [done|]. apply wp_bind, wp_create_entry.
      intros a1 h pm Hn (q & V1 & Hk). rewrite Hp in *.
      apply wp_setPerms with (Aent (tag e) q pm); [by rewrite V1, lookup_insert_eq|done|].
      intros a2 V2. rewrite V1, insert_insert_eq in V2. simpl in V2.
      change (akey (Aent (tag e) q p) = ekey e) in Hk.
      assert (Hm : may_set (view a) h (Aent (tag e) q p)).
      { intros h' e' Hl Hk'. exfalso. apply (Hnone _ _ Hl). congruence. }
      apply HQ; [done| |]; rewrite V2; [by apply unique_insert|].
      rewrite amap_insert; [|done|done|by rewrite Hn]. by rewrite Hk.
Qed.

Lemma wp_update_loop f ty op rc l a (Q : A -> proc K -> Prop) s :
  unique_keys (view a) ->
  Forall (fun e => op = removeEntries \/ exists p, perms e = Some p /\ 0 <= p <= 7) l ->
  (l = [] -> exists a0, file_acl (kern s) f ty = Some a0 /\ amap (view a0) = amap (view a)) ->
  (forall a' s' a1, file_acl (kern s') f ty = Some a1 ->
     amap (view a1) = foldl (spec_step op rc) (amap (view a)) l -> Q a' s') ->
  wp (update_loop f ty op rc l a) Q E s.
Proof.
  intros Hu Hl. revert a s Hu. induction Hl as [|e l He Hl IH]; intros a s Hu Hnil HQ.
  { destruct Hnil as (a0 & H1 & H2); [done|]. by apply wp_ret, (HQ a s a0). }
  cbn [update_loop]. apply wp_bind, wp_apply_entry; [done|done|]. intros a1 s1 _ Hu1 Hm1.
  assert (Hcont : forall a2, unique_keys (view a2) ->
    amap (view a2) = spec_step op rc (amap (view a)) e ->
    wp (if negb (acl_valid a2) then errExit (lit "acl_valid") else
        let! r := syscall (fun k => acl_set_file k f ty a2) in
        match r with
        | None => errExit (lit "acl_set_file")
        | Some _ => update_loop f ty op rc l a2
        end) Q E s1).
  { intros a2 Hu2 Hm2. destruct (negb (acl_valid a2)); [by apply wp_errExit|].
    apply wp_bind, wp_syscall; intros k r Hk; [by apply wp_errExit|]. destruct r.
    apply IH; [done| |].
    - intros _. by apply set_get in Hk.
    - intros a' s' a3 H3 H4. apply (HQ a' s' a3); [done|]. simpl. by rewrite H4, Hm2. }
  apply wp_bind. unfold spec_step in Hcont. cbv zeta in Hcont. destruct rc.
  - apply wp_orExit. intros a2 Ha2. apply calc_view in Ha2 as [Hu2 Hm2]; [|done].
    apply Hcont; [done|]. by rewrite Hm2, Hm1.
  - by apply wp_ret, Hcont.
Qed.

Lemma wp_updateACL f (d : bool) l op rc s :
  l <> [] ->
  Forall (fun e => op = removeEntries \/ exists p, perms e = Some p /\ 0 <= p <= 7) l ->
  let ty := if d then ACL_TYPE_DEFAULT else ACL_TYPE_ACCESS in
  wp (updateACL f d l op rc)
    (fun _ s' => exists a a' : A, file_acl (kern s) f ty = Some a /\ file_acl (kern s') f ty = Some a' /\
       amap (view a') = foldl (spec_step op rc) (amap (view a)) l) E s.
Proof.
  intros Hne Hl ty. unfold updateACL. fold ty. apply wp_bind, wp_syscall; intros k r Hk.
  { by apply wp_errExit. }
  apply wp_bind, wp_update_loop; [by eapply get_unique|done|done|].
  intros a2 s1 a1 H1 H2. apply wp_bind, wp_syscall; intros k1 r1 Hk1; [by apply wp_errExit|].
  apply wp_ret. exists r, a1. split_and!; [|by rewrite (free_keeps _ _ _ _ _ Hk1)|done].
  unfold file_acl. by rewrite Hk.
Qed.

End Refine.
