(* ===== verification/AclTheorems.v ===== *)
(** acl_update.c: the main theorems, and a small model of libacl at which their
    hypotheses hold. *)
From Stdlib Require Import ZArith Lia Ascii String.
From stdpp Require Import base tactics list strings gmap fin_maps.
From S2P Require Import Prelude CString Process UgidFunctions AclUpdate AclProps.
#[local] Open Scope Z_scope.

(** ** Invariants of the file system *)

Section Inv.
Context {UD : UserDb} {ET : ErrnoText} {K A En : Type} {LA : LibAcl K A En}.
Implicit Types (s : proc K) (a : A).
Context (I : K -> Prop).

(** The calls other than [acl_set_file] on an invalid ACL keep [I]. *)
Record keeps : Prop := {
  keeps_get k f t : I k -> I (acl_get_file k f t).1;
  keeps_free k : I k -> I (acl_free k).1;
  keeps_set k f t a : I k -> acl_valid a = true -> I (acl_set_file k f t a).1
}.
Context (HI : keeps).

Abbreviation inv m := (forall s, I (kern s) ->
  wp m (fun _ s' => I (kern s')) (fun _ s' => I (kern s')) s).

Lemma inv_bind {B C} (m : M (proc K) B) (f : B -> M (proc K) C) :
  inv m -> (forall b, inv (f b)) -> inv (bind m f).
Proof. intros Hm Hf s Hs. eapply wp_seq_inv; [by apply Hm|]. intros b s' Hs'. by apply Hf. Qed.

Lemma inv_ret {B} (b : B) : inv (ret b).
Proof. intros s Hs. by apply wp_ret. Qed.

Lemma inv_errExit {B} msg : inv (errExit (A:=B) msg).
Proof. intros s Hs. apply wp_errExit. by intros k s' ->. Qed.

Lemma inv_orExit {B} (r : option B) name : inv (orExit r name).
Proof. destruct r; [apply inv_ret|apply inv_errExit]. Qed.

Lemma inv_syscall {B} (call : K -> K * (Z + B)) :
  (forall k, I k -> I (call k).1) -> inv (syscall call).
Proof.
  intros Hc s Hs. specialize (Hc _ Hs). apply wp_syscall; intros k r Hk; by rewrite Hk in Hc.
Qed.

Lemma inv_find_loop a l t q : inv (find_loop a l t q).
Proof.
  induction l as [|h l IH]; simpl; [apply inv_ret|].
  apply inv_bind; [apply inv_orExit|]. intros t'. destruct (t =? t'); [|apply IH].
  destruct ((t =? ACL_USER) || (t =? ACL_GROUP)); [|apply inv_ret].
  apply inv_bind; [apply inv_orExit|]. intros id.
  apply inv_bind; [apply inv_syscall, keeps_free, HI|]. intros [r|]; [|apply inv_errExit].
  destruct (q =? id); [apply inv_ret|apply IH].
Qed.

Lemma inv_setPerms a h p : inv (setPerms a h p).
Proof.
  assert (Hadd : forall a flag, inv (add_perm a h p flag)).
  { intros a1 flag. unfold add_perm. destruct (has_bit _ _); [apply inv_orExit|apply inv_ret]. }
  apply inv_bind; [apply inv_orExit|]. intros a1. apply inv_bind; [apply Hadd|].
  intros a2. apply inv_bind; [apply Hadd|]. intros a3. apply Hadd.
Qed.

Lemma inv_apply_entry op a e :
  (op = removeEntries \/ exists p, perms e = Some p /\ 0 <= p <= 7) -> inv (apply_entry op a e).
Proof.
  intros Hop. apply inv_bind.
  { apply inv_bind; [apply inv_orExit|]. intros l. apply inv_find_loop. }
  intros found. case_bool_decide as Hrm.
  { destruct found; [apply inv_orExit|apply inv_ret]. }
  destruct Hop as [?|(p & -> & _)]; [done|]. apply inv_bind.
  { destruct found; [apply inv_ret|]. apply inv_bind; [apply inv_orExit|]. intros [a1 h].
    apply inv_bind; [apply inv_orExit|]. intros a2. apply inv_bind; [|intros b; apply inv_ret].
    destruct (_ || _); [apply inv_orExit|apply inv_ret]. }
  intros [a1 h]. apply inv_setPerms.
Qed.

Lemma inv_update_loop f ty op rc l a :
  Forall (fun e => op = removeEntries \/ exists p, perms e = Some p /\ 0 <= p <= 7) l ->
  inv (update_loop f ty op rc l a).
Proof.
  intros Hl. revert a. induction Hl as [|e l He Hl IH]; intros a; simpl; [apply inv_ret|].
  apply inv_bind; [by apply inv_apply_entry|]. intros a1.
  apply inv_bind; [destruct rc; [apply inv_orExit|apply inv_ret]|]. intros a2.
  destruct (acl_valid a2) eqn:Hv; simpl; [|apply inv_errExit].
  apply inv_bind; [|intros [r|]; [apply IH|apply inv_errExit]].
  apply inv_syscall. intros k Hk. by apply keeps_set.
Qed.

Lemma inv_updateACL f d l op rc :
  Forall (fun e => op = removeEntries \/ exists p, perms e = Some p /\ 0 <= p <= 7) l ->
  inv (updateACL f d l op rc).
Proof.
  intros Hl. apply inv_bind; [apply inv_syscall; intros k; by apply keeps_get|].
  intros [a|]; [|apply inv_errExit]. apply inv_bind; [by apply inv_update_loop|]. intros _.
  apply inv_bind; [apply inv_syscall, keeps_free, HI|].
  intros [r|]; [apply inv_ret|apply inv_errExit].
Qed.

End Inv.

(** ** The options *)

Fixpoint plan (opts : list option_arg) (c : settings) : option settings :=
  match opts with
  | [] => Some c
  | o :: rest => match set_option o c with Some c' => plan rest c' | None => None end
  end.

(** An operation was chosen as soon as one option counted, with its text. *)
Definition settings_ok (c : settings) : Prop :=
  0 <= optCnt c /\ (optCnt c <> 0 -> operation c <> unspecifiedOp) /\
  (operation c = modifyEntries \/ operation c = removeEntries \/ operation c = checkValidACL ->
   is_Some (aclSpec c)).

Lemma set_option_ok o c c' : settings_ok c -> set_option o c = Some c' -> settings_ok c'.
Proof.
  destruct o as [opt arg]. intros (H1 & H2 & H3). unfold set_option, settings_ok.
  repeat case_bool_decide; intros [= <-]; simpl; split_and!; try lia; try done; eauto; naive_solver.
Qed.

Lemma plan_ok opts c c' : settings_ok c -> plan opts c = Some c' -> settings_ok c'.
Proof.
  revert c. induction opts as [|o opts IH]; intros c Hc; simpl; [by intros [= <-]|].
  destruct (set_option o c) as [c1|] eqn:Ho; [|done]. apply IH. by eapply set_option_ok.
Qed.

(** The settings under which files are changed. *)
Definition acts (c : settings) : bool :=
  (optCnt c =? 1) && negb (bool_decide (operation c = checkValidACL)).

Section Main.
Context {UD : UserDb} {ET : ErrnoText} {K A En : Type} {LA : LibAcl K A En}.
Implicit Types (s : proc K).

Lemma wp_acl_usageError {B} p m b (Q : B -> proc K -> Prop) E s :
  (forall s', kern s' = kern s -> E EXIT_FAILURE s') -> wp (usageError p m b) Q E s.
Proof.
  intros HE. apply wp_seq_inv with (I := fun s' => kern s' = kern s).
  { destruct m; [by apply wp_puterr|by apply wp_ret]. }
  intros [] s1 H1. destruct b; apply wp_bind, wp_puterr; intros s2 H2 _; apply wp_exit3;
    intros s3 H3; apply HE; congruence.
Qed.

Lemma wp_parse_options p opts c (Q : settings -> proc K -> Prop) E s :
  (plan opts c = None -> forall s', kern s' = kern s -> E EXIT_FAILURE s') ->
  (forall c', plan opts c = Some c' -> Q c' s) ->
  wp (parse_options p opts c) Q E s.
Proof.
  revert c. induction opts as [|o opts IH]; intros c HE HQ; simpl in *; [by apply wp_ret, HQ|].
  destruct (set_option o c); [by apply IH|]. by apply wp_acl_usageError, HE.
Qed.

Lemma wp_process_file c l file (E : exit_kind -> proc K -> Prop) s :
  (forall k s', E k s') ->
  operation c <> unspecifiedOp -> operation c <> checkValidACL ->
  (operation c = modifyEntries -> Forall (fun e => exists p, perms e = Some p /\ 0 <= p <= 7) l) ->
  wp (process_file c l file) (fun _ _ => True) E s.
Proof.
  intros HE H1 H2 Hl. unfold process_file. case_bool_decide as H3.
  { apply wp_bind, wp_syscall; intros; [by apply wp_errExit|by apply wp_ret]. }
  assert (Hop : bool_decide (operation c = modifyEntries) || bool_decide (operation c = removeEntries)
    = true). { destruct (operation c); done. }
  rewrite Hop. eapply wp_mono; [apply (inv_updateACL (fun _ => True))|done|by intros].
  - by split.
  - destruct (decide (operation c = removeEntries)) as [->|Hn].
    + apply Forall_forall. by left.
    + eapply Forall_impl; [apply Hl; by destruct (operation c)|]. intros e He. by right.
  - done.
Qed.

End Main.

(** C9: Applying a list of entries to the ACL of a file succeeds only with the
    file's ACL updated, as a map from tags and qualifiers to permissions, entry
    by entry: permissions set or the entry removed, and the mask recalculated
    each time unless [-n] was given. *)
Theorem updateACL_refines {UD : UserDb} {ET : ErrnoText} {K A En : Type}
    {EqD : EqDecision En} {Cnt : Countable En} {LA : LibAcl K A En} {Laws : LibAclLaws K A En}
    (file : cstr) (d : bool) (aclist : list ace) (op : Operation) (recalc : bool) (s : proc K) :
  aclist <> [] -> Forall (ace_ok (bool_decide (op <> removeEntries))) aclist ->
  let ty := if d then ACL_TYPE_DEFAULT else ACL_TYPE_ACCESS in
  wp (updateACL file d aclist op recalc)
    (fun _ s' => exists a a', file_acl (kern s) file ty = Some a /\
       file_acl (kern s') file ty = Some a' /\
       amap (view a') = foldl (spec_step op recalc) (amap (view a)) aclist)
    (fun _ _ => True) s.
Proof.
  intros Hne Hok. apply wp_updateACL; [done|done|]. eapply Forall_impl; [exact Hok|].
  intros e [_ _ Hp]. case_bool_decide as Hop; [by right|left]. by destruct op; try destruct Hop.
Qed.

(** No ACL that [acl_valid] rejects is ever stored: every property of the
    file system that storing valid ACLs keeps is kept by [updateACL], however
    it ends. *)
Theorem only_valid_ACLs_stored {UD : UserDb} {ET : ErrnoText} {K A En : Type}
    {LA : LibAcl K A En} (I : K -> Prop) (file : cstr) (d : bool) (aclist : list ace)
    (op : Operation) (recalc : bool) (s : proc K) :
  keeps I -> Forall (ace_ok (bool_decide (op <> removeEntries))) aclist -> I (kern s) ->
  wp (updateACL file d aclist op recalc) (fun _ s' => I (kern s')) (fun _ s' => I (kern s')) s.
Proof.
  intros HI Hok Hs. apply inv_updateACL; [done| |done]. eapply Forall_impl; [exact Hok|].
  intros e [_ _ Hp]. case_bool_decide as Hop; [by right|left]. by destruct op; try destruct Hop.
Qed.

(** C39: The program always ends, never in undefined behaviour. Unless exactly
    one of the options [-m], [-x], [-k] was given, and the text of [-m] or
    [-x] parses, no file is touched; with exactly [-V] it succeeds just when
    the text parses. The "Bad logic!" branch is never reached. *)
Theorem main_guards {UD : UserDb} {ET : ErrnoText} {K A En : Type} {LA : LibAcl K A En}
    (progName : cstr) (opts : list option_arg) (files : list cstr) (s : proc K) :
  ids_ok ->
  wp (run progName opts files) (fun _ _ => False) (fun k s' =>
    match plan opts no_options with
    | None => kern s' = kern s /\ k = EXIT_FAILURE
    | Some c =>
        if acts c then
          forall text, aclSpec c = Some text -> operation c <> removeDefaultACL ->
            (exists err, parseACL text (bool_decide (operation c = modifyEntries)) = inl err) ->
            kern s' = kern s /\ k = EXIT_FAILURE
        else
          kern s' = kern s /\
          (k = EXIT_SUCCESS <-> optCnt c = 1 /\ useDefaultACL c = false /\
             exists text l, aclSpec c = Some text /\ parseACL text true = inr l)
    end) s.
Proof.
  intros Hids. apply wp_bind, wp_parse_options; [by intros ->|]. intros c Hplan.
  assert (Hc : settings_ok c) by (eapply plan_ok, Hplan; split_and!; naive_solver).
  destruct Hc as (_ & Hop & Hspec). rewrite Hplan. unfold acts.
  destruct (Z.eqb_spec (optCnt c) 1) as [Ho|Ho]; simpl negb; cbn iota; cbn [andb].
  2:{ apply wp_bind, wp_acl_usageError. intros s' Hk. split; [done|]. naive_solver. }
  apply wp_bind, wp_ret, wp_bind. specialize (Hop ltac:(lia)).
  case_bool_decide as HV; cbn [andb negb].
  - destruct Hspec as [text Ht]; [tauto|].
    destruct (useDefaultACL c); [apply wp_acl_usageError; naive_solver|].
    apply wp_ret, wp_bind. unfold parse_spec. rewrite Ht.
    destruct (parseACL text true) as [err|l] eqn:Hp.
    + apply wp_bind, wp_puterr. intros s1 Hk1 _. apply wp_bind, wp_outputError. intros s2 Hk2 _.
      unfold terminate. apply wp_bind, wp_get.
      destruct (EF_DUMPCORE s2) as [[|]|]; [apply wp_exit3|apply wp_exit|apply wp_exit3];
        intros; (split; [congruence|]); split; try done; intros (_ & _ & t' & l' & Hs & Hl); congruence.
    + apply wp_bind, wp_putout. intros s1 Hk1 _. apply wp_exit3. intros s2 Hk2.
      split; [congruence|]. split; [|done]. intros _. split_and!; [done|done|]. by exists text, l.
  - apply wp_ret, wp_bind, wp_ret, wp_bind.
    assert (Hfiles : forall l s1,
      (operation c = modifyEntries -> Forall (fun e => exists p, perms e = Some p /\ 0 <= p <= 7) l) ->
      forall E, (forall k s', E k s') ->
      wp (A:=unit) (for_each files (process_file c l) ;;; exit3 EXIT_SUCCESS) (fun _ _ => False) E s1).
    { intros l s1 Hl E HE. eapply wp_seq_inv with (I := fun _ => True).
      - apply wp_for_each_inv; [done|]. intros f s2 _ _. by apply wp_process_file.
      - intros _ s2 _. by apply wp_exit3. }
    destruct (bool_decide (operation c = modifyEntries) || bool_decide (operation c = removeEntries))
      eqn:Hmx.
    + destruct Hspec as [text Ht]; [destruct (operation c); naive_solver|].
      unfold parse_spec. rewrite Ht.
      destruct (parseACL text (bool_decide (operation c = modifyEntries))) as [err|l] eqn:Hp.
      * apply wp_bind, wp_puterr. intros s1 Hk1 _. apply wp_acl_usageError. intros s2 Hk2.
        intros text' _ _ _. split; [congruence|done].
      * apply wp_ret, Hfiles.
        -- intros Hm. rewrite bool_decide_eq_true_2 in Hp by done.
           apply parse_entries_sound in Hp as [Hp _]; [|done]. eapply Forall_impl; [exact Hp|].
           by intros e [].
        -- intros k s' text' [= <-] _ [err Herr]. congruence.
    + apply wp_ret, Hfiles; [intros Hm; by rewrite Hm in Hmx|].
      intros k s' text' _ Hk. destruct (operation c); done.
Qed.

(** ** A small libacl *)

Definition demo_valid (a : gmap nat aent) : bool :=
  bool_decide (NoDup (akey <$> (map_to_list a).*2)).

Definition demo_mask (a : gmap nat aent) : gmap nat aent :=
  let e := Aent ACL_MASK 0 (group_class (amap a)) in
  match list_find (fun he => akey he.2 = (ACL_MASK, 0)) (map_to_list a) with
  | Some (_, (h, _)) => <[h := e]> a
  | None => <[fresh (dom a) := e]> a
  end.

(** One pair of ACLs, access and default, shared by all files. *)
Definition demo_fs : Type := gmap nat aent * gmap nat aent.

Definition demo_acl (k : demo_fs) (t : acl_type) : gmap nat aent :=
  match t with ACL_TYPE_ACCESS => k.1 | ACL_TYPE_DEFAULT => k.2 end.

Definition demo_change (f : aent -> aent) (a : gmap nat aent) (h : nat) : option (gmap nat aent) :=
  (fun e => <[h := f e]> a) <$> a !! h.

#[export] Instance demo_libacl : LibAcl demo_fs (gmap nat aent) nat := {
  acl_get_file k f t :=
    (k, if demo_valid (demo_acl k t) then inr (demo_acl k t) else inl 22);
  acl_set_file k f t a :=
    if demo_valid a then
      (match t with ACL_TYPE_ACCESS => (a, k.2) | ACL_TYPE_DEFAULT => (k.1, a) end, inr tt)
    else (k, inl 22);
  acl_delete_def_file k f := ((k.1, ∅), inr tt);
  acl_free k := (k, inr tt);
  acl_entries a := Some (map_to_list a).*1;
  acl_get_tag_type a h := a_tag <$> a !! h;
  acl_get_qualifier a h := a_qual <$> a !! h;
  acl_delete_entry a h := Some (delete h a);
  acl_create_entry a :=
    let h := fresh (dom a) in Some (<[h := Aent ACL_OTHER 0 0]> a, h);
  acl_set_tag_type a h t := demo_change (fun e => Aent t (a_qual e) (a_perms e)) a h;
  acl_set_qualifier a h q := demo_change (fun e => Aent (a_tag e) q (a_perms e)) a h;
  acl_clear_perms a h := demo_change (fun e => Aent (a_tag e) (a_qual e) 0) a h;
  acl_add_perm a h p :=
    demo_change (fun e => Aent (a_tag e) (a_qual e) (Z.lor (a_perms e) p)) a h;
  acl_calc_mask a := Some (demo_mask a);
  acl_valid a := demo_valid a
}.

Lemma demo_valid_unique a : demo_valid a = true -> unique_keys a.
Proof.
  intros Hv%bool_decide_eq_true h1 h2 e1 e2 H1 H2 He.
  apply elem_of_map_to_list, list_elem_of_lookup in H1 as [i Hi], H2 as [j Hj].
  assert (i = j) as <-.
  { eapply NoDup_lookup; [exact Hv| |]; rewrite !list_lookup_fmap, ?Hi, ?Hj; [done|].
    simpl. by rewrite <-He. }
  congruence.
Qed.

Lemma demo_change_view f a h a' e :
  demo_change f a h = Some a' -> a !! h = Some e -> a' = <[h := f e]> a.
Proof. unfold demo_change. intros Hc He. rewrite He in Hc. simpl in Hc. congruence. Qed.

Lemma fresh_dom (a : gmap nat aent) : a !! fresh (dom a) = None.
Proof. apply not_elem_of_dom. apply is_fresh. Qed.

Lemma demo_mask_spec a :
  unique_keys a -> unique_keys (demo_mask a) /\ amap (demo_mask a) = set_mask (amap a).
Proof.
  intros Hu. unfold demo_mask. set (e := Aent ACL_MASK 0 _).
  assert (Hset : forall h, may_set a h e -> (forall e', a !! h = Some e' -> akey e' = akey e) ->
    unique_keys (<[h := e]> a) /\ amap (<[h := e]> a) = set_mask (amap a)).
  { intros h Hm Hk. split; [by apply unique_insert|]. by rewrite amap_insert. }
  destruct (list_find _ (map_to_list a)) as [[i [h e0]]|] eqn:Hf.
  - apply list_find_Some in Hf as (Hl & Hk & _). simpl in Hk.
    apply list_elem_of_lookup_2, elem_of_map_to_list in Hl. apply Hset.
    + intros h' e' Hl' Hk'. eapply Hu; [done|done|]. by rewrite Hk'.
    + intros e' He'. by simplify_eq.
  - apply list_find_None in Hf. rewrite Forall_forall in Hf. apply Hset.
    + intros h' e' Hl' Hk'. apply elem_of_map_to_list in Hl'. by destruct (Hf _ Hl').
    + intros e' He'. by rewrite fresh_dom in He'.
Qed.

#[export] Instance demo_acl_laws : LibAclLaws demo_fs (gmap nat aent) nat.
Proof.
  refine {| view := fun a => a |}.
  - intros a l h [= <-]. rewrite list_elem_of_fmap. split.
    + intros ([h' e] & -> & Hin). apply elem_of_map_to_list in Hin. by exists e.
    + intros [e He]. exists (h, e). by rewrite elem_of_map_to_list.
  - intros a h t e Ht He. simpl in Ht. rewrite He in Ht. by injection Ht.
  - intros a h q e Ht He _. simpl in Ht. rewrite He in Ht. by injection Ht.
  - by intros a h a' [= <-].
  - intros a a' h [= <- <-]. split; [apply fresh_dom|]. by eexists.
  - intros a h t a' e. apply demo_change_view.
  - intros a h t a' e. apply demo_change_view.
  - intros a h a' e. apply demo_change_view.
  - intros a h t a' e. apply demo_change_view.
  - intros a a' [= <-]. apply demo_mask_spec.
  - intros k f t k' a. simpl. destruct (demo_valid _) eqn:Hv; [|done]. intros [= _ <-].
    by apply demo_valid_unique.
  - by intros k f t k' a f' t' [= <- _].
  - by intros k k' r f t [= <- _].
  - intros k f t a k'. simpl. destruct (demo_valid a) eqn:Hv; [|done]. intros [= <-]. exists a.
    split; [|done]. unfold file_acl. simpl. destruct t; simpl; by rewrite Hv.
Qed.

#[export] Instance no_errno_text : ErrnoText := {
  MAX_ENAME := 0; ename _ := []; strerror _ := [] }.

(** A file with the minimal ACL rw-r--r--. *)
Definition demo_file : proc demo_fs :=
  Proc (list_to_map [(0%nat, Aent ACL_USER_OBJ 0 6); (1%nat, Aent ACL_GROUP_OBJ 0 4);
                     (2%nat, Aent ACL_OTHER 0 4)], ∅) 0 None [] [] [].

Definition demo_list : list ace :=
  [Ace ACL_USER 1000 (Some 6); Ace ACL_GROUP 100 (Some 1); Ace ACL_OTHER 0 (Some 0)].

Lemma demo_list_ok b : b = true -> Forall (ace_ok b) demo_list.
Proof.
  intros ->. repeat apply Forall_cons_2; [..|by apply Forall_nil];
    (split; [by apply (bool_decide_unpack _)|by vm_compute|eexists; split; [done|lia]]).
Qed.

Lemma updateACL_refines_witness :
  wp (updateACL (lit "f") false demo_list modifyEntries true)
    (fun _ s' => exists a a', file_acl (kern demo_file) (lit "f") ACL_TYPE_ACCESS = Some a /\
       file_acl (kern s') (lit "f") ACL_TYPE_ACCESS = Some a' /\
       amap (view a') = foldl (spec_step modifyEntries true) (amap (view a)) demo_list)
    (fun _ _ => True) demo_file.
Proof.
  apply (updateACL_refines (lit "f") false demo_list modifyEntries true demo_file); [done|].
  by apply demo_list_ok.
Defined.

Lemma only_valid_ACLs_stored_witness :
  wp (updateACL (lit "f") false demo_list modifyEntries true)
    (fun _ s' => demo_valid (kern s').1 = true) (fun _ s' => demo_valid (kern s').1 = true) demo_file.
Proof.
  apply (only_valid_ACLs_stored (fun k => demo_valid k.1 = true) (lit "f") false demo_list
           modifyEntries true demo_file); [|by apply demo_list_ok|by vm_compute].
  split; [done|done|]. intros k f t a Hk Hv. simpl in *. rewrite Hv. by destruct t.
Defined.

Lemma main_guards_witness :
  wp (run (lit "acl_update") [Opt "V"%char (lit "u:mtk:rw,o::-")] [] )
    (fun _ _ => False) (fun k s' => kern s' = kern demo_file /\ k = EXIT_SUCCESS) demo_file.
Proof.
  eapply wp_mono; [apply (main_guards (lit "acl_update") [Opt "V"%char (lit "u:mtk:rw,o::-")] []
    demo_file)|done|].
  - split; intros n u; simpl; repeat case_bool_decide; intros [= <-]; lia.
  - intros k s' [H1 H2]. split; [done|]. apply H2. split_and!; [done|done|].
    exists (lit "u:mtk:rw,o::-"), [Ace ACL_USER 1000 (Some 6); Ace ACL_OTHER 0 (Some 0)].
    split; [done|]. by vm_compute.
Defined.
