(* ===== verification/SeccompBpf.v ===== *)
(** Seccomp filters (src/tlpi-dist/seccomp): the BPF programs that the examples
    seccomp_arg64, seccomp_control_open, seccomp_deny_open,
    seccomp_deny_syscall, seccomp_multiarch, seccomp_perf, seccomp_logging,
    seccomp_trap_sigsys, seccomp_unotify_mkdir and seccomp_bench install, as
    lists of instructions.

    The BPF machine is part of the kernel: the class [Bpf] is its state
    transition as a function, and [BpfLaws] one equation per instruction, as
    documented for classic BPF. *)
From Stdlib Require Import ZArith Lia Ascii String.
From stdpp Require Import base tactics list strings.
From S2P Require Import Prelude CString Process.
#[local] Open Scope Z_scope.

(** ** Instructions: <linux/filter.h>, <linux/seccomp.h>, <linux/audit.h> *)

Record sock_filter := Insn { code : Z; jt : nat; jf : nat; k : Z }.

Definition BPF_LD : Z := 0x00.
Definition BPF_ALU : Z := 0x04.
Definition BPF_JMP : Z := 0x05.
Definition BPF_RET : Z := 0x06.
Definition BPF_W : Z := 0x00.
Definition BPF_ABS : Z := 0x20.
Definition BPF_ADD : Z := 0x00.
Definition BPF_JA : Z := 0x00.
Definition BPF_JEQ : Z := 0x10.
Definition BPF_JGT : Z := 0x20.
Definition BPF_JGE : Z := 0x30.
Definition BPF_JSET : Z := 0x40.
Definition BPF_K : Z := 0x00.

Definition BPF_STMT (c v : Z) : sock_filter := Insn c 0 0 v.
Definition BPF_JUMP (c v : Z) (t f : nat) : sock_filter := Insn c t f v.

Definition LD_ABS : Z := Z.lor (Z.lor BPF_LD BPF_W) BPF_ABS.
Definition JEQ_K : Z := Z.lor (Z.lor BPF_JMP BPF_JEQ) BPF_K.
Definition JGT_K : Z := Z.lor (Z.lor BPF_JMP BPF_JGT) BPF_K.
Definition JGE_K : Z := Z.lor (Z.lor BPF_JMP BPF_JGE) BPF_K.
Definition JSET_K : Z := Z.lor (Z.lor BPF_JMP BPF_JSET) BPF_K.
Definition JA_K : Z := Z.lor BPF_JMP BPF_JA.
Definition ADD_K : Z := Z.lor (Z.lor BPF_ALU BPF_ADD) BPF_K.
Definition RET_K : Z := Z.lor BPF_RET BPF_K.

Definition SECCOMP_RET_KILL_PROCESS : Z := 0x80000000.
Definition SECCOMP_RET_KILL : Z := 0x00000000.
Definition SECCOMP_RET_TRAP : Z := 0x00030000.
Definition SECCOMP_RET_ERRNO : Z := 0x00050000.
Definition SECCOMP_RET_USER_NOTIF : Z := 0x7fc00000.
Definition SECCOMP_RET_TRACE : Z := 0x7ff00000.
Definition SECCOMP_RET_LOG : Z := 0x7ffc0000.
Definition SECCOMP_RET_ALLOW : Z := 0x7fff0000.

Definition AUDIT_ARCH_X86_64 : Z := 0xC000003E.
Definition AUDIT_ARCH_AARCH64 : Z := 0xC00000B7.
Definition AUDIT_ARCH_I386 : Z := 0x40000003.

Definition NR_open : Z := 2.
Definition NR_lseek : Z := 8.
Definition NR_mkdir : Z := 83.
Definition NR_getppid : Z := 110.
(** The number of [openat] on x86-64; on AArch64 it is 56. *)
Definition NR_openat : Z := 257.
Definition NR_openat_aarch64 : Z := 56.

Definition O_WRONLY : Z := 1.
Definition O_RDWR : Z := 2.
Definition O_CREAT : Z := 64.
Definition ENOTSUP : Z := 95.

(** [struct seccomp_data]: what a filter can examine. *)
Record seccomp_data := SeccompData { nr : Z; arch : Z; args : list Z }.

(** The system call number and architecture are 32 bits wide, the six
    arguments 64. *)
Definition data_ok (d : seccomp_data) : Prop :=
  0 <= nr d < 2 ^ 32 /\ 0 <= arch d < 2 ^ 32 /\
  exists a0 a1 a2 a3 a4 a5, args d = [a0; a1; a2; a3; a4; a5] /\
    Forall (fun a => 0 <= a < 2 ^ 64) (args d).

Definition arg (d : seccomp_data) (n : nat) : Z := default 0 (args d !! n).

(** [offsetof(struct seccomp_data, ...)] *)
Definition off_nr : Z := 0.
Definition off_arch : Z := 4.
Definition off_arg (n : Z) : Z := 16 + 8 * n.

(** ** The machine *)

Class Bpf := {
  bpf_load : seccomp_data -> Z -> Z;
  bpf_exec : list sock_filter -> nat -> Z -> seccomp_data -> option Z
}.

Definition bpf_run `{Bpf} (prog : list sock_filter) (d : seccomp_data) : option Z :=
  bpf_exec prog 0 0 d.

Class BpfLaws `{Bpf} := {
  load_nr d : bpf_load d off_nr = nr d;
  load_arch d : bpf_load d off_arch = arch d;
  load_low d n : (n < 6)%nat -> bpf_load d (off_arg (Z.of_nat n)) = to_unsigned 32 (arg d n);
  load_high d n :
    (n < 6)%nat -> bpf_load d (off_arg (Z.of_nat n) + 4) = to_unsigned 32 (arg d n / 2 ^ 32);
  exec_ld prog pc a d v :
    prog !! pc = Some (BPF_STMT LD_ABS v) ->
    bpf_exec prog pc a d = bpf_exec prog (S pc) (bpf_load d v) d;
  exec_jeq prog pc a d v t f :
    prog !! pc = Some (BPF_JUMP JEQ_K v t f) ->
    bpf_exec prog pc a d = bpf_exec prog (S pc + if a =? v then t else f) a d;
  exec_jgt prog pc a d v t f :
    prog !! pc = Some (BPF_JUMP JGT_K v t f) ->
    bpf_exec prog pc a d = bpf_exec prog (S pc + if v <? a then t else f) a d;
  exec_jge prog pc a d v t f :
    prog !! pc = Some (BPF_JUMP JGE_K v t f) ->
    bpf_exec prog pc a d = bpf_exec prog (S pc + if v <=? a then t else f) a d;
  exec_jset prog pc a d v t f :
    prog !! pc = Some (BPF_JUMP JSET_K v t f) ->
    bpf_exec prog pc a d = bpf_exec prog (S pc + if has_bit a v then t else f) a d;
  exec_ja prog pc a d v t f :
    prog !! pc = Some (BPF_JUMP JA_K (Z.of_nat v) t f) ->
    bpf_exec prog pc a d = bpf_exec prog (S pc + v) a d;
  exec_add prog pc a d v :
    prog !! pc = Some (BPF_STMT ADD_K v) ->
    bpf_exec prog pc a d = bpf_exec prog (S pc) (to_unsigned 32 (a + v)) d;
  exec_ret prog pc a d v :
    prog !! pc = Some (BPF_STMT RET_K v) -> bpf_exec prog pc a d = Some v
}.

(** ** The filters *)

Definition X32_SYSCALL_BIT : Z := 0x40000000.

(** The prologue most of the programs share: check the architecture, load the
    system call number, and kill x32 callers. *)
Definition check_x86_64 : list sock_filter :=
  [BPF_STMT LD_ABS off_arch;
   BPF_JUMP JEQ_K AUDIT_ARCH_X86_64 0 2;
   BPF_STMT LD_ABS off_nr;
   BPF_JUMP JGE_K X32_SYSCALL_BIT 0 1;
   BPF_STMT RET_K SECCOMP_RET_KILL_PROCESS].

(** The AArch64 variant. *)
Definition check_aarch64 : list sock_filter :=
  [BPF_STMT LD_ABS off_arch;
   BPF_JUMP JEQ_K AUDIT_ARCH_AARCH64 1 0;
   BPF_STMT RET_K SECCOMP_RET_KILL_PROCESS;
   BPF_STMT LD_ABS off_nr].

(** seccomp_arg64.c *)
Definition arg64_filter : list sock_filter :=
  [BPF_STMT LD_ABS off_arch;
   BPF_JUMP JEQ_K AUDIT_ARCH_X86_64 0 2;
   BPF_STMT LD_ABS off_nr;
   BPF_JUMP JGE_K X32_SYSCALL_BIT 0 1;
   BPF_STMT RET_K SECCOMP_RET_KILL_PROCESS;
   BPF_JUMP JEQ_K NR_lseek 1 0;
   BPF_STMT RET_K SECCOMP_RET_ALLOW;
   BPF_STMT LD_ABS (off_arg 1 + 4);
   BPF_JUMP JEQ_K 0 1 0;
   BPF_STMT RET_K (Z.lor SECCOMP_RET_ERRNO 2);
   BPF_STMT LD_ABS (off_arg 1);
   BPF_JUMP JGT_K 1000 0 1;
   BPF_STMT RET_K (Z.lor SECCOMP_RET_ERRNO 1);
   BPF_STMT RET_K SECCOMP_RET_ALLOW].

(** seccomp_control_open.c, on x86-64 and on AArch64 (which has no [open]). *)
Definition control_open_flags : list sock_filter :=
  [BPF_JUMP JSET_K O_CREAT 0 1;
   BPF_STMT RET_K SECCOMP_RET_KILL_PROCESS;
   BPF_JUMP JSET_K (Z.lor O_WRONLY O_RDWR) 0 1;
   BPF_STMT RET_K (Z.lor SECCOMP_RET_ERRNO ENOTSUP);
   BPF_STMT RET_K SECCOMP_RET_ALLOW].

Definition control_open_filter : list sock_filter :=
  check_x86_64 ++
  [BPF_JUMP JEQ_K NR_open 0 2;
   BPF_STMT LD_ABS (off_arg 1);
   BPF_JUMP JA_K 3 0 0;
   BPF_JUMP JEQ_K NR_openat 1 0;
   BPF_STMT RET_K SECCOMP_RET_ALLOW;
   BPF_STMT LD_ABS (off_arg 2)] ++ control_open_flags.

Definition control_open_filter_aarch64 : list sock_filter :=
  check_aarch64 ++
  [BPF_JUMP JEQ_K NR_openat_aarch64 1 0;
   BPF_STMT RET_K SECCOMP_RET_ALLOW;
   BPF_STMT LD_ABS (off_arg 2)] ++ control_open_flags.

(** seccomp_deny_open.c *)
Definition deny_open_filter : list sock_filter :=
  check_x86_64 ++
  [BPF_JUMP JEQ_K NR_open 2 0;
   BPF_JUMP JEQ_K NR_openat 1 0;
   BPF_STMT RET_K SECCOMP_RET_ALLOW;
   BPF_STMT RET_K SECCOMP_RET_KILL_PROCESS].

Definition deny_open_filter_aarch64 : list sock_filter :=
  check_aarch64 ++
  [BPF_JUMP JEQ_K NR_openat_aarch64 1 0;
   BPF_STMT RET_K SECCOMP_RET_ALLOW;
   BPF_STMT RET_K SECCOMP_RET_KILL_PROCESS].

(** seccomp_deny_syscall.c: no architecture check, deliberately. The [int]
    given is stored in an unsigned 32-bit field. *)
Definition deny_syscall_filter (syscallNum : Z) : list sock_filter :=
  [BPF_STMT LD_ABS off_nr;
   BPF_JUMP JEQ_K (to_unsigned 32 syscallNum) 1 0;
   BPF_STMT RET_K SECCOMP_RET_ALLOW;
   BPF_STMT RET_K SECCOMP_RET_KILL_PROCESS].

(** seccomp_multiarch.c *)
Definition NR_mq_notify_x86_64 : Z := 244.
Definition NR_mq_notify_i386 : Z := 281.
Definition NR_mq_notify_x32 : Z := 527.

Definition multiarch_filter : list sock_filter :=
  [BPF_STMT LD_ABS off_arch;
   BPF_JUMP JEQ_K AUDIT_ARCH_X86_64 0 5;
   BPF_STMT LD_ABS off_nr;
   BPF_JUMP JEQ_K NR_mq_notify_x86_64 0 1;
   BPF_STMT RET_K (Z.lor SECCOMP_RET_ERRNO NR_mq_notify_x86_64);
   BPF_JUMP JEQ_K (NR_mq_notify_x32 + X32_SYSCALL_BIT) 0 5;
   BPF_STMT RET_K (Z.lor SECCOMP_RET_ERRNO NR_mq_notify_x32);
   BPF_JUMP JEQ_K AUDIT_ARCH_I386 0 4;
   BPF_STMT LD_ABS off_nr;
   BPF_JUMP JEQ_K NR_mq_notify_i386 0 1;
   BPF_STMT RET_K (Z.lor SECCOMP_RET_ERRNO NR_mq_notify_i386);
   BPF_STMT RET_K SECCOMP_RET_ALLOW;
   BPF_STMT RET_K SECCOMP_RET_KILL_PROCESS].

(** seccomp_perf.c *)
Definition perf_filter : list sock_filter :=
  check_x86_64 ++
  [BPF_JUMP JEQ_K NR_openat 1 0;
   BPF_STMT RET_K SECCOMP_RET_ALLOW;
   BPF_STMT RET_K SECCOMP_RET_KILL_PROCESS].

(** seccomp_logging.c *)
Definition logging_filter : list sock_filter :=
  check_x86_64 ++ [BPF_STMT RET_K SECCOMP_RET_LOG].

(** seccomp_trap_sigsys.c *)
Definition trap_sigsys_filter : list sock_filter :=
  [BPF_STMT LD_ABS off_arch;
   BPF_JUMP JEQ_K AUDIT_ARCH_X86_64 1 0;
   BPF_STMT RET_K SECCOMP_RET_KILL;
   BPF_STMT LD_ABS off_nr;
   BPF_JUMP JGE_K X32_SYSCALL_BIT 0 1;
   BPF_STMT RET_K SECCOMP_RET_KILL_PROCESS;
   BPF_JUMP JEQ_K NR_getppid 0 1;
   BPF_STMT RET_K SECCOMP_RET_TRAP;
   BPF_STMT RET_K SECCOMP_RET_ALLOW].

(** seccomp_unotify_mkdir.c: the filter that notifies the supervisor and the
    optional second one, whose last instruction is replaced. *)
Definition notify_filter : list sock_filter :=
  check_x86_64 ++
  [BPF_JUMP JEQ_K NR_mkdir 0 1;
   BPF_STMT RET_K SECCOMP_RET_USER_NOTIF;
   BPF_STMT RET_K SECCOMP_RET_ALLOW].

Definition second_filter (secondFilter : Z) : list sock_filter :=
  let filter :=
    check_x86_64 ++
    [BPF_JUMP JEQ_K NR_mkdir 1 0;
     BPF_STMT RET_K SECCOMP_RET_ALLOW;
     Insn 0 0 0 0] in
  let retTrace := BPF_STMT RET_K SECCOMP_RET_TRACE in
  let retErrno := BPF_STMT RET_K (Z.lor SECCOMP_RET_ERRNO ENOTSUP) in
  <[(length filter - 1)%nat := if secondFilter =? SECCOMP_RET_ERRNO then retErrno else retTrace]>
    filter.

(** seccomp_bench.c: [create_filter]; [None] is a bad instruction letter. The
    array has [icnt + 1] elements. *)
Definition bench_instruction (instr : ascii) : option sock_filter :=
  if bool_decide (instr = "a"%char) then Some (BPF_STMT ADD_K 1)
  else if bool_decide (instr = "j"%char) then Some (BPF_JUMP JEQ_K 0 0 0)
  else if bool_decide (instr = "l"%char) then Some (BPF_STMT LD_ABS 0)
  else None.

Definition bench_filter (instruction : sock_filter) (icnt : nat) : list sock_filter :=
  replicate icnt instruction ++ [BPF_STMT RET_K SECCOMP_RET_ALLOW].
