(* ===== verification/SeccompPolicy.v ===== *)
(** The seccomp filters of src/tlpi-dist/seccomp decide what their programs
    promise, for every system call; a BPF machine at which the laws hold. *)
From Stdlib Require Import ZArith Lia Ascii String.
From stdpp Require Import base tactics list strings.
From S2P Require Import Prelude CString Process SeccompBpf.
#[local] Open Scope Z_scope.

(** ** Running the filters *)

Section Run.
Context `{BpfLaws}.

(** One instruction of a concrete program, with a case split at a jump. *)
Ltac bpf_step :=
  first
    [ erewrite exec_ret by reflexivity
    | erewrite exec_ld by reflexivity
    | erewrite exec_jeq by reflexivity
    | erewrite exec_jge by reflexivity
    | erewrite exec_jgt by reflexivity
    | erewrite exec_jset by reflexivity ];
  rewrite ?load_nr, ?load_arch.

Ltac bpf_split :=
  match goal with
  | |- context [bpf_exec _ (S _ + if ?b then _ else _)%nat _ _] => destruct b eqn:?
  end; cbn [Nat.add].

(** A call from the native architecture and ABI. *)
Definition native (d : seccomp_data) : bool :=
  (arch d =? AUDIT_ARCH_X86_64) && (nr d <? X32_SYSCALL_BIT).

Lemma check_x86_64_run tail d :
  bpf_run (check_x86_64 ++ tail) d
  = if native d then bpf_exec (check_x86_64 ++ tail) 5 (nr d) d
    else Some SECCOMP_RET_KILL_PROCESS.
Proof.
  unfold bpf_run, native. do 2 bpf_step. bpf_split; simpl andb.
  - do 2 bpf_step. rewrite Z.ltb_antisym. bpf_split; [|done]. by bpf_step.
  - by bpf_step.
Qed.

Lemma check_aarch64_run tail d :
  bpf_run (check_aarch64 ++ tail) d
  = if arch d =? AUDIT_ARCH_AARCH64 then bpf_exec (check_aarch64 ++ tail) 4 (nr d) d
    else Some SECCOMP_RET_KILL_PROCESS.
Proof. unfold bpf_run. do 2 bpf_step. bpf_split; by bpf_step. Qed.

Lemma high_word off : 0 <= off < 2 ^ 64 -> (to_unsigned 32 (off / 2 ^ 32) =? 0) = (off <? 2 ^ 32).
Proof.
  intros Ho. rewrite to_unsigned_small.
  - destruct (Z.ltb_spec off (2 ^ 32)); [rewrite Z.div_small by lia; done|].
    apply Z.eqb_neq. assert (1 <= off / 2 ^ 32); [|lia]. apply Z.div_le_lower_bound; lia.
  - split; [apply Z.div_pos; lia|]. apply Z.div_lt_upper_bound; lia.
Qed.

Lemma arg64_run d :
  0 <= arg d 1 < 2 ^ 64 ->
  bpf_run arg64_filter d = Some (
    if negb (native d) then SECCOMP_RET_KILL_PROCESS
    else if negb (nr d =? NR_lseek) then SECCOMP_RET_ALLOW
    else if 2 ^ 32 <=? arg d 1 then Z.lor SECCOMP_RET_ERRNO 2
    else if 1000 <? arg d 1 then Z.lor SECCOMP_RET_ERRNO 1
    else SECCOMP_RET_ALLOW).
Proof.
  intros Ho. pose proof (check_x86_64_run (drop 5 arg64_filter) d) as Hc.
  change (check_x86_64 ++ drop 5 arg64_filter) with arg64_filter in Hc.
  rewrite Hc. destruct (native d); simpl negb; [|done]. cbn iota.
  bpf_step. bpf_split; [|by bpf_step]. bpf_step. rewrite (load_high d 1) by lia.
  bpf_step. rewrite high_word, Z.leb_antisym by done. bpf_split; simpl negb; [|by bpf_step].
  cbn iota. bpf_step. rewrite (load_low d 1) by lia. rewrite to_unsigned_small by lia.
  bpf_step. bpf_split; by bpf_step.
Qed.

(** The decision on the flags of [open] or [openat]. *)
Definition flags_verdict (flags : Z) : Z :=
  if has_bit flags O_CREAT then SECCOMP_RET_KILL_PROCESS
  else if has_bit flags (Z.lor O_WRONLY O_RDWR) then Z.lor SECCOMP_RET_ERRNO ENOTSUP
  else SECCOMP_RET_ALLOW.

Lemma flags_run prog pc flags d :
  drop pc prog = control_open_flags ->
  bpf_exec prog pc flags d = Some (flags_verdict flags).
Proof.
  intros Hd. assert (Hl : forall n, prog !! (pc + n)%nat = control_open_flags !! n).
  { intros n. by rewrite <-Hd, lookup_drop. }
  unfold flags_verdict. rewrite <-(Nat.add_0_r pc).
  rewrite (exec_jset prog (pc + 0) flags d O_CREAT 0 1) by by rewrite Hl.
  destruct (has_bit flags O_CREAT).
  - replace (S (pc + 0) + 0)%nat with (pc + 1)%nat by lia.
    by rewrite (exec_ret prog (pc + 1) flags d SECCOMP_RET_KILL_PROCESS) by by rewrite Hl.
  - replace (S (pc + 0) + 1)%nat with (pc + 2)%nat by lia.
    rewrite (exec_jset prog (pc + 2) flags d (Z.lor O_WRONLY O_RDWR) 0 1) by by rewrite Hl.
    destruct (has_bit flags (Z.lor O_WRONLY O_RDWR)).
    + replace (S (pc + 2) + 0)%nat with (pc + 3)%nat by lia.
      by rewrite (exec_ret prog (pc + 3) flags d (Z.lor SECCOMP_RET_ERRNO ENOTSUP)) by by rewrite Hl.
    + replace (S (pc + 2) + 1)%nat with (pc + 4)%nat by lia.
      by rewrite (exec_ret prog (pc + 4) flags d SECCOMP_RET_ALLOW) by by rewrite Hl.
Qed.

Lemma control_open_run d :
  bpf_run control_open_filter d = Some (
    if negb (native d) then SECCOMP_RET_KILL_PROCESS
    else if nr d =? NR_open then flags_verdict (to_unsigned 32 (arg d 1))
    else if nr d =? NR_openat then flags_verdict (to_unsigned 32 (arg d 2))
    else SECCOMP_RET_ALLOW).
Proof.
  unfold control_open_filter at 1. rewrite check_x86_64_run. fold control_open_filter.
  destruct (native d); simpl negb; [|done]. cbn iota. bpf_step. bpf_split.
  - bpf_step. rewrite (load_low d 1) by lia. rewrite (exec_ja _ _ _ _ 3 0 0) by done.
    by rewrite flags_run.
  - bpf_step. bpf_split; [|by bpf_step]. bpf_step. rewrite (load_low d 2) by lia.
    by rewrite flags_run.
Qed.

Lemma control_open_aarch64_run d :
  bpf_run control_open_filter_aarch64 d = Some (
    if negb (arch d =? AUDIT_ARCH_AARCH64) then SECCOMP_RET_KILL_PROCESS
    else if nr d =? NR_openat_aarch64 then flags_verdict (to_unsigned 32 (arg d 2))
    else SECCOMP_RET_ALLOW).
Proof.
  unfold control_open_filter_aarch64 at 1. rewrite check_aarch64_run.
  fold control_open_filter_aarch64. destruct (arch d =? _); simpl negb; [|done]. cbn iota.
  bpf_step. bpf_split; [|by bpf_step]. bpf_step. rewrite (load_low d 2) by lia.
  by rewrite flags_run.
Qed.

Lemma deny_open_run d :
  bpf_run deny_open_filter d = Some (
    if negb (native d) || (nr d =? NR_open) || (nr d =? NR_openat)
    then SECCOMP_RET_KILL_PROCESS else SECCOMP_RET_ALLOW).
Proof.
  unfold deny_open_filter at 1. rewrite check_x86_64_run. fold deny_open_filter.
  destruct (native d); simpl; [|done]. bpf_step. bpf_split; [by bpf_step|]. simpl.
  bpf_step. bpf_split; by bpf_step.
Qed.

Lemma deny_open_aarch64_run d :
  bpf_run deny_open_filter_aarch64 d = Some (
    if negb (arch d =? AUDIT_ARCH_AARCH64) || (nr d =? NR_openat_aarch64)
    then SECCOMP_RET_KILL_PROCESS else SECCOMP_RET_ALLOW).
Proof.
  unfold deny_open_filter_aarch64 at 1. rewrite check_aarch64_run. fold deny_open_filter_aarch64.
  destruct (arch d =? _); simpl; [|done]. bpf_step. bpf_split; by bpf_step.
Qed.

Lemma perf_run d :
  bpf_run perf_filter d = Some (
    if negb (native d) || (nr d =? NR_openat)
    then SECCOMP_RET_KILL_PROCESS else SECCOMP_RET_ALLOW).
Proof.
  unfold perf_filter at 1. rewrite check_x86_64_run. fold perf_filter.
  destruct (native d); simpl; [|done]. bpf_step. bpf_split; by bpf_step.
Qed.

Lemma logging_run d :
  bpf_run logging_filter d
  = Some (if native d then SECCOMP_RET_LOG else SECCOMP_RET_KILL_PROCESS).
Proof.
  unfold logging_filter at 1. rewrite check_x86_64_run. fold logging_filter.
  destruct (native d); [by bpf_step|done].
Qed.

Lemma trap_run d :
  bpf_run trap_sigsys_filter d = Some (
    if negb (arch d =? AUDIT_ARCH_X86_64) then SECCOMP_RET_KILL
    else if X32_SYSCALL_BIT <=? nr d then SECCOMP_RET_KILL_PROCESS
    else if nr d =? NR_getppid then SECCOMP_RET_TRAP else SECCOMP_RET_ALLOW).
Proof.
  unfold bpf_run. do 2 bpf_step. bpf_split; simpl negb; cbn iota; [|by bpf_step].
  do 2 bpf_step. bpf_split; [by bpf_step|]. bpf_step. bpf_split; by bpf_step.
Qed.

Lemma deny_syscall_run n d :
  bpf_run (deny_syscall_filter n) d = Some (
    if nr d =? to_unsigned 32 n then SECCOMP_RET_KILL_PROCESS else SECCOMP_RET_ALLOW).
Proof. unfold bpf_run. do 2 bpf_step. bpf_split; by bpf_step. Qed.

Lemma multiarch_run d :
  bpf_run multiarch_filter d = Some (
    if arch d =? AUDIT_ARCH_X86_64 then
      if nr d =? NR_mq_notify_x86_64 then Z.lor SECCOMP_RET_ERRNO NR_mq_notify_x86_64
      else if nr d =? NR_mq_notify_x32 + X32_SYSCALL_BIT
           then Z.lor SECCOMP_RET_ERRNO NR_mq_notify_x32
      else SECCOMP_RET_ALLOW
    else if arch d =? AUDIT_ARCH_I386 then
      if nr d =? NR_mq_notify_i386 then Z.lor SECCOMP_RET_ERRNO NR_mq_notify_i386
      else SECCOMP_RET_ALLOW
    else SECCOMP_RET_KILL_PROCESS).
Proof.
  unfold bpf_run. do 2 bpf_step. bpf_split.
  - do 2 bpf_step. bpf_split; [by bpf_step|]. bpf_step. bpf_split; by bpf_step.
  - bpf_step. bpf_split; [|by bpf_step]. do 2 bpf_step. bpf_split; by bpf_step.
Qed.

Lemma notify_run d :
  bpf_run notify_filter d = Some (
    if negb (native d) then SECCOMP_RET_KILL_PROCESS
    else if nr d =? NR_mkdir then SECCOMP_RET_USER_NOTIF else SECCOMP_RET_ALLOW).
Proof.
  unfold notify_filter at 1. rewrite check_x86_64_run. fold notify_filter.
  destruct (native d); simpl; [|done]. bpf_step. bpf_split; by bpf_step.
Qed.

Lemma second_run v d :
  bpf_run (second_filter v) d = Some (
    if negb (native d) then SECCOMP_RET_KILL_PROCESS
    else if nr d =? NR_mkdir then
      if v =? SECCOMP_RET_ERRNO then Z.lor SECCOMP_RET_ERRNO ENOTSUP else SECCOMP_RET_TRACE
    else SECCOMP_RET_ALLOW).
Proof.
  pose proof (check_x86_64_run (drop 5 (second_filter v)) d) as Hc.
  change (check_x86_64 ++ drop 5 (second_filter v)) with (second_filter v) in Hc. rewrite Hc.
  destruct (native d); simpl; [|done]. bpf_step. bpf_split; [|by bpf_step].
  unfold second_filter. destruct (v =? SECCOMP_RET_ERRNO); by bpf_step.
Qed.

(** Any number of the benchmark's instructions. *)
Lemma bench_run_from ins n d pc a :
  (pc <= n)%nat -> (exists c, bench_instruction c = Some ins) ->
  bpf_exec (bench_filter ins n) pc a d = Some SECCOMP_RET_ALLOW.
Proof.
  intros Hpc [c Hins]. remember (n - pc)%nat as m eqn:Hm. revert pc a Hpc Hm.
  induction m as [|m IH]; intros pc a Hpc Hm.
  - apply exec_ret. unfold bench_filter.
    rewrite lookup_app_r by (rewrite length_replicate; lia). rewrite length_replicate.
    by replace (pc - n)%nat with 0%nat by lia.
  - assert (Hl : bench_filter ins n !! pc = Some ins).
    { unfold bench_filter. rewrite lookup_app_l by (rewrite length_replicate; lia).
      apply lookup_replicate_2. lia. }
    unfold bench_instruction in Hins. repeat case_bool_decide; [..|done]; injection Hins as <-.
    + rewrite (exec_add _ _ _ _ 1 Hl). apply IH; lia.
    + rewrite (exec_jeq _ _ _ _ 0 0 0 Hl). apply IH; destruct (a =? 0); lia.
    + rewrite (exec_ld _ _ _ _ 0 Hl). apply IH; lia.
Qed.

End Run.

(** seccomp_arg64: a 64-bit [offset] is compared in two halves, with the
    result that a native [lseek] is allowed exactly for offsets up to 1000,
    fails with error 2 from 2^32 on and with error 1 in between; other native
    calls are allowed and foreign ones killed. *)
Theorem arg64_policy `{BpfLaws} (d : seccomp_data) :
  data_ok d ->
  bpf_run arg64_filter d = Some (
    if negb (native d) then SECCOMP_RET_KILL_PROCESS
    else if negb (nr d =? NR_lseek) then SECCOMP_RET_ALLOW
    else if 2 ^ 32 <=? arg d 1 then Z.lor SECCOMP_RET_ERRNO 2
    else if 1000 <? arg d 1 then Z.lor SECCOMP_RET_ERRNO 1
    else SECCOMP_RET_ALLOW).
Proof.
  intros (_ & _ & a0 & a1 & a2 & a3 & a4 & a5 & Ha & Hall). apply arg64_run.
  unfold arg. rewrite Ha in *. simpl. by inversion_clear Hall as [|? ? _ Hall'];
    inversion_clear Hall'.
Qed.

(** seccomp_control_open: on both architectures [open] and [openat] are
    judged by their flags argument (kill when it creates, ENOTSUP when it
    writes, otherwise allow), every other native call is allowed, and calls
    from another architecture or ABI are killed. *)
Theorem control_open_policy `{BpfLaws} (d : seccomp_data) :
  bpf_run control_open_filter d = Some (
    if negb (native d) then SECCOMP_RET_KILL_PROCESS
    else if nr d =? NR_open then flags_verdict (to_unsigned 32 (arg d 1))
    else if nr d =? NR_openat then flags_verdict (to_unsigned 32 (arg d 2))
    else SECCOMP_RET_ALLOW) /\
  bpf_run control_open_filter_aarch64 d = Some (
    if negb (arch d =? AUDIT_ARCH_AARCH64) then SECCOMP_RET_KILL_PROCESS
    else if nr d =? NR_openat_aarch64 then flags_verdict (to_unsigned 32 (arg d 2))
    else SECCOMP_RET_ALLOW).
Proof. split; [apply control_open_run|apply control_open_aarch64_run]. Qed.

(** The filters of seccomp_deny_open, seccomp_perf, seccomp_logging,
    seccomp_trap_sigsys and seccomp_deny_syscall: exactly the named calls, and
    (but for the last) all foreign ones, are refused. *)
Theorem simple_policies `{BpfLaws} (d : seccomp_data) (n : Z) :
  bpf_run deny_open_filter d = Some (
    if negb (native d) || (nr d =? NR_open) || (nr d =? NR_openat)
    then SECCOMP_RET_KILL_PROCESS else SECCOMP_RET_ALLOW) /\
  bpf_run deny_open_filter_aarch64 d = Some (
    if negb (arch d =? AUDIT_ARCH_AARCH64) || (nr d =? NR_openat_aarch64)
    then SECCOMP_RET_KILL_PROCESS else SECCOMP_RET_ALLOW) /\
  bpf_run perf_filter d = Some (
    if negb (native d) || (nr d =? NR_openat)
    then SECCOMP_RET_KILL_PROCESS else SECCOMP_RET_ALLOW) /\
  bpf_run logging_filter d
    = Some (if native d then SECCOMP_RET_LOG else SECCOMP_RET_KILL_PROCESS) /\
  bpf_run trap_sigsys_filter d = Some (
    if negb (arch d =? AUDIT_ARCH_X86_64) then SECCOMP_RET_KILL
    else if X32_SYSCALL_BIT <=? nr d then SECCOMP_RET_KILL_PROCESS
    else if nr d =? NR_getppid then SECCOMP_RET_TRAP else SECCOMP_RET_ALLOW) /\
  bpf_run (deny_syscall_filter n) d = Some (
    if nr d =? to_unsigned 32 n then SECCOMP_RET_KILL_PROCESS else SECCOMP_RET_ALLOW).
Proof.
  split_and!; [apply deny_open_run|apply deny_open_aarch64_run|apply perf_run|apply logging_run
    |apply trap_run|apply deny_syscall_run].
Qed.

(** seccomp_multiarch: [mq_notify] fails with an error of its own on each
    of the three Intel ABIs, other calls of those are allowed, and calls of any
    other architecture are killed. *)
Theorem multiarch_policy `{BpfLaws} (d : seccomp_data) :
  bpf_run multiarch_filter d = Some (
    if arch d =? AUDIT_ARCH_X86_64 then
      if nr d =? NR_mq_notify_x86_64 then Z.lor SECCOMP_RET_ERRNO NR_mq_notify_x86_64
      else if nr d =? NR_mq_notify_x32 + X32_SYSCALL_BIT
           then Z.lor SECCOMP_RET_ERRNO NR_mq_notify_x32
      else SECCOMP_RET_ALLOW
    else if arch d =? AUDIT_ARCH_I386 then
      if nr d =? NR_mq_notify_i386 then Z.lor SECCOMP_RET_ERRNO NR_mq_notify_i386
      else SECCOMP_RET_ALLOW
    else SECCOMP_RET_KILL_PROCESS).
Proof. apply multiarch_run. Qed.

(** seccomp_unotify_mkdir: a native [mkdir] notifies the supervisor under
    the first filter and is refused or traced, as [-f] says, under the second;
    both allow every other native call. *)
Theorem notify_policy `{BpfLaws} (d : seccomp_data) (v : Z) :
  bpf_run notify_filter d = Some (
    if negb (native d) then SECCOMP_RET_KILL_PROCESS
    else if nr d =? NR_mkdir then SECCOMP_RET_USER_NOTIF else SECCOMP_RET_ALLOW) /\
  bpf_run (second_filter v) d = Some (
    if negb (native d) then SECCOMP_RET_KILL_PROCESS
    else if nr d =? NR_mkdir then
      if v =? SECCOMP_RET_ERRNO then Z.lor SECCOMP_RET_ERRNO ENOTSUP else SECCOMP_RET_TRACE
    else SECCOMP_RET_ALLOW).
Proof. split; [apply notify_run|apply second_run]. Qed.

(** seccomp_bench: however many instructions of whichever kind the filter
    is padded with, it allows every call. *)
Theorem bench_allows `{BpfLaws} (instr : ascii) (ins : sock_filter) (icnt : nat) (d : seccomp_data) :
  bench_instruction instr = Some ins ->
  bpf_run (bench_filter ins icnt) d = Some SECCOMP_RET_ALLOW.
Proof. intros Hi. apply bench_run_from; [lia|eauto]. Qed.

(** ** A BPF machine *)

Definition demo_load (d : seccomp_data) (off : Z) : Z :=
  if off =? 0 then nr d
  else if off =? 4 then arch d
  else
    let a := arg d (Z.to_nat ((off - 16) / 8)) in
    to_unsigned 32 (if (off - 16) mod 8 =? 0 then a else a / 2 ^ 32).

(** The next program counter and accumulator. *)
Definition demo_next (i : sock_filter) (pc : nat) (a : Z) (d : seccomp_data) : option (nat * Z) :=
  let jump (b : bool) := Some ((S pc + if b then jt i else jf i)%nat, a) in
  if code i =? LD_ABS then Some (S pc, demo_load d (k i))
  else if code i =? JEQ_K then jump (a =? k i)
  else if code i =? JGT_K then jump (k i <? a)
  else if code i =? JGE_K then jump (k i <=? a)
  else if code i =? JSET_K then jump (has_bit a (k i))
  else if code i =? JA_K then Some ((S pc + Z.to_nat (k i))%nat, a)
  else if code i =? ADD_K then Some (S pc, to_unsigned 32 (a + k i))
  else None.

Fixpoint demo_machine (fuel : nat) (prog : list sock_filter) (pc : nat) (a : Z)
    (d : seccomp_data) : option Z :=
  match fuel with
  | O => None
  | S fuel' =>
      match prog !! pc with
      | None => None
      | Some i =>
          if code i =? RET_K then Some (k i)
          else match demo_next i pc a d with
               | Some (pc', a') => demo_machine fuel' prog pc' a' d
               | None => None
               end
      end
  end.

#[export] Instance demo_bpf : Bpf := {
  bpf_load := demo_load;
  bpf_exec prog pc a d := demo_machine (length prog - pc) prog pc a d
}.

Lemma demo_next_forward i pc a d pc' a' : demo_next i pc a d = Some (pc', a') -> (pc < pc')%nat.
Proof. unfold demo_next. repeat case_match; intros [= <- <-]; lia. Qed.

Lemma demo_fuel f1 f2 prog pc a d :
  (length prog - pc <= f1)%nat -> (length prog - pc <= f2)%nat ->
  demo_machine f1 prog pc a d = demo_machine f2 prog pc a d.
Proof.
  revert f2 pc a. induction f1 as [|f1 IH]; intros f2 pc a H1 H2.
  - destruct f2; [done|]. simpl. by rewrite lookup_ge_None_2 by lia.
  - destruct (prog !! pc) as [i|] eqn:Hi.
    + pose proof (lookup_lt_Some _ _ _ Hi). destruct f2 as [|f2]; [lia|]. simpl. rewrite Hi.
      destruct (code i =? RET_K); [done|]. destruct (demo_next i pc a d) as [[pc' a']|] eqn:Hn; [|done].
      apply demo_next_forward in Hn. apply IH; lia.
    + simpl. rewrite Hi. destruct f2; simpl; [done|]. by rewrite Hi.
Qed.

Lemma demo_exec_step prog pc a d i pc' a' :
  prog !! pc = Some i -> (code i =? RET_K) = false -> demo_next i pc a d = Some (pc', a') ->
  bpf_exec prog pc a d = bpf_exec prog pc' a' d.
Proof.
  intros Hi Hr Hn. simpl. pose proof (lookup_lt_Some _ _ _ Hi).
  destruct (length prog - pc)%nat as [|m] eqn:Hm; [lia|]. simpl. rewrite Hi, Hr, Hn.
  apply demo_next_forward in Hn. apply demo_fuel; lia.
Qed.

#[export] Instance demo_bpf_laws : BpfLaws.
Proof.
  split; try done.
  - intros d n Hn. do 6 (destruct n as [|n]; [done|]). lia.
  - intros d n Hn. do 6 (destruct n as [|n]; [done|]). lia.
  - intros prog pc a d v Hi. by eapply demo_exec_step.
  - intros prog pc a d v t f Hi. by eapply demo_exec_step.
  - intros prog pc a d v t f Hi. by eapply demo_exec_step.
  - intros prog pc a d v t f Hi. by eapply demo_exec_step.
  - intros prog pc a d v t f Hi. by eapply demo_exec_step.
  - intros prog pc a d v t f Hi. eapply demo_exec_step; [done|done|].
    unfold demo_next. simpl. by rewrite Nat2Z.id.
  - intros prog pc a d v Hi. by eapply demo_exec_step.
  - intros prog pc a d v Hi. simpl. pose proof (lookup_lt_Some _ _ _ Hi).
    destruct (length prog - pc)%nat as [|m] eqn:Hm; [lia|]. simpl. by rewrite Hi.
Qed.

(** A call on x86-64. *)
Definition demo_call (n a0 a1 a2 : Z) : seccomp_data :=
  SeccompData n AUDIT_ARCH_X86_64 [a0; a1; a2; 0; 0; 0].

Lemma arg64_policy_witness :
  bpf_run arg64_filter (demo_call NR_lseek 3 0x100000001 0)
  = Some (Z.lor SECCOMP_RET_ERRNO 2).
Proof.
  apply (arg64_policy (demo_call NR_lseek 3 0x100000001 0)).
  split_and!; [done..|]. do 6 eexists. split; [done|]. repeat constructor; done.
Defined.

Lemma control_open_policy_witness :
  bpf_run control_open_filter (demo_call NR_open 0 (Z.lor O_CREAT O_RDWR) 0)
    = Some SECCOMP_RET_KILL_PROCESS /\
  bpf_run control_open_filter_aarch64 (demo_call NR_open 0 (Z.lor O_CREAT O_RDWR) 0)
    = Some SECCOMP_RET_KILL_PROCESS.
Proof. apply (control_open_policy (demo_call NR_open 0 (Z.lor O_CREAT O_RDWR) 0)). Defined.

Lemma simple_policies_witness :
  let d := demo_call NR_openat 0 0 0 in
  bpf_run deny_open_filter d = Some SECCOMP_RET_KILL_PROCESS /\
  bpf_run deny_open_filter_aarch64 d = Some SECCOMP_RET_KILL_PROCESS /\
  bpf_run perf_filter d = Some SECCOMP_RET_KILL_PROCESS /\
  bpf_run logging_filter d = Some SECCOMP_RET_LOG /\
  bpf_run trap_sigsys_filter d = Some SECCOMP_RET_ALLOW /\
  bpf_run (deny_syscall_filter 257) d = Some SECCOMP_RET_KILL_PROCESS.
Proof. apply (simple_policies (demo_call NR_openat 0 0 0) 257). Defined.

Lemma multiarch_policy_witness :
  bpf_run multiarch_filter (SeccompData 281 AUDIT_ARCH_I386 [])
  = Some (Z.lor SECCOMP_RET_ERRNO 281).
Proof. apply (multiarch_policy (SeccompData 281 AUDIT_ARCH_I386 [])). Defined.

Lemma notify_policy_witness :
  bpf_run notify_filter (demo_call NR_mkdir 0 0 0) = Some SECCOMP_RET_USER_NOTIF /\
  bpf_run (second_filter SECCOMP_RET_TRACE) (demo_call NR_mkdir 0 0 0) = Some SECCOMP_RET_TRACE.
Proof. apply (notify_policy (demo_call NR_mkdir 0 0 0) SECCOMP_RET_TRACE). Defined.

Lemma bench_allows_witness :
  bpf_run (bench_filter (BPF_STMT ADD_K 1) 3) (demo_call 39 0 0 0) = Some SECCOMP_RET_ALLOW.
Proof. by apply (bench_allows "a"%char (BPF_STMT ADD_K 1) 3 (demo_call 39 0 0 0)). Defined.
