(* ===== verification/SeccompPrograms.v ===== *)
(** The programs around the filters (src/tlpi-dist/seccomp): installing a
    filter, and the command lines of seccomp_deny_syscall, seccomp_perf,
    seccomp_bench and seccomp_launch. They set the no-new-privileges flag first;
    what seccomp_deny_syscall does without its arguments. *)
From Stdlib Require Import ZArith Lia Ascii String.
From stdpp Require Import base tactics list strings.
From S2P Require Import Prelude CString Process SeccompBpf.
#[local] Open Scope Z_scope.

(** The system calls of the programs. A filter is installed by
    [seccomp(SECCOMP_SET_MODE_FILTER, 0, &prog)]; [os_execvp] gives the error,
    or [None] when another program runs instead; [os_read_filter] opens, sizes
    and reads a file, giving its size and the instructions in it. *)
Class SeccompOS (K : Type) := {
  os_no_new_privs : K -> K * (Z + unit);
  os_set_filter : K -> list sock_filter -> K * (Z + unit);
  os_execvp : K -> list cstr -> K * option Z;
  os_getppid : K -> K;
  os_calloc : K -> Z -> K * bool;
  os_open_file : K -> cstr -> K * (Z + Z);
  os_fstat_size : K -> Z -> K * (Z + Z);
  os_malloc : K -> Z -> K * bool;
  os_read_insns : K -> Z -> Z -> K * (Z * list sock_filter);
  os_close_fd : K -> Z -> K * (Z + unit)
}.

Section Programs.
Context `{ErrnoText} {K : Type} `{SeccompOS K}.
Abbreviation PM := (M (proc K)).

Definition prctl_no_new_privs : PM unit :=
  let! r := syscall os_no_new_privs in
  match r with Some _ => ret tt | None => errExit (lit "prctl") end.

(** [install_filter], the same in every program but for the array. *)
Definition install_filter (filter : list sock_filter) : PM unit :=
  let! r := syscall (fun k => os_set_filter k filter) in
  match r with Some _ => ret tt | None => errExit (lit "seccomp") end.

(** [execvp(argv[n], &argv[n])] followed by [errExit]. *)
Definition execvp (args : list cstr) (msg : cstr) : PM unit :=
  let! r := syscall_ (fun k => os_execvp k args) in
  match r with
  | None => exit EXECED
  | Some e => modify (set_errno e) ;;; errExit msg
  end.

(** An element of [argv]; reading past the terminating null is undefined. *)
Definition argv_at (argv : list cstr) (n : nat) : PM cstr :=
  match argv !! n with Some a => ret a | None => undef end.

(** seccomp_deny_syscall.c: the usage message is printed, and the program
    carries on. *)
Definition deny_syscall_main (argv : list cstr) : PM unit :=
  when (Z.of_nat (length argv) <? 3)
    (puterr (lit "Usage: " ++ default [] (argv !! 0%nat)
             ++ lit " <syscall-num> <command> <arg>..." ++ [NEWLINE])) ;;;
  prctl_no_new_privs ;;;
  let! n := argv_at argv 1 in
  install_filter (deny_syscall_filter (atoi n)) ;;;
  execvp (drop 2 argv) (lit "execve").

Definition getppid_loop (nloops : Z) : PM unit :=
  for_each (seq 0 (Z.to_nat nloops))
    (fun _ => modify (fun s => set_kern (os_getppid (kern s)) s)).

(** seccomp_perf.c *)
Definition perf_main (argv : list cstr) : PM unit :=
  let argc := Z.of_nat (length argv) in
  if argc <? 2 then
    puterr (lit "Usage: " ++ default [] (argv !! 0%nat) ++ lit " <num-loops> [x]" ++ [NEWLINE]) ;;;
    puterr (lit "       (use 'x' to run with BPF filter applied)" ++ [NEWLINE]) ;;;
    exit3 EXIT_FAILURE
  else
    when (2 <? argc)
      (putout (lit "Applying BPF filter" ++ [NEWLINE]) ;;;
       prctl_no_new_privs ;;;
       install_filter perf_filter) ;;;
    let! a := argv_at argv 1 in
    getppid_loop (atoi a) ;;;
    exit3 EXIT_SUCCESS.

(** seccomp_bench.c: [create_filter]. A count of -1 stores the return
    instruction before the array; a smaller one asks for more memory than there
    can be. *)
Definition create_filter (instr : ascii) (icnt : Z) : PM (list sock_filter) :=
  match bench_instruction instr with
  | None =>
      puterr (lit "Bad instruction value: " ++ instr :: [NEWLINE]) ;;; exit3 EXIT_FAILURE
  | Some instruction =>
      let fsize := icnt + 1 in
      let! ok := syscall_ (fun k => os_calloc k fsize) in
      if negb ok || (fsize <? 0) then errExit (lit "calloc")
      else if icnt <? 0 then undef
      else
        let filter := bench_filter instruction (Z.to_nat icnt) in
        let! ok := syscall_ (fun k => os_malloc k 16) in
        if negb ok then errExit (lit "malloc")
        else
          putout (lit "Total instructions in filter (including " ++ QUOTE :: lit "return" ++ QUOTE :: lit "): "
                  ++ show_Z fsize ++ [NEWLINE]) ;;;
          ret filter
  end.

Definition bench_main (argv : list cstr) : PM unit :=
  let argc := Z.of_nat (length argv) in
  if argc <? 2 then
    puterr (lit "Usage: " ++ default [] (argv !! 0%nat)
            ++ lit " <num-loops> [<instr-cnt> [<add|jump|load> [num-filters]]]" ++ [NEWLINE]) ;;;
    exit3 EXIT_FAILURE
  else
    when (2 <? argc)
      (let! a2 := argv_at argv 2 in
       let instr := if 3 <? argc then default NUL (argv !! 3%nat ≫= head) else "a"%char in
       let nfilters := if 4 <? argc then atoi (default [] (argv !! 4%nat)) else 1 in
       prctl_no_new_privs ;;;
       let! prog := create_filter instr (atoi a2) in
       for_each (seq 0 (Z.to_nat nfilters)) (fun _ => install_filter prog) ;;;
       putout (lit "Total number of filters added: " ++ show_Z nfilters ++ [NEWLINE])) ;;;
    let! a := argv_at argv 1 in
    getppid_loop (atoi a) ;;;
    exit3 EXIT_SUCCESS.

(** seccomp_launch.c: [loadFilter]; the static flag is an argument and a
    result. *)
Definition sizeof_sock_filter : Z := 8.

Definition loadFilter (filterPathname : cstr) (noNewPrivsAlreadySet : bool) : PM bool :=
  when (negb noNewPrivsAlreadySet) prctl_no_new_privs ;;;
  let! fd := syscall (fun k => os_open_file k filterPathname) in
  match fd with
  | None => errExit (lit "open")
  | Some fd =>
      let! size := syscall (fun k => os_fstat_size k fd) in
      match size with
      | None => errExit (lit "fstat")
      | Some size =>
          let filterSize := to_signed 32 size in
          if negb (to_unsigned 64 filterSize mod sizeof_sock_filter =? 0) then
            puterr (lit "Filter has odd size" ++ [NEWLINE]) ;;; exit3 EXIT_FAILURE
          else
            let! ok := syscall_ (fun k => os_malloc k filterSize) in
            if negb ok then errExit (lit "malloc") else
            let! (n, insns) := syscall_ (fun k => os_read_insns k fd filterSize) in
            if negb (n =? filterSize) then
              puterr (lit "Failure reading filter" ++ [NEWLINE]) ;;; exit3 EXIT_FAILURE
            else
              let! closed := syscall (fun k => os_close_fd k fd) in
              match closed with
              | None => errExit (lit "close")
              | Some _ =>
                  install_filter (take (Z.to_nat (filterSize / sizeof_sock_filter)) insns) ;;;
                  ret true
              end
      end
  end.

Definition launch_usageError {A} (pname msg : cstr) : PM A :=
  puterr msg ;;;
  puterr (lit "Usage: " ++ pname ++ lit " [-f filter] prog arg..." ++ [NEWLINE]) ;;;
  exit3 EXIT_FAILURE.

Fixpoint launch_options (pname : cstr) (opts : list option_arg) (set : bool) : PM bool :=
  match opts with
  | [] => ret set
  | Opt c a :: rest =>
      if bool_decide (c = "f"%char) then
        let! set := loadFilter a set in launch_options pname rest set
      else launch_usageError pname (lit "Bad option" ++ [NEWLINE])
  end.

(** [main]: [operands] is [argv] from [optind] on. *)
Definition launch_main (argv : list cstr) (opts : list option_arg) (operands : list cstr) :
    PM unit :=
  let pname := default [] (argv !! 0%nat) in
  launch_options pname opts false ;;;
  if bool_decide (operands = []) || bool_decide (argv !! 1%nat = Some (lit "--help"))
  then launch_usageError pname (lit "No program specified" ++ [NEWLINE])
  else execvp operands (lit "execve").

End Programs.

Section Guards.
Context `{ET : ErrnoText} {K : Type} `{OS : SeccompOS K}.
Implicit Types (s : proc K).

(** [nnp] is the no-new-privileges flag, which a successful [prctl] sets and
    nothing clears; [I] is any property of the kernel that every call keeps,
    except that installing a filter keeps it only when the flag is set. *)
Record guarded (nnp : K -> Prop) (I : K -> Prop) : Prop := {
  g_prctl k k' r : I k -> os_no_new_privs k = (k', r) -> I k' /\ (r = inr tt -> nnp k');
  g_filter k f k' r : I k -> nnp k -> os_set_filter k f = (k', r) -> I k' /\ nnp k';
  g_exec k a k' r : I k -> os_execvp k a = (k', r) -> I k';
  g_getppid k : I k -> I (os_getppid k);
  g_calloc k n k' r : I k -> os_calloc k n = (k', r) -> I k' /\ (nnp k -> nnp k');
  g_open k p k' r : I k -> os_open_file k p = (k', r) -> I k' /\ (nnp k -> nnp k');
  g_fstat k fd k' r : I k -> os_fstat_size k fd = (k', r) -> I k' /\ (nnp k -> nnp k');
  g_malloc k n k' r : I k -> os_malloc k n = (k', r) -> I k' /\ (nnp k -> nnp k');
  g_read k fd n k' r : I k -> os_read_insns k fd n = (k', r) -> I k' /\ (nnp k -> nnp k');
  g_close k fd k' r : I k -> os_close_fd k fd = (k', r) -> I k' /\ (nnp k -> nnp k')
}.

Context (nnp I : K -> Prop) (G : guarded nnp I).

(** The invariant outside, and that inside the part where the flag is set. *)
Definition out s : Prop := I (kern s).
Definition ready s : Prop := I (kern s) /\ nnp (kern s).
Abbreviation E := (fun (_ : exit_kind) s => I (kern s)).

Lemma ready_out s : ready s -> out s.
Proof. by intros []. Qed.

Lemma wp_prctl s : out s -> wp prctl_no_new_privs (fun _ => ready) E s.
Proof.
  intros Hs. apply wp_bind, wp_syscall; intros k r Hk;
    destruct (g_prctl _ _ G _ _ _ Hs Hk) as [H1 H2].
  - apply wp_errExit. by intros ? s' ->.
  - apply wp_ret. destruct r. split; [done|]. by apply H2.
Qed.

Lemma wp_install filter s : ready s -> wp (install_filter filter) (fun _ => ready) E s.
Proof.
  intros [Hs Hn]. apply wp_bind, wp_syscall; intros k r Hk;
    destruct (g_filter _ _ G _ _ _ _ Hs Hn Hk) as [H1 H2].
  - apply wp_errExit. by intros ? s' ->.
  - by apply wp_ret.
Qed.

Lemma wp_execvp args msg s (Q : unit -> proc K -> Prop) : out s -> wp (execvp args msg) Q E s.
Proof.
  intros Hs. apply wp_bind. unfold wp, syscall_.
  destruct (os_execvp (kern s) args) as [k r] eqn:Hk. pose proof (g_exec _ _ G _ _ _ _ Hs Hk) as H1.
  change (wp (match r with
    | None => exit EXECED
    | Some e => modify (set_errno e) ;;; errExit msg
    end) Q E (set_kern k s)).
  destruct r as [e|]; [|by apply wp_exit]. apply wp_bind, wp_modify, wp_errExit. by intros ? s' ->.
Qed.

Lemma wp_die {A} (t : cstr) k s (Q : A -> proc K -> Prop) :
  out s -> wp (puterr t ;;; exit3 k) Q E s.
Proof.
  intros Hs. apply wp_bind, wp_puterr. intros s1 H1 _. apply wp_exit3. intros s2 H2.
  unfold out in *. by rewrite H2, H1.
Qed.

Lemma wp_errExit_out {A} msg s (Q : A -> proc K -> Prop) : out s -> wp (errExit msg) Q E s.
Proof. intros Hs. apply wp_errExit. by intros ? s' ->. Qed.

(** A call that keeps the flag, when the flag is set. *)
Lemma wp_call {A} (call : K -> K * (Z + A)) s (Q : option A -> proc K -> Prop) :
  (forall k k' r, I k -> call k = (k', r) -> I k' /\ (nnp k -> nnp k')) -> ready s ->
  (forall s', ready s' -> Q None s') -> (forall a s', ready s' -> Q (Some a) s') ->
  wp (syscall call) Q E s.
Proof.
  intros Hc [Hs Hn] H0 HS. apply wp_syscall; intros k r Hk; destruct (Hc _ _ _ Hs Hk) as [H1 H2];
    [apply H0|apply HS]; (split; [done|]); by apply H2.
Qed.

Lemma wp_call_ {A} (call : K -> K * A) s (Q : A -> proc K -> Prop) :
  (forall k k' r, I k -> call k = (k', r) -> I k' /\ (nnp k -> nnp k')) -> ready s ->
  (forall a s', ready s' -> Q a s') -> wp (syscall_ call) Q E s.
Proof.
  intros Hc [Hs Hn] HQ. unfold wp, syscall_. destruct (call (kern s)) as [k r] eqn:Hk.
  destruct (Hc _ _ _ Hs Hk) as [H1 H2]. apply HQ. split; [done|]. by apply H2.
Qed.

Lemma wp_getppid_loop n s : out s -> wp (getppid_loop n) (fun _ => out) E s.
Proof.
  intros Hs. apply wp_for_each_inv; [done|]. intros x s1 _ H1. apply wp_modify. by apply (g_getppid _ _ G).
Qed.

Lemma wp_loadFilter p set s :
  out s -> (set = true -> ready s) -> wp (loadFilter p set) (fun b s' => b = true /\ ready s') E s.
Proof.
  intros Hs Hset. unfold loadFilter. apply wp_seq_inv with (I := ready).
  { destruct set; simpl; [by apply wp_ret, Hset|by apply wp_prctl]. }
  intros [] s1 H1. apply wp_bind, wp_call; [intros; by eapply g_open|done|intros ? ?; by apply wp_errExit_out, ready_out|]. intros fd s2 H2.
  apply wp_bind, wp_call; [intros; by eapply g_fstat|done|intros ? ?; by apply wp_errExit_out, ready_out|]. intros size s3 H3. cbv zeta.
  destruct (negb _); [by apply wp_die, ready_out|].
  apply wp_bind, wp_call_; [intros; by eapply g_malloc|done|]. intros ok s4 H4.
  destruct (negb ok); [by apply wp_errExit_out, ready_out|].
  apply wp_bind, wp_call_; [intros; by eapply g_read|done|]. intros [n insns] s5 H5.
  destruct (negb _); [by apply wp_die, ready_out|].
  apply wp_bind, wp_call; [intros; by eapply g_close|done|intros ? ?; by apply wp_errExit_out, ready_out|]. intros _ s6 H6.
  eapply wp_seq_inv; [by apply wp_install|]. intros _ s7 H7. by apply wp_ret.
Qed.

Lemma wp_launch_usageError {A} pname msg s (Q : A -> proc K -> Prop) :
  out s -> wp (launch_usageError pname msg) Q E s.
Proof. intros Hs. apply wp_bind, wp_puterr. intros s1 H1 _. apply wp_die. unfold out in *. by rewrite H1. Qed.

Lemma wp_launch_options pname opts set s :
  out s -> (set = true -> ready s) -> wp (launch_options pname opts set) (fun _ => out) E s.
Proof.
  revert set s. induction opts as [|[c a] opts IH]; intros set s Hs Hset; simpl; [by apply wp_ret|].
  case_bool_decide; [|by apply wp_launch_usageError].
  apply wp_bind. eapply wp_mono; [by apply wp_loadFilter| |done].
  intros b s1 [-> H1]. apply IH; [by apply ready_out|done].
Qed.

Lemma wp_argv_at argv n s (Q : cstr -> proc K -> Prop) E' :
  (n < length argv)%nat -> (forall a, Q a s) -> wp (argv_at argv n) Q E' s.
Proof.
  intros Hn HQ. unfold argv_at. destruct (lookup_lt_is_Some_2 argv n Hn) as [a ->]. by apply wp_ret.
Qed.

Lemma wp_create_filter instr icnt s :
  icnt <> -1 -> ready s -> wp (create_filter instr icnt) (fun _ => ready) E s.
Proof.
  intros Hi Hs. unfold create_filter. destruct (bench_instruction instr);
    [|by apply wp_die, ready_out].
  apply wp_bind, wp_call_; [intros; by eapply g_calloc|done|]. intros ok s1 H1.
  destruct (negb ok || (icnt + 1 <? 0)) eqn:Hneg; [by apply wp_errExit_out, ready_out|].
  destruct (Z.ltb_spec icnt 0); [destruct ok; simpl in Hneg; lia|].
  apply wp_bind, wp_call_; [intros; by eapply g_malloc|done|]. intros ok2 s2 H2.
  destruct (negb ok2); [by apply wp_errExit_out, ready_out|].
  apply wp_bind, wp_putout. intros s3 H3 _. apply wp_ret. unfold ready in *. by rewrite H3.
Qed.

End Guards.

(** seccomp_launch, seccomp_perf, seccomp_bench and, with its arguments,
    seccomp_deny_syscall never go wrong and install no filter before the
    no-new-privileges flag is set, so that they work without privileges:
    every property of the kernel kept by filters installed with the flag set
    is kept throughout. *)
Theorem filters_after_no_new_privs `{ET : ErrnoText} {K : Type} `{OS : SeccompOS K}
    (nnp I : K -> Prop) (argv operands : list cstr) (opts : list option_arg) (s : proc K) :
  guarded nnp I -> I (kern s) ->
  let safe m := wp m (fun _ s' => I (kern s')) (fun _ s' => I (kern s')) s in
  safe (launch_main argv opts operands) /\
  safe (perf_main argv) /\
  (atoi (default [] (argv !! 2%nat)) <> -1 -> safe (bench_main argv)) /\
  (2 <= Z.of_nat (length argv) -> safe (deny_syscall_main argv)).
Proof.
  intros G Hs safe. split_and!.
  - apply wp_seq_inv with (I := out I); [by eapply wp_launch_options|]. intros _ s1 H1.
    destruct (_ || _); [by apply wp_launch_usageError|by eapply wp_execvp].
  - unfold safe, perf_main. destruct (Z.ltb_spec (Z.of_nat (length argv)) 2).
    { apply wp_bind, wp_puterr. intros s1 H1 _. apply wp_die. unfold out. by rewrite H1. }
    apply wp_seq_inv with (I := out I).
    { apply wp_when_inv; [done|]. intros _. apply wp_bind, wp_putout. intros s1 H1 _.
      apply wp_seq_inv with (I := ready nnp I); [eapply wp_prctl; [done|]; unfold out; by rewrite H1|].
      intros _ s2 H2. eapply wp_mono; [by eapply wp_install|by intros ? ? []|done]. }
    intros _ s1 H1. apply wp_bind, wp_argv_at; [lia|]. intros a.
    eapply wp_seq_inv; [by eapply wp_getppid_loop|]. intros _ s2 H2. apply wp_exit3.
    by intros s3 ->.
  - intros Hc. unfold safe, bench_main. destruct (Z.ltb_spec (Z.of_nat (length argv)) 2).
    { by apply wp_die. }
    apply wp_seq_inv with (I := out I).
    { apply wp_when_inv; [done|]. intros H2%Z.ltb_lt. apply wp_bind. unfold argv_at.
      destruct (lookup_lt_is_Some_2 argv 2) as [a2 Ha]; [lia|]. rewrite Ha in *. apply wp_ret.
      apply wp_seq_inv with (I := ready nnp I); [by eapply wp_prctl|]. intros _ s1 H1.
      eapply wp_seq_inv; [by eapply wp_create_filter|]. intros prog s3 H3.
      apply wp_seq_inv with (I := ready nnp I).
      { apply wp_for_each_inv; [done|]. intros x s4 _ H4. by eapply wp_install. }
      intros _ s4 H4. apply wp_putout. intros s5 H5 _. unfold out. rewrite H5. apply H4. }
    intros _ s1 H1. apply wp_bind, wp_argv_at; [lia|]. intros a.
    eapply wp_seq_inv; [by eapply wp_getppid_loop|]. intros _ s2 H2. apply wp_exit3.
    by intros s3 ->.
  - intros Hl. unfold safe, deny_syscall_main. apply wp_seq_inv with (I := out I).
    { apply wp_when_inv; [done|]. intros _. apply wp_puterr. intros s1 H1 _. unfold out. by rewrite H1. }
    intros _ s1 H1. apply wp_seq_inv with (I := ready nnp I); [by eapply wp_prctl|].
    intros _ s2 H2. apply wp_bind, wp_argv_at; [lia|]. intros n.
    eapply wp_seq_inv; [by eapply wp_install|]. intros _ s3 [H3 _]. by eapply wp_execvp.
Qed.

(** seccomp_deny_syscall prints its usage message but carries on: without
    arguments, unless [prctl] fails, it reads the missing [argv[1]]. *)
Theorem deny_syscall_usage_falls_through `{ET : ErrnoText} {K : Type} `{OS : SeccompOS K}
    (progName : cstr) (k : K) (s : proc K) :
  os_no_new_privs (kern s) = (k, inr tt) -> deny_syscall_main [progName] s = Undef.
Proof.
  intros Hk. unfold deny_syscall_main, prctl_no_new_privs, argv_at, when, bind, puterr, modify,
    syscall. cbn -[os_no_new_privs]. destruct s; simpl in *. by rewrite Hk.
Qed.

(** ** A kernel that counts filters *)

(** The flag and the filters installed. *)
Definition demo_kernel : Type := bool * list (list sock_filter).

#[export] Instance demo_seccomp_os : SeccompOS demo_kernel := {
  os_no_new_privs k := ((true, k.2), inr tt);
  os_set_filter k f := if k.1 then ((true, f :: k.2), inr tt) else (k, inl 13);
  os_execvp k a := (k, None);
  os_getppid k := k;
  os_calloc k n := (k, true);
  os_open_file k p := (k, inr 3);
  os_fstat_size k fd := (k, inr 8);
  os_malloc k n := (k, true);
  os_read_insns k fd n := (k, (8, [BPF_STMT RET_K SECCOMP_RET_ALLOW]));
  os_close_fd k fd := (k, inr tt)
}.

#[export] Instance demo_errno_text : ErrnoText := {
  MAX_ENAME := 0; ename _ := []; strerror _ := [] }.

Definition demo_proc : proc demo_kernel := Proc (false, []) 0 None [] [] [].

Lemma filters_after_no_new_privs_witness :
  let safe m := wp m
    (fun _ s' => (kern s').2 <> [] -> (kern s').1 = true)
    (fun _ s' => (kern s').2 <> [] -> (kern s').1 = true) demo_proc in
  let argv := [lit "prog"; lit "3"; lit "x"] in
  safe (launch_main argv [Opt "f"%char (lit "filter")] [lit "ls"]) /\ safe (perf_main argv) /\
  (0 <> -1 -> safe (bench_main argv)) /\ (2 <= 3 -> safe (deny_syscall_main argv)).
Proof.
  apply (filters_after_no_new_privs (fun k => k.1 = true) (fun k => k.2 <> [] -> k.1 = true)
           [lit "prog"; lit "3"; lit "x"] [lit "ls"] [Opt "f"%char (lit "filter")] demo_proc);
    [|done].
  split; simpl; try (by intros; simplify_eq/=).
  - intros k f k' r Hi Hn Hf. rewrite Hn in Hf. by simplify_eq/=.
  - intros k a k' r Hi Hx. by simplify_eq/=.
  - done.
Defined.

Lemma deny_syscall_usage_falls_through_witness :
  deny_syscall_main [lit "seccomp_deny_syscall"] demo_proc = Undef.
Proof. by apply (deny_syscall_usage_falls_through (lit "seccomp_deny_syscall") (true, [])). Defined.
