(* ===== verification/SeccompNotify.v ===== *)
(** The supervisor of seccomp_unotify_mkdir.c and the functions of
    seccomp_functions.c (src/tlpi-dist/seccomp): receiving notifications,
    fetching the pathname from the target's memory and answering.

    The progress messages on standard output are left out. The buffer [path]
    keeps its bytes from one notification to the next, and starts without any:
    a byte that was never stored is [None], and reading it is undefined. *)
From Stdlib Require Import ZArith Lia Ascii String.
From stdpp Require Import base tactics list strings.
From S2P Require Import Prelude CString Process SeccompBpf.
#[local] Open Scope Z_scope.

Definition PATH_MAX : Z := 4096.
Definition EOPNOTSUPP : Z := 95.

Definition GTP_BAD_READ : Z := -1.
Definition GTP_ID_NOT_VALID : Z := -2.
Definition GTP_BAD_PATH : Z := -3.

Definition SECCOMP_USER_NOTIF_FLAG_CONTINUE : Z := 1.

(** [struct seccomp_notif] and [struct seccomp_notif_resp]. *)
Record seccomp_notif := Notif {
  req_id : Z;
  req_pid : Z;
  req_nr : Z;
  req_args : list Z
}.
Record seccomp_notif_resp := Resp {
  resp_id : Z;
  resp_val : Z;
  resp_error : Z;
  resp_flags : Z
}.
Definition sizeof_notif_resp : Z := 24.

Class NotifyOS (K : Type) := {
  os_notif_sizes : K -> K * (Z + (Z * Z));
  os_notif_alloc : K -> Z -> K * bool;
  os_recv : K -> Z -> K * (Z + seccomp_notif);
  os_id_valid : K -> Z -> Z -> K * (Z + unit);
  os_open_mem : K -> Z -> K * (Z + Z);
  os_pread : K -> Z -> Z -> Z -> K * (Z + list ascii);
  os_close_mem : K -> Z -> K * (Z + unit);
  os_send : K -> Z -> seccomp_notif_resp -> K * (Z + unit)
}.

(** What only seccomp_unotify_mkdir calls. *)
Class MkdirOS (K : Type) := {
  os_sleep : K -> K * unit;
  os_mkdir : K -> cstr -> Z -> K * (Z + unit)
}.

(** ** Buffers *)

Definition buffer : Type := list (option ascii).
Definition fresh_buffer (len : Z) : buffer := replicate (Z.to_nat len) None.

(** What [read] leaves in the buffer. *)
Definition store_bytes (bytes : list ascii) (buf : buffer) : buffer :=
  (Some <$> bytes) ++ drop (length bytes) buf.

(** The string in a buffer, [None] when it is not all there. *)
Fixpoint c_string (buf : buffer) : option cstr :=
  match buf with
  | Some c :: rest => if bool_decide (c = NUL) then Some [] else cons c <$> c_string rest
  | _ => None
  end.

(** [strcmp(buf, t) == 0]: reads as far as the first difference. *)
Fixpoint strcmp_buf (buf : buffer) (t : cstr) : option bool :=
  match buf, t with
  | Some c :: _, [] => Some (bool_decide (c = NUL))
  | Some c :: buf', d :: t' => if bool_decide (c = d) then strcmp_buf buf' t' else Some false
  | _, _ => None
  end.

Section Code.
Context `{ET : ErrnoText} {K : Type} `{OS : NotifyOS K, MK : MkdirOS K}.
Abbreviation PM := (M (proc K)).

(** ** seccomp_functions.c *)

Definition cookieIsValid (notifyFd id : Z) : PM bool :=
  let! r := syscall (fun k => os_id_valid k notifyFd id) in
  ret (match r with Some _ => true | None => false end).

(** The status and the buffer. [os_open_mem] opens the memory file that /proc
    has for the process. *)
Definition getTargetPathname (req : seccomp_notif) (notifyFd : Z) (argNum : nat) (path : buffer)
    (len : Z) : PM (Z * buffer) :=
  let! fd := syscall (fun k => os_open_mem k (req_pid req)) in
  match fd with
  | None => ret (GTP_BAD_READ, path)
  | Some procMemFd =>
      let! valid := cookieIsValid notifyFd (req_id req) in
      if negb valid then
        syscall (fun k => os_close_mem k procMemFd) ;;; ret (GTP_ID_NOT_VALID, path)
      else
        let! nread := syscall (fun k =>
          os_pread k procMemFd len (default 0 (req_args req !! argNum))) in
        syscall (fun k => os_close_mem k procMemFd) ;;;
        match nread with
        | None => ret (GTP_BAD_READ, path)
        | Some [] => ret (GTP_BAD_READ, path)
        | Some bytes =>
            let path := store_bytes bytes path in
            let! valid := cookieIsValid notifyFd (req_id req) in
            if negb valid then ret (GTP_ID_NOT_VALID, path)
            else if bool_decide (NUL ∈ bytes) then ret (0, path)
            else ret (GTP_BAD_PATH, path)
        end
  end.

(** The sizes of the two buffers. The second result of malloc is not checked:
    [resp] is compared with NULL, not [*resp]. *)
Definition allocSeccompNotifBuffers : PM (Z * Z) :=
  let! sizes := syscall os_notif_sizes in
  match sizes with
  | None => errExit (lit "seccomp-SECCOMP_GET_NOTIF_SIZES")
  | Some (seccomp_notif, seccomp_notif_resp) =>
      let! req := syscall_ (fun k => os_notif_alloc k seccomp_notif) in
      if negb req then errExit (lit "malloc-seccomp_notif") else
      let resp_size :=
        if seccomp_notif_resp <? sizeof_notif_resp then sizeof_notif_resp
        else seccomp_notif_resp in
      let! resp := syscall_ (fun k => os_notif_alloc k resp_size) in
      if negb resp then undef else ret (seccomp_notif, resp_size)
  end.

(** ** seccomp_unotify_mkdir.c *)

Definition check_id (notifyFd id : Z) : PM unit :=
  let! valid := cookieIsValid notifyFd id in
  when (negb valid) (exit3 EXIT_FAILURE).

Definition delay (notifyFd id delaySecs : Z) : PM unit :=
  check_id notifyFd id ;;;
  for_each (seq 0 (Z.to_nat delaySecs)) (fun _ => syscall_ os_sleep) ;;;
  check_id notifyFd id.

(** The response to a request, and the directory made on behalf of the
    target. *)
Definition respond (req : seccomp_notif) (pathStatus : Z) (path : buffer) :
    PM seccomp_notif_resp :=
  let resp val error flags := Resp (req_id req) val error flags in
  if negb (pathStatus =? 0) then ret (resp 0 (- EINVAL) 0)
  else
    match c_string path with
    | None => undef
    | Some name =>
        if strncmp_prefix (lit "/tmp/") name then
          let! made := syscall (fun k => os_mkdir k name (default 0 (req_args req !! 1%nat))) in
          match made with
          | Some _ => ret (resp (strlen name) 0 0)
          | None => let! s := get in ret (resp 0 (- errno s) 0)
          end
        else if strncmp_prefix (lit "./") name then
          ret (resp 0 0 SECCOMP_USER_NOTIF_FLAG_CONTINUE)
        else ret (resp 0 (- EOPNOTSUPP) 0)
    end.

(** One turn of the loop in [handleNotifications]: whether it is left, and the
    buffer for the next turn. *)
Definition notif_turn (notifyFd delaySecs : Z) (path : buffer) : PM (bool * buffer) :=
  let! r := syscall (fun k => os_recv k notifyFd) in
  match r with
  | None =>
      let! s := get in
      if errno s =? EINTR then ret (false, path)
      else errExit (lit "ioctl-SECCOMP_IOCTL_NOTIF_RECV")
  | Some req =>
      if negb (req_nr req =? NR_mkdir) then exit3 EXIT_FAILURE
      else
        when (0 <? delaySecs) (delay notifyFd (req_id req) delaySecs) ;;;
        let! (pathStatus, path) := getTargetPathname req notifyFd 0 path PATH_MAX in
        let! resp := respond req pathStatus path in
        syscall (fun k => os_send k notifyFd resp) ;;;
        match strcmp_buf path (lit "/bye") with
        | None => undef
        | Some stop => ret (stop, path)
        end
  end.

(** The loop, for at most [turns] turns. *)
Fixpoint notif_loop (turns : nat) (notifyFd delaySecs : Z) (path : buffer) : PM unit :=
  match turns with
  | O => ret tt
  | S turns =>
      let! (stop, path) := notif_turn notifyFd delaySecs path in
      if stop then exit3 EXIT_FAILURE else notif_loop turns notifyFd delaySecs path
  end.

Definition handleNotifications (turns : nat) (notifyFd delaySecs : Z) : PM unit :=
  allocSeccompNotifBuffers ;;;
  notif_loop turns notifyFd delaySecs (fresh_buffer PATH_MAX).

(** *** The command line *)

Definition notify_usage : cstr :=
  lit "      Options" ++ [NEWLINE]
  ++ lit "      -d <nsecs>    Supervisor delays 'nsecs' before inspecting target" ++ [NEWLINE]
  ++ lit "      -f <val>      Install second filter whose return value is:" ++ [NEWLINE]
  ++ lit "                    'e' - SECCOMP_RET_ERRNO" ++ [NEWLINE]
  ++ lit "                    't' - SECCOMP_RET_TRACE" ++ [NEWLINE].

Definition notify_usageError {A} (msg pname : cstr) : PM A :=
  puterr (msg ++ [NEWLINE]) ;;;
  puterr (lit "Usage: " ++ pname ++ lit " [options] <dir> <dir>..." ++ [NEWLINE]) ;;;
  puterr notify_usage ;;;
  exit3 EXIT_FAILURE.

Record cmdLineOpts := CmdLineOpts {
  delaySecs : Z;
  secondFilter : Z
}.

Fixpoint notify_options (pname : cstr) (opts : list option_arg) (o : cmdLineOpts) :
    PM cmdLineOpts :=
  match opts with
  | [] => ret o
  | Opt c a :: rest =>
      if bool_decide (c = "f"%char) then
        if bool_decide (head a = Some "e"%char) then
          notify_options pname rest (CmdLineOpts (delaySecs o) SECCOMP_RET_ERRNO)
        else if bool_decide (head a = Some "t"%char) then
          notify_options pname rest (CmdLineOpts (delaySecs o) SECCOMP_RET_TRACE)
        else notify_usageError (lit "Bad value for -f") pname
      else if bool_decide (c = "d"%char) then
        notify_options pname rest (CmdLineOpts (atoi a) (secondFilter o))
      else notify_usageError (lit "Bad option") pname
  end.

Definition parseCommandLineOptions (pname : cstr) (opts : list option_arg)
    (operands : list cstr) : PM cmdLineOpts :=
  let! o := notify_options pname opts (CmdLineOpts 0 (-1)) in
  if bool_decide (operands = []) then
    notify_usageError (lit "At least one pathname argument should be supplied") pname
  else ret o.

End Code.
