(* ===== verification/SeccompSupervisor.v ===== *)
(** The supervisor of seccomp_unotify_mkdir: when a pathname is taken from the
    target, what is answered, and what it does for the target. *)
From Stdlib Require Import ZArith Lia Ascii String.
From stdpp Require Import base tactics list strings.
From S2P Require Import Prelude CString Process SeccompBpf SeccompPrograms SeccompNotify.
#[local] Open Scope Z_scope.

(** ** Buffers *)

Definition full_buffer (path : buffer) : Prop := (5 <= length path)%nat /\ Forall is_Some path.

Lemma store_bytes_full bytes path : full_buffer path -> full_buffer (store_bytes bytes path).
Proof.
  intros [Hl Hf]. unfold store_bytes. split.
  - rewrite length_app, length_fmap, length_drop. lia.
  - apply Forall_app. split; [|by apply Forall_drop]. apply Forall_fmap, Forall_true. by eexists.
Qed.

Lemma c_string_store bytes path : NUL ∈ bytes ->
  c_string (store_bytes bytes path) = Some (default bytes (fst <$> strchr NUL bytes)).
Proof.
  unfold store_bytes. generalize (drop (length bytes) path) as rest. intros rest.
  induction bytes as [|c bytes IH]; [by intros ?%elem_of_nil|].
  intros Hin. rewrite fmap_cons, <-app_comm_cons. cbn [c_string strchr]. case_bool_decide as Hc; [done|].
  assert (Hb : NUL ∈ bytes) by (apply elem_of_cons in Hin as [?|?]; congruence).
  rewrite (IH Hb). simpl. by destruct (strchr NUL bytes) as [[a b]|].
Qed.

Lemma strcmp_buf_bye path t : (length t < length path)%nat -> Forall is_Some path ->
  exists b, strcmp_buf path t = Some b.
Proof.
  revert path. induction t as [|d t IH]; intros [|o path] Hl Hf; simpl in *; try lia;
    apply Forall_cons in Hf as [[c ->] Hf]; [by eexists|].
  case_bool_decide; [apply IH; [lia|done]|by eexists].
Qed.

(** The failing branches of [pathname_fetched]. *)
Ltac fetch_fails bytes :=
  do 3 eexists; split; [reflexivity|]; split; [discriminate|];
  intros (? & ? & ? & ? & ? & ? & ? & ? & ? & ? & ? & ? & ? & ?); simplify_eq/=;
  first [congruence | contradiction | match goal with H : NUL ∈ ?b |- _ =>
     first [replace b with (@nil ascii) in H by congruence; by apply elem_of_nil in H
           |replace b with bytes in H by congruence; contradiction] end].

Section Supervisor.
Context `{ET : ErrnoText} {K : Type} `{OS : NotifyOS K, MK : MkdirOS K}.
Implicit Types (s : proc K).

(** The states of a supervisor as its system calls see them: [idle], a request
    to answer, and one with its target's memory open. *)
Record fetching (idle : K -> Prop) (waiting : Z -> K -> Prop) (reading : Z -> Z -> K -> Prop) :
    Prop := {
  sv_recv_error k fd k' e : idle k -> os_recv k fd = (k', inl e) -> idle k';
  sv_recv k fd k' req : idle k -> os_recv k fd = (k', inr req) -> waiting (req_id req) k';
  sv_valid id k fd k' r : waiting id k -> os_id_valid k fd id = (k', r) -> waiting id k';
  sv_valid_reading id m k fd k' r :
    reading id m k -> os_id_valid k fd id = (k', r) -> reading id m k';
  sv_open_error id k pid k' e : waiting id k -> os_open_mem k pid = (k', inl e) -> waiting id k';
  sv_open id k pid k' m : waiting id k -> os_open_mem k pid = (k', inr m) -> reading id m k';
  sv_pread id m k len off k' r :
    reading id m k -> os_pread k m len off = (k', r) -> reading id m k';
  sv_close id m k k' r : reading id m k -> os_close_mem k m = (k', r) -> waiting id k'
}.

(** That of seccomp_unotify_mkdir: a directory may be made only under /tmp/,
    and the call may be let through only without a value or an error of its
    own. *)
Record supervised (idle : K -> Prop) (waiting : Z -> K -> Prop) (reading : Z -> Z -> K -> Prop) :
    Prop := {
  sv_fetching :> fetching idle waiting reading;
  sv_sleep id k k' r : waiting id k -> os_sleep k = (k', r) -> waiting id k';
  sv_mkdir id k p mode k' r : waiting id k -> strncmp_prefix (lit "/tmp/") p = true ->
    os_mkdir k p mode = (k', r) -> waiting id k';
  sv_send k fd a k' r : waiting (resp_id a) k ->
    (resp_flags a = 0 \/
     resp_flags a = SECCOMP_USER_NOTIF_FLAG_CONTINUE /\ resp_val a = 0 /\ resp_error a = 0) ->
    os_send k fd a = (k', r) -> idle k'
}.

(** A system call seen through a predicate on kernels. *)
Lemma wp_kcall {A} (call : K -> K * (Z + A)) s (Q : option A -> proc K -> Prop) E (P : K -> Prop) :
  (forall k' r, call (kern s) = (k', r) -> P k') ->
  (forall r s', P (kern s') -> Q r s') -> wp (syscall call) Q E s.
Proof. intros Hc HQ. apply wp_syscall; intros k r Hk; apply HQ; by eapply Hc. Qed.

Section Fetching.
Context (idle : K -> Prop) (waiting : Z -> K -> Prop) (reading : Z -> Z -> K -> Prop).
Context (F : fetching idle waiting reading).

Definition ended (_ : exit_kind) s : Prop := idle (kern s) \/ exists id, waiting id (kern s).

Context (E : exit_kind -> proc K -> Prop).

Lemma wp_cookie (P : K -> Prop) fd id s :
  (forall k k' r, P k -> os_id_valid k fd id = (k', r) -> P k') -> P (kern s) ->
  wp (cookieIsValid fd id) (fun _ s' => P (kern s')) E s.
Proof.
  intros HP Hs. apply wp_bind, wp_kcall with (P := P); [intros; by eapply HP|].
  intros r s' Hs'. by apply wp_ret.
Qed.

Lemma wp_getTargetPathname req fd n path len s :
  waiting (req_id req) (kern s) ->
  wp (getTargetPathname req fd n path len)
    (fun '(st, path') s' => (full_buffer path -> full_buffer path') /\ (st = 0 -> is_Some (c_string path')) /\
       waiting (req_id req) (kern s')) E s.
Proof.
  intros Hs. apply wp_bind, wp_syscall; intros k1 m Hm.
  { apply wp_ret. split_and!; [done|done|]. by eapply sv_open_error. }
  assert (H1 : reading (req_id req) m k1) by by eapply sv_open.
  apply wp_bind. eapply wp_mono; [apply (wp_cookie (reading (req_id req) m));
    [intros; by eapply sv_valid_reading|done]| |done].
  intros v s2 H2. destruct v; simpl negb.
  - apply wp_bind, wp_kcall with (P := reading (req_id req) m); [intros; by eapply sv_pread|].
    intros nread s3 H3. apply wp_bind, wp_kcall with (P := waiting (req_id req)); [intros; by eapply sv_close|].
    intros _ s4 H4. destruct nread as [[|c bytes]|]; try (by apply wp_ret).
    apply wp_bind. eapply wp_mono; [apply (wp_cookie (waiting (req_id req)));
      [intros; by eapply sv_valid|done]| |done].
    pose proof (store_bytes_full (c :: bytes) path). intros v s5 H5. destruct v; simpl negb; [|by apply wp_ret].
    case_bool_decide; apply wp_ret; (split_and!; [done| |done]); intros Hst.
    + by rewrite c_string_store.
    + discriminate.
  - apply wp_bind, wp_kcall with (P := waiting (req_id req)); [intros; by eapply sv_close|].
    intros _ s3 H3. by apply wp_ret.
Qed.

End Fetching.

Section Typed.
Context (idle : K -> Prop) (waiting : Z -> K -> Prop) (reading : Z -> Z -> K -> Prop).
Context (G : supervised idle waiting reading).
Abbreviation ended := (ended idle waiting).
Let F : fetching idle waiting reading := G.

Lemma wp_check_id fd id s : waiting id (kern s) ->
  wp (check_id fd id) (fun _ s' => waiting id (kern s')) ended s.
Proof.
  intros Hs. apply wp_seq_inv with (I := fun s' => waiting id (kern s')).
  { apply wp_cookie; [intros; by eapply sv_valid|done]. }
  intros b s1 H1. apply wp_when_inv; [done|]. intros _. apply wp_exit3. intros s2 H2.
  right. exists id. by rewrite H2.
Qed.

Lemma wp_delay fd id n s : waiting id (kern s) ->
  wp (delay fd id n) (fun _ s' => waiting id (kern s')) ended s.
Proof.
  intros Hs. eapply wp_seq_inv with (I := fun s' => waiting id (kern s')); [by apply wp_check_id|].
  intros _ s1 H1. apply wp_seq_inv with (I := fun s' => waiting id (kern s')); [|intros; by apply wp_check_id].
  apply wp_for_each_inv; [done|]. intros x s2 _ H2. unfold wp, syscall_.
  destruct (os_sleep (kern s2)) as [k r] eqn:Hk. by eapply sv_sleep.
Qed.

Lemma wp_respond req st path s :
  waiting (req_id req) (kern s) -> (st = 0 -> is_Some (c_string path)) ->
  wp (respond req st path) (fun a s' => waiting (resp_id a) (kern s') /\
     (resp_flags a = 0 \/
      resp_flags a = SECCOMP_USER_NOTIF_FLAG_CONTINUE /\ resp_val a = 0 /\ resp_error a = 0)) ended s.
Proof.
  intros Hs Hst. unfold respond. destruct (Z.eqb_spec st 0) as [->|]; simpl negb; cbv iota;
    [|apply wp_ret; split; [done|by left]].
  destruct (Hst eq_refl) as [name ->]. destruct (strncmp_prefix (lit "/tmp/") name) eqn:Ht.
  - apply wp_bind, wp_kcall with (P := waiting (req_id req)); [intros; by eapply sv_mkdir|].
    intros made s1 H1. destruct made;
      [apply wp_ret|apply wp_bind, wp_get, wp_ret]; simpl; (split; [done|by left]).
  - destruct (strncmp_prefix (lit "./") name); apply wp_ret; (split; [done|]); [by right|by left].
Qed.

Lemma wp_notif_turn fd d path s :
  full_buffer path -> idle (kern s) ->
  wp (notif_turn fd d path) (fun '(_, path') s' => full_buffer path' /\ idle (kern s')) ended s.
Proof.
  intros Hp Hs. apply wp_bind, wp_syscall; intros k1 req Hk.
  { assert (H1 : idle k1) by by eapply (sv_recv_error _ _ _ F). apply wp_bind, wp_get. simpl.
    destruct (_ =? _); [by apply wp_ret|]. apply wp_errExit. intros ? s2 H2. left. by rewrite H2. }
  assert (H1 : waiting (req_id req) k1) by by eapply (sv_recv _ _ _ F).
  destruct (negb _); [apply wp_exit3; intros s2 H2; right; exists (req_id req); by rewrite H2|].
  apply wp_seq_inv with (I := fun s' => waiting (req_id req) (kern s')).
  { apply wp_when_inv; [done|]. intros _. by apply wp_delay. }
  intros _ s2 H2. apply wp_bind. eapply wp_mono; [by eapply wp_getTargetPathname| |done].
  intros [st path'] s3 (Hp' & Hst & H3). apply wp_bind. eapply wp_mono; [by apply wp_respond| |done].
  intros a s4 [H4 Ha]. apply wp_bind, wp_kcall with (P := idle); [intros; by eapply sv_send|].
  intros _ s5 H5. destruct (Hp' Hp) as [Hl Hf].
  destruct (strcmp_buf_bye path' (lit "/bye")) as [b ->]; [simpl; lia|done|]. by apply wp_ret.
Qed.

End Typed.

(** C40: Over any number of turns and whatever the target's memory holds, the
    supervisor makes directories only under a name that starts with /tmp/,
    lets a call through only with no result of its own, closes the memory it
    opened and answers each request once, with the request's identifier,
    before it receives the next; it never goes wrong once [path] holds
    bytes. *)
Theorem supervisor_policy (idle : K -> Prop) (waiting : Z -> K -> Prop)
    (reading : Z -> Z -> K -> Prop) (turns : nat) (notifyFd delaySecs : Z) (path : buffer) s :
  supervised idle waiting reading -> full_buffer path -> idle (kern s) ->
  wp (notif_loop turns notifyFd delaySecs path) (fun _ s' => idle (kern s'))
    (ended idle waiting) s.
Proof.
  intros G. revert path s. induction turns as [|turns IH]; intros path s Hp Hs; simpl; [by apply wp_ret|].
  apply wp_bind. eapply wp_mono; [by eapply wp_notif_turn| |done].
  intros [stop path'] s1 [H1 H2]. destruct stop; [|by apply IH].
  apply wp_exit3. intros s2 H3. left. by rewrite H3.
Qed.

(** [getTargetPathname] always returns; it succeeds exactly when the
    target's memory opens, the request is still waiting both before and after
    the read, and the bytes read hold a null; the buffer then holds the
    string in front of the first null. *)
Theorem pathname_fetched (req : seccomp_notif) (notifyFd : Z) (argNum : nat) (path : buffer)
    (len : Z) s :
  exists st path' s', getTargetPathname req notifyFd argNum path len s = Ret (st, path') s' /\
    (st = 0 <-> exists k1 m k2 k3 bytes k4 r,
       os_open_mem (kern s) (req_pid req) = (k1, inr m) /\
       os_id_valid k1 notifyFd (req_id req) = (k2, inr tt) /\
       os_pread k2 m len (default 0 (req_args req !! argNum)) = (k3, inr bytes) /\
       os_close_mem k3 m = (k4, r) /\
       os_id_valid k4 notifyFd (req_id req) = (kern s', inr tt) /\
       NUL ∈ bytes /\ c_string path' = fst <$> strchr NUL bytes).
Proof.
  unfold getTargetPathname, cookieIsValid, bind, syscall, ret.
  destruct (os_open_mem (kern s) (req_pid req)) as [k1 [e|m]] eqn:H1; simpl; [fetch_fails (@nil ascii)|].
  destruct (os_id_valid k1 notifyFd (req_id req)) as [k2 [e|[]]] eqn:H2; simpl;
    [destruct (os_close_mem k2 m) as [? []]; fetch_fails (@nil ascii)|].
  destruct (os_pread k2 m len _) as [k3 r3] eqn:H3.
  destruct (os_close_mem k3 m) as [k4 r4] eqn:H4.
  destruct r3 as [e|[|c bytes]]; simpl; rewrite H4; destruct r4; simpl; try fetch_fails (@nil ascii);
    destruct (os_id_valid k4 notifyFd (req_id req)) as [k5 [e|[]]] eqn:H5; simpl;
    try fetch_fails (@nil ascii); (case_bool_decide as Hn; [|fetch_fails (c :: bytes)]);
    (do 3 eexists; split; [reflexivity|]); (split; [intros _|done]);
    exists k1, m, k2, k3, (c :: bytes), k4; (eexists; split_and!; [done..|]);
    rewrite c_string_store by done; destruct (strchr NUL (c :: bytes)) as [[]|] eqn:Hc;
    [done|by apply strchr_None in Hc|done|by apply strchr_None in Hc].
Qed.

End Supervisor.

(** When the memory of the first notification's target cannot be read,
    the supervisor answers it and then compares a buffer without bytes with
    /bye: undefined behaviour, whatever the rest of the kernel does. *)
Theorem bye_reads_unset_bytes `{ET : ErrnoText} {K : Type} `{OS : NotifyOS K, MK : MkdirOS K}
    (turns : nat) (notifyFd : Z) (s : proc K) k0 k1 k2 k3 k4 e sizes req :
  os_notif_sizes (kern s) = (k0, inr sizes) ->
  os_notif_alloc k0 sizes.1 = (k1, true) ->
  os_notif_alloc k1 (Z.max sizes.2 sizeof_notif_resp) = (k2, true) ->
  os_recv k2 notifyFd = (k3, inr req) -> req_nr req = NR_mkdir ->
  os_open_mem k3 (req_pid req) = (k4, inl e) ->
  handleNotifications (S turns) notifyFd 0 s = Undef.
Proof.
  intros H0 H1 H2 H3 H4 H5. destruct sizes as [n m]. simpl in H1, H2.
  unfold handleNotifications. assert (Hb : strcmp_buf (fresh_buffer PATH_MAX) (lit "/bye") = None) by done.
  revert Hb. generalize (fresh_buffer PATH_MAX) as buf. intros buf Hb.
  replace (Z.max m sizeof_notif_resp) with
    (if m <? sizeof_notif_resp then sizeof_notif_resp else m) in H2
    by (destruct (Z.ltb_spec m sizeof_notif_resp); lia).
  unfold allocSeccompNotifBuffers, notif_loop, notif_turn, getTargetPathname, respond, bind,
    syscall, syscall_, when, ret.
  revert Hb. generalize (lit "/bye") as bye. intros bye Hb.
  rewrite H0. simpl. rewrite H1. simpl. rewrite H2. simpl. rewrite H3. simpl. rewrite H4. simpl.
  rewrite H5. simpl. destruct (os_send _ _ _) as [? []]; simpl; by rewrite Hb.
Qed.

(** ** A kernel with one waiting call *)

(** Whether a request waits, whether its memory is open, and the directories
    made. *)
Definition demo_target : Type := option Z * bool * list cstr.

#[export] Instance demo_notify_os : NotifyOS demo_target := {
  os_notif_sizes k := (k, inr (80, 24));
  os_notif_alloc k n := (k, true);
  os_recv k fd := match k.1.1 with
    | None => ((Some 7, k.1.2, k.2), inr (Notif 7 1 NR_mkdir [0; 448]))
    | Some _ => (k, inl EINVAL)
    end;
  os_id_valid k fd id := (k, if bool_decide (k.1.1 = Some id) then inr tt else inl 2);
  os_open_mem k pid := if pid =? 1 then ((k.1.1, true, k.2), inr 5) else (k, inl 2);
  os_pread k fd len off := (k, inr (lit "/tmp/a" ++ [NUL]));
  os_close_mem k fd := ((k.1.1, false, k.2), inr tt);
  os_send k fd a := ((None, k.1.2, k.2), inr tt)
}.
#[export] Instance demo_mkdir_os : MkdirOS demo_target := {
  os_sleep k := (k, tt);
  os_mkdir k p mode := ((k.1.1, k.1.2, p :: k.2), inr tt)
}.

(** Another, whose target is gone when its memory is opened. *)
Definition gone_target : NotifyOS unit := {|
  os_notif_sizes k := (k, inr (80, 24));
  os_notif_alloc k n := (k, true);
  os_recv k fd := (k, inr (Notif 7 2 NR_mkdir [0; 448]));
  os_id_valid k fd id := (k, inl 2);
  os_open_mem k pid := (k, inl 2);
  os_pread k fd len off := (k, inl 2);
  os_close_mem k fd := (k, inr tt);
  os_send k fd a := (k, inl 2)
|}.
Definition gone_mkdir : MkdirOS unit := {| os_sleep k := (k, tt); os_mkdir k p mode := (k, inl 13) |}.

Definition demo_idle (k : demo_target) : Prop :=
  k.1.1 = None /\ k.1.2 = false /\ Forall (fun p => strncmp_prefix (lit "/tmp/") p = true) k.2.
Definition demo_waiting (id : Z) (k : demo_target) : Prop :=
  k.1.1 = Some id /\ k.1.2 = false /\ Forall (fun p => strncmp_prefix (lit "/tmp/") p = true) k.2.
Definition demo_reading (id m : Z) (k : demo_target) : Prop :=
  k.1.1 = Some id /\ k.1.2 = true /\ Forall (fun p => strncmp_prefix (lit "/tmp/") p = true) k.2.

Lemma supervisor_policy_witness :
  wp (notif_loop 2 3 0 (replicate 5 (Some NUL)))
    (fun _ s' => demo_idle (kern s')) (ended demo_idle demo_waiting)
    (Proc (None, false, []) 0 None [] [] [] : proc demo_target).
Proof.
  apply (supervisor_policy demo_idle demo_waiting demo_reading).
  - split; [split|..]; unfold demo_idle, demo_waiting, demo_reading; simpl.
    + intros k fd k' e (-> & H1 & H2) [=].
    + intros k fd k' req (H1 & H2 & H3). rewrite H1. intros. by simplify_eq/=.
    + intros. by simplify_eq.
    + intros. by simplify_eq.
    + intros id k pid k' e H. destruct (pid =? 1); intros; by simplify_eq.
    + intros id k pid k' m (H1 & H2 & H3). destruct (pid =? 1); intros; by simplify_eq/=.
    + intros. by simplify_eq.
    + intros id m k k' r (H1 & H2 & H3) ?. by simplify_eq/=.
    + intros. by simplify_eq.
    + intros id k p mode k' r (H1 & H2 & H3) Hp ?. simplify_eq/=. split_and!; [done..|].
      by apply Forall_cons.
    + intros k fd a k' r (H1 & H2 & H3) _ ?. by simplify_eq/=.
  - split; [simpl; lia|]. by repeat (apply Forall_cons; split; [by eexists|]); apply Forall_nil.
  - split_and!; [done|done|]. by apply Forall_nil.
Defined.

Lemma bye_reads_unset_bytes_witness :
  handleNotifications (OS := gone_target) (MK := gone_mkdir) 1 3 0 (Proc tt 0 None [] [] []) = Undef.
Proof.
  by apply (bye_reads_unset_bytes (OS := gone_target) (MK := gone_mkdir) 0 3 (Proc tt 0 None [] [] [])
    tt tt tt tt tt 2 (80, 24) (Notif 7 2 NR_mkdir [0; 448])).
Defined.
