(* ===== verification/ScmFunctions.v ===== *)
(** sockets/scm_functions.c (src/tlpi-dist): a file descriptor sent from one
    process to another over a UNIX domain socket. *)
From Stdlib Require Import ZArith Lia Ascii String.
From stdpp Require Import base tactics list strings.
From S2P Require Import Prelude CString Process.
#[local] Open Scope Z_scope.

Definition SOL_SOCKET : Z := 1.
Definition SCM_RIGHTS : Z := 1.
Definition sizeof_int : Z := 4.
Definition sizeof_cmsghdr : Z := 16.

(** [CMSG_LEN] and [CMSG_SPACE], which rounds up to a multiple of eight. *)
Definition CMSG_LEN (n : Z) : Z := sizeof_cmsghdr + n.
Definition CMSG_SPACE (n : Z) : Z := sizeof_cmsghdr + (n + 7) / 8 * 8.

(** A control message with the integers it carries. *)
Record cmsghdr := Cmsg {
  cmsg_len : Z;
  cmsg_level : Z;
  cmsg_type : Z;
  cmsg_data : list Z
}.

(** sendmsg with one integer of data and one control message; recvmsg with
    space for one integer and for so many bytes of control messages, of which
    [CMSG_FIRSTHDR] finds the first. *)
Class ScmOS (K : Type) := {
  os_sendmsg : K -> Z -> Z -> cmsghdr -> K * (Z + Z);
  os_recvmsg : K -> Z -> Z -> K * (Z + (Z * option cmsghdr))
}.

Section Code.
Context {K : Type} `{OS : ScmOS K}.
Abbreviation PM := (M (proc K)).

Definition sendfd (sockfd fd : Z) : PM Z :=
  let cmsgp := Cmsg (CMSG_LEN sizeof_int) SOL_SOCKET SCM_RIGHTS [fd] in
  let! r := syscall (fun k => os_sendmsg k sockfd 12345 cmsgp) in
  ret (match r with Some _ => 0 | None => -1 end).

(** The test of the control message. *)
Definition carries_fd (c : cmsghdr) : bool :=
  (cmsg_len c =? CMSG_LEN sizeof_int) && (cmsg_level c =? SOL_SOCKET) && (cmsg_type c =? SCM_RIGHTS).

(** A message whose length says that there is an integer, but that has none,
    would have its uninitialised bytes read. *)
Definition recvfd (sockfd : Z) : PM Z :=
  let! r := syscall (fun k => os_recvmsg k sockfd (CMSG_SPACE sizeof_int)) in
  match r with
  | None => ret (-1)
  | Some (_, c) =>
      match c with
      | Some c =>
          if carries_fd c then match cmsg_data c with fd :: _ => ret fd | [] => undef end
          else modify (set_errno EINVAL) ;;; ret (-1)
      | None => modify (set_errno EINVAL) ;;; ret (-1)
      end
  end.

End Code.

(** ** A pair of sockets *)

(** A sender and a receiver on the two ends of a pair of sockets, over one
    kernel: what the descriptors of each refer to, and the messages under way,
    as the lists of open files they carry. *)
Class ScmLaws {K O : Type} (S R : ScmOS K) (out_end in_end : Z) := {
  sender_has : K -> Z -> option O;
  receiver_has : K -> Z -> option O;
  under_way : K -> list (list O);
  scm_send k n c k' r os :
    @os_sendmsg K S k out_end n c = (k', inr r) ->
    cmsg_level c = SOL_SOCKET -> cmsg_type c = SCM_RIGHTS ->
    cmsg_len c = CMSG_LEN (sizeof_int * Z.of_nat (length (cmsg_data c))) ->
    Forall2 (fun fd o => sender_has k fd = Some o) (cmsg_data c) os ->
    under_way k' = under_way k ++ [os];
  scm_send_error k n c k' e : @os_sendmsg K S k out_end n c = (k', inl e) -> under_way k' = under_way k;
  scm_recv k room k' n c os rest :
    @os_recvmsg K R k in_end room = (k', inr (n, c)) -> under_way k = os :: rest ->
    CMSG_LEN (sizeof_int * Z.of_nat (length os)) <= room ->
    under_way k' = rest /\ exists fds,
      c = Some (Cmsg (CMSG_LEN (sizeof_int * Z.of_nat (length os))) SOL_SOCKET SCM_RIGHTS fds) /\
      Forall2 (fun fd o => 0 <= fd /\ receiver_has k' fd = Some o) fds os;
  scm_recv_error k room k' e :
    @os_recvmsg K R k in_end room = (k', inl e) -> under_way k' = under_way k
}.

Section Passing.
Context {K O : Type} {S R : ScmOS K} {out_end in_end : Z}.
Context {L : ScmLaws (O := O) S R out_end in_end}.
Implicit Types (s : proc K).

Lemma carries_one fd : carries_fd (Cmsg (CMSG_LEN sizeof_int) SOL_SOCKET SCM_RIGHTS [fd]) = true.
Proof. done. Qed.

Lemma wp_sendfd fd o s (E : exit_kind -> proc K -> Prop) :
  sender_has (kern s) fd = Some o ->
  wp (sendfd (OS := S) out_end fd)
    (fun r s' => r = 0 /\ under_way (kern s') = under_way (kern s) ++ [[o]] \/
       r = -1 /\ under_way (kern s') = under_way (kern s)) E s.
Proof.
  intros Hfd. apply wp_bind, wp_syscall; intros k r Hk; apply wp_ret; simpl.
  - right. split; [done|]. by eapply scm_send_error.
  - left. split; [done|]. eapply scm_send; [done..|]. by constructor; [|constructor].
Qed.

Lemma wp_recvfd_one o rest s (E : exit_kind -> proc K -> Prop) :
  under_way (kern s) = [o] :: rest ->
  wp (recvfd (OS := R) in_end)
    (fun r s' => 0 <= r /\ receiver_has (kern s') r = Some o /\ under_way (kern s') = rest \/
       r = -1 /\ under_way (kern s') = under_way (kern s)) E s.
Proof.
  intros Hw. apply wp_bind, wp_syscall; intros k r Hk.
  - apply wp_ret. right. split; [done|]. by eapply scm_recv_error.
  - destruct r as [n c]. destruct (scm_recv _ _ _ _ _ _ _ Hk Hw) as (Hrest & fds & -> & Hfds).
    { by vm_compute. }
    apply Forall2_cons_inv_r in Hfds as (fd & l & [Hfd Hr] & Hnil & ->).
    apply Forall2_nil_inv_r in Hnil as ->. left. by split_and!.
Qed.

(** Descriptors sent one by one over the pair arrive in order: [sendfd]
    returns 0 and puts its file behind those under way, or returns -1 and sends
    nothing; then [recvfd] returns -1 and leaves what is under way, or a
    descriptor that refers in the receiver to the first file sent. *)
Theorem descriptor_passed (fd : Z) (o : O) (os : list O) s :
  under_way (kern s) = (fun o => [o]) <$> os -> sender_has (kern s) fd = Some o ->
  wp (sendfd (OS := S) out_end fd)
    (fun r s1 => r = -1 /\ under_way (kern s1) = (fun o => [o]) <$> os \/
       r = 0 /\ forall s2, kern s2 = kern s1 ->
         wp (recvfd (OS := R) in_end)
           (fun r2 s3 => r2 = -1 /\ under_way (kern s3) = under_way (kern s1) \/
              exists first rest, os ++ [o] = first :: rest /\ 0 <= r2 /\
                receiver_has (kern s3) r2 = Some first /\ under_way (kern s3) = (fun o => [o]) <$> rest)
           (fun _ _ => False) s2)
    (fun _ _ => False) s.
Proof.
  intros Hw Hfd. eapply wp_mono; [by eapply (wp_sendfd _ _ _ (fun _ _ => False))| |done].
  intros r s1 [[-> H1]|[-> H1]]; [right|left; by rewrite H1]. split; [done|]. intros s2 Hs2.
  assert (Hq : under_way (kern s2) = (fun o => [o]) <$> (os ++ [o])) by (rewrite Hs2, H1, Hw, fmap_app; done).
  destruct (os ++ [o]) as [|first rest] eqn:He; [by apply app_nil in He as [_ ?]|].
  rewrite fmap_cons in Hq. eapply wp_mono; [by eapply (wp_recvfd_one _ _ _ (fun _ _ => False))| |done]. intros r2 s3 [(Hr & Ho & Hu)|[-> Hu]].
  - right. by exists first, rest.
  - left. by rewrite Hu, Hs2.
Qed.

(** The space for one integer is rounded up to that of two: a message with two
    descriptors is received, both are opened, and [recvfd] refuses it without
    closing them. *)
Lemma recvfd_leaks (o1 o2 : O) (rest : list (list O)) k' x s :
  under_way (kern s) = [o1; o2] :: rest ->
  @os_recvmsg K R (kern s) in_end (CMSG_SPACE sizeof_int) = (k', inr x) ->
  exists fd1 fd2 s', recvfd (OS := R) in_end s = Ret (-1) s' /\ errno s' = EINVAL /\
    receiver_has (kern s') fd1 = Some o1 /\ receiver_has (kern s') fd2 = Some o2.
Proof.
  intros Hw Hk. destruct x as [n c]. destruct (scm_recv _ _ _ _ _ _ _ Hk Hw) as (_ & fds & -> & Hfds).
  { by vm_compute. }
  apply Forall2_cons_inv_r in Hfds as (fd1 & l & [_ H1] & Hl & ->).
  apply Forall2_cons_inv_r in Hl as (fd2 & l' & [_ H2] & Hnil & ->).
  exists fd1, fd2, (set_errno EINVAL (set_kern k' s)). split_and!; [|done..].
  unfold recvfd, bind, syscall. by rewrite Hk.
Qed.

End Passing.

(** ** A pair of sockets in memory *)

(** What is under way, and the files the receiver has; the sender's descriptor
    n refers to file n, and messages are sent to one end and received from the
    other. *)
Definition demo_pair : Type := list (list Z) * list Z.

Definition demo_sender : ScmOS demo_pair := {|
  os_sendmsg k fd n c :=
    if decide (length (cmsg_data c) < 3)%nat then ((k.1 ++ [cmsg_data c], k.2), inr 4) else (k, inl 22);
  os_recvmsg k fd room := (k, inl 11)
|}.
Definition demo_receiver : ScmOS demo_pair := {|
  os_sendmsg k fd n c := (k, inl 11);
  os_recvmsg k fd room :=
    match k.1 with
    | [] => (k, inl 11)
    | os :: rest =>
        ((rest, k.2 ++ os), inr (4, Some (Cmsg (CMSG_LEN (sizeof_int * Z.of_nat (length os))) SOL_SOCKET SCM_RIGHTS
           (Z.of_nat <$> seq (length k.2) (length os)))))
    end
|}.

Lemma files_added (l os : list Z) :
  Forall2 (fun fd o => 0 <= fd /\ (l ++ os) !! Z.to_nat fd = Some o) (Z.of_nat <$> seq (length l) (length os)) os.
Proof.
  apply Forall2_fmap_l, Forall2_same_length_lookup. split; [by rewrite length_seq|].
  intros i x o Hx Ho. apply lookup_seq in Hx as [-> _]. simpl. split; [lia|].
  rewrite Nat2Z.id, lookup_app_r by lia. by replace (length l + i - length l)%nat with i by lia.
Qed.

Lemma demo_pair_laws : ScmLaws (O := Z) demo_sender demo_receiver 3 4.
Proof.
  refine {| sender_has _ fd := Some fd; receiver_has k fd := k.2 !! Z.to_nat fd; under_way k := k.1 |}.
  - intros k n c k' r os Hs _ _ _ Hos. simpl in Hs. case_decide; [|done]. injection Hs as <- _. simpl.
    do 2 f_equal. clear -Hos. induction Hos as [|? ? ? ? [= ->]]; congruence.
  - intros k n c k' e Hs. simpl in Hs. case_decide; [done|]. by injection Hs as <-.
  - intros k room k' n c os rest Hs Hq _. simpl in Hs. rewrite Hq in Hs. injection Hs as <- <- <-.
    split; [done|]. eexists. split; [done|]. apply files_added.
  - intros k room k' e Hs. simpl in Hs. destruct k.1 eqn:Hq; [by injection Hs as <- _|done].
Defined.

Lemma descriptor_passed_witness :
  let s : proc demo_pair := Proc ([[7]], []) 0 None [] [] [] in
  wp (sendfd (OS := demo_sender) 3 8)
    (fun r s1 => r = -1 /\ (kern s1).1 = [[7]] \/
       r = 0 /\ forall s2, kern s2 = kern s1 ->
         wp (recvfd (OS := demo_receiver) 4)
           (fun r2 s3 => r2 = -1 /\ (kern s3).1 = (kern s1).1 \/
              exists first rest, [7] ++ [8] = first :: rest /\ 0 <= r2 /\
                (kern s3).2 !! Z.to_nat r2 = Some first /\ (kern s3).1 = (fun o => [o]) <$> rest)
           (fun _ _ => False) s2)
    (fun _ _ => False) s.
Proof.
  apply (descriptor_passed (L := demo_pair_laws) 8 8 [7] (Proc ([[7]], []) 0 None [] [] [])); reflexivity.
Defined.
