(* ===== verification/SeccompTarget.v ===== *)
(** The target process, the supervisor process and [main] of
    seccomp_unotify_mkdir.c, with what seccomp_unotify_openat.c shares with them
    (src/tlpi-dist/seccomp). The target installs the filter, sends the
    notification descriptor to the supervisor and makes one call for each
    argument; the two programs differ in the filters and in the call. *)
From Stdlib Require Import ZArith Lia Ascii String.
From stdpp Require Import base tactics list strings.
From S2P Require Import Prelude CString Process SeccompBpf SeccompPrograms SeccompNotify ScmFunctions.
#[local] Open Scope Z_scope.

Definition SIGINT : Z := 2.
Definition SIGCHLD : Z := 17.

(** What these programs call beside the functions modelled elsewhere.
    [os_listener] is seccomp() with SECCOMP_FILTER_FLAG_NEW_LISTENER;
    [os_mkdir_call] is mkdir() in the target, where the supervisor chooses the
    value returned. *)
Class TargetOS (K : Type) := {
  os_socketpair : K -> K * (Z + (Z * Z));
  os_fork : K -> K * (Z + Z);
  os_getpid : K -> K * Z;
  os_sigaction : K -> Z -> K * (Z + unit);
  os_listener : K -> list sock_filter -> K * (Z + Z);
  os_mkdir_call : K -> cstr -> Z -> K * (Z + Z);
  os_write : K -> Z -> cstr -> K * (Z + Z)
}.

Section Code.
Context `{ET : ErrnoText} {K : Type} `{SO : SeccompOS K, SM : ScmOS K, NO : NotifyOS K, MK : MkdirOS K, TO : TargetOS K}.
Abbreviation PM := (M (proc K)).

(** printf when stdout is not buffered. *)
Definition say (t : cstr) : PM unit := putout t ;;; fflush_stdout.
Definition perror (msg : cstr) : PM unit :=
  let! s := get in puterr (msg ++ lit ": " ++ strerror (errno s) ++ [NEWLINE]).

Definition sigchldHandler : PM unit :=
  syscall (fun k => os_write k 1 (TAB :: lit "S: target has terminated; bye" ++ [NEWLINE])) ;;;
  exit EXIT_SUCCESS.

Definition installNotifyFilter (filter : list sock_filter) : PM Z :=
  let! r := syscall (fun k => os_listener k filter) in
  match r with
  | Some notifyFd => ret notifyFd
  | None => errExit (lit "seccomp-install-notify-filter")
  end.

Definition installFilter2 (opts : cmdLineOpts) : PM unit :=
  let! r := syscall (fun k => os_set_filter k (second_filter (secondFilter opts))) in
  match r with
  | Some _ => ret tt
  | None => errExit (lit "seccomp-install-filter-2")
  end.

Definition must_close (fd : Z) (msg : cstr) : PM unit :=
  let! r := syscall (fun k => os_close_fd k fd) in
  match r with Some _ => ret tt | None => errExit msg end.

Definition closeSocketPair (sockPair : Z * Z) : PM unit :=
  must_close sockPair.1 (lit "closeSocketPair-close-0") ;;;
  must_close sockPair.2 (lit "closeSocketPair-close-1").

(** The child of [targetProcess]: [setup] comes before the flag is set, [more]
    after the first filter, [call] is made for each argument. *)
Definition target_child (setup : PM unit) (filter : list sock_filter) (more : PM unit)
    (call : cstr -> PM unit) (sockPair : Z * Z) (argv : list cstr) : PM unit :=
  let! pid := syscall_ os_getpid in
  say (lit "T: PID = " ++ show_Z pid ++ [NEWLINE]) ;;;
  setup ;;;
  prctl_no_new_privs ;;;
  let! notifyFd := installNotifyFilter filter in
  more ;;;
  let! sent := sendfd sockPair.1 notifyFd in
  if sent =? -1 then errExit (lit "sendfd")
  else
    must_close notifyFd (lit "close-target-notify-fd") ;;;
    closeSocketPair sockPair ;;;
    for_each argv call ;;;
    say (NEWLINE :: lit "T: terminating" ++ [NEWLINE]) ;;;
    exit3 EXIT_SUCCESS.

(** [targetProcess]: the parent gets the process ID; the child does not come
    back. *)
Definition targetProcess (child : PM unit) : PM Z :=
  let! targetPid := syscall os_fork in
  match targetPid with
  | None => errExit (lit "fork")
  | Some targetPid => if 0 <? targetPid then ret targetPid else child ;;; undef
  end.

(** [supervisor], over the loop that handles notifications. *)
Definition supervisor (handle : Z -> PM unit) (sockPair : Z * Z) : PM unit :=
  let! notifyFd := recvfd sockPair.2 in
  if notifyFd =? -1 then errExit (lit "recvfd")
  else closeSocketPair sockPair ;;; handle notifyFd.

(** [main] after its options. *)
Definition unotify_main (child : Z * Z -> PM unit) (handle : Z -> PM unit) : PM unit :=
  let! sockPair := syscall os_socketpair in
  match sockPair with
  | None => errExit (lit "socketpair")
  | Some sockPair =>
      targetProcess (child sockPair) ;;;
      let! r := syscall (fun k => os_sigaction k SIGCHLD) in
      match r with
      | None => errExit (lit "sigaction")
      | Some _ => supervisor handle sockPair ;;; exit3 EXIT_SUCCESS
      end
  end.

(** ** seccomp_unotify_mkdir.c *)

Definition catch_sigint : PM unit :=
  let! r := syscall (fun k => os_sigaction k SIGINT) in
  match r with Some _ => ret tt | None => errExit (lit "sigaction") end.

Definition mkdir_call (ap : cstr) : PM unit :=
  say (NEWLINE :: lit "T: about to mkdir(" ++ QUOTE :: ap ++ QUOTE :: lit ")" ++ [NEWLINE]) ;;;
  let! s := syscall (fun k => os_mkdir_call k ap 448) in
  match s with
  | None => perror (lit "T: ERROR: mkdir(2)")
  | Some s => say (lit "T: SUCCESS: mkdir(2) returned " ++ show_Z s ++ [NEWLINE])
  end.

Definition mkdir_target (opts : cmdLineOpts) (argv : list cstr) (sockPair : Z * Z) : PM unit :=
  target_child catch_sigint notify_filter
    (when (negb (secondFilter opts =? -1)) (installFilter2 opts))
    mkdir_call sockPair argv.

Definition mkdir_main (turns : nat) (pname : cstr) (opts : list option_arg) (operands : list cstr) : PM unit :=
  let! o := parseCommandLineOptions pname opts operands in
  unotify_main (mkdir_target o operands) (fun notifyFd => handleNotifications turns notifyFd (delaySecs o)).

End Code.

(** ** The order of the target's calls *)

Section Protocol.
Context `{ET : ErrnoText} {K : Type} `{SO : SeccompOS K, SM : ScmOS K, NO : NotifyOS K, MK : MkdirOS K, TO : TargetOS K}.
Implicit Types (s : proc K).

(** The stages of the target as its system calls see them: at first; with the
    no-new-privileges flag; with the filter, the descriptors it has and nothing
    sent; with the descriptor sent; and with the calls made so far, which
    begins when it has closed every descriptor of its own. The filter is
    installed only under the flag, and only what was installed is sent. *)
Record target_rules (filter : list sock_filter) (sockPair : Z * Z) (begun flagged : K -> Prop)
    (filtered passed : list Z -> K -> Prop) (calling : list cstr -> K -> Prop) : Prop := {
  tr_getpid k : begun k -> begun (os_getpid k).1;
  tr_prctl k k' : begun k -> os_no_new_privs k = (k', inr tt) -> flagged k';
  tr_filter k k' fd :
    flagged k -> os_listener k filter = (k', inr fd) -> filtered [fd; sockPair.1; sockPair.2] k';
  tr_send k k' fd rest n :
    filtered (fd :: rest) k ->
    os_sendmsg k sockPair.1 12345 (Cmsg (CMSG_LEN sizeof_int) SOL_SOCKET SCM_RIGHTS [fd]) = (k', inr n) ->
    passed (fd :: rest) k';
  tr_close k k' fd rest : passed (fd :: rest) k -> os_close_fd k fd = (k', inr tt) -> passed rest k';
  tr_ready k : passed [] k -> calling [] k
}.

(** A run that ends successfully ends in [P]. *)
Definition success_in (P : K -> Prop) (e : exit_kind) s : Prop := e = EXIT_SUCCESS -> P (kern s).

Lemma wp_errExit_success {A} msg (Q : A -> proc K -> Prop) P s : wp (errExit msg) Q (success_in P) s.
Proof. apply wp_errExit_fails. by intros k s' Hk _ ->. Qed.

Lemma wp_say t (Q : unit -> proc K -> Prop) E s :
  (forall s', kern s' = kern s -> Q tt s') -> wp (say t) Q E s.
Proof. intros HQ. apply wp_bind, wp_modify, wp_modify. by apply HQ. Qed.

Lemma wp_perror msg (Q : unit -> proc K -> Prop) E s :
  (forall s', kern s' = kern s -> Q tt s') -> wp (perror msg) Q E s.
Proof. intros HQ. apply wp_bind, wp_get, wp_modify. by apply HQ. Qed.

(** A system call whose failure ends the process, seen through a predicate. *)
Lemma wp_must_call {A B} (call : K -> K * (Z + A)) msg (f : A -> M (proc K) B) (Q : B -> proc K -> Prop) P s :
  (forall k a, call (kern s) = (k, inr a) -> wp (f a) Q (success_in P) (set_kern k s)) ->
  wp (let! r := syscall call in match r with Some a => f a | None => errExit msg end) Q (success_in P) s.
Proof. intros HS. apply wp_bind, wp_syscall; intros k r Hk; [apply wp_errExit_success|by apply HS]. Qed.

Section Target.
Context (filter : list sock_filter) (sockPair : Z * Z) (begun flagged : K -> Prop).
Context (filtered passed : list Z -> K -> Prop) (calling : list cstr -> K -> Prop).
Context (G : target_rules filter sockPair begun flagged filtered passed calling).

Lemma wp_close_passed fd rest msg P s : passed (fd :: rest) (kern s) ->
  wp (must_close fd msg) (fun _ s' => passed rest (kern s')) (success_in P) s.
Proof. intros Hs. apply wp_must_call. intros k [] Hk. apply wp_ret. by eapply tr_close. Qed.

Lemma wp_target_child setup more call argv s :
  let P := calling argv in
  (forall s, begun (kern s) -> wp setup (fun _ s' => begun (kern s')) (success_in P) s) ->
  (forall fds s, filtered fds (kern s) -> wp more (fun _ s' => filtered fds (kern s')) (success_in P) s) ->
  (forall before ap s, calling before (kern s) ->
     wp (call ap) (fun _ s' => calling (before ++ [ap]) (kern s')) (success_in P) s) ->
  begun (kern s) ->
  wp (target_child setup filter more call sockPair argv) (fun _ _ => False) (success_in P) s.
Proof.
  intros P Hsetup Hmore Hcall Hs. apply wp_bind. unfold wp at 1, syscall_.
  destruct (os_getpid (kern s)) as [k pid] eqn:Hpid.
  assert (H0 : begun k) by (pose proof (tr_getpid _ _ _ _ _ _ _ G _ Hs) as H; by rewrite Hpid in H).
  apply wp_bind, wp_say. intros s1 H1. apply wp_seq_inv with (I := fun s => begun (kern s));
    [apply Hsetup; by rewrite H1|]. intros _ s2 H2.
  apply wp_seq_inv with (I := fun s => flagged (kern s)).
  { apply wp_must_call. intros k' [] Hk. apply wp_ret. by eapply tr_prctl. }
  intros _ s3 H3. apply wp_bind, wp_must_call. intros k' notifyFd Hk. apply wp_ret.
  assert (H4 : filtered [notifyFd; sockPair.1; sockPair.2] k') by by eapply tr_filter.
  apply wp_seq_inv with (I := fun s => filtered [notifyFd; sockPair.1; sockPair.2] (kern s)); [by apply Hmore|].
  clear dependent s s1 s2 s3 k k'. intros _ s1 H1. apply wp_bind, wp_bind, wp_syscall; intros k1 n Hk1; apply wp_ret;
    [simpl; apply wp_errExit_success|].
  simpl. assert (H2 : passed [notifyFd; sockPair.1; sockPair.2] k1) by by eapply tr_send.
  apply wp_seq_inv with (I := fun s => passed [sockPair.1; sockPair.2] (kern s)); [by apply wp_close_passed|].
  intros _ s2 H3. apply wp_seq_inv with (I := fun s => calling [] (kern s)).
  { apply wp_seq_inv with (I := fun s => passed [sockPair.2] (kern s)); [by apply wp_close_passed|].
    intros _ s3 H4. eapply wp_mono; [by apply (wp_close_passed _ [])| |done]. intros ? s4 ?. by eapply tr_ready. }
  intros _ s3 H4. apply wp_seq_inv with (I := fun s => P (kern s)).
  { apply (wp_for_each argv call (fun before s => calling before (kern s))); [done|]. eauto. }
  intros _ s4 H5. apply wp_bind, wp_say. intros s5 H6. apply wp_exit3. intros s6 H7 _. by rewrite H7, H6.
Qed.

End Target.

(** The target of seccomp_unotify_mkdir never returns. It ends successfully
    only after it has installed the filter with the no-new-privileges flag set,
    sent the descriptor that it got for that filter and closed every descriptor
    of its own, and then called mkdir once for each argument, in order, however
    those calls turned out. *)
Theorem mkdir_target_calls (opts : cmdLineOpts) (argv : list cstr) (sockPair : Z * Z) (begun flagged : K -> Prop)
    (filtered passed : list Z -> K -> Prop) (calling : list cstr -> K -> Prop) s :
  target_rules notify_filter sockPair begun flagged filtered passed calling ->
  (forall k k' sig r, begun k -> os_sigaction k sig = (k', r) -> begun k') ->
  (forall k k' fds r, filtered fds k -> os_set_filter k (second_filter (secondFilter opts)) = (k', r) ->
     filtered fds k') ->
  (forall k k' before p r, calling before k -> os_mkdir_call k p 448 = (k', r) -> calling (before ++ [p]) k') ->
  begun (kern s) ->
  wp (mkdir_target opts argv sockPair) (fun _ _ => False)
    (fun e s' => e = EXIT_SUCCESS -> calling argv (kern s')) s.
Proof.
  intros G Hsig Hf2 Hmk Hs. eapply wp_target_child; [done|..|done].
  - intros s1 H1. apply wp_must_call. intros k [] Hk. apply wp_ret. by eapply Hsig.
  - intros fds s1 H1. apply wp_when_inv; [done|]. intros _. apply wp_must_call. intros k [] Hk. apply wp_ret.
    by eapply Hf2.
  - intros before ap s1 H1. apply wp_bind, wp_say. intros s2 H2.
    apply wp_bind, wp_syscall; intros k r Hk; rewrite H2 in Hk; [apply wp_perror|apply wp_say];
      intros s3 ->; by eapply Hmk.
Qed.

End Protocol.

(** ** A kernel for the target *)

Record demo_os := DemoOS {
  d_flag : bool;
  d_filter : bool;
  d_sent : bool;
  d_fds : list Z;
  d_calls : list cstr
}.

Definition demo_fresh (k : demo_os) : Prop := d_fds k = [3; 4] /\ d_calls k = [] /\ d_sent k = false.
Definition demo_flagged (k : demo_os) : Prop := demo_fresh k /\ d_flag k = true.
Definition demo_has (sent : bool) (fds : list Z) (k : demo_os) : Prop :=
  d_flag k = true /\ d_filter k = true /\ d_sent k = sent /\ d_fds k = fds /\ d_calls k = [].
Definition demo_calling (before : list cstr) (k : demo_os) : Prop :=
  d_filter k = true /\ d_sent k = true /\ d_fds k = [] /\ d_calls k = before.

#[export] Instance demo_os_seccomp : SeccompOS demo_os := {
  os_no_new_privs k := (DemoOS true (d_filter k) (d_sent k) (d_fds k) (d_calls k), inr tt);
  os_set_filter k f := (k, inr tt);
  os_execvp k a := (k, None);
  os_getppid k := k;
  os_calloc k n := (k, true);
  os_open_file k p := (k, inl 2);
  os_fstat_size k fd := (k, inl 2);
  os_malloc k n := (k, true);
  os_read_insns k fd n := (k, (0, []));
  os_close_fd k fd :=
    match d_fds k with
    | x :: l => if x =? fd then (DemoOS (d_flag k) (d_filter k) (d_sent k) l (d_calls k), inr tt) else (k, inl 9)
    | [] => (k, inl 9)
    end
}.
#[export] Instance demo_os_scm : ScmOS demo_os := {
  os_sendmsg k sock n c := (DemoOS (d_flag k) (d_filter k) true (d_fds k) (d_calls k), inr 4);
  os_recvmsg k sock room := (k, inl 11)
}.
#[export] Instance demo_os_target : TargetOS demo_os := {
  os_socketpair k := (k, inr (3, 4));
  os_fork k := (k, inr 0);
  os_getpid k := (k, 100);
  os_sigaction k sig := (k, inr tt);
  os_listener k f :=
    if d_flag k then (DemoOS true true (d_sent k) (5 :: d_fds k) (d_calls k), inr 5) else (k, inl 13);
  os_mkdir_call k p mode :=
    (DemoOS (d_flag k) (d_filter k) (d_sent k) (d_fds k) (d_calls k ++ [p]), inr (strlen p));
  os_write k fd t := (k, inr (strlen t))
}.
#[export] Instance demo_os_text : ErrnoText := {| MAX_ENAME := 0; ename _ := []; strerror _ := [] |}.

Lemma demo_target_rules :
  target_rules notify_filter (3, 4) demo_fresh demo_flagged (demo_has false) (demo_has true) demo_calling.
Proof.
  split; unfold demo_flagged, demo_fresh, demo_has, demo_calling.
  - done.
  - by intros k k' (H1 & H2 & H3) [= <-].
  - intros [[] fi se fds ca] k' fd [(H1 & H2 & H3) H4] Hl; by simplify_eq/=.
  - intros [fl fi se fds ca] k' fd rest n (H1 & H2 & H3 & H4 & H5) Hl. by simplify_eq/=.
  - intros [fl fi se fds ca] k' fd rest (H1 & H2 & H3 & H4 & H5) Hl. simplify_eq/=.
    rewrite Z.eqb_refl in Hl. by simplify_eq/=.
  - by intros k (H1 & H2 & H3 & H4 & H5).
Qed.

Lemma mkdir_target_calls_witness :
  wp (mkdir_target (CmdLineOpts 0 (-1)) [lit "/tmp/a"; lit "./b"] (3, 4)) (fun _ _ => False)
    (fun e s' => e = EXIT_SUCCESS -> demo_calling [lit "/tmp/a"; lit "./b"] (kern s'))
    (Proc (DemoOS false false false [3; 4] []) 0 None [] [] []).
Proof.
  apply (mkdir_target_calls (CmdLineOpts 0 (-1)) [lit "/tmp/a"; lit "./b"] (3, 4) demo_fresh demo_flagged
    (demo_has false) (demo_has true) demo_calling).
  - apply demo_target_rules.
  - by intros k k' sig r H [= <- _].
  - by intros k k' fds r H [= <- _].
  - intros [fl fi se fds ca] k' before p r (H1 & H2 & H3 & H4) Hk. by simplify_eq/=.
  - done.
Defined.

(** The whole run, with the value that each call returns. *)
Example target_of_two :
  exists s', mkdir_target (CmdLineOpts 0 (-1)) [lit "a"; lit "bc"] (3, 4)
      (Proc (DemoOS false false false [3; 4] []) 0 None [] [] []) = Exit EXIT_SUCCESS s' /\
    kern s' = DemoOS true true true [] [lit "a"; lit "bc"].
Proof. eexists. split; [vm_compute; reflexivity|by vm_compute]. Qed.
