(* ===== verification/SeccompOpenat.v ===== *)
(** seccomp_unotify_openat.c (src/tlpi-dist/seccomp): a supervisor that opens
    files for its target and passes the descriptors on, and its target. What it
    shares with seccomp_unotify_mkdir.c is in SeccompNotify and SeccompTarget.

    The supervisor's progress messages are left out. *)
From Stdlib Require Import ZArith Lia Ascii String.
From stdpp Require Import base tactics list strings.
From S2P Require Import Prelude CString Process SeccompBpf SeccompPolicy SeccompPrograms SeccompNotify.
From S2P Require Import SeccompSupervisor ScmFunctions SeccompTarget.
#[local] Open Scope Z_scope.

Definition AT_FDCWD : Z := -100.
Definition O_CLOEXEC : Z := 524288.
Definition SECCOMP_ADDFD_FLAG_SETFD : Z := 1.

Record seccomp_notif_addfd := AddFd {
  a_id : Z;
  a_flags : Z;
  a_srcfd : Z;
  a_newfd : Z;
  a_newfd_flags : Z
}.

(** openat(), read() and the ioctl() that adds a descriptor to the target. *)
Class OpenatOS (K : Type) := {
  os_openat : K -> Z -> cstr -> Z -> Z -> K * (Z + Z);
  os_read : K -> Z -> Z -> K * (Z + list ascii);
  os_addfd : K -> Z -> seccomp_notif_addfd -> K * (Z + Z)
}.

(** The array in [installNotifyFilter]. *)
Definition openat_notify_filter : list sock_filter :=
  check_x86_64 ++
  [BPF_JUMP JEQ_K NR_openat 0 1;
   BPF_STMT RET_K SECCOMP_RET_USER_NOTIF;
   BPF_STMT RET_K SECCOMP_RET_ALLOW].

Section Code.
Context `{ET : ErrnoText} {K : Type} `{SO : SeccompOS K, SM : ScmOS K, NO : NotifyOS K, TO : TargetOS K, OO : OpenatOS K}.
Abbreviation PM := (M (proc K)).

(** ** The supervisor *)

(** The response to a request; a file that could be opened is added to the
    target's descriptors. *)
Definition openat_respond (req : seccomp_notif) (notifyFd pathStatus : Z) (path : buffer) :
    PM seccomp_notif_resp :=
  let arg n := default 0 (req_args req !! n) in
  let resp val error := Resp (req_id req) val error 0 in
  if negb (pathStatus =? 0) then ret (resp 0 (- EINVAL))
  else
    match c_string path with
    | None => undef
    | Some name =>
        let! fd := syscall (fun k =>
          os_openat k (to_signed 32 (arg 0%nat)) name (to_signed 32 (arg 2%nat)) (to_unsigned 32 (arg 3%nat))) in
        match fd with
        | Some fd =>
            let addfd := AddFd (req_id req) SECCOMP_ADDFD_FLAG_SETFD fd (to_unsigned 32 (42 + fd)) O_CLOEXEC in
            let! remoteFd := syscall (fun k => os_addfd k notifyFd addfd) in
            match remoteFd with
            | None => errExit (lit "SECCOMP_IOCTL_NOTIF_ADDFD")
            | Some remoteFd =>
                syscall (fun k => os_close_fd k fd) ;;;
                ret (resp remoteFd 0)
            end
        | None => let! s := get in ret (resp 0 (- errno s))
        end
    end.

(** One turn of the loop in [handleNotifications]: the buffer for the next. *)
Definition openat_turn (notifyFd : Z) (path : buffer) : PM buffer :=
  let! r := syscall (fun k => os_recv k notifyFd) in
  match r with
  | None =>
      let! s := get in
      if errno s =? EINTR then ret path else errExit (lit "ioctl-SECCOMP_IOCTL_NOTIF_RECV")
  | Some req =>
      if negb (req_nr req =? NR_openat) then exit3 EXIT_FAILURE
      else
        let! (pathStatus, path) := getTargetPathname req notifyFd 1 path PATH_MAX in
        let! resp := openat_respond req notifyFd pathStatus path in
        syscall (fun k => os_send k notifyFd resp) ;;;
        ret path
  end.

(** The loop, for at most [turns] turns. *)
Fixpoint openat_loop (turns : nat) (notifyFd : Z) (path : buffer) : PM unit :=
  match turns with
  | O => ret tt
  | S turns =>
      let! path := openat_turn notifyFd path in
      openat_loop turns notifyFd path
  end.

Definition openat_handleNotifications (turns : nat) (notifyFd : Z) : PM unit :=
  allocSeccompNotifBuffers ;;;
  openat_loop turns notifyFd (fresh_buffer PATH_MAX).

(** ** The target *)

(** The loop that copies a file to standard output, whether it ends within
    [fuel] reads. *)
Fixpoint copy_loop (fuel : nat) (fd : Z) : PM bool :=
  match fuel with
  | O => ret false
  | S fuel =>
      let! nr := syscall (fun k => os_read k fd 100) in
      match nr with
      | None | Some [] => ret true
      | Some buf =>
          syscall (fun k => os_write k 1 buf) ;;;
          copy_loop fuel fd
      end
  end.

(** A file that does not end within [fuel] reads is [undef] here. *)
Definition openat_call (fuel : nat) (ap : cstr) : PM unit :=
  say (NEWLINE :: lit "T: about to openat(" ++ QUOTE :: ap ++ QUOTE :: lit ")" ++ [NEWLINE]) ;;;
  let! fd := syscall (fun k => os_openat k AT_FDCWD ap (Z.lor O_CREAT O_RDWR) 384) in
  match fd with
  | None => perror (lit "T: ERROR: openat(2)")
  | Some fd =>
      say (lit "T: SUCCESS: openat(2) returned " ++ show_Z fd ++ [NEWLINE]) ;;;
      let! ended := copy_loop fuel fd in
      if negb ended then undef
      else
        syscall (fun k => os_write k 1 (lit "==========" ++ [NEWLINE])) ;;;
        syscall (fun k => os_close_fd k fd) ;;;
        ret tt
  end.

Definition openat_target (fuel : nat) (argv : list cstr) (sockPair : Z * Z) : PM unit :=
  target_child (ret tt) openat_notify_filter (ret tt) (openat_call fuel) sockPair argv.

Definition openat_main (turns fuel : nat) (argv : list cstr) : PM unit :=
  unotify_main (openat_target fuel (drop 1 argv)) (openat_handleNotifications turns).

End Code.

(** ** The filter *)

(** The filter asks the supervisor about openat from the native architecture,
    allows every other call of it, and kills what comes from another. *)
Lemma openat_notify_run `{BpfLaws} d :
  bpf_run openat_notify_filter d = Some (
    if negb (native d) then SECCOMP_RET_KILL_PROCESS
    else if nr d =? NR_openat then SECCOMP_RET_USER_NOTIF else SECCOMP_RET_ALLOW).
Proof.
  unfold openat_notify_filter at 1. rewrite check_x86_64_run. fold openat_notify_filter.
  destruct (native d); simpl negb; [|done]. cbn iota. erewrite exec_jeq by reflexivity.
  destruct (nr d =? NR_openat); by erewrite exec_ret by reflexivity.
Qed.

(** ** The order of the supervisor's calls *)

Section Supervisor.
Context `{ET : ErrnoText} {K : Type} `{SO : SeccompOS K, SM : ScmOS K, NO : NotifyOS K, TO : TargetOS K, OO : OpenatOS K}.
Implicit Types (s : proc K).

(** Beyond fetching the pathname: [holding id fd], the supervisor has a file
    open for request [id]; [added id fd n], the target has it as descriptor [n];
    [granted id n], the supervisor has closed its own. An answer without a
    descriptor carries an error and no value, one with it carries its number
    and no error. *)
Record granting (idle : K -> Prop) (waiting : Z -> K -> Prop) (reading holding : Z -> Z -> K -> Prop)
    (added : Z -> Z -> Z -> K -> Prop) (granted : Z -> Z -> K -> Prop) : Prop := {
  gr_fetching :> fetching idle waiting reading;
  gr_sizes k k' r : idle k -> os_notif_sizes k = (k', r) -> idle k';
  gr_alloc k n : idle k -> exists k', os_notif_alloc k n = (k', true) /\ idle k';
  gr_open id k d p flags mode k' fd : waiting id k -> os_openat k d p flags mode = (k', inr fd) -> holding id fd k';
  gr_open_error id k d p flags mode k' e :
    waiting id k -> os_openat k d p flags mode = (k', inl e) -> 0 < e /\ waiting id k';
  gr_add id fd k nfd a k' n : holding id fd k ->
    a_id a = id -> a_srcfd a = fd -> a_flags a = SECCOMP_ADDFD_FLAG_SETFD ->
    os_addfd k nfd a = (k', inr n) -> added id fd n k';
  gr_add_error id fd k nfd a k' e : holding id fd k -> os_addfd k nfd a = (k', inl e) -> holding id fd k';
  gr_close id fd n k k' r : added id fd n k -> os_close_fd k fd = (k', r) -> granted id n k';
  gr_refuse k fd a k' r : waiting (resp_id a) k -> resp_error a < 0 -> resp_val a = 0 -> resp_flags a = 0 ->
    os_send k fd a = (k', r) -> idle k';
  gr_grant k fd a k' r : granted (resp_id a) (resp_val a) k -> resp_error a = 0 -> resp_flags a = 0 ->
    os_send k fd a = (k', r) -> idle k'
}.

Context (idle : K -> Prop) (waiting : Z -> K -> Prop) (reading holding : Z -> Z -> K -> Prop).
Context (added : Z -> Z -> Z -> K -> Prop) (granted : Z -> Z -> K -> Prop).
Context (G : granting idle waiting reading holding added granted).
Let F : fetching idle waiting reading := G.

(** A process that ends while it holds a file has failed to pass it on. *)
Definition openat_ended (e : exit_kind) s : Prop :=
  e <> EXIT_SUCCESS /\
  (idle (kern s) \/ (exists id, waiting id (kern s)) \/ exists id fd, holding id fd (kern s)).

Definition answers (a : seccomp_notif_resp) (k : K) : Prop :=
  resp_flags a = 0 /\
  (waiting (resp_id a) k /\ resp_error a < 0 /\ resp_val a = 0 \/
   granted (resp_id a) (resp_val a) k /\ resp_error a = 0).

Lemma wp_openat_respond req fd st path s :
  waiting (req_id req) (kern s) -> (st = 0 -> is_Some (c_string path)) ->
  wp (openat_respond req fd st path) (fun a s' => answers a (kern s')) openat_ended s.
Proof.
  intros Hs Hst. unfold openat_respond. destruct (Z.eqb_spec st 0) as [->|]; simpl negb; cbv iota.
  2: { apply wp_ret. split; [done|]. by left. }
  destruct (Hst eq_refl) as [name ->]. apply wp_bind, wp_syscall; intros k1 r Hk1.
  - destruct (gr_open_error _ _ _ _ _ _ G _ _ _ _ _ _ _ _ Hs Hk1). apply wp_bind, wp_get, wp_ret.
    split; [done|]. left. split_and!; [done|simpl; lia|done].
  - assert (H1 : holding (req_id req) r k1) by by eapply (gr_open _ _ _ _ _ _ G).
    apply wp_bind, wp_syscall; intros k2 n Hk2.
    + apply wp_errExit_fails. intros e s2 He H2. split; [done|]. right. right. exists (req_id req), r.
      rewrite H2. by eapply (gr_add_error _ _ _ _ _ _ G).
    + assert (H2 : added (req_id req) r n k2) by (eapply (gr_add _ _ _ _ _ _ G); [exact H1|..|exact Hk2]; done).
      apply wp_bind, wp_kcall with (P := granted (req_id req) n); [intros; by eapply (gr_close _ _ _ _ _ _ G)|].
      intros _ s3 H3. apply wp_ret. split; [done|]. by right.
Qed.

Lemma wp_openat_turn fd path s :
  idle (kern s) -> wp (openat_turn fd path) (fun _ s' => idle (kern s')) openat_ended s.
Proof.
  intros Hs. apply wp_bind, wp_syscall; intros k1 req Hk.
  { assert (H1 : idle k1) by by eapply (sv_recv_error _ _ _ F). apply wp_bind, wp_get. simpl.
    destruct (_ =? _); [by apply wp_ret|]. apply wp_errExit_fails. intros e s2 He H2.
    split; [done|]. left. by rewrite H2. }
  assert (H1 : waiting (req_id req) k1) by by eapply (sv_recv _ _ _ F).
  destruct (negb _).
  { apply wp_exit3. intros s2 H2. split; [done|]. right. left. exists (req_id req). by rewrite H2. }
  apply wp_bind. eapply wp_mono; [by eapply (wp_getTargetPathname _ _ _ F openat_ended)| |done].
  intros [st path'] s3 (_ & Hst & H3). apply wp_bind. eapply wp_mono; [by apply wp_openat_respond| |done].
  intros a s4 [Hf Ha]. apply wp_bind, wp_kcall with (P := idle); [|intros _ s5 H5; by apply wp_ret].
  intros k' r Hk'. destruct Ha as [(Hw & He & Hv)|[Hg He]];
    [by eapply (gr_refuse _ _ _ _ _ _ G)|by eapply (gr_grant _ _ _ _ _ _ G)].
Qed.

Lemma wp_openat_loop turns fd path s :
  idle (kern s) -> wp (openat_loop turns fd path) (fun _ s' => idle (kern s')) openat_ended s.
Proof.
  revert path s. induction turns as [|turns IH]; intros path s Hs; simpl; [by apply wp_ret|].
  apply wp_seq_inv with (I := fun s => idle (kern s)); [by apply wp_openat_turn|]. intros path' s1 H1. by apply IH.
Qed.

Lemma wp_alloc_buffers s :
  idle (kern s) -> wp allocSeccompNotifBuffers (fun _ s' => idle (kern s')) openat_ended s.
Proof.
  intros Hs. apply wp_bind, wp_syscall; intros k1 r Hk1.
  - assert (H1 : idle k1) by by eapply (gr_sizes _ _ _ _ _ _ G). apply wp_errExit_fails.
    intros e s2 He H2. split; [done|]. left. by rewrite H2.
  - assert (H1 : idle k1) by by eapply (gr_sizes _ _ _ _ _ _ G). destruct r as [n m].
    destruct (gr_alloc _ _ _ _ _ _ G k1 n H1) as (k2 & Hk2 & H2).
    apply wp_bind. unfold wp at 1, syscall_. simpl. rewrite Hk2. simpl.
    apply wp_bind. unfold wp at 1, syscall_. simpl.
    destruct (gr_alloc _ _ _ _ _ _ G k2 (if m <? sizeof_notif_resp then sizeof_notif_resp else m) H2) as (k3 & Hk3 & H3).
    rewrite Hk3. simpl. by apply wp_ret.
Qed.

(** Whatever the target's memory holds, over any number of turns the
    supervisor of seccomp_unotify_openat never goes wrong and answers each
    request once, with its identifier, before it receives the next: with an
    error and no value, or with the number of the descriptor that the target
    was given for the file the supervisor opened for that request, once the
    supervisor has closed its own. It ends only with a failure, and leaves no
    file open but one that it could not pass on. *)
Theorem openat_supervisor_policy (turns : nat) (notifyFd : Z) s :
  idle (kern s) ->
  wp (openat_handleNotifications turns notifyFd) (fun _ s' => idle (kern s')) openat_ended s.
Proof.
  intros Hs. apply wp_seq_inv with (I := fun s => idle (kern s)); [by apply wp_alloc_buffers|].
  intros _ s1 H1. by apply wp_openat_loop.
Qed.

End Supervisor.

(** ** The order of the target's calls *)

Section Target.
Context `{ET : ErrnoText} {K : Type} `{SO : SeccompOS K, SM : ScmOS K, NO : NotifyOS K, TO : TargetOS K, OO : OpenatOS K}.
Implicit Types (s : proc K).

(** A file that the target was given: [reading before fd n], at most [n] reads
    find data in it. *)
Record reading_rules (fuel : nat) (calling : list cstr -> K -> Prop) (reading : list cstr -> Z -> nat -> K -> Prop) :
    Prop := {
  rr_open k before p k' fd : calling before k ->
    os_openat k AT_FDCWD p (Z.lor O_CREAT O_RDWR) 384 = (k', inr fd) ->
    exists n, (n < fuel)%nat /\ reading (before ++ [p]) fd n k';
  rr_open_error k before p k' e : calling before k ->
    os_openat k AT_FDCWD p (Z.lor O_CREAT O_RDWR) 384 = (k', inl e) -> calling (before ++ [p]) k';
  rr_read k before fd n k' c buf : reading before fd n k ->
    os_read k fd 100 = (k', inr (c :: buf)) -> exists m, n = S m /\ reading before fd m k';
  rr_end k before fd n k' r : reading before fd n k -> os_read k fd 100 = (k', r) ->
    (forall c buf, r <> inr (c :: buf)) -> reading before fd n k';
  rr_write k before fd n k' t r : reading before fd n k -> os_write k 1 t = (k', r) -> reading before fd n k';
  rr_close k before fd n k' r : reading before fd n k -> os_close_fd k fd = (k', r) -> calling before k'
}.

Section Calls.
Context (fuel : nat) (calling : list cstr -> K -> Prop) (reading : list cstr -> Z -> nat -> K -> Prop).
Context (R : reading_rules fuel calling reading).

Lemma wp_copy_loop E n before fd m s :
  (n < m)%nat -> reading before fd n (kern s) ->
  wp (copy_loop m fd) (fun b s' => b = true /\ exists n, reading before fd n (kern s')) E s.
Proof.
  revert n s. induction m as [|m IH]; intros n s Hn Hs; [lia|]. simpl. apply wp_bind, wp_syscall; intros k r Hk.
  - apply wp_ret. split; [done|]. exists n. by eapply (rr_end _ _ _ R).
  - destruct r as [|c buf]; [apply wp_ret; split; [done|]; exists n; by eapply (rr_end _ _ _ R)|].
    destruct (rr_read _ _ _ R _ _ _ _ _ _ _ Hs Hk) as (n' & -> & H1).
    apply wp_bind, wp_kcall with (P := reading before fd n'); [intros; by eapply (rr_write _ _ _ R)|].
    intros _ s2 H2. apply IH with (n := n'); [lia|done].
Qed.

Lemma wp_openat_call E before ap s :
  calling before (kern s) ->
  wp (openat_call fuel ap) (fun _ s' => calling (before ++ [ap]) (kern s')) E s.
Proof.
  intros Hs. apply wp_bind, wp_say. intros s1 H1.
  apply wp_bind, wp_syscall; intros k fd Hk; rewrite H1 in Hk.
  - apply wp_perror. intros s2 ->. by eapply (rr_open_error _ _ _ R).
  - destruct (rr_open _ _ _ R _ _ _ _ _ Hs Hk) as (n & Hn & H2). apply wp_bind, wp_say. intros s2 H3.
    apply wp_bind. eapply wp_mono; [apply (wp_copy_loop E n (before ++ [ap])); [done|by rewrite H3]| |done].
    intros b s3 [-> [m H4]]. simpl.
    apply wp_bind, wp_kcall with (P := reading (before ++ [ap]) fd m); [intros; by eapply (rr_write _ _ _ R)|].
    intros _ s4 H5. apply wp_bind, wp_kcall with (P := calling (before ++ [ap])); [intros; by eapply (rr_close _ _ _ R)|].
    intros _ s5 H6. by apply wp_ret.
Qed.

End Calls.

(** The target of seccomp_unotify_openat never returns, and when each file
    it is given ends after fewer than [fuel] reads, it ends successfully only
    after it has sent the descriptor of its filter, closed every descriptor of
    its own, and called openat once for each argument, in order, closing each
    file it got before the next call. *)
Theorem openat_target_calls (fuel : nat) (argv : list cstr) (sockPair : Z * Z) (begun flagged : K -> Prop)
    (filtered passed : list Z -> K -> Prop) (calling : list cstr -> K -> Prop)
    (reading : list cstr -> Z -> nat -> K -> Prop) s :
  target_rules openat_notify_filter sockPair begun flagged filtered passed calling ->
  reading_rules fuel calling reading -> begun (kern s) ->
  wp (openat_target fuel argv sockPair) (fun _ _ => False)
    (fun e s' => e = EXIT_SUCCESS -> calling argv (kern s')) s.
Proof.
  intros G R Hs. eapply wp_target_child; [done|..|done].
  - intros s1 H1. by apply wp_ret.
  - intros fds s1 H1. by apply wp_ret.
  - intros before ap s1 H1. by eapply wp_openat_call.
Qed.

End Target.

(** ** Kernels *)

(** The stages of a supervisor that always succeeds. *)
Inductive demo_stage :=
| Idle
| Waiting (id : Z)
| Reading (id m : Z)
| Holding (id fd : Z)
| Added (id fd n : Z)
| Granted (id n : Z).

#[export] Instance demo_stage_notify : NotifyOS demo_stage := {
  os_notif_sizes k := (k, inr (80, 24));
  os_notif_alloc k n := (k, true);
  os_recv k fd :=
    match k with Idle => (Waiting 7, inr (Notif 7 1 NR_openat [AT_FDCWD; 0; 66; 384])) | _ => (k, inl EINVAL) end;
  os_id_valid k fd id := (k, inr tt);
  os_open_mem k pid := match k with Waiting id => (Reading id 5, inr 5) | _ => (k, inl 2) end;
  os_pread k fd len off := (k, inr (lit "/etc/motd" ++ [NUL]));
  os_close_mem k fd := (match k with Reading id m => Waiting id | _ => k end, inr tt);
  os_send k fd a := (Idle, inr tt)
}.
#[export] Instance demo_stage_seccomp : SeccompOS demo_stage := {
  os_no_new_privs k := (k, inr tt);
  os_set_filter k f := (k, inr tt);
  os_execvp k a := (k, None);
  os_getppid k := k;
  os_calloc k n := (k, true);
  os_open_file k p := (k, inl 2);
  os_fstat_size k fd := (k, inl 2);
  os_malloc k n := (k, true);
  os_read_insns k fd n := (k, (0, []));
  os_close_fd k fd := (match k with Added id fd n => Granted id n | _ => k end, inr tt)
}.
#[export] Instance demo_stage_openat : OpenatOS demo_stage := {
  os_openat k d p flags mode := match k with Waiting id => (Holding id 6, inr 6) | _ => (k, inl 2) end;
  os_read k fd n := (k, inr []);
  os_addfd k nfd a :=
    match k with Holding id fd => (Added id fd (a_newfd a), inr (a_newfd a)) | _ => (k, inl 2) end
}.

Lemma demo_granting :
  granting (fun k => k = Idle) (fun id k => k = Waiting id) (fun id m k => k = Reading id m)
    (fun id fd k => k = Holding id fd) (fun id fd n k => k = Added id fd n) (fun id n k => k = Granted id n).
Proof.
  split; [split|..]; intros; simplify_eq/=; try done.
  by eexists.
Qed.

Lemma openat_supervisor_policy_witness :
  wp (openat_handleNotifications 2 3) (fun _ s' => kern s' = Idle)
    (openat_ended (fun k => k = Idle) (fun id k => k = Waiting id) (fun id fd k => k = Holding id fd))
    (Proc Idle 0 None [] [] []).
Proof. by apply (openat_supervisor_policy _ _ _ _ _ _ demo_granting 2 3). Defined.

(** One turn: the target gets descriptor 42 + 6. *)
Example one_request :
  exists path s1 s2, getTargetPathname (Notif 7 1 NR_openat [AT_FDCWD; 0; 66; 384]) 3 1 (fresh_buffer PATH_MAX) PATH_MAX
      (Proc (Waiting 7) 0 None [] [] []) = Ret (0, path) s1 /\
    openat_respond (Notif 7 1 NR_openat [AT_FDCWD; 0; 66; 384]) 3 0 path s1 = Ret (Resp 7 48 0 0) s2 /\
    kern s2 = Granted 7 48.
Proof. eexists _, _, _. split; [vm_compute; reflexivity|]. split; by vm_compute. Qed.

(** A target whose call is interrupted before its descriptor is added: the
    supervisor ends, where a failure to send the response would only be
    reported. *)
Definition gone_openat : OpenatOS demo_stage := {|
  os_openat k d p flags mode := match k with Waiting id => (Holding id 6, inr 6) | _ => (k, inl 2) end;
  os_read k fd n := (k, inr []);
  os_addfd k nfd a := (k, inl 2)
|}.
Example interrupted_target_ends_supervisor :
  exists s', openat_handleNotifications (OO := gone_openat) 1 3 (Proc Idle 0 None [] [] []) = Exit EXIT_FAILURE s' /\
    kern s' = Holding 7 6.
Proof. eexists. split; [vm_compute; reflexivity|by vm_compute]. Qed.

(** The target's kernel, whose files hold two bytes; [d_flag] is whether they
    are still to be read. *)
#[export] Instance demo_os_openat : OpenatOS demo_os := {
  os_openat k d p flags mode := (DemoOS true (d_filter k) (d_sent k) (48 :: d_fds k) (d_calls k ++ [p]), inr 48);
  os_read k fd n :=
    (DemoOS false (d_filter k) (d_sent k) (d_fds k) (d_calls k), inr (if d_flag k then lit "hi" else []));
  os_addfd k nfd a := (k, inl 2)
}.

Definition demo_reading (before : list cstr) (fd : Z) (n : nat) (k : demo_os) : Prop :=
  d_filter k = true /\ d_sent k = true /\ d_fds k = [fd] /\ d_calls k = before /\ n = (if d_flag k then 1 else 0)%nat.

Lemma demo_reading_rules : reading_rules 2 demo_calling demo_reading.
Proof.
  split; unfold demo_calling, demo_reading.
  - intros [fl fi se fds ca] before p k' fd (H1 & H2 & H3 & H4) Hk. simplify_eq/=. exists 1%nat. split; [lia|done].
  - intros [fl fi se fds ca] before p k' e (H1 & H2 & H3 & H4) Hk. by simplify_eq/=.
  - intros [[] fi se fds ca] before fd n k' c buf (H1 & H2 & H3 & H4 & H5) Hk; simplify_eq/=. by exists 0%nat.
  - intros [[] fi se fds ca] before fd n k' r (H1 & H2 & H3 & H4 & H5) Hk Hr; simplify_eq/=; [by edestruct Hr|done].
  - intros [fl fi se fds ca] before fd n k' t r H Hk. by simplify_eq/=.
  - intros [fl fi se fds ca] before fd n k' r (H1 & H2 & H3 & H4 & H5) Hk. simplify_eq/=.
    rewrite Z.eqb_refl in Hk. by simplify_eq/=.
Qed.

Lemma demo_openat_target_rules :
  target_rules openat_notify_filter (3, 4) demo_fresh demo_flagged (demo_has false) (demo_has true) demo_calling.
Proof. destruct demo_target_rules as [H1 H2 H3 H4 H5 H6]. by split. Qed.

Lemma openat_target_calls_witness :
  wp (openat_target 2 [lit "a"; lit "b"] (3, 4)) (fun _ _ => False)
    (fun e s' => e = EXIT_SUCCESS -> demo_calling [lit "a"; lit "b"] (kern s'))
    (Proc (DemoOS false false false [3; 4] []) 0 None [] [] []).
Proof.
  by apply (openat_target_calls 2 [lit "a"; lit "b"] (3, 4) demo_fresh demo_flagged (demo_has false) (demo_has true)
    demo_calling demo_reading _ demo_openat_target_rules demo_reading_rules).
Defined.
