(* ===== verification/FdIo.v ===== *)
(** Reading and writing through file descriptors (src/tlpi-dist/sockets):
    readn and writen of rdwrn.c, readLine of read_line.c and readLineBuf of
    read_line_buf.c.

    Loops that wait for input take fuel, a bound on the number of their turns;
    [None] is a loop that is not finished. What has been stored through the
    pointer [buf] is a list of bytes. Counts are returned as [ssize_t]. *)
From Stdlib Require Import ZArith Lia Ascii String.
From stdpp Require Import base tactics list strings.
From S2P Require Import Prelude CString Process.
#[local] Open Scope Z_scope.

(** [read] gives the bytes read, at most as many as asked for, and none at the
    end of the input; [write] the number of bytes written. *)
Class ByteIO (K : Type) := {
  os_read : K -> Z -> Z -> K * (Z + list ascii);
  os_write : K -> Z -> list ascii -> K * (Z + Z)
}.

(** The line buffer of read_line_buf.h: [rl_buf] is what the last [read]
    stored. *)
Definition RL_MAX_BUF : Z := 10.
Record ReadLineBuf := RL {
  rl_fd : Z;
  rl_buf : list ascii;
  rl_next : Z;
  rl_len : Z
}.

Section Code.
Context {K : Type} {IO : ByteIO K}.
Abbreviation PM := (M (proc K)).

(** ** rdwrn.c *)

Definition ssize (n : Z) : Z := to_signed 64 n.

(** The returned count and the bytes stored. *)
Fixpoint readn_loop (fuel : nat) (fd n : Z) (buf : list ascii) : PM (option (Z * list ascii)) :=
  match fuel with
  | O => ret None
  | S fuel =>
      let totRead := Z.of_nat (length buf) in
      if totRead <? n then
        let! numRead := syscall (fun k => os_read k fd (n - totRead)) in
        match numRead with
        | Some [] => ret (Some (ssize totRead, buf))
        | None =>
            let! s := get in
            if errno s =? EINTR then readn_loop fuel fd n buf else ret (Some (-1, buf))
        | Some bytes => readn_loop fuel fd n (buf ++ bytes)
        end
      else ret (Some (ssize totRead, buf))
  end.

Definition readn (fuel : nat) (fd n : Z) : PM (option (Z * list ascii)) := readn_loop fuel fd n [].

Fixpoint writen_loop (fuel : nat) (fd : Z) (buffer : list ascii) (totWritten : nat) :
    PM (option Z) :=
  match fuel with
  | O => ret None
  | S fuel =>
      if (totWritten <? length buffer)%nat then
        let! numWritten := syscall (fun k => os_write k fd (drop totWritten buffer)) in
        match numWritten with
        | None =>
            let! s := get in
            if errno s =? EINTR then writen_loop fuel fd buffer totWritten else ret (Some (-1))
        | Some numWritten =>
            if numWritten <=? 0 then ret (Some (-1))
            else writen_loop fuel fd buffer (totWritten + Z.to_nat numWritten)
        end
      else ret (Some (ssize (Z.of_nat totWritten)))
  end.

Definition writen (fuel : nat) (fd : Z) (buffer : list ascii) : PM (option Z) :=
  writen_loop fuel fd buffer 0.

(** ** read_line.c *)

Fixpoint readLine_loop (fuel : nat) (fd n : Z) (buf : list ascii) :
    PM (option (Z * list ascii)) :=
  match fuel with
  | O => ret None
  | S fuel =>
      let totRead := Z.of_nat (length buf) in
      let! numRead := syscall (fun k => os_read k fd 1) in
      match numRead with
      | None =>
          let! s := get in
          if errno s =? EINTR then readLine_loop fuel fd n buf else ret (Some (-1, buf))
      | Some [] =>
          if totRead =? 0 then ret (Some (0, buf)) else ret (Some (ssize totRead, buf ++ [NUL]))
      | Some (ch :: _) =>
          let buf := if totRead <? n - 1 then buf ++ [ch] else buf in
          if bool_decide (ch = NEWLINE) then ret (Some (ssize (Z.of_nat (length buf)), buf ++ [NUL]))
          else readLine_loop fuel fd n buf
      end
  end.

(** [null] is [buffer == NULL]; [n] is unsigned. *)
Definition readLine (fuel : nat) (fd n : Z) (null : bool) : PM (option (Z * list ascii)) :=
  if (n <=? 0) || null then modify (set_errno EINVAL) ;;; ret (Some (-1, []))
  else readLine_loop fuel fd n [].

(** ** read_line_buf.c *)

Definition readLineBufInit (fd : Z) : ReadLineBuf := RL fd [] 0 0.

(** Refilling an empty buffer: what [readLineBuf] does next. *)
Inductive refill := Refilled | RefillError | EndOfFile.

Definition refill_buffer (rl : ReadLineBuf) : PM (refill * ReadLineBuf) :=
  if rl_len rl <=? rl_next rl then
    let! r := syscall (fun k => os_read k (rl_fd rl) RL_MAX_BUF) in
    match r with
    | None => ret (RefillError, RL (rl_fd rl) (rl_buf rl) (rl_next rl) (-1))
    | Some [] => ret (EndOfFile, RL (rl_fd rl) (rl_buf rl) (rl_next rl) 0)
    | Some bytes => ret (Refilled, RL (rl_fd rl) bytes 0 (Z.of_nat (length bytes)))
    end
  else ret (Refilled, rl).

Fixpoint readLineBuf_loop (fuel : nat) (rl : ReadLineBuf) (n : Z) (buffer : list ascii) :
    PM (option (Z * list ascii * ReadLineBuf)) :=
  match fuel with
  | O => ret None
  | S fuel =>
      let! (r, rl) := refill_buffer rl in
      match r with
      | RefillError => ret (Some (-1, buffer, rl))
      | EndOfFile => ret (Some (ssize (Z.of_nat (length buffer)), buffer, rl))
      | Refilled =>
          match rl_buf rl !! Z.to_nat (rl_next rl) with
          | None => undef
          | Some c =>
              let rl := RL (rl_fd rl) (rl_buf rl) (rl_next rl + 1) (rl_len rl) in
              let cnt := Z.of_nat (length buffer) in
              let buffer := if cnt <? n then buffer ++ [c] else buffer in
              if bool_decide (c = NEWLINE) then ret (Some (ssize (Z.of_nat (length buffer)), buffer, rl))
              else readLineBuf_loop fuel rl n buffer
          end
      end
  end.

Definition readLineBuf (fuel : nat) (rl : ReadLineBuf) (n : Z) (null : bool) :
    PM (option (Z * list ascii * ReadLineBuf)) :=
  if (n <=? 0) || null then modify (set_errno EINVAL) ;;; ret (Some (-1, [], rl))
  else readLineBuf_loop fuel rl n [].

End Code.
