(* ===== verification/FdIoProps.v ===== *)
(** What the input and output functions do with every stream of bytes,
    however the kernel splits and interrupts it. *)
From Stdlib Require Import ZArith Lia Ascii String.
From stdpp Require Import base tactics list strings.
From S2P Require Import Prelude CString Process FdIo.
#[local] Open Scope Z_scope.

(** A descriptor as a stream: the bytes still to come, the bytes already
    written, and a bound on the signals that still interrupt a call. *)
Class ByteStream (K : Type) {IO : ByteIO K} (fd : Z) := {
  pending : K -> list ascii;
  written : K -> list ascii;
  interrupts : K -> nat;
  bs_read n k k' bytes : 0 < n -> os_read k fd n = (k', inr bytes) ->
    Z.of_nat (length bytes) <= n /\ pending k = bytes ++ pending k' /\
    (bytes = [] -> pending k = []) /\ (interrupts k' <= interrupts k)%nat;
  bs_read_error n k k' e : os_read k fd n = (k', inl e) ->
    pending k' = pending k /\ (interrupts k' <= interrupts k)%nat /\
    (e = EINTR -> (interrupts k' < interrupts k)%nat);
  bs_write bytes k k' m : os_write k fd bytes = (k', inr m) ->
    0 <= m <= Z.of_nat (length bytes) /\
    written k' = written k ++ take (Z.to_nat m) bytes /\ (interrupts k' <= interrupts k)%nat;
  bs_write_error bytes k k' e : os_write k fd bytes = (k', inl e) ->
    written k' = written k /\ (interrupts k' <= interrupts k)%nat /\
    (e = EINTR -> (interrupts k' < interrupts k)%nat)
}.

Definition SSIZE_MAX : Z := 2 ^ 63 - 1.

Lemma ssize_small n : 0 <= n <= SSIZE_MAX -> ssize n = n.
Proof. unfold SSIZE_MAX. intros Hn. apply to_signed_small; lia. Qed.

(** The first line of some bytes, with its newline if there is one. *)
Fixpoint line_of (l : list ascii) : list ascii :=
  match l with
  | [] => []
  | c :: l => if bool_decide (c = NEWLINE) then [c] else c :: line_of l
  end.

Lemma line_of_app taken rest : NEWLINE ∉ taken -> line_of (taken ++ rest) = taken ++ line_of rest.
Proof.
  induction taken as [|c taken IH]; [done|]. intros [Hc Ht]%not_elem_of_cons. simpl.
  rewrite bool_decide_eq_false_2 by done. by rewrite IH.
Qed.

Lemma line_of_newline rest : line_of (NEWLINE :: rest) = [NEWLINE].
Proof. done. Qed.

Lemma not_in_snoc taken c : NEWLINE ∉ taken -> c <> NEWLINE -> NEWLINE ∉ taken ++ [c].
Proof. intros Ht Hc [?|Hx%list_elem_of_singleton]%elem_of_app; [done|]. by apply Hc. Qed.

(** A bounded buffer takes the next byte of a line. *)
Lemma take_snoc n (taken : list ascii) c : 0 <= n ->
  (if Z.of_nat (length (take (Z.to_nat n) taken)) <? n then take (Z.to_nat n) taken ++ [c]
   else take (Z.to_nat n) taken) = take (Z.to_nat n) (taken ++ [c]).
Proof.
  intros Hn. rewrite length_take. destruct (Z.ltb_spec (Z.of_nat (Z.to_nat n `min` length taken)) n).
  - rewrite !take_ge by (rewrite ?length_app; simpl; lia). done.
  - by rewrite take_app_le by lia.
Qed.

Section Streams.
Context {K : Type} {IO : ByteIO K} (fd : Z) {BS : ByteStream K fd}.
Implicit Types (s : proc K).

Definition never (_ : exit_kind) s : Prop := False.

(** Waiting for input or output: the turns still to come. *)
Lemma wp_readn_loop fuel n buf s :
  (Z.to_nat (n - Z.of_nat (length buf)) + interrupts (kern s) < fuel)%nat -> n <= SSIZE_MAX ->
  Z.of_nat (length buf) <= n ->
  wp (readn_loop fuel fd n buf) (fun r s' => exists v more,
      r = Some (v, buf ++ more) /\ pending (kern s) = more ++ pending (kern s') /\
      Z.of_nat (length (buf ++ more)) <= n /\
      (v = Z.of_nat (length (buf ++ more)) /\ (v = n \/ pending (kern s') = []) \/
       v = -1 /\ errno s' <> EINTR)) never s.
Proof.
  revert buf s. induction fuel as [|fuel IH]; intros buf s Hf Hn Hl; [lia|]. simpl.
  assert (Hss : ssize (Z.of_nat (length buf)) = Z.of_nat (length buf)) by (apply ssize_small; lia).
  destruct (Z.ltb_spec (Z.of_nat (length buf)) n) as [Hlt|Hge].
  - apply wp_bind, wp_syscall; intros k x Hx.
    + destruct (bs_read_error _ _ _ _ Hx) as (Hp & Hi & He). apply wp_bind, wp_get. simpl.
      destruct (Z.eqb_spec x EINTR) as [->|Hne].
      * eapply wp_mono; [apply IH; simpl; [|done..]|simpl; by rewrite Hp|done]. specialize (He eq_refl). lia.
      * apply wp_ret. exists (-1), []. rewrite app_nil_r. simpl. rewrite Hp. split_and!; [done|done|lia|by right].
    + assert (Hpos : 0 < n - Z.of_nat (length buf)) by lia.
      destruct (bs_read _ _ _ _ Hpos Hx) as (Hlen & Hp & Hnil & Hi).
      destruct x as [|c x].
      * apply wp_ret. exists (Z.of_nat (length buf)), []. rewrite Hss, app_nil_r. simpl in *.
        split_and!; [done|done|lia|]. left. split; [done|]. right. rewrite <-Hp. by apply Hnil.
      * eapply wp_mono; [apply (IH (buf ++ c :: x)); rewrite ?length_app; simpl in *; lia| |done].
        intros r s' (v & more & -> & Hp' & Hl' & Hv). exists v, ((c :: x) ++ more).
        simpl kern in Hp'. rewrite app_assoc. split_and!; [done| |done|done].
        by rewrite Hp, Hp', <-app_assoc.
  - apply wp_ret. exists (Z.of_nat (length buf)), []. rewrite Hss, app_nil_r. simpl.
    split_and!; [done..|]. left. split; [done|]. left. lia.
Qed.

(** C11: However the kernel splits the input and however many signals
    interrupt it, [readn] returns: with the next [n] bytes of the input, with
    all that is left of it, or with -1 and an error that is not an
    interruption; it consumes what it stores, and stores at most [n]
    bytes. *)
Theorem readn_reads (fuel : nat) (n : Z) s :
  0 <= n <= SSIZE_MAX -> (Z.to_nat n + interrupts (kern s) < fuel)%nat ->
  exists v buf s', readn fuel fd n s = Ret (Some (v, buf)) s' /\
    pending (kern s) = buf ++ pending (kern s') /\ Z.of_nat (length buf) <= n /\
    (v = Z.of_nat (length buf) /\ (v = n \/ pending (kern s') = []) \/
     v = -1 /\ errno s' <> EINTR).
Proof.
  intros Hn Hf. destruct (wp_run (readn fuel fd n) _ never s (wp_readn_loop fuel n [] s
    ltac:(simpl; lia) ltac:(lia) ltac:(simpl; lia))) as [(r & s' & Hr & v & more & -> & H)|(k & s' & _ & [])].
  by exists v, more, s'.
Qed.

Lemma wp_writen_loop fuel buffer m s :
  (length buffer - m + interrupts (kern s) < fuel)%nat -> Z.of_nat (length buffer) <= SSIZE_MAX ->
  (m <= length buffer)%nat ->
  wp (writen_loop fuel fd buffer m) (fun r s' => exists v m',
      r = Some v /\ (m <= m' <= length buffer)%nat /\
      written (kern s') = written (kern s) ++ drop m (take m' buffer) /\
      (v = Z.of_nat (length buffer) /\ m' = length buffer \/ v = -1 /\ (m' < length buffer)%nat))
    never s.
Proof.
  revert m s. induction fuel as [|fuel IH]; intros m s Hf Hn Hl; [lia|]. simpl.
  destruct (Nat.ltb_spec m (length buffer)) as [Hlt|Hge].
  - apply wp_bind, wp_syscall; intros k x Hx.
    + destruct (bs_write_error _ _ _ _ Hx) as (Hw & Hi & He). apply wp_bind, wp_get. simpl.
      destruct (Z.eqb_spec x EINTR) as [->|Hne].
      * eapply wp_mono; [apply IH; simpl; [|done..]|simpl; by rewrite Hw|done]. specialize (He eq_refl). lia.
      * apply wp_ret. exists (-1), m. simpl. rewrite Hw, drop_ge by (rewrite length_take; lia).
        rewrite app_nil_r. split_and!; [done|lia|lia|done|by right].
    + destruct (bs_write _ _ _ _ Hx) as ([Hx0 Hx1] & Hw & Hi). rewrite length_drop in Hx1.
      destruct (Z.leb_spec x 0).
      * apply wp_ret. exists (-1), m. simpl. replace x with 0 in Hw by lia.
        change (Z.to_nat 0) with 0%nat in Hw. rewrite take_0, app_nil_r in Hw.
        rewrite Hw, drop_ge, app_nil_r by (rewrite length_take; lia). split_and!; [done|lia|lia|done|by right].
      * eapply wp_mono; [apply IH; simpl; lia| |done].
        intros r s' (v & m' & -> & Hm & Hw' & Hv). exists v, m'. split_and!; [done|lia|lia| |done].
        rewrite Hw'. simpl. rewrite Hw, <-app_assoc. f_equal.
        rewrite <-(take_drop (Z.to_nat x) (drop m (take m' buffer))), drop_drop. f_equal.
        rewrite !take_drop_commute, take_take. do 2 f_equal. lia.
  - apply wp_ret. exists (Z.of_nat m), m. rewrite ssize_small by lia.
    rewrite drop_ge by (rewrite length_take; lia). rewrite app_nil_r. split_and!; [done|lia|lia|done|].
    left. lia.
Qed.

(** [writen] always returns: with the whole buffer written once and in
    order, or with -1 and a proper part from its front written. *)
Theorem writen_writes (fuel : nat) (buffer : list ascii) s :
  Z.of_nat (length buffer) <= SSIZE_MAX -> (length buffer + interrupts (kern s) < fuel)%nat ->
  exists v m s', writen fuel fd buffer s = Ret (Some v) s' /\
    written (kern s') = written (kern s) ++ take m buffer /\
    (v = Z.of_nat (length buffer) /\ m = length buffer \/ v = -1 /\ (m < length buffer)%nat).
Proof.
  intros Hn Hf. destruct (wp_run (writen fuel fd buffer) _ never s (wp_writen_loop fuel buffer 0 s
    ltac:(lia) ltac:(lia) ltac:(lia))) as [(r & s' & Hr & v & m & -> & _ & H)|(k & s' & _ & [])].
  by exists v, m, s'.
Qed.

(** ** Lines *)

(** After a number of bytes, none a newline, [buf] holds the first of them. *)
Lemma wp_readLine_loop fuel n taken s :
  (length (pending (kern s)) + interrupts (kern s) < fuel)%nat -> 1 <= n <= SSIZE_MAX ->
  NEWLINE ∉ taken ->
  wp (readLine_loop fuel fd n (take (Z.to_nat (n - 1)) taken)) (fun r s' => exists v buf,
      r = Some (v, buf) /\
      let line := line_of (taken ++ pending (kern s)) in
      let stored := take (Z.to_nat (n - 1)) line in
      (v = Z.of_nat (length stored) /\ taken ++ pending (kern s) = line ++ pending (kern s') /\
       (buf = stored ++ [NUL] \/ stored = [] /\ pending (kern s') = [] /\ buf = [])) \/
      (v = -1 /\ errno s' <> EINTR)) never s.
Proof.
  revert taken s. induction fuel as [|fuel IH]; intros taken s Hf Hn Ht; [lia|]. simpl.
  assert (Hss : forall l, ssize (Z.of_nat (length (take (Z.to_nat (n - 1)) l)))
                = Z.of_nat (length (take (Z.to_nat (n - 1)) l : list ascii)))
    by (intros l; apply ssize_small; rewrite length_take; lia).
  apply wp_bind, wp_syscall; intros k x Hx.
  - destruct (bs_read_error _ _ _ _ Hx) as (Hp & Hi & He). apply wp_bind, wp_get. simpl.
    destruct (Z.eqb_spec x EINTR) as [->|Hne].
    + eapply wp_mono; [apply IH; simpl; [|done..]|simpl; by rewrite Hp|done]. rewrite Hp.
      specialize (He eq_refl). lia.
    + apply wp_ret. eexists _, _. split; [done|]. by right.
  - assert (Hpos : 0 < 1) by lia. destruct (bs_read _ _ _ _ Hpos Hx) as (Hlen & Hp & Hnil & Hi).
    destruct x as [|c [|]]; simpl in Hlen; [|clear Hnil|lia].
    + specialize (Hnil eq_refl). rewrite Hnil in *. simpl in Hp.
      pose proof (line_of_app taken [] Ht) as Hline. simpl in Hline. rewrite !app_nil_r in *.
      destruct (Z.eqb_spec (Z.of_nat (length (take (Z.to_nat (n - 1)) taken))) 0) as [H0|H0];
        apply wp_ret; (eexists _, _; split; [done|]); left; rewrite Hline; simpl; rewrite <-Hp.
      * split; [done|]. rewrite app_nil_r. split; [done|]. right.
        destruct (take _ taken); [done|simpl in H0; lia].
      * rewrite Hss, app_nil_r. by auto.
    + rewrite take_snoc by lia. assert (Hk : pending (kern s) = c :: pending k) by done.
      case_bool_decide as Hc.
      * apply wp_ret. eexists _, _. split; [done|]. left. rewrite Hss. simpl. subst c.
        rewrite Hk, line_of_app, line_of_newline by done. split; [done|].
        split; [by rewrite <-app_assoc|by left].
      * eapply wp_mono; [apply (IH (taken ++ [c])); [|done|by apply not_in_snoc]| |done].
        { rewrite Hk in Hf. simpl in *. lia. }
        intros r s' (v & buf & -> & H). exists v, buf. simpl in H. rewrite <-app_assoc in H.
        rewrite Hk. by split.
Qed.

(** [readLine] always returns; it consumes exactly the next line of the
    input, stores its first [n] - 1 bytes and a null, and returns how many,
    0 only at the end of the input when [n] > 1; or it returns -1, never for
    an interruption. *)
Theorem readLine_reads (fuel : nat) (n : Z) s :
  1 <= n <= SSIZE_MAX -> (length (pending (kern s)) + interrupts (kern s) < fuel)%nat ->
  let line := line_of (pending (kern s)) in
  let stored := take (Z.to_nat (n - 1)) line in
  exists v buf s', readLine fuel fd n false s = Ret (Some (v, buf)) s' /\
    ((v = Z.of_nat (length stored) /\ pending (kern s) = line ++ pending (kern s') /\
      (buf = stored ++ [NUL] \/ stored = [] /\ pending (kern s') = [] /\ buf = []) /\
      (v = 0 -> 1 < n -> pending (kern s) = [])) \/
     (v = -1 /\ errno s' <> EINTR)).
Proof.
  intros Hn Hf line stored. unfold readLine. destruct (Z.leb_spec n 0); [lia|].
  pose proof (wp_readLine_loop fuel n [] s Hf Hn ltac:(by intros ?%elem_of_nil)) as Hw.
  rewrite take_nil in Hw.
  apply wp_run in Hw as [(r & s' & Hr & v & buf & -> & H0)|(k & s' & _ & [])].
  exists v, buf, s'. split; [done|]. simpl in H0.
  destruct H0 as [(Hv & Hl & Hb)|H0]; [left|by right]. split_and!; [done..|].
  intros Hz Hn1. rewrite Hz in Hv. rewrite length_take in Hv.
  destruct (pending (kern s)) as [|c p]; [done|]. exfalso. simpl in Hv.
  case_bool_decide; simpl in Hv; lia.
Qed.

(** What a line buffer still holds. *)
Definition unread (rl : ReadLineBuf) : list ascii :=
  drop (Z.to_nat (rl_next rl)) (take (Z.to_nat (rl_len rl)) (rl_buf rl)).
Definition rl_ok (rl : ReadLineBuf) : Prop :=
  rl_fd rl = fd /\ 0 <= rl_next rl /\ rl_len rl <= Z.of_nat (length (rl_buf rl)) <= RL_MAX_BUF.

Lemma readLineBufInit_ok : rl_ok (readLineBufInit fd) /\ unread (readLineBufInit fd) = [].
Proof. by repeat split. Qed.

Lemma unread_cons rl : rl_ok rl -> rl_next rl < rl_len rl ->
  exists c, rl_buf rl !! Z.to_nat (rl_next rl) = Some c /\
    unread rl = c :: unread (RL (rl_fd rl) (rl_buf rl) (rl_next rl + 1) (rl_len rl)).
Proof.
  intros (_ & H0 & H1) Hl.
  destruct (lookup_lt_is_Some_2 (rl_buf rl) (Z.to_nat (rl_next rl))) as [c Hc]; [lia|].
  exists c. split; [done|]. unfold unread. simpl.
  rewrite (drop_S _ c) by (rewrite lookup_take_lt by lia; done). do 2 f_equal. lia.
Qed.

Lemma wp_refill rl s : rl_ok rl ->
  wp (refill_buffer rl) (fun '(r, rl') s' => rl_ok rl' /\
    unread rl ++ pending (kern s) = unread rl' ++ pending (kern s') /\
    match r with
    | Refilled => rl_next rl' < rl_len rl'
    | RefillError => unread rl' = []
    | EndOfFile => unread rl' = [] /\ pending (kern s') = []
    end) never s.
Proof.
  intros Hok. unfold refill_buffer. destruct (Z.leb_spec (rl_len rl) (rl_next rl)) as [Hle|Hlt];
    [|by apply wp_ret].
  destruct Hok as (<- & H0 & H1).
  assert (Hu : unread rl = []) by (unfold unread; apply drop_ge; rewrite length_take; lia).
  apply wp_bind, wp_syscall; intros k x Hx; rewrite Hu; simpl.
  - destruct (bs_read_error _ _ _ _ Hx) as (Hp & _).
    assert (He : unread (RL (rl_fd rl) (rl_buf rl) (rl_next rl) (-1)) = []) by apply drop_nil.
    apply wp_ret. rewrite He. simpl. rewrite Hp. repeat split; simpl; lia.
  - assert (Hpos : 0 < RL_MAX_BUF) by done.
    destruct (bs_read _ _ _ _ Hpos Hx) as (Hlen & Hp & Hnil & _). destruct x as [|c x]; apply wp_ret.
    + assert (He : unread (RL (rl_fd rl) (rl_buf rl) (rl_next rl) 0) = []) by apply drop_nil.
      rewrite He. simpl in *. rewrite <-Hp. split_and!; [|done|done|by apply Hnil].
      repeat split; simpl; lia.
    + assert (He : unread (RL (rl_fd rl) (c :: x) 0 (Z.of_nat (length (c :: x)))) = c :: x).
      { unfold unread. cbn [rl_len rl_buf rl_next]. rewrite Nat2Z.id. apply take_ge. done. }
      rewrite He. simpl kern. split_and!; [|done|cbn [rl_next rl_len]; simpl; lia].
      repeat split; cbn [rl_fd rl_next rl_len rl_buf]; lia.
Qed.

Lemma wp_readLineBuf_loop fuel rl n taken s :
  (length (unread rl ++ pending (kern s)) < fuel)%nat -> 1 <= n <= SSIZE_MAX ->
  NEWLINE ∉ taken -> rl_ok rl ->
  wp (readLineBuf_loop fuel rl n (take (Z.to_nat n) taken)) (fun r s' => exists v buffer rl',
      r = Some (v, buffer, rl') /\ rl_ok rl' /\
      let input := taken ++ unread rl ++ pending (kern s) in
      exists front, input = front ++ unread rl' ++ pending (kern s') /\
        buffer = take (Z.to_nat n) front /\
        (front = line_of input /\ v = Z.of_nat (length buffer) \/ v = -1)) never s.
Proof.
  revert rl taken s. induction fuel as [|fuel IH]; intros rl taken s Hf Hn Ht Hok; [lia|]. simpl.
  assert (Hss : forall l, ssize (Z.of_nat (length (take (Z.to_nat n) l)))
                = Z.of_nat (length (take (Z.to_nat n) l : list ascii)))
    by (intros l; apply ssize_small; rewrite length_take; lia).
  apply wp_bind. eapply wp_mono; [by apply wp_refill| |done].
  intros [r rl1] s1 (Hok1 & Hin & Hr). rewrite Hin in *. destruct r.
  - destruct (unread_cons rl1 Hok1 Hr) as (c & -> & Hu). rewrite Hu in *.
    set (rl2 := RL (rl_fd rl1) (rl_buf rl1) (rl_next rl1 + 1) (rl_len rl1)) in *.
    assert (Hok2 : rl_ok rl2) by (destruct Hok1 as (? & ? & ?); repeat split; simpl; [done|lia..]).
    cbv zeta. rewrite take_snoc by lia. case_bool_decide as Hc.
    + apply wp_ret. eexists _, _, rl2. split; [done|]. split; [done|]. exists (taken ++ [c]).
      subst c. simpl. rewrite line_of_app, line_of_newline, Hss by done.
      split; [by rewrite <-app_assoc|]. by auto.
    + eapply wp_mono; [apply (IH rl2 (taken ++ [c])); [|done|by apply not_in_snoc|done]| |done].
      { simpl in Hf. lia. }
      intros r s' (v & buffer & rl' & -> & Hok' & front & H). exists v, buffer, rl'.
      split; [done|]. split; [done|]. exists front. rewrite <-!app_assoc in H. done.
  - apply wp_ret. eexists _, _, rl1. split; [done|]. split; [done|]. exists taken. by auto.
  - destruct Hr as [Hu Hp]. apply wp_ret. eexists _, _, rl1. split; [done|]. split; [done|].
    exists taken. split; [done|]. split; [done|]. left. rewrite Hss, Hu, Hp. split; [|done].
    by rewrite line_of_app, app_nil_r.
Qed.

(** [readLineBuf] always returns and keeps its line buffer well formed; no
    byte of the input is lost or repeated from one call to the next: a call
    takes from the buffer and the descriptor together exactly the next line,
    stores its first [n] bytes and returns how many; or it returns -1. *)
Theorem readLineBuf_reads (fuel : nat) (rl : ReadLineBuf) (n : Z) s :
  1 <= n <= SSIZE_MAX -> rl_ok rl -> (length (unread rl ++ pending (kern s)) < fuel)%nat ->
  exists v buffer rl' front s', readLineBuf fuel rl n false s = Ret (Some (v, buffer, rl')) s' /\
    rl_ok rl' /\ unread rl ++ pending (kern s) = front ++ unread rl' ++ pending (kern s') /\
    buffer = take (Z.to_nat n) front /\
    (front = line_of (unread rl ++ pending (kern s)) /\ v = Z.of_nat (length buffer) \/ v = -1).
Proof.
  intros Hn Hok Hf. unfold readLineBuf. destruct (Z.leb_spec n 0); [lia|].
  pose proof (wp_readLineBuf_loop fuel rl n [] s Hf Hn ltac:(by intros ?%elem_of_nil) Hok) as Hw.
  rewrite take_nil in Hw.
  apply wp_run in Hw as [(r & s' & Hr & v & buffer & rl' & -> & Hok' & front & H0)|(k & s' & _ & [])].
  by exists v, buffer, rl', front, s'.
Qed.

End Streams.

(** ** A scripted descriptor *)

(** What [read] does next: an error, or some bytes of which it gives at most as
    many as asked for; [write] takes at most two bytes. *)
Record script := Script { input : list (Z + list ascii); output : list ascii }.

Fixpoint read_script (l : list (Z + list ascii)) (n : nat) :
    list (Z + list ascii) * (Z + list ascii) :=
  match l with
  | [] => ([], inr [])
  | inl e :: l => (l, inl e)
  | inr [] :: l => read_script l n
  | inr bs :: l => (inr (drop n bs) :: l, inr (take n bs))
  end.

Definition script_bytes (l : list (Z + list ascii)) : list ascii :=
  flat_map (fun x => match x with inl _ => [] | inr bs => bs end) l.

#[export] Instance script_io : ByteIO script := {
  os_read k fd n := let (l, r) := read_script (input k) (Z.to_nat n) in (Script l (output k), r);
  os_write k fd bs := (Script (input k) (output k ++ take 2 bs), inr (Z.of_nat (length (take 2 bs))))
}.

Lemma read_script_ok l n : (0 < n)%nat ->
  match read_script l n with
  | (l', inr bs) => (length bs <= n)%nat /\ script_bytes l = bs ++ script_bytes l' /\
      (bs = [] -> script_bytes l = []) /\ (length l' <= length l)%nat
  | (l', inl e) => script_bytes l' = script_bytes l /\ (length l' < length l)%nat
  end.
Proof.
  intros Hn. induction l as [|[e|[|c bs]] l IH]; simpl.
  - split; [lia|done].
  - split; [done|lia].
  - destruct (read_script l n) as [l' [e|bs]]; [destruct IH; split; [done|lia]|].
    destruct IH as (? & ? & ? & ?). split_and!; [done..|lia].
  - destruct n as [|n]; [lia|]. simpl. split_and!; [rewrite length_take; lia| |done|lia].
    rewrite app_assoc. by rewrite take_drop.
Qed.

#[export] Instance script_stream fd : ByteStream script fd.
Proof.
  refine {| pending k := script_bytes (input k); written := output;
            interrupts k := length (input k) |}; simpl.
  - intros n k k' bs Hn Hr. pose proof (read_script_ok (input k) (Z.to_nat n) ltac:(lia)) as H.
    destruct (read_script _ _) as [l [e|b]]; simplify_eq/=. destruct H as (? & ? & ? & ?).
    split_and!; [lia|done..].
  - intros n k k' e Hr. destruct (decide (0 < n)) as [Hn|Hn].
    + pose proof (read_script_ok (input k) (Z.to_nat n) ltac:(lia)) as H.
      destruct (read_script _ _) as [l [e'|b]]; simplify_eq/=. destruct H as [? ?].
      split_and!; [done|lia|lia].
    + replace (Z.to_nat n) with 0%nat in Hr by lia. revert Hr. generalize (input k) as l.
      intros l. induction l as [|[e'|[|c bs]] l IH]; simpl; intros Hr; simplify_eq/=.
      * split_and!; [done|lia|lia].
      * destruct (IH Hr) as (? & ? & ?). split_and!; [done|lia|]. intros He. specialize (H1 He). lia.
  - intros bs k k' m [= <- <-]. simpl. rewrite Nat2Z.id. split_and!; [lia|rewrite length_take; lia| |done].
    f_equal. rewrite length_take. destruct (Nat.min_spec 2 (length bs)) as [[? ->]|[? ->]]; [done|].
    by rewrite !take_ge by lia.
  - done.
Defined.

Definition demo_script : proc script :=
  Proc (Script [inr (lit "ab"); inl EINTR; inr (lit "c" ++ [NEWLINE] ++ lit "d")] []) 0 None [] [] [].

Lemma readn_reads_witness :
  exists v buf s', readn 10 3 4 demo_script = Ret (Some (v, buf)) s' /\
    pending (fd := 3) (kern demo_script) = buf ++ pending (fd := 3) (kern s') /\ Z.of_nat (length buf) <= 4 /\
    (v = Z.of_nat (length buf) /\ (v = 4 \/ pending (fd := 3) (kern s') = []) \/ v = -1 /\ errno s' <> EINTR).
Proof. apply (readn_reads 3 10 4 demo_script); [done|]. by apply Nat.ltb_lt. Defined.

Lemma writen_writes_witness :
  exists v m s', writen 10 1 (lit "hello") demo_script = Ret (Some v) s' /\
    written (fd := 1) (kern s') = written (fd := 1) (kern demo_script) ++ take m (lit "hello") /\
    (v = 5 /\ m = 5%nat \/ v = -1 /\ (m < 5)%nat).
Proof. apply (writen_writes 1 10 (lit "hello") demo_script); [done|]. by apply Nat.ltb_lt. Defined.

Lemma readLine_reads_witness :
  let line := line_of (pending (fd := 3) (kern demo_script)) in
  let stored := take 3 line in
  exists v buf s', readLine 10 3 4 false demo_script = Ret (Some (v, buf)) s' /\
    ((v = Z.of_nat (length stored) /\ pending (fd := 3) (kern demo_script) = line ++ pending (fd := 3) (kern s') /\
      (buf = stored ++ [NUL] \/ stored = [] /\ pending (fd := 3) (kern s') = [] /\ buf = []) /\
      (v = 0 -> 1 < 4 -> pending (fd := 3) (kern demo_script) = [])) \/
     (v = -1 /\ errno s' <> EINTR)).
Proof. apply (readLine_reads 3 10 4 demo_script); [done|]. by apply Nat.ltb_lt. Defined.

Lemma readLineBuf_reads_witness :
  let rl := readLineBufInit 3 in
  exists v buffer rl' front s', readLineBuf 10 rl 4 false demo_script = Ret (Some (v, buffer, rl')) s' /\
    rl_ok 3 rl' /\ unread rl ++ pending (fd := 3) (kern demo_script) = front ++ unread rl' ++ pending (fd := 3) (kern s') /\
    buffer = take 4 front /\
    (front = line_of (unread rl ++ pending (fd := 3) (kern demo_script)) /\ v = Z.of_nat (length buffer) \/ v = -1).
Proof.
  apply (readLineBuf_reads 3 10 (readLineBufInit 3) 4 demo_script); [done|by apply readLineBufInit_ok|].
  by apply Nat.ltb_lt.
Defined.
