(* ===== verification/Environ.v ===== *)
(** The environment of a process: getenv and putenv of the C library, and
    proc/setenv.c (src/tlpi-dist), which builds setenv and unsetenv from them.

    [environ] is an array of pointers to strings of the form name=value with a
    null pointer at its end: a list of [option cstr]. The strings are not
    changed through other pointers. *)
From Stdlib Require Import ZArith Lia Ascii String.
From stdpp Require Import base tactics list strings gmap.
From S2P Require Import Prelude CString Process.
#[local] Open Scope Z_scope.

(** An array of pointers, up to its first null. *)
Fixpoint until_null (l : list (option cstr)) : list cstr :=
  match l with
  | Some x :: l => x :: until_null l
  | _ => []
  end.

(** [e] defines [name]. *)
Definition defines (name e : cstr) : bool := strncmp_prefix (name ++ [EQUALS]) e.

(** [getenv]: the value in the first entry that defines the name. *)
Fixpoint getenv (name : cstr) (environ : list cstr) : option cstr :=
  match environ with
  | [] => None
  | e :: rest =>
      if defines name e then Some (drop (S (length name)) e) else getenv name rest
  end.

(** [putenv]: replaces the first entry that defines the same name, or adds one
    at the end. *)
Fixpoint put_entry (name e : cstr) (environ : list cstr) : list cstr :=
  match environ with
  | [] => [e]
  | x :: rest => if defines name x then e :: rest else x :: put_entry name e rest
  end.

(** What may fail: [os_malloc] and the growth of the array in [putenv]. *)
Class EnvOS (K : Type) := {
  os_malloc : K -> Z -> K * bool;
  os_putenv : K -> K * (Z + unit)
}.

(** The state: the C library keeps [environ]. *)
Record env_state (K : Type) := EnvState { heap : K; environ : list (option cstr) }.
Arguments EnvState {K}.
Arguments heap {K}.
Arguments environ {K}.

Section Code.
Context {K : Type} {OS : EnvOS K}.
Abbreviation PM := (M (proc (env_state K))).

Definition get_environ : PM (list (option cstr)) := let! s := get in ret (environ (kern s)).
Definition set_environ (l : list (option cstr)) : PM unit :=
  modify (fun s => set_kern (EnvState (heap (kern s)) l) s).

Definition malloc (n : Z) : PM bool :=
  syscall_ (fun k => let (h, ok) := os_malloc (heap k) n in (EnvState h (environ k), ok)).

(** [putenv(es)], for an [es] that has an equals sign; the entry it looks for
    has the same name. *)
Definition putenv (name es : cstr) : PM Z :=
  let! r := syscall (fun k => let (h, r) := os_putenv (heap k) in (EnvState h (environ k), r)) in
  match r with
  | None => ret (-1)
  | Some _ =>
      let! env := get_environ in
      set_environ (map Some (put_entry name es (until_null env)) ++ [None]) ;;;
      ret 0
  end.

(** ** setenv.c *)

(** The test of both functions; [None] is a null pointer. *)
Definition bad_name (name : option cstr) : bool :=
  match name with
  | None => true
  | Some name =>
      bool_decide (name = []) || match strchr EQUALS name with Some _ => true | None => false end
  end.

(** [strncmp( *ep, name, len) == 0 && ( *ep)[len] == '=']: the second test reads
    the entry only where the first found it to be long enough. *)
Definition entry_matches (name e : cstr) : bool :=
  strncmp_prefix name e && char_is e (length name) EQUALS.

(** [for (sp = ep; *sp != NULL; sp++) *sp = *(sp + 1)], on the array from [ep]
    on: each element is read before it is overwritten in its own turn. Reading
    past the array is undefined. *)
Fixpoint shift_back (sp : list (option cstr)) : option (list (option cstr)) :=
  match sp with
  | None :: _ => Some sp
  | Some _ :: rest =>
      match rest with
      | [] => None
      | next :: _ => cons next <$> shift_back rest
      end
  | [] => None
  end.

(** The loop of [unsetenv] from [ep] on, and the array it leaves there; each
    turn moves on or removes an entry, and [fuel] bounds the turns. *)
Fixpoint unsetenv_loop (fuel : nat) (name : cstr) (ep : list (option cstr)) :
    PM (option (list (option cstr))) :=
  match fuel with
  | O => ret None
  | S fuel =>
      match ep with
      | [] => undef
      | None :: _ => ret (Some ep)
      | Some e :: rest =>
          if entry_matches name e then
            match shift_back ep with
            | None => undef
            | Some ep => unsetenv_loop fuel name ep
            end
          else
            let! r := unsetenv_loop fuel name rest in
            ret (cons (Some e) <$> r)
      end
  end.

Definition unsetenv (name : option cstr) : PM Z :=
  if bad_name name then modify (set_errno EINVAL) ;;; ret (-1)
  else
    let! env := get_environ in
    let! r := unsetenv_loop (S (length env)) (default [] name) env in
    match r with
    | None => ret 0
    | Some env => set_environ env ;;; ret 0
    end.

Definition setenv (name value : option cstr) (overwrite : Z) : PM Z :=
  match name, value with
  | Some n, Some v =>
      if bad_name name then modify (set_errno EINVAL) ;;; ret (-1)
      else
        let! env := get_environ in
        if bool_decide (is_Some (getenv n (until_null env))) && (overwrite =? 0) then ret 0
        else
          unsetenv name ;;;
          let size := strlen n + strlen v + 2 in
          let! ok := malloc size in
          if negb ok then ret (-1)
          else
            let es := n ++ EQUALS :: v in
            if size <? strlen es + 1 then undef
            else
              let! r := putenv n es in
              ret (if negb (r =? 0) then -1 else 0)
  | _, _ => modify (set_errno EINVAL) ;;; ret (-1)
  end.

End Code.

(** ** What they do to the environment *)

(** Names that may be set. *)
Definition name_ok (name : cstr) : Prop := name <> [] /\ EQUALS ∉ name.

Lemma bad_name_spec name : bad_name (Some name) = false <-> name_ok name.
Proof.
  unfold bad_name, name_ok. rewrite orb_false_iff, bool_decide_eq_false, <-strchr_None.
  destruct (strchr EQUALS name); naive_solver.
Qed.

Lemma defines_spec name e : defines name e = true <-> exists v, e = name ++ EQUALS :: v.
Proof.
  unfold defines. rewrite strncmp_prefix_spec. setoid_rewrite <-app_assoc. done.
Qed.

Lemma defines_unique n n' e :
  EQUALS ∉ n -> EQUALS ∉ n' -> defines n e = true -> defines n' e = true -> n = n'.
Proof.
  intros Hn Hn' [v ->]%defines_spec [v' He]%defines_spec. revert n' Hn Hn' He.
  induction n as [|c n IH]; intros [|c' n']; simpl; intros Hn Hn' He; simplify_eq; [done|..].
  - destruct Hn'. by left.
  - destruct Hn. by left.
  - f_equal. apply IH; [| |done]; intros Hx; [apply Hn|apply Hn']; by right.
Qed.

Lemma entry_matches_defines name e : entry_matches name e = defines name e.
Proof.
  apply eq_true_iff_eq. unfold entry_matches. rewrite andb_true_iff, strncmp_prefix_spec, defines_spec.
  unfold char_is. rewrite bool_decide_eq_true. split.
  - intros [[r ->] H]. rewrite lookup_app_r, Nat.sub_diag in H by lia.
    destruct r as [|c r]; simplify_eq/=. by exists r.
  - intros [v ->]. split; [by eexists|]. by rewrite lookup_app_r, Nat.sub_diag by lia.
Qed.

(** The entries that do not define a name. *)
Definition without (name : cstr) (env : list cstr) : list cstr :=
  filter (fun e => defines name e = false) env.

Lemma without_cons n e env :
  without n (e :: env) = if defines n e then without n env else e :: without n env.
Proof.
  unfold without. rewrite filter_cons. case_decide as Hd; [by rewrite Hd|].
  apply not_false_iff_true in Hd. by rewrite Hd.
Qed.

Lemma getenv_without n n' env : EQUALS ∉ n -> EQUALS ∉ n' ->
  getenv n' (without n env) = if bool_decide (n' = n) then None else getenv n' env.
Proof.
  intros Hn Hn'. induction env as [|e env IH]; [by case_bool_decide|]. rewrite without_cons. cbn [getenv].
  destruct (defines n e) eqn:Hd; cbn [getenv]; rewrite IH.
  - case_bool_decide as Hne; [done|]. destruct (defines n' e) eqn:Hd'; [|done].
    destruct Hne. by eapply defines_unique.
  - destruct (defines n' e) eqn:Hd'; [|done]. case_bool_decide; [congruence|done].
Qed.

Lemma getenv_put n v n' env : EQUALS ∉ n -> EQUALS ∉ n' -> getenv n env = None ->
  getenv n' (put_entry n (n ++ EQUALS :: v) env)
  = if bool_decide (n' = n) then Some v else getenv n' env.
Proof.
  intros Hn Hn'. assert (Hd : defines n (n ++ EQUALS :: v) = true) by (apply defines_spec; by eexists).
  induction env as [|e env IH]; simpl.
  - intros _. case_bool_decide as Hne.
    + subst n'. rewrite Hd. f_equal. change (EQUALS :: v) with ([EQUALS] ++ v). rewrite app_assoc.
      rewrite drop_app_ge by (rewrite length_app; simpl; lia).
      rewrite length_app. simpl. by replace (S (length n) - (length n + 1))%nat with 0%nat by lia.
    + destruct (defines n' _) eqn:Hd'; [|done]. destruct Hne. by eapply defines_unique.
  - destruct (defines n e) eqn:He; [done|]. intros Hg. simpl. rewrite (IH Hg).
    destruct (defines n' e) eqn:Hd'; [|done]. case_bool_decide; [congruence|done].
Qed.

Section Theorems.
Context {K : Type} {OS : EnvOS K}.
Implicit Types (s : proc (env_state K)).

(** The array of a process: some entries and a null pointer. *)
Definition env_array (l : list (option cstr)) : Prop := exists tail, l = (Some <$> until_null l) ++ None :: tail.
Definition visible s : list cstr := until_null (environ (kern s)).

Lemma until_null_app (l : list cstr) tail : until_null ((Some <$> l) ++ None :: tail) = l.
Proof. induction l as [|x l IH]; [done|simpl; f_equal; exact IH]. Qed.

Lemma shift_back_run e (l : list cstr) tail :
  shift_back (Some e :: (Some <$> l) ++ None :: tail) = Some ((Some <$> l) ++ None :: None :: tail).
Proof.
  revert e. induction l as [|x l IH]; intros e; [done|].
  change (cons (Some x) <$> shift_back (Some x :: (Some <$> l) ++ None :: tail)
    = Some (Some x :: (Some <$> l) ++ None :: None :: tail)). by rewrite IH.
Qed.

Lemma unsetenv_loop_run fuel name (l : list cstr) tail s :
  (length l < fuel)%nat ->
  exists tail', unsetenv_loop fuel name ((Some <$> l) ++ None :: tail) s
    = Ret (Some ((Some <$> without name l) ++ None :: tail')) s.
Proof.
  revert l tail. induction fuel as [|fuel IH]; intros [|e l] tail Hf; simpl in Hf; try lia.
  - by exists tail.
  - rewrite without_cons. change ((Some <$> e :: l) ++ None :: tail) with (Some e :: (Some <$> l) ++ None :: tail).
    cbn [unsetenv_loop]. rewrite entry_matches_defines.
    destruct (defines name e).
    + rewrite shift_back_run. apply IH. lia.
    + destruct (IH l tail) as [tail' Hr]; [lia|]. exists tail'. unfold bind. by rewrite Hr.
Qed.

Lemma unsetenv_run name s : name_ok name -> env_array (environ (kern s)) ->
  exists s', unsetenv (Some name) s = Ret 0 s' /\ env_array (environ (kern s')) /\
    visible s' = without name (visible s) /\ heap (kern s') = heap (kern s) /\ errno s' = errno s.
Proof.
  intros Hn [tail Hl]. unfold unsetenv. rewrite (proj2 (bad_name_spec name) Hn).
  unfold get_environ, bind, get, ret. change (default [] (Some name)) with name.
  destruct (unsetenv_loop_run (S (length (environ (kern s)))) name (visible s) tail s) as [tail' Hr].
  { unfold visible. rewrite Hl at 2. rewrite length_app, length_fmap. lia. }
  unfold visible in Hr. rewrite <-Hl in Hr. rewrite Hr. eexists. split; [reflexivity|].
  cbn [environ kern set_kern heap errno]. unfold visible. cbn [environ kern set_kern].
  rewrite until_null_app. split_and!; [|done..]. exists tail'. by rewrite until_null_app.
Qed.

(** The environment as a map from names to values: unsetenv removes every
    definition of its name and nothing else; setenv defines its name, unless
    it is defined already and is not to be overwritten, and changes nothing
    else, or returns -1, in which case an old definition is gone. Both refuse
    names that are null, empty or hold an equals sign, and change nothing
    then. *)
Theorem environment_updates (name value : cstr) (overwrite : Z) s :
  env_array (environ (kern s)) ->
  (name_ok name ->
     (exists s', unsetenv (Some name) s = Ret 0 s' /\ env_array (environ (kern s')) /\
        visible s' = without name (visible s) /\
        forall n, EQUALS ∉ n ->
          getenv n (visible s') = if bool_decide (n = name) then None else getenv n (visible s)) /\
     (exists v s', setenv (Some name) (Some value) overwrite s = Ret v s' /\
        env_array (environ (kern s')) /\
        if bool_decide (is_Some (getenv name (visible s))) && (overwrite =? 0)
        then v = 0 /\ s' = s
        else (v = 0 \/ v = -1) /\ forall n, EQUALS ∉ n ->
          getenv n (visible s') =
            if bool_decide (n = name) then (if v =? 0 then Some value else None)
            else getenv n (visible s))) /\
  (~ name_ok name ->
     unsetenv (Some name) s = Ret (-1) (set_errno EINVAL s) /\
     setenv (Some name) (Some value) overwrite s = Ret (-1) (set_errno EINVAL s)) /\
  unsetenv None s = Ret (-1) (set_errno EINVAL s) /\
  setenv None (Some value) overwrite s = Ret (-1) (set_errno EINVAL s) /\
  setenv (Some name) None overwrite s = Ret (-1) (set_errno EINVAL s).
Proof.
  intros Ha. split; [|split; [|done]].
  2:{ intros Hbad. assert (Hb : bad_name (Some name) = true).
      { apply not_false_iff_true. by rewrite bad_name_spec. }
      unfold setenv, unsetenv. by rewrite Hb. }
  intros Hn. pose proof Hn as [Hne Hneq]. destruct (unsetenv_run name s Hn Ha) as (s1 & Hr & Ha1 & Hv & Hh & He).
  split.
  { exists s1. split_and!; [done..|]. intros n Hnn. rewrite Hv. by apply getenv_without. }
  unfold setenv. rewrite (proj2 (bad_name_spec name) Hn). unfold get_environ, bind at 1 2, get, ret at 1.
  fold (visible s). destruct (bool_decide (is_Some (getenv name (visible s))) && (overwrite =? 0)); [by exists 0, s|].
  assert (Hget : forall n, EQUALS ∉ n -> getenv n (visible s1) =
    if bool_decide (n = name) then None else getenv n (visible s))
    by (intros n Hnn; rewrite Hv; by apply getenv_without).
  assert (Hsize : (strlen name + strlen value + 2 <? strlen (name ++ EQUALS :: value) + 1) = false).
  { apply Z.ltb_ge. unfold strlen. rewrite length_app. simpl. lia. }
  unfold bind at 1. rewrite Hr. unfold malloc, syscall_, bind at 1.
  destruct (os_malloc (heap (kern s1)) (strlen name + strlen value + 2)) as [h ok].
  destruct ok; cbn [negb]; [|eexists (-1), _; split; [reflexivity|]; split; [done|]; split; [by right|done]].
  rewrite Hsize. unfold putenv, syscall, bind, get_environ, get, ret, set_environ, modify.
  cbn [kern set_kern environ heap]. destruct (os_putenv h) as [h2 [e|[]]]; cbn.
  - eexists (-1), _. split; [reflexivity|]. split; [done|]. split; [by right|done].
  - eexists 0, _. split; [reflexivity|]. unfold visible. cbn [kern set_kern environ].
    change (map Some ?l ++ [None]) with ((Some <$> l) ++ None :: []). rewrite until_null_app.
    split; [exists []; by rewrite until_null_app|]. split; [by left|]. intros n Hnn. simpl.
    unfold visible in Hget.
    rewrite getenv_put by (try done; rewrite Hget by done; by rewrite bool_decide_eq_true_2).
    case_bool_decide as Hx; [done|]. rewrite (Hget n Hnn). by rewrite bool_decide_eq_false_2.
Qed.

End Theorems.

(** ** A heap that may be full *)

#[export] Instance demo_env_os : EnvOS bool := {
  os_malloc k n := (k, k);
  os_putenv k := (k, inr tt)
}.

Definition demo_env (ok : bool) : proc (env_state bool) :=
  Proc (EnvState ok [Some (lit "A=1"); Some (lit "TT=x"); Some (lit "TT=y"); None]) 0 None [] [] [].

(** A failed setenv has removed the variable. *)
Example failed_setenv_forgets :
  match setenv (Some (lit "A")) (Some (lit "2")) 1 (demo_env false) with
  | Ret v s' => v = -1 /\ getenv (lit "A") (visible s') = None
  | _ => False
  end.
Proof. by vm_compute. Qed.

Lemma environment_updates_witness :
  exists v s', setenv (Some (lit "TT")) (Some (lit "2")) 1 (demo_env true) = Ret v s' /\
    env_array (environ (kern s')) /\ (v = 0 \/ v = -1) /\
    forall n, EQUALS ∉ n -> getenv n (visible s') =
      if bool_decide (n = lit "TT") then (if v =? 0 then Some (lit "2") else None)
      else getenv n (visible (demo_env true)).
Proof.
  destruct (environment_updates (lit "TT") (lit "2") 1 (demo_env true)) as [H _].
  - by exists [].
  - destruct H as [_ H]; [|exact H]. split; [done|].
    intros [H|[H|H%elem_of_nil]%elem_of_cons]%elem_of_cons; done.
Defined.
