(* ===== verification/MyEnviron.v ===== *)
(** chapter6/exercise_3.c: setenv and unsetenv once more, the second one by
    moving the entries to be kept to the front of the array, and the test of
    both. The library is that of Environ. *)
From Stdlib Require Import ZArith Lia Ascii String.
From stdpp Require Import base tactics list strings.
From S2P Require Import Prelude CString Process Environ.
#[local] Open Scope Z_scope.

Section Code.
Context {K : Type} {OS : EnvOS K}.
Abbreviation PM := (M (proc (env_state K))).

(** A null [value] is given to strlen. *)
Definition my_setenv (name value : option cstr) (overwrite : Z) : PM Z :=
  if bad_name name then ret (-1)
  else
    let! env := get_environ in
    if bool_decide (is_Some (getenv (default [] name) (until_null env))) && (overwrite =? 0) then ret 0
    else
      match value with
      | None => undef
      | Some value =>
          let len := strlen (default [] name) + strlen value + 2 in
          let! ok := malloc len in
          if negb ok then ret (-1)
          else putenv (default [] name) (snprintf len (default [] name ++ EQUALS :: value))
      end.

(** The loop: [env_ptr] and [write_ptr] as indices of the array. *)
Fixpoint compact (fuel : nat) (name : cstr) (array : list (option cstr)) (env_ptr write_ptr : nat) :
    PM (list (option cstr)) :=
  match fuel with
  | O => undef
  | S fuel =>
      match array !! env_ptr, array !! write_ptr with
      | Some (Some e), Some _ =>
          if entry_matches name e then compact fuel name array (S env_ptr) write_ptr
          else compact fuel name (<[write_ptr := Some e]> array) (S env_ptr) (S write_ptr)
      | Some None, Some _ => ret (<[write_ptr := None]> array)
      | _, _ => undef
      end
  end.

Definition my_unsetenv (name : option cstr) : PM Z :=
  if bad_name name then ret (-1)
  else
    let! env := get_environ in
    let! env := compact (length env) (default [] name) env 0 0 in
    set_environ env ;;;
    ret 0.

(** [printf("%s%s\n", text, getenv(name))]; the C library prints a null pointer
    as (null). *)
Definition show_variable (text : string) (name : cstr) : PM unit :=
  let! env := get_environ in
  putout (lit text ++ default (lit "(null)") (getenv name (until_null env)) ++ [NEWLINE]).

Definition say (text : string) : PM unit := putout (lit text ++ [NEWLINE]).

Definition TEST_VAR : cstr := lit "TEST_VAR".
Definition MULTI_VAR : cstr := lit "MULTI_VAR".

Definition test_env_functions : PM unit :=
  say "Setting TEST_VAR=hello" ;;;
  my_setenv (Some TEST_VAR) (Some (lit "hello")) 1 ;;;
  show_variable "TEST_VAR=" TEST_VAR ;;;
  say "Setting TEST_VAR=world with overwrite=0" ;;;
  my_setenv (Some TEST_VAR) (Some (lit "world")) 0 ;;;
  show_variable "TEST_VAR=" TEST_VAR ;;;
  say "Setting TEST_VAR=world with overwrite=1" ;;;
  my_setenv (Some TEST_VAR) (Some (lit "world")) 1 ;;;
  show_variable "TEST_VAR=" TEST_VAR ;;;
  putenv MULTI_VAR (lit "MULTI_VAR=value1") ;;;
  putenv MULTI_VAR (lit "MULTI_VAR=value2") ;;;
  show_variable "Before unsetenv, MULTI_VAR=" MULTI_VAR ;;;
  say "Unsetting MULTI_VAR" ;;;
  my_unsetenv (Some MULTI_VAR) ;;;
  show_variable "After unsetenv, MULTI_VAR=" MULTI_VAR ;;;
  say "Unsetting TEST_VAR" ;;;
  my_unsetenv (Some TEST_VAR) ;;;
  show_variable "After unsetenv, TEST_VAR=" TEST_VAR.

Definition exercise_3 : PM unit := test_env_functions ;;; exit3 EXIT_SUCCESS.

End Code.

(** ** What they do *)

Section Props.
Context {K : Type} {OS : EnvOS K}.
Implicit Types (s : proc (env_state K)).

Lemma compact_run name s (rest kept : list cstr) gap tail fuel :
  (length rest < fuel)%nat ->
  exists tail', compact fuel name ((Some <$> kept) ++ gap ++ (Some <$> rest) ++ None :: tail)
      (length kept + length gap) (length kept) s
    = Ret ((Some <$> kept ++ without name rest) ++ None :: tail') s.
Proof.
  revert kept gap fuel. induction rest as [|e rest IH]; intros kept gap [|fuel] Hf; simpl in Hf; try lia; cbn [compact].
  - set (array := (Some <$> kept) ++ gap ++ [] ++ None :: tail).
    assert (Hr : array !! (length kept + length gap)%nat = Some None).
    { unfold array. rewrite app_assoc. by rewrite lookup_app_r, length_app, length_fmap, Nat.sub_diag by (rewrite length_app, length_fmap; lia). }
    change ((Some <$> kept) ++ gap ++ (Some <$> []) ++ None :: tail) with array. rewrite Hr.
    destruct (array !! length kept) as [y|] eqn:Hy.
    2:{ apply lookup_ge_None in Hy. apply lookup_lt_Some in Hr. lia. }
    unfold ret, array. rewrite insert_app_r_alt, length_fmap, Nat.sub_diag by (rewrite length_fmap; lia).
    unfold without. rewrite filter_nil, app_nil_r. destruct gap as [|g gap]; simpl; eexists; reflexivity.
  - set (array := (Some <$> kept) ++ gap ++ (Some <$> e :: rest) ++ None :: tail).
    assert (Hr : array !! (length kept + length gap)%nat = Some (Some e)).
    { unfold array. rewrite app_assoc. by rewrite lookup_app_r, length_app, length_fmap, Nat.sub_diag by (rewrite length_app, length_fmap; lia). }
    rewrite Hr. destruct (array !! length kept) as [y|] eqn:Hy.
    2:{ apply lookup_ge_None in Hy. apply lookup_lt_Some in Hr. lia. }
    rewrite without_cons, entry_matches_defines. destruct (defines name e).
    + destruct (IH kept (gap ++ [Some e]) fuel ltac:(lia)) as [tail' Ht]. exists tail'. rewrite <-Ht. unfold array.
      rewrite length_app. simpl. f_equal; [|lia]. by rewrite <-(app_assoc gap).
    + set (gap' := match gap with [] => [] | _ :: gap => gap ++ [Some e] end).
      destruct (IH (kept ++ [e]) gap' fuel ltac:(lia)) as [tail' Ht]. exists tail'. rewrite <-(app_assoc kept) in Ht.
      change ([e] ++ without name rest) with (e :: without name rest) in Ht. rewrite <-Ht.
      rewrite length_app, Nat.add_1_r. f_equal.
      * unfold array, gap'. rewrite insert_app_r_alt, length_fmap, Nat.sub_diag by (rewrite length_fmap; lia).
        rewrite fmap_app, <-app_assoc. destruct gap; simpl; [done|]. by rewrite <-app_assoc.
      * unfold gap'. destruct gap; [simpl; lia|]. rewrite length_app. simpl. lia.
Qed.

Lemma my_unsetenv_run name s : name_ok name -> env_array (environ (kern s)) ->
  exists env, my_unsetenv (Some name) s = Ret 0 (set_kern (EnvState (heap (kern s)) env) s) /\
    env_array env /\ until_null env = without name (visible s).
Proof.
  intros Hn [tail Hl]. unfold my_unsetenv. rewrite (proj2 (bad_name_spec name) Hn).
  unfold get_environ, bind, get, ret. change (default [] (Some name)) with name.
  assert (exists tail', compact (length (environ (kern s))) name (environ (kern s)) 0 0 s
    = Ret ((Some <$> without name (visible s)) ++ None :: tail') s) as [tail' Hr].
  { destruct (compact_run name s (visible s) [] [] tail (length (environ (kern s)))) as [tail' Hr].
    - unfold visible. rewrite Hl at 2. rewrite length_app, length_fmap. simpl. lia.
    - exists tail'. etrans; [|exact Hr]. exact (f_equal (fun a => compact (length (environ (kern s))) name a 0 0 s) Hl). }
  rewrite Hr. eexists. split; [reflexivity|].
  rewrite until_null_app. split; [|done]. exists tail'. by rewrite until_null_app.
Qed.

(** Setting a variable, whether it is there or not. *)
Lemma getenv_put_any n v n' env : EQUALS ∉ n -> EQUALS ∉ n' ->
  getenv n' (put_entry n (n ++ EQUALS :: v) env) = if bool_decide (n' = n) then Some v else getenv n' env.
Proof.
  intros Hn Hn'. induction env as [|e env IH]; [by apply getenv_put|]. simpl.
  destruct (defines n e) eqn:He; simpl.
  - pose proof (getenv_put n v n' [] Hn Hn' eq_refl) as Hp. simpl in Hp. destruct (defines n' (n ++ EQUALS :: v)).
    + case_bool_decide; [done|discriminate].
    + case_bool_decide as Hne; [discriminate|]. destruct (defines n' e) eqn:He'; [|done].
      destruct Hne. by eapply defines_unique.
  - rewrite IH. destruct (defines n' e) eqn:He'; [|done]. case_bool_decide; [congruence|done].
Qed.

(** C15: my_setenv and my_unsetenv keep the array, and agree with the functions
    of Environ on what every name is defined to be: my_unsetenv leaves exactly
    the entries that unsetenv leaves; my_setenv gives the name its value, unless
    it has one that is not to be overwritten, and changes no other. When it
    returns -1 nothing has changed, while setenv has then removed the variable.
    Names that are null, empty or hold an equals sign are refused. *)
Theorem my_environment_updates (name value : cstr) (overwrite : Z) s :
  env_array (environ (kern s)) ->
  (name_ok name ->
     (exists s' s1, my_unsetenv (Some name) s = Ret 0 s' /\ unsetenv (Some name) s = Ret 0 s1 /\
        env_array (environ (kern s')) /\ visible s' = visible s1 /\ visible s' = without name (visible s)) /\
     (exists v s', my_setenv (Some name) (Some value) overwrite s = Ret v s' /\ env_array (environ (kern s')) /\
        (v = 0 \/ v = -1 /\ environ (kern s') = environ (kern s)) /\
        (v = 0 -> forall n, EQUALS ∉ n -> getenv n (visible s') =
           if bool_decide (n = name) && negb (bool_decide (is_Some (getenv name (visible s))) && (overwrite =? 0))
           then Some value else getenv n (visible s)))) /\
  (~ name_ok name -> my_unsetenv (Some name) s = Ret (-1) s /\ my_setenv (Some name) (Some value) overwrite s = Ret (-1) s).
Proof.
  intros Ha. split.
  2:{ intros Hbad. assert (Hb : bad_name (Some name) = true).
      { apply not_false_iff_true. by rewrite bad_name_spec. }
      unfold my_setenv, my_unsetenv. by rewrite Hb. }
  intros Hn. pose proof Hn as [Hne Hneq]. split.
  { destruct (my_unsetenv_run name s Hn Ha) as (env & Hr & Ha' & Hv), (unsetenv_run name s Hn Ha) as (s1 & Hr1 & _ & Hv1 & _).
    eexists _, s1. split; [exact Hr|]. split; [exact Hr1|]. change (visible (set_kern (EnvState (heap (kern s)) env) s)) with (until_null env).
    by rewrite Hv, Hv1. }
  unfold my_setenv. rewrite (proj2 (bad_name_spec name) Hn). unfold get_environ, bind at 1 2, get, ret at 1.
  change (default [] (Some name)) with name. fold (visible s).
  destruct (bool_decide (is_Some (getenv name (visible s))) && (overwrite =? 0)).
  { exists 0, s. split; [done|]. split; [done|]. split; [by left|]. intros _ n _. by rewrite andb_false_r. }
  unfold malloc, syscall_, bind at 1. destruct (os_malloc (heap (kern s)) (strlen name + strlen value + 2)) as [h ok].
  destruct ok; cbn [negb]; [|eexists (-1), _; split; [reflexivity|]; split; [done|]; split; [by right|done]].
  rewrite snprintf_fits by (unfold strlen; rewrite !length_app; simpl; lia).
  unfold putenv, syscall, bind, get_environ, get, ret, set_environ, modify.
  cbn [kern set_kern environ heap]. destruct (os_putenv h) as [h2 [e|[]]]; cbn.
  - eexists (-1), _. split; [reflexivity|]. split; [done|]. split; [by right|done].
  - eexists 0, _. split; [reflexivity|]. unfold visible at 1. cbn [kern set_kern environ].
    change (map Some ?l ++ [None]) with ((Some <$> l) ++ None :: []).
    split; [exists []; by rewrite until_null_app|]. split; [by left|]. intros _ n Hnn.
    rewrite until_null_app, andb_true_r. apply getenv_put_any; done.
Qed.
End Props.

(** ** The test *)

(** Between the calls: what the two variables are and what has been printed. *)
Record testing (test multi : option cstr) (out : cstr) (s : proc (env_state bool)) : Prop := {
  te_heap : heap (kern s) = true;
  te_array : env_array (environ (kern s));
  te_test : getenv TEST_VAR (visible s) = test;
  te_multi : getenv MULTI_VAR (visible s) = multi;
  te_pending : out_pending s = out;
  te_done : out_done s = []
}.

Lemma names_ok : name_ok TEST_VAR /\ name_ok MULTI_VAR /\ TEST_VAR <> MULTI_VAR.
Proof. split_and!; (split; [done|]) || done; apply (bool_decide_unpack _); by vm_compute. Qed.

Lemma wp_test_say text test multi out (Q : unit -> proc (env_state bool) -> Prop) E s :
  testing test multi out s -> (forall s', testing test multi (out ++ lit text ++ [NEWLINE]) s' -> Q tt s') ->
  wp (say text) Q E s.
Proof. intros [] HQ. apply wp_modify, HQ. split; try done. simpl. congruence. Qed.

Lemma wp_show text name test multi out (Q : unit -> proc (env_state bool) -> Prop) E s :
  testing test multi out s -> (name = TEST_VAR \/ name = MULTI_VAR) ->
  (forall s', testing test multi (out ++ lit text ++ default (lit "(null)") (if bool_decide (name = TEST_VAR) then test else multi) ++ [NEWLINE]) s' -> Q tt s') ->
  wp (show_variable text name) Q E s.
Proof.
  intros [] Hn HQ. apply wp_bind, wp_bind, wp_get, wp_ret, wp_modify, HQ. split; try done. simpl. fold (visible s).
  destruct Hn as [-> | ->]; case_bool_decide; congruence.
Qed.

Lemma wp_test_setenv value overwrite test multi out (Q : Z -> proc (env_state bool) -> Prop) E s :
  testing test multi out s ->
  (forall v s', testing (if bool_decide (is_Some test) && (overwrite =? 0) then test else Some value) multi out s' -> Q v s') ->
  wp (my_setenv (Some TEST_VAR) (Some value) overwrite) Q E s.
Proof.
  intros [Hh Ha Ht Hm Hp Hd] HQ. destruct names_ok as (Hok & Hok' & Hne).
  unfold my_setenv. rewrite (proj2 (bad_name_spec _) Hok). apply wp_bind, wp_bind, wp_get, wp_ret.
  change (default [] (Some TEST_VAR)) with TEST_VAR. fold (visible s). rewrite Ht.
  destruct (bool_decide (is_Some test) && (overwrite =? 0)); [by apply wp_ret, HQ|].
  apply wp_bind, wp_syscall_. rewrite Hh. cbn [os_malloc demo_env_os fst snd negb].
  rewrite snprintf_fits by (unfold strlen; rewrite !length_app; simpl; lia).
  apply wp_bind, wp_syscall; [done|]. intros k [] Hk. cbn in Hk. injection Hk as <-.
  apply wp_bind, wp_bind, wp_get, wp_ret, wp_bind, wp_modify, wp_ret, HQ. split; cbn [kern set_kern environ heap out_pending out_done]; try done.
  - exists []. change (map Some ?l ++ [None]) with ((Some <$> l) ++ None :: []). by rewrite until_null_app.
  - unfold visible. cbn [kern set_kern environ]. change (map Some ?l ++ [None]) with ((Some <$> l) ++ None :: []).
    rewrite until_null_app, getenv_put_any by apply Hok. by rewrite bool_decide_eq_true_2.
  - unfold visible. cbn [kern set_kern environ]. change (map Some ?l ++ [None]) with ((Some <$> l) ++ None :: []).
    rewrite until_null_app, getenv_put_any by (apply Hok || apply Hok'). rewrite bool_decide_eq_false_2; [exact Hm|done].
Qed.

Lemma wp_test_putenv v test multi out (Q : Z -> proc (env_state bool) -> Prop) E s :
  testing test multi out s -> (forall r s', testing test (Some v) out s' -> Q r s') ->
  wp (putenv MULTI_VAR (MULTI_VAR ++ EQUALS :: v)) Q E s.
Proof.
  intros [Hh Ha Ht Hm Hp Hd] HQ. destruct names_ok as (Hok & Hok' & Hne).
  apply wp_bind, wp_syscall; [intros k e Hk; cbn in Hk; discriminate|]. intros k [] Hk. rewrite Hh in Hk. cbn in Hk. injection Hk as <-.
  apply wp_bind, wp_bind, wp_get, wp_ret, wp_bind, wp_modify, wp_ret, HQ.
  cbn [kern set_kern environ heap out_pending out_done]. change (map Some ?l ++ [None]) with ((Some <$> l) ++ None :: []).
  split; unfold visible; cbn [kern set_kern environ heap out_pending out_done]; rewrite ?until_null_app; try done.
  - exists []. by rewrite until_null_app.
  - rewrite getenv_put_any by (apply Hok || apply Hok'). rewrite bool_decide_eq_false_2; [exact Ht|done].
  - rewrite getenv_put_any by apply Hok'. by rewrite bool_decide_eq_true_2.
Qed.

Lemma wp_test_unsetenv name test multi out (Q : Z -> proc (env_state bool) -> Prop) E s :
  testing test multi out s -> (name = TEST_VAR \/ name = MULTI_VAR) ->
  (forall r s', testing (if bool_decide (TEST_VAR = name) then None else test)
     (if bool_decide (MULTI_VAR = name) then None else multi) out s' -> Q r s') ->
  wp (my_unsetenv (Some name)) Q E s.
Proof.
  intros [Hh Ha Ht Hm Hp Hd] Hn HQ. destruct names_ok as (Hok & Hok' & Hne).
  assert (Hname : name_ok name) by (by destruct Hn as [-> | ->]).
  destruct (my_unsetenv_run name s Hname Ha) as (env & Hr & Ha' & Hv). unfold wp. rewrite Hr.
  apply HQ. split; try done; unfold visible; cbn [kern set_kern environ]; rewrite Hv, getenv_without by (apply Hname || apply Hok || apply Hok').
  - by rewrite Ht.
  - by rewrite Hm.
Qed.

Definition test_output : cstr :=
  lit "Setting TEST_VAR=hello" ++ [NEWLINE] ++ lit "TEST_VAR=hello" ++ [NEWLINE] ++
  lit "Setting TEST_VAR=world with overwrite=0" ++ [NEWLINE] ++ lit "TEST_VAR=hello" ++ [NEWLINE] ++
  lit "Setting TEST_VAR=world with overwrite=1" ++ [NEWLINE] ++ lit "TEST_VAR=world" ++ [NEWLINE] ++
  lit "Before unsetenv, MULTI_VAR=value2" ++ [NEWLINE] ++ lit "Unsetting MULTI_VAR" ++ [NEWLINE] ++
  lit "After unsetenv, MULTI_VAR=(null)" ++ [NEWLINE] ++ lit "Unsetting TEST_VAR" ++ [NEWLINE] ++
  lit "After unsetenv, TEST_VAR=(null)" ++ [NEWLINE].

(** When nothing fails the output of the test is the same in every environment. *)
Theorem exercise_3_output (l : list (option cstr)) : env_array l ->
  wp exercise_3 (fun _ _ => False) (fun e s => e = EXIT_SUCCESS /\ out_done s = test_output)
    (Proc (EnvState true l) 0 None [] [] []).
Proof.
  intros Hl. set (s0 := Proc _ _ _ _ _ _).
  assert (H0 : testing (getenv TEST_VAR (visible s0)) (getenv MULTI_VAR (visible s0)) [] s0) by done.
  unfold exercise_3, test_env_functions. apply wp_bind.
  apply wp_bind. eapply wp_test_say; [exact H0|]. clear H0. intros s H.
  apply wp_bind. eapply wp_test_setenv; [exact H|]. clear s H. intros v s H. rewrite andb_false_r in H.
  apply wp_bind. eapply wp_show; [exact H|by left|]. clear s H. intros s H.
  apply wp_bind. eapply wp_test_say; [exact H|]. clear s H. intros s H.
  apply wp_bind. eapply wp_test_setenv; [exact H|]. clear s H. intros v' s H.
  apply wp_bind. eapply wp_show; [exact H|by left|]. clear s H. intros s H.
  apply wp_bind. eapply wp_test_say; [exact H|]. clear s H. intros s H.
  apply wp_bind. eapply wp_test_setenv; [exact H|]. clear s H. intros v'' s H.
  apply wp_bind. eapply wp_show; [exact H|by left|]. clear s H. intros s H.
  apply wp_bind. apply (wp_test_putenv (lit "value1") _ _ _ _ _ _ H). clear s H. intros r s H.
  apply wp_bind. apply (wp_test_putenv (lit "value2") _ _ _ _ _ _ H). clear s H. intros r' s H.
  apply wp_bind. eapply wp_show; [exact H|by right|]. clear s H. intros s H.
  apply wp_bind. eapply wp_test_say; [exact H|]. clear s H. intros s H.
  apply wp_bind. eapply wp_test_unsetenv; [exact H|by right|]. clear s H. intros v1 s H.
  apply wp_bind. eapply wp_show; [exact H|by right|]. clear s H. intros s H.
  apply wp_bind. eapply wp_test_say; [exact H|]. clear s H. intros s H.
  apply wp_bind. eapply wp_test_unsetenv; [exact H|by left|]. clear s H. intros v2 s H.
  eapply wp_show; [exact H|by left|]. clear s H. intros s [].
  apply wp_bind, wp_modify, wp_exit. split; [done|]. cbn [out_done set_out]. rewrite te_pending0, te_done0. by vm_compute.
Qed.

Lemma exercise_3_output_witness :
  wp exercise_3 (fun _ _ => False) (fun e s => e = EXIT_SUCCESS /\ out_done s = test_output)
    (Proc (EnvState true [Some (lit "TEST_VAR=x"); None]) 0 None [] [] []).
Proof. apply exercise_3_output. by exists []. Defined.

Lemma my_environment_updates_witness :
  exists v s', my_setenv (Some (lit "TT")) (Some (lit "2")) 1 (demo_env true) = Ret v s' /\ env_array (environ (kern s')) /\
    (v = 0 \/ v = -1 /\ environ (kern s') = environ (kern (demo_env true))).
Proof.
  destruct (my_environment_updates (lit "TT") (lit "2") 1 (demo_env true)) as [H _]; [by exists []|].
  destruct H as [_ (v & s' & Hr & Ha & Hv & _)]; [|by exists v, s']. split; [done|].
  apply (bool_decide_unpack _). by vm_compute.
Defined.

(** A null value is read, where setenv of setenv.c reports it. *)
Example null_value : my_setenv (Some (lit "A")) None 1 (demo_env true) = Undef.
Proof. by vm_compute. Qed.
