(* ===== verification/Execlp.v ===== *)
(** procexec/execlp.c (src/tlpi-dist): execlp on top of execve, with its
    search of PATH.

    [os_alloc] is the heap: calloc, realloc, malloc and strdup, each of which
    may fail. [os_execve] gives the error, or [None] when another program runs
    instead; a null pathname is [None]. *)
From Stdlib Require Import ZArith Lia Ascii String.
From stdpp Require Import base tactics list strings.
From S2P Require Import Prelude CString Process Environ.
#[local] Open Scope Z_scope.

Class ExecOS (K : Type) := {
  os_alloc : K -> K * bool;
  os_execve : K -> option cstr -> list cstr -> list cstr -> K * option Z
}.

Definition SHELL_PATH : cstr := lit "/bin/sh".

Section Code.
Context {K : Type} {OS : ExecOS K}.
Abbreviation PM := (M (proc K)).

Definition alloc : PM bool := syscall_ os_alloc.

(** [execve] returns only with an error, left in [errno]. *)
Definition execve (path : option cstr) (argv envp : list cstr) : PM unit :=
  let! r := syscall_ (fun k => os_execve k path argv envp) in
  match r with
  | None => exit EXECED
  | Some e => modify (set_errno e)
  end.

(** [shArgv] has room for [argc] + 1 pointers; stores past it, and reads past
    the [argc] pointers of [argv], are undefined. *)
Fixpoint sh_copy (room : Z) (argv : list (option cstr)) (j : nat) (todo : nat)
    (shArgv : list (option cstr)) : PM (list (option cstr)) :=
  match todo with
  | O => ret shArgv
  | S todo =>
      match argv !! j with
      | Some a =>
          if Z.of_nat j + 1 <? room then sh_copy room argv (S j) todo (shArgv ++ [a]) else undef
      | None => undef
      end
  end.

Definition execShScript (argc : Z) (argv : list (option cstr)) (envp : list cstr) : PM unit :=
  let! shArgv := sh_copy (argc + 1) argv 0 (Z.to_nat (argc + 1)) [Some SHELL_PATH] in
  execve (Some SHELL_PATH) (until_null shArgv) envp.

(** Building [argv] from the remaining arguments; [None] is a failed
    realloc. *)
Fixpoint argv_loop (rest : list (option cstr)) (argv : list (option cstr)) (argvSize : Z) :
    PM (option (list (option cstr))) :=
  match last argv with
  | None => undef
  | Some None => ret (Some argv)
  | Some (Some _) =>
      let argc := Z.of_nat (length argv) in
      match rest with
      | [] => undef
      | a :: rest =>
          let store argvSize :=
            if argc <? argvSize then argv_loop rest (argv ++ [a]) argvSize else undef in
          if argvSize <=? argc + 1 then
            let! ok := alloc in
            if negb ok then ret None else store (argvSize + 100)
          else store argvSize
      end
  end.

Fixpoint dup_env (environ : list cstr) : PM (list (option cstr)) :=
  match environ with
  | [] => ret [None]
  | e :: rest =>
      let! ok := alloc in
      let! envp := dup_env rest in
      ret ((if ok then Some e else None) :: envp)
  end.

(** The pathname for a prefix, in the memory allocated for it. *)
Definition build_pathname (prefix filename : cstr) : PM cstr :=
  let size := Z.max 1 (strlen prefix) + strlen filename + 2 in
  let! ok := alloc in
  if negb ok then undef
  else
    let pathname := (if bool_decide (prefix = []) then lit "." else prefix) ++ SLASH :: filename in
    if strlen pathname + 1 <=? size then ret pathname else undef.

(** The loop over the prefixes of PATH from [prStart] on; the results are
    [savedErrno] and [fndEACCES], or [None] for a loop that is not finished. *)
Fixpoint path_loop (fuel : nat) (filename prStart : cstr) (argv : list (option cstr))
    (envp : list cstr) (fndEACCES : bool) : PM (option (Z * bool)) :=
  match fuel with
  | O => ret None
  | S fuel =>
      let (prefix, more) :=
        match strchr COLON prStart with
        | Some (prefix, rest) => (prefix, Some rest)
        | None => (prStart, None)
        end in
      let! pathname := build_pathname prefix filename in
      execve (Some pathname) (until_null argv) envp ;;;
      let! s := get in
      let savedErrno := errno s in
      let fndEACCES := if savedErrno =? EACCES then true else fndEACCES in
      when (savedErrno =? ENOEXEC)
        (execShScript (Z.of_nat (length argv)) argv envp) ;;;
      match more with
      | Some rest => path_loop fuel filename rest argv envp fndEACCES
      | None => ret (Some (savedErrno, fndEACCES))
      end
  end.

(** [args] are [arg] and the arguments after it, up to the null pointer. *)
Definition execlp (filename : cstr) (args : list cstr) (environ : list cstr) : PM (option Z) :=
  let! ok := alloc in
  if negb ok then ret (Some (-1))
  else
    let all := (Some <$> args) ++ [None] in
    let! argv := argv_loop (drop 1 all) (take 1 all) 100 in
    match argv with
    | None => ret (Some (-1))
    | Some argv =>
        let! ok := alloc in
        if negb ok then ret (Some (-1))
        else
          let! dup := dup_env environ in
          let envp := until_null dup in
          let! r :=
            match strchr SLASH filename with
            | Some _ =>
                let! ok := alloc in
                execve (if ok then Some filename else None) (until_null argv) envp ;;;
                let! s := get in
                let savedErrno := errno s in
                when (savedErrno =? ENOEXEC)
                  (execShScript (Z.of_nat (length argv)) argv envp) ;;;
                ret (Some (savedErrno, false))
            | None =>
                let PATH :=
                  match getenv (lit "PATH") environ with
                  | None => lit "."
                  | Some p => if bool_decide (p = []) then lit "." else p
                  end in
                let! ok := alloc in
                if negb ok then undef
                else path_loop (S (length PATH)) filename PATH argv envp false
            end in
          match r with
          | None => ret None
          | Some (savedErrno, fndEACCES) =>
              modify (set_errno (if fndEACCES then EACCES else savedErrno)) ;;; ret (Some (-1))
          end
    end.

End Code.

(** ** What execlp promises *)

(** The pieces of a string between the [c]s. *)
Fixpoint split_on (c : ascii) (s : cstr) : list cstr :=
  match s with
  | [] => [[]]
  | x :: s =>
      if bool_decide (x = c) then [] :: split_on c s
      else match split_on c s with
           | p :: ps => (x :: p) :: ps
           | [] => [[x]]
           end
  end.

Definition in_directory (filename p : cstr) : cstr :=
  (if bool_decide (p = []) then lit "." else p) ++ SLASH :: filename.

(** The pathnames to try: the name itself if it has a slash, and otherwise one
    for each directory of PATH, an empty one standing for the current
    directory, which also stands for a missing or empty PATH. *)
Definition candidates (filename : cstr) (environ : list cstr) : list cstr :=
  if bool_decide (SLASH ∈ filename) then [filename]
  else in_directory filename <$> split_on COLON
    (match getenv (lit "PATH") environ with
     | None | Some [] => lit "."
     | Some p => p
     end).

Inductive tried := Replaced | NotABinary | AllFailed (errors : list Z).

Section Spec.
Context {K : Type} {OS : ExecOS K}.
Implicit Types (s : proc K).

Fixpoint try_all (k : K) (names argv envp : list cstr) : K * tried :=
  match names with
  | [] => (k, AllFailed [])
  | p :: names =>
      match os_execve k (Some p) argv envp with
      | (k, None) => (k, Replaced)
      | (k, Some e) =>
          if e =? ENOEXEC then (k, NotABinary)
          else match try_all k names argv envp with
               | (k, AllFailed es) => (k, AllFailed (e :: es))
               | r => r
               end
      end
  end.

Definition final_errno (es : list Z) : Z :=
  if bool_decide (EACCES ∈ es) then EACCES else default 0 (last es).

Lemma split_on_strchr c t :
  split_on c t = match strchr c t with
                 | Some (p, rest) => p :: split_on c rest
                 | None => [t]
                 end.
Proof.
  induction t as [|x t IH]; simpl; [done|]. case_bool_decide; [done|]. rewrite IH.
  by destruct (strchr c t) as [[p rest]|].
Qed.

Lemma strchr_shorter c t p rest : strchr c t = Some (p, rest) -> (length rest < length t)%nat.
Proof. intros [-> _]%strchr_Some. rewrite length_app. simpl. lia. Qed.

Lemma until_null_args (args : list cstr) : until_null ((Some <$> args) ++ [None]) = args.
Proof. induction args as [|a args IH]; simpl; [done|]. by f_equal. Qed.

(** The copy for the shell always overruns its array. *)
Lemma sh_copy_overruns argc (argv : list (option cstr)) j todo sh s :
  (j + todo = argc + 1)%nat -> (0 < todo)%nat -> sh_copy (Z.of_nat argc + 1) argv j todo sh s = Undef.
Proof.
  revert j sh. induction todo as [|todo IH]; intros j sh Hj H0; [lia|]. simpl.
  destruct (argv !! j) as [a|]; [|done]. destruct (Z.ltb_spec (Z.of_nat j + 1) (Z.of_nat argc + 1)); [|done].
  apply IH; lia.
Qed.

Lemma execShScript_undef argc argv envp s :
  0 <= argc -> execShScript argc argv envp s = Undef.
Proof.
  intros Ha. unfold execShScript, bind. rewrite <-(Z2Nat.id argc) by done.
  rewrite sh_copy_overruns; [done|lia..].
Qed.

Context (Halloc : forall k, os_alloc k = (k, true)).

Lemma alloc_run s : alloc s = Ret true s.
Proof. unfold alloc, syscall_. rewrite Halloc. by destruct s. Qed.

Lemma argv_loop_run (front rest : list cstr) a size s :
  Z.of_nat (length front) + 1 < size ->
  argv_loop ((Some <$> rest) ++ [None]) ((Some <$> front) ++ [Some a]) size s =
  Ret (Some ((Some <$> front ++ a :: rest) ++ [None])) s.
Proof.
  revert front a size s. induction rest as [|b rest IH]; intros front a size s Hs; simpl;
    rewrite last_snoc.
  - rewrite length_app, length_fmap. simpl.
    assert (Hl : forall size s', Z.of_nat (length front + 1) < size ->
      (if Z.of_nat (length front + 1) <? size then
         match last (((Some <$> front) ++ [Some a]) ++ [None]) with
         | Some (Some _) => undef | Some None => ret (Some (((Some <$> front) ++ [Some a]) ++ [None]))
         | None => undef end else undef) s' = Ret (Some ((Some <$> front ++ [a]) ++ [None])) s').
    { intros sz s' H. destruct (Z.ltb_spec (Z.of_nat (length front + 1)) sz); [|lia].
      rewrite last_snoc, fmap_app. done. }
    destruct (_ <=? _); [unfold bind; rewrite alloc_run|]; apply Hl; lia.
  - rewrite length_app, length_fmap. simpl.
    assert (Hl : forall size s', Z.of_nat (length front) + 2 < size ->
      (if Z.of_nat (length front + 1) <? size then
         argv_loop ((Some <$> rest) ++ [None]) (((Some <$> front) ++ [Some a]) ++ [Some b]) size
       else undef) s' = Ret (Some ((Some <$> front ++ a :: b :: rest) ++ [None])) s').
    { intros sz s' H. destruct (Z.ltb_spec (Z.of_nat (length front + 1)) sz); [|lia].
      specialize (IH (front ++ [a]) b sz s'). rewrite fmap_app in IH. simpl in IH.
      rewrite IH by (rewrite length_app; simpl; lia). by rewrite <-app_assoc. }
    destruct (Z.leb_spec size (Z.of_nat (length front + 1) + 1));
      [unfold bind; rewrite alloc_run|]; apply Hl; lia.
Qed.

Lemma dup_env_run environ s : dup_env environ s = Ret ((Some <$> environ) ++ [None]) s.
Proof.
  revert s. induction environ as [|e environ IH]; intros s; simpl; [done|].
  unfold bind. rewrite alloc_run, IH. done.
Qed.

Lemma build_pathname_run p filename s :
  build_pathname p filename s = Ret (in_directory filename p) s.
Proof.
  unfold build_pathname, bind. rewrite alloc_run. cbn [negb]. fold (in_directory filename p).
  destruct (Z.leb_spec (strlen (in_directory filename p) + 1)
    (Z.max 1 (strlen p) + strlen filename + 2)) as [|Hx]; [done|].
  exfalso. unfold in_directory, strlen in Hx. rewrite length_app in Hx. simpl in Hx.
  case_bool_decide; simpl in Hx; lia.
Qed.

Lemma execve_run p argv envp s :
  execve p argv envp s =
  match os_execve (kern s) p argv envp with
  | (k, None) => Exit EXECED (set_kern k s)
  | (k, Some e) => Ret tt (set_errno e (set_kern k s))
  end.
Proof. unfold execve, bind, syscall_. by destruct (os_execve _ _ _ _) as [k [e|]]. Qed.

(** One turn of the loop. *)
Lemma path_step fuel filename p argv envp fnd s :
  path_loop (S fuel) filename p argv envp fnd s =
  let (q, more) := match strchr COLON p with
    | Some (q, rest) => (q, Some rest)
    | None => (p, None)
    end in
  match os_execve (kern s) (Some (in_directory filename q)) (until_null argv) envp with
  | (k, None) => Exit EXECED (set_kern k s)
  | (k, Some e) =>
      let s := set_errno e (set_kern k s) in
      let fnd := if e =? EACCES then true else fnd in
      if e =? ENOEXEC then Undef
      else match more with
           | Some rest => path_loop fuel filename rest argv envp fnd s
           | None => Ret (Some (e, fnd)) s
           end
  end.
Proof.
  simpl. destruct (match strchr COLON p with Some (q, rest) => (q, Some rest) | None => (p, None) end)
    as [q more]. unfold bind at 1. rewrite build_pathname_run. unfold bind at 1. rewrite execve_run.
  destruct (os_execve (kern s) (Some (in_directory filename q)) (until_null argv) envp) as [k [e|]];
    [|done]. unfold bind, get, when. simpl. destruct (e =? ENOEXEC); [|by destruct more].
  by rewrite execShScript_undef by lia.
Qed.

Lemma eacces_snoc fnd e es :
  (if e =? EACCES then true else fnd) || bool_decide (EACCES ∈ es)
  = fnd || bool_decide (EACCES ∈ e :: es).
Proof.
  destruct (Z.eqb_spec e EACCES) as [->|Hn].
  - rewrite (bool_decide_eq_true_2 (EACCES ∈ EACCES :: es)) by by left. by rewrite orb_true_r.
  - f_equal. apply bool_decide_ext. rewrite elem_of_cons. naive_solver.
Qed.

(** The loop tries the rest of PATH. *)
Lemma path_loop_run fuel filename p argv envp fnd s :
  (length p < fuel)%nat ->
  match try_all (kern s) (in_directory filename <$> split_on COLON p) (until_null argv) envp with
  | (k, Replaced) => exists s', path_loop fuel filename p argv envp fnd s = Exit EXECED s' /\ kern s' = k
  | (k, NotABinary) => path_loop fuel filename p argv envp fnd s = Undef
  | (k, AllFailed es) => exists s' e, es <> [] /\ last es = Some e /\
      path_loop fuel filename p argv envp fnd s
        = Ret (Some (e, fnd || bool_decide (EACCES ∈ es))) s' /\ kern s' = k
  end.
Proof.
  revert p fnd s. induction fuel as [|fuel IH]; intros p fnd s Hf; [lia|].
  rewrite path_step, (split_on_strchr COLON p).
  destruct (strchr COLON p) as [[q rest]|] eqn:Hp; [apply strchr_shorter in Hp|];
    rewrite fmap_cons; cbn [try_all];
    destruct (os_execve (kern s) (Some (in_directory filename _)) (until_null argv) envp)
      as [k [e|]] eqn:He; try (by eexists); destruct (Z.eqb_spec e ENOEXEC) as [->|Hne]; try done.
  - specialize (IH rest (if e =? EACCES then true else fnd) (set_errno e (set_kern k s))).
    cbn [kern set_errno set_kern] in IH.
    destruct (try_all k _ (until_null argv) envp) as [k' [| |es]]; [apply IH; lia..|].
    destruct IH as (s' & e' & Hes & Hl & Hr & Hk); [lia|].
    exists s', e'. split_and!; [done| | |done].
    + destruct es as [|x es]; [done|]. by rewrite last_cons_cons.
    + by rewrite <-eacces_snoc.
  - exists (set_errno e (set_kern k s)), e. split_and!; [done|done| |done]. rewrite <-eacces_snoc.
    by rewrite bool_decide_eq_false_2, orb_false_r by apply not_elem_of_nil.
Qed.

(** What comes before the search. *)
Lemma execlp_run filename args environ s :
  execlp filename args environ s =
  (let! r :=
     match strchr SLASH filename with
     | Some _ =>
         execve (Some filename) args environ ;;;
         let! s := get in
         when (errno s =? ENOEXEC) undef ;;;
         ret (Some (errno s, false))
     | None =>
         let PATH :=
           match getenv (lit "PATH") environ with
           | None => lit "."
           | Some p => if bool_decide (p = []) then lit "." else p
           end in
         path_loop (S (length PATH)) filename PATH ((Some <$> args) ++ [None]) environ false
     end in
   match r with
   | None => ret None
   | Some (savedErrno, fndEACCES) =>
       modify (set_errno (if fndEACCES then EACCES else savedErrno)) ;;; ret (Some (-1))
   end) s.
Proof.
  unfold execlp. unfold bind at 1. rewrite alloc_run. cbn [negb].
  assert (Hargv : forall s, argv_loop (drop 1 ((Some <$> args) ++ [None])) (take 1 ((Some <$> args) ++ [None]))
    100 s = Ret (Some ((Some <$> args) ++ [None])) s).
  { intros s'. destruct args as [|a args]; [done|]. by apply (argv_loop_run [] args a 100). }
  unfold bind at 1. rewrite Hargv. unfold bind at 1. rewrite alloc_run. cbn [negb].
  unfold bind at 1. rewrite dup_env_run, !until_null_args.
  destruct (strchr SLASH filename).
  - unfold bind at 1 2. rewrite alloc_run. unfold bind at 1. rewrite execve_run.
    unfold bind at 4 5. rewrite execve_run.
    destruct (os_execve (kern s) (Some filename) args environ) as [k [e|]]; [|done].
    unfold bind, get, when, set_kern, set_errno. simpl.
    destruct (e =? ENOEXEC); [|done]. by rewrite execShScript_undef by lia.
  - unfold bind at 1 2. by rewrite alloc_run.
Qed.

(** C10: When no allocation fails, execlp tries the candidates in order, with
    exactly the given arguments and environment, until one runs; if none can
    be run it returns -1 with EACCES if any attempt gave it and otherwise the
    last error, whatever the length of PATH and of the argument list. A
    candidate that is not a binary, which the shell should run, makes it
    overrun an array instead. *)
Theorem execlp_searches (filename : cstr) (args environ : list cstr) s :
  match try_all (kern s) (candidates filename environ) args environ with
  | (k, Replaced) => exists s', execlp filename args environ s = Exit EXECED s' /\ kern s' = k
  | (k, NotABinary) => execlp filename args environ s = Undef
  | (k, AllFailed es) => exists s',
      execlp filename args environ s = Ret (Some (-1)) s' /\ kern s' = k /\
      errno s' = final_errno es
  end.
Proof.
  rewrite execlp_run. unfold candidates, final_errno.
  destruct (strchr SLASH filename) as [[q rest]|] eqn:Hs.
  - apply strchr_Some in Hs as [Hq _].
    rewrite bool_decide_eq_true_2 by (rewrite Hq; apply elem_of_app; right; by left).
    cbn [try_all]. unfold bind. rewrite execve_run.
    destruct (os_execve (kern s) (Some filename) args environ) as [k [e|]]; [|by eexists].
    unfold get, when. simpl. destruct (Z.eqb_spec e ENOEXEC); [done|]. simpl.
    eexists. split; [done|]. split; [done|]. simpl. case_bool_decide as He; [|done].
    by apply list_elem_of_singleton in He.
  - apply strchr_None in Hs. rewrite bool_decide_eq_false_2 by done.
    replace (match getenv (lit "PATH") environ with
      | None => lit "." | Some p => if bool_decide (p = []) then lit "." else p end)
      with (match getenv (lit "PATH") environ with None | Some [] => lit "." | Some p => p end)
      by by destruct (getenv (lit "PATH") environ) as [[|]|].
    set (PATH := match getenv (lit "PATH") environ with None | Some [] => lit "." | Some p => p end).
    pose proof (path_loop_run (S (length PATH)) filename PATH ((Some <$> args) ++ [None]) environ
      false s ltac:(lia)) as H. rewrite until_null_args in H. unfold bind.
    destruct (try_all (kern s) _ args environ) as [k [| |es]].
    + destruct H as (s' & -> & Hk). by exists s'.
    + by rewrite H.
    + destruct H as (s' & e & _ & Hl & -> & Hk). eexists. split; [done|]. simpl. split; [done|].
      rewrite Hl. simpl. done.
Qed.

End Spec.

(** ** Two programs and a script *)

#[export] Instance demo_exec_os : ExecOS (list cstr) := {
  os_alloc k := (k, true);
  os_execve k p argv envp :=
    (k ++ option_list p,
     if bool_decide (p = Some (lit "/usr/bin/ls")) then None
     else if bool_decide (p = Some (lit "./script")) then Some ENOEXEC
     else if bool_decide (p = Some (lit "/root/x")) then Some EACCES else Some 2)
}.

Definition demo_environ : list cstr := [lit "HOME=/"; lit "PATH=/bin:/root::/usr/bin"].
Definition demo_exec : proc (list cstr) := Proc [] 0 None [] [] [].

Example candidates_ls : candidates (lit "ls") demo_environ =
  [lit "/bin/ls"; lit "/root/ls"; lit "./ls"; lit "/usr/bin/ls"].
Proof. reflexivity. Qed.

Lemma execlp_searches_witness :
  (exists s', execlp (lit "ls") [lit "ls"] demo_environ demo_exec = Exit EXECED s' /\
    kern s' = [lit "/bin/ls"; lit "/root/ls"; lit "./ls"; lit "/usr/bin/ls"]) /\
  execlp (lit "script") [lit "script"] demo_environ demo_exec = Undef /\
  (exists s', execlp (lit "x") [lit "x"] demo_environ demo_exec = Ret (Some (-1)) s' /\
    kern s' = [lit "/bin/x"; lit "/root/x"; lit "./x"; lit "/usr/bin/x"] /\ errno s' = EACCES).
Proof.
  assert (H : forall k : list cstr, os_alloc k = (k, true)) by done.
  split_and!.
  - apply (execlp_searches H (lit "ls") [lit "ls"] demo_environ demo_exec).
  - apply (execlp_searches H (lit "script") [lit "script"] demo_environ demo_exec).
  - apply (execlp_searches H (lit "x") [lit "x"] demo_environ demo_exec).
Defined.
