(* ===== verification/SystemCmd.v ===== *)
(** procexec/system.c (src/tlpi-dist): system on top of fork, execl and waitpid,
    with its handling of SIGCHLD, SIGINT and SIGQUIT.

    Errors of sigprocmask and sigaction are ignored by the source; with these
    arguments there are none. The child that fork makes starts from a kernel
    state of its own. *)
From Stdlib Require Import ZArith Lia Ascii String.
From stdpp Require Import base tactics list strings gmap sets.
From S2P Require Import Prelude CString Process.
#[local] Open Scope Z_scope.

Inductive handler := SIG_DFL | SIG_IGN | SIG_FUNCTION (f : Z).
#[export] Instance handler_eq_dec : EqDecision handler.
Proof. solve_decision. Defined.

Record sigact := Sigaction { sa_handler : handler; sa_flags : Z; sa_mask : gset Z }.

Inductive mask_how := SIG_BLOCK | SIG_SETMASK.

Definition SIGINT : Z := 2.
Definition SIGQUIT : Z := 3.
Definition SIGCHLD : Z := 17.

(** Each call gives the old mask or action; fork the identifier and the state
    of the child; execl [None] when the shell runs instead. *)
Class SignalOS (K : Type) := {
  os_sigprocmask : K -> mask_how -> gset Z -> K * gset Z;
  os_sigaction : K -> Z -> sigact -> K * sigact;
  os_fork : K -> K * (Z + (Z * K));
  os_waitpid : K -> Z -> K * (Z + Z);
  os_execl : K -> list cstr -> K * option Z
}.

Section Code.
Context {K : Type} {OS : SignalOS K}.
Abbreviation PM := (M (proc K)).

Definition sigprocmask (how : mask_how) (m : gset Z) : PM (gset Z) :=
  syscall_ (fun k => os_sigprocmask k how m).
Definition sigaction (sig : Z) (act : sigact) : PM sigact :=
  syscall_ (fun k => os_sigaction k sig act).

Definition saIgnore : sigact := Sigaction SIG_IGN 0 ∅.
Definition saDefault : sigact := Sigaction SIG_DFL 0 ∅.

(** [case 0] of the switch: what the child does. *)
Definition system_child (command : cstr) (saOrigInt saOrigQuit : sigact) (origMask : gset Z) :
    PM unit :=
  when (bool_decide (sa_handler saOrigInt <> SIG_IGN)) (sigaction SIGINT saDefault ;;; ret tt) ;;;
  when (bool_decide (sa_handler saOrigQuit <> SIG_IGN)) (sigaction SIGQUIT saDefault ;;; ret tt) ;;;
  sigprocmask SIG_SETMASK origMask ;;;
  let! r := syscall_ (fun k =>
    os_execl k [lit "/bin/sh"; lit "sh"; lit "-c"; command]) in
  match r with
  | None => exit EXECED
  | Some e => modify (set_errno e) ;;; exit (EXIT_STATUS 127)
  end.

(** The loop around waitpid: [None] is a loop that is not finished. *)
Fixpoint wait_loop (fuel : nat) (childPid : Z) : PM (option Z) :=
  match fuel with
  | O => ret None
  | S fuel =>
      let! r := syscall (fun k => os_waitpid k childPid) in
      match r with
      | Some status => ret (Some status)
      | None =>
          let! s := get in
          if errno s =? EINTR then wait_loop fuel childPid else ret (Some (-1))
      end
  end.

(** The end of system: unblock SIGCHLD, restore SIGINT and SIGQUIT. *)
Definition restore_signals (saOrigInt saOrigQuit : sigact) (origMask : gset Z) : PM unit :=
  let! s := get in
  let savedErrno := errno s in
  sigprocmask SIG_SETMASK origMask ;;;
  sigaction SIGINT saOrigInt ;;;
  sigaction SIGQUIT saOrigQuit ;;;
  modify (set_errno savedErrno).

(** [system(command)] for a [command] that is not null, in the parent. *)
Definition system_command (fuel : nat) (command : cstr) : PM (option Z) :=
  let! origMask := sigprocmask SIG_BLOCK {[ SIGCHLD ]} in
  let! saOrigInt := sigaction SIGINT saIgnore in
  let! saOrigQuit := sigaction SIGQUIT saIgnore in
  let! childPid := syscall os_fork in
  let! status :=
    match childPid with
    | None => ret (Some (-1))
    | Some (childPid, _) => wait_loop fuel childPid
    end in
  match status with
  | None => ret None
  | Some status =>
      restore_signals saOrigInt saOrigQuit origMask ;;; ret (Some status)
  end.

Definition system (fuel : nat) (command : option cstr) : PM (option Z) :=
  match command with
  | Some command => system_command fuel command
  | None =>
      let! r := system_command fuel (lit ":") in
      ret (match r with Some st => Some (if st =? 0 then 1 else 0) | None => None end)
  end.

End Code.

(** ** Signal attributes *)

(** What POSIX says of these calls: the mask and the actions of a process; fork
    copies them and waitpid leaves them alone. [interrupts] bounds the signals
    that still interrupt waitpid. *)
Class SignalLaws (K : Type) {OS : SignalOS K} := {
  mask : K -> gset Z;
  action : K -> Z -> sigact;
  interrupts : K -> nat;
  sg_procmask k how m k' old : os_sigprocmask k how m = (k', old) ->
    old = mask k /\ mask k' = (match how with SIG_BLOCK => mask k ∪ m | SIG_SETMASK => m end) /\
    action k' = action k /\ interrupts k' = interrupts k;
  sg_action k sig act k' old : os_sigaction k sig act = (k', old) ->
    old = action k sig /\ action k' sig = act /\ mask k' = mask k /\
    (forall x, x <> sig -> action k' x = action k x) /\ interrupts k' = interrupts k;
  sg_fork k k' r : os_fork k = (k', r) ->
    mask k' = mask k /\ action k' = action k /\ interrupts k' = interrupts k /\
    (forall pid kc, r = inr (pid, kc) -> mask kc = mask k /\ action kc = action k);
  sg_waitpid k pid k' r : os_waitpid k pid = (k', r) ->
    mask k' = mask k /\ action k' = action k /\
    (r = inl EINTR -> (interrupts k' < interrupts k)%nat);
  sg_execl k args k' r : os_execl k args = (k', r) -> mask k' = mask k /\ action k' = action k
}.

Section Theorems.
Context {K : Type} {OS : SignalOS K} {SL : SignalLaws K}.
Implicit Types (s : proc K).

(** The state of a kernel while the command runs. *)
Definition guarded_as (k0 k : K) : Prop :=
  mask k = mask k0 ∪ {[ SIGCHLD ]} /\ action k SIGINT = saIgnore /\ action k SIGQUIT = saIgnore /\
  forall x, x <> SIGINT -> x <> SIGQUIT -> action k x = action k0 x.

(** What the child's shell starts with: the caller's mask; SIGINT and SIGQUIT
    ignored if the caller ignores them and otherwise at their defaults; the
    caller's other actions. *)
Definition shell_attributes (k0 k : K) : Prop :=
  mask k = mask k0 /\
  (forall x, x = SIGINT \/ x = SIGQUIT -> sa_handler (action k x) =
     if bool_decide (sa_handler (action k0 x) = SIG_IGN) then SIG_IGN else SIG_DFL) /\
  forall x, x <> SIGINT -> x <> SIGQUIT -> action k x = action k0 x.

Lemma wp_sigaction sig act (Q : sigact -> proc K -> Prop) E s :
  (forall k, action k sig = act -> mask k = mask (kern s) -> interrupts k = interrupts (kern s) ->
     (forall x, x <> sig -> action k x = action (kern s) x) ->
     Q (action (kern s) sig) (set_kern k s)) ->
  wp (sigaction sig act) Q E s.
Proof.
  intros HQ. unfold wp, sigaction, syscall_. destruct (os_sigaction (kern s) sig act) as [k old] eqn:Hk.
  destruct (sg_action _ _ _ _ _ Hk) as (-> & H1 & H2 & H3 & H4). by apply HQ.
Qed.

Lemma wp_sigprocmask how m (Q : gset Z -> proc K -> Prop) E s :
  (forall k, action k = action (kern s) -> interrupts k = interrupts (kern s) ->
     mask k = (match how with SIG_BLOCK => mask (kern s) ∪ m | SIG_SETMASK => m end) ->
     Q (mask (kern s)) (set_kern k s)) ->
  wp (sigprocmask how m) Q E s.
Proof.
  intros HQ. unfold wp, sigprocmask, syscall_. destruct (os_sigprocmask (kern s) how m) as [k old] eqn:Hk.
  destruct (sg_procmask _ _ _ _ _ Hk) as (-> & H1 & H2 & H3). by apply HQ.
Qed.

(** The child. *)
Lemma wp_when_default b sig s (Q : unit -> proc K -> Prop) E :
  (forall s', errno s' = errno s -> mask (kern s') = mask (kern s) ->
     (forall x, x <> sig -> action (kern s') x = action (kern s) x) ->
     action (kern s') sig = (if b : bool then saDefault else action (kern s) sig) -> Q tt s') ->
  wp (when b (sigaction sig saDefault ;;; ret tt)) Q E s.
Proof.
  intros HQ. apply wp_when; intros ->; [|by apply HQ].
  apply wp_bind, wp_sigaction. intros k H1 H2 _ H3. by apply wp_ret, HQ.
Qed.

Lemma ignored_or_default (h : handler) :
  sa_handler (if bool_decide (h <> SIG_IGN) then saDefault else saIgnore) =
  if bool_decide (h = SIG_IGN) then SIG_IGN else SIG_DFL.
Proof. by destruct h. Qed.

Lemma child_attributes command k0 s :
  guarded_as k0 (kern s) ->
  wp (system_child command (action k0 SIGINT) (action k0 SIGQUIT) (mask k0))
    (fun _ _ => False)
    (fun e s' => (e = EXECED \/ e = EXIT_STATUS 127) /\ shell_attributes k0 (kern s')) s.
Proof.
  intros (Hm & Hi & Hq & Ho). apply wp_bind, wp_when_default. intros s1 _ Hm1 Ho1 Ha1.
  apply wp_bind, wp_when_default. intros s2 _ Hm2 Ho2 Ha2.
  apply wp_bind, wp_sigprocmask. intros k3 Ha3 _ Hm3. apply wp_bind. unfold wp, syscall_.
  destruct (os_execl _ _) as [k4 r] eqn:Hk. apply sg_execl in Hk as [Hm4 Ha4]. cbn [kern set_kern] in Hm4, Ha4.
  assert (Hne : SIGINT <> SIGQUIT) by done.
  assert (shell_attributes k0 k4).
  { split; [by rewrite Hm4, Hm3|]. rewrite Ha4, Ha3. split.
    - intros x [->| ->].
      + rewrite (Ho2 SIGINT Hne), Ha1, Hi. apply ignored_or_default.
      + rewrite Ha2, (Ho1 SIGQUIT), Hq by done. apply ignored_or_default.
    - intros x H1 H2. by rewrite (Ho2 x H2), (Ho1 x H1), (Ho x H1 H2). }
  destruct r as [e|]; simpl; by auto.
Qed.

(** Waiting. *)
Lemma wp_wait_loop fuel pid s :
  (interrupts (kern s) < fuel)%nat ->
  wp (wait_loop fuel pid) (fun r s' => exists st, r = Some st /\
      mask (kern s') = mask (kern s) /\ action (kern s') = action (kern s) /\
      exists k k', os_waitpid k pid = (k', inr st) \/
        exists e, os_waitpid k pid = (k', inl e) /\ e <> EINTR /\ st = -1 /\ errno s' = e)
    (fun _ _ => False) s.
Proof.
  revert s. induction fuel as [|fuel IH]; intros s Hf; [lia|]. simpl.
  apply wp_bind, wp_syscall; intros k r Hk; destruct (sg_waitpid _ _ _ _ Hk) as (Hm & Ha & Hi).
  - apply wp_bind, wp_get. simpl. destruct (Z.eqb_spec r EINTR) as [->|Hne].
    + eapply wp_mono; [apply IH; simpl; specialize (Hi eq_refl); lia| |done].
      intros x s' (st & -> & H1 & H2 & H3). exists st. simpl in *. split_and!; [done|congruence..|done].
    + apply wp_ret. exists (-1). split_and!; [done..|]. exists (kern s), k. right. by exists r.
  - apply wp_ret. exists r. split_and!; [done..|]. exists (kern s), k. by left.
Qed.

(** Restoring, from any state that is still guarded. *)
Lemma wp_restore k0 s :
  guarded_as k0 (kern s) ->
  wp (restore_signals (action k0 SIGINT) (action k0 SIGQUIT) (mask k0))
    (fun _ s' => mask (kern s') = mask k0 /\ (forall x, action (kern s') x = action k0 x) /\
       errno s' = errno s) (fun _ _ => False) s.
Proof.
  intros Hg. apply wp_bind, wp_get, wp_bind, wp_sigprocmask. intros k4 Ha4 _ Hm4.
  apply wp_bind, wp_sigaction. intros k5 Ha5 Hm5 _ Ho5.
  apply wp_bind, wp_sigaction. intros k6 Ha6 Hm6 _ Ho6. apply wp_modify.
  cbn [kern set_kern set_errno errno] in *. split_and!; [by rewrite Hm6, Hm5| |done].
  intros x. destruct (decide (x = SIGQUIT)) as [->|Hq]; [done|]. rewrite (Ho6 x Hq).
  destruct (decide (x = SIGINT)) as [->|Hi]; [done|]. rewrite (Ho5 x Hi), Ha4. by apply Hg.
Qed.

(** C24: [system] returns, with the caller's signal mask and all its signal
    actions as they were, whether fork or waitpid fails or is interrupted;
    while the command runs SIGCHLD is blocked and SIGINT and SIGQUIT are
    ignored; the child's shell starts with the caller's mask and the right
    dispositions, or the child ends with status 127; the result is the status
    of that child, or -1 with the error of the call that failed. *)
Theorem system_restores_signals (fuel : nat) (command : cstr) s :
  (interrupts (kern s) < fuel)%nat ->
  exists st s' k1, system fuel (Some command) s = Ret (Some st) s' /\
    mask (kern s') = mask (kern s) /\ (forall x, action (kern s') x = action (kern s) x) /\
    guarded_as (kern s) k1 /\
    match os_fork k1 with
    | (_, inl e) => st = -1 /\ errno s' = e
    | (_, inr (pid, kc)) =>
        (forall sc, kern sc = kc ->
           wp (system_child command (action (kern s) SIGINT) (action (kern s) SIGQUIT) (mask (kern s)))
             (fun _ _ => False)
             (fun e s' => (e = EXECED \/ e = EXIT_STATUS 127) /\ shell_attributes (kern s) (kern s'))
             sc) /\
        exists k k', os_waitpid k pid = (k', inr st) \/
          exists e, os_waitpid k pid = (k', inl e) /\ e <> EINTR /\ st = -1 /\ errno s' = e
    end.
Proof.
  intros Hf. set (k0 := kern s).
  enough (H : wp (system_command fuel command) (fun r s' => exists st k1, r = Some st /\
    mask (kern s') = mask k0 /\ (forall x, action (kern s') x = action k0 x) /\ guarded_as k0 k1 /\
    match os_fork k1 with
    | (_, inl e) => st = -1 /\ errno s' = e
    | (_, inr (pid, kc)) =>
        (forall sc, kern sc = kc ->
           wp (system_child command (action k0 SIGINT) (action k0 SIGQUIT) (mask k0))
             (fun _ _ => False)
             (fun e s' => (e = EXECED \/ e = EXIT_STATUS 127) /\ shell_attributes k0 (kern s')) sc) /\
        exists k k', os_waitpid k pid = (k', inr st) \/
          exists e, os_waitpid k pid = (k', inl e) /\ e <> EINTR /\ st = -1 /\ errno s' = e
    end) (fun _ _ => False) s).
  { apply wp_run in H as [(r & s' & Hr & st & k1 & -> & H)|(? & ? & _ & [])]. by exists st, s', k1. }
  apply wp_bind, wp_sigprocmask. intros k1 Ha1 Hi1 Hm1.
  apply wp_bind, wp_sigaction. intros k2 Ha2 Hm2 Hi2 Ho2.
  apply wp_bind, wp_sigaction. intros k3 Ha3 Hm3 Hi3 Ho3. cbn [kern set_kern] in *.
  assert (HgI : action k1 SIGINT = action k0 SIGINT) by by rewrite Ha1.
  assert (HgQ : action k2 SIGQUIT = action k0 SIGQUIT) by by rewrite Ho2, Ha1 by done.
  assert (Hg : guarded_as k0 k3).
  { split_and!; [by rewrite Hm3, Hm2|by rewrite Ho3 by done|done|]. intros x H1 H2.
    by rewrite (Ho3 x H2), (Ho2 x H1), Ha1. }
  rewrite HgI, HgQ. clear HgI HgQ.
  apply wp_bind, wp_syscall; intros k4 r Hk; cbn [kern set_kern] in Hk;
    destruct (sg_fork _ _ _ Hk) as (Hm4 & Ha4 & Hi4 & Hc).
  - apply wp_bind, wp_ret, wp_bind. eapply wp_mono; [apply wp_restore| |done].
    { unfold guarded_as. cbn. by rewrite Hm4, Ha4. }
    intros _ s' (H1 & H2 & H3). apply wp_ret. exists (-1), k3. rewrite Hk. by split_and!.
  - destruct r as [pid kc]. destruct (Hc pid kc eq_refl) as [Hmc Hac].
    apply wp_bind. eapply wp_mono; [apply wp_wait_loop; cbn; rewrite Hi4, Hi3, Hi2, Hi1; done| |done].
    intros x s1 (st & -> & H1 & H2 & H3). cbn [kern set_kern] in H1, H2.
    apply wp_bind. eapply wp_mono; [apply wp_restore| |done].
    { unfold guarded_as. by rewrite H1, H2, Hm4, Ha4. }
    intros _ s' (H4 & H5 & H6). apply wp_ret. exists st, k3. rewrite Hk. split_and!; [done..| |].
    + intros sc Hsc. apply child_attributes. unfold guarded_as. by rewrite Hsc, Hmc, Hac.
    + destruct H3 as (k & k' & [H3|(e & H7 & H8 & H9 & H10)]); exists k, k'; [by left|].
      right. exists e. split_and!; [done..|congruence].
Qed.

End Theorems.

(** ** A kernel with one process and its signals *)

Definition demo_signals : Type := gset Z * (Z -> sigact) * nat.

#[export] Instance demo_signal_os : SignalOS demo_signals := {
  os_sigprocmask k how m :=
    ((match how with SIG_BLOCK => k.1.1 ∪ m | SIG_SETMASK => m end, k.1.2, k.2), k.1.1);
  os_sigaction k sig act :=
    ((k.1.1, (fun x => if decide (x = sig) then act else k.1.2 x), k.2), k.1.2 sig);
  os_fork k := (k, inr (100, k));
  os_waitpid k pid :=
    match k.2 with
    | O => (k, inr 256)
    | S n => ((k.1, n), inl EINTR)
    end;
  os_execl k args := (k, None)
}.

#[export] Instance demo_signal_laws : SignalLaws demo_signals.
Proof.
  refine {| mask k := k.1.1; action k := k.1.2; interrupts k := k.2 |}; simpl.
  - intros k how m k' old [= <- <-]. done.
  - intros k sig act k' old [= <- <-]. cbn; split_and!; [done|by case_decide|done| |done].
    intros x Hx. by case_decide.
  - intros k k' r [= <- <-]. split_and!; [done..|]. by intros pid kc [= <- <-].
  - intros [[m a] [|n]] pid k' r [= <- <-]; simpl; split_and!; try done. intros _. lia.
  - intros k args k' r [= <- <-]. done.
Defined.

Definition demo_caller : proc demo_signals :=
  Proc (∅, fun _ => Sigaction (SIG_FUNCTION 7) 0 ∅, 2%nat) 0 None [] [] [].

Lemma system_restores_signals_witness :
  exists st s' k1, system 3 (Some (lit "true")) demo_caller = Ret (Some st) s' /\
    mask (kern s') = mask (kern demo_caller) /\
    (forall x, action (kern s') x = action (kern demo_caller) x) /\
    guarded_as (kern demo_caller) k1 /\
    match os_fork k1 with
    | (_, inl e) => st = -1 /\ errno s' = e
    | (_, inr (pid, kc)) =>
        (forall sc, kern sc = kc ->
           wp (system_child (lit "true") (action (kern demo_caller) SIGINT)
                 (action (kern demo_caller) SIGQUIT) (mask (kern demo_caller)))
             (fun _ _ => False)
             (fun e s' => (e = EXECED \/ e = EXIT_STATUS 127) /\
                shell_attributes (kern demo_caller) (kern s')) sc) /\
        exists k k', os_waitpid k pid = (k', inr st) \/
          exists e, os_waitpid k pid = (k', inl e) /\ e <> EINTR /\ st = -1 /\ errno s' = e
    end.
Proof. apply (system_restores_signals 3 (lit "true") demo_caller). simpl. lia. Defined.
