(* ===== verification/Sockets.v ===== *)
(** The socket libraries of src/tlpi-dist/sockets: inet_sockets.c and
    unix_sockets.c, which open, bind and connect sockets. Every descriptor they
    open is returned, in the state its caller asked for, or closed; where that
    fails. *)
From Stdlib Require Import ZArith Lia Ascii String.
From stdpp Require Import base tactics list strings gmap.
From S2P Require Import Prelude CString Process.
#[local] Open Scope Z_scope.

Definition ENAMETOOLONG : Z := 36.
Definition AF_UNIX : Z := 1.
Definition SOCK_STREAM : Z := 1.

(** An element of the list of getaddrinfo; the length of its address is
    [ai_addrlen]. *)
Record addrinfo := AddrInfo {
  ai_family : Z;
  ai_socktype : Z;
  ai_protocol : Z;
  ai_addr : list ascii
}.
Definition ai_addrlen (rp : addrinfo) : Z := Z.of_nat (length (ai_addr rp)).

(** [os_getaddrinfo] is given the host ([None] for a null pointer), the service,
    the type and whether AI_PASSIVE is set, all other hints being zero;
    [os_getnameinfo] gives names that fit NI_MAXHOST and NI_MAXSERV. *)
Class SocketOS (K : Type) := {
  os_getaddrinfo : K -> option cstr -> cstr -> Z -> bool -> K * option (list addrinfo);
  os_freeaddrinfo : K -> K * unit;
  os_socket : K -> Z -> Z -> Z -> K * (Z + Z);
  os_connect : K -> Z -> list ascii -> K * (Z + unit);
  os_bind : K -> Z -> list ascii -> K * (Z + unit);
  os_reuseaddr : K -> Z -> K * (Z + unit);
  os_listen : K -> Z -> Z -> K * (Z + unit);
  os_close : K -> Z -> K * (Z + unit);
  os_getnameinfo : K -> list ascii -> K * option (cstr * cstr)
}.

Section Code.
Context {K : Type} {OS : SocketOS K}.
Abbreviation PM := (M (proc K)).

(** ** inet_sockets.c *)

(** The walk through the list: the socket and the address it stopped at. *)
Fixpoint connect_walk (result : list addrinfo) : PM (option (Z * addrinfo)) :=
  match result with
  | [] => ret None
  | rp :: rest =>
      let! sfd := syscall (fun k => os_socket k (ai_family rp) (ai_socktype rp) (ai_protocol rp)) in
      match sfd with
      | None => connect_walk rest
      | Some sfd =>
          let! c := syscall (fun k => os_connect k sfd (ai_addr rp)) in
          match c with
          | Some _ => ret (Some (sfd, rp))
          | None => syscall (fun k => os_close k sfd) ;;; connect_walk rest
          end
      end
  end.

Definition inetConnect (host : option cstr) (service : cstr) (type : Z) : PM Z :=
  let! s := syscall_ (fun k => os_getaddrinfo k host service type false) in
  match s with
  | None => modify (set_errno ENOSYS) ;;; ret (-1)
  | Some result =>
      let! rp := connect_walk result in
      syscall_ os_freeaddrinfo ;;;
      ret (match rp with None => -1 | Some (sfd, _) => sfd end)
  end.

(** The walk of [inetPassiveSocket]; [inl tt] is the early return when the
    socket option cannot be set. *)
Fixpoint bind_walk (doListen : bool) (result : list addrinfo) :
    PM (unit + option (Z * addrinfo)) :=
  match result with
  | [] => ret (inr None)
  | rp :: rest =>
      let! sfd := syscall (fun k => os_socket k (ai_family rp) (ai_socktype rp) (ai_protocol rp)) in
      match sfd with
      | None => bind_walk doListen rest
      | Some sfd =>
          let! opt := if doListen then syscall (fun k => os_reuseaddr k sfd) else ret (Some tt) in
          match opt with
          | None => syscall (fun k => os_close k sfd) ;;; syscall_ os_freeaddrinfo ;;; ret (inl tt)
          | Some _ =>
              let! b := syscall (fun k => os_bind k sfd (ai_addr rp)) in
              match b with
              | Some _ => ret (inr (Some (sfd, rp)))
              | None => syscall (fun k => os_close k sfd) ;;; bind_walk doListen rest
              end
          end
      end
  end.

(** The descriptor or -1, and what is stored through [addrlen] if anything. *)
Definition inetPassiveSocket (service : cstr) (type : Z) (addrlen : bool) (doListen : bool)
    (backlog : Z) : PM (Z * option Z) :=
  let! s := syscall_ (fun k => os_getaddrinfo k None service type true) in
  match s with
  | None => ret (-1, None)
  | Some result =>
      let! rp := bind_walk doListen result in
      match rp with
      | inl _ => ret (-1, None)
      | inr rp =>
          let! listening :=
            match rp with
            | Some (sfd, _) =>
                if doListen then syscall (fun k => os_listen k sfd backlog) else ret (Some tt)
            | None => ret (Some tt)
            end in
          match listening with
          | None => syscall_ os_freeaddrinfo ;;; ret (-1, None)
          | Some _ =>
              syscall_ os_freeaddrinfo ;;;
              ret (match rp with
                   | None => (-1, None)
                   | Some (sfd, rp) => (sfd, if addrlen then Some (ai_addrlen rp) else None)
                   end)
          end
      end
  end.

Definition inetListen (service : cstr) (backlog : Z) (addrlen : bool) : PM (Z * option Z) :=
  inetPassiveSocket service SOCK_STREAM addrlen true backlog.

Definition inetBind (service : cstr) (type : Z) (addrlen : bool) : PM (Z * option Z) :=
  inetPassiveSocket service type addrlen false 0.

Definition inetAddressStr (addr : list ascii) (addrStrLen : Z) : PM cstr :=
  let! r := syscall_ (fun k => os_getnameinfo k addr) in
  match r with
  | Some (host, service) =>
      ret (snprintf addrStrLen (lit "(" ++ host ++ lit ", " ++ service ++ lit ")"))
  | None => ret (snprintf addrStrLen (lit "(?UNKNOWN?)"))
  end.

(** ** unix_sockets.c *)

(** [struct sockaddr_un]: its family in two bytes and [sun_path]. *)
Definition sizeof_sun_path : Z := 108.
Record sockaddr_un := SockaddrUn { sun_family : Z; sun_path : list ascii }.

(** The address as bytes: [connect] and [bind] are given all of them. *)
Definition un_bytes (a : sockaddr_un) : list ascii :=
  ascii_of_nat (Z.to_nat (sun_family a)) :: NUL :: sun_path a.

(** [None] is the return of -1; null pointers are not passed. *)
Definition unixBuildAddress (path : cstr) : PM (option sockaddr_un) :=
  if strlen path <? sizeof_sun_path then
    ret (Some (SockaddrUn AF_UNIX
      (path ++ replicate (Z.to_nat (sizeof_sun_path - strlen path)) NUL)))
  else modify (set_errno ENAMETOOLONG) ;;; ret None.

(** Connecting and binding differ in one call. *)
Definition unix_socket (call : K -> Z -> list ascii -> K * (Z + unit)) (path : cstr) (type : Z) :
    PM Z :=
  let! addr := unixBuildAddress path in
  match addr with
  | None => ret (-1)
  | Some addr =>
      let! sd := syscall (fun k => os_socket k AF_UNIX type 0) in
      match sd with
      | None => ret (-1)
      | Some sd =>
          let! c := syscall (fun k => call k sd (un_bytes addr)) in
          match c with
          | Some _ => ret sd
          | None =>
              let! s := get in
              let savedErrno := errno s in
              syscall (fun k => os_close k sd) ;;;
              modify (set_errno savedErrno) ;;;
              ret (-1)
          end
      end
  end.

Definition unixConnect : cstr -> Z -> PM Z := unix_socket os_connect.
Definition unixBind : cstr -> Z -> PM Z := unix_socket os_bind.

End Code.

(** ** Accounting for descriptors *)

(** What a kernel promises of descriptors: the open ones, which are not
    negative, with what became of each socket, and how many lists of addresses
    are allocated. *)
Inductive sock_state := Fresh | Reusable (s : sock_state) | Connected (a : list ascii)
  | Bound (a : list ascii) (s : sock_state) | Listening (backlog : Z) (s : sock_state).

Class SocketLaws (K : Type) {OS : SocketOS K} := {
  sockets : K -> gmap Z sock_state;
  lists : K -> nat;
  sl_getaddrinfo k h s t p k' r : os_getaddrinfo k h s t p = (k', r) ->
    sockets k' = sockets k /\ lists k' = (match r with Some _ => S | None => id end) (lists k);
  sl_free k k' r : os_freeaddrinfo k = (k', r) ->
    sockets k' = sockets k /\ lists k' = Nat.pred (lists k);
  sl_socket k f t p k' r : os_socket k f t p = (k', r) -> lists k' = lists k /\
    match r with
    | inr fd => 0 <= fd /\ sockets k !! fd = None /\ sockets k' = <[fd := Fresh]> (sockets k)
    | inl _ => sockets k' = sockets k
    end;
  sl_connect k fd a st k' r : os_connect k fd a = (k', r) -> sockets k !! fd = Some st ->
    lists k' = lists k /\
    sockets k' = match r with inr _ => <[fd := Connected a]> (sockets k) | inl _ => sockets k end;
  sl_bind k fd a st k' r : os_bind k fd a = (k', r) -> sockets k !! fd = Some st ->
    lists k' = lists k /\
    sockets k' = match r with inr _ => <[fd := Bound a st]> (sockets k) | inl _ => sockets k end;
  sl_reuseaddr k fd st k' r : os_reuseaddr k fd = (k', r) -> sockets k !! fd = Some st ->
    lists k' = lists k /\
    sockets k' = match r with inr _ => <[fd := Reusable st]> (sockets k) | inl _ => sockets k end;
  sl_listen k fd b st k' r : os_listen k fd b = (k', r) -> sockets k !! fd = Some st ->
    lists k' = lists k /\
    sockets k' = match r with inr _ => <[fd := Listening b st]> (sockets k) | inl _ => sockets k end;
  sl_close k fd st k' r : os_close k fd = (k', r) -> sockets k !! fd = Some st ->
    lists k' = lists k /\ sockets k' = delete fd (sockets k)
}.

Section Accounting.
Context {K : Type} {OS : SocketOS K} {SL : SocketLaws K}.
Implicit Types (s : proc K).

Abbreviation E := (fun (_ : exit_kind) (_ : proc K) => False).

(** The sockets and the lists of a process. *)
Definition view s : gmap Z sock_state * nat := (sockets (kern s), lists (kern s)).

Lemma wp_free (Q : unit -> proc K -> Prop) s :
  (forall u s', view s' = ((view s).1, Nat.pred (view s).2) -> Q u s') ->
  wp (syscall_ os_freeaddrinfo) Q E s.
Proof.
  intros HQ. unfold wp, syscall_. destruct (os_freeaddrinfo (kern s)) as [k u] eqn:Hk.
  destruct (sl_free _ _ _ Hk) as [H1 H2]. apply HQ. unfold view. simpl. by rewrite H1, H2.
Qed.

Lemma wp_socket f t p (Q : option Z -> proc K -> Prop) s :
  (forall s', view s' = view s -> Q None s') ->
  (forall fd s', 0 <= fd -> (view s).1 !! fd = None ->
     view s' = (<[fd := Fresh]> (view s).1, (view s).2) -> Q (Some fd) s') ->
  wp (syscall (fun k => os_socket k f t p)) Q E s.
Proof.
  intros H0 H1. apply wp_syscall; intros k r Hk; apply sl_socket in Hk as [Hl H].
  - apply H0. unfold view. simpl. by rewrite Hl, H.
  - destruct H as (Hr & Hn & H). apply H1; [done|done|]. unfold view. simpl. by rewrite Hl, H.
Qed.

(** A call on an open descriptor, which moves it to another state. *)
Lemma wp_on_fd (call : K -> Z -> K * (Z + unit)) fd st st' (Q : option unit -> proc K -> Prop) s :
  (forall k k' r, call k fd = (k', r) -> sockets k !! fd = Some st ->
     lists k' = lists k /\
     sockets k' = match r with inr _ => <[fd := st']> (sockets k) | inl _ => sockets k end) ->
  (view s).1 !! fd = Some st ->
  (forall s', view s' = view s -> Q None s') ->
  (forall s', view s' = (<[fd := st']> (view s).1, (view s).2) -> Q (Some tt) s') ->
  wp (syscall (fun k => call k fd)) Q E s.
Proof.
  intros Hc Hfd H0 H1. apply wp_syscall; intros k r Hk; destruct (Hc _ _ _ Hk Hfd) as [Hl Hs].
  - apply H0. unfold view. simpl. by rewrite Hl, Hs.
  - destruct r. apply H1. unfold view. simpl. by rewrite Hl, Hs.
Qed.

Lemma wp_close fd st (Q : option unit -> proc K -> Prop) s :
  (view s).1 !! fd = Some st ->
  (forall r s', view s' = (delete fd (view s).1, (view s).2) -> Q r s') ->
  wp (syscall (fun k => os_close k fd)) Q E s.
Proof.
  intros Hfd HQ. apply wp_syscall; intros k r Hk; destruct (sl_close _ _ _ _ _ Hk Hfd) as [Hl Hs];
    apply HQ; unfold view; simpl; by rewrite Hl, Hs.
Qed.

(** A new descriptor in some state, and nothing else new. *)
Definition opened (fd : Z) (st : sock_state) (v v' : gmap Z sock_state * nat) : Prop :=
  0 <= fd /\ v.1 !! fd = None /\ v' = (<[fd := st]> v.1, v.2).

Lemma opened_update fd st st' v v1 v2 :
  opened fd st v v1 -> v2 = (<[fd := st']> v1.1, v1.2) -> opened fd st' v v2.
Proof. intros (H0 & H1 & ->) ->. split_and!; [done|done|]. simpl. by rewrite insert_insert_eq. Qed.

Lemma opened_lookup fd st v v' : opened fd st v v' -> v'.1 !! fd = Some st.
Proof. intros (_ & _ & ->). apply lookup_insert_eq. Qed.

Lemma opened_closed fd st v v' :
  opened fd st v v' -> (delete fd v'.1, v'.2) = v.
Proof. intros (_ & H1 & ->). simpl. rewrite delete_insert_id by done. by destruct v. Qed.

Lemma wp_connect_walk result s :
  wp (connect_walk result) (fun r s' =>
    match r with
    | None => view s' = view s
    | Some (fd, rp) => rp ∈ result /\ opened fd (Connected (ai_addr rp)) (view s) (view s')
    end) E s.
Proof.
  revert s. induction result as [|rp rest IH]; intros s; simpl; [by apply wp_ret|].
  apply wp_bind, wp_socket.
  - intros s1 H1. eapply wp_mono; [apply IH| |done]. rewrite H1. intros [[fd rp']|] s2 H; [|done].
    destruct H. split; [by right|done].
  - intros fd s1 Hfd Hn H1. assert (Ho : opened fd Fresh (view s) (view s1)) by done.
    apply wp_bind. eapply (wp_on_fd (fun k fd => os_connect k fd (ai_addr rp)));
      [intros k k' r Hk Hl; by eapply sl_connect|by eapply opened_lookup| |].
    + intros s2 H2. apply wp_bind. rewrite <-H2 in Ho. eapply wp_close; [by eapply opened_lookup|].
      intros _ s3 H3. rewrite (opened_closed _ _ _ _ Ho) in H3.
      eapply wp_mono; [apply IH| |done]. rewrite H3. intros [[fd' rp']|] s4 H; [|done].
      destruct H. split; [by right|done].
    + intros s2 H2. apply wp_ret. split; [by left|]. by eapply opened_update.
Qed.

Lemma wp_getaddrinfo h sv t p (Q : option (list addrinfo) -> proc K -> Prop) s :
  (forall s', view s' = view s -> Q None s') ->
  (forall l s', view s' = ((view s).1, S (view s).2) -> Q (Some l) s') ->
  wp (syscall_ (fun k => os_getaddrinfo k h sv t p)) Q E s.
Proof.
  intros H0 H1. unfold wp, syscall_.
  destruct (os_getaddrinfo (kern s) h sv t p) as [k [l|]] eqn:Hk; apply sl_getaddrinfo in Hk as [Hs Hl];
    [apply H1|apply H0]; unfold view; simpl; by rewrite Hs, Hl.
Qed.

(** [inetConnect] returns a new descriptor connected to one of the
    service's addresses, or -1 with every descriptor it opened closed again;
    either way it frees the addresses. *)
Theorem inetConnect_accounts (host : option cstr) (service : cstr) (type : Z) s :
  exists v s', inetConnect host service type s = Ret v s' /\
    ((exists a, opened v (Connected a) (view s) (view s')) \/ v = -1 /\ view s' = view s).
Proof.
  assert (H : wp (inetConnect host service type) (fun v s' =>
    (exists a, opened v (Connected a) (view s) (view s')) \/ v = -1 /\ view s' = view s) E s).
  { apply wp_bind, wp_getaddrinfo.
    - intros s1 H1. apply wp_bind, wp_modify, wp_ret. right. split; [done|apply H1].
    - intros l s1 H1. apply wp_bind. eapply wp_mono; [apply wp_connect_walk| |done].
      intros r s2 H2. apply wp_bind, wp_free. intros _ s3 H3. apply wp_ret. destruct r as [[fd rp]|].
      + destruct H2 as (_ & Hfd & Hn & H2). left. exists (ai_addr rp). rewrite H3, H2. rewrite H1 in *.
        by split_and!.
      + right. split; [done|]. rewrite H3, H2, H1. by destruct (view s). }
  apply wp_run in H as [(v & s' & Hr & H)|(? & ? & _ & [])]. by exists v, s'.
Qed.

(** A socket made by the walk of [inetPassiveSocket]. *)
Definition base_state (doListen : bool) : sock_state := if doListen then Reusable Fresh else Fresh.

Lemma wp_bind_walk doListen result s :
  wp (bind_walk doListen result) (fun r s' =>
    match r with
    | inl _ => view s' = ((view s).1, Nat.pred (view s).2)
    | inr None => view s' = view s
    | inr (Some (fd, rp)) =>
        opened fd (Bound (ai_addr rp) (base_state doListen)) (view s) (view s')
    end) E s.
Proof.
  revert s. induction result as [|rp rest IH]; intros s; simpl; [by apply wp_ret|].
  assert (Hrest : forall s', view s' = view s -> wp (bind_walk doListen rest) (fun r s' =>
    match r with
    | inl _ => view s' = ((view s).1, Nat.pred (view s).2)
    | inr None => view s' = view s
    | inr (Some (fd, rp)) =>
        opened fd (Bound (ai_addr rp) (base_state doListen)) (view s) (view s')
    end) E s') by (intros s' <-; apply IH).
  apply wp_bind, wp_socket; [done|].
  intros fd s1 Hfd Hn H1. assert (Ho : opened fd Fresh (view s) (view s1)) by done.
  apply wp_bind.
  assert (Hbind : forall s2, opened fd (base_state doListen) (view s) (view s2) ->
    wp (let! b := syscall (fun k => os_bind k fd (ai_addr rp)) in
        match b with
        | Some _ => ret (inr (Some (fd, rp)))
        | None => syscall (fun k => os_close k fd) ;;; bind_walk doListen rest
        end) (fun r s' =>
    match r with
    | inl _ => view s' = ((view s).1, Nat.pred (view s).2)
    | inr None => view s' = view s
    | inr (Some (fd, rp)) =>
        opened fd (Bound (ai_addr rp) (base_state doListen)) (view s) (view s')
    end) E s2).
  { intros s2 Ho2. apply wp_bind. eapply (wp_on_fd (fun k fd => os_bind k fd (ai_addr rp)));
      [intros k k' r Hk Hl; by eapply sl_bind|by eapply opened_lookup| |].
    - intros s3 H3. rewrite <-H3 in Ho2. apply wp_bind. eapply wp_close; [by eapply opened_lookup|].
      intros _ s4 H4. apply Hrest. by rewrite H4, (opened_closed _ _ _ _ Ho2).
    - intros s3 H3. apply wp_ret. by eapply opened_update. }
  destruct doListen; [|by apply wp_ret, Hbind].
  eapply (wp_on_fd os_reuseaddr); [intros k k' r Hk Hl; by eapply sl_reuseaddr|by eapply opened_lookup| |].
  - intros s2 H2. rewrite <-H2 in Ho. apply wp_bind. eapply wp_close; [by eapply opened_lookup|].
    intros _ s3 H3. apply wp_bind, wp_free. intros _ s4 H4. apply wp_ret.
    by rewrite H4, H3, (opened_closed _ _ _ _ Ho).
  - intros s2 H2. apply Hbind. by eapply opened_update.
Qed.

(** [inetPassiveSocket] returns a new descriptor bound to one of the
    service's addresses, listening with address reuse when asked to, and that
    address's length; or -1 with nothing left open, except that a socket which
    is bound but cannot listen stays open. The addresses are freed. *)
Theorem inetPassiveSocket_accounts (service : cstr) (type : Z) (addrlen doListen : bool)
    (backlog : Z) s :
  exists v len s', inetPassiveSocket service type addrlen doListen backlog s = Ret (v, len) s' /\
    ((exists a, opened v (if doListen then Listening backlog (Bound a (Reusable Fresh))
                          else Bound a Fresh) (view s) (view s') /\
        len = if addrlen then Some (Z.of_nat (length a)) else None) \/
     v = -1 /\ len = None /\
       (view s' = view s \/
        doListen = true /\ exists fd a, opened fd (Bound a (Reusable Fresh)) (view s) (view s'))).
Proof.
  set (Q := fun (r : Z * option Z) s' =>
    (exists a, opened r.1 (if doListen then Listening backlog (Bound a (Reusable Fresh))
                           else Bound a Fresh) (view s) (view s') /\
        r.2 = if addrlen then Some (Z.of_nat (length a)) else None) \/
     r.1 = -1 /\ r.2 = None /\
       (view s' = view s \/
        doListen = true /\ exists fd a, opened fd (Bound a (Reusable Fresh)) (view s) (view s'))).
  assert (H : wp (inetPassiveSocket service type addrlen doListen backlog) Q E s).
  { apply wp_bind, wp_getaddrinfo; [intros s1 H1; apply wp_ret; by right; auto|].
    intros l s1 H1. apply wp_bind. eapply wp_mono; [apply wp_bind_walk| |done].
    assert (Hdone : forall fd st s' s'', opened fd st (view s1) (view s') ->
      view s'' = ((view s').1, Nat.pred (view s').2) -> opened fd st (view s) (view s'')).
    { intros fd st s' s'' (Hfd & Hn & Hv) ->. rewrite Hv, H1 in *. by split_and!. }
    assert (Hid : forall v, v = ((view s).1, Nat.pred (S (view s).2)) -> v = view s)
      by (intros v ->; by destruct (view s)).
    intros [[]|[[fd rp]|]] s2 H2.
    - apply wp_ret. right. split_and!; [done|done|]. left. apply Hid. by rewrite H2, H1.
    - apply wp_bind. destruct doListen.
      + eapply (wp_on_fd (fun k fd => os_listen k fd backlog));
          [intros k k' r Hk Hl; by eapply sl_listen|by eapply opened_lookup| |]; intros s3 H3.
        * apply wp_bind, wp_free. intros _ s4 H4. apply wp_ret. right. split_and!; [done|done|].
          right. split; [done|]. exists fd, (ai_addr rp). rewrite <-H3 in H2. by eapply Hdone.
        * apply wp_bind, wp_free. intros _ s4 H4. apply wp_ret. left. exists (ai_addr rp).
          split; [|done]. eapply Hdone; [|done]. by eapply opened_update.
      + apply wp_ret, wp_bind, wp_free. intros _ s4 H4. apply wp_ret. left. exists (ai_addr rp).
        split; [|done]. by eapply Hdone.
    - apply wp_bind, wp_ret, wp_bind, wp_free. intros _ s4 H4. apply wp_ret. right.
      split_and!; [done|done|]. left. apply Hid. by rewrite H4, H2, H1. }
  apply wp_run in H as [([v len] & s' & Hr & H)|(? & ? & _ & [])]. by exists v, len, s'.
Qed.

(** The address built for a path. *)
Lemma un_address_length path : strlen path < sizeof_sun_path ->
  length (un_bytes (SockaddrUn AF_UNIX
    (path ++ replicate (Z.to_nat (sizeof_sun_path - strlen path)) NUL))) = 110%nat.
Proof.
  intros Hp. unfold un_bytes, sizeof_sun_path, strlen in *. cbn [length sun_path].
  rewrite length_app, length_replicate. lia.
Qed.

(** [unixConnect] and [unixBind] refuse exactly the paths that leave no
    room for the null of [sun_path], without a system call; for any other
    they return a new socket connected or bound to the whole 110-byte address
    that holds the path padded with nulls, or -1 with nothing left open. *)
Theorem unix_sockets_account (path : cstr) (type : Z) s :
  let addr := un_bytes (SockaddrUn AF_UNIX
    (path ++ replicate (Z.to_nat (sizeof_sun_path - strlen path)) NUL)) in
  if strlen path <? sizeof_sun_path then
    length addr = 110%nat /\
    (exists v s', unixConnect path type s = Ret v s' /\
      (opened v (Connected addr) (view s) (view s') \/ v = -1 /\ view s' = view s)) /\
    (exists v s', unixBind path type s = Ret v s' /\
      (opened v (Bound addr Fresh) (view s) (view s') \/ v = -1 /\ view s' = view s))
  else
    unixConnect path type s = Ret (-1) (set_errno ENAMETOOLONG s) /\
    unixBind path type s = Ret (-1) (set_errno ENAMETOOLONG s).
Proof.
  intros addr. destruct (Z.ltb_spec (strlen path) sizeof_sun_path) as [Hp|Hp].
  2:{ unfold unixConnect, unixBind, unix_socket, unixBuildAddress, bind.
      destruct (Z.ltb_spec (strlen path) sizeof_sun_path); [lia|done]. }
  split; [by apply un_address_length|].
  assert (Hcall : forall call st,
    (forall k fd k' r, call k fd addr = (k', r) -> sockets k !! fd = Some Fresh ->
       lists k' = lists k /\
       sockets k' = match r with inr _ => <[fd := st]> (sockets k) | inl _ => sockets k end) ->
    exists v s', unix_socket call path type s = Ret v s' /\
      (opened v st (view s) (view s') \/ v = -1 /\ view s' = view s)).
  { intros call st Hc. assert (H : wp (unix_socket call path type) (fun v s' =>
      opened v st (view s) (view s') \/ v = -1 /\ view s' = view s) E s).
    { apply wp_bind. unfold unixBuildAddress. destruct (Z.ltb_spec (strlen path) sizeof_sun_path); [|lia].
      apply wp_ret, wp_bind, wp_socket; [intros s1 H1; apply wp_ret; by right|].
      intros fd s1 Hfd Hn H1. assert (Ho : opened fd Fresh (view s) (view s1)) by done.
      apply wp_bind. eapply (wp_on_fd (fun k fd => call k fd addr));
        [intros k k' r; apply Hc|by eapply opened_lookup| |]; intros s2 H2.
      - apply wp_bind, wp_get, wp_bind. rewrite <-H2 in Ho. eapply wp_close; [by eapply opened_lookup|].
        intros _ s3 H3. apply wp_bind, wp_modify, wp_ret. right. split; [done|].
        change (view s3 = view s). by rewrite H3, (opened_closed _ _ _ _ Ho).
      - apply wp_ret. left. by eapply opened_update. }
    apply wp_run in H as [(v & s' & Hr & H)|(? & ? & _ & [])]. by exists v, s'. }
  split; apply Hcall; intros k fd k' r Hk Hl; [by eapply sl_connect|by eapply sl_bind].
Qed.

End Accounting.

(** ** A small network stack *)

(** The sockets, the lists of addresses, and the next descriptor. Connecting
    succeeds only to the second address; listening succeeds when [listens]. *)
Record demo_net := DemoNet {
  net_socks : gmap Z sock_state;
  net_lists : nat;
  net_listens : bool
}.
Definition net_set (k : demo_net) (m : gmap Z sock_state) : demo_net :=
  DemoNet m (net_lists k) (net_listens k).
Definition demo_addr (c : ascii) : addrinfo := AddrInfo 2 SOCK_STREAM 6 [c].

(** Moving an open descriptor to another state. *)
Definition net_step (k : demo_net) (fd : Z) (ok : bool) (f : sock_state -> sock_state) :
    demo_net * (Z + unit) :=
  match net_socks k !! fd with
  | Some st => if ok then (net_set k (<[fd := f st]> (net_socks k)), inr tt) else (k, inl EINVAL)
  | None => (k, inl EINVAL)
  end.

(** A new descriptor: the maximum of the open ones and one more. *)
Definition net_fresh (m : gmap Z sock_state) : Z :=
  fresh ({[ 0 ]} ∪ dom m : gset Z).

#[export] Instance demo_socket_os : SocketOS demo_net := {
  os_getaddrinfo k h s t p :=
    (DemoNet (net_socks k) (S (net_lists k)) (net_listens k),
     Some [demo_addr "a"; demo_addr "b"]);
  os_freeaddrinfo k := (DemoNet (net_socks k) (Nat.pred (net_lists k)) (net_listens k), tt);
  os_socket k f t p :=
    let fd := net_fresh (net_socks k) in
    if decide (0 <= fd) then (net_set k (<[fd := Fresh]> (net_socks k)), inr fd)
    else (k, inl 24);
  os_connect k fd a := net_step k fd (bool_decide (a = ["b"%char])) (fun _ => Connected a);
  os_bind k fd a := net_step k fd true (Bound a);
  os_reuseaddr k fd := net_step k fd true Reusable;
  os_listen k fd b := net_step k fd (net_listens k) (Listening b);
  os_close k fd := (net_set k (delete fd (net_socks k)), inr tt);
  os_getnameinfo k a := (k, Some (lit "host", lit "80"))
}.

Lemma net_step_spec k fd ok f st k' r :
  net_step k fd ok f = (k', r) -> net_socks k !! fd = Some st ->
  net_lists k' = net_lists k /\
  net_socks k' = match r with inr _ => <[fd := f st]> (net_socks k) | inl _ => net_socks k end.
Proof. unfold net_step. intros H Hl. rewrite Hl in H. destruct ok; by simplify_eq/=. Qed.

#[export] Instance demo_socket_laws : SocketLaws demo_net.
Proof.
  refine {| sockets := net_socks; lists := net_lists |}; simpl.
  - intros. by simplify_eq/=.
  - intros. by simplify_eq/=.
  - intros k f t p k' r. case_decide as H0; intros; simplify_eq/=; [|done].
    split_and!; [done|done| |done]. apply not_elem_of_dom. unfold net_fresh.
    pose proof (is_fresh ({[ 0 ]} ∪ dom (net_socks k) : gset Z)). set_solver.
  - intros * H Hl. apply (net_step_spec _ _ _ _ _ _ _ H Hl).
  - intros * H Hl. apply (net_step_spec _ _ _ _ _ _ _ H Hl).
  - intros * H Hl. apply (net_step_spec _ _ _ _ _ _ _ H Hl).
  - intros * H Hl. apply (net_step_spec _ _ _ _ _ _ _ H Hl).
  - intros k fd st k' r [= <- <-]. done.
Defined.

Definition net_proc (listens : bool) : proc demo_net := Proc (DemoNet ∅ 0 listens) 0 None [] [] [].

Lemma inetConnect_accounts_witness :
  exists v s', inetConnect None (lit "http") SOCK_STREAM (net_proc true) = Ret v s' /\
    ((exists a, opened v (Connected a) (view (net_proc true)) (view s')) \/
     v = -1 /\ view s' = view (net_proc true)).
Proof. apply (inetConnect_accounts None (lit "http") SOCK_STREAM (net_proc true)). Defined.

(** A socket that cannot listen: the descriptor is left open. *)
Example listen_leaks :
  match inetListen (lit "http") 5 false (net_proc false) with
  | Ret (v, _) s' => v = -1 /\ map_to_list (net_socks (kern s')) = [(1, Bound ["a"%char] (Reusable Fresh))]
  | _ => False
  end.
Proof. vm_compute. done. Qed.

Lemma inetPassiveSocket_accounts_witness :
  exists v len s', inetPassiveSocket (lit "http") SOCK_STREAM true true 5 (net_proc false)
      = Ret (v, len) s' /\
    ((exists a, opened v (Listening 5 (Bound a (Reusable Fresh))) (view (net_proc false)) (view s') /\
        len = Some (Z.of_nat (length a))) \/
     v = -1 /\ len = None /\
       (view s' = view (net_proc false) \/
        true = true /\ exists fd a,
          opened fd (Bound a (Reusable Fresh)) (view (net_proc false)) (view s'))).
Proof. apply (inetPassiveSocket_accounts (lit "http") SOCK_STREAM true true 5 (net_proc false)). Defined.

Lemma unix_sockets_account_witness :
  let s := net_proc true in
  let addr := un_bytes (SockaddrUn AF_UNIX (lit "/tmp/s" ++ replicate 102 NUL)) in
  length addr = 110%nat /\
  (exists v s', unixConnect (lit "/tmp/s") SOCK_STREAM s = Ret v s' /\
    (opened v (Connected addr) (view s) (view s') \/ v = -1 /\ view s' = view s)) /\
  (exists v s', unixBind (lit "/tmp/s") SOCK_STREAM s = Ret v s' /\
    (opened v (Bound addr Fresh) (view s) (view s') \/ v = -1 /\ view s' = view s)).
Proof. apply (unix_sockets_account (lit "/tmp/s") SOCK_STREAM (net_proc true)). Defined.
