(* ===== verification/ScmMulti.v ===== *)
(** sockets/scm_multi_send.c and sockets/scm_multi_recv.c (src/tlpi-dist): a
    list of descriptors and credentials as two control messages in one buffer,
    byte by byte, and the walk through what is received. *)
From Stdlib Require Import ZArith Lia Ascii String.
From stdpp Require Import base tactics list strings.
From S2P Require Import Prelude CString Process ScmFunctions Sockets.
#[local] Open Scope Z_scope.

(** ** Memory *)

(** Integers of [n] bytes, the lowest byte first. *)
Fixpoint le_bytes (n : nat) (z : Z) : list Z :=
  match n with O => [] | S n => z mod 256 :: le_bytes n (z / 256) end.
Fixpoint le_value (l : list Z) : Z := match l with [] => 0 | b :: l => b + 256 * le_value l end.

(** Reading and writing a buffer; [None] outside it. *)
Definition load (off n : nat) (buf : list Z) : option (list Z) :=
  if (off + n <=? length buf)%nat then Some (take n (drop off buf)) else None.
Definition store (off : nat) (bytes buf : list Z) : option (list Z) :=
  if (off + length bytes <=? length buf)%nat then
    Some (take off buf ++ bytes ++ drop (off + length bytes) buf)
  else None.

(** An array of [int]s. *)
Definition int_bytes (l : list Z) : list Z := concat (le_bytes 4 <$> l).
Fixpoint ints_of (n : nat) (bytes : list Z) : list Z :=
  match n with O => [] | S n => to_signed 32 (le_value (take 4 bytes)) :: ints_of n (drop 4 bytes) end.

(** ** Control messages *)

Definition SCM_CREDENTIALS : Z := 2.
Definition MAX_FDS : nat := 1024.
Definition SOCK_PATH : cstr := lit "scm_multi".
Definition SOCK_DGRAM : Z := 2.
Definition ENOENT : Z := 2.
Definition sizeof_ucred : nat := 12.

(** A [struct cmsghdr] is a length of eight bytes, a level and a type of four;
    messages start at multiples of eight. *)
Definition hdr : nat := 16.
Definition cmsg_align (n : nat) : nat := ((n + 7) / 8 * 8)%nat.
Definition cmsg_space (n : nat) : nat := (hdr + cmsg_align n)%nat.

Definition CMSG_FIRSTHDR (buf : list Z) : option nat := if (hdr <=? length buf)%nat then Some 0%nat else None.

Definition header_len (buf : list Z) (off : nat) : option nat := (fun b => Z.to_nat (le_value b)) <$> load off 8 buf.

(** [CMSG_NXTHDR], with the length of the buffer for [msg_controllen]; the
    outer [None] is a read outside the buffer. *)
Definition CMSG_NXTHDR (buf : list Z) (off : nat) : option (option nat) :=
  len ← header_len buf off;
  if (len <? hdr)%nat then Some None
  else
    let next := (off + cmsg_align len)%nat in
    if (length buf <? next + hdr)%nat then Some None
    else
      len' ← header_len buf next;
      Some (if (length buf <? next + cmsg_align len')%nat then None else Some next).

Record ucred := Ucred { uc_pid : Z; uc_uid : Z; uc_gid : Z }.
Definition ucred_bytes (c : ucred) : list Z :=
  le_bytes 4 (uc_pid c) ++ le_bytes 4 (uc_uid c) ++ le_bytes 4 (uc_gid c).

(** The structure that some bytes are. *)
Definition ucred_of (bytes : list Z) : ucred :=
  Ucred (to_signed 32 (le_value (take 4 bytes))) (le_value (take 4 (drop 4 bytes))) (le_value (drop 8 bytes)).

(** ** scm_multi_send.c *)

(** Filling in a message at [off]. *)
Definition put_cmsg (off : nat) (type : Z) (data : list Z) (buf : list Z) : option (list Z) :=
  buf ← store (off + 8) (le_bytes 4 SOL_SOCKET) buf;
  buf ← store (off + 12) (le_bytes 4 type) buf;
  buf ← store off (le_bytes 8 (Z.of_nat (hdr + length data))) buf;
  store (off + hdr) data buf.

(** The control data; [None]: outside the buffer, or a null pointer. *)
Definition build_control (fdList : list Z) (creds : ucred) : option (list Z) :=
  let fdAllocSize := (4 * length fdList)%nat in
  let controlMsg := replicate (cmsg_space fdAllocSize + cmsg_space sizeof_ucred) 0 in
  cmsgp ← CMSG_FIRSTHDR controlMsg;
  buf ← put_cmsg cmsgp SCM_RIGHTS (int_bytes fdList) controlMsg;
  cmsgp ← mjoin (CMSG_NXTHDR buf cmsgp);
  put_cmsg cmsgp SCM_CREDENTIALS (ucred_bytes creds) buf.

(** What recvmsg gives: the number of bytes of data, the data, the control
    data, and whether MSG_CTRUNC is set. *)
Record received := Received { nr : Z; data : Z; control : list Z; ctrunc : bool }.

Class MultiOS (K : Type) := {
  os_getpid : K -> K * Z;
  os_getuid : K -> K * Z;
  os_getgid : K -> K * Z;
  os_malloc : K -> Z -> K * (Z + unit);
  os_open_rdonly : K -> cstr -> K * (Z + Z);
  os_sendmsg_control : K -> Z -> option Z -> list Z -> K * (Z + Z);
  os_remove : K -> cstr -> K * (Z + unit);
  os_accept : K -> Z -> K * (Z + Z);
  os_passcred : K -> Z -> K * (Z + unit);
  os_recvmsg_control : K -> Z -> Z -> K * (Z + received);
  os_system : K -> cstr -> K * unit;
  os_read : K -> Z -> Z -> K * (Z + cstr);
  os_write : K -> Z -> cstr -> K * (Z + Z)
}.

Section Code.
Context `{ErrnoText} {K : Type} {SO : SocketOS K} {OS : MultiOS K}.
Abbreviation PM := (M (proc K)).

Definition must {A} (call : K -> K * (Z + A)) (msg : cstr) : PM A :=
  let! r := syscall call in
  match r with Some a => ret a | None => errExit msg end.
Definition lines (l : list cstr) : cstr := concat ((fun t => t ++ [NEWLINE]) <$> l).

Definition send_usage {A} (pname : cstr) : PM A :=
  puterr (lit "Usage: " ++ pname ++ lit " [options] file..." ++ [NEWLINE]) ;;;
  puterr (lines (
    [lit "    Options:";
     TAB :: lit "-d        Use datagram (instead of stream) socket";
     TAB :: lit "-n        Don't send any real data with the ancillary data";
     TAB :: lit "-p <pid>  Use this PID when sending credentials";
     TAB :: lit "-u <uid>  Use this UID when sending credentials";
     TAB :: lit "-g <gid>  Use this GID when sending credentials";
     lit "    If any of any of -p/-u/-g is absent, the corresponding real";
     lit "    credential is used."])) ;;;
  exit3 EXIT_FAILURE.

Record send_options := SendOptions { useDatagramSocket : bool; sendData : bool; creds : ucred }.

(** One option; [None]: usageError. *)
Definition send_option (c : send_options) (o : option_arg) : option send_options :=
  let '(Opt opt optarg) := o in
  let '(SendOptions d n (Ucred pid uid gid)) := c in
  if bool_decide (opt = "d"%char) then Some (SendOptions true n (Ucred pid uid gid))
  else if bool_decide (opt = "n"%char) then Some (SendOptions d false (Ucred pid uid gid))
  else if bool_decide (opt = "p"%char) then Some (SendOptions d n (Ucred (atoi optarg) uid gid))
  else if bool_decide (opt = "u"%char) then Some (SendOptions d n (Ucred pid (to_unsigned 32 (atoi optarg)) gid))
  else if bool_decide (opt = "g"%char) then Some (SendOptions d n (Ucred pid uid (to_unsigned 32 (atoi optarg))))
  else None.

Fixpoint fold_options {C} (step : C -> option_arg -> option C) (opts : list option_arg) (c : C) : option C :=
  match opts with
  | [] => Some c
  | o :: rest => match step c o with Some c => fold_options step rest c | None => None end
  end.

(** The files of the command line, opened in order. *)
Fixpoint open_all (files : list cstr) : PM (list Z) :=
  match files with
  | [] => ret []
  | f :: rest =>
      let! fd := must (fun k => os_open_rdonly k f) (lit "open") in
      let! fds := open_all rest in
      ret (fd :: fds)
  end.

(** [main] of the sender. *)
Definition send_main (pname : cstr) (opts : list option_arg) (files : list cstr) : PM unit :=
  let! pid := syscall_ os_getpid in
  let! uid := syscall_ os_getuid in
  let! gid := syscall_ os_getgid in
  match fold_options send_option opts (SendOptions false true (Ucred pid uid gid)) with
  | None => send_usage pname
  | Some c =>
      match files with
      | [] => send_usage pname
      | _ =>
          let fdAllocSize := (4 * length files)%nat in
          must (fun k => os_malloc k (Z.of_nat (cmsg_space fdAllocSize + cmsg_space sizeof_ucred))) (lit "malloc") ;;;
          putout (lit "cmsg_len 1: " ++ show_Z (Z.of_nat (hdr + fdAllocSize)) ++ [NEWLINE]) ;;;
          must (fun k => os_malloc k (Z.of_nat fdAllocSize)) (lit "calloc") ;;;
          let! fdList := open_all files in
          putout (lit "cmsg_len 2: " ++ show_Z (Z.of_nat (hdr + sizeof_ucred)) ++ [NEWLINE]) ;;;
          match build_control fdList (creds c) with
          | None => undef
          | Some controlMsg =>
              let! sfd := unixConnect SOCK_PATH (if useDatagramSocket c then SOCK_DGRAM else SOCK_STREAM) in
              when (sfd =? -1) (errExit (lit "unixConnect")) ;;;
              let! ns := must (fun k => os_sendmsg_control k sfd (if sendData c then Some 12345 else None) controlMsg)
                (lit "sendmsg") in
              putout (lit "sendmsg() returned " ++ show_Z ns ++ [NEWLINE]) ;;;
              exit3 EXIT_SUCCESS
          end
      end
  end.

(** ** scm_multi_recv.c *)

(** The loop that shows a file; one that does not end within [fuel] reads is
    [undef] here. *)
Fixpoint show_file (fuel : nat) (fd : Z) : PM unit :=
  match fuel with
  | O => undef
  | S fuel =>
      let! buf := must (fun k => os_read k fd 100) (lit "read") in
      match buf with
      | [] => ret tt
      | _ => syscall (fun k => os_write k 1 buf) ;;; show_file fuel fd
      end
  end.

(** A received list of descriptors. *)
Definition report_rights (fuel : nat) (fdList : list Z) : PM unit :=
  putout (lit "received " ++ show_Z (Z.of_nat (length fdList)) ++ lit " file descriptors" ++ [NEWLINE]) ;;;
  must (fun k => os_malloc k (Z.of_nat (4 * length fdList))) (lit "calloc") ;;;
  for_each (imap pair fdList) (fun '(j, fd) =>
    putout (lit "--- [" ++ show_Z (Z.of_nat j) ++ lit "] Received FD " ++ show_Z fd ++ [NEWLINE]) ;;;
    show_file fuel fd ;;;
    must (fun k => os_close k fd) (lit "close") ;;;
    ret tt).

Definition report_creds (c : ucred) : PM unit :=
  putout (lit "SCM_CREDENTIALS: pid=" ++ show_Z (uc_pid c) ++ lit ", uid=" ++ show_Z (uc_uid c) ++
          lit ", gid=" ++ show_Z (uc_gid c) ++ [NEWLINE]).

(** What is printed before a message is looked at. *)
Definition cmsg_banner (len : nat) : PM unit :=
  putout (lit "=================================" ++ [NEWLINE]) ;;;
  putout (lit "cmsg_len: " ++ show_Z (Z.of_nat len) ++ [NEWLINE]).

(** The body of the loop, for the message at [off]. *)
Definition show_cmsg (fuel : nat) (buf : list Z) (off : nat) : PM unit :=
  match header_len buf off, load (off + 8) 4 buf, load (off + 12) 4 buf with
  | Some len, Some level, Some type =>
      let type := to_signed 32 (le_value type) in
      cmsg_banner len ;;;
      if negb (to_signed 32 (le_value level) =? SOL_SOCKET) then fatal (lit "cmsg_level != SOL_SOCKET")
      else if type =? SCM_RIGHTS then
        putout (lit "SCM_RIGHTS: ") ;;;
        let fdCnt := ((len - hdr) / 4)%nat in
        if (len <? hdr)%nat then undef
        else
          match load (off + hdr) (4 * fdCnt) buf with
          | None => undef
          | Some bytes => report_rights fuel (ints_of fdCnt bytes)
          end
      else if type =? SCM_CREDENTIALS then
        if negb (len =? hdr + sizeof_ucred)%nat then fatal (lit "cmsg data has incorrect size")
        else
          match load (off + hdr) sizeof_ucred buf with
          | None => undef
          | Some bytes => report_creds (ucred_of bytes)
          end
      else fatal (lit "Bad cmsg_type (" ++ show_Z type ++ lit ")")
  | _, _, _ => undef
  end.

(** The loop over the messages, for at most [turns] turns. *)
Fixpoint walk (turns fuel : nat) (buf : list Z) (off : nat) : PM unit :=
  match turns with
  | O => undef
  | S turns =>
      show_cmsg fuel buf off ;;;
      match CMSG_NXTHDR buf off with
      | None => undef
      | Some None => ret tt
      | Some (Some next) => walk turns fuel buf next
      end
  end.

(** A turn for each header that the buffer has room for is enough. *)
Definition walk_control (fuel : nat) (buf : list Z) : PM unit :=
  match CMSG_FIRSTHDR buf with
  | None => ret tt
  | Some off => walk (length buf / hdr) fuel buf off
  end.

(** Options: datagrams, and the size of the control data. *)
Definition recv_option (c : bool * Z) (o : option_arg) : option (bool * Z) :=
  let '(Opt opt optarg) := o in
  if bool_decide (opt = "d"%char) then Some (true, c.2)
  else if bool_decide (opt = "n"%char) then Some (c.1, atoi optarg)
  else None.

(** A socket left over is removed. *)
Definition remove_path (path : cstr) : PM unit :=
  let! r := syscall (fun k => os_remove k path) in
  let! s := get in
  when (bool_decide (r = None) && negb (errno s =? ENOENT)) (errExit (lit "remove-" ++ path)).

Definition recv_socket (path : cstr) (dgram : bool) : PM Z :=
  if dgram then
    let! sfd := unixBind path SOCK_DGRAM in
    when (sfd =? -1) (errExit (lit "unixBind")) ;;;
    ret sfd
  else
    let! lfd := unixBind path SOCK_STREAM in
    when (lfd =? -1) (errExit (lit "unixBind")) ;;;
    must (fun k => os_listen k lfd 5) (lit "listen") ;;;
    must (fun k => os_accept k lfd) (lit "accept").

(** [main] of the receiver. *)
Definition recv_main (fuel : nat) (pname : cstr) (opts : list option_arg) : PM unit :=
  let controlMsgSize := Z.of_nat (cmsg_space (4 * MAX_FDS) + cmsg_space sizeof_ucred) in
  must (fun k => os_malloc k controlMsgSize) (lit "malloc") ;;;
  match fold_options recv_option opts (false, -1) with
  | None =>
      usageErr (lines [pname ++ lit " [options]"; lit "    Options:";
        TAB :: lit "-d           Use datagram socket (default is stream)";
        TAB :: lit "-n <nbytes>  Limit on size of received ancillary data"])
  | Some (dgram, optControlMsgSize) =>
      remove_path SOCK_PATH ;;;
      let! sfd := recv_socket SOCK_PATH dgram in
      must (fun k => os_passcred k sfd) (lit "setsockopt") ;;;
      let controllen := if optControlMsgSize =? -1 then controlMsgSize else to_unsigned 64 optControlMsgSize in
      let! msgh := must (fun k => os_recvmsg_control k sfd controllen) (lit "recvmsg") in
      putout (lit "recvmsg() returned " ++ show_Z (nr msgh) ++ [NEWLINE]) ;;;
      when (0 <? nr msgh) (putout (lit "Received data = " ++ show_Z (data msgh) ++ [NEWLINE])) ;;;
      when (negb (optControlMsgSize =? -1))
        (let! pid := syscall_ os_getpid in
         putout (lit "=================================" ++ [NEWLINE]) ;;;
         syscall_ (fun k => os_system k (snprintf 1000 (lit "ls -l /proc/" ++ show_Z pid ++ lit "/fd"))) ;;;
         putout (lit "=================================" ++ [NEWLINE])) ;;;
      when (ctrunc msgh) (putout (lit "********** Ancillary data was truncated!!! **********" ++ [NEWLINE])) ;;;
      walk_control fuel (control msgh) ;;;
      exit3 EXIT_SUCCESS
  end.

End Code.

(** ** Bytes *)

Lemma length_le_bytes n z : length (le_bytes n z) = n.
Proof. revert z. induction n as [|n IH]; intros z; simpl; [done|]. by rewrite IH. Qed.

Lemma le_value_bytes n z : le_value (le_bytes n z) = z mod 256 ^ Z.of_nat n.
Proof.
  revert z. induction n as [|n IH]; intros z; simpl; [by rewrite Z.mod_1_r|].
  rewrite IH. change (Z.pos (Pos.of_succ_nat n)) with (Z.of_nat (S n)).
  rewrite Nat2Z.inj_succ, Z.pow_succ_r, Z.rem_mul_r by lia. done.
Qed.

Lemma int_back z : INT_MIN <= z <= INT_MAX -> to_signed 32 (le_value (le_bytes 4 z)) = z.
Proof.
  intros Hz. rewrite le_value_bytes. change (256 ^ Z.of_nat 4) with (2 ^ 32).
  transitivity (to_signed 32 z); [unfold to_signed; by rewrite Z.mod_mod|].
  apply to_signed_small; [lia|]. unfold INT_MIN, INT_MAX in *. simpl. lia.
Qed.

Lemma unsigned_back z : 0 <= z < 2 ^ 32 -> le_value (le_bytes 4 z) = z.
Proof. intros Hz. rewrite le_value_bytes. by apply Z.mod_small. Qed.

Lemma length_int_bytes l : length (int_bytes l) = (4 * length l)%nat.
Proof.
  unfold int_bytes. induction l as [|z l IH]; [done|].
  change (concat (le_bytes 4 <$> z :: l)) with (le_bytes 4 z ++ concat (le_bytes 4 <$> l)).
  rewrite length_app, IH, length_le_bytes. simpl. lia.
Qed.

Lemma ints_of_bytes l : Forall (fun z => INT_MIN <= z <= INT_MAX) l -> ints_of (length l) (int_bytes l) = l.
Proof.
  induction 1 as [|z l Hz _ IH]; [done|].
  change (int_bytes (z :: l)) with (le_bytes 4 z ++ int_bytes l).
  change (ints_of (length (z :: l)) (le_bytes 4 z ++ int_bytes l)) with
    (to_signed 32 (le_value (take 4 (le_bytes 4 z ++ int_bytes l))) :: ints_of (length l) (drop 4 (le_bytes 4 z ++ int_bytes l))).
  rewrite take_app_length', drop_app_length' by (by rewrite length_le_bytes). by rewrite IH, int_back.
Qed.

Lemma load_app off n pre mid post : off = length pre -> length mid = n -> load off n (pre ++ mid ++ post) = Some mid.
Proof.
  intros -> <-. unfold load. rewrite !length_app, (proj2 (Nat.leb_le _ _)) by lia.
  by rewrite drop_app_length, take_app_length.
Qed.

Lemma store_app off bytes pre old post : off = length pre -> length old = length bytes ->
  store off bytes (pre ++ old ++ post) = Some (pre ++ bytes ++ post).
Proof.
  intros -> Ho. unfold store. rewrite !length_app, (proj2 (Nat.leb_le _ _)) by lia.
  rewrite take_app_length. do 3 f_equal. rewrite <-Ho, app_assoc, <-length_app. apply drop_app_length.
Qed.

(** ** Messages as they lie in the buffer *)

Inductive message := Rights (fdList : list Z) | Creds (c : ucred).

Definition msg_type (m : message) : Z := match m with Rights _ => SCM_RIGHTS | Creds _ => SCM_CREDENTIALS end.
Definition msg_data (m : message) : list Z := match m with Rights l => int_bytes l | Creds c => ucred_bytes c end.
Definition msg_len (m : message) : nat := (hdr + length (msg_data m))%nat.

Definition block (m : message) : list Z :=
  le_bytes 8 (Z.of_nat (msg_len m)) ++ le_bytes 4 SOL_SOCKET ++ le_bytes 4 (msg_type m) ++ msg_data m ++
  replicate (cmsg_align (length (msg_data m)) - length (msg_data m)) 0.

Definition pack (ms : list message) : list Z := concat (block <$> ms).

Definition msg_ok (m : message) : Prop :=
  match m with
  | Rights l => (length l <= MAX_FDS)%nat /\ Forall (fun z => INT_MIN <= z <= INT_MAX) l
  | Creds (Ucred pid uid gid) => INT_MIN <= pid <= INT_MAX /\ 0 <= uid < 2 ^ 32 /\ 0 <= gid < 2 ^ 32
  end.

(** What the receiver does with a message. *)
Definition report `{ErrnoText} {K : Type} {SO : SocketOS K} {OS : MultiOS K} (fuel : nat) (m : message) : M (proc K) unit :=
  cmsg_banner (msg_len m) ;;;
  match m with
  | Rights l => putout (lit "SCM_RIGHTS: ") ;;; report_rights fuel l
  | Creds c => report_creds c
  end.

Lemma align_spec n : (n <= cmsg_align n < n + 8)%nat /\ exists k, cmsg_align n = (8 * k)%nat.
Proof.
  unfold cmsg_align. pose proof (Nat.div_mod (n + 7) 8). pose proof (Nat.mod_upper_bound (n + 7) 8).
  split; [lia|]. exists ((n + 7) / 8)%nat. lia.
Qed.

Lemma align_hdr n : cmsg_align (hdr + n) = (hdr + cmsg_align n)%nat.
Proof.
  unfold cmsg_align, hdr. replace (16 + n + 7)%nat with (n + 7 + 2 * 8)%nat by lia. rewrite Nat.div_add by done. lia.
Qed.

Lemma length_block m : length (block m) = cmsg_align (msg_len m).
Proof.
  unfold block, msg_len. rewrite align_hdr, !length_app, !length_le_bytes, length_replicate.
  pose proof (align_spec (length (msg_data m))). unfold hdr. lia.
Qed.

Lemma msg_len_small m : msg_ok m -> 16 <= Z.of_nat (msg_len m) < 2 ^ 32.
Proof.
  unfold msg_len, hdr. destruct m as [l|[pid uid gid]]; simpl.
  - intros [Hl _]. rewrite length_int_bytes. unfold MAX_FDS in Hl. lia.
  - by intros _.
Qed.

Lemma header_len_block pre m rest : msg_ok m -> header_len (pre ++ block m ++ rest) (length pre) = Some (msg_len m).
Proof.
  intros Hm. unfold header_len, block. rewrite <-!app_assoc, (load_app _ 8) by (done || apply length_le_bytes).
  change (Some (Z.to_nat (le_value (le_bytes 8 (Z.of_nat (msg_len m))))) = Some (msg_len m)).
  f_equal. rewrite le_value_bytes, Z.mod_small, Nat2Z.id; [done|].
  pose proof (msg_len_small m Hm). change (256 ^ Z.of_nat 8) with (2 ^ 64). lia.
Qed.

(** The fields of a message in a buffer. *)
Lemma block_fields pre m rest :
  load (length pre + 8) 4 (pre ++ block m ++ rest) = Some (le_bytes 4 SOL_SOCKET) /\
  load (length pre + 12) 4 (pre ++ block m ++ rest) = Some (le_bytes 4 (msg_type m)) /\
  load (length pre + hdr) (length (msg_data m)) (pre ++ block m ++ rest) = Some (msg_data m).
Proof.
  unfold block. rewrite <-!app_assoc. split; [|split].
  - rewrite (app_assoc pre). apply load_app; [by rewrite length_app, length_le_bytes|apply length_le_bytes].
  - rewrite (app_assoc pre), (app_assoc (pre ++ _)).
    apply load_app; [rewrite !length_app, !length_le_bytes; lia|apply length_le_bytes].
  - rewrite (app_assoc pre), (app_assoc (pre ++ _)), (app_assoc ((pre ++ _) ++ _)).
    apply load_app; [rewrite !length_app, !length_le_bytes; unfold hdr; lia|done].
Qed.

(** A message filled in where there are zeros. *)
Lemma put_cmsg_block m pre post off : off = length pre ->
  put_cmsg off (msg_type m) (msg_data m) (pre ++ replicate (cmsg_space (length (msg_data m))) 0 ++ post) =
  Some (pre ++ block m ++ post).
Proof.
  intros ->. set (n := length (msg_data m)). pose proof (align_spec n) as [Ha _].
  assert (Hz : replicate (cmsg_space n) 0 =
    replicate 8 0 ++ replicate 4 0 ++ replicate 4 0 ++ replicate n 0 ++ replicate (cmsg_align n - n) 0).
  { rewrite <-!replicate_add. f_equal. unfold cmsg_space, hdr. lia. }
  unfold put_cmsg. rewrite Hz, <-!app_assoc.
  rewrite (app_assoc pre), (store_app _ (le_bytes 4 SOL_SOCKET)) by (rewrite ?length_app, ?length_replicate, ?length_le_bytes; done).
  cbn [mbind option_bind]. rewrite <-!app_assoc.
  rewrite (app_assoc pre), (app_assoc (pre ++ _)), (store_app _ (le_bytes 4 (msg_type m)))
    by (rewrite ?length_app, ?length_replicate, ?length_le_bytes; simpl; lia).
  cbn [mbind option_bind]. rewrite <-!app_assoc.
  rewrite (store_app _ (le_bytes 8 _)) by (rewrite ?length_replicate, ?length_le_bytes; done).
  cbn [mbind option_bind]. rewrite (app_assoc pre), (app_assoc (pre ++ _)), (app_assoc ((pre ++ _) ++ _)),
    (store_app _ (msg_data m)) by (rewrite ?length_app, ?length_replicate, ?length_le_bytes; unfold hdr; simpl; lia).
  unfold block. fold n. by rewrite <-!app_assoc.
Qed.

Lemma header_len_zeros pre n : (8 <= n)%nat -> header_len (pre ++ replicate n 0) (length pre) = Some 0%nat.
Proof.
  intros Hn. unfold header_len. replace n with (8 + (n - 8))%nat by lia. rewrite replicate_add.
  rewrite (load_app _ 8) by done. done.
Qed.

(** From a message to the place after it. *)
Lemma next_after pre m rest : msg_ok m ->
  CMSG_NXTHDR (pre ++ block m ++ rest) (length pre) =
    if (length rest <? hdr)%nat then Some None
    else len' ← header_len (pre ++ block m ++ rest) (length (pre ++ block m));
      Some (if (length rest <? cmsg_align len')%nat then None else Some (length (pre ++ block m))).
Proof.
  intros Hm. unfold CMSG_NXTHDR. rewrite header_len_block by done. cbn [mbind option_bind].
  pose proof (msg_len_small m Hm). rewrite (proj2 (Nat.ltb_ge (msg_len m) hdr)) by (unfold hdr; lia).
  rewrite <-length_block, <-length_app.
  assert (Hlt : forall k, (length (pre ++ block m ++ rest) <? length (pre ++ block m) + k)%nat = (length rest <? k)%nat).
  { intros k. rewrite app_assoc, (length_app (pre ++ block m)). apply eq_true_iff_eq. rewrite !Nat.ltb_lt. lia. }
  rewrite Hlt. destruct (length rest <? hdr)%nat; [done|].
  destruct (header_len _ _) as [len'|]; [|done]. simpl. by rewrite Hlt.
Qed.

Lemma ucred_back c : msg_ok (Creds c) -> ucred_of (ucred_bytes c) = c.
Proof.
  destruct c as [pid uid gid]. intros (Hp & Hu & Hg). unfold ucred_of, ucred_bytes. cbn [uc_pid uc_uid uc_gid].
  rewrite take_app_length', drop_app_length' by (by rewrite length_le_bytes).
  rewrite take_app_length' by (by rewrite length_le_bytes).
  rewrite app_assoc, drop_app_length' by (by rewrite length_app, !length_le_bytes).
  by rewrite int_back, !unsigned_back.
Qed.

Lemma length_ucred_bytes c : length (ucred_bytes c) = sizeof_ucred.
Proof. unfold ucred_bytes. by rewrite !length_app, !length_le_bytes. Qed.

Section Walk.
Context `{ET : ErrnoText} {K : Type} {SO : SocketOS K} {OS : MultiOS K}.

Lemma show_block fuel pre m rest s : msg_ok m ->
  show_cmsg fuel (pre ++ block m ++ rest) (length pre) s = report fuel m s.
Proof.
  intros Hm. unfold show_cmsg. rewrite header_len_block by done.
  destruct (block_fields pre m rest) as (Hl & Ht & Hd).
  rewrite Hl, Ht. unfold report, bind. destruct (cmsg_banner _ s) as [[] s1|e s1|]; [|done|done].
  rewrite (int_back SOL_SOCKET) by done. change (negb (SOL_SOCKET =? SOL_SOCKET)) with false. cbv beta iota.
  destruct m as [l|[pid uid gid]]; [change (msg_type (Rights l)) with SCM_RIGHTS|
    change (msg_type (Creds (Ucred pid uid gid))) with SCM_CREDENTIALS]; rewrite int_back by done.
  - change (SCM_RIGHTS =? SCM_RIGHTS) with true. cbv beta iota. cbn [msg_data] in Hd. destruct Hm as [Hlen Hints].
    destruct (putout _ s1) as [[] s2|e s2|]; [|done|done].
    unfold msg_len. cbn [msg_data]. rewrite length_int_bytes in *. rewrite (proj2 (Nat.ltb_ge _ _)) by lia.
    replace ((hdr + 4 * length l - hdr) / 4)%nat with (length l) by (rewrite Nat.add_comm, Nat.add_sub, Nat.mul_comm; symmetry; by apply Nat.div_mul).
    rewrite Hd. by rewrite ints_of_bytes.
  - change (SCM_CREDENTIALS =? SCM_RIGHTS) with false. change (SCM_CREDENTIALS =? SCM_CREDENTIALS) with true. cbv beta iota.
    cbn [msg_data] in *. assert (Hlen : length (ucred_bytes (Ucred pid uid gid)) = sizeof_ucred).
    { unfold ucred_bytes. by rewrite !length_app, !length_le_bytes. }
    unfold msg_len. cbn [msg_data]. rewrite Hlen in *. rewrite Nat.eqb_refl. cbv beta iota delta [negb]. rewrite Hd.
    by rewrite ucred_back.
Qed.
Lemma pack_cons m ms : pack (m :: ms) = block m ++ pack ms.
Proof. done. Qed.

Lemma block_long m : (hdr <= length (block m))%nat.
Proof. rewrite length_block. unfold msg_len. rewrite align_hdr. unfold hdr. lia. Qed.

Lemma pack_turns ms : (length ms <= length (pack ms) / hdr)%nat.
Proof.
  induction ms as [|m ms IH]; [done|]. rewrite pack_cons, length_app. pose proof (block_long m).
  change (length (m :: ms)) with (S (length ms)).
  assert (length (pack ms) / hdr <= (length (block m) + length (pack ms) - hdr) / hdr)%nat
    by (apply Nat.Div0.div_le_mono; lia).
  replace (length (block m) + length (pack ms))%nat with (length (block m) + length (pack ms) - hdr + 1 * hdr)%nat by lia.
  rewrite Nat.div_add by done. lia.
Qed.

(** The walk does to the bytes what [report] does to the messages. *)
Lemma walk_pack turns fuel pre m ms s : Forall msg_ok (m :: ms) -> (length (m :: ms) <= turns)%nat ->
  walk turns fuel (pre ++ pack (m :: ms)) (length pre) s = for_each (m :: ms) (report fuel) s.
Proof.
  revert m pre turns s. induction ms as [|m2 ms IH]; intros m pre turns s Hok Hturns;
    (destruct turns as [|turns]; [simpl in Hturns; lia|]); inversion Hok as [|? ? Hm Hms]; subst;
    change (for_each (m :: ?l) (report fuel) s) with ((report fuel m ;;; for_each l (report fuel))%c s);
    rewrite pack_cons; cbn [walk for_each]; unfold bind at 1 2; rewrite show_block by done;
    (destruct (report fuel m s) as [[] s1|e s1|]; [|done|done]); rewrite next_after by done.
  - done.
  - rewrite pack_cons in *. pose proof (block_long m2) as Hl. rewrite (proj2 (Nat.ltb_ge _ _)) by (rewrite length_app; lia).
    inversion Hms as [|? ? Hm2 _]; subst.
    rewrite app_assoc, header_len_block by done. cbn [mbind option_bind].
    rewrite <-(length_block m2), (proj2 (Nat.ltb_ge _ _)) by (rewrite length_app; lia).
    rewrite <-pack_cons. apply IH; [done|simpl in *; lia].
Qed.

Lemma walk_control_pack fuel ms s : Forall msg_ok ms ->
  walk_control fuel (pack ms) s = for_each ms (report fuel) s.
Proof.
  intros Hok. unfold walk_control, CMSG_FIRSTHDR. destruct ms as [|m ms]; [done|].
  assert (Hl : (hdr <= length (pack (m :: ms)))%nat) by (rewrite pack_cons, length_app; pose proof (block_long m); lia).
  rewrite (proj2 (Nat.leb_le _ _) Hl). apply (walk_pack _ fuel [] m ms); [done|]. apply pack_turns.
Qed.

(** C29: The sender fills the control buffer exactly with its two messages,
    without going outside it, for any descriptors and credentials; and from any
    well-formed control data the receiver takes exactly the messages, in order,
    with their descriptors and credentials, without going outside it. *)
Theorem control_round_trip (fdList : list Z) (creds : ucred) :
  msg_ok (Rights fdList) -> msg_ok (Creds creds) ->
  build_control fdList creds = Some (pack [Rights fdList; Creds creds]) /\
  forall (fuel : nat) (ms : list message) (s : proc K), Forall msg_ok ms ->
    walk_control fuel (pack ms) s = for_each ms (report fuel) s.
Proof.
  intros Hr Hc. split; [|intros; by apply walk_control_pack].
  assert (Hn : length (ucred_bytes creds) = sizeof_ucred).
  { unfold ucred_bytes. by rewrite !length_app, !length_le_bytes. }
  unfold build_control. rewrite <-length_int_bytes, <-Hn, replicate_add.
  change (int_bytes fdList) with (msg_data (Rights fdList)). change (ucred_bytes creds) with (msg_data (Creds creds)).
  assert (Hfirst : forall l, CMSG_FIRSTHDR (replicate (cmsg_space (length (msg_data (Rights fdList)))) 0 ++ l) = Some 0%nat).
  { intros l. unfold CMSG_FIRSTHDR. rewrite length_app, length_replicate. rewrite (proj2 (Nat.leb_le _ _)); [done|].
    unfold cmsg_space. lia. }
  rewrite Hfirst. cbn [mbind option_bind]. change SCM_RIGHTS with (msg_type (Rights fdList)).
  pose proof (put_cmsg_block (Rights fdList) [] (replicate (cmsg_space (length (msg_data (Creds creds)))) 0) 0 eq_refl) as Hp.
  cbn [app] in Hp. rewrite Hp. cbn [mbind option_bind].
  pose proof (next_after [] (Rights fdList) (replicate (cmsg_space (length (msg_data (Creds creds)))) 0) Hr) as Hnext.
  cbn [app length] in Hnext. rewrite Hnext, length_replicate.
  rewrite (proj2 (Nat.ltb_ge _ _)) by (unfold cmsg_space; lia).
  rewrite header_len_zeros by (unfold cmsg_space, hdr; lia). cbn [mbind option_bind].
  rewrite (proj2 (Nat.ltb_ge _ (cmsg_align 0))) by (change (cmsg_align 0) with 0%nat; lia). cbn [mjoin option_join mbind option_bind].
  change SCM_CREDENTIALS with (msg_type (Creds creds)).
  pose proof (put_cmsg_block (Creds creds) (block (Rights fdList)) [] _ eq_refl) as Hput. rewrite !app_nil_r in Hput.
  rewrite Hput. by rewrite !pack_cons, app_nil_r.
Qed.

End Walk.

(** ** A run *)

(** The contents of the descriptors that have been received, and those closed. *)
Definition demo_contents : Type := list (Z * cstr) * list Z.

#[export] Instance demo_multi_sockets : SocketOS demo_contents := {|
  os_getaddrinfo k _ _ _ _ := (k, None);
  os_freeaddrinfo k := (k, tt);
  os_socket k _ _ _ := (k, inr 3);
  os_connect k _ _ := (k, inr tt);
  os_bind k _ _ := (k, inr tt);
  os_reuseaddr k _ := (k, inr tt);
  os_listen k _ _ := (k, inr tt);
  os_close k fd := ((k.1, k.2 ++ [fd]), inr tt);
  os_getnameinfo k _ := (k, None)
|}.

#[export] Instance demo_multi_os : MultiOS demo_contents := {|
  os_getpid k := (k, 1000);
  os_getuid k := (k, 500);
  os_getgid k := (k, 100);
  os_malloc k _ := (k, inr tt);
  os_open_rdonly k _ := (k, inr 5);
  os_sendmsg_control k _ _ _ := (k, inr 4);
  os_remove k _ := (k, inl ENOENT);
  os_accept k _ := (k, inr 4);
  os_passcred k _ := (k, inr tt);
  os_recvmsg_control k _ _ :=
    (k, inr (Received 4 12345 (pack [Creds (Ucred 1000 500 4294967295); Rights [8; 9]]) false));
  os_system k _ := (k, tt);
  os_read k fd _ :=
    match list_find (fun p => p.1 = fd) k.1 with
    | Some (i, p) => ((<[i := (fd, [])]> k.1, k.2), inr p.2)
    | None => (k, inl 9)
    end;
  os_write k _ buf := (k, inr (strlen buf))
|}.

#[export] Instance demo_multi_texts : ErrnoText :=
  {| MAX_ENAME := 0; ename := fun _ => []; strerror := fun _ => [] |}.

Definition demo_received : proc demo_contents := Proc ([(8, lit "a"); (9, lit "bc")], []) 0 None [] [] [].

Example multi_received :
  match recv_main 5 (lit "scm_multi_recv") [] demo_received with
  | Exit EXIT_SUCCESS s => kern s = ([(8, []); (9, [])], [8; 9])
  | _ => False
  end.
Proof. by vm_compute. Qed.

Lemma control_round_trip_witness :
  build_control [5; 6; 7] (Ucred 1000 500 100) = Some (pack [Rights [5; 6; 7]; Creds (Ucred 1000 500 100)]) /\
  forall (fuel : nat) (ms : list message) (s : proc demo_contents), Forall msg_ok ms ->
    walk_control fuel (pack ms) s = for_each ms (report fuel) s.
Proof.
  refine (control_round_trip [5; 6; 7] (Ucred 1000 500 100) _ _).
  - split; [by vm_compute; lia|]. by repeat constructor.
  - done.
Defined.
