(* ===== verification/ScmSingle.v ===== *)
(** sockets/scm_rights_send.c, scm_rights_recv.c, scm_cred_send.c and
    scm_cred_recv.c (src/tlpi-dist): one descriptor, or the credentials of a
    process, as the only control message. *)
From Stdlib Require Import ZArith Lia Ascii String.
From stdpp Require Import base tactics list strings.
From S2P Require Import Prelude CString Process ScmFunctions Sockets ScmMulti.
#[local] Open Scope Z_scope.

Definition RIGHTS_PATH : cstr := lit "scm_rights".
Definition CRED_PATH : cstr := lit "scm_cred".

(** The control data of one message, filled in field by field. *)
Definition single_control (type : Z) (data : list Z) : option (list Z) :=
  let controlMsg := replicate (cmsg_space (length data)) 0 in
  cmsgp ← CMSG_FIRSTHDR controlMsg;
  buf ← store cmsgp (le_bytes 8 (Z.of_nat (hdr + length data))) controlMsg;
  buf ← store (cmsgp + 8) (le_bytes 4 SOL_SOCKET) buf;
  buf ← store (cmsgp + 12) (le_bytes 4 type) buf;
  store (cmsgp + hdr) data buf.

(** SO_PEERCRED. *)
Class PeerOS (K : Type) := { os_peercred : K -> Z -> K * (Z + ucred) }.

Section Code.
Context `{ErrnoText} {K : Type} {SO : SocketOS K} {OS : MultiOS K} {PO : PeerOS K}.
Abbreviation PM := (M (proc K)).

(** The flags that are given of [known]; [None] for another. *)
Fixpoint flags_of (known : list ascii) (opts : list option_arg) : option (list ascii) :=
  match opts with
  | [] => Some []
  | Opt c _ :: rest =>
      if bool_decide (c ∈ known) then (cons c) <$> flags_of known rest else None
  end.

Definition given (c : ascii) (flags : list ascii) : bool := bool_decide (c ∈ flags).

(** A socket connected to the receiver at [path]. *)
Definition connect_to (path : cstr) (dgram : bool) : PM Z :=
  let! sfd := unixConnect path (if dgram then SOCK_DGRAM else SOCK_STREAM) in
  when (sfd =? -1) (errExit (lit "unixConnect")) ;;;
  ret sfd.

(** ** scm_rights_send.c *)

(** getopt knows only the option d: v is never seen. *)
Definition rights_send_main (pname : cstr) (opts : list option_arg) (files : list cstr) : PM unit :=
  match flags_of ["d"%char] opts with
  | None =>
      usageErr (lines [pname ++ lit " [options] file"; lit "    Options:";
        TAB :: lit "-d    Use datagram socket (default is stream)"])
  | Some flags =>
      match files with
      | [file] =>
          let verbose := given "v"%char flags in
          let! fd := must (fun k => os_open_rdonly k file) (lit "open") in
          when verbose (putout (lit "Sending data = " ++ show_Z 12345 ++ [NEWLINE])) ;;;
          match single_control SCM_RIGHTS (le_bytes 4 fd) with
          | None => undef
          | Some controlMsg =>
              let! sfd := connect_to RIGHTS_PATH (given "d"%char flags) in
              putout (lit "Sending FD " ++ show_Z fd ++ [NEWLINE]) ;;;
              let! ns := must (fun k => os_sendmsg_control k sfd (Some 12345) controlMsg) (lit "sendmsg") in
              when verbose (putout (lit "sendmsg() returned " ++ show_Z ns ++ [NEWLINE])) ;;;
              must (fun k => os_close k fd) (lit "close") ;;;
              exit3 EXIT_SUCCESS
          end
      | _ => usageErr (pname ++ lit " [-d] file" ++ [NEWLINE])
      end
  end.

(** ** The checks of the receivers *)

(** The data of the first message, if it has the type and size. *)
Definition take_single (type : Z) (size : nat) (name : cstr) (buf : list Z) : PM (list Z) :=
  match CMSG_FIRSTHDR buf with
  | None => fatal (lit "bad cmsg header / message length")
  | Some off =>
      match header_len buf off, load (off + 8) 4 buf, load (off + 12) 4 buf with
      | Some len, Some level, Some ty =>
          if negb (len =? hdr + size)%nat then fatal (lit "bad cmsg header / message length")
          else if negb (to_signed 32 (le_value level) =? SOL_SOCKET) then fatal (lit "cmsg_level != SOL_SOCKET")
          else if negb (to_signed 32 (le_value ty) =? type) then fatal (lit "cmsg_type != " ++ name)
          else
            match load (off + hdr) size buf with
            | None => undef
            | Some bytes => ret bytes
            end
      | _, _, _ => undef
      end
  end.

(** Receive one message of data and control data. *)
Definition receive (sfd : Z) (size : nat) (verbose : bool) : PM (list Z) :=
  let! msgh := must (fun k => os_recvmsg_control k sfd (Z.of_nat (cmsg_space size))) (lit "recvmsg") in
  when verbose (putout (lit "recvmsg() returned " ++ show_Z (nr msgh) ++ [NEWLINE])) ;;;
  when ((0 <? nr msgh) && verbose) (putout (lit "Received data = " ++ show_Z (data msgh) ++ [NEWLINE])) ;;;
  ret (control msgh).

(** ** scm_rights_recv.c *)

Definition rights_recv_main (fuel : nat) (pname : cstr) (opts : list option_arg) : PM unit :=
  match flags_of ["d"; "v"]%char opts with
  | None =>
      usageErr (lines [pname ++ lit " [options]"; lit "    Options:";
        TAB :: lit "-d    Use datagram socket (default is stream)"])
  | Some flags =>
      remove_path RIGHTS_PATH ;;;
      let! sfd := recv_socket RIGHTS_PATH (given "d"%char flags) in
      let! buf := receive sfd 4 (given "v"%char flags) in
      let! bytes := take_single SCM_RIGHTS 4 (lit "SCM_RIGHTS") buf in
      let fd := to_signed 32 (le_value bytes) in
      putout (lit "Received FD " ++ show_Z fd ++ [NEWLINE]) ;;;
      show_file fuel fd ;;;
      exit3 EXIT_SUCCESS
  end.

(** ** scm_cred_send.c *)

(** An identifier: the operand, unless it is absent or a hyphen. *)
Definition cred_operand (argv : list cstr) (i : nat) (own : Z) (convert : Z -> Z) : Z :=
  match argv !! i with
  | Some a => if bool_decide (a = lit "-") then own else convert (atoi a)
  | None => own
  end.

Definition cred_text (what : cstr) (c : ucred) : cstr :=
  what ++ lit " credentials pid=" ++ show_Z (uc_pid c) ++ lit ", uid=" ++ show_Z (uc_uid c) ++
  lit ", gid=" ++ show_Z (uc_gid c) ++ [NEWLINE].

(** The credentials of the command line. *)
Definition cred_choose (argv : list cstr) : PM ucred :=
  let! pid := syscall_ os_getpid in
  let! uid := syscall_ os_getuid in
  let! gid := syscall_ os_getgid in
  ret (Ucred (cred_operand argv 0 pid id) (cred_operand argv 1 uid (to_unsigned 32))
         (cred_operand argv 2 gid (to_unsigned 32))).

Definition cred_send_main (pname : cstr) (opts : list option_arg) (argv : list cstr) : PM unit :=
  match flags_of ["d"; "n"; "v"]%char opts with
  | None =>
      usageErr (lines [pname ++ lit " [options] [PID [UID [GID]]]"; lit "    Options:";
        TAB :: lit "-d    Use datagram socket (default is stream)";
        TAB :: lit "-n    Don't construct explicit credentials structure";
        TAB :: lit "-v    Be verbose";
        lit "Each of the arguments can be '-', meaning send process's own PID/UID/GID"])
  | Some flags =>
      let verbose := given "v"%char flags in
      when verbose (puterr (lit "Sending data = " ++ show_Z 12345 ++ [NEWLINE])) ;;;
      let! controlMsg :=
        (if given "n"%char flags then
           putout (lit "Not explicitly sending a credentials structure" ++ [NEWLINE]) ;;; ret []
         else
           let! c := cred_choose argv in
           putout (cred_text (lit "Send") c) ;;;
           match single_control SCM_CREDENTIALS (ucred_bytes c) with
           | None => undef
           | Some controlMsg => ret controlMsg
           end) in
      let! sfd := connect_to CRED_PATH (given "d"%char flags) in
      let! ns := must (fun k => os_sendmsg_control k sfd (Some 12345) controlMsg) (lit "sendmsg") in
      when verbose (putout (lit "sendmsg() returned " ++ show_Z ns ++ [NEWLINE])) ;;;
      exit3 EXIT_SUCCESS
  end.

(** ** scm_cred_recv.c *)

Definition cred_recv_main (pname : cstr) (opts : list option_arg) : PM unit :=
  match flags_of ["d"; "v"]%char opts with
  | None =>
      usageErr (lines [pname ++ lit " [options]"; lit "    Options:";
        TAB :: lit "-d    Use datagram socket (default is stream)"; TAB :: lit "-v    Be verbose"])
  | Some flags =>
      let verbose := given "v"%char flags in
      remove_path CRED_PATH ;;;
      let! sfd := recv_socket CRED_PATH (given "d"%char flags) in
      must (fun k => os_passcred k sfd) (lit "setsockopt") ;;;
      let! buf := receive sfd sizeof_ucred verbose in
      let! bytes := take_single SCM_CREDENTIALS sizeof_ucred (lit "SCM_CREDENTIALS") buf in
      putout (cred_text (lit "Received") (ucred_of bytes)) ;;;
      let! scred := must (fun k => os_peercred k sfd) (lit "getsockopt") in
      when verbose (putout (lit "Credentials from SO_PEERCRED: pid=" ++ show_Z (uc_pid scred) ++ lit ", euid=" ++
        show_Z (uc_uid scred) ++ lit ", egid=" ++ show_Z (uc_gid scred) ++ [NEWLINE])) ;;;
      exit3 EXIT_SUCCESS
  end.

End Code.

(** ** One message *)

Lemma single_control_pack m : single_control (msg_type m) (msg_data m) = Some (pack [m]).
Proof.
  set (n := length (msg_data m)). pose proof (align_spec n) as [Ha _].
  assert (Hz : replicate (cmsg_space n) 0 =
    replicate 8 0 ++ replicate 4 0 ++ replicate 4 0 ++ replicate n 0 ++ replicate (cmsg_align n - n) 0).
  { rewrite <-!replicate_add. f_equal. unfold cmsg_space, hdr. lia. }
  unfold single_control. fold n. rewrite Hz. clear Hz.
  assert (Hf : forall l, CMSG_FIRSTHDR (replicate 8 0 ++ replicate 4 0 ++ replicate 4 0 ++ l) = Some 0%nat) by done.
  rewrite Hf. cbn [mbind option_bind]. 
  pose proof (store_app 0 (le_bytes 8 (Z.of_nat (hdr + n))) [] (replicate 8 0)) as Hst. cbn [app] in Hst.
  rewrite Hst by (rewrite ?length_replicate, ?length_le_bytes; done). cbn [mbind option_bind]. rewrite (store_app _ (le_bytes 4 SOL_SOCKET)) by (rewrite ?length_replicate, ?length_le_bytes; done).
  cbn [mbind option_bind]. rewrite (app_assoc (le_bytes 8 _)), (store_app _ (le_bytes 4 (msg_type m)))
    by (rewrite ?length_app, ?length_replicate, ?length_le_bytes; done).
  cbn [mbind option_bind]. rewrite <-!app_assoc, (app_assoc (le_bytes 8 _)), (app_assoc (_ ++ _)), (store_app _ (msg_data m))
    by (rewrite ?length_app, ?length_replicate, ?length_le_bytes; done).
  rewrite pack_cons. change (pack []) with (@nil Z). rewrite app_nil_r. unfold block, msg_len. fold n. by rewrite <-?app_assoc.
Qed.

Section Single.
Context `{ET : ErrnoText} {K : Type}.

(** The receivers take exactly a message of their kind. *)
Lemma wp_take_single type size name m ms (Q : list Z -> proc K -> Prop) E s : msg_ok m ->
  (forall k s', kern s' = kern s -> E k s') ->
  (msg_type m = type -> length (msg_data m) = size -> Q (msg_data m) s) ->
  wp (take_single type size name (pack (m :: ms))) Q E s.
Proof.
  intros Hm HE HQ. rewrite pack_cons. unfold take_single.
  assert (Hf : CMSG_FIRSTHDR (block m ++ pack ms) = Some 0%nat).
  { unfold CMSG_FIRSTHDR. rewrite length_app, (proj2 (Nat.leb_le _ _)); [done|]. pose proof (block_long m). lia. }
  rewrite Hf. destruct (block_fields [] m (pack ms)) as (Hl & Ht & Hd). pose proof (header_len_block [] m (pack ms) Hm) as Hlen.
  cbn [app length plus] in *. cbn [plus]. rewrite Hlen, Hl, Ht.
  destruct (msg_len m =? hdr + size)%nat eqn:El; cbn [negb]; [|by apply wp_fatal].
  apply Nat.eqb_eq in El. rewrite (int_back SOL_SOCKET) by done. change (negb (SOL_SOCKET =? SOL_SOCKET)) with false. cbv iota.
  assert (Hty : to_signed 32 (le_value (le_bytes 4 (msg_type m))) = msg_type m) by (apply int_back; by destruct m).
  rewrite Hty. destruct (msg_type m =? type) eqn:Et; cbn [negb]; [|by apply wp_fatal]. apply Z.eqb_eq in Et.
  unfold msg_len in El. assert (Hsz : length (msg_data m) = size) by lia. rewrite <-Hsz, Hd. apply wp_ret. by apply HQ.
Qed.

(** The senders build their one message exactly, and the receivers get from
    well-formed control data the descriptor or the credentials of the first
    message, or report it and end, if it is not one of theirs. *)
Theorem single_round_trip (fd : Z) (c : ucred) :
  INT_MIN <= fd <= INT_MAX -> msg_ok (Creds c) ->
  single_control SCM_RIGHTS (le_bytes 4 fd) = Some (pack [Rights [fd]]) /\
  single_control SCM_CREDENTIALS (ucred_bytes c) = Some (pack [Creds c]) /\
  forall (m : message) (ms : list message) (s : proc K), msg_ok m ->
    wp (take_single SCM_RIGHTS 4 (lit "SCM_RIGHTS") (pack (m :: ms)))
       (fun bytes s' => s' = s /\ m = Rights [to_signed 32 (le_value bytes)]) (fun _ s' => kern s' = kern s) s /\
    wp (take_single SCM_CREDENTIALS sizeof_ucred (lit "SCM_CREDENTIALS") (pack (m :: ms)))
       (fun bytes s' => s' = s /\ m = Creds (ucred_of bytes)) (fun _ s' => kern s' = kern s) s.
Proof.
  intros Hfd Hc. split; [|split].
  - pose proof (single_control_pack (Rights [fd])) as H. cbn [msg_type msg_data] in H. unfold int_bytes in H. simpl in H. exact H.
  - apply (single_control_pack (Creds c)).
  - intros m ms s Hm. split; apply wp_take_single; try done; intros Ht Hl; (split; [done|]);
      destruct m as [l|c']; try done; cbn [msg_data] in *.
    + rewrite length_int_bytes in Hl. destruct Hm as [_ Hints]. destruct l as [|z [|z' l]]; simpl in Hl; try lia.
      inversion Hints; subst. 
      change (int_bytes [z]) with (le_bytes 4 z). by rewrite int_back.
    + by rewrite ucred_back.
Qed.

End Single.

(** ** Runs *)

#[export] Instance demo_peer : PeerOS demo_contents := {| os_peercred k _ := (k, inr (Ucred 1000 500 100)) |}.

(** The options of the sender: v is in its switch but not known to getopt. *)
Example verbose_refused :
  match rights_send_main (lit "scm_rights_send") [Opt "v"%char []] [lit "f"] demo_received with
  | Exit EXIT_FAILURE s => kern s = kern demo_received
  | _ => False
  end /\
  match rights_send_main (lit "scm_rights_send") [Opt "d"%char []] [lit "f"] demo_received with
  | Exit EXIT_SUCCESS s => (kern s).2 = [5]
  | _ => False
  end.
Proof. by vm_compute. Qed.

Example credentials_chosen :
  match cred_choose [lit "-"; lit "0"] demo_received with
  | Ret c _ => c = Ucred 1000 0 100
  | _ => False
  end.
Proof. by vm_compute. Qed.

(** The message that recv_main's demonstration kernel sends has its credentials
    first: scm_cred_recv takes them. *)
Example credentials_received :
  match cred_recv_main (lit "scm_cred_recv") [] demo_received with Exit EXIT_SUCCESS _ => True | _ => False end /\
  match rights_recv_main 5 (lit "scm_rights_recv") [] demo_received with Exit EXIT_FAILURE _ => True | _ => False end.
Proof. by vm_compute. Qed.

Lemma single_round_trip_witness :
  single_control SCM_RIGHTS (le_bytes 4 7) = Some (pack [Rights [7]]) /\
  single_control SCM_CREDENTIALS (ucred_bytes (Ucred 1 2 3)) = Some (pack [Creds (Ucred 1 2 3)]) /\
  forall (m : message) (ms : list message) (s : proc demo_contents), msg_ok m ->
    wp (take_single SCM_RIGHTS 4 (lit "SCM_RIGHTS") (pack (m :: ms)))
       (fun bytes s' => s' = s /\ m = Rights [to_signed 32 (le_value bytes)]) (fun _ s' => kern s' = kern s) s /\
    wp (take_single SCM_CREDENTIALS sizeof_ucred (lit "SCM_CREDENTIALS") (pack (m :: ms)))
       (fun bytes s' => s' = s /\ m = Creds (ucred_of bytes)) (fun _ s' => kern s' = kern s) s.
Proof. by refine (single_round_trip 7 (Ucred 1 2 3) _ _). Defined.
