(* ===== verification/SeqnumSocket.v ===== *)
(** sockets/is_seqnum_sv.c and is_seqnum_cl.c, and is_seqnum_v2_sv.c and
    is_seqnum_v2_cl.c (src/tlpi-dist): servers that hand out sequences of numbers
    over connections, one client after the other, and their clients. The second
    pair uses inet_sockets.c (Sockets); both read lines with read_line.c (FdIo). *)
From Stdlib Require Import ZArith Lia Ascii String.
From stdpp Require Import base tactics list strings.
From S2P Require Import Prelude CString Process NumArgs FdIo FdIoProps Sockets.
#[local] Open Scope Z_scope.

Definition INT_LEN : Z := 30.
Definition PORT_NUM : cstr := lit "50000".
Definition ADDRSTRLEN : Z := 1025 + 32 + 10.
Definition IS_ADDR_STR_LEN : Z := 4096.
Definition BACKLOG : Z := 50.

(** What the programs call beside the functions of Sockets and FdIo: the
    address of the peer is a list of bytes, [os_nameinfo] is getnameinfo without
    flags, and [os_addrinfo] getaddrinfo for a stream socket with AI_NUMERICSERV
    and, if told so, AI_PASSIVE. *)
Class SeqnumOS (K : Type) := {
  os_ignore_sigpipe : K -> K * (Z + unit);
  os_accept : K -> Z -> K * (Z + (Z * list ascii));
  os_nameinfo : K -> list ascii -> K * option (cstr * cstr);
  os_addrinfo : K -> option cstr -> cstr -> bool -> K * option (list addrinfo);
  os_malloc : K -> Z -> K * bool
}.

(** The string in a buffer that readLine has filled. *)
Fixpoint as_string (buf : list ascii) : cstr :=
  match buf with [] => [] | c :: buf => if bool_decide (c = NUL) then [] else c :: as_string buf end.

Section Code.
Context `{ET : ErrnoText} {K : Type} `{IO : ByteIO K, SO : SocketOS K, QO : SeqnumOS K}.
Abbreviation PM := (M (proc K)).

(** ** The servers *)

(** One connection: the next number. A line that is not complete within
    [fuel] reads is [undef] here. *)
Definition serve_client (fuel : nat) (cfd seqNum : Z) : PM Z :=
  let! r := readLine fuel cfd INT_LEN false in
  match r with
  | None => undef
  | Some (numRead, reqLenStr) =>
      if numRead <=? 0 then syscall (fun k => os_close k cfd) ;;; ret seqNum
      else
        let reqLen := atoi (as_string reqLenStr) in
        if reqLen <=? 0 then syscall (fun k => os_close k cfd) ;;; ret seqNum
        else
          let seqNumStr := snprintf INT_LEN (show_Z (to_signed 32 seqNum) ++ [NEWLINE]) in
          let! w := syscall (fun k => os_write k cfd seqNumStr) in
          when (negb (bool_decide (w = Some (strlen seqNumStr)))) (puterr (lit "Error on write")) ;;;
          let seqNum := to_unsigned 32 (seqNum + reqLen) in
          let! c := syscall (fun k => os_close k cfd) in
          when (bool_decide (c = None)) (errMsg (lit "close")) ;;;
          ret seqNum
  end.

(** The loop over clients, for at most [turns] turns; [addrStr] makes a text
    of the client's address. *)
Fixpoint serve_loop (turns fuel : nat) (addrStr : list ascii -> PM cstr) (lfd seqNum : Z) : PM Z :=
  match turns with
  | O => ret seqNum
  | S turns =>
      let! c := syscall (fun k => os_accept k lfd) in
      match c with
      | None => errMsg (lit "accept") ;;; serve_loop turns fuel addrStr lfd seqNum
      | Some (cfd, claddr) =>
          let! text := addrStr claddr in
          putout (lit "Connection from " ++ text ++ [NEWLINE]) ;;;
          let! seqNum := serve_client fuel cfd seqNum in
          serve_loop turns fuel addrStr lfd seqNum
      end
  end.

(** The arguments and the signal. *)
Definition sv_start (argv : list cstr) : PM Z :=
  if (1 <? length argv)%nat && bool_decide (argv !! 1%nat = Some (lit "--help")) then
    usageErr (default [] (argv !! 0%nat) ++ lit " [init-seq-num]" ++ [NEWLINE])
  else
    let! seqNum :=
      if (1 <? length argv)%nat then getInt (argv !! 1%nat) 0 (Some (lit "init-seq-num")) else ret 0 in
    let! r := syscall os_ignore_sigpipe in
    match r with
    | None => errExit (lit "signal")
    | Some _ => ret (to_unsigned 32 seqNum)
    end.

(** *** is_seqnum_sv.c *)

(** The walk through the list of addresses. *)
Fixpoint sv_walk (result : list addrinfo) : PM Z :=
  match result with
  | [] => fatal (lit "Could not bind socket to any address")
  | rp :: rest =>
      let! lfd := syscall (fun k => os_socket k (ai_family rp) (ai_socktype rp) (ai_protocol rp)) in
      match lfd with
      | None => sv_walk rest
      | Some lfd =>
          let! opt := syscall (fun k => os_reuseaddr k lfd) in
          match opt with
          | None => errExit (lit "setsockopt")
          | Some _ =>
              let! b := syscall (fun k => os_bind k lfd (ai_addr rp)) in
              match b with
              | Some _ => ret lfd
              | None => syscall (fun k => os_close k lfd) ;;; sv_walk rest
              end
          end
      end
  end.

Definition sv_addr_str (claddr : list ascii) : PM cstr :=
  let! r := syscall_ (fun k => os_nameinfo k claddr) in
  ret (snprintf ADDRSTRLEN
    (match r with
     | Some (host, service) => lit "(" ++ host ++ lit ", " ++ service ++ lit ")"
     | None => lit "(?UNKNOWN?)"
     end)).

Definition sv_main (turns fuel : nat) (argv : list cstr) : PM Z :=
  let! seqNum := sv_start argv in
  let! result := syscall_ (fun k => os_addrinfo k None PORT_NUM true) in
  match result with
  | None => errExit (lit "getaddrinfo")
  | Some result =>
      let! lfd := sv_walk result in
      let! l := syscall (fun k => os_listen k lfd BACKLOG) in
      match l with
      | None => errExit (lit "listen")
      | Some _ =>
          syscall_ os_freeaddrinfo ;;;
          serve_loop turns fuel sv_addr_str lfd seqNum
      end
  end.

(** *** is_seqnum_v2_sv.c *)

Definition v2_sv_main (turns fuel : nat) (argv : list cstr) : PM Z :=
  let! seqNum := sv_start argv in
  let! (lfd, addrlen) := inetListen PORT_NUM 5 true in
  if lfd =? -1 then fatal (lit "inetListen() failed")
  else
    let! ok := syscall_ (fun k => os_malloc k (default 0 addrlen)) in
    if negb ok then errExit (lit "malloc")
    else serve_loop turns fuel (fun claddr => inetAddressStr claddr IS_ADDR_STR_LEN) lfd seqNum.

(** ** The clients *)

Definition must_write (fd : Z) (t msg : cstr) : PM unit :=
  let! w := syscall (fun k => os_write k fd t) in
  when (negb (bool_decide (w = Some (strlen t)))) (fatal msg).

(** The conversation, once connected. *)
Definition ask_number (fuel : nat) (cfd : Z) (argv : list cstr) : PM unit :=
  let reqLenStr := if (2 <? length argv)%nat then default [] (argv !! 2%nat) else lit "1" in
  must_write cfd reqLenStr (lit "Partial/failed write (reqLenStr)") ;;;
  must_write cfd [NEWLINE] (lit "Partial/failed write (newline)") ;;;
  let! r := readLine fuel cfd INT_LEN false in
  match r with
  | None => undef
  | Some (numRead, seqNumStr) =>
      if numRead =? -1 then errExit (lit "readLine")
      else if numRead =? 0 then fatal (lit "Unexpected EOF from server")
      else
        putout (lit "Sequence number: " ++ as_string seqNumStr) ;;;
        exit3 EXIT_SUCCESS
  end.

Definition cl_usage (argv : list cstr) : cstr :=
  default [] (argv !! 0%nat) ++ lit " server-host [sequence-len]" ++ [NEWLINE].

(** is_seqnum_cl.c; its walk is that of inetConnect. *)
Definition cl_main (fuel : nat) (argv : list cstr) : PM unit :=
  if (length argv <? 2)%nat || bool_decide (argv !! 1%nat = Some (lit "--help")) then usageErr (cl_usage argv)
  else
    let! result := syscall_ (fun k => os_addrinfo k (argv !! 1%nat) PORT_NUM false) in
    match result with
    | None => errExit (lit "getaddrinfo")
    | Some result =>
        let! rp := connect_walk result in
        match rp with
        | None => fatal (lit "Could not connect socket to any address")
        | Some (cfd, _) =>
            syscall_ os_freeaddrinfo ;;;
            ask_number fuel cfd argv
        end
    end.

(** is_seqnum_v2_cl.c *)
Definition v2_cl_main (fuel : nat) (argv : list cstr) : PM unit :=
  if (length argv <? 2)%nat || bool_decide (argv !! 1%nat = Some (lit "--help")) then usageErr (cl_usage argv)
  else
    let! cfd := inetConnect (argv !! 1%nat) PORT_NUM SOCK_STREAM in
    if cfd =? -1 then fatal (lit "inetConnect() failed")
    else ask_number fuel cfd argv.

End Code.

(** ** What the servers answer *)

(** The number after a line has been received, and the answer to it. *)
Definition answer (seqNum : Z) (line : list ascii) : Z * list ascii :=
  let n := atoi (as_string (take (Z.to_nat (INT_LEN - 1)) line)) in
  if n <=? 0 then (seqNum, [])
  else (to_unsigned 32 (seqNum + n), snprintf INT_LEN (show_Z (to_signed 32 seqNum) ++ [NEWLINE])).

(** The connections that a server has served: for each the line it received,
    unless the read failed, and what was written. *)
Fixpoint answered (seqNum : Z) (convs : list (option (list ascii) * list ascii)) (next : Z) : Prop :=
  match convs with
  | [] => next = seqNum
  | (None, out) :: rest => out = [] /\ answered seqNum rest next
  | (Some line, out) :: rest =>
      out `prefix_of` (answer seqNum line).2 /\ answered (answer seqNum line).1 rest next
  end.

(** Connections as streams: [finished] is what has been written to each of
    those that were closed; a new one has no more bytes and interruptions to
    come than [patience]. *)
Class ConnLaws (K : Type) {IO : ByteIO K} {SO : SocketOS K} {QO : SeqnumOS K} := {
  cl_stream :: forall fd, ByteStream K fd;
  finished : K -> list (list ascii);
  patience : nat;
  cl_accept k lfd k' cfd addr : os_accept k lfd = (k', inr (cfd, addr)) ->
    finished k' = finished k /\ written (fd := cfd) k' = [] /\
    (length (pending (fd := cfd) k') + interrupts (fd := cfd) k' < patience)%nat;
  cl_accept_error k lfd k' e : os_accept k lfd = (k', inl e) -> finished k' = finished k;
  cl_nameinfo cfd addr k k' r : os_nameinfo k addr = (k', r) \/ os_getnameinfo k addr = (k', r) ->
    finished k' = finished k /\ written (fd := cfd) k' = written (fd := cfd) k /\
    pending (fd := cfd) k' = pending (fd := cfd) k /\ interrupts (fd := cfd) k' = interrupts (fd := cfd) k;
  cl_read k cfd n k' r : os_read k cfd n = (k', r) ->
    finished k' = finished k /\ written (fd := cfd) k' = written (fd := cfd) k;
  cl_write k cfd t k' r : os_write k cfd t = (k', r) -> finished k' = finished k;
  cl_close k cfd k' r : os_close k cfd = (k', r) -> finished k' = finished k ++ [written (fd := cfd) k]
}.

Section Serving.
Context `{ET : ErrnoText} {K : Type} `{IO : ByteIO K, SO : SocketOS K, QO : SeqnumOS K, CL : !ConnLaws K}.
Implicit Types (s : proc K).
Abbreviation never := (fun (_ : exit_kind) (_ : proc K) => False).

Lemma wp_and {A} (m : M (proc K) A) Q1 Q2 E s :
  wp m Q1 E s -> wp m Q2 E s -> wp m (fun a s' => Q1 a s' /\ Q2 a s') E s.
Proof. unfold wp. by destruct (m s). Qed.

(** Reading a line neither writes nor closes. *)
Lemma wp_readLine_quiet fuel cfd n buf s :
  wp (readLine_loop fuel cfd n buf) (fun _ s' => finished (kern s') = finished (kern s) /\
    written (fd := cfd) (kern s') = written (fd := cfd) (kern s)) never s.
Proof.
  revert buf s. induction fuel as [|fuel IH]; intros buf s; simpl; [by apply wp_ret|].
  apply wp_bind, wp_syscall; intros k r Hk; destruct (cl_read _ _ _ _ _ Hk) as [Hf Hw].
  - apply wp_bind, wp_get. simpl. destruct (_ =? _); [|by apply wp_ret].
    eapply wp_mono; [apply IH| |done]. intros a s' [H1 H2]. by rewrite H1, H2.
  - destruct r as [|ch bytes]; [destruct (_ =? 0); by apply wp_ret|].
    case_bool_decide; [by apply wp_ret|]. eapply wp_mono; [apply IH| |done].
    intros a s' [H1 H2]. by rewrite H1, H2.
Qed.

Lemma as_string_null (t : list ascii) : as_string (t ++ [NUL]) = as_string t.
Proof. induction t as [|c t IH]; [done|]. simpl. by rewrite IH. Qed.

(** What one connection does to the number and to the list of what was
    written. *)
Definition conversation (seqNum : Z) s (next : Z) s' : Prop :=
  exists line out, finished (kern s') = finished (kern s) ++ [out] /\ answered seqNum [(line, out)] next.

Lemma answer_empty seqNum : answer seqNum [] = (seqNum, []).
Proof. done. Qed.

Lemma answered_line seqNum line next out :
  out `prefix_of` (answer seqNum line).2 -> next = (answer seqNum line).1 -> answered seqNum [(Some line, out)] next.
Proof. by split. Qed.

Lemma wp_serve_client fuel cfd seqNum s :
  (length (pending (fd := cfd) (kern s)) + interrupts (fd := cfd) (kern s) < fuel)%nat ->
  written (fd := cfd) (kern s) = [] ->
  wp (serve_client fuel cfd seqNum) (fun next s' => conversation seqNum s next s') never s.
Proof.
  intros Hf Hw. set (line := line_of (pending (fd := cfd) (kern s))).
  assert (Hclose : forall s1 (m : M (proc K) unit) l, finished (kern s1) = finished (kern s) ->
    written (fd := cfd) (kern s1) = [] -> answered seqNum [(l, [])] seqNum ->
    wp (syscall (fun k => os_close k cfd) ;;; ret seqNum) (fun next s' => conversation seqNum s next s') never s1).
  { intros s1 _ l H1 H2 Ha. apply wp_bind, wp_syscall; intros k r Hk; apply cl_close in Hk; apply wp_ret;
      exists l, []; simpl; by rewrite Hk, H1, H2. }
  apply wp_bind. unfold readLine. change (INT_LEN <=? 0) with false. simpl.
  eapply wp_mono; [apply (wp_and _ _ _ _ _ (wp_readLine_loop cfd fuel INT_LEN [] s Hf ltac:(done) ltac:(by intros ?%elem_of_nil))
    (wp_readLine_quiet fuel cfd INT_LEN [] s))| |done].
  intros r s1 [(v & buf & -> & H) [Hfin Hwr]]. rewrite Hw in Hwr. simpl in H. fold line in H.
  change (Pos.to_nat 29) with (Z.to_nat (INT_LEN - 1)) in H.
  destruct H as [(-> & _ & Hbuf)|[-> _]]; [|by apply (Hclose s1 (ret tt) None)].
  destruct (Z.leb_spec (Z.of_nat (length (take (Z.to_nat (INT_LEN - 1)) line))) 0) as [Hz|Hz].
  { apply (Hclose s1 (ret tt) (Some [])); [done|done|]. by apply answered_line. }
  destruct Hbuf as [->|[Hnil _]]; [|by rewrite Hnil in Hz]. rewrite as_string_null.
  pose proof (answered_line seqNum line) as Hans. unfold answer in Hans.
  destruct (_ <=? 0); [by apply (Hclose s1 (ret tt) (Some line)); auto|]. simpl in Hans.
  set (text := snprintf _ _) in *. apply wp_bind.
  assert (Hrest : forall w s2, finished (kern s2) = finished (kern s) -> written (fd := cfd) (kern s2) `prefix_of` text ->
    wp (when (negb (bool_decide (w = Some (strlen text)))) (puterr (lit "Error on write")) ;;;
        let! c := syscall (fun k => os_close k cfd) in
        when (bool_decide (c = None)) (errMsg (lit "close")) ;;;
        ret (to_unsigned 32 (seqNum + atoi (as_string (take (Z.to_nat (INT_LEN - 1)) line)))))
      (fun next s' => conversation seqNum s next s') never s2).
  { intros w s2 H1 H2. apply wp_seq_inv with (I := fun s' => kern s' = kern s2).
    { apply wp_when_inv; [done|]. intros _. apply wp_puterr. by intros s3 -> _. }
    intros _ s3 H3. apply wp_bind, wp_syscall; intros k r Hk; rewrite H3 in Hk; apply cl_close in Hk.
    - apply wp_seq_inv with (I := fun s' => kern s' = k); [apply wp_when_inv; [done|]; intros _;
        apply wp_errMsg; by intros s4 -> _|]. intros _ s4 H4. apply wp_ret.
      exists (Some line), (written (fd := cfd) (kern s2)). split; [by rewrite H4, Hk, H1|]. by apply Hans.
    - apply wp_seq_inv with (I := fun s' => kern s' = k); [by apply wp_when_inv|]. intros _ s4 H4. apply wp_ret.
      exists (Some line), (written (fd := cfd) (kern s2)). split; [by rewrite H4, Hk, H1|]. by apply Hans. }
  apply wp_syscall; intros k w Hk; pose proof (cl_write _ _ _ _ _ Hk) as Hfw; apply Hrest; simpl.
  - by rewrite Hfw.
  - apply bs_write_error in Hk as (-> & _). rewrite Hwr. apply prefix_nil.
  - by rewrite Hfw.
  - apply bs_write in Hk as (_ & -> & _). rewrite Hwr. apply prefix_take.
Qed.

Lemma wp_serve_loop turns fuel addrStr lfd seqNum s :
  (patience <= fuel)%nat ->
  (forall addr cfd s, wp (addrStr addr) (fun _ s' => finished (kern s') = finished (kern s) /\
     written (fd := cfd) (kern s') = written (fd := cfd) (kern s) /\
     pending (fd := cfd) (kern s') = pending (fd := cfd) (kern s) /\
     interrupts (fd := cfd) (kern s') = interrupts (fd := cfd) (kern s)) never s) ->
  wp (serve_loop turns fuel addrStr lfd seqNum) (fun next s' => exists convs,
    finished (kern s') = finished (kern s) ++ convs.*2 /\ answered seqNum convs next) never s.
Proof.
  intros Hfuel Haddr. revert seqNum s. induction turns as [|turns IH]; intros seqNum s; simpl.
  { apply wp_ret. exists []. by rewrite app_nil_r. }
  apply wp_bind, wp_syscall; intros k r Hk.
  - apply cl_accept_error in Hk. apply wp_seq_inv with (I := fun s' => kern s' = k);
      [apply wp_errMsg; by intros s1 -> _|]. intros _ s1 H1. eapply wp_mono; [apply IH| |done].
    intros next s2 (convs & H2 & H3). exists convs. by rewrite H2, H1, Hk.
  - destruct r as [cfd claddr]. destruct (cl_accept _ _ _ _ _ Hk) as (Hf & Hw & Hp).
    apply wp_bind. eapply wp_mono; [apply (Haddr claddr cfd)| |done]. simpl. intros text s1 (H1 & H2 & H3 & H4).
    apply wp_seq_inv with (I := fun s' => kern s' = kern s1); [apply wp_putout; by intros s2 -> _|].
    intros _ s2 Hs2. apply wp_bind. eapply wp_mono; [apply wp_serve_client| |done].
    + rewrite Hs2, H3, H4. lia.
    + by rewrite Hs2, H2.
    + intros next s3 (line & out & H5 & H6). eapply wp_mono; [apply IH| |done].
      intros next' s4 (convs & H7 & H8). exists ((line, out) :: convs).
      split; [by rewrite H7, H5, Hs2, H1, Hf, <-app_assoc|].
      destruct line; simpl in *; destruct H6 as [H6 ->]; by split.
Qed.

Lemma wp_sv_addr_str addr cfd s : wp (sv_addr_str addr) (fun _ s' => finished (kern s') = finished (kern s) /\
     written (fd := cfd) (kern s') = written (fd := cfd) (kern s) /\
     pending (fd := cfd) (kern s') = pending (fd := cfd) (kern s) /\
     interrupts (fd := cfd) (kern s') = interrupts (fd := cfd) (kern s)) never s.
Proof.
  apply wp_bind. unfold wp, syscall_. destruct (os_nameinfo (kern s) addr) as [k r] eqn:Hk.
  exact (cl_nameinfo cfd addr (kern s) k r (or_introl Hk)).
Qed.

Lemma wp_inetAddressStr len addr cfd s : wp (inetAddressStr addr len) (fun _ s' => finished (kern s') = finished (kern s) /\
     written (fd := cfd) (kern s') = written (fd := cfd) (kern s) /\
     pending (fd := cfd) (kern s') = pending (fd := cfd) (kern s) /\
     interrupts (fd := cfd) (kern s') = interrupts (fd := cfd) (kern s)) never s.
Proof.
  apply wp_bind. unfold wp, syscall_. destruct (os_getnameinfo (kern s) addr) as [k r] eqn:Hk.
  pose proof (cl_nameinfo cfd addr (kern s) k r (or_intror Hk)) as H. by destruct r as [[host service]|].
Qed.

(** Whatever clients send, over any number of turns the loop of either
    server returns, ends no process and closes every connection it accepted,
    one after the other. The number that a client gets, as the first 29
    characters of its line ask for it, is the number so far; the number grows,
    modulo 2^32, by what was asked for, and only by valid requests: a line
    that does not start with a positive int and a read that fails get no
    answer and leave it. *)
Theorem sequence_served (turns fuel : nat) (v2 : bool) (lfd seqNum : Z) s :
  (patience <= fuel)%nat -> finished (kern s) = [] ->
  let addrStr := if v2 then fun claddr => inetAddressStr claddr IS_ADDR_STR_LEN else sv_addr_str in
  wp (serve_loop turns fuel addrStr lfd seqNum)
    (fun next s' => exists convs, finished (kern s') = convs.*2 /\ answered seqNum convs next) never s.
Proof.
  intros Hf Hs addrStr. eapply wp_mono; [apply wp_serve_loop; [done|]| |done].
  - intros addr cfd s1. unfold addrStr. destruct v2; [apply wp_inetAddressStr|apply wp_sv_addr_str].
  - intros next s' (convs & H1 & H2). exists convs. by rewrite H1, Hs.
Qed.

End Serving.

(** The number is unsigned and is printed as signed. *)
Example number_printed_negative :
  answer (2 ^ 31) (lit "1" ++ [NEWLINE]) = (2 ^ 31 + 1, lit "-2147483648" ++ [NEWLINE]).
Proof. by vm_compute. Qed.

(** ** Connections in memory *)

(** What the clients to come send, the connection being served and what was
    written to those that were closed. *)
Record demo_conns := DemoConns { d_next : list cstr; d_in : cstr; d_out : cstr; d_finished : list cstr }.

#[export] Instance demo_conns_io : ByteIO demo_conns := {
  os_read k fd n := (DemoConns (d_next k) (drop (Z.to_nat n) (d_in k)) (d_out k) (d_finished k),
                     inr (take (Z.to_nat n) (d_in k)));
  os_write k fd t := (DemoConns (d_next k) (d_in k) (d_out k ++ t) (d_finished k), inr (Z.of_nat (length t)))
}.
#[export] Instance demo_conns_sockets : SocketOS demo_conns := {
  os_getaddrinfo k h s t p := (k, None);
  os_freeaddrinfo k := (k, tt);
  os_socket k f t p := (k, inl 1);
  os_connect k fd a := (k, inl 1);
  os_bind k fd a := (k, inl 1);
  os_reuseaddr k fd := (k, inl 1);
  os_listen k fd b := (k, inl 1);
  os_close k fd := (DemoConns (d_next k) (d_in k) [] (d_finished k ++ [d_out k]), inr tt);
  os_getnameinfo k a := (k, None)
}.
#[export] Instance demo_conns_seqnum : SeqnumOS demo_conns := {
  os_ignore_sigpipe k := (k, inr tt);
  os_accept k fd :=
    match d_next k with
    | [] => (k, inl 11)
    | c :: next => (DemoConns next (take 90 c) [] (d_finished k), inr (4, lit "peer"))
    end;
  os_nameinfo k a := (k, Some (lit "host", lit "port"));
  os_addrinfo k h s p := (k, None);
  os_malloc k n := (k, true)
}.
#[export] Instance demo_conns_text : ErrnoText := {| MAX_ENAME := 0; ename _ := []; strerror _ := [] |}.

#[export] Instance demo_conns_stream fd : ByteStream demo_conns fd.
Proof.
  refine {| pending := d_in; written := d_out; interrupts _ := 0%nat |}.
  - intros n k k' bytes Hn [= <- <-]. simpl. rewrite length_take, take_drop. split_and!; [lia|done| |done].
    intros H. destruct (d_in k) as [|c l]; [done|]. destruct (Z.to_nat n) eqn:Hz; [lia|done].
  - done.
  - intros bytes k k' m [= <- <-]. simpl. rewrite Nat2Z.id, firstn_all. split_and!; [lia|done..].
  - done.
Defined.

#[export] Instance demo_conns_laws : ConnLaws demo_conns.
Proof.
  refine {| finished := d_finished; patience := 91 |}.
  - intros k lfd k' cfd addr Hk. simpl in Hk. destruct (d_next k); [done|]. injection Hk as <- <- _. simpl.
    split_and!; [done|done|]. rewrite length_take. lia.
  - intros k lfd k' e Hk. simpl in Hk. by destruct (d_next k); simplify_eq.
  - by intros cfd addr k k' r [[= <- <-]|[= <- <-]].
  - by intros k cfd n k' r [= <- _].
  - by intros k cfd t k' r [= <- _].
  - by intros k cfd k' r [= <- _].
Defined.

Definition demo_clients : proc demo_conns :=
  Proc (DemoConns [lit "3" ++ [NEWLINE]; lit "-1" ++ [NEWLINE]; lit "20" ++ [NEWLINE]] [] [] []) 0 None [] [] [].

Lemma sequence_served_witness :
  let addrStr := if false then fun claddr => inetAddressStr claddr IS_ADDR_STR_LEN else sv_addr_str in
  wp (serve_loop 3 91 addrStr 3 7)
    (fun next s' => exists convs, finished (kern s') = convs.*2 /\ answered 7 convs next)
    (fun _ _ => False) demo_clients.
Proof.
  refine (sequence_served 3 91 false 3 7 demo_clients _ _); [apply Nat.leb_le; reflexivity|reflexivity].
Defined.

Example three_clients :
  exists s', serve_loop 3 91 sv_addr_str 3 7 demo_clients = Ret 30 s' /\
    d_finished (kern s') = [lit "7" ++ [NEWLINE]; []; lit "10" ++ [NEWLINE]].
Proof. eexists. split; [vm_compute; reflexivity|by vm_compute]. Qed.
