(* ===== verification/Transitions.v ===== *)
(** Programs of several threads or processes as transition systems: [run t st]
    is the next state when [t] runs, or [None] when [t] cannot run.

    Programs with finitely many states are explored: every schedule is followed,
    level by level, and a state that several schedules lead to is followed once.
    [events] lists the events that can happen in a state; the exploration is a
    boolean function, so that a theorem about a program of constant size is
    proved by running it. *)
From Stdlib Require Import ZArith Lia.
From stdpp Require Import base tactics list option.
From S2P Require Import Prelude.
#[local] Open Scope Z_scope.

Section Runs.
Context {St Tid : Type} (run : Tid -> St -> option St).

(** Every way to go on running threads ends, and ends in [P]. *)
Inductive always_ends (P : St -> Prop) (st : St) : Prop :=
| ends_now : (forall t, run t st = None) -> P st -> always_ends P st
| ends_later : (exists t, is_Some (run t st)) ->
    (forall t st', run t st = Some st' -> always_ends P st') -> always_ends P st.

Lemma always_ends_weaken (P Q : St -> Prop) st :
  always_ends P st -> (forall st', P st' -> Q st') -> always_ends Q st.
Proof.
  intros H HPQ. induction H as [st Hn Hp|st He _ IH]; [by apply ends_now; eauto|by apply ends_later].
Qed.

(** The rule for [always_ends]: an invariant under which a thread that runs
    leaves less work, and threads that cannot run have reached [P]. *)
Lemma ends_by_work (inv P : St -> Prop) (work : St -> Z) st :
  (forall st, inv st -> 0 <= work st) ->
  (forall t st st', inv st -> run t st = Some st' -> inv st' /\ work st' < work st) ->
  (forall st, inv st -> (exists t, is_Some (run t st)) \/ (forall t, run t st = None) /\ P st) ->
  inv st -> always_ends P st.
Proof.
  intros Hw Hrun Hend. remember (Z.to_nat (work st)) as n eqn:Hn. revert st Hn.
  induction n as [n IH] using lt_wf_ind. intros st -> Hi.
  destruct (Hend st Hi) as [He|[Hnone Hp]]; [|by apply ends_now].
  apply ends_later; [done|]. intros t st' Hr. destruct (Hrun t st st' Hi Hr) as [Hi' Hlt].
  eapply IH; [|done|done]. pose proof (Hw st' Hi'). lia.
Qed.

(** Running a list of threads in order. *)
Fixpoint run_all (ts : list Tid) (st : St) : option St :=
  match ts with
  | [] => Some st
  | t :: ts => match run t st with Some st => run_all ts st | None => None end
  end.

(** The states that some order of steps leads to. *)
Inductive reachable (st0 : St) : St -> Prop :=
| reach_start : reachable st0 st0
| reach_run t st st' : reachable st0 st -> run t st = Some st' -> reachable st0 st'.

Lemma run_all_reachable ts st0 st st' :
  reachable st0 st -> run_all ts st = Some st' -> reachable st0 st'.
Proof.
  revert st. induction ts as [|t ts IH]; intros st Hr; simpl; [by intros [= <-]|].
  destruct (run t st) eqn:Hs; [|done]. apply IH. by eapply reach_run.
Qed.

(** Invariants. *)
Lemma run_all_inv (P : St -> Prop) ts st0 st :
  (forall t s s', t ∈ ts -> P s -> run t s = Some s' -> P s') -> P st0 -> run_all ts st0 = Some st -> P st.
Proof.
  revert st0. induction ts as [|t ts IH]; intros st0 Hs H0; simpl; [by intros [= <-]|].
  destruct (run t st0) eqn:Hr; [|done]. apply IH; [|by eapply Hs; [left|..]]. intros t' s' s'' Ht. apply Hs. by right.
Qed.

Lemma reachable_ind_inv (P : St -> Prop) st0 st :
  P st0 -> (forall t s s', P s -> run t s = Some s' -> P s') -> reachable st0 st -> P st.
Proof. intros H0 Hs. induction 1; eauto. Qed.

End Runs.

(** Of finitely many threads one can run, or none can. *)
Lemma some_runs {St} (run : nat -> St -> option St) (n : nat) st :
  (forall i, (n <= i)%nat -> run i st = None) ->
  (exists i, is_Some (run i st)) \/ (forall i, run i st = None).
Proof.
  intros Hn. assert (Hk : forall k, (exists i, is_Some (run i st)) \/ forall i, (i < k)%nat -> run i st = None).
  { induction k as [|k [IH|IH]]; [by right; intros i ?%Nat.nlt_0_r|by left|].
    destruct (run k st) eqn:Hr; [left; exists k; by rewrite Hr|]. right. intros i Hi.
    destruct (decide (i = k)) as [->|]; [done|]. apply IH. lia. }
  destruct (Hk n) as [H|H]; [by left|right]. intros i. destruct (decide (i < n)%nat); [by apply H|apply Hn; lia].
Qed.

(** ** Threads *)

(** The threads of a process: the initial one and those it has created. *)
Inductive tid := Main | Thread (i : nat).
#[export] Instance tid_eq_dec : EqDecision tid.
Proof. solve_decision. Defined.

(** A child of a process, in the eyes of its parent: it runs, has ended, has
    been waited for. *)
Inductive child_state := Running | Zombie | Reaped.
#[export] Instance child_state_eq_dec : EqDecision child_state.
Proof. solve_decision. Defined.

(** ** Sums over threads *)

Definition sumZ {A} (f : A -> Z) (l : list A) : Z := foldr (fun x acc => f x + acc) 0 l.

Lemma sumZ_app {A} (f : A -> Z) l k : sumZ f (l ++ k) = sumZ f l + sumZ f k.
Proof. induction l as [|x l IH]; simpl; lia. Qed.

Lemma sumZ_insert {A} (f : A -> Z) l i x y :
  l !! i = Some x -> sumZ f (<[i := y]> l) = sumZ f l - f x + f y.
Proof.
  revert i. induction l as [|z l IH]; intros [|i]; simpl; intros H; simplify_eq; [lia|].
  rewrite (IH i H). lia.
Qed.

Lemma sumZ_le {A} (f g : A -> Z) l : (forall x, x ∈ l -> f x <= g x) -> sumZ f l <= sumZ g l.
Proof.
  induction l as [|x l IH]; simpl; intros H; [lia|].
  assert (f x <= g x) by (apply H; by left). assert (sumZ f l <= sumZ g l); [|lia].
  apply IH. intros y Hy. apply H. by right.
Qed.

Lemma sumZ_eq {A} (f g : A -> Z) l : (forall x, x ∈ l -> f x = g x) -> sumZ f l = sumZ g l.
Proof. intros H. apply Z.le_antisymm; apply sumZ_le; intros x Hx; rewrite (H x Hx); lia. Qed.

Lemma sumZ_nonneg {A} (f : A -> Z) l : (forall x, x ∈ l -> 0 <= f x) -> 0 <= sumZ f l.
Proof. intros H. induction l as [|x l IH]; simpl; [lia|].
  assert (0 <= f x) by (apply H; by left). assert (0 <= sumZ f l); [|lia].
  apply IH. intros y Hy. apply H. by right.
Qed.

Lemma sumZ_member {A} (f : A -> Z) l i x : (forall x, 0 <= f x) -> l !! i = Some x -> f x <= sumZ f l.
Proof.
  intros Hf. revert i. induction l as [|y l IH]; intros [|i]; simpl; intros Hx; simplify_eq.
  - assert (0 <= sumZ f l) by (apply sumZ_nonneg; auto). lia.
  - pose proof (IH i Hx). pose proof (Hf y). lia.
Qed.

(** An updated thread is the new one or another as it was. *)
Lemma lookup_insert_cases {A} (l : list A) i k q r x :
  l !! i = Some r -> <[i := q]> l !! k = Some x -> (k = i /\ x = q) \/ (k <> i /\ l !! k = Some x).
Proof.
  intros Hi. destruct (decide (i = k)) as [<-|Hne].
  - rewrite list_lookup_insert_eq by by eapply lookup_lt_Some. intros [= <-]. by left.
  - rewrite list_lookup_insert_ne by done. by right.
Qed.

(** A list of pairs with distinct keys is a finite map. *)
Lemma NoDup_fst_unique {A B} (l : list (A * B)) i a b : NoDup l.*1 -> (i, a) ∈ l -> (i, b) ∈ l -> a = b.
Proof.
  induction l as [|[k x] l IH]; simpl; [by intros _ ?%elem_of_nil|].
  intros Hkl [[= <- <-]|Ha]%elem_of_cons [[= Hb]|Hb]%elem_of_cons; subst; try done;
    [| |by eapply IH; [eapply NoDup_cons_1_2|..]]; destruct (NoDup_cons_1_1 _ _ Hkl); [by apply (list_elem_of_fmap_2 fst) in Hb|by apply (list_elem_of_fmap_2 fst) in Ha].
Qed.

(** ** Mutual exclusion *)

(** The owner [m] is the thread, if any, that stands where [owns] says. *)
Section Owner.
Context {A : Type} (owns : A -> bool).

Definition holds (m : option nat) (l : list A) : Prop :=
  forall i, m = Some i <-> exists p, l !! i = Some p /\ owns p = true.

Lemma holds_owner m l i p : holds m l -> l !! i = Some p -> owns p = true -> m = Some i.
Proof. intros Hm Hi Ho. apply Hm. eauto. Qed.

Lemma holds_none l i p : holds None l -> l !! i = Some p -> owns p = false.
Proof. intros Hm Hi. destruct (owns p) eqn:Ho; [|done]. by pose proof (holds_owner _ _ _ _ Hm Hi Ho). Qed.

Lemma holds_start l : Forall (fun p => owns p = false) l -> holds None l.
Proof.
  intros Hl i. split; [done|]. intros (p & Hp & Ho). rewrite Forall_lookup in Hl.
  by rewrite (Hl _ _ Hp) in Ho.
Qed.

Lemma holds_keep m l i p q : holds m l -> l !! i = Some p -> owns q = owns p -> holds m (<[i := q]> l).
Proof.
  intros Hm Hi Hq k. rewrite (Hm k). split; intros (x & Hx & Ho).
  - destruct (decide (k = i)) as [->|Hne].
    + simplify_eq. exists q. split; [|congruence]. apply list_lookup_insert_eq. by eapply lookup_lt_Some.
    + exists x. by rewrite list_lookup_insert_ne by done.
  - destruct (lookup_insert_cases _ _ _ _ _ _ Hi Hx) as [[-> ->]|[_ Hx']]; [|by eauto].
    exists p. split; [done|congruence].
Qed.

Lemma holds_take l i p q : holds None l -> l !! i = Some p -> owns q = true -> holds (Some i) (<[i := q]> l).
Proof.
  intros Hm Hi Hq k. split.
  - intros [= ->]. exists q. split; [|done]. apply list_lookup_insert_eq. by eapply lookup_lt_Some.
  - intros (x & Hx & Ho). destruct (lookup_insert_cases _ _ _ _ _ _ Hi Hx) as [[-> _]|[_ Hx']]; [done|].
    by rewrite (holds_none _ _ _ Hm Hx') in Ho.
Qed.

Lemma holds_leave m l i p q : holds m l -> l !! i = Some p -> owns p = true -> owns q = false ->
  holds None (<[i := q]> l).
Proof.
  intros Hm Hi Hp Hq k. split; [done|]. intros (x & Hx & Ho).
  destruct (lookup_insert_cases _ _ _ _ _ _ Hi Hx) as [[_ ->]|[Hne Hx']]; [congruence|].
  pose proof (holds_owner _ _ _ _ Hm Hi Hp). pose proof (holds_owner _ _ _ _ Hm Hx' Ho). congruence.
Qed.

Lemma holds_app m l q : holds m l -> owns q = false -> holds m (l ++ [q]).
Proof.
  intros Hm Hq k. rewrite (Hm k). split; intros (x & Hx & Ho).
  - exists x. split; [|done]. by apply lookup_app_l_Some.
  - apply lookup_app_Some in Hx as [Hx|[_ Hx]]; [by eauto|].
    apply list_lookup_singleton_Some in Hx as [_ <-]. congruence.
Qed.

End Owner.

Section Explore.
Context {St Ev : Type} `{!EqDecision St} (run : Ev -> St -> option St) (events : St -> list Ev).

(** No event but those listed can happen. *)
Class AllEvents : Prop := all_events e st st' : run e st = Some st' -> e ∈ events st.

Definition successors (st : St) : list St := omap (fun e => run e st) (events st).

Definition next_level (level : list St) : list St := remove_dups (mjoin (successors <$> level)).

(** Every schedule from the states of [level] stops within [fuel] steps, in a
    state that passes the test [P]. *)
Fixpoint ends_within (fuel : nat) (P : St -> bool) (level : list St) : bool :=
  match level, fuel with
  | [], _ => true
  | _, O => false
  | _, S fuel =>
      forallb (fun st => match successors st with [] => P st | _ => true end) level
      && ends_within fuel P (next_level level)
  end.

(** Every state of [level], and every state that they lead to, passes the test
    [P], and every schedule stops within [fuel] steps. *)
Fixpoint safe_within (fuel : nat) (P : St -> bool) (level : list St) : bool :=
  match level, fuel with
  | [], _ => true
  | _, O => false
  | _, S fuel => forallb P level && safe_within fuel P (next_level level)
  end.

Context {AE : AllEvents}.

Lemma successors_spec st st' : st' ∈ successors st <-> exists e, run e st = Some st'.
Proof.
  unfold successors. rewrite list_elem_of_omap. split; [intros (e & _ & He); eauto|].
  intros [e He]. exists e. split; [by eapply all_events|done].
Qed.

Lemma next_level_spec level st' : st' ∈ next_level level <-> exists e st, st ∈ level /\ run e st = Some st'.
Proof.
  unfold next_level. rewrite elem_of_remove_dups, list_elem_of_join. split.
  - intros (l & Hin & (st & -> & Hst)%list_elem_of_fmap). apply successors_spec in Hin as [e He]. eauto.
  - intros (e & st & Hst & He). exists (successors st). split; [apply successors_spec; eauto|].
    by apply list_elem_of_fmap_2.
Qed.

Lemma stuck_or_runs st : (successors st = [] /\ forall e, run e st = None) \/ (successors st <> [] /\ exists e, is_Some (run e st)).
Proof.
  destruct (successors st) as [|st' l] eqn:Hs.
  - left. split; [done|]. intros e. destruct (run e st) as [st'|] eqn:He; [|done].
    assert (Hin : st' ∈ successors st) by (apply successors_spec; eauto). rewrite Hs in Hin. by apply elem_of_nil in Hin.
  - right. split; [done|]. assert (Hin : st' ∈ successors st) by (rewrite Hs; by left).
    apply successors_spec in Hin as [e He]. exists e. by rewrite He.
Qed.

Lemma ends_within_sound fuel P level :
  ends_within fuel P level = true -> forall st, st ∈ level -> always_ends run (fun st' => P st' = true) st.
Proof.
  revert level. induction fuel as [|fuel IH]; intros [|st0 level] H st Hin; simpl in H; try done;
    try (by apply elem_of_nil in Hin).
  apply andb_prop in H as [Hp Hn]. pose proof (proj1 (forallb_forall _ (st0 :: level)) Hp) as Hall. clear Hp.
  specialize (Hall st (proj1 (list_elem_of_In _ _) Hin)).
  cbv beta in Hall.
  destruct (stuck_or_runs st) as [[Hs Hstuck]|[Hs He]].
  - rewrite Hs in Hall. by apply ends_now.
  - apply ends_later; [done|]. intros e st' Hr. apply (IH (next_level (st0 :: level))); [done|].
    apply next_level_spec. eauto.
Qed.

Lemma safe_within_sound fuel P level :
  safe_within fuel P level = true -> forall st0 st, st0 ∈ level -> reachable run st0 st -> P st = true.
Proof.
  intros H st0 st Hin Hr. assert (Hinv : exists n lv, safe_within n P lv = true /\ st ∈ lv).
  { induction Hr as [|e st st' Hr IH Hs]; [by exists fuel, level|].
    destruct IH as (n & lv & Hn & Hlv). destruct n as [|n]; destruct lv as [|x lv]; simpl in Hn; try done;
      try (by apply elem_of_nil in Hlv). apply andb_prop in Hn as [_ Hn]. exists n, (next_level (x :: lv)).
    split; [done|]. apply next_level_spec. eauto. }
  destruct Hinv as (n & lv & Hn & Hlv). destruct n; destruct lv as [|x lv]; simpl in Hn; try done;
    try (by apply elem_of_nil in Hlv). apply andb_prop in Hn as [Hp _].
  apply (proj1 (forallb_forall _ (x :: lv)) Hp). by apply list_elem_of_In.
Qed.

(** The rules for one initial state. *)
Lemma explore_ends fuel P st : ends_within fuel P [st] = true -> always_ends run (fun st' => P st' = true) st.
Proof. intros H. eapply ends_within_sound; [exact H|by left]. Qed.

Lemma explore_safe fuel P st0 st : safe_within fuel P [st0] = true -> reachable run st0 st -> P st = true.
Proof. intros H. eapply safe_within_sound; [exact H|by left]. Qed.

End Explore.
