(* ===== verification/PipeOS.v ===== *)
(** Processes that talk over pipes and one FIFO, as a transition system: the
    interface between the programs of PipePrograms and FifoDemos and the kernel.

    A program is a function [code] from its program counters to the call made
    there and to where each result of the call leads. A pipe or FIFO is the list
    of the characters in it; it holds at most [capacity] of them and is emptied
    when nobody has it open. Reading waits while a pipe is empty and somebody
    has its write end; writing up to PIPE_BUF characters is done at once or
    waits, more is written in parts, and without a reader the writer is killed by
    SIGPIPE. Opening a FIFO waits until the other side is opened. Standard output
    is a terminal or a file that the processes share; when [buffered], what
    printf writes stays in the process until the buffer is full, which delivers
    it in whole blocks, or exit is called; and [fork] copies it.
    [printed] is what each process has delivered, [errs] what it has told perror.

    [prompt] is the assumption that whatever a process can do takes less than a
    second: time goes on only when everybody waits. Without it a sleep may end
    at any time. *)
From Stdlib Require Import ZArith Lia Ascii String.
From stdpp Require Import base tactics list strings.
From S2P Require Import Prelude CString Transitions.

Inductive pmode := RD | WR.
#[export] Instance pmode_eq_dec : EqDecision pmode.
Proof. solve_decision. Defined.

Definition same_mode (m m' : pmode) : bool := match m, m' with RD, RD | WR, WR => true | _, _ => false end.
Definition other_side (m : pmode) : pmode := match m with RD => WR | WR => RD end.

(** An end of the object with a number. *)
Abbreviation pend := (nat * pmode)%type.

Definition same_end (e e' : pend) : bool := (e.1 =? e'.1)%nat && same_mode e.2 e'.2.

Definition PIPE_BUF : nat := 4096.

(** The size of the buffer of standard output when it is a file or a pipe: the
    block size of the file. *)
Definition STDOUT_BUF : nat := 4096.

(** What printf leaves in the buffer, and what it delivers. *)
Definition stdout_put (buffered : bool) (pending t : cstr) : cstr * cstr :=
  if buffered then
    let whole := pending ++ t in
    if (length whole <? STDOUT_BUF)%nat then (whole, [])
    else
      let n := (length whole / STDOUT_BUF * STDOUT_BUF)%nat in (drop n whole, take n whole)
  else (pending, t).

(** The calls, with the program counters that follow: [fail] when the call
    returns -1. *)
Inductive act (Pc : Type) :=
| Exits (k : exit_kind)
| UExits (k : exit_kind)
| Goes (next : Pc)
| Prints (t : cstr) (next : Pc)
| Reports (msg : cstr) (next : Pc)
| Sleeps (n : nat) (next : Pc)
| Pipes (next fail : Pc)
| Mkfifos (next exists_ fail : Pc)
| Unlinks (next fail : Pc)
| Opens (o : nat) (m : pmode) (nonblock : bool) (next noreader fail : Pc)
| Closes (e : pend) (next fail : Pc)
| Reads (o n : nat) (nonblock : bool) (k : cstr -> Pc) (again fail : Pc)
| Writes (o : nat) (data : cstr) (nonblock : bool) (k : nat -> Pc) (fail : Pc)
| Inputs (n : nat) (k : cstr -> Pc) (fail : Pc)
| Outputs (data : cstr) (next fail : Pc)
| Forks (child : Pc) (next : nat -> Pc) (fail : Pc)
| Waits (which : option nat) (next : nat -> option exit_kind -> Pc) (fail : Pc).
Arguments Exits {Pc}. Arguments UExits {Pc}. Arguments Goes {Pc}. Arguments Prints {Pc}.
Arguments Reports {Pc}. Arguments Sleeps {Pc}. Arguments Pipes {Pc}. Arguments Mkfifos {Pc}.
Arguments Unlinks {Pc}. Arguments Opens {Pc}. Arguments Closes {Pc}. Arguments Reads {Pc}.
Arguments Writes {Pc}. Arguments Inputs {Pc}. Arguments Outputs {Pc}. Arguments Forks {Pc}.
Arguments Waits {Pc}.

(** A process is about to make the call at its program counter, or is inside it:
    waiting for the other side of a FIFO, having written a part, asleep; or it
    has ended, by a call or by a signal, and may have been waited for. *)
Inductive stage := Ready | Opening | Writing (sofar : nat) | Asleep (n : nat) | Dead (how : option exit_kind) | Gone.
#[export] Instance stage_eq_dec : EqDecision stage.
Proof. solve_decision. Defined.

Record process (Pc : Type) := Process {
  pc : Pc;
  held : list pend;
  stage_of : stage;
  pending : cstr;
  printed : cstr;
  errs : list cstr;
  parent : nat
}.
Arguments Process {Pc}. Arguments pc {Pc}. Arguments held {Pc}. Arguments stage_of {Pc}.
Arguments pending {Pc}. Arguments printed {Pc}. Arguments errs {Pc}. Arguments parent {Pc}.
#[export] Instance process_eq_dec {Pc} `{!EqDecision Pc} : EqDecision (process Pc).
Proof. solve_decision. Defined.

(** [named]: the name of the FIFO, object 0, is in its directory. *)
Record system (Pc : Type) := System {
  procs : list (process Pc);
  objects : list cstr;
  named : bool;
  input : cstr
}.
Arguments System {Pc}. Arguments procs {Pc}. Arguments objects {Pc}. Arguments named {Pc}.
Arguments input {Pc}.
#[export] Instance system_eq_dec {Pc} `{!EqDecision Pc} : EqDecision (system Pc).
Proof. solve_decision. Defined.

Inductive event := Run (i : nat) | FailCall (i : nat) | Tick.

Lemma same_branch {A} (b : bool) (x : A) : (if b then x else x) = x.
Proof. by destruct b. Qed.

Section Machine.
Context {Pc : Type} (code : Pc -> act Pc) (capacity : nat) (buffered prompt failing : bool).
Implicit Types (st : system Pc) (p : process Pc).

Definition holds_end (e : pend) p : bool := existsb (same_end e) (held p).
Definition anyone (e : pend) st : bool := existsb (holds_end e) (procs st).

Definition set_procs (ps : list (process Pc)) st : system Pc := System ps (objects st) (named st) (input st).
Definition set_objects (os : list cstr) st : system Pc := System (procs st) os (named st) (input st).
Definition set_named (b : bool) st : system Pc := System (procs st) (objects st) b (input st).
Definition set_input (t : cstr) st : system Pc := System (procs st) (objects st) (named st) t.
Definition set_proc (i : nat) (p : process Pc) st : system Pc := set_procs (<[i := p]> (procs st)) st.

Definition at_pc (c : Pc) p : process Pc := Process c (held p) Ready (pending p) (printed p) (errs p) (parent p).
Definition with_held (h : list pend) p : process Pc :=
  Process (pc p) h (stage_of p) (pending p) (printed p) (errs p) (parent p).
Definition with_stage (s : stage) p : process Pc :=
  Process (pc p) (held p) s (pending p) (printed p) (errs p) (parent p).
Definition with_output (t u : cstr) p : process Pc :=
  Process (pc p) (held p) (stage_of p) t u (errs p) (parent p).
Definition with_error (msg : cstr) p : process Pc :=
  Process (pc p) (held p) (stage_of p) (pending p) (printed p) (errs p ++ [msg]) (parent p).

(** Objects that nobody has open lose their contents. *)
Definition settle st : system Pc :=
  set_objects (imap (fun o c => if anyone (o, RD) st || anyone (o, WR) st then c else []) (objects st)) st.

Definition ends (i : nat) p (how : option exit_kind) (flush : bool) st : system Pc :=
  let delivered := printed p ++ (if flush then pending p else []) in
  settle (set_proc i (Process (pc p) [] (Dead how) [] delivered (errs p) (parent p)) st).

(** Opening one side of a FIFO ends the waiting of the other. *)
Definition wake (o : nat) (m : pmode) p : process Pc :=
  match stage_of p, code (pc p) with
  | Opening, Opens o' m' _ next _ _ =>
      if (o' =? o)%nat && same_mode m' (other_side m) then at_pc next p else p
  | _, _ => p
  end.

(** [c] is a child of [i] that has not been waited for; how it has ended. *)
Definition is_child (i c : nat) st : bool :=
  match procs st !! c with
  | Some q => (parent q =? i)%nat && negb (c =? i)%nat && match stage_of q with Gone => false | _ => true end
  | None => false
  end.
Definition has_ended (c : nat) st : bool :=
  match procs st !! c with Some q => match stage_of q with Dead _ => true | _ => false end | None => false end.
Definition exit_status (c : nat) st : option exit_kind :=
  match procs st !! c with
  | Some q => match stage_of q with Dead how => how | _ => None end
  | None => None
  end.

(** The call of process [i] that is ready or writing; [None]: it waits. *)
Definition calls (i : nat) p st : option (system Pc) :=
  let goto c := Some (set_proc i (at_pc c p) st) in
  match code (pc p) with
  | Exits k => Some (ends i p (Some k) true st)
  | UExits k => Some (ends i p (Some k) false st)
  | Goes next => goto next
  | Prints t next =>
      let put := stdout_put buffered (pending p) t in
      Some (set_proc i (at_pc next (with_output put.1 (printed p ++ put.2) p)) st)
  | Reports msg next => Some (set_proc i (at_pc next (with_error msg p)) st)
  | Sleeps n next => Some (set_proc i (with_stage (Asleep n) p) st)
  | Pipes next _ =>
      let o := length (objects st) in
      Some (set_objects (objects st ++ [[]]) (set_proc i (with_held (held p ++ [(o, RD); (o, WR)]) (at_pc next p)) st))
  | Mkfifos next exists_ _ => if named st then goto exists_ else Some (set_named true (set_proc i (at_pc next p) st))
  | Unlinks next fail => if named st then Some (set_named false (set_proc i (at_pc next p) st)) else goto fail
  | Opens o m nonblock next noreader fail =>
      if negb (named st) then goto fail
      else
        let opened := with_held (held p ++ [(o, m)]) p in
        let others := set_procs (wake o m <$> procs st) st in
        if anyone (o, other_side m) st then Some (set_proc i (at_pc next opened) others)
        else if nonblock then
          match m with RD => Some (set_proc i (at_pc next opened) others) | WR => goto noreader end
        else Some (set_proc i (with_stage Opening opened) others)
  | Closes e next _ => Some (settle (set_proc i (with_held (List.filter (fun e' => negb (same_end e e')) (held p)) (at_pc next p)) st))
  | Reads o n nonblock k again _ =>
      match objects st !! o with
      | Some [] =>
          if anyone (o, WR) st then (if nonblock then goto again else None) else goto (k [])
      | Some content => Some (set_objects (<[o := drop n content]> (objects st)) (set_proc i (at_pc (k (take n content)) p) st))
      | None => None
      end
  | Writes o data nonblock k fail =>
      let sofar := match stage_of p with Writing n => n | _ => 0 end in
      let rest := drop sofar data in
      match objects st !! o with
      | Some content =>
          if (match rest with [] => true | _ => false end) then goto (k (length data))
          else if negb (anyone (o, RD) st) then Some (ends i p None false st)
          else
            let room := capacity - length content in
            if (if (length data <=? PIPE_BUF)%nat then (room <? length data)%nat else (room =? 0)%nat) then
              (if nonblock then goto fail else None)
            else
              Some (set_objects (<[o := content ++ take room rest]> (objects st))
                     (set_proc i (with_stage (Writing (sofar + length (take room rest))) p) st))
      | None => None
      end
  | Inputs n k _ =>
      Some (set_input (drop n (input st)) (set_proc i (at_pc (k (take n (input st))) p) st))
  | Outputs data next _ => Some (set_proc i (at_pc next (with_output (pending p) (printed p ++ data) p)) st)
  | Forks child next _ =>
      let c := length (procs st) in
      Some (set_procs (<[i := at_pc (next c) p]> (procs st) ++ [Process child (held p) Ready (pending p) [] [] i]) st)
  | Waits which next fail =>
      let mine := match which with Some c => [c] | None => seq 0 (length (procs st)) end in
      match List.filter (fun c => is_child i c st) mine with
      | [] => goto fail
      | children =>
          match List.filter (fun c => has_ended c st) children with
          | [] => None
          | c :: _ =>
              Some (set_procs (alter (with_stage Gone) c (<[i := at_pc (next c (exit_status c st)) p]> (procs st))) st)
          end
      end
  end.

Definition run_proc (i : nat) st : option (system Pc) :=
  match procs st !! i with
  | Some p =>
      match stage_of p with
      | Ready | Writing _ => calls i p st
      | Asleep 0 => match code (pc p) with Sleeps _ next => Some (set_proc i (at_pc next p) st) | _ => None end
      | _ => None
      end
  | None => None
  end.

(** A call that fails. *)
Definition fail_pc (c : Pc) : option Pc :=
  match code c with
  | Pipes _ fail | Mkfifos _ _ fail | Unlinks _ fail | Opens _ _ _ _ _ fail | Closes _ _ fail
  | Reads _ _ _ _ _ fail | Writes _ _ _ _ fail | Inputs _ _ fail | Outputs _ _ fail | Forks _ _ fail
  | Waits _ _ fail => Some fail
  | _ => None
  end.

Definition fail_proc (i : nat) st : option (system Pc) :=
  match procs st !! i with
  | Some p =>
      match stage_of p, fail_pc (pc p) with
      | Ready, Some fail => Some (set_proc i (at_pc fail p) st)
      | _, _ => None
      end
  | None => None
  end.

Definition sleeps p : bool := match stage_of p with Asleep (S _) => true | _ => false end.
Definition second_less p : process Pc :=
  match stage_of p with Asleep (S n) => with_stage (Asleep n) p | _ => p end.

Definition can_run st (i : nat) : bool := match run_proc i st with Some _ => true | None => false end.

Definition tick st : option (system Pc) :=
  if existsb sleeps (procs st) && negb (prompt && existsb (can_run st) (seq 0 (length (procs st))))
  then Some (set_procs (second_less <$> procs st) st)
  else None.

Definition fire (e : event) st : option (system Pc) :=
  match e with
  | Run i => run_proc i st
  | FailCall i => if failing then fail_proc i st else None
  | Tick => tick st
  end.

(** One process at the start of its program. *)
Definition boot (c : Pc) (objs : list cstr) (text : cstr) : system Pc :=
  System [Process c [] Ready [] [] [] 0] objs false text.

Definition events st : list event :=
  Tick :: flat_map (fun i => [Run i; FailCall i]) (seq 0 (length (procs st))).

#[export] Instance events_all : AllEvents fire events.
Proof.
  intros e st st' He. unfold events. destruct e as [i|i|]; [| |by left]; right; apply list_elem_of_In, in_flat_map;
    exists i; (split; [|simpl; tauto]); apply in_seq; (split; [lia|]); apply lookup_lt_is_Some.
  - unfold fire, run_proc in He. destruct (procs st !! i); [by eexists|done].
  - unfold fire in He. destruct failing; [|done]. unfold fail_proc in He. destruct (procs st !! i); [by eexists|done].
Qed.

(** A write that is not done: with a reader it waits, which it does only when
    there is something in the pipe, or it writes a part. *)
Lemma calls_write i p st o data k fail n content :
  code (pc p) = Writes o data false k fail -> (stage_of p = Ready /\ n = 0 \/ stage_of p = Writing n) ->
  n < length data -> objects st !! o = Some content -> anyone (o, RD) st = true ->
  (calls i p st = None /\ (PIPE_BUF <= capacity -> content <> [])) \/
  exists part, part <> [] /\ drop n data = part ++ drop (n + length part) data /\ n + length part <= length data /\
    calls i p st = Some (set_objects (<[o := content ++ part]> (objects st))
                           (set_proc i (with_stage (Writing (n + length part)) p) st)).
Proof.
  intros Hc Hs Hn Ho Hr. unfold calls. rewrite Hc, Ho, Hr.
  assert (Hsf : match stage_of p with Writing m => m | _ => 0 end = n) by (destruct Hs as [[-> ->]| ->]; done).
  rewrite Hsf. destruct (drop n data) as [|x rest] eqn:Hd.
  { apply (f_equal length) in Hd. rewrite length_drop in Hd. simpl in Hd. lia. }
  rewrite <-Hd. cbn [negb]. set (room := capacity - length content).
  set (blocked := if (length data <=? PIPE_BUF)%nat then (room <? length data)%nat else (room =? 0)%nat).
  destruct blocked eqn:Hb; subst blocked.
  - left. split; [done|]. intros Hcap ->. subst room. simpl in Hb.
    destruct (Nat.leb_spec (length data) PIPE_BUF); [apply Nat.ltb_lt in Hb|apply Nat.eqb_eq in Hb]; unfold PIPE_BUF in *; lia.
  - right. exists (take room (drop n data)).
    assert (Hroom : room <> 0).
    { destruct (length data <=? PIPE_BUF)%nat; [apply Nat.ltb_ge in Hb; lia|by apply Nat.eqb_neq in Hb]. }
    split_and!.
    + rewrite Hd. destruct room; [done|]. done.
    + rewrite <-drop_drop, length_take. destruct (decide (room <= length (drop n data))).
      * rewrite Nat.min_l by done. by rewrite take_drop.
      * rewrite Nat.min_r by lia. rewrite take_ge by lia. by rewrite drop_all, app_nil_r.
    + rewrite length_take, length_drop. lia.
    + done.
Qed.

(** A short write into an empty pipe is done at once. *)
Lemma calls_write_whole i p st o data k fail :
  code (pc p) = Writes o data false k fail -> stage_of p = Ready -> data <> [] -> length data <= PIPE_BUF ->
  PIPE_BUF <= capacity -> objects st !! o = Some [] -> anyone (o, RD) st = true ->
  calls i p st = Some (set_objects (<[o := data]> (objects st)) (set_proc i (with_stage (Writing (length data)) p) st)).
Proof.
  intros Hc Hs Hd Hl Hcap Ho Hr. unfold calls. rewrite Hc, Hs, Ho, Hr, drop_0. destruct data as [|x data]; [done|].
  set (d := x :: data) in *. cbn [negb]. rewrite (proj2 (Nat.leb_le _ _) Hl), Nat.sub_0_r.
  rewrite (proj2 (Nat.ltb_ge _ _)) by lia. rewrite take_ge by lia. done.
Qed.

(** How process [i] has ended; that it waits. *)
Definition ended (i : nat) (k : exit_kind) st : bool :=
  match procs st !! i with Some p => bool_decide (stage_of p = Dead (Some k)) | None => false end.
Definition everyone_ended st : bool :=
  forallb (fun p => match stage_of p with Dead _ | Gone => true | _ => false end) (procs st).

End Machine.

#[global] Arguments stdout_put : simpl never.

(** The operations on states are computed away. *)
Arguments holds_end {Pc} e p /.
Arguments anyone {Pc} e st /.
Arguments set_procs {Pc} ps st /.
Arguments set_objects {Pc} os st /.
Arguments set_named {Pc} b st /.
Arguments set_input {Pc} t st /.
Arguments set_proc {Pc} i p st /.
Arguments at_pc {Pc} c p /.
Arguments with_held {Pc} h p /.
Arguments with_stage {Pc} s p /.
Arguments with_output {Pc} t u p /.
Arguments with_error {Pc} msg p /.
Arguments settle {Pc} st /.
Arguments ends {Pc} i p how flush st /.
