(* ===== verification/FifoDemos.v ===== *)
(** chapter44/mkfifo.c: four demonstrations of a FIFO, called one after the
    other, as programs of PipeOS. Process 0 is the program itself; perror gets
    its argument. The schedules of each demonstration are explored. *)
From Stdlib Require Import ZArith Lia Ascii String.
From stdpp Require Import base tactics list strings.
From S2P Require Import Prelude CString Transitions PipeOS.

Definition FIFO_NAME : cstr := lit "myfifo".
Definition BUFFER_SIZE : nat := 1024.

Inductive demo := Basic | MultipleWriters | NonBlocking | ClientServer.
#[export] Instance demo_eq_dec : EqDecision demo.
Proof. solve_decision. Defined.

(** Where a process is in main. *)
Inductive main_pos := MainStart | MainCall | MainUnlink | MainUnlinked | MainNotUnlinked | MainEnd | MainExit.
(** In demonstrateBasicFifo; [BC...] in the child. *)
Inductive basic_pos :=
| BStart | BMkfifo | BMkfifoFailed | BExists | BMade | BFork | BForkFailed | BForkUnlink
| BC | BCOpen | BCOpenFailed | BCFail | BCOpened | BCRead | BCGot (bytes : cstr) | BCNone | BCClose | BCDone | BCExit
| BSleep | BPrepare | BOpen | BOpenFailed | BOpenWait | BOpenUnlink | BOpened | BWrite | BWriteFailed | BWritten
| BClose | BWait | BDone.
(** In demonstrateMultipleWriters; [MR...] in the reader and [MW...] in writer
    [i]; [pids] are the children so far, [None] for a fork that failed. *)
Inductive multiple_pos :=
| MStart | MMkfifo | MMkfifoFailed | MFork | MForkFailed
| MR | MROpen | MROpenFailed | MRFail | MRRead (count : nat) | MRGot (count : nat) (bytes : cstr)
| MRClose (count : nat) | MRDone (count : nat) | MRExit
| MForkWriter (i : nat) (pids : list (option nat)) | MForkWriterFailed (i : nat) (pids : list (option nat))
| MW (i : nat) | MWPrepare (i : nat) | MWOpen (i : nat) | MWOpenFailed | MWFail | MWWrite (i : nat) | MWWriteFailed
| MWWritten (i : nat) | MWClose | MWExit
| MWait (i : nat) (pids : list (option nat)) | MWaited (i : nat) (pids : list (option nat))
| MWaitReader (pids : list (option nat)) | MDone.
(** In demonstrateNonBlockingFifo. *)
Inductive nonblocking_pos :=
| NStart | NMkfifo | NMkfifoFailed | NPrepare | NOpenW | NNoReader | NOpenWFailed | NPrepareR | NOpenR | NOpenRFailed
| NCloseW | NPrepareWrite | NWrite | NWriteFailed | NWritten | NPrepareRead | NRead | NGot (bytes : cstr) | NAgain
| NReadFailed | NCloseR | NClose | NEnd.
(** In demonstrateClientServer; [CS...] in the server and [CC...] in the client. *)
Inductive client_server_pos :=
| CStart | CMkfifo | CMkfifoFailed | CForkServer | CForkServerFailed
| CS | CSOpen | CSOpenFailed | CSFail | CSOpened | CSRead | CSGot (bytes : cstr) | CSClose | CSReopen | CSReopenFailed
| CSWrite | CSWriteFailed | CSWritten | CSCloseAgain | CSDone | CSExit
| CSleep (server : nat) | CForkClient (server : nat) | CForkClientFailed (server : nat) | CWaitOnly (server : nat)
| CC | CCOpen | CCOpenFailed | CCFail | CCOpened | CCWrite | CCWriteFailed | CCClose | CCSleep | CCReopen
| CCReopenFailed | CCRead | CCGot (bytes : cstr) | CCCloseAgain | CCDone | CCExit
| CWaitServer (server client : nat) | CWaitClient (client : nat) | CDone.
Inductive pos :=
| InMain (p : main_pos) | InBasic (p : basic_pos) | InMultiple (p : multiple_pos) | InNonBlocking (p : nonblocking_pos)
| InClientServer (p : client_server_pos).
#[export] Instance main_pos_eq_dec : EqDecision main_pos.
Proof. solve_decision. Defined.
#[export] Instance basic_pos_eq_dec : EqDecision basic_pos.
Proof. solve_decision. Defined.
#[export] Instance multiple_pos_eq_dec : EqDecision multiple_pos.
Proof. solve_decision. Defined.
#[export] Instance nonblocking_pos_eq_dec : EqDecision nonblocking_pos.
Proof. solve_decision. Defined.
#[export] Instance client_server_pos_eq_dec : EqDecision client_server_pos.
Proof. solve_decision. Defined.
#[export] Instance pos_eq_dec : EqDecision pos.
Proof. solve_decision. Defined.

Definition quoted (s : cstr) : cstr := [QUOTE] ++ string_in s ++ [QUOTE].
Definition line (s : string) : cstr := lit s ++ [NEWLINE].

Definition write_buffer : cstr := lit "Hello from parent process via FIFO!".
Definition message : cstr := lit "非阻塞消息".
Definition server_message : cstr := lit "服务器响应: 收到客户端请求".
Definition client_message : cstr := lit "客户端请求: 请求服务器处理".

Section Programs.
(** The process id of writer [i]. *)
Context (writer_pid : nat -> Z).

Definition writer_message (i : nat) : cstr :=
  snprintf 100 (lit "来自写入者 " ++ show_Z (Z.of_nat i) ++ lit " (PID: " ++ show_Z (writer_pid i) ++ lit ") 的消息").

(** A position and the demonstrations that main has still to call. *)
Abbreviation ppos := (pos * list demo)%type.

Definition basic_code (p : basic_pos) (ds : list demo) : act ppos :=
  let at_ q := (InBasic q, ds) in
  let return_ := (InMain MainCall, ds) in
  match p with
  | BStart => Prints (line "=== 演示基本 FIFO 操作 ===") (at_ BMkfifo)
  | BMkfifo => Mkfifos (at_ BMade) (at_ BExists) (at_ BMkfifoFailed)
  | BMkfifoFailed => Reports (lit "mkfifo 失败") return_
  | BExists => Prints (line "FIFO 已存在，继续使用") (at_ BFork)
  | BMade => Prints (lit "成功创建 FIFO: " ++ FIFO_NAME ++ [NEWLINE]) (at_ BFork)
  | BFork => Forks (at_ BC) (fun _ => at_ BSleep) (at_ BForkFailed)
  | BForkFailed => Reports (lit "fork 失败") (at_ BForkUnlink)
  | BForkUnlink => Unlinks return_ return_
  (* the child *)
  | BC => Prints (line "子进程：准备从 FIFO 读取数据...") (at_ BCOpen)
  | BCOpen => Opens 0 RD false (at_ BCOpened) (at_ BCOpenFailed) (at_ BCOpenFailed)
  | BCOpenFailed => Reports (lit "子进程：打开 FIFO 失败") (at_ BCFail)
  | BCFail => UExits EXIT_FAILURE
  | BCOpened => Prints (line "子进程：成功打开 FIFO 进行读取") (at_ BCRead)
  | BCRead => Reads 0 (BUFFER_SIZE - 1) false (fun s => match s with [] => at_ BCNone | _ => at_ (BCGot s) end)
                (at_ BCNone) (at_ BCNone)
  | BCGot s => Prints (lit "子进程：从 FIFO 读取到: " ++ quoted s ++ [NEWLINE]) (at_ BCClose)
  | BCNone => Prints (line "子进程：读取失败或没有数据") (at_ BCClose)
  | BCClose => Closes (0, RD) (at_ BCDone) (at_ BCDone)
  | BCDone => Prints (line "子进程：完成读取并退出") (at_ BCExit)
  | BCExit => UExits EXIT_SUCCESS
  (* the parent *)
  | BSleep => Sleeps 1 (at_ BPrepare)
  | BPrepare => Prints (line "父进程：准备向 FIFO 写入数据...") (at_ BOpen)
  | BOpen => Opens 0 WR false (at_ BOpened) (at_ BOpenFailed) (at_ BOpenFailed)
  | BOpenFailed => Reports (lit "父进程：打开 FIFO 失败") (at_ BOpenWait)
  | BOpenWait => Waits None (fun _ _ => at_ BOpenUnlink) (at_ BOpenUnlink)
  | BOpenUnlink => Unlinks return_ return_
  | BOpened => Prints (line "父进程：成功打开 FIFO 进行写入") (at_ BWrite)
  | BWrite => Writes 0 write_buffer false (fun _ => at_ BWritten) (at_ BWriteFailed)
  | BWriteFailed => Reports (lit "父进程：写入 FIFO 失败") (at_ BClose)
  | BWritten => Prints (lit "父进程：向 FIFO 写入: " ++ quoted write_buffer ++ [NEWLINE]) (at_ BClose)
  | BClose => Closes (0, WR) (at_ BWait) (at_ BWait)
  | BWait => Waits None (fun _ _ => at_ BDone) (at_ BDone)
  | BDone => Prints (line "父进程：子进程已完成" ++ [NEWLINE]) return_
  end.

Definition multiple_code (p : multiple_pos) (ds : list demo) : act ppos :=
  let at_ q := (InMultiple q, ds) in
  let return_ := (InMain MainCall, ds) in
  match p with
  | MStart => Prints (line "=== 演示多个写入者和一个读取者 ===") (at_ MMkfifo)
  | MMkfifo => Mkfifos (at_ MFork) (at_ MFork) (at_ MMkfifoFailed)
  | MMkfifoFailed => Reports (lit "mkfifo 失败") return_
  | MFork => Forks (at_ MR) (fun c => at_ (MForkWriter 1 [Some c])) (at_ MForkFailed)
  | MForkFailed => Reports (lit "fork 读取者失败") return_
  (* the reader *)
  | MR => Prints (line "读取者：准备从 FIFO 读取数据...") (at_ MROpen)
  | MROpen => Opens 0 RD false (at_ (MRRead 0)) (at_ MROpenFailed) (at_ MROpenFailed)
  | MROpenFailed => Reports (lit "读取者：打开 FIFO 失败") (at_ MRFail)
  | MRFail => UExits EXIT_FAILURE
  | MRRead n => Reads 0 (BUFFER_SIZE - 1) false
                  (fun s => match s with [] => at_ (MRClose n) | _ => at_ (MRGot (S n) s) end)
                  (at_ (MRClose n)) (at_ (MRClose n))
  | MRGot n s => Prints (lit "读取者：收到消息 " ++ show_Z (Z.of_nat n) ++ lit ": " ++ quoted s ++ [NEWLINE]) (at_ (MRRead n))
  | MRClose n => Closes (0, RD) (at_ (MRDone n)) (at_ (MRDone n))
  | MRDone n => Prints (lit "读取者：完成读取，共收到 " ++ show_Z (Z.of_nat n) ++ line " 条消息") (at_ MRExit)
  | MRExit => UExits EXIT_SUCCESS
  (* the loop that makes two writers *)
  | MForkWriter i pids =>
      if (i <=? 2)%nat then Forks (at_ (MW i)) (fun c => at_ (MForkWriter (S i) (pids ++ [Some c]))) (at_ (MForkWriterFailed i pids))
      else Goes (at_ (MWait 1 pids))
  | MForkWriterFailed i pids => Reports (lit "fork 写入者失败") (at_ (MForkWriter (S i) (pids ++ [None])))
  (* a writer *)
  | MW i => Sleeps i (at_ (MWPrepare i))
  | MWPrepare i => Prints (lit "写入者 " ++ show_Z (Z.of_nat i) ++ line "：准备写入消息...") (at_ (MWOpen i))
  | MWOpen i => Opens 0 WR false (at_ (MWWrite i)) (at_ MWOpenFailed) (at_ MWOpenFailed)
  | MWOpenFailed => Reports (lit "写入者：打开 FIFO 失败") (at_ MWFail)
  | MWFail => UExits EXIT_FAILURE
  | MWWrite i => Writes 0 (writer_message i) false (fun _ => at_ (MWWritten i)) (at_ MWWriteFailed)
  | MWWriteFailed => Reports (lit "写入者：写入失败") (at_ MWClose)
  | MWWritten i => Prints (lit "写入者 " ++ show_Z (Z.of_nat i) ++ line "：成功写入消息") (at_ MWClose)
  | MWClose => Closes (0, WR) (at_ MWExit) (at_ MWExit)
  | MWExit => UExits EXIT_SUCCESS
  (* waitpid(pids[i], &status, 0), with -1 for a writer that was not made *)
  | MWait i pids =>
      if (i <=? 2)%nat then Waits (default None (pids !! i)) (fun _ _ => at_ (MWaited i pids)) (at_ (MWaited i pids))
      else Goes (at_ (MWaitReader pids))
  | MWaited i pids => Prints (lit "写入者 " ++ show_Z (Z.of_nat i) ++ line " 已完成") (at_ (MWait (S i) pids))
  | MWaitReader pids => Waits (default None (pids !! 0%nat)) (fun _ _ => at_ MDone) (at_ MDone)
  | MDone => Prints (line "读取者已完成" ++ [NEWLINE]) return_
  end.

Definition nonblocking_code (p : nonblocking_pos) (ds : list demo) : act ppos :=
  let at_ q := (InNonBlocking q, ds) in
  let return_ := (InMain MainCall, ds) in
  match p with
  | NStart => Prints (line "=== 演示非阻塞 FIFO 操作 ===") (at_ NMkfifo)
  | NMkfifo => Mkfifos (at_ NPrepare) (at_ NPrepare) (at_ NMkfifoFailed)
  | NMkfifoFailed => Reports (lit "mkfifo 失败") return_
  | NPrepare => Prints (line "以非阻塞模式打开 FIFO 进行写入...") (at_ NOpenW)
  | NOpenW => Opens 0 WR true (at_ NPrepareR) (at_ NNoReader) (at_ NOpenWFailed)
  | NNoReader => Prints (line "没有读取者，写入操作会阻塞（在非阻塞模式下返回 ENXIO）") return_
  | NOpenWFailed => Reports (lit "打开 FIFO 写入失败") return_
  | NPrepareR => Prints (line "以非阻塞模式打开 FIFO 进行读取...") (at_ NOpenR)
  | NOpenR => Opens 0 RD true (at_ NPrepareWrite) (at_ NOpenRFailed) (at_ NOpenRFailed)
  | NOpenRFailed => Reports (lit "打开 FIFO 读取失败") (at_ NCloseW)
  | NCloseW => Closes (0, WR) return_ return_
  | NPrepareWrite => Prints (line "写入数据到 FIFO...") (at_ NWrite)
  | NWrite => Writes 0 message true (fun _ => at_ NWritten) (at_ NWriteFailed)
  | NWriteFailed => Reports (lit "非阻塞写入失败") (at_ NPrepareRead)
  | NWritten => Prints (lit "成功写入: " ++ quoted message ++ [NEWLINE]) (at_ NPrepareRead)
  | NPrepareRead => Prints (line "立即尝试从 FIFO 读取...") (at_ NRead)
  | NRead => Reads 0 (BUFFER_SIZE - 1) true (fun s => at_ (NGot s)) (at_ NAgain) (at_ NReadFailed)
  | NGot [] => Prints (line "没有数据可读取（EOF）") (at_ NCloseR)
  | NGot s => Prints (lit "成功读取: " ++ quoted s ++ [NEWLINE]) (at_ NCloseR)
  | NAgain => Prints (line "没有数据可读取（非阻塞模式下正常）") (at_ NCloseR)
  | NReadFailed => Reports (lit "读取失败") (at_ NCloseR)
  | NCloseR => Closes (0, RD) (at_ NClose) (at_ NClose)
  | NClose => Closes (0, WR) (at_ NEnd) (at_ NEnd)
  | NEnd => Prints [NEWLINE] return_
  end.

Definition client_server_code (p : client_server_pos) (ds : list demo) : act ppos :=
  let at_ q := (InClientServer q, ds) in
  let return_ := (InMain MainCall, ds) in
  match p with
  | CStart => Prints (line "=== 演示 FIFO 服务器-客户端通信 ===") (at_ CMkfifo)
  | CMkfifo => Mkfifos (at_ CForkServer) (at_ CForkServer) (at_ CMkfifoFailed)
  | CMkfifoFailed => Reports (lit "mkfifo 失败") return_
  | CForkServer => Forks (at_ CS) (fun s => at_ (CSleep s)) (at_ CForkServerFailed)
  | CForkServerFailed => Reports (lit "fork 服务器失败") return_
  (* the server *)
  | CS => Prints (line "服务器：启动并等待客户端连接...") (at_ CSOpen)
  | CSOpen => Opens 0 RD false (at_ CSOpened) (at_ CSOpenFailed) (at_ CSOpenFailed)
  | CSOpenFailed => Reports (lit "服务器：打开 FIFO 失败") (at_ CSFail)
  | CSFail => UExits EXIT_FAILURE
  | CSOpened => Prints (line "服务器：已准备好接收客户端请求") (at_ CSRead)
  | CSRead => Reads 0 (BUFFER_SIZE - 1) false (fun s => match s with [] => at_ CSClose | _ => at_ (CSGot s) end)
                (at_ CSClose) (at_ CSClose)
  | CSGot s => Prints (lit "服务器：收到客户端请求: " ++ quoted s ++ [NEWLINE]) (at_ CSClose)
  | CSClose => Closes (0, RD) (at_ CSReopen) (at_ CSReopen)
  | CSReopen => Opens 0 WR false (at_ CSWrite) (at_ CSReopenFailed) (at_ CSReopenFailed)
  | CSReopenFailed => Reports (lit "服务器：重新打开 FIFO 失败") (at_ CSFail)
  | CSWrite => Writes 0 server_message false (fun _ => at_ CSWritten) (at_ CSWriteFailed)
  | CSWriteFailed => Reports (lit "服务器：发送响应失败") (at_ CSCloseAgain)
  | CSWritten => Prints (line "服务器：发送响应给客户端") (at_ CSCloseAgain)
  | CSCloseAgain => Closes (0, WR) (at_ CSDone) (at_ CSDone)
  | CSDone => Prints (line "服务器：完成服务并退出") (at_ CSExit)
  | CSExit => UExits EXIT_SUCCESS
  (* the program *)
  | CSleep s => Sleeps 1 (at_ (CForkClient s))
  | CForkClient s => Forks (at_ CC) (fun c => at_ (CWaitServer s c)) (at_ (CForkClientFailed s))
  | CForkClientFailed s => Reports (lit "fork 客户端失败") (at_ (CWaitOnly s))
  | CWaitOnly s => Waits (Some s) (fun _ _ => return_) return_
  (* the client *)
  | CC => Prints (line "客户端：连接到服务器...") (at_ CCOpen)
  | CCOpen => Opens 0 WR false (at_ CCOpened) (at_ CCOpenFailed) (at_ CCOpenFailed)
  | CCOpenFailed => Reports (lit "客户端：打开 FIFO 失败") (at_ CCFail)
  | CCFail => UExits EXIT_FAILURE
  | CCOpened => Prints (line "客户端：发送请求到服务器") (at_ CCWrite)
  | CCWrite => Writes 0 client_message false (fun _ => at_ CCClose) (at_ CCWriteFailed)
  | CCWriteFailed => Reports (lit "客户端：发送请求失败") (at_ CCClose)
  | CCClose => Closes (0, WR) (at_ CCSleep) (at_ CCSleep)
  | CCSleep => Sleeps 1 (at_ CCReopen)
  | CCReopen => Opens 0 RD false (at_ CCRead) (at_ CCReopenFailed) (at_ CCReopenFailed)
  | CCReopenFailed => Reports (lit "客户端：重新打开 FIFO 失败") (at_ CCFail)
  | CCRead => Reads 0 (BUFFER_SIZE - 1) false (fun s => match s with [] => at_ CCCloseAgain | _ => at_ (CCGot s) end)
                (at_ CCCloseAgain) (at_ CCCloseAgain)
  | CCGot s => Prints (lit "客户端：收到服务器响应: " ++ quoted s ++ [NEWLINE]) (at_ CCCloseAgain)
  | CCCloseAgain => Closes (0, RD) (at_ CCDone) (at_ CCDone)
  | CCDone => Prints (line "客户端：完成通信并退出") (at_ CCExit)
  | CCExit => UExits EXIT_SUCCESS
  (* the program again *)
  | CWaitServer s c => Waits (Some s) (fun _ _ => at_ (CWaitClient c)) (at_ (CWaitClient c))
  | CWaitClient c => Waits (Some c) (fun _ _ => at_ CDone) (at_ CDone)
  | CDone => Prints (line "服务器-客户端通信演示完成" ++ [NEWLINE]) return_
  end.

Definition starts_at (d : demo) : pos :=
  match d with
  | Basic => InBasic BStart
  | MultipleWriters => InMultiple MStart
  | NonBlocking => InNonBlocking NStart
  | ClientServer => InClientServer CStart
  end.

(** main: it returns from a demonstration to [MainCall]. *)
Definition main_code (p : main_pos) (ds : list demo) : act ppos :=
  let at_ q := (InMain q, ds) in
  match p with
  | MainStart => Prints (line "=== mkfifo() 和命名管道 (FIFO) 功能演示 ==="
                           ++ line "命名管道（FIFO）是一种特殊的文件，可用于不相关进程间的通信" ++ [NEWLINE]) (at_ MainCall)
  | MainCall => match ds with d :: ds => Goes (starts_at d, ds) | [] => Goes (at_ MainUnlink) end
  | MainUnlink => Unlinks (at_ MainUnlinked) (at_ MainNotUnlinked)
  | MainUnlinked => Prints (lit "已清理 FIFO 文件: " ++ FIFO_NAME ++ [NEWLINE]) (at_ MainEnd)
  | MainNotUnlinked => Reports (lit "删除 FIFO 文件失败") (at_ MainEnd)
  | MainEnd => Prints ([NEWLINE] ++ line "=== mkfifo() 演示完成 ===" ++ [NEWLINE] ++ line "主要特点:"
                         ++ line "1. mkfifo() 创建命名管道，可在文件系统中看到" ++ line "2. FIFO 遵循先进先出原则，支持多个读写者"
                         ++ line "3. 可用于不相关进程间的通信" ++ line "4. 支持阻塞和非阻塞模式"
                         ++ line "5. 可实现复杂的进程间通信模式") (at_ MainExit)
  | MainExit => Exits EXIT_SUCCESS
  end.

Definition code (c : ppos) : act ppos :=
  match c with
  | (InMain p, ds) => main_code p ds
  | (InBasic p, ds) => basic_code p ds
  | (InMultiple p, ds) => multiple_code p ds
  | (InNonBlocking p, ds) => nonblocking_code p ds
  | (InClientServer p, ds) => client_server_code p ds
  end.

End Programs.

Definition all_demos : list demo := [Basic; MultipleWriters; NonBlocking; ClientServer].

(** The handler for SIGINT and SIGTERM, which the children inherit: process [i]
    runs it wherever it is. *)
Definition cleanup_handler (sig : Z) (i : nat) (st : system (pos * list demo)) : system (pos * list demo) :=
  match procs st !! i with
  | Some p =>
      let t := [NEWLINE] ++ lit "接收到信号 " ++ show_Z sig ++ line "，清理 FIFO 文件..." in
      set_named false (ends i (with_output (pending p ++ t) (printed p) p) (Some EXIT_SUCCESS) true st)
  | None => st
  end.

(** ** What the demonstrations do *)

Definition says (i : nat) (t : cstr) (st : system (pos * list demo)) : bool :=
  match procs st !! i with Some p => bool_decide (is_Some (strstr (printed p) t)) | None => false end.

Definition stands (i : nat) (c : pos * list demo) (s : stage) (st : system (pos * list demo)) : bool :=
  match procs st !! i with Some p => bool_decide (pc p = c) && bool_decide (stage_of p = s) | None => false end.

(** The program that calls the demonstrations [ds], with process ids from 101
    on and standard output on a terminal; the FIFO holds PIPE_BUF characters. *)
Definition demo_pid (i : nat) : Z := 100 + Z.of_nat i.
Definition run_demos (prompt : bool) : event -> system (pos * list demo) -> option (system (pos * list demo)) :=
  fire (code demo_pid) PIPE_BUF false prompt false.
Definition program (ds : list demo) : system (pos * list demo) := boot (InMain MainStart, ds) [[]] [].

Definition basic_done (st : system (pos * list demo)) : bool :=
  everyone_ended st && ended 0 EXIT_SUCCESS st && negb (named st)
  && says 1 (lit "从 FIFO 读取到: " ++ quoted write_buffer) st.

Definition client_server_done (st : system (pos * list demo)) : bool :=
  everyone_ended st && ended 0 EXIT_SUCCESS st && negb (named st)
  && says 1 (lit "收到客户端请求: " ++ quoted client_message) st
  && says 2 (lit "收到服务器响应: " ++ quoted server_message) st.

(** The reader has ended after one message, writer 2 waits for a reader and the
    program for writer 2. *)
Definition second_demo_hung (st : system (pos * list demo)) : bool :=
  let rest := [NonBlocking; ClientServer] in
  says 2 (lit "共收到 1 " ++ lit "条消息") st && ended 2 EXIT_SUCCESS st
  && stands 4 (InMultiple (MWOpen 2), rest) Opening st
  && stands 0 (InMultiple (MWait 2 [Some 2; Some 3; Some 4]), rest) Ready st && named st.

(** however the processes of demonstrateBasicFifo are scheduled, and whatever
    the sleeps take, the program ends, the child has printed what the parent
    wrote and the FIFO is removed. The same holds of demonstrateClientServer,
    where the server gets the client's request and the client the server's
    answer, although both use the same FIFO. *)
Theorem fifo_demos_deliver :
  always_ends (run_demos false) (fun st => basic_done st = true) (program [Basic]) /\
  always_ends (run_demos false) (fun st => client_server_done st = true) (program [ClientServer]).
Proof. split; apply (explore_ends _ events 100); by vm_compute. Qed.

(** C18: main never gets past demonstrateMultipleWriters when the processes are
    quicker than their sleeps: on every schedule the reader sees the end of the
    file when writer 1 closes the FIFO and ends; writer 2, which sleeps a second
    longer, then waits for ever for a reader, and the program for writer 2. *)
Theorem second_demo_hangs :
  always_ends (run_demos true) (fun st => second_demo_hung st = true) (program all_demos).
Proof. apply (explore_ends _ events 200). by vm_compute. Qed.

(** demonstrateNonBlockingFifo opens its FIFO for writing first, so that it
    always finds no reader and returns: it never reads. *)
Theorem nonblocking_never_reads :
  always_ends (run_demos false)
    (fun st => (everyone_ended st && ended 0 EXIT_SUCCESS st && says 0 (lit "返回 ENXIO") st
                && negb (says 0 (lit "立即尝试") st)) = true) (program [NonBlocking]).
Proof. apply (explore_ends _ events 100). by vm_compute. Qed.

(** It can be got past when a sleep of two seconds ends before the first writer
    has closed the FIFO. *)
Definition lucky_schedule : list event :=
  replicate 8 (Run 0) ++ [Run 1; Run 1; Run 2; Run 3; Tick; Tick] ++ replicate 3 (Run 2) ++ replicate 3 (Run 3)
  ++ replicate 5 (Run 2) ++ [Run 1; Run 1] ++ replicate 5 (Run 3) ++ replicate 6 (Run 1) ++ replicate 12 (Run 0).

Example second_demo_may_finish :
  match run_all (run_demos false) lucky_schedule (program [MultipleWriters]) with
  | Some st => says 1 (lit "共收到 2 ") st && everyone_ended st
  | None => false
  end = true.
Proof. by vm_compute. Qed.

(** When the child of demonstrateBasicFifo cannot open the FIFO it ends, and its
    parent waits for ever for a reader. *)
Example failed_child_blocks_parent :
  match run_all (fire (code demo_pid) PIPE_BUF false true true)
          (replicate 6 (Run 0) ++ [Run 1; FailCall 1; Run 1; Run 1; Run 0; Tick; Run 0; Run 0; Run 0]) (program [Basic]) with
  | Some st =>
      ended 1 EXIT_FAILURE st && stands 0 (InBasic BOpen, []) Opening st
      && forallb (fun e => negb (bool_decide (is_Some (fire (code demo_pid) PIPE_BUF false true true e st)))) (events st)
  | None => false
  end = true.
Proof. by vm_compute. Qed.

(** A hung program is ended by an interrupt from the terminal, which all its
    processes get; the FIFO is removed. *)
Lemma interrupt_ends_all (st : system (pos * list demo)) (sig : Z) :
  let st' := foldl (fun s i => cleanup_handler sig i s) st (seq 0 (length (procs st))) in
  procs st <> [] -> named st' = false /\ everyone_ended st' = true.
Proof.
  cbv zeta. assert (H : forall n st, (n <= length (procs st))%nat ->
    let st' := foldl (fun s i => cleanup_handler sig i s) st (seq 0 n) in
    length (procs st') = length (procs st) /\ (0 < n -> named st' = false)%nat /\
    forall i p, (i < n)%nat -> procs st' !! i = Some p -> stage_of p = Dead (Some EXIT_SUCCESS)).
  { clear st. induction n as [|n IH]; intros st Hn; cbv zeta; [split_and!; [done|lia|lia]|].
    rewrite seq_S, foldl_app. cbn [foldl Nat.add].
    destruct (IH st ltac:(lia)) as (Hl & Hnm & Hp). cbv zeta in *. set (s := foldl _ st _) in *.
    unfold cleanup_handler. destruct (procs s !! n) as [q|] eqn:Hq; [|apply lookup_ge_None in Hq; lia].
    cbn [procs set_named ends settle set_objects set_proc set_procs named]. split_and!; [by rewrite length_insert|done|].
    intros i p Hi Hip. destruct (decide (i = n)) as [->|Hne].
    - rewrite list_lookup_insert_eq in Hip by (apply lookup_lt_Some in Hq; done). by injection Hip as <-.
    - rewrite list_lookup_insert_ne in Hip by done. apply (Hp i); [lia|done]. }
  intros Hne. destruct (H (length (procs st)) st (le_n _)) as (Hl & Hnm & Hp). cbv zeta in *. split.
  - apply Hnm. destruct (procs st); [done|simpl; lia].
  - apply forallb_forall. intros p [i Hi]%list_elem_of_In%list_elem_of_lookup. rewrite (Hp i p); [done| |done].
    rewrite <-Hl. by eapply lookup_lt_Some.
Qed.
