(* ===== verification/PipePrograms.v ===== *)
(** pipes/simple_pipe.c (src/tlpi-dist) and the simple_pipe.c of chapter44, as
    programs of PipeOS. errExit and fatal are the report of their argument and
    the end of the process; text that depends on the clock or on a process id is
    left out. *)
From Stdlib Require Import ZArith Lia Ascii String.
From stdpp Require Import base tactics list strings.
From S2P Require Import Prelude CString Transitions PipeOS.

(** ** simple_pipe.c *)

(** The parent writes its argument into a pipe and the child prints it. [SStart],
    [SCHello], [SPHello] and the like are the messages that only the program of chapter44 has. *)
Inductive spos :=
| SUsage | SStart | SPipe | SFork | SErr (msg : cstr) | SBad
| SCClose | SCHello | SCRead | SCWrite (buf : cstr) | SCNewline | SCCloseR | SCBye | SCExit
| SPCloseR | SPHello | SPWrite | SPClose | SPBye | SPWait | SPDone | SPExit.

Definition BUF_SIZE : nat := 10.

Definition simple_pipe_start (argv : list cstr) : spos :=
  match argv with
  | [_; arg] => if bool_decide (arg = lit "--help") then SUsage else SPipe
  | _ => SUsage
  end.
Definition simple_pipe_44_start (argv : list cstr) : spos :=
  match argv with [_; _] => SStart | _ => SUsage end.

Definition simple_pipe (str : cstr) (p : spos) : act spos :=
  match p with
  | SUsage => Reports (lit "Usage: simple_pipe string") SBad
  | SErr msg => Reports msg SBad
  | SBad => Exits EXIT_FAILURE
  | SPipe => Pipes SFork (SErr (lit "pipe"))
  | SFork => Forks SCClose (fun _ => SPCloseR) (SErr (lit "fork"))
  (* the child *)
  | SCClose => Closes (0, WR) SCRead (SErr (lit "close - child"))
  | SCRead => Reads 0 BUF_SIZE false (fun s => match s with [] => SCNewline | _ => SCWrite s end)
                (SErr (lit "read")) (SErr (lit "read"))
  | SCWrite buf => Outputs buf SCRead (SErr (lit "child - partial/failed write"))
  | SCNewline => Outputs [NEWLINE] SCCloseR SCCloseR
  | SCCloseR => Closes (0, RD) SCExit (SErr (lit "close"))
  | SCExit => Exits EXIT_SUCCESS
  (* the parent *)
  | SPCloseR => Closes (0, RD) SPWrite (SErr (lit "close - parent"))
  | SPWrite => Writes 0 str false
                 (fun n => if bool_decide (n = length str) then SPClose else SErr (lit "parent - partial/failed write"))
                 (SErr (lit "parent - partial/failed write"))
  | SPClose => Closes (0, WR) SPWait (SErr (lit "close"))
  | SPWait => Waits None (fun _ _ => SPExit) SPExit
  | SPExit => Exits EXIT_SUCCESS
  | SStart | SCHello | SCBye | SPHello | SPBye | SPDone => Goes SBad
  end.

Definition start_44 (str : cstr) : cstr :=
  lit "=== 演示简单管道操作 ===" ++ [NEWLINE] ++ lit "将要写入管道的字符串: " ++ [QUOTE] ++ str ++ [QUOTE; NEWLINE].
Definition hello_44 : cstr := [NEWLINE] ++ lit "子进程开始从管道读取数据:" ++ [NEWLINE].
Definition bye_44 : cstr := lit "子进程读取完成并终止" ++ [NEWLINE].

(** The program of chapter44 reads one character at a time and does not look
    at what its calls return once the child is there. *)
Definition simple_pipe_44 (str : cstr) (p : spos) : act spos :=
  match p with
  | SUsage => Reports (lit "用法: simple_pipe <字符串>") SBad
  | SErr msg => Reports msg SBad
  | SBad => Exits EXIT_FAILURE
  | SStart => Prints (start_44 str) SPipe
  | SPipe => Pipes SFork (SErr (lit "pipe 创建失败"))
  | SFork => Forks SCClose (fun _ => SPCloseR) (SErr (lit "fork 失败"))
  (* the child *)
  | SCClose => Closes (0, WR) SCHello SCHello
  | SCHello => Prints hello_44 SCRead
  | SCRead => Reads 0 1 false (fun s => match s with [] => SCNewline | _ => SCWrite s end) SCNewline SCNewline
  | SCWrite buf => Outputs buf SCRead SCRead
  | SCNewline => Outputs [NEWLINE] SCCloseR SCCloseR
  | SCCloseR => Closes (0, RD) SCBye SCBye
  | SCBye => Prints bye_44 SCExit
  | SCExit => UExits EXIT_SUCCESS
  (* the parent *)
  | SPCloseR => Closes (0, RD) SPHello SPHello
  | SPHello => Prints (lit "父进程开始写入数据到管道..." ++ [NEWLINE]) SPWrite
  | SPWrite => Writes 0 str false (fun _ => SPClose) SPClose
  | SPClose => Closes (0, WR) SPBye SPBye
  | SPBye => Prints (lit "父进程写入完成，等待子进程终止..." ++ [NEWLINE]) SPWait
  | SPWait => Waits None (fun _ _ => SPDone) SPDone
  | SPDone => Prints (lit "父进程：子进程已终止" ++ [NEWLINE]) SPExit
  | SPExit => Exits EXIT_SUCCESS
  end.

(** ** Two processes and one pipe *)

(** What the parent and the child hold where they are. *)
Definition held_at (p : spos) : list pend :=
  match p with
  | SPCloseR | SCClose => [(0, RD); (0, WR)]
  | SPHello | SPWrite | SPClose => [(0, WR)]
  | SCHello | SCRead | SCWrite _ | SCNewline | SCCloseR => [(0, RD)]
  | _ => []
  end.

Definition holding (p : spos) (sg : stage) : list pend :=
  match sg with Dead _ | Gone => [] | _ => held_at p end.

Section TwoProcesses.
(** The argument, and what comes out of the child before and after it. *)
Context (str hello bye : cstr).
(** What its buffer holds at the fork, before the argument and at its end. *)
Context (inherited kept last : cstr).
(** Whether it has the messages of chapter44. *)
Context (chatty : bool).

Definition message_pos (p : spos) : bool :=
  match p with SStart | SCHello | SCBye | SPHello | SPBye | SPDone => true | _ => false end.

(** The parent has written [n] characters. *)
Inductive parent_at : spos -> stage -> nat -> Prop :=
| pa_close_r : parent_at SPCloseR Ready 0
| pa_hello : parent_at SPHello Ready 0
| pa_write : parent_at SPWrite Ready 0
| pa_writing n : n <= length str -> parent_at SPWrite (Writing n) n
| pa_close : parent_at SPClose Ready (length str)
| pa_bye : parent_at SPBye Ready (length str)
| pa_wait : parent_at SPWait Ready (length str)
| pa_done : parent_at SPDone Ready (length str)
| pa_exit : parent_at SPExit Ready (length str)
| pa_dead : parent_at SPExit (Dead (Some EXIT_SUCCESS)) (length str).

(** The child has delivered [o] when the parent has written [n] characters, of
    which [c] is still in the pipe. *)
Inductive child_at : spos -> stage -> nat -> cstr -> cstr -> Prop :=
| ca_close n : child_at SCClose Ready n (take n str) []
| ca_hello n : child_at SCHello Ready n (take n str) []
| ca_read n c d o : o = hello ++ d -> d ++ c = take n str -> child_at SCRead Ready n c o
| ca_write n buf c d o : o = hello ++ d -> d ++ buf ++ c = take n str -> buf <> [] -> child_at (SCWrite buf) Ready n c o
| ca_newline : child_at SCNewline Ready (length str) [] (hello ++ str)
| ca_close_r : child_at SCCloseR Ready (length str) [] (hello ++ str ++ [NEWLINE])
| ca_bye : child_at SCBye Ready (length str) [] (hello ++ str ++ [NEWLINE])
| ca_exit : child_at SCExit Ready (length str) [] (hello ++ str ++ [NEWLINE] ++ bye)
| ca_dead : child_at SCExit (Dead (Some EXIT_SUCCESS)) (length str) [] (hello ++ str ++ [NEWLINE] ++ bye)
| ca_gone : child_at SCExit Gone (length str) [] (hello ++ str ++ [NEWLINE] ++ bye).

Definition child_pending (p : spos) : cstr :=
  match p with SCClose | SCHello => inherited | SCExit => last | _ => kept end.

(** The two processes, or the program before the fork. *)
Inductive simple_inv : system spos -> Prop :=
| before_pipe p pe pr : (p = SStart /\ chatty = true /\ pe = []) \/ (p = SPipe /\ pe = inherited) -> simple_inv (System [Process p [] Ready pe pr [] 0] [] false [])
| before_fork pr : simple_inv (System [Process SFork [(0, RD); (0, WR)] Ready inherited pr [] 0] [[]] false [])
| after_fork pp ps cp cs n c o pe1 pr1 pe2 : parent_at pp ps n -> child_at cp cs n c o ->
    (chatty = false -> message_pos pp = false /\ message_pos cp = false) -> (cs = Ready -> pe2 = child_pending cp) ->
    simple_inv (System [Process pp (holding pp ps) ps pe1 pr1 [] 0; Process cp (holding cp cs) cs pe2 o [] 0] [c] false []).

Definition simple_done (st : system spos) : Prop :=
  exists pe1 pr1 cs pe2, (cs = Gone \/ cs = Dead (Some EXIT_SUCCESS)) /\
    st = System [Process SPExit [] (Dead (Some EXIT_SUCCESS)) pe1 pr1 [] 0;
                 Process SCExit [] cs pe2 (hello ++ str ++ [NEWLINE] ++ bye) [] 0] [[]] false [].

Definition rank (p : spos) (sg : stage) : nat :=
  match p, sg with
  | _, Dead _ | _, Gone => 0
  | SStart, _ => 42 | SPipe, _ => 41 | SFork, _ => 40
  | SPCloseR, _ => 9 | SPHello, _ => 8 | SPWrite, Ready => 7 | SPWrite, _ => 6 | SPClose, _ => 5 | SPBye, _ => 4
  | SPWait, _ => 3 | SPDone, _ => 2 | SPExit, _ => 1
  | SCClose, _ => 20 | SCHello, _ => 19 | SCRead, _ => 10 | SCWrite buf, _ => 10 + length buf | SCNewline, _ => 5
  | SCCloseR, _ => 4 | SCBye, _ => 3 | SCExit, _ => 1
  | _, _ => 0
  end.

Definition unsent (p : spos) (sg : stage) : nat :=
  match p, sg with
  | SPWrite, Writing n => length str - n
  | SStart, _ | SPipe, _ | SFork, _ | SPCloseR, _ | SPHello, _ | SPWrite, _ => length str
  | _, _ => 0
  end.

Definition simple_work (st : system spos) : nat :=
  list_sum ((fun p => rank (pc p) (stage_of p) + 3 * unsent (pc p) (stage_of p)) <$> procs st)
  + list_sum ((fun c => 2 * length c) <$> objects st).

End TwoProcesses.

(** ** The programs keep the invariant *)

Section Facts.
Context {str hello bye : cstr}.

(** While the child does not hold its end the pipe is empty. *)
Lemma child_keeps p sg n c o b : child_at str hello bye p sg n c o ->
  (if existsb (same_end (0, RD)) (holding p sg) || b then c else []) = c.
Proof. destruct 1; cbn; by destruct b. Qed.

(** While the parent writes the child holds its end. *)
Lemma child_reads p sg n c o : child_at str hello bye p sg n c o -> n < length str ->
  existsb (same_end (0, RD)) (holding p sg) = true.
Proof. destruct 1; cbn; intros; (done || lia). Qed.

Lemma child_fed p sg n k c o part : child_at str hello bye p sg n c o -> n < length str ->
  take k str = take n str ++ part -> child_at str hello bye p sg k (c ++ part) o.
Proof.
  destruct 1 as [| |n c d o Ho Hd|n buf c d o Ho Hd Hb| | | | | |]; intros Hn Hk; try lia.
  - rewrite <-Hk. constructor.
  - rewrite <-Hk. constructor.
  - apply (ca_read _ _ _ _ _ d); [done|]. by rewrite Hk, <-Hd, app_assoc.
  - apply (ca_write _ _ _ _ _ _ d); [done| |done]. by rewrite Hk, <-Hd, <-!app_assoc.
Qed.

(** Once the parent has closed its end it has written everything. *)
Lemma parent_closed p sg n : parent_at str p sg n -> existsb (same_end (0, WR)) (holding p sg) = false -> n = length str.
Proof. by destruct 1. Qed.

Lemma parent_rank_le p sg n : parent_at str p sg n -> unsent str p sg + n = length str.
Proof. destruct 1; cbn; lia. Qed.
End Facts.

Lemma take_part (str : cstr) n part : drop n str = part ++ drop (n + length part) str -> n <= length str ->
  take (n + length part) str = take n str ++ part.
Proof.
  intros Hd Hn. rewrite <-(take_drop n str) at 1. rewrite Hd, take_app, length_take, Nat.min_l by done.
  rewrite take_ge by (rewrite length_take; lia). f_equal. replace (n + length part - n) with (length part) by lia.
  by rewrite take_app_length.
Qed.

(** The computed next state, with the ends that are held settled. *)
Ltac next_state H := cbn in H; rewrite ?orb_true_r, ?orb_false_r in H; try injection H as <-.

Section Steps.
Context (str hello bye inherited kept last : cstr) (chatty : bool) (code : spos -> act spos) (capacity : nat).
Context (k : nat -> spos) (fail : spos) (Hwrite : code SPWrite = Writes 0 str false k fail).

(** A write of the parent that is not done. *)
Lemma parent_writes sg n cp cs c o pe1 pr1 pe2 buffered prompt st' :
  (sg = Ready /\ n = 0 \/ sg = Writing n) -> n < length str ->
  child_at str hello bye cp cs n c o -> (chatty = false -> message_pos cp = false) ->
  (cs = Ready -> pe2 = child_pending inherited kept last cp) ->
  let st := System [Process SPWrite [(0, WR)] sg pe1 pr1 [] 0; Process cp (holding cp cs) cs pe2 o [] 0] [c] false [] in
  fire code capacity buffered prompt false (Run 0) st = Some st' ->
  simple_inv str hello bye inherited kept last chatty st' /\ simple_work str st' < simple_work str st.
Proof.
  intros Hs Hn Hc Hm Hpe st Hf. set (p := Process SPWrite [(0, WR)] sg pe1 pr1 [] 0) in *.
  assert (Hf' : calls code capacity buffered 0 p st = Some st') by (by destruct Hs as [[-> _]| ->]). clear Hf.
  assert (Hs' : stage_of p = Ready /\ n = 0 \/ stage_of p = Writing n) by exact Hs.
  assert (Hr : anyone (0, RD) st = true) by (cbn; by rewrite (child_reads _ _ _ _ _ Hc Hn)).
  destruct (calls_write code capacity buffered 0 p st 0 str k fail n c Hwrite Hs' Hn eq_refl Hr)
    as [[Hw _]|(part & Hp & Hd & Hl & Hw)].
  - congruence.
  - rewrite Hw in Hf'. injection Hf' as <-.
    assert (Ht := take_part str n part Hd ltac:(lia)). split.
    + apply (after_fork _ _ _ _ _ _ _ SPWrite (Writing (n + length part)) cp cs (n + length part) (c ++ part) o pe1 pr1 pe2).
      * by constructor.
      * by eapply child_fed.
      * intros H. split; [done|by apply Hm].
      * done.
    + destruct part as [|x part]; [done|]. cbn. rewrite length_app. cbn. simpl in Hl.
      destruct Hs as [[-> ->]| ->]; cbn; lia.
Qed.
End Steps.

(** Both programs: the one of chapter44 when [chatty]. What printf leaves in
    the buffer of its child is lost. *)
Definition simple_code (chatty : bool) (str : cstr) (p : spos) : act spos :=
  if chatty then simple_pipe_44 str p else simple_pipe str p.

(** What the buffer of that child holds, and what comes out of it. *)
Definition inherited_44 (buffered : bool) (str : cstr) : cstr := (stdout_put buffered [] (start_44 str)).1.
Definition put_hello (buffered : bool) (str : cstr) : cstr * cstr := stdout_put buffered (inherited_44 buffered str) hello_44.
Definition put_bye (buffered : bool) (str : cstr) : cstr * cstr := stdout_put buffered (put_hello buffered str).1 bye_44.

Section SimplePipe.
Context (str : cstr) (capacity : nat) (prompt : bool).
Hypothesis capacity_PIPE_BUF : PIPE_BUF <= capacity.

Definition when_chatty (chatty : bool) (t : cstr) : cstr := if chatty then t else [].
Abbreviation hello chatty buffered := (when_chatty chatty (put_hello buffered str).2).
Abbreviation bye chatty buffered := (when_chatty chatty (put_bye buffered str).2).
Abbreviation its_pending chatty buffered :=
  (child_pending (when_chatty chatty (inherited_44 buffered str)) (when_chatty chatty (put_hello buffered str).1) (when_chatty chatty (put_bye buffered str).1)).
Abbreviation inv chatty buffered :=
  (simple_inv str (hello chatty buffered) (bye chatty buffered) (when_chatty chatty (inherited_44 buffered str))
     (when_chatty chatty (put_hello buffered str).1) (when_chatty chatty (put_bye buffered str).1) chatty).
Abbreviation pair := (fun pp ps cp cs c o pe1 pr1 pe2 =>
  System [Process pp (holding pp ps) ps pe1 pr1 [] 0; Process cp (holding cp cs) cs pe2 o [] 0] [c] false []).

#[local] Opaque start_44 hello_44 bye_44 stdout_put.

(** The position has no message, or the program has them. *)
Ltac no_message := match goal with Hm : _ = false -> _ /\ _ |- _ => intros ?; first [done|split; first [done|apply Hm; done]] end.
(** The buffer is what it was, or what printf has just made of it. *)
Ltac same_pending := intros ?; first [done|match goal with Hpe : Ready = Ready -> _ |- _ => rewrite (Hpe eq_refl); reflexivity end].

Ltac parent_to p s cp cs n :=
  eapply (after_fork _ _ _ _ _ _ _ p s cp cs n); [constructor|first [done|constructor]|no_message|first [assumption|done]].

Ltac child_to p s n :=
  match goal with |- simple_inv _ _ _ _ _ _ _ (System [Process ?pp _ ?ps _ _ _ _; _] _ _ _) =>
    eapply (after_fork _ _ _ _ _ _ _ pp ps p s n); [done|constructor; auto|no_message|same_pending] end.

Lemma parent_steps chatty buffered pp ps cp cs n c o pe1 pr1 pe2 st' :
  parent_at str pp ps n -> child_at str (hello chatty buffered) (bye chatty buffered) cp cs n c o ->
  (chatty = false -> message_pos pp = false /\ message_pos cp = false) -> (cs = Ready -> pe2 = its_pending chatty buffered cp) ->
  fire (simple_code chatty str) capacity buffered prompt false (Run 0) (pair pp ps cp cs c o pe1 pr1 pe2) = Some st' ->
  inv chatty buffered st' /\ simple_work str st' < simple_work str (pair pp ps cp cs c o pe1 pr1 pe2).
Proof.
  intros Hp Hc Hm Hpe Hf.
  assert (Hw : exists k fail, simple_code chatty str SPWrite = Writes 0 str false k fail) by (destruct chatty; cbn; eauto).
  destruct Hw as (k & fail & Hw). pose proof (child_keeps _ _ _ _ _ false Hc) as Hkeep. rewrite orb_false_r in Hkeep.
  destruct Hp.
  - destruct chatty; next_state Hf; (split; [|cbn; lia]).
    + parent_to SPHello Ready cp cs 0.
    + parent_to SPWrite Ready cp cs 0.
  - destruct chatty; [|by destruct (Hm eq_refl)]. next_state Hf. split; [|cbn; lia]. parent_to SPWrite Ready cp cs 0.
  - destruct (decide (0 < length str)) as [Hlt|Hge]; [|assert (Hl : 0 = length str) by lia].
    + eapply parent_writes; [exact Hw|by left|done|exact Hc|by intros; apply Hm|exact Hpe|exact Hf].
    + destruct chatty; cbn in Hf; rewrite drop_ge, ?bool_decide_eq_true_2 in Hf by (done || lia); next_state Hf;
        (split; [rewrite Hl in Hc|cbn; lia]); parent_to SPClose Ready cp cs (length str).
  - destruct (decide (n < length str)) as [Hlt|Hge]; [|assert (n = length str) as -> by lia].
    + eapply parent_writes; [exact Hw|by right|done|exact Hc|by intros; apply Hm|exact Hpe|exact Hf].
    + destruct chatty; cbn in Hf; rewrite drop_ge, ?bool_decide_eq_true_2 in Hf by (done || lia); next_state Hf;
        (split; [|cbn; lia]); parent_to SPClose Ready cp cs (length str).
  - destruct chatty; next_state Hf; rewrite (child_keeps _ _ _ _ _ _ Hc);
      (split; [|cbn; lia]); [parent_to SPBye Ready cp cs (length str)|parent_to SPWait Ready cp cs (length str)].
  - destruct chatty; [|by destruct (Hm eq_refl)]. next_state Hf. split; [|cbn; lia].
    parent_to SPWait Ready cp cs (length str).
  - destruct Hc; destruct chatty; next_state Hf; try done; (split; [|cbn; lia]);
      first [parent_to SPDone Ready SCExit Gone (length str)|parent_to SPExit Ready SCExit Gone (length str)].
  - destruct chatty; [|by destruct (Hm eq_refl)]. next_state Hf. split; [|cbn; lia].
    parent_to SPExit Ready cp cs (length str).
  - destruct chatty; next_state Hf; rewrite (child_keeps _ _ _ _ _ _ Hc);
      (split; [|cbn; lia]); parent_to SPExit (Dead (Some EXIT_SUCCESS)) cp cs (length str).
  - done.
Qed.

Lemma child_steps chatty buffered pp ps cp cs n c o pe1 pr1 pe2 st' :
  parent_at str pp ps n -> child_at str (hello chatty buffered) (bye chatty buffered) cp cs n c o ->
  (chatty = false -> message_pos pp = false /\ message_pos cp = false) -> (cs = Ready -> pe2 = its_pending chatty buffered cp) ->
  fire (simple_code chatty str) capacity buffered prompt false (Run 1) (pair pp ps cp cs c o pe1 pr1 pe2) = Some st' ->
  inv chatty buffered st' /\ simple_work str st' < simple_work str (pair pp ps cp cs c o pe1 pr1 pe2).
Proof.
  intros Hp Hc Hm Hpe Hf. destruct Hc as [n|n|n c d o -> Hd|n buf c d o -> Hd Hb| | | | | |].
  - destruct chatty; next_state Hf; (split; [|cbn; lia]); [child_to SCHello Ready n|].
    eapply (after_fork _ _ _ _ _ _ _ pp ps SCRead Ready n); [done|by apply (ca_read _ _ _ _ _ [])|no_message|same_pending].
  - destruct chatty; [|by destruct (Hm eq_refl) as (_ & ?)]. next_state Hf. split; [|cbn; lia].
    rewrite (Hpe eq_refl). eapply (after_fork _ _ _ _ _ _ _ pp ps SCRead Ready n); [done| |no_message|done].
    apply (ca_read _ _ _ _ _ []); [by rewrite app_nil_r|done].
  - destruct c as [|x c].
    + destruct (existsb (same_end (0, WR)) (holding pp ps)) eqn:Hw; [destruct chatty; cbn in Hf; by rewrite Hw in Hf|].
      pose proof (parent_closed _ _ _ Hp Hw). subst n. rewrite app_nil_r, firstn_all in Hd. subst d.
      destruct chatty; cbn in Hf; rewrite Hw in Hf; next_state Hf; (split; [|cbn; lia]); child_to SCNewline Ready (length str).
    + destruct chatty; next_state Hf; (split; [|cbn; rewrite ?length_take, ?length_drop; lia]).
      * eapply (after_fork _ _ _ _ _ _ _ pp ps (SCWrite [x]) Ready n); [done| |no_message|same_pending]. by apply (ca_write _ _ _ _ _ _ d).
      * eapply (after_fork _ _ _ _ _ _ _ pp ps (SCWrite (x :: take 9 c)) Ready n); [done| |no_message|same_pending].
        apply (ca_write _ _ _ _ _ _ d); [done| |done]. cbn. by rewrite take_drop.
  - destruct buf as [|x buf]; [done|]. destruct chatty; next_state Hf; (split; [|cbn; lia]);
      (eapply (after_fork _ _ _ _ _ _ _ pp ps SCRead Ready n); [done| |no_message|same_pending]);
      (apply (ca_read _ _ _ _ _ (d ++ x :: buf)); [by rewrite <-?app_assoc|by rewrite <-?app_assoc]).
  - destruct chatty; next_state Hf; (split; [|cbn; lia]); rewrite <-?app_assoc; child_to SCCloseR Ready (length str).
  - destruct chatty; cbn in Hf; rewrite same_branch in Hf; injection Hf as <-; (split; [|cbn; lia]);
      [child_to SCBye Ready (length str)|].
    rewrite (Hpe eq_refl). eapply (after_fork _ _ _ _ _ _ _ pp ps SCExit Ready (length str)); [done|apply (ca_exit str [] [])|no_message|done].
  - destruct chatty; [|by destruct (Hm eq_refl) as (_ & ?)]. next_state Hf. split; [|cbn; lia].
    rewrite (Hpe eq_refl). eapply (after_fork _ _ _ _ _ _ _ pp ps SCExit Ready (length str)); [done| |no_message|done].
    rewrite <-!app_assoc. constructor.
  - destruct chatty; cbn in Hf; rewrite same_branch in Hf; injection Hf as <-; (split; [|cbn; lia]).
    + rewrite app_nil_r. child_to SCExit (Dead (Some EXIT_SUCCESS)) (length str).
    + rewrite (Hpe eq_refl). cbn. rewrite app_nil_r. child_to SCExit (Dead (Some EXIT_SUCCESS)) (length str).
  - done.
  - done.
Qed.

Lemma simple_step chatty buffered e st st' :
  inv chatty buffered st -> fire (simple_code chatty str) capacity buffered prompt false e st = Some st' ->
  inv chatty buffered st' /\ simple_work str st' < simple_work str st.
Proof.
  intros Hi Hf. destruct e as [i| |]; [|done|].
  - destruct Hi as [p pe pr [(-> & -> & ->)|[-> ->]]|pr|pp ps cp cs n c o pe1 pr1 pe2 Hp Hc Hm Hpe].
    + destruct i; [|done]. next_state Hf. split; [|cbn; lia]. apply before_pipe. by right.
    + destruct i; [|done]. destruct chatty; next_state Hf; (split; [apply before_fork|cbn; lia]).
    + destruct i; [|done]. destruct chatty; next_state Hf; (split; [|cbn; lia]);
        (eapply (after_fork _ _ _ _ _ _ _ SPCloseR Ready SCClose Ready 0); [constructor|constructor|by intros|done]).
    + destruct i as [|[|i]]; [by eapply parent_steps|by eapply child_steps|done].
  - exfalso. destruct Hi as [p pe pr [(-> & _ & _)|[-> _]]|pr|pp ps cp cs n c o pe1 pr1 pe2 Hp Hc Hm Hpe]; [done..|].
    destruct Hp, Hc; done.
Qed.

(** The child goes on when there is something to read or nobody left to write. *)
Lemma child_runs chatty buffered pp ps cp cs n c o pe1 pr1 pe2 :
  child_at str (hello chatty buffered) (bye chatty buffered) cp cs n c o -> cs = Ready ->
  c <> [] \/ existsb (same_end (0, WR)) (holding pp ps) = false ->
  is_Some (fire (simple_code chatty str) capacity buffered prompt false (Run 1) (pair pp ps cp cs c o pe1 pr1 pe2)).
Proof.
  intros Hc Hr Hw. destruct Hc as [| |n c d o _ _|n buf c d o _ _ _| | | | | |]; try done; destruct chatty; cbn; eauto;
    (destruct c; [destruct Hw as [Hw| ->]; [done|]; cbn; eauto|eauto]).
Qed.

(** A parent that writes goes on, or the child does. *)
Lemma parent_sends chatty buffered sg n cp cs c o pe1 pr1 pe2 :
  (sg = Ready /\ n = 0 \/ sg = Writing n) -> child_at str (hello chatty buffered) (bye chatty buffered) cp cs n c o ->
  exists e, is_Some (fire (simple_code chatty str) capacity buffered prompt false e (pair SPWrite sg cp cs c o pe1 pr1 pe2)).
Proof.
  intros Hs Hc. set (st := pair SPWrite sg cp cs c o pe1 pr1 pe2). set (p := Process SPWrite [(0, WR)] sg pe1 pr1 [] 0).
  assert (Hw : exists k fail, simple_code chatty str SPWrite = Writes 0 str false k fail) by (destruct chatty; cbn; eauto).
  destruct Hw as (k & fail & Hw).
  assert (Hrun : run_proc (simple_code chatty str) capacity buffered 0 st = calls (simple_code chatty str) capacity buffered 0 p st)
    by (by destruct Hs as [[-> _]| ->]).
  destruct (decide (n < length str)) as [Hlt|Hge].
  - assert (Hs' : stage_of p = Ready /\ n = 0 \/ stage_of p = Writing n) by exact Hs.
    assert (Hr : anyone (0, RD) st = true) by (cbn; rewrite (child_reads _ _ _ _ _ Hc Hlt); apply orb_true_r).
    destruct (calls_write (simple_code chatty str) capacity buffered 0 p st 0 str k fail n c Hw Hs' Hlt eq_refl Hr)
      as [[_ Hne]|(part & _ & _ & _ & Hr')].
    + exists (Run 1). eapply child_runs; [exact Hc| |left; by apply Hne]. destruct Hc; simpl in Hlt; (done || lia).
    + exists (Run 0). cbn [fire]. rewrite Hrun, Hr'. eauto.
  - exists (Run 0). cbn [fire]. rewrite Hrun. unfold calls. change (pc p) with SPWrite. rewrite Hw.
    replace (match stage_of p with Writing m => m | _ => 0 end) with n by (by destruct Hs as [[-> ->]| ->]).
    rewrite drop_ge by lia. cbn. eauto.
Qed.

Lemma simple_stuck chatty buffered st : inv chatty buffered st ->
  (exists e, is_Some (fire (simple_code chatty str) capacity buffered prompt false e st)) \/
  (forall e, fire (simple_code chatty str) capacity buffered prompt false e st = None) /\
    simple_done str (hello chatty buffered) (bye chatty buffered) st.
Proof.
  intros Hi. destruct Hi as [p pe pr [(-> & -> & ->)|[-> ->]]|pr|pp ps cp cs n c o pe1 pr1 pe2 Hp Hc Hm Hpe];
    [left; exists (Run 0); try destruct chatty; cbn; eauto..|].
  destruct Hp; try (left; exists (Run 0); destruct chatty; cbn; eauto; fail).
  - left. eapply parent_sends; [by left|exact Hc].
  - left. eapply parent_sends; [by right|exact Hc].
  - left. destruct (decide (cs = Ready)) as [->|Hcs].
    + exists (Run 1). eapply child_runs; [exact Hc|done|by right].
    + destruct Hc; try done; exists (Run 0); destruct chatty; cbn; eauto.
  - destruct (decide (cs = Ready)) as [->|Hcs].
    + left. exists (Run 1). eapply child_runs; [exact Hc|done|by right].
    + right. destruct Hc; try done; (split; [intros [[|[|i]]| |]; done|]); unfold simple_done; eauto 10.
Qed.

End SimplePipe.

#[local] Transparent start_44 hello_44 bye_44 stdout_put.

Lemma put_nothing t u : length (t ++ u) < STDOUT_BUF -> stdout_put true t u = (t ++ u, []).
Proof. intros Hl. unfold stdout_put. by rewrite (proj2 (Nat.ltb_lt _ _)). Qed.

(** Messages that fit in the buffer stay there. *)
Lemma messages_fit str : length (start_44 str ++ hello_44 ++ bye_44) < STDOUT_BUF ->
  (put_hello true str).2 = [] /\ (put_bye true str).2 = [].
Proof.
  rewrite !length_app. intros Hl. assert (Hi : inherited_44 true str = start_44 str).
  { unfold inherited_44. rewrite put_nothing by (cbn [app]; lia). done. }
  unfold put_bye, put_hello. rewrite Hi. rewrite (put_nothing (start_44 str)) by (rewrite length_app; lia). cbn [fst snd].
  by rewrite put_nothing by (rewrite !length_app; lia).
Qed.



(** With a string of nearly the length of the buffer the child writes what the
    parent had said: it comes out twice. *)
Example long_string_twice :
  let str := replicate 4000 "x"%char in
  (put_hello true str).2 = take STDOUT_BUF (start_44 str ++ hello_44) /\ (length (start_44 str) <? STDOUT_BUF) = true.
Proof. by vm_compute. Qed.
