(* ===== verification/PipeSync.v ===== *)
(** pipes/pipe_sync.c (src/tlpi-dist) and chapter44/pipe_sync.c: a parent that
    learns from the end of a pipe that all its children have done their work, as
    programs of PipeOS. In the program of tlpi-dist standard output is unbuffered;
    the time of day and process ids are left out of the messages. *)
From Stdlib Require Import ZArith Lia Ascii String.
From stdpp Require Import base tactics list strings.
From S2P Require Import Prelude CString Process NumArgs Transitions PipeOS.

(** ** pipes/pipe_sync.c *)

Section Seconds.
Context `{ErrnoText}.
(** What getInt makes of a sleep time; [None] when it ends the child. *)
Definition seconds (arg : cstr) : option nat :=
  match getInt (Some arg) GN_NONNEG (Some (lit "sleep-time")) (Proc tt 0%Z None [] [] []) with
  | Ret n _ => Some (Z.to_nat n)
  | _ => None
  end.
End Seconds.

(** The parent with the arguments it has still to make a child for; child [j]
    with its argument. *)
Inductive ypos :=
| YUsage | YErr (msg : cstr) | YBad
| YStart (args : list cstr) | YPipe (args : list cstr) | YFork (j : nat) (args : list cstr)
| YClose | YRead | YReady | YExit
| YC (j : nat) (arg : cstr) | YCWork (j : nat) (arg : cstr) | YCBadArg | YCPrint (j : nat) | YCClose | YCExit.

Definition pipe_sync_start (argv : list cstr) : ypos :=
  match argv with
  | _ :: arg :: args => if bool_decide (arg = lit "--help") then YUsage else YStart (arg :: args)
  | _ => YUsage
  end.

Section PipeSync.
Context `{ErrnoText}.

Definition pipe_sync (p : ypos) : act ypos :=
  match p with
  | YUsage => Reports (lit "Usage: pipe_sync sleep-time...") YBad
  | YErr msg => Reports msg YBad
  | YBad => Exits EXIT_FAILURE
  | YStart args => Prints (lit "  Parent started" ++ [NEWLINE]) (YPipe args)
  | YPipe args => Pipes (YFork 1 args) (YErr (lit "pipe"))
  | YFork j [] => Goes YClose
  | YFork j (arg :: args) =>
      Forks (YC j arg) (fun _ => YFork (S j) args) (YErr (lit "fork " ++ show_Z (Z.of_nat j)))
  (* child j *)
  | YC j arg => Closes (0, RD) (YCWork j arg) (YErr (lit "close"))
  | YCWork j arg => match seconds arg with Some n => Sleeps n (YCPrint j) | None => Goes YCBadArg end
  | YCBadArg => Reports (lit "sleep-time") YBad
  | YCPrint j => Prints (lit "  Child " ++ show_Z (Z.of_nat j) ++ lit " closing pipe" ++ [NEWLINE]) YCClose
  | YCClose => Closes (0, WR) YCExit (YErr (lit "close"))
  | YCExit => UExits EXIT_SUCCESS
  (* the parent *)
  | YClose => Closes (0, WR) YRead (YErr (lit "close"))
  | YRead => Reads 0 1 false (fun s => match s with [] => YReady | _ => YErr (lit "parent didn't get EOF") end)
               (YErr (lit "parent didn't get EOF")) (YErr (lit "parent didn't get EOF"))
  | YReady => Prints (lit "  Parent ready to go" ++ [NEWLINE]) YExit
  | YExit => Exits EXIT_SUCCESS
  end.

(** ** The parent goes on when the children have done their work *)

Definition alive (p : process ypos) : bool := match stage_of p with Dead _ | Gone => false | _ => true end.

Definition past_read (c : ypos) : bool := match c with YReady | YExit => true | _ => false end.

(** Who must have the write end: the parent until it closes it, and a child
    until it has done its work or ends. *)
Definition must_hold (i : nat) (p : process ypos) : bool :=
  alive p && match pc p with
             | YFork _ _ | YClose => true
             | YStart _ | YPipe _ | YRead | YReady | YExit | YCExit => false
             | _ => negb (i =? 0)%nat
             end.

Definition in_parent (c : ypos) : bool :=
  match c with YStart _ | YPipe _ | YFork _ _ | YClose | YRead | YReady | YExit => true | _ => false end.
Definition in_child (c : ypos) : bool :=
  match c with YC _ _ | YCWork _ _ | YCPrint _ | YCClose | YCExit => true | _ => false end.

Abbreviation has_wr := (existsb (same_end (0, WR))).

Record good (i : nat) (p : process ypos) : Prop := {
  g_role : (if (i =? 0)%nat then in_child (pc p) else in_parent (pc p)) = false;
  g_held : must_hold i p = true -> has_wr (held p) = true
}.

Record sync_inv (st : system ypos) : Prop := {
  si_good i p : procs st !! i = Some p -> good i p;
  si_read p : procs st !! 0 = Some p -> past_read (pc p) = true -> anyone (0, WR) st = false;
  si_pipe p : procs st !! 0 = Some p -> match pc p with YStart _ | YPipe _ => objects st = [] /\ length (procs st) = 1 | _ => True end
}.

Lemma anyone_lookup (e : pend) (st : system ypos) :
  anyone e st = false <-> forall i p, procs st !! i = Some p -> existsb (same_end e) (held p) = false.
Proof.
  unfold anyone, holds_end. split.
  - intros Ha i p Hi. destruct (existsb (same_end e) (held p)) eqn:He; [|done].
    assert (existsb (fun p => existsb (same_end e) (held p)) (procs st) = true); [|congruence].
    apply existsb_exists. exists p. split; [|done]. apply list_elem_of_In. by eapply list_elem_of_lookup_2.
  - intros Hn. destruct (existsb _ (procs st)) eqn:He; [|done]. apply existsb_exists in He as (p & Hp & He).
    apply list_elem_of_In, list_elem_of_lookup in Hp as [i Hi]. by rewrite (Hn i p Hi) in He.
Qed.

(** A process that goes on by itself. *)
Lemma sync_inv_set st st' i p q :
  sync_inv st -> procs st !! i = Some p -> procs st' = <[i := q]> (procs st) -> good i q ->
  (has_wr (held q) = true -> has_wr (held p) = true) ->
  (i = 0 -> past_read (pc q) = true -> past_read (pc p) = true \/ anyone (0, WR) st = false) ->
  match pc q with YStart _ | YPipe _ => objects st' = [] /\ length (procs st) = 1 | _ => True end ->
  sync_inv st'.
Proof.
  intros [Hg Hr Hp] Hi Hs Hq Hh Hpast Hpipe. split.
  - intros k x. rewrite Hs. intros Hk. destruct (lookup_insert_cases _ _ _ _ _ _ Hi Hk) as [[-> ->]|[_ Hk']]; [done|by apply Hg].
  - intros x Hx Hpx. assert (Hany : anyone (0, WR) st = false).
    { rewrite Hs in Hx. destruct (lookup_insert_cases _ _ _ _ _ _ Hi Hx) as [[<- ->]|[_ Hk']]; [|by eapply Hr].
      destruct (Hpast eq_refl Hpx) as [H0|]; [|done]. by eapply Hr. }
    rewrite anyone_lookup in Hany |- *. intros k y. rewrite Hs. intros Hk.
    destruct (lookup_insert_cases _ _ _ _ _ _ Hi Hk) as [[-> ->]|[_ Hk']]; [|by eapply Hany].
    destruct (has_wr (held q)) eqn:He; [|done]. specialize (Hh eq_refl). by rewrite (Hany _ _ Hi) in Hh.
  - intros x. rewrite Hs, length_insert. intros Hx.
    destruct (lookup_insert_cases _ _ _ _ _ _ Hi Hx) as [[<- ->]|[Hne Hk']]; [by destruct (pc q)|].
    specialize (Hp _ Hk'). apply lookup_lt_Some in Hi. destruct (pc x); try done; destruct Hp; lia.
Qed.

Lemma has_wr_filter f l : has_wr (List.filter f l) = true -> has_wr l = true.
Proof. rewrite !existsb_exists. intros (e & [Hin _]%filter_In & He). eauto. Qed.

Lemma has_wr_close_r l : has_wr (List.filter (fun e => negb (same_end (0, RD) e)) l) = has_wr l.
Proof.
  induction l as [|[o m] l IH]; [done|]. cbn. destruct o, m; cbn; by rewrite ?IH.
Qed.

Lemma has_wr_close_w l : has_wr (List.filter (fun e => negb (same_end (0, WR) e)) l) = false.
Proof.
  induction l as [|[o m] l IH]; [done|]. cbn. destruct o, m; cbn; by rewrite ?IH.
Qed.

Context (capacity : nat) (prompt failing : bool).
Abbreviation sfire := (fire pipe_sync capacity false prompt failing).

Lemma sync_inv_pipe st p args : objects st = [] /\ length (procs st) = 1 -> procs st !! 0 = Some p ->
  good 0 p -> sync_inv (set_objects (objects st ++ [[]]) (set_proc 0
    (with_held (held p ++ [(length (objects st), RD); (length (objects st), WR)]) (at_pc (YFork 1 args) p)) st)).
Proof.
  intros [-> Hl] Hp [Hr _]. destruct (procs st) as [|p' [|]] eqn:Hps; try done. injection Hp as ->. split; cbn; rewrite Hps; cbn.
  - intros [|i] q Hq; simplify_eq/=. split; [done|]. intros _. cbn. rewrite existsb_app. cbn. apply orb_true_r.
  - by intros q [= <-].
  - by intros q [= <-].
Qed.

Lemma sync_inv_fork st p j arg args : sync_inv st -> procs st !! 0 = Some p -> match pc p with YFork _ _ => True | _ => False end ->
  has_wr (held p) = true ->
  sync_inv (set_procs (<[0 := at_pc (YFork (S j) args) p]> (procs st) ++ [Process (YC j arg) (held p) Ready (pending p) [] [] 0]) st).
Proof.
  intros Hi Hp Hpc Hw. split; cbn.
  - intros i q [Hq|[Hge Hq]]%lookup_app_Some.
    + destruct (lookup_insert_cases _ _ _ _ _ _ Hp Hq) as [[-> ->]|[_ Hq']]; [|by apply Hi]. by split.
    + apply list_lookup_singleton_Some in Hq as [Hn <-]. rewrite length_insert in Hge.
      assert (i <> 0) by (apply lookup_lt_Some in Hp; lia). split; [by destruct i|done].
  - intros q Hq. rewrite lookup_app_l in Hq by (rewrite length_insert; by eapply lookup_lt_Some).
    rewrite list_lookup_insert_eq in Hq by by eapply lookup_lt_Some. by injection Hq as <-.
  - intros q Hq. rewrite lookup_app_l in Hq by (rewrite length_insert; by eapply lookup_lt_Some).
    rewrite list_lookup_insert_eq in Hq by by eapply lookup_lt_Some. by injection Hq as <-.
Qed.

Lemma sync_inv_calls i p st st' : sync_inv st -> procs st !! i = Some p -> (stage_of p = Ready \/ exists n, stage_of p = Writing n) ->
  calls pipe_sync capacity false i p st = Some st' -> sync_inv st'.
Proof.
  intros Hi Hp Hs Hf. pose proof (si_good _ Hi i p Hp) as [Hrole Hheld].
  assert (Hal : alive p = true) by (unfold alive; destruct Hs as [->|[n ->]]; done).
  unfold must_hold in Hheld. rewrite Hal in Hheld.
  assert (Hz : (i =? 0)%nat = false \/ i = 0) by (destruct i; auto).
  assert (Hset : forall q st', st' = set_proc i q st -> good i q -> (has_wr (held q) = true -> has_wr (held p) = true) ->
    (i = 0 -> past_read (pc q) = true -> past_read (pc p) = true \/ anyone (0, WR) st = false) ->
    match pc q with YStart _ | YPipe _ => objects st' = [] /\ length (procs st) = 1 | _ => True end -> sync_inv st')
    by (intros q s' -> ????; by eapply sync_inv_set).
  assert (Hclose : forall q st', st' = settle (set_proc i q st) -> good i q -> (has_wr (held q) = true -> has_wr (held p) = true) ->
    past_read (pc q) = false -> match pc q with YStart _ | YPipe _ => False | _ => True end -> sync_inv st').
  { intros q s' -> ?? Hpr Hpc. eapply sync_inv_set; [exact Hi|exact Hp|reflexivity|done|done|by rewrite Hpr|by destruct (pc q)]. }
  assert (Hend : forall how fl st', st' = ends i p how fl st -> past_read (pc p) = false \/ i = 0 /\ past_read (pc p) = true ->
    match pc p with YStart _ | YPipe _ => False | _ => True end -> sync_inv st').
  { intros how fl s' -> Hpr Hpc. eapply sync_inv_set; [exact Hi|exact Hp|reflexivity|split; [done|by cbn]|done|cbn; naive_solver|].
    cbn. by destruct (pc p). }
  assert (Hchild : in_child (pc p) = true -> i <> 0) by (intros Hc ->; cbn in Hrole; congruence).
  assert (Hpar : in_parent (pc p) = true -> i = 0) by (intros Hc; destruct i; [done|cbn in Hrole; congruence]).
  unfold calls in Hf. destruct (pc p) as [|msg| |args|args|j args| | | | |j arg|j arg| |j| |] eqn:Hpc; cbn [pipe_sync] in Hf.
  - apply (inj Some) in Hf as <-. eapply Hset; [reflexivity|split|..]; by cbn; rewrite ?Hpc.
  - apply (inj Some) in Hf as <-. eapply Hset; [reflexivity|split|..]; by cbn; rewrite ?Hpc.
  - apply (inj Some) in Hf as <-. eapply Hend; [reflexivity|by left|done].
  - apply (inj Some) in Hf as <-. pose proof (Hpar eq_refl) as ->. pose proof (si_pipe _ Hi p Hp) as Hobj. rewrite Hpc in Hobj.
    eapply Hset; [reflexivity|split|..]; by cbn.
  - apply (inj Some) in Hf as <-. pose proof (Hpar eq_refl) as ->. pose proof (si_pipe _ Hi p Hp) as Hobj. rewrite Hpc in Hobj.
    apply sync_inv_pipe; [done|done|by apply (si_good _ Hi)].
  - pose proof (Hpar eq_refl) as ->. destruct args as [|arg args]; apply (inj Some) in Hf as <-.
    + eapply Hset; [reflexivity|split; [done|]|..]; cbn; rewrite ?Hpc; try done.
    + apply sync_inv_fork; [done|done|by rewrite Hpc|by apply Hheld].
  - apply (inj Some) in Hf as <-. eapply Hclose; [reflexivity|split|..]; cbn; try done. by apply has_wr_filter.
  - pose proof (Hpar eq_refl) as ->. destruct (objects st !! 0) as [[|c content]|]; [| |done].
    + destruct (anyone (0, WR) st) eqn:Ha; [done|]. apply (inj Some) in Hf as <-.
      eapply Hset; [reflexivity|split|..]; cbn; try done. by right.
    + apply (inj Some) in Hf as <-. eapply sync_inv_set; [exact Hi|exact Hp|reflexivity|split|..]; cbn; rewrite ?same_branch; done.
  - apply (inj Some) in Hf as <-. pose proof (Hpar eq_refl) as ->. eapply Hset; [reflexivity|split|..]; cbn; try done. by left.
  - apply (inj Some) in Hf as <-. eapply Hend; [reflexivity|right; split; [by apply Hpar|done]|done].
  - apply (inj Some) in Hf as <-. eapply Hclose; [reflexivity|split|..]; cbn; rewrite ?has_wr_close_r; done.
  - destruct (seconds arg); apply (inj Some) in Hf as <-; (eapply Hset; [reflexivity|split|..]); cbn; rewrite ?Hpc, ?same_branch; done.
  - apply (inj Some) in Hf as <-. eapply Hset; [reflexivity|split|..]; cbn; rewrite ?Hpc, ?same_branch; done.
  - apply (inj Some) in Hf as <-. eapply Hset; [reflexivity|split|..]; cbn; try done.
  - apply (inj Some) in Hf as <-. eapply Hclose; [reflexivity|split|..]; cbn; rewrite ?has_wr_close_w; done.
  - apply (inj Some) in Hf as <-. eapply Hend; [reflexivity|by left|done].
Qed.

Lemma sync_inv_fire e st st' : sync_inv st -> sfire e st = Some st' -> sync_inv st'.
Proof.
  intros Hi Hf. destruct e as [i|i|]; cbn [fire] in Hf.
  - unfold run_proc in Hf. destruct (procs st !! i) as [p|] eqn:Hp; [|done].
    destruct (stage_of p) as [| |n|[|n]|how|] eqn:Hs; try done.
    + eapply sync_inv_calls; eauto.
    + eapply sync_inv_calls; eauto.
    + pose proof (si_good _ Hi i p Hp) as [Hrole _]. destruct (pc p) eqn:Hpc; cbn [pipe_sync] in Hf; try done; try (by destruct args).
      destruct (seconds arg); [|done]. apply (inj Some) in Hf as <-.
      eapply sync_inv_set; [exact Hi|exact Hp|reflexivity|split|..]; cbn; try done.
      intros _. apply (g_held _ _ (si_good _ Hi i p Hp)). unfold must_hold, alive. rewrite Hs, Hpc. cbn. by destruct i.
  - destruct failing; [|done]. unfold fail_proc in Hf. destruct (procs st !! i) as [p|] eqn:Hp; [|done].
    destruct (stage_of p) eqn:Hs; try done. destruct (fail_pc pipe_sync (pc p)) as [c|] eqn:Hfail; [|done]. apply (inj Some) in Hf as <-.
    assert (Hw : negb (i =? 0)%nat = true -> has_wr (held p) = true).
    { intros Hne. destruct (si_good _ Hi i p Hp) as [Hrole Hheld]. apply Hheld. unfold must_hold, alive. rewrite Hs.
      apply negb_true_iff in Hne. rewrite Hne in Hrole |- *. by destruct (pc p). }
    assert (Hc : exists msg, c = YErr msg).
    { unfold fail_pc in Hfail. destruct (pc p); cbn in Hfail; try done; try (injection Hfail as <-; eauto);
        [destruct args; [done|injection Hfail as <-; eauto]|by destruct (seconds arg)]. }
    destruct Hc as [msg ->]. eapply sync_inv_set; [exact Hi|exact Hp|reflexivity|split|..]; cbn; rewrite ?same_branch; done.
  - unfold tick in Hf. destruct (_ && _); [|done]. apply (inj Some) in Hf as <-.
    assert (Hsame : forall p : process ypos, pc (second_less p) = pc p /\ held (second_less p) = held p /\ alive (second_less p) = alive p).
    { intros [c h s pe pr er par]. unfold second_less, alive. cbn. by destruct s as [| | |[|]| |]. }
    destruct Hi as [Hg Hr Hpp]. split; cbn; rewrite ?list_lookup_fmap, ?length_fmap.
    + intros i q. rewrite list_lookup_fmap. destruct (procs st !! i) as [p|] eqn:Hp; [|done]. intros [= <-].
      destruct (Hsame p) as (H1 & H2 & H3), (Hg i p Hp) as [Ha Hb]. split; [by rewrite H1|].
      unfold must_hold. by rewrite H1, H2, H3.
    + intros q. destruct (procs st !! 0) as [p|] eqn:Hp; [|done]. intros [= <-]. destruct (Hsame p) as (-> & _ & _).
      intros Hpr. pose proof (Hr p eq_refl Hpr) as Ha. change (anyone (0, WR) (set_procs (second_less <$> procs st) st) = false).
      rewrite anyone_lookup in Ha |- *. cbn. intros i q. rewrite list_lookup_fmap. destruct (procs st !! i) as [x|] eqn:Hx; [|done].
      intros [= <-]. destruct (Hsame x) as (_ & -> & _). by eapply Ha.
    + intros q. destruct (procs st !! 0) as [p|] eqn:Hp; [|done]. intros [= <-]. destruct (Hsame p) as (-> & _ & _).
      by apply Hpp.
Qed.

(** ** What the children do *)

Definition child_line (j : nat) : cstr := lit "  Child " ++ show_Z (Z.of_nat j) ++ lit " closing pipe" ++ [NEWLINE].

Section Track.
(** The arguments; child [S i] has argument [i]. *)
Context (args0 : list cstr).

(** A process ends by the calls that its program ends with. *)
Definition ended_ok (p : process ypos) : Prop :=
  match stage_of p with
  | Dead how => how = Some EXIT_SUCCESS /\ pc p = YCExit \/ how = Some EXIT_FAILURE /\ pc p = YBad
  | Gone => False
  | _ => True
  end.

(** A child gives up only when a call fails or its argument is no number. *)
Definition may_fail (arg : cstr) : Prop := failing = true \/ seconds arg = None.

Definition child_track (i : nat) (p : process ypos) : Prop :=
  ended_ok p /\ exists arg, args0 !! i = Some arg /\
  match pc p with
  | YC j a | YCWork j a => j = S i /\ a = arg /\ printed p = []
  | YCPrint j => j = S i /\ printed p = []
  | YCClose | YCExit => printed p = child_line (S i)
  | YErr _ | YBad | YCBadArg => may_fail arg
  | _ => False
  end.

(** With [n] processes. *)
Definition parent_track (n : nat) (p : process ypos) : Prop :=
  match pc p with
  | YStart args | YPipe args => args = args0 /\ n = 1
  | YFork j args => j = n /\ args = drop (n - 1) args0 /\ 1 <= n <= S (length args0)
  | YClose | YRead | YReady | YExit => n = S (length args0)
  | YUsage | YErr _ | YBad => True
  | _ => False
  end.

Record track (st : system ypos) : Prop := {
  tr_parent p : procs st !! 0 = Some p -> parent_track (length (procs st)) p;
  tr_child i p : procs st !! S i = Some p -> child_track i p
}.

Lemma track_set st st' i p q : track st -> procs st !! i = Some p -> procs st' = <[i := q]> (procs st) ->
  match i with 0 => parent_track (length (procs st)) q | S i => child_track i q end -> track st'.
Proof.
  intros [Ht Hc] Hi Hs Hq. split; [intros x; rewrite Hs, length_insert; intros Hx|intros k x; rewrite Hs; intros Hx];
    destruct (lookup_insert_cases _ _ _ _ _ _ Hi Hx) as [[<- ->]|[_ Hx']]; auto.
Qed.

Lemma track_fork st p j arg args : track st -> procs st !! 0 = Some p -> pc p = YFork j (arg :: args) ->
  track (set_procs (<[0 := at_pc (YFork (S j) args) p]> (procs st) ++ [Process (YC j arg) (held p) Ready (pending p) [] [] 0]) st).
Proof.
  intros [Ht Hc] Hp Hpc. pose proof (Ht p Hp) as Hpar. unfold parent_track in Hpar. rewrite Hpc in Hpar.
  destruct Hpar as (-> & Hargs & Hn). assert (Harg : args0 !! (length (procs st) - 1) = Some arg).
  { rewrite <-(Nat.add_0_r (_ - 1)), <-lookup_drop, <-Hargs. done. }
  split; cbn; rewrite ?length_app, ?length_insert.
  - intros q. rewrite lookup_app_l by (rewrite length_insert; lia). rewrite list_lookup_insert_eq by lia. intros [= <-].
    unfold parent_track. cbn. split; [lia|]. apply lookup_lt_Some in Harg as Hlt. split; [|lia].
    rewrite (drop_S args0 arg (length (procs st) - 1)) in Hargs by done. injection Hargs as ->. f_equal. lia.
  - intros i q [Hq|[Hge Hq]]%lookup_app_Some; [rewrite list_lookup_insert_ne in Hq by done; by apply Hc|]. rewrite length_insert in Hge, Hq.
    apply list_lookup_singleton_Some in Hq as [Hz <-]. split; [done|]. exists arg. cbn.
    replace (length (procs st) - 1) with i in Harg by lia. split_and!; (done || lia).
Qed.

Lemma track_calls i p st st' : sync_inv st -> track st -> procs st !! i = Some p -> alive p = true ->
  calls pipe_sync capacity false i p st = Some st' -> track st'.
Proof.
  intros Hi Ht Hp Hal Hf. pose proof (si_good _ Hi i p Hp) as [Hrole _].
  assert (Hset : forall q st', procs st' = <[i := q]> (procs st) ->
    match i with 0 => parent_track (length (procs st)) q | S i => child_track i q end -> track st')
    by (intros; by eapply track_set).
  unfold calls in Hf. destruct i as [|i]; cbn [Nat.eqb] in Hrole.
  - pose proof (tr_parent _ Ht p Hp) as Hpar. unfold parent_track in Hpar.
    destruct (pc p) as [|msg| |args|args|j args| | | | |j arg|j arg| |j| |] eqn:Hpc; try done; cbn [pipe_sync] in Hf;
      [| | | | |destruct args as [|arg args]| |destruct (objects st !! 0) as [[|c content]|]; [destruct (anyone (0, WR) st)| |]| |]; try done;
      apply (inj Some) in Hf as <-.
    6: { eapply Hset; [reflexivity|]. unfold parent_track. cbn. destruct Hpar as (_ & Hd & Hn).
         apply (f_equal length) in Hd. rewrite length_drop in Hd. simpl in Hd. lia. }
    6: by apply track_fork.
    all: (eapply Hset; [reflexivity|]); unfold parent_track; cbn; rewrite ?Hpc; try done; rewrite ?same_branch; cbn; try done.
    destruct Hpar as [-> ->]. split; [done|]. split; [done|lia].
  - pose proof (tr_child _ Ht i p Hp) as [Hend (arg0 & Harg & Hpc')]. unfold ended_ok in Hend.
    destruct (pc p) as [|msg| |args|args|j args| | | | |j arg|j arg| |j| |] eqn:Hpc; try done; cbn [pipe_sync] in Hf;
      [| | |destruct (seconds arg) eqn:Hsec| | | |]; apply (inj Some) in Hf as <-;
      (eapply Hset; [reflexivity|]); unfold child_track, ended_ok, alive in *; cbn; rewrite ?Hpc, ?same_branch; cbn;
      (split; [first [done|by left|by right|by destruct (stage_of p)]|exists arg0; split; [done|]]).
    all: try done.
    + destruct Hpc' as (_ & -> & _). by right.
    + by destruct Hpc' as [-> ->].
    + by rewrite app_nil_r.
Qed.

(** A process that a call has failed for. *)
Lemma fail_pc_YErr (c d : ypos) : fail_pc pipe_sync c = Some d -> exists msg, d = YErr msg.
Proof.
  unfold fail_pc. intros Hfail. destruct c as [| | | | |j [|arg args]| | | | | |j arg| | | |]; cbn in Hfail; try done; try (injection Hfail as <-; eauto).
  by destruct (seconds arg).
Qed.

Lemma track_fire e st st' : sync_inv st -> track st -> sfire e st = Some st' -> track st'.
Proof.
  intros Hi Ht Hf. destruct e as [i|i|]; cbn [fire] in Hf.
  - unfold run_proc in Hf. destruct (procs st !! i) as [p|] eqn:Hp; [|done].
    destruct (stage_of p) as [| |n|[|n]|how|] eqn:Hs; try done; try (eapply track_calls; eauto; unfold alive; by rewrite Hs).
    destruct (pc p) eqn:Hpc; cbn [pipe_sync] in Hf; try done; try (by destruct args).
    destruct (seconds arg); [|done]. apply (inj Some) in Hf as <-. eapply track_set; [done|exact Hp|reflexivity|].
    destruct i as [|i]; [pose proof (tr_parent _ Ht p Hp) as Hpar; unfold parent_track in Hpar; by rewrite Hpc in Hpar|].
    destruct (tr_child _ Ht i p Hp) as [_ (a & Ha & Hpc')]. rewrite Hpc in Hpc'. split; [done|]. exists a. cbn. tauto.
  - destruct failing eqn:Hfl; [|done]. unfold fail_proc in Hf. destruct (procs st !! i) as [p|] eqn:Hp; [|done].
    destruct (stage_of p); try done. destruct (fail_pc pipe_sync (pc p)) as [c|] eqn:Hfail; [|done]. apply (inj Some) in Hf as <-.
    apply fail_pc_YErr in Hfail as [msg ->]. eapply track_set; [done|exact Hp|reflexivity|].
    destruct i as [|i]; [done|]. destruct (tr_child _ Ht i p Hp) as [_ (a & Ha & _)]. split; [done|]. exists a. split; [done|]. by left.
  - unfold tick in Hf. destruct (_ && _); [|done]. apply (inj Some) in Hf as <-. destruct Ht as [Hpar Hch].
    assert (Hsame : forall p : process ypos, pc (second_less p) = pc p /\ printed (second_less p) = printed p /\
      (ended_ok p -> ended_ok (second_less p))).
    { intros [c h s pe pr er par]. unfold second_less, ended_ok. cbn. by destruct s as [| | |[|]| |]. }
    split; cbn; rewrite ?length_fmap.
    + intros q. rewrite list_lookup_fmap. destruct (procs st !! 0) as [p|] eqn:Hp; [|done]. intros [= <-].
      unfold parent_track. destruct (Hsame p) as (-> & _ & _). by apply Hpar.
    + intros i q. rewrite list_lookup_fmap. destruct (procs st !! S i) as [p|] eqn:Hp; [|done]. intros [= <-].
      destruct (Hch i p Hp) as [He Ha]. unfold child_track. destruct (Hsame p) as (-> & -> & Hok). auto.
Qed.
End Track.

Lemma track_start args : track args (boot (YStart args) [] []).
Proof. split; cbn; [|done]. intros p [= <-]. done. Qed.

(** A child [i] that has done its work: it has said so and closed its end. *)
Definition worked (i : nat) (p : process ypos) : Prop := pc p = YCExit /\ printed p = child_line i.
Definition failed (p : process ypos) : Prop := stage_of p = Dead (Some EXIT_FAILURE).

Lemma past_read_children args st p i q : sync_inv st -> track args st -> procs st !! 0 = Some p ->
  past_read (pc p) = true -> procs st !! S i = Some q ->
  exists arg, args !! i = Some arg /\ (worked (S i) q \/ failed q /\ may_fail arg).
Proof.
  intros Hi Ht Hp Hpast Hq. destruct (tr_child _ _ Ht i q Hq) as [Hend (arg & Harg & Hpc)]. exists arg. split; [done|].
  pose proof (si_read _ Hi p Hp Hpast) as Ha. rewrite anyone_lookup in Ha. specialize (Ha _ _ Hq).
  destruct (must_hold (S i) q) eqn:Hm; [pose proof (g_held _ _ (si_good _ Hi _ q Hq) Hm); congruence|].
  unfold must_hold, alive in Hm. unfold ended_ok in Hend. unfold worked, failed.
  destruct (stage_of q) eqn:Hs; destruct (pc q) eqn:Hpcq; cbn in Hm; try done; try (by left); naive_solver.
Qed.

(** ** Every child ends, and the parent goes on *)

Definition child_cost (arg : cstr) : nat := 9 + default 0 (seconds arg).
Definition cost (args : list cstr) : nat := list_sum ((fun arg => S (child_cost arg)) <$> args).

Definition sync_rank (p : process ypos) : nat :=
  match stage_of p with
  | Dead _ | Gone => 0
  | Asleep n => 5 + n
  | _ =>
      match pc p with
      | YUsage => 3 | YErr _ => 2 | YBad => 1
      | YStart args => 10 + cost args | YPipe args => 9 + cost args | YFork _ args => 8 + cost args
      | YClose => 7 | YRead => 6 | YReady => 5 | YExit => 4
      | YC _ arg => child_cost arg | YCWork _ arg => 8 + default 0 (seconds arg) | YCBadArg => 3
      | YCPrint _ => 4 | YCClose => 3 | YCExit => 2
      end
  end.

Definition sync_work (st : system ypos) : Z := sumZ (fun p => Z.of_nat (sync_rank p)) (procs st).

(** Where a process can be when no call fails: the parent before its end or
    there; a child the same, asleep or ended. *)
Definition parent_ok (p : process ypos) : Prop :=
  in_parent (pc p) = true /\ parent p = 0 /\
  (stage_of p = Ready \/ stage_of p = Dead (Some EXIT_SUCCESS) /\ pc p = YExit) /\
  (match pc p with YRead => has_wr (held p) = false | _ => True end).
Definition child_ok (p : process ypos) : Prop :=
  in_parent (pc p) = false /\
  (stage_of p = Ready \/ (exists n j arg, stage_of p = Asleep n /\ pc p = YCWork j arg /\ is_Some (seconds arg)) \/
   (exists k, stage_of p = Dead (Some k)) /\ held p = []).

Record sync_live (st : system ypos) : Prop := {
  sl_parent : exists p, procs st !! 0 = Some p /\ parent_ok p;
  sl_children i p : i <> 0 -> procs st !! i = Some p -> child_ok p;
  sl_objects : objects st = [] \/ objects st = [[]];
  sl_read p : procs st !! 0 = Some p -> match pc p with YFork _ _ | YClose | YRead => objects st = [[]] | _ => True end
}.

Lemma settled_objects i q (st : system ypos) : objects st = [] \/ objects st = [[]] ->
  objects (settle (set_proc i q st)) = objects st.
Proof. intros [Ho|Ho]; cbn; rewrite Ho; [done|]. cbn. by rewrite same_branch. Qed.

Lemma sync_live_set st st' i p q :
  sync_live st -> procs st !! i = Some p -> procs st' = <[i := q]> (procs st) -> objects st' = objects st ->
  (i = 0 -> parent_ok q /\ match pc q with YFork _ _ | YClose | YRead => objects st = [[]] | _ => True end) -> (i <> 0 -> child_ok q) ->
  sync_rank q < sync_rank p ->
  sync_live st' /\ (sync_work st' < sync_work st)%Z.
Proof.
  intros [Hpar Hch Ho Hr] Hi Hs Hob Hq0 Hq Hrank. assert (Hlt := lookup_lt_Some _ _ _ Hi). split.
  - destruct (decide (i = 0)) as [->|Hne].
    + destruct (Hq0 eq_refl) as [Hok Hread]. split; rewrite ?Hs, ?Hob; try done.
      * exists q. split; [by apply list_lookup_insert_eq|done].
      * intros k x Hk. rewrite list_lookup_insert_ne by done. by apply Hch.
      * intros x. rewrite list_lookup_insert_eq by done. intros [= <-]. by destruct (pc q).
    + split; rewrite ?Hs, ?Hob; try done.
      * by rewrite list_lookup_insert_ne by done.
      * intros k x Hk Hx. destruct (lookup_insert_cases _ _ _ _ _ _ Hi Hx) as [[-> ->]|[_ Hx']]; [by apply Hq|by eapply Hch].
      * intros x. rewrite list_lookup_insert_ne by done. apply Hr.
  - unfold sync_work. rewrite Hs, (sumZ_insert _ _ _ _ _ Hi). lia.
Qed.

Lemma sync_live_pipe st p args : sync_live st -> objects st = [] /\ length (procs st) = 1 -> procs st !! 0 = Some p ->
  stage_of p = Ready -> pc p = YPipe args -> parent_ok p ->
  let st' := set_objects (objects st ++ [[]]) (set_proc 0
    (with_held (held p ++ [(length (objects st), RD); (length (objects st), WR)]) (at_pc (YFork 1 args) p)) st) in
  sync_live st' /\ (sync_work st' < sync_work st)%Z.
Proof.
  intros _ [-> Hl] Hp Hs Hpc (_ & Hpa & _). destruct (procs st) as [|p' [|]] eqn:Hps; try done. injection Hp as ->. split.
  - split; cbn; rewrite ?Hps; cbn; try by right.
    + eexists. split; [reflexivity|]. split_and!; try done. by left.
    + intros [|i] q Hi Hq; [done|by simplify_eq/=].
    + by intros q [= <-].
  - unfold sync_work. cbn. rewrite Hps. cbn. unfold sync_rank. rewrite Hs, Hpc. cbn. lia.
Qed.

Lemma sync_live_fork st p arg j args : sync_live st -> procs st !! 0 = Some p -> stage_of p = Ready ->
  pc p = YFork j (arg :: args) -> parent_ok p ->
  let st' := set_procs (<[0 := at_pc (YFork (S j) args) p]> (procs st)
                          ++ [Process (YC j arg) (held p) Ready (pending p) [] [] 0]) st in
  sync_live st' /\ (sync_work st' < sync_work st)%Z.
Proof.
  intros [_ Hch Ho Hr] Hp Hs Hpc (_ & Hpa & _). assert (Hlt := lookup_lt_Some _ _ _ Hp). split.
  - split; cbn; try done.
    + eexists. split; [rewrite lookup_app_l by (by rewrite length_insert); by apply list_lookup_insert_eq|].
      split_and!; try done. by left.
    + intros i q Hi [Hq|[Hge Hq]]%lookup_app_Some.
      * rewrite list_lookup_insert_ne in Hq by done. by eapply Hch.
      * apply list_lookup_singleton_Some in Hq as [_ <-]. split; [done|by left].
    + intros q. rewrite lookup_app_l by (by rewrite length_insert). rewrite list_lookup_insert_eq by done. intros [= <-]. cbn.
      specialize (Hr p Hp). by rewrite Hpc in Hr.
  - unfold sync_work. cbn [procs set_procs]. rewrite sumZ_app, (sumZ_insert _ _ _ _ _ Hp).
    assert (sync_rank p = 8 + cost (arg :: args)) as -> by (unfold sync_rank; by rewrite Hs, Hpc).
    change (sync_rank (at_pc (YFork (S j) args) p)) with (8 + cost args).
    cbn [sumZ foldr]. change (sync_rank (Process (YC j arg) (held p) Ready (pending p) [] [] 0)) with (child_cost arg).
    assert (cost (arg :: args) = S (child_cost arg) + cost args) as -> by reflexivity. lia.
Qed.

(** A step of the parent, or of a child, that follows the rules. *)
Ltac by_pc := cbn; first [done|by auto|match goal with H : pc _ = _ |- _ => cbn; by rewrite H end].
Ltac sync_ranks := unfold sync_rank; cbn; repeat match goal with H : stage_of _ = _ |- _ => rewrite H end;
  repeat match goal with H : pc _ = _ |- _ => rewrite H end; cbn; unfold child_cost, cost;
  repeat match goal with H : seconds _ = _ |- _ => rewrite H end; cbn; lia.
Ltac parent_goes :=
  match goal with Hgo : forall q st', procs st' = _ -> _, Hpar : _ = true -> ?i = 0 |- _ =>
    try (pose proof (Hpar eq_refl) as ->); eapply Hgo; [reflexivity|first [done|by apply settled_objects]|
      intros _; split; [split_and!; cbn; rewrite ?has_wr_close_w; try by_pc; first [by left|right; by_pc]|by_pc]|done|sync_ranks] end.
Ltac child_goes :=
  match goal with Hgo : forall q st', procs st' = _ -> _ |- _ =>
    eapply Hgo; [reflexivity|first [done|by apply settled_objects]|
      intros Hz; match goal with Hk : _ = 0 -> parent_ok ?p, Hc : pc ?p = _ |- _ => destruct (Hk Hz) as [Hin _]; by rewrite Hc in Hin end|
      intros _; split; [by_pc|cbn; first [by left|right; right; by eauto|right; left; do 3 eexists; split_and!; [reflexivity|eassumption|by eapply mk_is_Some]]]|sync_ranks] end.

Lemma sync_live_calls i p st st' : sync_inv st -> sync_live st -> procs st !! i = Some p -> stage_of p = Ready ->
  calls pipe_sync capacity false i p st = Some st' -> sync_live st' /\ (sync_work st' < sync_work st)%Z.
Proof.
  intros Hi Hl Hp Hs Hf. pose proof (si_good _ Hi i p Hp) as [Hrole _]. pose proof (sl_objects _ Hl) as Ho.
  assert (Hpok : i = 0 -> parent_ok p) by (intros ->; destruct (sl_parent _ Hl) as (p' & Hp' & Hok); by simplify_eq).
  assert (Hcok : i <> 0 -> child_ok p) by (intros Hne; by eapply (sl_children _ Hl)).
  assert (Hpa : i = 0 -> parent p = 0) by (intros Hz; apply (Hpok Hz)).
  assert (Hrd : i = 0 -> match pc p with YFork _ _ | YClose | YRead => objects st = [[]] | _ => True end)
    by (intros ->; by apply (sl_read _ Hl)).
  assert (Hgo : forall q st', procs st' = <[i := q]> (procs st) -> objects st' = objects st ->
    (i = 0 -> parent_ok q /\ match pc q with YFork _ _ | YClose | YRead => objects st = [[]] | _ => True end) -> (i <> 0 -> child_ok q) ->
    sync_rank q < sync_rank p -> sync_live st' /\ (sync_work st' < sync_work st)%Z)
    by (intros; by eapply sync_live_set).
  assert (Hchild : in_child (pc p) = true -> i <> 0) by (intros Hc ->; cbn in Hrole; congruence).
  assert (Hpar : in_parent (pc p) = true -> i = 0) by (intros Hc; destruct i; [done|cbn in Hrole; congruence]).
  unfold calls in Hf. destruct (pc p) as [|msg| |args|args|j args| | | | |j arg|j arg| |j| |] eqn:Hpc; cbn [pipe_sync] in Hf.
  - apply (inj Some) in Hf as <-. child_goes.
  - apply (inj Some) in Hf as <-. child_goes.
  - apply (inj Some) in Hf as <-. child_goes.
  - apply (inj Some) in Hf as <-. parent_goes.
  - apply (inj Some) in Hf as <-. pose proof (Hpar eq_refl) as ->. pose proof (si_pipe _ Hi p Hp) as Hobj. rewrite Hpc in Hobj.
    by apply (sync_live_pipe _ _ args); auto.
  - pose proof (Hpar eq_refl) as ->. destruct args as [|arg args]; apply (inj Some) in Hf as <-; [parent_goes|].
    by apply (sync_live_fork _ _ _ j); auto.
  - apply (inj Some) in Hf as <-. parent_goes.
  - destruct (objects st !! 0) as [[|c content]|] eqn:Hob; [| |done].
    + destruct (anyone (0, WR) st) eqn:Ha; [done|]. apply (inj Some) in Hf as <-. parent_goes.
    + destruct Ho as [Ho|Ho]; by rewrite Ho in Hob.
  - apply (inj Some) in Hf as <-. parent_goes.
  - apply (inj Some) in Hf as <-. parent_goes.
  - apply (inj Some) in Hf as <-. child_goes.
  - destruct (seconds arg) eqn:Hsec; apply (inj Some) in Hf as <-; child_goes.
  - apply (inj Some) in Hf as <-. child_goes.
  - apply (inj Some) in Hf as <-. child_goes.
  - apply (inj Some) in Hf as <-. child_goes.
  - apply (inj Some) in Hf as <-. child_goes.
Qed.

Lemma second_less_rank (p : process ypos) : sync_rank (second_less p) <= sync_rank p /\
  (sleeps p = true -> sync_rank (second_less p) < sync_rank p).
Proof. destruct p as [c h s pe pr er par]. unfold second_less, sync_rank, sleeps. cbn. destruct s as [| | |[|]| |]; cbn; split; first [done|apply Nat.le_refl|lia|intros _; lia]. Qed.

Lemma tick_work (ps : list (process ypos)) :
  let w := sumZ (fun p => Z.of_nat (sync_rank p)) in
  (w (second_less <$> ps) <= w ps)%Z /\ (existsb sleeps ps = true -> w (second_less <$> ps) < w ps)%Z.
Proof.
  unfold sumZ. induction ps as [|p ps [IH1 IH2]]; cbv zeta in *; [done|]. destruct (second_less_rank p) as [H1 H2].
  cbn [fmap list_fmap foldr existsb]. split; [lia|].
  intros [Hs|Hs]%orb_true_iff; [specialize (H2 Hs); lia|specialize (IH2 Hs); lia].
Qed.

Lemma sync_live_fire e st st' : failing = false -> sync_inv st -> sync_live st -> sfire e st = Some st' ->
  sync_live st' /\ (sync_work st' < sync_work st)%Z.
Proof.
  intros Hnf Hi Hl Hf. destruct e as [i|i|]; cbn [fire] in Hf; [|by rewrite Hnf in Hf|].
  - unfold run_proc in Hf. destruct (procs st !! i) as [p|] eqn:Hp; [|done].
    destruct (decide (i = 0)) as [->|Hne].
    + destruct (sl_parent _ Hl) as (p' & Hp' & _ & _ & [Hs|[Hs _]] & _); simplify_eq; rewrite Hs in Hf; [|done].
      by eapply sync_live_calls.
    + destruct (sl_children _ Hl i p Hne Hp) as (_ & [Hs|[(n & j & arg & Hs & Hpc & sec & Hsec)|((k & Hs) & _)]]);
        rewrite Hs in Hf; [by eapply sync_live_calls| |done].
      destruct n; [|done]. rewrite Hpc in Hf. cbn [pipe_sync] in Hf. rewrite Hsec in Hf. apply (inj Some) in Hf as <-.
      eapply sync_live_set; [done|exact Hp|reflexivity|done|done|intros _; split; [done|by left]|].
      unfold sync_rank. rewrite Hs. cbn. lia.
  - unfold tick in Hf. destruct (existsb sleeps (procs st)) eqn:Hsl; cbn in Hf; [|done]. destruct (negb _); [|done].
    apply (inj Some) in Hf as <-. destruct Hl as [(p & Hp & Hok) Hch Ho Hr]. split; [|by apply tick_work].
    assert (Hsame : second_less p = p) by (destruct Hok as (_ & _ & [Hs|[Hs _]] & _); unfold second_less; by rewrite Hs).
    split; cbn; try done.
    + exists p. rewrite list_lookup_fmap, Hp. cbn. by rewrite Hsame.
    + intros i q Hne. rewrite list_lookup_fmap. destruct (procs st !! i) as [x|] eqn:Hx; [|done]. intros [= <-].
      destruct (Hch i x Hne Hx) as (Hin & [Hs|[(n & j & arg & Hs & Hpc & Hsec)|((k & Hs) & Hh)]]); unfold second_less, child_ok; rewrite Hs.
      * auto.
      * destruct n; cbn; (split; [done|]); right; left; eauto 10.
      * split; [done|]. right; right; eauto.
    + intros q. rewrite list_lookup_fmap, Hp. intros [= <-]. rewrite Hsame. by apply Hr.
Qed.

(** All processes have ended, the parent with success, and so the child of
    each argument that is a number, when it had done its work. *)
Definition all_ended (st : system ypos) : Prop := everyone_ended st = true /\ ended 0 EXIT_SUCCESS st = true.
Definition sync_done (args : list cstr) (st : system ypos) : Prop :=
  all_ended st /\ length (procs st) = S (length args) /\
  forall i q arg n, procs st !! S i = Some q -> args !! i = Some arg -> seconds arg = Some n ->
    stage_of q = Dead (Some EXIT_SUCCESS) /\ worked (S i) q.

Lemma sync_runs i p st : sync_live st -> procs st !! i = Some p -> stage_of p = Ready ->
  (pc p = YRead -> anyone (0, WR) st = false /\ objects st = [[]]) ->
  is_Some (calls pipe_sync capacity false i p st).
Proof.
  intros Hl Hp Hs Hread. unfold calls. destruct (pc p) as [|msg| |args|args|j args| | | | |j arg|j arg| |j| |] eqn:Hpc; cbn [pipe_sync]; eauto.
  - destruct args; eauto.
  - destruct (Hread eq_refl) as [Ha Ho]. rewrite Ho, Ha. cbn. eauto.
  - destruct (seconds arg); eauto.
Qed.

Lemma sync_stuck st : failing = false -> sync_live st ->
  (exists e, is_Some (sfire e st)) \/ (forall e, sfire e st = None) /\ all_ended st.
Proof.
  intros Hnf Hl. destruct (some_runs (run_proc pipe_sync capacity false) (length (procs st)) st) as [(i & Hi)|Hnone].
  { intros i Hi. unfold run_proc. by rewrite (proj2 (lookup_ge_None _ _) Hi). }
  { left. by exists (Run i). }
  destruct (existsb sleeps (procs st)) eqn:Hsl.
  { left. exists Tick. cbn. unfold tick. rewrite Hsl. cbn. replace (existsb _ _) with false; [rewrite andb_false_r; cbn; eauto|].
    symmetry. apply not_true_is_false. intros (i & _ & Hi)%existsb_exists. unfold can_run in Hi. by rewrite Hnone in Hi. }
  assert (Hdead : forall i p, i <> 0 -> procs st !! i = Some p -> (exists k, stage_of p = Dead (Some k)) /\ held p = []).
  { intros i p Hne Hp. pose proof (Hnone i) as Hn. unfold run_proc in Hn. rewrite Hp in Hn.
    destruct (sl_children _ Hl i p Hne Hp) as (Hin & [Hs|[(n & j & arg & Hs & Hpc & sec & Hsec)|Hd]]); [| |done]; rewrite Hs in Hn.
    - destruct (sync_runs i p st Hl Hp Hs) as [x Hx]; [|by rewrite Hx in Hn]. intros Hpc. by rewrite Hpc in Hin.
    - destruct n; [by rewrite Hpc in Hn; cbn [pipe_sync] in Hn; rewrite Hsec in Hn|].
      exfalso. assert (existsb sleeps (procs st) = true); [|congruence]. apply existsb_exists. exists p.
      split; [apply list_elem_of_In; by eapply list_elem_of_lookup_2|]. unfold sleeps. by rewrite Hs. }
  destruct (sl_parent _ Hl) as (p & Hp & _ & _ & Hs & Hread). pose proof (Hnone 0) as Hn. unfold run_proc in Hn. rewrite Hp in Hn.
  destruct Hs as [Hs|[Hs Hpc]].
  { exfalso. rewrite Hs in Hn. destruct (sync_runs 0 p st Hl Hp Hs) as [x Hx]; [|congruence]. intros Hpc. rewrite Hpc in Hread. split.
    - apply anyone_lookup. intros i q Hq. destruct (decide (i = 0)) as [->|Hne]; [by simplify_eq|].
      destruct (Hdead i q Hne Hq) as [_ ->]. done.
    - pose proof (sl_read _ Hl p Hp) as Hob. by rewrite Hpc in Hob. }
  right. split.
  - intros [i|i|]; cbn; [apply Hnone|by rewrite Hnf|]. unfold tick. by rewrite Hsl.
  - split; [|unfold ended; by rewrite Hp, Hs, bool_decide_eq_true_2].
    apply forallb_forall. intros q [i Hi]%list_elem_of_In%list_elem_of_lookup. destruct (decide (i = 0)) as [->|Hne].
    + simplify_eq. by rewrite Hs.
    + destruct (Hdead i q Hne Hi) as [[k ->] _]. done.
Qed.

Lemma ended_done args st : failing = false -> sync_inv st -> sync_live st -> track args st -> all_ended st -> sync_done args st.
Proof.
  intros Hnf Hi Hl Ht He. split; [done|]. destruct He as [Hall Hmain].
  destruct (sl_parent _ Hl) as (p & Hp & _ & _ & Hs & _). unfold ended in Hmain. rewrite Hp in Hmain.
  apply bool_decide_eq_true in Hmain. destruct Hs as [Hs|[_ Hpc]]; [congruence|]. split.
  { pose proof (tr_parent _ _ Ht p Hp) as Hpar. unfold parent_track in Hpar. by rewrite Hpc in Hpar. }
  intros i q arg n Hq Harg Hn. destruct (past_read_children args st p i q) as (arg' & Harg' & Hw); [done..|by rewrite Hpc|done|].
  simplify_eq. destruct Hw as [Hw|[_ [Hw|Hw]]]; [|congruence..]. split; [|done]. destruct Hw as [Hq1 _].
  destruct (tr_child _ _ Ht i q Hq) as [Hend _]. unfold ended_ok in Hend. unfold everyone_ended in Hall.
  assert (Hin : List.In q (procs st)) by by eapply list_elem_of_In, list_elem_of_lookup_2.
  pose proof (proj1 (forallb_forall _ _) Hall _ Hin) as Hq2. cbv beta in Hq2.
  destruct (stage_of q) as [| | | |how|]; try done. destruct Hend as [[-> _]|[_ Hb]]; [done|congruence].
Qed.

Lemma sync_inv_start c : (match c with YStart _ | YUsage => True | _ => False end) -> sync_inv (boot c [] []).
Proof.
  intros Hc. split; cbn.
  - intros [|i] p Hp; simplify_eq/=. split; cbn; destruct c; done.
  - intros p [= <-]. by destruct c.
  - intros p [= <-]. by destruct c.
Qed.

End PipeSync.

(** C17: in pipe_sync, in every state that some schedule leads to, and even
    where calls fail, when the parent is past its read each child that was made
    has done its work, told so and closed its end, or has ended with failure,
    which it does only because a call failed or its argument is no number. When
    no call fails the program gets there for every list of arguments, whatever
    the order in which processes run and sleeps end: there is a child for each
    argument, every process ends, and the parent and each child whose argument
    is a number end with success, the child when it has done its work. *)
Theorem pipe_sync_waits `{ErrnoText} (prog : cstr) (args : list cstr) (capacity : nat) (prompt failing : bool) :
  let start := boot (pipe_sync_start (prog :: args)) [] [] in
  (forall st p, reachable (fire pipe_sync capacity false prompt failing) start st ->
     procs st !! 0 = Some p -> past_read (pc p) = true ->
     forall i q, procs st !! S i = Some q ->
       exists arg, args !! i = Some arg /\ (worked (S i) q \/ failed q /\ may_fail failing arg)) /\
  (args <> [] -> head args <> Some (lit "--help") ->
   always_ends (fire pipe_sync capacity false prompt false) (sync_done args) start).
Proof.
  intros start. split.
  - intros st p Hr Hp Hpast i q Hq. subst start.
    assert (Hu : pipe_sync_start (prog :: args) = YUsage \/ pipe_sync_start (prog :: args) = YStart args).
    { unfold pipe_sync_start. destruct args; [by left|]. case_bool_decide; auto. }
    assert (Hi : sync_inv st /\ track failing args st).
    { revert Hr. apply (reachable_ind_inv _ (fun st => sync_inv st /\ track failing args st)).
      - split; [apply sync_inv_start; destruct Hu as [->| ->]; done|].
        destruct Hu as [->| ->]; [|apply track_start]. split; cbn; [|done]. by intros x [= <-].
      - intros e s s' [Hi Ht] Hf. split; [by eapply sync_inv_fire|by eapply track_fire]. }
    eapply past_read_children; [apply Hi..|exact Hp|done|done].
  - intros Hne Hh. destruct args as [|arg args]; [done|]. subst start. cbn [pipe_sync_start].
    rewrite bool_decide_eq_false_2 by naive_solver.
    apply (ends_by_work _ (fun st => sync_inv st /\ sync_live st /\ track false (arg :: args) st) _ sync_work).
    + intros st _. apply sumZ_nonneg. intros; lia.
    + intros e st st' (Hi & Hl & Ht) Hf. destruct (sync_live_fire capacity prompt false e st st' eq_refl Hi Hl Hf) as [Hl' Hlt].
      split_and!; [by eapply sync_inv_fire|done|by eapply track_fire|done].
    + intros st (Hi & Hl & Ht). destruct (sync_stuck capacity prompt false st eq_refl Hl) as [He|[Hn He]]; [by left|right].
      split; [done|]. by apply (ended_done false).
    + split; [by apply sync_inv_start|]. split; [|apply track_start]. split; cbn; try done; [|by intros [|i]|by left|by intros p [= <-]].
      eexists. split; [reflexivity|]. split_and!; try done. by left.
Qed.

#[export] Instance sync_texts : ErrnoText := {| MAX_ENAME := 0; ename := fun _ => []; strerror := fun _ => [] |}.

Lemma pipe_sync_waits_witness :
  (forall st p, reachable (fire pipe_sync PIPE_BUF false true true) (boot (pipe_sync_start [lit "p"; lit "2"; lit "1"]) [] []) st ->
     procs st !! 0 = Some p -> past_read (pc p) = true ->
     forall i q, procs st !! S i = Some q ->
       exists arg, [lit "2"; lit "1"] !! i = Some arg /\ (worked (S i) q \/ failed q /\ may_fail true arg)) /\
  always_ends (fire pipe_sync PIPE_BUF false true false) (sync_done [lit "2"; lit "1"])
    (boot (pipe_sync_start [lit "p"; lit "2"; lit "1"]) [] []).
Proof.
  destruct (pipe_sync_waits (lit "p") [lit "2"; lit "1"] PIPE_BUF true true) as [H1 H2]. split; [exact H1|].
  by apply H2.
Defined.

(** A child whose argument is no number ends without a word, and the parent goes
    on as if it had done its work. *)
Example bad_argument :
  match run_all (fire pipe_sync PIPE_BUF false true false)
    (Run <$> [0; 0; 0; 0; 0; 1; 1; 1; 1; 0; 0]) (boot (pipe_sync_start [lit "p"; lit "x"]) [] []) with
  | Some st => (printed <$> procs st) = [lit "  Parent started" ++ [NEWLINE] ++ lit "  Parent ready to go" ++ [NEWLINE]; []] /\
      (stage_of <$> procs st) = [Ready; Dead (Some EXIT_FAILURE)]
  | None => False
  end.
Proof. by vm_compute. Qed.

(** ** chapter44/pipe_sync.c *)

Definition NUM_CHILDREN : nat := 3.

(** The parent; child [i], counted from 0. *)
Inductive zpos :=
| ZStart | ZPipe | ZPipeFailed | ZFork (i : nat) (children : list nat) | ZForkFailed | ZBad
| ZC (i : nat) | ZCSleep (i : nat) | ZCDone (i : nat) | ZCClose | ZCCloseR | ZCExit
| ZClose (children : list nat) | ZWaiting (children : list nat) | ZRead (children : list nat) | ZAll (children : list nat)
| ZCloseR (children : list nat) | ZReap (children : list nat) | ZWait (i : nat) (children : list nat)
| ZReaped (i : nat) (status : option exit_kind) (children : list nat) | ZEnd | ZExit.
#[export] Instance zpos_eq_dec : EqDecision zpos.
Proof. solve_decision. Defined.

Definition WEXITSTATUS (status : option exit_kind) : Z :=
  match status with Some EXIT_FAILURE => 1 | Some (EXIT_STATUS n) => n mod 256 | _ => 0 end%Z.

Definition show_nat (n : nat) : cstr := show_Z (Z.of_nat n).

Definition pipe_sync_44 (p : zpos) : act zpos :=
  match p with
  | ZStart => Prints (lit "=== 演示使用管道同步多个进程 ===" ++ [NEWLINE] ++ lit "父进程将创建 " ++ show_nat NUM_CHILDREN
                        ++ lit " 个子进程，并等待它们全部完成工作" ++ [NEWLINE; NEWLINE]) ZPipe
  | ZPipe => Pipes (ZFork 0 []) ZPipeFailed
  | ZPipeFailed => Reports (lit "pipe 创建失败") ZBad
  | ZFork i cs =>
      if (i <? NUM_CHILDREN)%nat then Forks (ZC i) (fun c => ZFork (S i) (cs ++ [c])) ZForkFailed else Goes (ZClose cs)
  | ZForkFailed => Reports (lit "fork 失败") ZBad
  | ZBad => Exits EXIT_FAILURE
  (* child i *)
  | ZC i => Prints (lit "子进程 " ++ show_nat (i + 1) ++ lit " 开始工作..." ++ [NEWLINE]) (ZCSleep i)
  | ZCSleep i => Sleeps ((i + 1) * 2) (ZCDone i)
  | ZCDone i => Prints (lit "子进程 " ++ show_nat (i + 1) ++ lit " 完成工作" ++ [NEWLINE]) ZCClose
  | ZCClose => Closes (0, WR) ZCCloseR ZCCloseR
  | ZCCloseR => Closes (0, RD) ZCExit ZCExit
  | ZCExit => UExits EXIT_SUCCESS
  (* the parent *)
  | ZClose cs => Closes (0, WR) (ZWaiting cs) (ZWaiting cs)
  | ZWaiting cs => Prints (lit "父进程已创建所有子进程，现在等待它们完成..." ++ [NEWLINE]
                             ++ lit "父进程正在管道上执行阻塞读取..." ++ [NEWLINE; NEWLINE]) (ZRead cs)
  | ZRead cs => Reads 0 1 false (fun s => match s with [] => ZAll cs | _ => ZRead cs end) (ZAll cs) (ZAll cs)
  | ZAll cs => Prints (lit "管道读取结束 - 所有子进程都已关闭管道写入端" ++ [NEWLINE]
                         ++ lit "父进程知道所有子进程都已完成工作！" ++ [NEWLINE; NEWLINE]) (ZCloseR cs)
  | ZCloseR cs => Closes (0, RD) (ZReap cs) (ZReap cs)
  | ZReap cs => Prints (lit "父进程开始回收子进程资源..." ++ [NEWLINE]) (ZWait 0 cs)
  | ZWait i cs =>
      if (i <? NUM_CHILDREN)%nat then Waits (cs !! i) (fun _ status => ZReaped i status cs) (ZWait (S i) cs) else Goes ZEnd
  | ZReaped i status cs =>
      Prints (lit "回收子进程 " ++ show_nat (i + 1) ++ lit "，退出状态: " ++ show_Z (WEXITSTATUS status) ++ [NEWLINE]) (ZWait (S i) cs)
  | ZEnd => Prints ([NEWLINE] ++ lit "所有子进程已完成并被回收" ++ [NEWLINE] ++ lit "父进程可以继续执行其他工作..." ++ [NEWLINE]
                      ++ lit "同步演示完成！" ++ [NEWLINE]) ZExit
  | ZExit => Exits EXIT_SUCCESS
  end.

(** A child that has not done its work. *)
Definition at_work (p : process zpos) : bool :=
  match pc p with ZC _ | ZCSleep _ | ZCDone _ | ZCClose => true | _ => false end.
Definition past_zread (p : process zpos) : bool :=
  match pc p with ZAll _ | ZCloseR _ | ZReap _ | ZWait _ _ | ZReaped _ _ _ | ZEnd | ZExit => true | _ => false end.

Definition zsync_safe (st : system zpos) : bool :=
  match procs st with p :: ps => negb (past_zread p) || negb (existsb at_work ps) | [] => true end.
Definition zsync_done (st : system zpos) : bool :=
  everyone_ended st && ended 0 EXIT_SUCCESS st
  && forallb (fun p => match stage_of p with Gone => true | _ => false end) (tail (procs st)).

(** In the program of chapter44 the parent goes past its read when the three
    children have done their work, on every schedule on which what a process
    does takes less than a second; it ends having waited for each of them. *)
Theorem pipe_sync_44_waits :
  always_ends (fire pipe_sync_44 PIPE_BUF false true false) (fun st => zsync_done st = true) (boot ZStart [] []) /\
  forall st, reachable (fire pipe_sync_44 PIPE_BUF false true false) (boot ZStart [] []) st -> zsync_safe st = true.
Proof.
  split; [apply (explore_ends _ events 100); by vm_compute|]. intros st. apply (explore_safe _ events 100). by vm_compute.
Qed.

(** What its children print is lost when standard output is not a terminal. *)
Theorem pipe_sync_44_children_silent :
  always_ends (fire pipe_sync_44 PIPE_BUF true true false)
    (fun st => forallb (fun p => bool_decide (printed p = [])) (tail (procs st)) = true) (boot ZStart [] []).
Proof. apply (explore_ends _ events 100). by vm_compute. Qed.
