(* ===== verification/ChangeCase.v ===== *)
(** pipes/change_case.c (src/tlpi-dist): a parent sends its standard input over
    one pipe to a child, which sends it back in upper case over another, as a
    program of PipeOS. *)
From Stdlib Require Import ZArith Lia Ascii String.
From stdpp Require Import base tactics list strings.
From S2P Require Import Prelude CString Transitions PipeOS.

Definition BUF_SIZE : nat := 100.

(** [toupper] in the C locale. *)
Definition toupper (c : ascii) : ascii :=
  let n := nat_of_ascii c in
  if ((97 <=? n) && (n <=? 122))%nat then ascii_of_nat (n - 32) else c.
Definition upper (s : cstr) : cstr := toupper <$> s.

(** Object 0 is the pipe outbound, object 1 inbound. *)
Inductive kpos :=
| KPipe | KPipe2 | KFork | KErr (msg : cstr) | KBad
| KC1 | KC2 | KCRead | KCWrite (buf : cstr) | KCExit
| KP1 | KP2 | KPRead | KPWrite (buf : cstr) | KPBack | KPOut (buf : cstr) | KPExit.

Definition change_case (p : kpos) : act kpos :=
  match p with
  | KPipe => Pipes KPipe2 (KErr (lit "pipe"))
  | KPipe2 => Pipes KFork (KErr (lit "pipe"))
  | KFork => Forks KC1 (fun _ => KP1) (KErr (lit "fork"))
  | KErr msg => Reports msg KBad
  | KBad => Exits EXIT_FAILURE
  (* the child *)
  | KC1 => Closes (0, WR) KC2 (KErr (lit "close"))
  | KC2 => Closes (1, RD) KCRead (KErr (lit "close"))
  | KCRead => Reads 0 BUF_SIZE false (fun s => match s with [] => KCExit | _ => KCWrite (upper s) end)
                (KErr (lit "read")) (KErr (lit "read"))
  | KCWrite buf => Writes 1 buf false
                     (fun n => if bool_decide (n = length buf) then KCRead else KErr (lit "failed/partial write(): inbound pipe"))
                     (KErr (lit "failed/partial write(): inbound pipe"))
  | KCExit => Exits EXIT_SUCCESS
  (* the parent *)
  | KP1 => Closes (0, RD) KP2 (KErr (lit "close"))
  | KP2 => Closes (1, WR) KPRead (KErr (lit "close"))
  | KPRead => Inputs BUF_SIZE (fun s => match s with [] => KPExit | _ => KPWrite s end) (KErr (lit "read"))
  | KPWrite buf => Writes 0 buf false
                     (fun n => if bool_decide (n = length buf) then KPBack else KErr (lit "failed/partial write(): outbound pipe"))
                     (KErr (lit "failed/partial write(): outbound pipe"))
  | KPBack => Reads 1 BUF_SIZE false (fun s => match s with [] => KPRead | _ => KPOut s end)
                (KErr (lit "read")) (KErr (lit "read"))
  | KPOut buf => Outputs buf KPRead (KErr (lit "failed/partial write(): STDOUT_FILENO"))
  | KPExit => Exits EXIT_SUCCESS
  end.

(** ** What is on its way *)

Definition held_at (p : kpos) : list pend :=
  match p with
  | KP1 | KC1 => [(0, RD); (0, WR); (1, RD); (1, WR)]
  | KP2 => [(0, WR); (1, RD); (1, WR)]
  | KC2 => [(0, RD); (1, RD); (1, WR)]
  | KPRead | KPWrite _ | KPBack | KPOut _ | KPExit => [(0, WR); (1, RD)]
  | KCRead | KCWrite _ | KCExit => [(0, RD); (1, WR)]
  | _ => []
  end.
Definition holding (p : kpos) (sg : stage) : list pend :=
  match sg with Dead _ | Gone => [] | _ => held_at p end.

(** The child has nothing to send: before its loop, about to read, or at the end
    of a write. *)
Inductive idle : kpos -> stage -> Prop :=
| idle_1 : idle KC1 Ready
| idle_2 : idle KC2 Ready
| idle_read : idle KCRead Ready
| idle_written buf : idle (KCWrite buf) (Writing (length buf)).

(** The parent has sent [buf]. *)
Inductive waiting (buf : cstr) : kpos -> stage -> Prop :=
| waiting_written : waiting buf (KPWrite buf) (Writing (length buf))
| waiting_back : waiting buf KPBack Ready.

(** Where the piece [flight] of the input is: what the parent has read and not
    yet printed, with the contents of the two pipes. *)
Inductive flying : kpos -> stage -> kpos -> stage -> cstr -> cstr -> cstr -> Prop :=
| fly_none pp cp cs : pp = KP1 \/ pp = KP2 \/ pp = KPRead \/ pp = KPExit -> idle cp cs -> flying pp Ready cp cs [] [] []
| fly_read buf cp cs : idle cp cs -> buf <> [] -> length buf <= BUF_SIZE -> flying (KPWrite buf) Ready cp cs [] [] buf
| fly_out buf pp ps cp cs : waiting buf pp ps -> idle cp cs -> buf <> [] -> length buf <= BUF_SIZE ->
    flying pp ps cp cs buf [] buf
| fly_child buf pp ps : waiting buf pp ps -> buf <> [] -> length buf <= BUF_SIZE ->
    flying pp ps (KCWrite (upper buf)) Ready [] [] buf
| fly_in buf pp ps cp cs : waiting buf pp ps -> idle cp cs -> buf <> [] -> length buf <= BUF_SIZE ->
    flying pp ps cp cs [] (upper buf) buf
| fly_back buf cp cs : idle cp cs -> buf <> [] -> flying (KPOut (upper buf)) Ready cp cs [] [] buf
| fly_end cp cs : idle cp cs -> flying KPExit (Dead (Some EXIT_SUCCESS)) cp cs [] [] []
| fly_exit sg : sg = Ready \/ sg = Dead (Some EXIT_SUCCESS) -> flying KPExit (Dead (Some EXIT_SUCCESS)) KCExit sg [] [] [].

Section Invariant.
Context (text : cstr).

Abbreviation pair := (fun pp ps cp cs o i rest out =>
  System [Process pp (holding pp ps) ps [] out [] 0; Process cp (holding cp cs) cs [] [] [] 0] [o; i] false rest).

Inductive case_inv : system kpos -> Prop :=
| case_pipe : case_inv (System [Process KPipe [] Ready [] [] [] 0] [] false text)
| case_pipe2 : case_inv (System [Process KPipe2 [(0, RD); (0, WR)] Ready [] [] [] 0] [[]] false text)
| case_fork : case_inv (System [Process KFork [(0, RD); (0, WR); (1, RD); (1, WR)] Ready [] [] [] 0] [[]; []] false text)
| case_pair pp ps cp cs o i flight fin rest : flying pp ps cp cs o i flight -> text = fin ++ flight ++ rest ->
    (pp = KPExit -> rest = []) -> case_inv (pair pp ps cp cs o i rest (upper fin)).

Definition case_done (st : system kpos) : Prop :=
  st = System [Process KPExit [] (Dead (Some EXIT_SUCCESS)) [] (upper text) [] 0;
               Process KCExit [] (Dead (Some EXIT_SUCCESS)) [] [] [] 0] [[]; []] false [].

(** The work left: steps, and for each character the places it has still to
    go through. *)
Definition case_rank (p : process kpos) : nat :=
  match stage_of p with
  | Dead _ | Gone => 0
  | sg =>
      match pc p, sg with
      | KPipe, _ => 42 | KPipe2, _ => 41 | KFork, _ => 40 | KErr _, _ | KBad, _ => 0
      | KC1, _ => 7 | KC2, _ => 6 | KCWrite buf, Ready => 5 + 6 * length buf | KCWrite _, _ => 4 | KCRead, _ => 3 | KCExit, _ => 1
      | KP1, _ => 8 | KP2, _ => 7 | KPWrite buf, Ready => 6 + 14 * length buf | KPWrite _, _ => 5 | KPBack, _ => 4
      | KPOut buf, _ => 3 + length buf | KPRead, _ => 2 | KPExit, _ => 1
      end
  end.
Definition case_work (st : system kpos) : nat :=
  list_sum (case_rank <$> procs st) + 20 * length (input st)
  + match objects st with [o; i] => 10 * length o + 3 * length i | _ => 0 end.

End Invariant.

Section Steps.
Context (text : cstr) (capacity : nat) (prompt : bool).
Hypothesis capacity_PIPE_BUF : PIPE_BUF <= capacity.
Abbreviation cfire := (fire change_case capacity false prompt false).
Abbreviation pair := (fun pp ps cp cs o i rest out =>
  System [Process pp (holding pp ps) ps [] out [] 0; Process cp (holding cp cs) cs [] [] [] 0] [o; i] false rest).

Ltac next_state H := cbn in H; rewrite ?orb_true_r, ?orb_false_r, ?same_branch in H; try injection H as <-.

Lemma upper_app s t : upper (s ++ t) = upper s ++ upper t.
Proof. apply fmap_app. Qed.
Lemma length_upper s : length (upper s) = length s.
Proof. apply length_fmap. Qed.
Lemma upper_nonempty s : s <> [] -> upper s <> [].
Proof. by destruct s. Qed.

(** A write of the parent or of the child. *)
Lemma parent_write buf cp cs rest out : idle cp cs -> buf <> [] -> length buf <= BUF_SIZE ->
  cfire (Run 0) (pair (KPWrite buf) Ready cp cs [] [] rest out)
  = Some (pair (KPWrite buf) (Writing (length buf)) cp cs buf [] rest out).
Proof.
  intros Hi Hb Hl. set (p := Process (KPWrite buf) [(0, WR); (1, RD)] Ready [] out [] 0).
  change (cfire (Run 0) (pair (KPWrite buf) Ready cp cs [] [] rest out))
    with (calls change_case capacity false 0 p (pair (KPWrite buf) Ready cp cs [] [] rest out)).
  etransitivity; [eapply (calls_write_whole change_case capacity false 0 p _ 0 buf); [reflexivity|done|done| |done|done|by destruct Hi]|done].
  unfold PIPE_BUF, BUF_SIZE in *. lia.
Qed.

Lemma child_write buf pp ps o rest out : waiting buf pp ps -> buf <> [] -> length buf <= BUF_SIZE ->
  cfire (Run 1) (pair pp ps (KCWrite (upper buf)) Ready o [] rest out)
  = Some (pair pp ps (KCWrite (upper buf)) (Writing (length (upper buf))) o (upper buf) rest out).
Proof.
  intros Hw Hb Hl. set (p := Process (KCWrite (upper buf)) [(0, RD); (1, WR)] Ready [] [] [] 0).
  change (cfire (Run 1) (pair pp ps (KCWrite (upper buf)) Ready o [] rest out))
    with (calls change_case capacity false 1 p (pair pp ps (KCWrite (upper buf)) Ready o [] rest out)).
  etransitivity; [eapply (calls_write_whole change_case capacity false 1 p _ 1 (upper buf));
    [reflexivity|done|by apply upper_nonempty| |done|done|by destruct Hw]|done].
  rewrite length_upper. unfold PIPE_BUF, BUF_SIZE in *. lia.
Qed.

(** The end of a write. *)
Lemma written buf pp rest out o i cp cs : pp = KPWrite buf ->
  cfire (Run 0) (pair pp (Writing (length buf)) cp cs o i rest out) = Some (pair KPBack Ready cp cs o i rest out).
Proof. intros ->. cbn. rewrite drop_all. by rewrite bool_decide_eq_true_2. Qed.
Lemma child_written buf pp ps rest out o i :
  cfire (Run 1) (pair pp ps (KCWrite buf) (Writing (length buf)) o i rest out) = Some (pair pp ps KCRead Ready o i rest out).
Proof. cbn. rewrite drop_all. by rewrite bool_decide_eq_true_2. Qed.

(** A child that is idle comes to its read, where it waits while the parent has
    nothing for it. *)
Lemma idle_steps pp ps cp cs o i rest out st' : idle cp cs ->
  cfire (Run 1) (pair pp ps cp cs o i rest out) = Some st' ->
  (exists cp' cs', idle cp' cs' /\ st' = pair pp ps cp' cs' o i rest out /\
     case_rank (Process cp' (holding cp' cs') cs' [] [] [] 0) < case_rank (Process cp (holding cp cs) cs [] [] [] 0)) \/
  cp = KCRead /\ cs = Ready /\
    (o <> [] /\ st' = pair pp ps (KCWrite (upper (take BUF_SIZE o))) Ready (drop BUF_SIZE o) i rest out \/
     o = [] /\ existsb (same_end (0, WR)) (holding pp ps) = false /\ st' = pair pp ps KCExit Ready [] i rest out).
Proof.
  intros Hi Hf. destruct Hi.
  - left. next_state Hf. exists KC2, Ready. split; [constructor|]. split; [|cbn; lia]. done.
  - left. next_state Hf. exists KCRead, Ready. split; [constructor|]. split; [|cbn; lia]. done.
  - right. split; [done|]. split; [done|]. destruct o as [|c o].
    + cbn in Hf. rewrite ?orb_false_r in Hf. destruct (existsb (same_end (0, WR)) (holding pp ps)); [done|]. injection Hf as <-. by right.
    + left. next_state Hf. done.
  - left. rewrite child_written in Hf. injection Hf as <-. exists KCRead, Ready. split; [constructor|]. split; [done|cbn; lia].
Qed.

(** The parent and the child go on. *)
Lemma case_parent_steps pp ps cp cs o i flight fin rest st' :
  flying pp ps cp cs o i flight -> text = fin ++ flight ++ rest -> (pp = KPExit -> rest = []) ->
  cfire (Run 0) (pair pp ps cp cs o i rest (upper fin)) = Some st' ->
  case_inv text st' /\ case_work st' < case_work (pair pp ps cp cs o i rest (upper fin)).
Proof.
  intros Hfl Ht He Hf. destruct Hfl as [pp cp cs Hpp Hi|buf cp cs Hi Hb Hl|buf pp ps cp cs Hw Hi Hb Hl|buf pp ps Hw Hb Hl
    |buf pp ps cp cs Hw Hi Hb Hl|buf cp cs Hi Hb|cp cs Hi|sg Hs].
  - destruct Hpp as [->|[->|[->| ->]]].
    + next_state Hf. split; [|cbn; lia]. apply (case_pair _ KP2 Ready cp cs [] [] [] fin rest); [|done|done]. by constructor; auto.
    + next_state Hf. split; [|cbn; lia]. apply (case_pair _ KPRead Ready cp cs [] [] [] fin rest); [|done|done]. by constructor; auto.
    + destruct rest as [|c rest].
      * next_state Hf. split; [|cbn; lia]. apply (case_pair _ KPExit Ready cp cs [] [] [] fin []); [|done|done]. by constructor; auto.
      * next_state Hf. split; [|cbn; rewrite ?length_take, ?length_drop; lia].
        apply (case_pair _ (KPWrite (c :: take 99 rest)) Ready cp cs [] [] (c :: take 99 rest) fin (drop 99 rest)); [|cbn; by rewrite take_drop|done].
        constructor; [done|done|]. cbn. rewrite length_take. unfold BUF_SIZE. lia.
    + rewrite (He eq_refl) in *. next_state Hf. split; [|cbn; lia]. rewrite app_nil_r.
      apply (case_pair _ KPExit (Dead (Some EXIT_SUCCESS)) cp cs [] [] [] fin []); [by constructor|done|done].
  - rewrite parent_write in Hf by done. injection Hf as <-. split; [|cbn; lia].
    apply (case_pair _ (KPWrite buf) (Writing (length buf)) cp cs buf [] buf fin rest); [|done|done]. constructor; [constructor|done..].
  - destruct Hw.
    + rewrite (written buf) in Hf by done. injection Hf as <-. split; [|cbn; lia].
      apply (case_pair _ KPBack Ready cp cs buf [] buf fin rest); [|done|done]. constructor; [constructor|done..].
    + exfalso. destruct Hi; done.
  - destruct Hw.
    + rewrite (written buf) in Hf by done. injection Hf as <-. split; [|cbn; lia].
      apply (case_pair _ KPBack Ready (KCWrite (upper buf)) Ready [] [] buf fin rest); [|done|done]. constructor; [constructor|done..].
    + done.
  - destruct Hw.
    + rewrite (written buf) in Hf by done. injection Hf as <-. split; [|cbn; lia].
      apply (case_pair _ KPBack Ready cp cs [] (upper buf) buf fin rest); [|done|done]. constructor; [constructor|done..].
    + destruct buf as [|c buf]; [done|]. next_state Hf.
      assert (Ht99 : take 99 (upper buf) = upper buf) by (apply take_ge; rewrite length_upper; unfold BUF_SIZE in Hl; simpl in Hl; lia).
      assert (Hd99 : drop 99 (upper buf) = []) by (apply drop_ge; rewrite length_upper; unfold BUF_SIZE in Hl; simpl in Hl; lia).
      change (toupper <$> buf) with (upper buf). rewrite Ht99, Hd99. split; [|cbn; unfold upper; rewrite ?length_fmap; lia].
      apply (case_pair _ (KPOut (upper (c :: buf))) Ready cp cs [] [] (c :: buf) fin rest); [|done|done]. by constructor.
  - next_state Hf. split; [|cbn; lia]. rewrite <-upper_app.
    apply (case_pair _ KPRead Ready cp cs [] [] [] (fin ++ buf) rest); [|by rewrite <-app_assoc|done]. constructor; auto.
  - done.
  - done.
Qed.

Lemma case_child_steps pp ps cp cs o i flight fin rest st' :
  flying pp ps cp cs o i flight -> text = fin ++ flight ++ rest -> (pp = KPExit -> rest = []) ->
  cfire (Run 1) (pair pp ps cp cs o i rest (upper fin)) = Some st' ->
  case_inv text st' /\ case_work st' < case_work (pair pp ps cp cs o i rest (upper fin)).
Proof.
  intros Hfl Ht He Hf.
  assert (Hidle : idle cp cs -> (forall cp' cs', idle cp' cs' -> flying pp ps cp' cs' o i flight) ->
    (cp = KCRead -> cs = Ready -> o <> [] -> flying pp ps (KCWrite (upper (take BUF_SIZE o))) Ready (drop BUF_SIZE o) i flight) ->
    (existsb (same_end (0, WR)) (holding pp ps) = false -> o = [] -> flying pp ps KCExit Ready [] i flight) ->
    case_inv text st' /\ case_work st' < case_work (pair pp ps cp cs o i rest (upper fin))).
  { intros Hi H1 H2 H3. destruct (idle_steps _ _ _ _ _ _ _ _ _ Hi Hf)
      as [(cp' & cs' & Hi' & -> & Hlt)|(-> & -> & [(Ho & ->)|(-> & Hw & ->)])].
    - split; [by eapply case_pair; [apply H1|..]|]. cbn in *. lia.
    - split; [by eapply case_pair; [apply H2|..]|]. destruct o as [|c o]; [done|]. cbn. rewrite length_upper, length_take, length_drop. lia.
    - split; [by eapply case_pair; [apply H3|..]|]. cbn. lia. }
  destruct Hfl as [pp cp cs Hpp Hi|buf cp cs Hi Hb Hl|buf pp ps cp cs Hw Hi Hb Hl|buf pp ps Hw Hb Hl
    |buf pp ps cp cs Hw Hi Hb Hl|buf cp cs Hi Hb|cp cs Hi|sg Hs].
  - apply Hidle; [done|by constructor|done|]. destruct Hpp as [->|[->|[->| ->]]]; done.
  - apply Hidle; [done|by constructor|done|done].
  - apply Hidle; [done|by constructor| |by destruct Hw].
    intros _ _ _. rewrite take_ge, drop_ge by done. by constructor.
  - rewrite (child_write _ _ _ _ _ _ Hw Hb Hl) in Hf. injection Hf as <-. split.
    + apply (case_pair _ pp ps (KCWrite (upper buf)) (Writing (length (upper buf))) [] (upper buf) buf fin rest); [|exact Ht|done].
      apply fly_in; [done|constructor|done|done].
    + cbn. rewrite length_upper. destruct buf; [done|]. cbn. lia.
  - apply Hidle; [done|by constructor|done|by destruct Hw].
  - apply Hidle; [done|by constructor|done|done].
  - apply Hidle; [done|by constructor|done|]. intros _ _. apply fly_exit. by left.
  - destruct Hs as [-> | ->]; [|done]. next_state Hf. split; [|cbn; lia].
    eapply (case_pair _ KPExit (Dead (Some EXIT_SUCCESS)) KCExit (Dead (Some EXIT_SUCCESS))); [|exact Ht|done]. apply fly_exit. by right.
Qed.

Lemma case_step e st st' : case_inv text st -> cfire e st = Some st' -> case_inv text st' /\ case_work st' < case_work st.
Proof.
  intros Hi Hf. destruct e as [n| |]; [|done|].
  - destruct Hi as [| | |pp ps cp cs o i flight fin rest Hfl Ht He].
    1-3: destruct n; [|done]; next_state Hf; (split; [|cbn; lia]); try constructor.
    + apply (case_pair _ KP1 Ready KC1 Ready [] [] [] [] text); [|done|done]. constructor; [by left|constructor].
    + destruct n as [|[|n]]; [by eapply case_parent_steps|by eapply case_child_steps|done].
  - exfalso. destruct Hi as [| | |pp ps cp cs o i flight fin rest Hfl _ _]; [done..|].
    destruct Hfl as [pp cp cs Hpp Hi|buf cp cs Hi|buf pp ps cp cs Hw Hi|buf pp ps Hw|buf pp ps cp cs Hw Hi|buf cp cs Hi|cp cs Hi|sg [-> | ->]];
      try destruct Hw; try destruct Hi; done.
Qed.

(** The child can run while it has something to read or to write, or sees the
    end of its input. *)
Lemma idle_runs pp ps cp cs o i rest out : idle cp cs -> o <> [] \/ existsb (same_end (0, WR)) (holding pp ps) = false \/ cp <> KCRead ->
  is_Some (cfire (Run 1) (pair pp ps cp cs o i rest out)).
Proof.
  intros Hi Hor. destruct Hi; cbn; eauto.
  - destruct o as [|c o]; [|eauto]. destruct Hor as [?|[Hw|?]]; [done| |done]. rewrite Hw. cbn. eauto.
  - rewrite drop_all. eauto.
Qed.

Lemma case_stuck st : case_inv text st -> (exists e, is_Some (cfire e st)) \/ (forall e, cfire e st = None) /\ case_done text st.
Proof.
  intros Hi. destruct Hi as [| | |pp ps cp cs o i flight fin rest Hfl Ht He]; [left; exists (Run 0); cbn; eauto..|].
  destruct Hfl as [pp cp cs Hpp Hi|buf cp cs Hi Hb Hl|buf pp ps cp cs Hw Hi Hb Hl|buf pp ps Hw Hb Hl
    |buf pp ps cp cs Hw Hi Hb Hl|buf cp cs Hi Hb|cp cs Hi|sg Hs].
  - left. exists (Run 0). destruct Hpp as [->|[->|[->| ->]]]; cbn; eauto.
  - left. exists (Run 0). rewrite parent_write by done. eauto.
  - left. exists (Run 1). apply idle_runs; auto.
  - left. exists (Run 1). rewrite (child_write buf) by done. eauto.
  - left. exists (Run 0). destruct Hw; [rewrite (written buf) by done; eauto|]. destruct buf; [done|]. cbn. eauto.
  - left. exists (Run 0). cbn. eauto.
  - left. exists (Run 1). apply idle_runs; auto.
  - destruct Hs as [-> | ->]; [left; exists (Run 1); cbn; eauto|]. right. pose proof (He eq_refl) as ->. cbn in Ht. rewrite app_nil_r in Ht. subst fin.
    split; [|done]. by intros [[|[|n]]| |].
Qed.
End Steps.

(** C14: whatever the standard input of change_case, and however its two
    processes are scheduled, they end with success: the parent has written the
    input in upper case, all of it and in order, and nothing is left in the
    pipes. *)
Theorem change_case_converts (text : cstr) (capacity : nat) (prompt : bool) : PIPE_BUF <= capacity ->
  always_ends (fire change_case capacity false prompt false) (case_done text) (boot KPipe [] text).
Proof.
  intros Hcap. apply (ends_by_work _ (case_inv text) _ (fun st => Z.of_nat (case_work st))).
  - intros; lia.
  - intros e st st' Hi Hf. destruct (case_step text capacity prompt Hcap e st st' Hi Hf). split; [done|lia].
  - intros st Hi. by apply case_stuck.
  - constructor.
Qed.

Lemma change_case_converts_witness :
  PIPE_BUF <= PIPE_BUF /\ upper (lit "Hello") = lit "HELLO" /\
  always_ends (fire change_case PIPE_BUF false false false) (case_done (lit "Hello")) (boot KPipe [] (lit "Hello")).
Proof. split; [done|]. split; [done|]. by apply change_case_converts. Defined.
