(* ===== verification/TtyFunctions.v ===== *)
(** Terminal modes: tty/tty_functions.c puts a terminal in cbreak or raw mode,
    and tty/test_tty_functions.c reads characters in one of these modes and
    gives the terminal back as the user had it whenever it stops or ends
    (src/tlpi-dist). The program is a transition system: a signal may come
    between any two of its calls, also in a handler. *)
From Stdlib Require Import ZArith Lia Ascii String.
From stdpp Require Import base tactics list strings.
From S2P Require Import Prelude CString Process Transitions.
#[local] Open Scope Z_scope.

(** ** tty_functions.c *)

Record termios := Termios { c_iflag : Z; c_oflag : Z; c_cflag : Z; c_lflag : Z; c_cc : list Z }.

Definition ISIG : Z := 1.
Definition ICANON : Z := 2.
Definition ECHO : Z := 8.
Definition IEXTEN : Z := 0x8000.
Definition IGNBRK : Z := 1.
Definition BRKINT : Z := 2.
Definition PARMRK : Z := 8.
Definition INPCK : Z := 0x10.
Definition ISTRIP : Z := 0x20.
Definition INLCR : Z := 0x40.
Definition IGNCR : Z := 0x80.
Definition ICRNL : Z := 0x100.
Definition IXON : Z := 0x400.
Definition OPOST : Z := 1.
Definition VTIME : nat := 5.
Definition VMIN : nat := 6.

(** [flags &= ~mask]. *)
Definition clear (flags mask : Z) : Z := Z.land flags (Z.lnot mask).

Definition one_char (cc : list Z) : list Z := <[VTIME := 0]> (<[VMIN := 1]> cc).

Definition cbreak_termios (t : termios) : termios :=
  Termios (clear (c_iflag t) ICRNL) (c_oflag t) (c_cflag t)
    (Z.lor (clear (c_lflag t) (Z.lor ICANON ECHO)) ISIG) (one_char (c_cc t)).

Definition raw_input : Z :=
  foldr Z.lor 0 [BRKINT; ICRNL; IGNBRK; IGNCR; INLCR; INPCK; ISTRIP; IXON; PARMRK].
Definition raw_local : Z := foldr Z.lor 0 [ICANON; ISIG; IEXTEN; ECHO].

Definition raw_termios (t : termios) : termios :=
  Termios (clear (c_iflag t) raw_input) (clear (c_oflag t) OPOST) (c_cflag t)
    (clear (c_lflag t) raw_local) (one_char (c_cc t)).

(** tcgetattr and tcsetattr with TCSAFLUSH. *)
Class TtyOS (K : Type) := {
  os_tcgetattr : K -> Z -> K * (Z + termios);
  os_tcsetattr : K -> Z -> termios -> K * (Z + unit)
}.

Section Code.
Context {K : Type} {OS : TtyOS K}.
Abbreviation PM := (M (proc K)).

(** The result, and what is stored in [*prevTermios]. *)
Definition tty_set (new : termios -> termios) (fd : Z) : PM (Z * option termios) :=
  let! t := syscall (fun k => os_tcgetattr k fd) in
  match t with
  | None => ret (-1, None)
  | Some t =>
      let! r := syscall (fun k => os_tcsetattr k fd (new t)) in
      match r with
      | None => ret (-1, Some t)
      | Some _ => ret (0, Some t)
      end
  end.

Definition ttySetCbreak (fd : Z) : PM (Z * option termios) := tty_set cbreak_termios fd.
Definition ttySetRaw (fd : Z) : PM (Z * option termios) := tty_set raw_termios fd.

End Code.

(** ** test_tty_functions.c *)

(** What is printed for a character that is read. *)
Definition iscntrl (c : ascii) : bool := (char_code c <? 32) || (char_code c =? 127).
Definition tolower (c : ascii) : ascii :=
  let n := char_code c in if (65 <=? n) && (n <=? 90) then ascii_of_nat (Z.to_nat (n + 32)) else c.
Definition CR : ascii := ascii_of_nat 13.

Definition echo (ch : ascii) : cstr :=
  if isalpha ch then [tolower ch]
  else if bool_decide (ch = NEWLINE \/ ch = CR) then [ch]
  else if iscntrl ch then ["^"%char; ascii_of_nat (Z.to_nat (Z.lxor (char_code ch) 64))]
  else ["*"%char].

Inductive sig := SInt | SQuit | STerm | STstp.
#[export] Instance sig_eq_dec : EqDecision sig.
Proof. solve_decision. Defined.
Inductive disposition := DDfl | DIgn | DHandler.
#[export] Instance disposition_eq_dec : EqDecision disposition.
Proof. solve_decision. Defined.

(** main: ttySetCbreak or ttySetRaw in two calls, the handlers, the loop, the
    last tcsetattr, exit. *)
Inductive main_pc := MGet | MSet (t : termios) | MQuit | MInt | MTstp | MTerm | MLoop | MRestore | MExit.


(** handler: tcsetattr, _exit. *)
Inductive handler_pc := HSet | HExit.

(** tstpHandler, [ours] being [ourTermios]: tcgetattr, tcsetattr, signal, raise
    and unblock, reblock, sigaction, tcgetattr, tcsetattr. *)
Inductive tstp_pc :=
| TSave
| TRestore (ours : termios)
| TDefault (ours : termios)
| TStop (ours : termios)
| TReblock (ours : termios)
| THandle (ours : termios)
| TResave (ours : termios)
| TOurs (ours : termios).

Inductive frame := FHandler (s : sig) (pc : handler_pc) | FTstp (pc : tstp_pc).

(** How the process ended: [exit] or [_exit], [errExit], a signal. *)
Inductive ending := Exited | Failed | Killed.

(** [made]: the settings that the user has made, the last one first. *)
Record state := State {
  term : termios;
  made : list termios;
  userTermios : termios;
  disp : sig -> disposition;
  stopped : bool;
  main : main_pc;
  frames : list frame;
  fin : option ending
}.

(** A static variable before it is written. *)
Definition static_termios : termios := Termios 0 0 0 0 (replicate 32 0).

(** Before main, with the signals that the parent ignores or not. *)
Definition start (t : termios) (d : sig -> disposition) : state :=
  State t [t] static_termios d false MGet [] None.

Definition set_disp (s : sig) (d : disposition) (f : sig -> disposition) : sig -> disposition :=
  fun s' => if decide (s' = s) then d else f s'.

(** Establish the handler if the signal is not ignored. *)
Definition install (s : sig) (f : sig -> disposition) : sig -> disposition :=
  if decide (f s = DIgn) then f else set_disp s DHandler f.

(** One call of main; [cbreak]: there is an argument. A turn of the loop that
    does not leave it changes nothing here. *)
Definition run_main (cbreak : bool) (st : state) : option state :=
  let go u d m := Some (State (term st) (made st) u d (stopped st) m [] (fin st)) in
  match main st with
  | MGet => go (term st) (disp st) (MSet ((if cbreak then cbreak_termios else raw_termios) (term st)))
  | MSet t =>
      Some (State t (made st) (userTermios st) (disp st) (stopped st) (if cbreak then MQuit else MTerm) [] (fin st))
  | MQuit => go (userTermios st) (install SQuit (disp st)) MInt
  | MInt => go (userTermios st) (install SInt (disp st)) MTstp
  | MTstp => go (userTermios st) (install STstp (disp st)) MTerm
  | MTerm => go (userTermios st) (set_disp STerm DHandler (disp st)) MLoop
  | MLoop => go (userTermios st) (disp st) MRestore
  | MRestore =>
      Some (State (userTermios st) (made st) (userTermios st) (disp st) (stopped st) MExit [] (fin st))
  | MExit => Some (State (term st) (made st) (userTermios st) (disp st) (stopped st) MExit [] (Some Exited))
  end.

(** One call of the function on top of the stack. *)
Definition run (cbreak : bool) (st : state) : option state :=
  let go t u d stop fs := Some (State t (made st) u d stop (main st) fs (fin st)) in
  if stopped st || bool_decide (is_Some (fin st)) then None
  else
    match frames st with
    | [] => run_main cbreak st
    | FHandler s HSet :: rest =>
        go (userTermios st) (userTermios st) (disp st) false (FHandler s HExit :: rest)
    | FHandler s HExit :: rest =>
        Some (State (term st) (made st) (userTermios st) (disp st) false (main st) (frames st) (Some Exited))
    | FTstp pc :: rest =>
        let next t u d stop pc := go t u d stop (FTstp pc :: rest) in
        match pc with
        | TSave => next (term st) (userTermios st) (disp st) false (TRestore (term st))
        | TRestore o => next (userTermios st) (userTermios st) (disp st) false (TDefault o)
        | TDefault o => next (term st) (userTermios st) (set_disp STstp DDfl (disp st)) false (TStop o)
        | TStop o => next (term st) (userTermios st) (disp st) true (TReblock o)
        | TReblock o => next (term st) (userTermios st) (disp st) false (THandle o)
        | THandle o => next (term st) (userTermios st) (set_disp STstp DHandler (disp st)) false (TResave o)
        | TResave o => next (term st) (term st) (disp st) false (TOurs o)
        | TOurs o => go o (userTermios st) (disp st) false rest
        end
    end.

(** A signal is blocked while its handler runs, but SIGTSTP not where
    tstpHandler has unblocked it. *)
Definition blocks (s : sig) (f : frame) : bool :=
  match f with
  | FHandler s' _ => bool_decide (s' = s)
  | FTstp (TReblock _) => false
  | FTstp _ => bool_decide (s = STstp)
  end.

Definition deliver (s : sig) (st : state) : option state :=
  if stopped st || bool_decide (is_Some (fin st)) || existsb (blocks s) (frames st) then None
  else
    match disp st s with
    | DIgn => Some st
    | DHandler =>
        let f := if decide (s = STstp) then FTstp TSave else FHandler s HSet in
        Some (State (term st) (made st) (userTermios st) (disp st) false (main st) (f :: frames st) (fin st))
    | DDfl =>
        let stop := bool_decide (s = STstp) in
        Some (State (term st) (made st) (userTermios st) (disp st) stop (main st) (frames st)
                (if stop then None else Some Killed))
    end.

(** The program goes on, a call fails, a signal comes; or, while it is stopped,
    the user changes the settings or continues the program. *)
Inductive event := Run | Fails | Signal (s : sig) | UserSets (t : termios) | Continue.

Definition fire (cbreak : bool) (e : event) (st : state) : option state :=
  match e with
  | Run => run cbreak st
  | Fails =>
      if stopped st || bool_decide (is_Some (fin st)) then None
      else Some (State (term st) (made st) (userTermios st) (disp st) false (main st) (frames st) (Some Failed))
  | Signal s => deliver s st
  | UserSets t =>
      if stopped st then
        Some (State t (t :: made st) (userTermios st) (disp st) true (main st) (frames st) (fin st))
      else None
  | Continue =>
      if stopped st then
        Some (State (term st) (made st) (userTermios st) (disp st) false (main st) (frames st) (fin st))
      else None
  end.

(** The handlers are in place. *)
Definition ready (m : main_pc) : bool := match m with MLoop | MRestore | MExit => true | _ => false end.

(** No signal comes before. *)
Definition fire_ready (cbreak : bool) (e : event) (st : state) : option state :=
  match e with
  | Signal _ => if ready (main st) then fire cbreak e st else None
  | _ => fire cbreak e st
  end.

(** ** The library leaves a terminal in the mode it names *)

(** A terminal as its settings. *)
Class TtyLaws (K : Type) {OS : TtyOS K} (fd : Z) := {
  settings : K -> termios;
  tty_get k : match os_tcgetattr k fd with
    | (k', inr t) => t = settings k /\ settings k' = settings k
    | (k', inl _) => settings k' = settings k
    end;
  tty_put k t : match os_tcsetattr k fd t with
    | (k', inr _) => settings k' = t
    | (k', inl _) => settings k' = settings k
    end
}.

(** Flags that a mask clears may be set before. *)
Lemma clear_absorbs f a b m :
  Z.land a m = a -> Z.land b m = b -> clear (Z.lor (clear f a) b) m = clear f m.
Proof.
  intros Ha Hb. unfold clear. apply Z.bits_inj'. intros n Hn.
  rewrite !Z.land_spec, Z.lor_spec, Z.land_spec, !Z.lnot_spec by done.
  assert (Ha' : Z.testbit a n = Z.testbit a n && Z.testbit m n) by (by rewrite <-Z.land_spec, Ha).
  assert (Hb' : Z.testbit b n = Z.testbit b n && Z.testbit m n) by (by rewrite <-Z.land_spec, Hb).
  by destruct (Z.testbit f n), (Z.testbit a n), (Z.testbit b n), (Z.testbit m n).
Qed.

Lemma clear_bit f m n : 0 <= n -> Z.testbit (clear f m) n = Z.testbit f n && negb (Z.testbit m n).
Proof. intros Hn. unfold clear. by rewrite Z.land_spec, Z.lnot_spec. Qed.

Lemma clear_clear f a m : Z.land a m = a -> clear (clear f a) m = clear f m.
Proof. intros Ha. rewrite <-(clear_absorbs f a 0 m Ha eq_refl). by rewrite Z.lor_0_r. Qed.

Lemma one_char_twice cc : one_char (one_char cc) = one_char cc.
Proof.
  unfold one_char. rewrite (list_insert_insert_ne cc VTIME VMIN) by done.
  rewrite list_insert_insert_eq, (list_insert_insert_ne _ VTIME VMIN) by done. by rewrite list_insert_insert_eq.
Qed.

(** Whatever mode the terminal is in, raw mode is the same after cbreak mode as
    at once, and each mode set twice is the mode set once. *)
Lemma modes_again t :
  raw_termios (cbreak_termios t) = raw_termios t /\ raw_termios (raw_termios t) = raw_termios t /\
  cbreak_termios (cbreak_termios t) = cbreak_termios t.
Proof.
  unfold raw_termios, cbreak_termios. simpl. rewrite one_char_twice, !clear_clear by done.
  split_and!; [by rewrite clear_absorbs|done|]. f_equal.
  unfold clear. apply Z.bits_inj'. intros n Hn. rewrite !Z.lor_spec, !Z.land_spec, Z.lor_spec, Z.land_spec, !Z.lnot_spec by done.
  by destruct (Z.testbit (c_lflag t) n), (Z.testbit (Z.lor ICANON ECHO) n), (Z.testbit ISIG n).
Qed.

(** The flags of the two modes, bit by bit. *)
Definition mode_bits (t t' : termios) (input_off output_off local_off local_on : Z) : Prop :=
  c_cflag t' = c_cflag t /\
  (forall n, 0 <= n -> Z.testbit (c_iflag t') n = Z.testbit (c_iflag t) n && negb (Z.testbit input_off n)) /\
  (forall n, 0 <= n -> Z.testbit (c_oflag t') n = Z.testbit (c_oflag t) n && negb (Z.testbit output_off n)) /\
  (forall n, 0 <= n -> Z.testbit (c_lflag t') n =
     (Z.testbit (c_lflag t) n && negb (Z.testbit local_off n)) || Z.testbit local_on n) /\
  (forall n, n <> VMIN -> n <> VTIME -> c_cc t' !! n = c_cc t !! n) /\
  ((VMIN < length (c_cc t))%nat -> c_cc t' !! VMIN = Some 1 /\ c_cc t' !! VTIME = Some 0).

Lemma one_char_spec cc :
  (forall n, n <> VMIN -> n <> VTIME -> one_char cc !! n = cc !! n) /\
  ((VMIN < length cc)%nat -> one_char cc !! VMIN = Some 1 /\ one_char cc !! VTIME = Some 0).
Proof.
  unfold one_char. split.
  - intros n H1 H2. by rewrite !list_lookup_insert_ne by done.
  - intros Hl. rewrite list_lookup_insert_ne, list_lookup_insert_eq by done. split; [done|].
    apply list_lookup_insert_eq. rewrite length_insert. unfold VMIN, VTIME in *. lia.
Qed.

Lemma cbreak_bits t : mode_bits t (cbreak_termios t) ICRNL 0 (Z.lor ICANON ECHO) ISIG.
Proof.
  split; [done|]. split; [intros n Hn; by apply clear_bit|].
  split; [intros n Hn; simpl; by rewrite Z.testbit_0_l, andb_true_r|].
  split; [intros n Hn; simpl; by rewrite Z.lor_spec, clear_bit|]. apply one_char_spec.
Qed.

Lemma raw_bits t : mode_bits t (raw_termios t) raw_input OPOST raw_local 0.
Proof.
  split; [done|]. do 2 (split; [intros n Hn; by apply clear_bit|]).
  split; [intros n Hn; simpl; by rewrite clear_bit, Z.testbit_0_l, orb_false_r|]. apply one_char_spec.
Qed.

Section Modes.
Context {K : Type} {OS : TtyOS K} (fd : Z) {TL : TtyLaws K fd}.
Implicit Type s : proc K.

Lemma wp_tty_set new s :
  wp (tty_set new fd) (fun '(r, prev) s' =>
    (r = 0 /\ prev = Some (settings (kern s)) /\ settings (kern s') = new (settings (kern s))) \/
    (r = -1 /\ settings (kern s') = settings (kern s))) (fun _ _ => False) s.
Proof.
  apply wp_bind, wp_syscall; intros k x Hx; pose proof (tty_get (kern s)) as Hg; rewrite Hx in Hg.
  - apply wp_ret. by right.
  - destruct Hg as [-> Hg]. apply wp_bind, wp_syscall; intros k' y Hy;
      pose proof (tty_put k (new (settings (kern s)))) as Hp; simpl in Hy; rewrite Hy in Hp; apply wp_ret.
    + right. split; [done|]. simpl. congruence.
    + by left.
Qed.

(** ttySetRaw and ttySetCbreak return zero exactly when the terminal has been
    changed: then it has the flags of the mode and is otherwise as it was, and
    the previous settings have been returned; if they fail the terminal is as
    it was. *)
Theorem tty_modes s :
  wp (ttySetRaw fd) (fun '(r, prev) s' =>
    (r = 0 /\ prev = Some (settings (kern s)) /\
     mode_bits (settings (kern s)) (settings (kern s')) raw_input OPOST raw_local 0) \/
    (r = -1 /\ settings (kern s') = settings (kern s))) (fun _ _ => False) s /\
  wp (ttySetCbreak fd) (fun '(r, prev) s' =>
    (r = 0 /\ prev = Some (settings (kern s)) /\
     mode_bits (settings (kern s)) (settings (kern s')) ICRNL 0 (Z.lor ICANON ECHO) ISIG) \/
    (r = -1 /\ settings (kern s') = settings (kern s))) (fun _ _ => False) s.
Proof.
  split; (eapply wp_mono; [apply wp_tty_set| |done]); intros [r prev] s' [(-> & -> & ->)|[-> Hs]]; auto;
    left; split_and!; auto using raw_bits, cbreak_bits.
Qed.

End Modes.

(** ** The terminal is given back *)

Definition is_handler (f : frame) : bool := match f with FHandler _ _ => true | _ => false end.
Definition exiting (f : frame) : bool := match f with FHandler _ HExit => true | _ => false end.

(** The settings that the user has made last. *)
Definition the_users (st : state) (t : termios) : Prop := head (made st) = Some t.

(** The process has nothing left to do to the terminal below these frames. *)
Definition leaving (m : main_pc) (fs : list frame) : bool :=
  existsb exiting fs || match m with MExit => true | _ => false end.

(** tstpHandler at [pc], under the handlers [above] and above [below]. *)
Definition tstp_ok (st : state) (pc : tstp_pc) (above below : list frame) : Prop :=
  let back := term st ∈ made st /\ (above = [] -> the_users st (term st)) in
  let keeps o := leaving (main st) below = true -> o ∈ made st in
  match pc with
  | TSave => disp st STstp = DHandler /\ the_users st (userTermios st) /\ stopped st = false
  | TRestore o => disp st STstp = DHandler /\ the_users st (userTermios st) /\ keeps o /\ stopped st = false
  | TDefault o =>
      disp st STstp = DHandler /\ the_users st (userTermios st) /\ keeps o /\ back /\ stopped st = false
  | TStop o => disp st STstp = DDfl /\ keeps o /\ back /\ stopped st = false
  | TReblock o => disp st STstp = DDfl /\ keeps o /\ back
  | THandle o => disp st STstp = DDfl /\ keeps o /\ back /\ stopped st = false
  | TResave o => disp st STstp = DHandler /\ keeps o /\ back /\ stopped st = false
  | TOurs o =>
      disp st STstp = DHandler /\ keeps o /\ back /\ stopped st = false /\
      (above = [] -> the_users st (userTermios st))
  end.

Record running_ok (st : state) : Prop := {
  rok_ready : ready (main st) = true;
  rok_user : userTermios st ∈ made st;
  rok_disp s : s <> STstp -> disp st s <> DDfl;
  rok_leaving : leaving (main st) (frames st) = true -> term st ∈ made st;
  rok_frames :
    (Forall (fun f => is_handler f = true) (frames st) /\ disp st STstp <> DDfl /\
     the_users st (userTermios st) /\ stopped st = false) \/
    (exists above pc below, frames st = above ++ FTstp pc :: below /\
       Forall (fun f => is_handler f = true) above /\ Forall (fun f => is_handler f = true) below /\
       tstp_ok st pc above below)
}.

(** Before the handlers are in place. *)
Definition starting_ok (st : state) : Prop :=
  ready (main st) = false /\ frames st = [] /\ stopped st = false /\
  (match main st with MGet => the_users st (term st) | _ => the_users st (userTermios st) end) /\
  (match main st with MInt | MTstp | MTerm => disp st SQuit <> DDfl | _ => True end) /\
  (match main st with MTstp | MTerm => disp st SInt <> DDfl | _ => True end) /\
  (match main st with MTerm => disp st STstp <> DDfl | _ => True end).

Definition inv (st : state) : Prop :=
  made st <> [] /\
  match fin st with
  | None => starting_ok st \/ running_ok st
  | Some Exited => term st ∈ made st
  | Some Failed => True
  | Some Killed => False
  end.

Lemma the_users_made st t : the_users st t -> t ∈ made st.
Proof. unfold the_users. destruct (made st); simpl; [done|]. intros [= ->]. by left. Qed.

Lemma existsb_app_exiting above f below m :
  exiting f = false -> leaving m (above ++ f :: below) = existsb exiting above || leaving m below.
Proof. intros Hf. unfold leaving. rewrite existsb_app. simpl. rewrite Hf. simpl. by rewrite orb_assoc. Qed.

Lemma install_ok s f s' : s' = s \/ f s' <> DDfl -> install s f s' <> DDfl.
Proof. unfold install, set_disp. intros H. destruct (decide (f s = DIgn)) as [E|]; [|destruct (decide (s' = s)) as [->|]];
  destruct H; subst; congruence. Qed.

Lemma tty_main_inv st st' : fin st = None -> frames st = [] -> inv st ->
  run_main true st = Some st' -> inv st'.
Proof.
  intros Hf Hfr [Hm Hi]. rewrite Hf in Hi. unfold run_main. intros Hr.
  assert (Hr' : made st' = made st) by (destruct (main st); by simplify_eq). split; [by rewrite Hr'|]. clear Hr'.
  destruct Hi as [(Hrd & _ & Hs & Hu & H1 & H2 & H3)|[Hrd Hu Hd Hl Hfs]].
  - assert (Hgo : main st <> MGet -> the_users st (userTermios st)) by (intros Hne; by destruct (main st)).
    destruct (main st) eqn:Hmain; try done; injection Hr as <-; simpl; rewrite Hf;
      try (left; unfold starting_ok; simpl; split_and!; eauto using install_ok; done).
    right. split; simpl; try done; [by apply the_users_made, Hgo| |].
    + intros [] Hne; unfold set_disp; simpl; done.
    + left. by split_and!; [apply Forall_nil|by unfold set_disp; simpl|apply Hgo|].
  - assert (the_users st (userTermios st) /\ disp st STstp <> DDfl /\ stopped st = false) as (Hus & Ht & Hs).
    { destruct Hfs as [(_ & ? & ? & ?)|(a & pc & b & Hfs & _)]; [done|]. rewrite Hfr in Hfs. by destruct a. }
    destruct (main st) eqn:Hmain; try done; injection Hr as <-; simpl; rewrite ?Hf.
    + right. split; simpl; try done. left. by split_and!; [apply Forall_nil|..].
    + right. split; simpl; try done. left. by split_and!; [apply Forall_nil|..].
    + apply Hl. by rewrite Hfr.
Qed.

(** A handler changes the terminal to what [userTermios] is. *)
Lemma handler_inv st s pc rest st' : fin st = None -> stopped st = false -> frames st = FHandler s pc :: rest ->
  inv st -> run true st = Some st' -> inv st'.
Proof.
  intros Hf Hs Hfr [Hm Hi]. rewrite Hf in Hi. unfold run. rewrite Hs, Hf, Hfr. simpl.
  destruct Hi as [(_ & Hn & _)|[Hrd Hu Hd Hl Hfs]]; [by rewrite Hfr in Hn|].
  destruct pc; intros [= <-]; split; simpl; try done.
  - right. split; simpl; try done. destruct Hfs as [(Hh & Ht & Hus & _)|(above & tpc & below & E & Ha & Hb & Ht)].
    + left. rewrite Hfr in Hh. inversion Hh; subst. by split_and!; [constructor|..].
    + right. rewrite Hfr in E. destruct above as [|a above]; [done|]. injection E as <- ->.
      exists (FHandler s HExit :: above), tpc, below. inversion Ha; subst. split; [done|].
      split; [by constructor|]. split; [done|].
      destruct tpc; simpl in *; tauto || (destruct Ht as (? & ? & [? ?] & ?); split_and!; done) ||
        (destruct Ht as (? & ? & ? & [? ?] & ?); split_and!; done) || (destruct Ht as (? & ? & [? ?]); split_and!; done) || idtac.
  - apply Hl. unfold leaving. by rewrite Hfr.
Qed.

Lemma tstp_inv st pc rest st' : fin st = None -> stopped st = false -> frames st = FTstp pc :: rest ->
  inv st -> run true st = Some st' -> inv st'.
Proof.
  intros Hf Hs Hfr [Hm Hi]. rewrite Hf in Hi. unfold run. rewrite Hs, Hf, Hfr. simpl.
  destruct Hi as [(_ & Hn & _)|[Hrd Hu Hd Hl Hfs]]; [by rewrite Hfr in Hn|].
  destruct Hfs as [(Hh & _)|(above & tpc & below & E & Ha & Hb & Ht)].
  { rewrite Hfr in Hh. by inversion Hh. }
  rewrite Hfr in E. destruct above as [|a above]; [|injection E as <- ->; by inversion Ha]. injection E as <- <-.
  assert (Hlv : leaving (main st) (frames st) = leaving (main st) rest) by (by rewrite Hfr).
  assert (Hset : forall d s, s <> STstp -> set_disp STstp d (disp st) s = disp st s)
    by (intros d s Hne; unfold set_disp; by rewrite decide_False).
  assert (Hown : forall d, set_disp STstp d (disp st) STstp = d) by (intros d; unfold set_disp; by rewrite decide_True).
  destruct pc; intros [= <-]; (split; [done|]); simpl; right; simpl in Ht.
  all: assert (Hl' : leaving (main st) rest = true -> term st ∈ made st) by (intros Hx; apply Hl; by rewrite Hlv).
  all: try (split; simpl; [done|tauto|intros s Hne; rewrite ?Hset by done; by apply Hd| |
    right; eexists [], _, rest; split; [done|]; split; [done|]; split; [done|]; simpl; rewrite ?Hown; intuition auto using the_users_made]).
  all: try (intros Hx; change (leaving (main st) rest = true) in Hx; tauto || by apply the_users_made).
  - split; simpl; try done; [tauto|]. left. destruct Ht as (Hd' & _ & _ & _ & Hu'). rewrite Hd'. by split_and!; [..|apply Hu'|].
Qed.

Lemma deliver_inv s st st' : ready (main st) = true -> inv st -> deliver s st = Some st' -> inv st'.
Proof.
  intros Hrd [Hm Hi]. unfold deliver. destruct (stopped st) eqn:Hs; [done|]. destruct (fin st) eqn:Hf; [done|]. simpl.
  destruct (existsb (blocks s) (frames st)) eqn:Hb; [done|].
  destruct Hi as [(Hn & _)|[_ Hu Hd Hl Hfs]]; [by rewrite Hrd in Hn|].
  destruct (disp st s) eqn:Hds; intros [= <-]; (split; [done|]); simpl.
  - destruct (decide (s = STstp)) as [->|Hne]; [|by destruct (Hd s Hne)].
    rewrite bool_decide_eq_true_2 by done. right. split; simpl; try done.
    destruct Hfs as [(_ & Ht & _)|(above & pc & below & E & Ha & Hbl & Ht)]; [done|]. right.
    exists above, pc, below. do 3 (split; [done|]).
    rewrite E, existsb_app in Hb. apply orb_false_iff in Hb as [_ Hb]. simpl in Hb. apply orb_false_iff in Hb as [Hb _].
    by destruct pc; simpl in Hb.
  - rewrite Hf. right. by split.
  - right. split; simpl; try done.
    + intros Hx. apply Hl. by destruct (decide (s = STstp)).
    + destruct (decide (s = STstp)) as [->|Hne].
      * destruct Hfs as [(Hh & Ht & Hus & _)|(above & pc & below & E & Ha & Hbl & Ht)].
        -- right. by exists [], TSave, (frames st).
        -- rewrite E, existsb_app in Hb. apply orb_false_iff in Hb as [_ Hb]. simpl in Hb. apply orb_false_iff in Hb as [Hb _].
           destruct pc; simpl in Hb; try done.
           simpl in Ht. destruct Ht as (Ht & _). congruence.
      * destruct Hfs as [(Hh & Ht & Hus & _)|(above & pc & below & E & Ha & Hbl & Ht)].
        -- left. by split_and!; [constructor|..].
        -- right. exists (FHandler s HSet :: above), pc, below. rewrite E. split; [done|]. split; [by constructor|].
           split; [done|]. destruct pc; simpl in *; intuition auto; done.
Qed.

(** While the program is stopped the user may do as he likes. *)
Lemma paused_inv st t s : inv st -> stopped st = true ->
  inv (State t (t :: made st) (userTermios st) (disp st) true (main st) (frames st) (fin st)) /\
  inv (State (term st) (made st) (userTermios st) (disp st) s (main st) (frames st) (fin st)).
Proof.
  intros [Hm Hi] Hs. unfold inv. simpl.
  destruct (fin st) as [[]|]; [split; (split; [done|]); [by left|done]|by split|done|].
  destruct Hi as [(_ & _ & Hn & _)|[Hrd Hu Hd Hl Hfs]]; [congruence|].
  destruct Hfs as [(_ & _ & _ & Hn)|(above & pc & below & E & Ha & Hbl & Ht)]; [congruence|].
  destruct pc; simpl in Ht; try (exfalso; intuition congruence). destruct Ht as (Hdf & Hk & Hmade & Hbk).
  split; (split; [done|]); right; split; simpl; try done; try (by right).
  - intros _. by left.
  - right. exists above, (TReblock ours), below. do 3 (split; [done|]). split; [done|]. simpl.
    split; [intros Hx; right; by apply Hk|]. split; [by left|done].
  - right. exists above, (TReblock ours), below. by do 3 (split; [done|]).
Qed.

Lemma tty_fire_inv e st st' : inv st -> fire_ready true e st = Some st' -> inv st'.
Proof.
  intros Hi. destruct e as [| |s|t|]; simpl; intros Hr.
  - pose proof Hr as Hr0. unfold run in Hr0. destruct (stopped st) eqn:Hs; [done|]. destruct (fin st) eqn:Hf; [done|].
    simpl in Hr0. destruct (frames st) as [|[s pc|pc] rest] eqn:Hfr.
    + by apply (tty_main_inv st).
    + by eapply handler_inv.
    + by eapply tstp_inv.
  - destruct (stopped st || _); [done|]. injection Hr as <-. destruct Hi as [Hm _]. by split.
  - destruct (ready (main st)) eqn:Hrd; [by eapply deliver_inv|done].
  - destruct (stopped st) eqn:Hs; [|done]. injection Hr as <-. by apply (paused_inv st t true).
  - destruct (stopped st) eqn:Hs; [|done]. injection Hr as <-. by apply (paused_inv st (term st) false).
Qed.

(** C30: In cbreak mode, if no signal comes before the handlers are in place,
    then whenever signals come, in the loop or in a handler, the program is
    never killed by SIGINT, SIGQUIT or SIGTERM; when it has ended with [exit] or
    [_exit], or is stopped, the terminal has settings that the user has made,
    and when tstpHandler has stopped it the ones that he has made last. *)
Theorem terminal_given_back (t : termios) (d : sig -> disposition) (st : state) :
  reachable (fire_ready true) (start t d) st ->
  fin st <> Some Killed /\
  (fin st = Some Exited \/ stopped st = true -> fin st <> Some Failed -> term st ∈ made st) /\
  (forall pc rest, stopped st = true -> fin st = None -> frames st = FTstp pc :: rest ->
   head (made st) = Some (term st)).
Proof.
  intros Hr. assert (Hi : inv st).
  { revert Hr. apply reachable_ind_inv; [|intros e s s'; apply tty_fire_inv].
    split; [done|]. left. by split_and!. }
  clear Hr. destruct Hi as [Hm Hi]. destruct (fin st) as [[]|] eqn:Hf; [by split_and!|by split_and!; [|intros [|] ?|]|done|].
  split; [done|].
  assert (Hstop : stopped st = true -> exists above below o, frames st = above ++ FTstp (TReblock o) :: below /\
    term st ∈ made st /\ (above = [] -> the_users st (term st)) /\ Forall (fun f => is_handler f = true) above).
  { intros Hs. destruct Hi as [(_ & _ & Hn & _)|[Hrd Hu Hd Hl Hfs]]; [congruence|].
    destruct Hfs as [(_ & _ & _ & Hn)|(above & pc & below & E & Ha & Hbl & Ht)]; [congruence|].
    destruct pc; simpl in Ht; try (exfalso; intuition congruence). exists above, below, ours. tauto. }
  split.
  - intros [|Hs] _; [done|]. by destruct (Hstop Hs) as (? & ? & ? & _ & Hin & _).
  - intros pc rest Hs _ Hfr. destruct (Hstop Hs) as (above & below & o & E & _ & Hus & Ha). rewrite Hfr in E.
    destruct above as [|a above]; [by apply Hus|]. injection E as <- _. inversion Ha. done.
Qed.

(** ** Sessions *)

Definition demo_tty : termios := Termios ICRNL OPOST 0 (Z.lor ISIG (Z.lor ICANON ECHO)) (replicate 32 0).
Definition demo_tty2 : termios := Termios 0 OPOST 0 (Z.lor ISIG ICANON) (replicate 32 0).
Definition not_ignored : sig -> disposition := fun _ => DDfl.
Definition run_to_loop : list event := replicate 6 Run.

(** The program is stopped, the user turns echo off and continues it, and
    interrupts it. *)
Definition demo_session : list event :=
  run_to_loop ++ [Signal STstp; Run; Run; Run; Run; UserSets demo_tty2; Continue; Run; Run; Run; Run;
                  Signal SInt; Run; Run].
Definition demo_end : state :=
  default (start demo_tty not_ignored) (run_all (fire_ready true) demo_session (start demo_tty not_ignored)).

Lemma terminal_given_back_witness :
  fin demo_end = Some Exited /\ term demo_end = demo_tty2 /\ fin demo_end <> Some Killed /\
  (fin demo_end = Some Exited \/ stopped demo_end = true -> fin demo_end <> Some Failed -> term demo_end ∈ made demo_end) /\
  (forall pc rest, stopped demo_end = true -> fin demo_end = None -> frames demo_end = FTstp pc :: rest ->
   head (made demo_end) = Some (term demo_end)).
Proof.
  split; [by vm_compute|]. split; [by vm_compute|]. apply (terminal_given_back demo_tty not_ignored demo_end).
  apply (run_all_reachable _ demo_session _ (start demo_tty not_ignored)); [apply reach_start|by vm_compute].
Defined.

(** A SIGTERM that comes when the program is continued puts back the settings
    of before it was stopped, and the user's change is lost. *)
Example change_lost : exists st,
  run_all (fire_ready true)
    (run_to_loop ++ [Signal STstp; Run; Run; Run; Run; UserSets demo_tty2; Continue; Signal STerm; Run; Run])
    (start demo_tty not_ignored) = Some st /\
  fin st = Some Exited /\ term st = demo_tty /\ head (made st) = Some demo_tty2.
Proof. eexists. split; [vm_compute; reflexivity|done]. Qed.

(** A signal before the handlers are in place leaves the terminal in cbreak
    mode. *)
Example killed_in_cbreak : exists st,
  run_all (fire true) [Run; Run; Signal SInt] (start demo_tty not_ignored) = Some st /\
  fin st = Some Killed /\ term st = cbreak_termios demo_tty.
Proof. eexists. split; [vm_compute; reflexivity|done]. Qed.

(** In raw mode there is no handler for SIGTSTP: the program stops with the
    terminal in raw mode. *)
Example stopped_in_raw : exists st,
  run_all (fire false) (replicate 3 Run ++ [Signal STstp]) (start demo_tty not_ignored) = Some st /\
  main st = MLoop /\ stopped st = true /\ term st = raw_termios demo_tty.
Proof. eexists. split; [vm_compute; reflexivity|done]. Qed.

(** Cbreak mode after raw mode is not cbreak mode: output is still raw. *)
Example cbreak_after_raw :
  c_oflag (cbreak_termios (raw_termios demo_tty)) = 0 /\ c_oflag (cbreak_termios demo_tty) = OPOST.
Proof. done. Qed.

Example echoed : echo (ascii_of_nat 1) = lit "^A" /\ echo "Q"%char = lit "q" /\ echo "7"%char = lit "*" /\ echo NEWLINE = [NEWLINE].
Proof. by vm_compute. Qed.
