(* ===== verification/Descriptors.v ===== *)
(** Descriptors: what programs that open, close, duplicate and inherit
    descriptors need of the kernel, and pty/pty_master_open.c, pty/pty_fork.c and
    daemons/become_daemon.c (src/tlpi-dist), which leave a process with exactly
    the descriptors that they promise. *)
From Stdlib Require Import ZArith Lia Ascii String.
From stdpp Require Import base tactics list strings gmap.
From S2P Require Import Prelude CString Process TtyFunctions.
#[local] Open Scope Z_scope.

Definition EOVERFLOW : Z := 75.
Definition O_RDWR : Z := 2.
Definition O_NOCTTY : Z := 0x100.
Definition STDIN_FILENO : Z := 0.
Definition STDOUT_FILENO : Z := 1.
Definition STDERR_FILENO : Z := 2.

(** fork gives 0 in the child. *)
Class DescOS (K : Type) := {
  os_open : K -> cstr -> Z -> K * (Z + Z);
  os_close : K -> Z -> K * (Z + unit);
  os_dup2 : K -> Z -> Z -> K * (Z + Z);
  os_fork : K -> K * (Z + Z);
  os_setsid : K -> K * (Z + Z)
}.

(** What a descriptor refers to: a file opened by name, the master of the
    pseudoterminal slave with a name, something else. *)
Inductive file := Path (p : cstr) | Master (slave : cstr) | Other (n : Z).

(** [fds] are the descriptors; [child] whether the process has been forked;
    [cause] the errors of calls other than close. A descriptor that is opened is
    the lowest one that is free; close frees it, whatever it returns. *)
Class DescLaws (K : Type) {OS : DescOS K} := {
  fds : K -> gmap Z file;
  child : K -> bool;
  cause : Z -> Prop;
  cause_overflow : cause EOVERFLOW;
  d_open k p fl : match os_open k p fl with
    | (k', inr fd) => 0 <= fd /\ fds k !! fd = None /\ (forall f, 0 <= f < fd -> is_Some (fds k !! f)) /\
        fds k' = <[fd := Path p]> (fds k) /\ child k' = child k
    | (k', inl e) => fds k' = fds k /\ child k' = child k /\ cause e
    end;
  d_close k fd : match os_close k fd with (k', _) => fds k' = delete fd (fds k) /\ child k' = child k end;
  d_dup2 k old new f : fds k !! old = Some f -> match os_dup2 k old new with
    | (k', inr r) => r = new /\ fds k' = <[new := f]> (fds k) /\ child k' = child k
    | (k', inl e) => fds k' = fds k /\ child k' = child k /\ cause e
    end;
  d_fork k : match os_fork k with
    | (k', inr pid) => fds k' = fds k /\ 0 <= pid /\ child k' = (if pid =? 0 then true else child k)
    | (k', inl e) => fds k' = fds k /\ child k' = child k /\ cause e
    end;
  d_setsid k : match os_setsid k with
    | (k', inr _) => fds k' = fds k /\ child k' = child k
    | (k', inl e) => fds k' = fds k /\ child k' = child k /\ cause e
    end
}.

(** ** pty_master_open.c and pty_fork.c *)

Record winsize := Winsize { ws_row : Z; ws_col : Z }.

Class PtyOS (K : Type) := {
  os_openpt : K -> Z -> K * (Z + Z);
  os_grantpt : K -> Z -> K * (Z + unit);
  os_unlockpt : K -> Z -> K * (Z + unit);
  os_ptsname : K -> Z -> K * (Z + cstr);
  os_tiocsctty : K -> Z -> K * (Z + unit);
  os_tcsetattr_now : K -> Z -> termios -> K * (Z + unit);
  os_tiocswinsz : K -> Z -> winsize -> K * (Z + unit)
}.

Definition MAX_SNAME : Z := 1000.

Section Pty.
Context `{ErrnoText} {K : Type} {OS : DescOS K} {PO : PtyOS K}.
Abbreviation PM := (M (proc K)).

(** close(fd) that leaves errno as it was. *)
Definition close_keeping_errno (fd : Z) : PM unit :=
  let! s := get in
  syscall (fun k => os_close k fd) ;;;
  modify (set_errno (errno s)).

(** The descriptor or -1, and what [slaveName] holds. *)
Definition ptyMasterOpen (snLen : Z) : PM (Z * cstr) :=
  let! masterFd := syscall (fun k => os_openpt k (Z.lor O_RDWR O_NOCTTY)) in
  match masterFd with
  | None => ret (-1, [])
  | Some masterFd =>
      let fails := close_keeping_errno masterFd ;;; ret (-1, []) in
      let! g := syscall (fun k => os_grantpt k masterFd) in
      match g with
      | None => fails
      | Some _ =>
          let! u := syscall (fun k => os_unlockpt k masterFd) in
          match u with
          | None => fails
          | Some _ =>
              let! p := syscall (fun k => os_ptsname k masterFd) in
              match p with
              | None => fails
              | Some p =>
                  if strlen p <? snLen then ret (masterFd, p)
                  else
                    syscall (fun k => os_close k masterFd) ;;;
                    modify (set_errno EOVERFLOW) ;;;
                    ret (-1, [])
              end
          end
      end
  end.

(** A call that must not fail in the child. *)
Definition child_call {A} (call : K -> K * (Z + A)) (msg : cstr) : PM A :=
  let! r := syscall call in
  match r with Some a => ret a | None => err_exit (lit "ptyFork:" ++ msg) end.

Definition child_dup2 (slaveFd fd : Z) (msg : cstr) : PM unit :=
  let! r := syscall (fun k => os_dup2 k slaveFd fd) in
  when (negb (bool_decide (r = Some fd))) (err_exit (lit "ptyFork:dup2-" ++ msg)).

(** The part of [ptyFork] that the child runs. *)
Definition pty_child (mfd : Z) (slname : cstr) (slaveTermios : option termios) (slaveWS : option winsize) : PM unit :=
  child_call os_setsid (lit "setsid") ;;;
  syscall (fun k => os_close k mfd) ;;;
  let! slaveFd := child_call (fun k => os_open k slname O_RDWR) (lit "open-slave") in
  child_call (fun k => os_tiocsctty k slaveFd) (lit "ioctl-TIOCSCTTY") ;;;
  match slaveTermios with
  | Some t => child_call (fun k => os_tcsetattr_now k slaveFd t) (lit "tcsetattr")
  | None => ret tt
  end ;;;
  match slaveWS with
  | Some ws => child_call (fun k => os_tiocswinsz k slaveFd ws) (lit "ioctl-TIOCSWINSZ")
  | None => ret tt
  end ;;;
  child_dup2 slaveFd STDIN_FILENO (lit "STDIN_FILENO") ;;;
  child_dup2 slaveFd STDOUT_FILENO (lit "STDOUT_FILENO") ;;;
  child_dup2 slaveFd STDERR_FILENO (lit "STDERR_FILENO") ;;;
  when (STDERR_FILENO <? slaveFd) (syscall (fun k => os_close k slaveFd) ;;; ret tt).

(** What ptyFork stores in [*masterFd] and [slaveName], if it does. *)
Record pty_result := PtyResult { pid : Z; masterFd : option Z; slaveName : option cstr }.

(** [snLen]: the size of [slaveName], if it is not null. *)
Definition ptyFork (snLen : option Z) (slaveTermios : option termios) (slaveWS : option winsize) : PM pty_result :=
  let! m := ptyMasterOpen MAX_SNAME in
  let '(mfd, slname) := m in
  if mfd =? -1 then ret (PtyResult (-1) None None)
  else
    let named := match snLen with Some _ => Some slname | None => None end in
    if match snLen with Some n => negb (strlen slname <? n) | None => false end then
      syscall (fun k => os_close k mfd) ;;;
      modify (set_errno EOVERFLOW) ;;;
      ret (PtyResult (-1) None None)
    else
      let! childPid := syscall os_fork in
      match childPid with
      | None => close_keeping_errno mfd ;;; ret (PtyResult (-1) None named)
      | Some childPid =>
          if negb (childPid =? 0) then ret (PtyResult childPid (Some mfd) named)
          else pty_child mfd slname slaveTermios slaveWS ;;; ret (PtyResult 0 None named)
      end.

End Pty.

(** ** become_daemon.c *)

Definition BD_NO_CHDIR : Z := 1.
Definition BD_NO_CLOSE_FILES : Z := 2.
Definition BD_NO_REOPEN_STD_FDS : Z := 4.
Definition BD_NO_UMASK0 : Z := 8.
Definition BD_MAX_CLOSE : Z := 8192.

Class DaemonOS (K : Type) := {
  os_umask : K -> Z -> K * Z;
  os_chdir : K -> cstr -> K * (Z + unit);
  os_open_max : K -> K * (Z + Z)
}.

Section Daemon.
Context `{ErrnoText} {K : Type} {OS : DescOS K} {DO : DaemonOS K}.
Abbreviation PM := (M (proc K)).

(** Fork: the parent ends, the child goes on; [false] if it fails. *)
Definition fork_away : PM bool :=
  let! pid := syscall os_fork in
  match pid with
  | None => ret false
  | Some pid => if pid =? 0 then ret true else exit EXIT_SUCCESS
  end.

(** The loop that closes the descriptors below [maxfd]. *)
Definition close_all (maxfd : Z) : PM unit :=
  for_each (seqZ 0 maxfd) (fun fd => syscall (fun k => os_close k fd) ;;; ret tt).

(** Standard descriptors to /dev/null; whether it succeeds. *)
Definition reopen_std : PM bool :=
  syscall (fun k => os_close k STDIN_FILENO) ;;;
  let! fd := syscall (fun k => os_open k (lit "/dev/null") O_RDWR) in
  if negb (bool_decide (fd = Some STDIN_FILENO)) then ret false
  else
    let! o := syscall (fun k => os_dup2 k STDIN_FILENO STDOUT_FILENO) in
    if negb (bool_decide (o = Some STDOUT_FILENO)) then ret false
    else
      let! e := syscall (fun k => os_dup2 k STDIN_FILENO STDERR_FILENO) in
      ret (bool_decide (e = Some STDERR_FILENO)).

Definition becomeDaemon (flags : Z) : PM Z :=
  let! first := fork_away in
  if negb first then ret (-1)
  else
    let! sid := syscall os_setsid in
    if bool_decide (sid = None) then ret (-1)
    else
      let! second := fork_away in
      if negb second then ret (-1)
      else
        when (negb (has_bit flags BD_NO_UMASK0)) (syscall_ (fun k => os_umask k 0) ;;; ret tt) ;;;
        when (negb (has_bit flags BD_NO_CHDIR)) (syscall (fun k => os_chdir k (lit "/")) ;;; ret tt) ;;;
        when (negb (has_bit flags BD_NO_CLOSE_FILES))
          (let! r := syscall os_open_max in
           let maxfd := to_signed 32 (default (-1) r) in
           close_all (if maxfd =? -1 then BD_MAX_CLOSE else maxfd)) ;;;
        if has_bit flags BD_NO_REOPEN_STD_FDS then ret 0
        else
          let! ok := reopen_std in
          ret (if ok then 0 else -1).

End Daemon.

(** ** The descriptors that are left *)

Section Rules.
Context `{ET : ErrnoText} {K : Type} {OS : DescOS K} {DL : DescLaws K}.
Implicit Type s : proc K.

(** The same descriptors in the same process. *)
Definition unchanged (k k' : K) : Prop := fds k' = fds k /\ child k' = child k.

(** A call that changes no descriptor, and whose errors are causes. *)
Definition harmless {A} (call : K -> K * (Z + A)) : Prop :=
  forall k, unchanged k (call k).1 /\ match (call k).2 with inl e => cause e | inr _ => True end.

Lemma wp_harmless {A} (call : K -> K * (Z + A)) (Q : option A -> proc K -> Prop) E s : harmless call ->
  (forall s', unchanged (kern s) (kern s') -> cause (errno s') -> Q None s') ->
  (forall a s', unchanged (kern s) (kern s') -> Q (Some a) s') ->
  wp (syscall call) Q E s.
Proof.
  intros Hc HN HS. specialize (Hc (kern s)). apply wp_syscall; intros k x Hx; rewrite Hx in Hc; simpl in Hc.
  - apply HN; simpl; tauto.
  - apply HS; simpl; tauto.
Qed.

Lemma wp_close_fd fd (Q : option unit -> proc K -> Prop) E s :
  (forall r s', fds (kern s') = delete fd (fds (kern s)) -> child (kern s') = child (kern s) -> Q r s') ->
  wp (syscall (fun k => os_close k fd)) Q E s.
Proof.
  intros HQ. pose proof (d_close (kern s) fd) as Hd.
  apply wp_syscall; intros k x Hx; rewrite Hx in Hd; destruct Hd; by apply HQ.
Qed.

Lemma wp_open_path p fl (Q : option Z -> proc K -> Prop) E s :
  (forall s', unchanged (kern s) (kern s') -> cause (errno s') -> Q None s') ->
  (forall fd s', 0 <= fd -> fds (kern s) !! fd = None -> (forall f, 0 <= f < fd -> is_Some (fds (kern s) !! f)) ->
     fds (kern s') = <[fd := Path p]> (fds (kern s)) -> child (kern s') = child (kern s) -> Q (Some fd) s') ->
  wp (syscall (fun k => os_open k p fl)) Q E s.
Proof.
  intros HN HS. pose proof (d_open (kern s) p fl) as Hd.
  apply wp_syscall; intros k x Hx; rewrite Hx in Hd.
  - destruct Hd as (? & ? & ?). by apply HN.
  - destruct Hd as (? & ? & ? & ? & ?). by apply HS.
Qed.

Lemma wp_dup2 old new f (Q : option Z -> proc K -> Prop) E s : fds (kern s) !! old = Some f ->
  (forall s', unchanged (kern s) (kern s') -> cause (errno s') -> Q None s') ->
  (forall s', fds (kern s') = <[new := f]> (fds (kern s)) -> child (kern s') = child (kern s) -> Q (Some new) s') ->
  wp (syscall (fun k => os_dup2 k old new)) Q E s.
Proof.
  intros Hf HN HS. pose proof (d_dup2 (kern s) old new f Hf) as Hd.
  apply wp_syscall; intros k x Hx; rewrite Hx in Hd.
  - destruct Hd as (? & ? & ?). by apply HN.
  - destruct Hd as (-> & ? & ?). by apply HS.
Qed.

Lemma wp_fork (Q : option Z -> proc K -> Prop) E s :
  (forall s', unchanged (kern s) (kern s') -> cause (errno s') -> Q None s') ->
  (forall pid s', 0 < pid -> unchanged (kern s) (kern s') -> Q (Some pid) s') ->
  (forall s', fds (kern s') = fds (kern s) -> child (kern s') = true -> Q (Some 0) s') ->
  wp (syscall os_fork) Q E s.
Proof.
  intros HN HP HC. pose proof (d_fork (kern s)) as Hd.
  apply wp_syscall; intros k x Hx; rewrite Hx in Hd.
  - destruct Hd as (? & ? & ?). by apply HN.
  - destruct Hd as (Hf & Hp & Hc). destruct (x =? 0) eqn:E0.
    + apply Z.eqb_eq in E0 as ->. by apply HC.
    + apply HP; [lia|done].
Qed.

Lemma setsid_harmless : harmless os_setsid.
Proof. intros k. pose proof (d_setsid k) as Hd. unfold unchanged. destruct (os_setsid k) as [k' [e|n]]; simpl; tauto. Qed.

End Rules.

(** What a new pseudoterminal is: its master, until it is closed, knows the
    name of its slave. *)
Class PtyLaws (K : Type) {OS : DescOS K} {DL : DescLaws K} {PO : PtyOS K} := {
  pl_openpt k fl : match os_openpt k fl with
    | (k', inr fd) => 0 <= fd /\ fds k !! fd = None /\ child k' = child k /\
        exists n, fds k' = <[fd := Master n]> (fds k)
    | (k', inl e) => unchanged k k' /\ cause e
    end;
  pl_grantpt fd : harmless (fun k => os_grantpt k fd);
  pl_unlockpt fd : harmless (fun k => os_unlockpt k fd);
  pl_ptsname fd : harmless (fun k => os_ptsname k fd);
  pl_name k fd n : fds k !! fd = Some (Master n) -> match os_ptsname k fd with (_, inr p) => p = n | _ => True end;
  pl_tiocsctty fd : harmless (fun k => os_tiocsctty k fd);
  pl_tcsetattr fd t : harmless (fun k => os_tcsetattr_now k fd t);
  pl_tiocswinsz fd ws : harmless (fun k => os_tiocswinsz k fd ws)
}.

Section PtyProps.
Context `{ET : ErrnoText} {K : Type} {OS : DescOS K} {DL : DescLaws K} {PO : PtyOS K} {PL : PtyLaws K}.
Implicit Type s : proc K.

Lemma wp_close_keeping fd (Q : unit -> proc K -> Prop) E s :
  (forall s', fds (kern s') = delete fd (fds (kern s)) -> child (kern s') = child (kern s) -> errno s' = errno s -> Q tt s') ->
  wp (close_keeping_errno fd) Q E s.
Proof.
  intros HQ. apply wp_bind, wp_get, wp_bind, wp_close_fd. intros r s1 H1 H2. apply wp_modify. by apply HQ.
Qed.

(** Opening a pseudoterminal in [k] gives this master, whose slave has this
    name. *)
Definition new_master (k : K) (mfd : Z) (name : cstr) : Prop :=
  exists k', os_openpt k (Z.lor O_RDWR O_NOCTTY) = (k', inr mfd) /\ fds k' !! mfd = Some (Master name).

Lemma wp_ptyMasterOpen snLen (Q : Z * cstr -> proc K -> Prop) E s :
  (forall s', unchanged (kern s) (kern s') -> cause (errno s') -> Q (-1, []) s') ->
  (forall fd n s', new_master (kern s) fd n ->
     0 <= fd -> fds (kern s) !! fd = None -> fds (kern s') = <[fd := Master n]> (fds (kern s)) ->
     child (kern s') = child (kern s) -> strlen n < snLen -> Q (fd, n) s') ->
  wp (ptyMasterOpen snLen) Q E s.
Proof.
  intros HN HS. pose proof (pl_openpt (kern s) (Z.lor O_RDWR O_NOCTTY)) as Ho.
  apply wp_bind, wp_syscall; intros k x Hx; rewrite Hx in Ho.
  { destruct Ho as [Hu Hc]. by apply wp_ret, HN. }
  destruct Ho as (Hx0 & Hfree & Hch & n & Hn).
  assert (Hback : forall s1, fds (kern s1) = <[x := Master n]> (fds (kern s)) -> child (kern s1) = child (kern s) ->
    cause (errno s1) -> wp (close_keeping_errno x ;;; ret (-1, []))%c Q E s1).
  { intros s1 H1 H2 Hc. apply wp_bind, wp_close_keeping. intros s2 H3 H4 H5. apply wp_ret, HN; [|congruence].
    split; [|congruence]. rewrite H3, H1. by apply delete_insert_id. }
  apply wp_bind, (wp_harmless _ _ _ _ (pl_grantpt x)); simpl; [intros s1 [H1 H2] Hc; apply Hback; congruence|].
  intros _ s1 [H1 H2]. apply wp_bind, (wp_harmless _ _ _ _ (pl_unlockpt x)); [intros s2 [H3 H4] Hc; apply Hback; congruence|].
  intros _ s2 [H3 H4]. pose proof (pl_name (kern s2) x n) as Hname. pose proof (pl_ptsname x (kern s2)) as [[H5 H6] Hc].
  rewrite H3, H1, Hn, lookup_insert_eq in Hname. specialize (Hname eq_refl).
  apply wp_bind, wp_syscall; intros k2 p Hp; rewrite Hp in *; simpl in *; [apply Hback; simpl; congruence|]. subst p.
  destruct (strlen n <? snLen) eqn:El.
  - apply wp_ret, HS with (n := n); simpl; try congruence; [|lia]. exists k. rewrite Hn. by rewrite lookup_insert_eq.
  - apply wp_bind, wp_close_fd. intros r s3 H7 H8. apply wp_bind, wp_modify, wp_ret, HN; [|apply cause_overflow].
    simpl in *. split; [|simpl; congruence]. simpl. rewrite H7, H5, H3, H1, Hn. by apply delete_insert_id.
Qed.
End PtyProps.

(** The child's standard descriptors. *)
Definition std_on (f : file) (m : gmap Z file) : gmap Z file :=
  <[STDERR_FILENO := f]> (<[STDOUT_FILENO := f]> (<[STDIN_FILENO := f]> m)).

Lemma std_on_lookup f m i : std_on f m !! i = if (0 <=? i) && (i <=? 2) then Some f else m !! i.
Proof.
  unfold std_on, STDERR_FILENO, STDOUT_FILENO, STDIN_FILENO. destruct ((0 <=? i) && (i <=? 2)) eqn:E.
  - assert (i = 0 \/ i = 1 \/ i = 2) as [->|[->| ->]] by lia;
      [by rewrite (lookup_insert_ne _ 2), (lookup_insert_ne _ 1), lookup_insert_eq by done
      |by rewrite (lookup_insert_ne _ 2), lookup_insert_eq by done|by rewrite lookup_insert_eq].
  - by rewrite !lookup_insert_ne by lia.
Qed.

Lemma std_from_slave (m : gmap Z file) fd f : m !! fd = None -> 0 <= fd ->
  (if STDERR_FILENO <? fd then delete fd (std_on f (<[fd := f]> m)) else std_on f (<[fd := f]> m)) = std_on f m.
Proof.
  intros Hm Hfd. unfold STDERR_FILENO. apply map_eq. intros i. rewrite std_on_lookup. destruct (2 <? fd) eqn:E.
  - destruct (decide (i = fd)) as [->|Hne].
    + rewrite lookup_delete_eq, Hm. destruct (_ && _) eqn:E2; [lia|done].
    + by rewrite lookup_delete_ne, std_on_lookup, lookup_insert_ne by done.
  - rewrite std_on_lookup. destruct (_ && _) eqn:E2; [done|]. by rewrite lookup_insert_ne by lia.
Qed.

Section PtyFork.
Context `{ET : ErrnoText} {K : Type} {OS : DescOS K} {DL : DescLaws K} {PO : PtyOS K} {PL : PtyLaws K}.
Implicit Type s : proc K.

(** The child may end, but not the parent. *)
Definition in_child (_ : exit_kind) s : Prop := child (kern s) = true.

Lemma wp_child_call {A} (call : K -> K * (Z + A)) msg (Q : A -> proc K -> Prop) s : harmless call ->
  child (kern s) = true -> (forall a s', unchanged (kern s) (kern s') -> Q a s') ->
  wp (child_call call msg) Q in_child s.
Proof.
  intros Hc Hch HQ. apply wp_bind, (wp_harmless _ _ _ _ Hc).
  - intros s1 [_ H1] _. apply wp_err_exit. intros k s2 H2. unfold in_child. congruence.
  - intros a s1 H1. by apply wp_ret, HQ.
Qed.

Lemma wp_child_dup2 slaveFd fd f msg (Q : unit -> proc K -> Prop) s : fds (kern s) !! slaveFd = Some f ->
  child (kern s) = true ->
  (forall s', fds (kern s') = <[fd := f]> (fds (kern s)) -> child (kern s') = true -> Q tt s') ->
  wp (child_dup2 slaveFd fd msg) Q in_child s.
Proof.
  intros Hf Hch HQ. apply wp_bind, (wp_dup2 _ _ f); [done| |].
  - intros s1 [_ H1] _. apply wp_when; [|by rewrite bool_decide_eq_false_2].
    intros _. apply wp_err_exit. intros k s2 H2. unfold in_child. congruence.
  - intros s1 H1 H2. apply wp_when; [by rewrite bool_decide_eq_true_2|]. intros _. apply HQ; congruence.
Qed.

Lemma wp_pty_child mfd n t ws (Q : unit -> proc K -> Prop) s m : child (kern s) = true ->
  m !! mfd = None -> fds (kern s) = <[mfd := Master n]> m ->
  (forall s', child (kern s') = true -> fds (kern s') = std_on (Path n) m -> Q tt s') ->
  wp (pty_child mfd n t ws) Q in_child s.
Proof.
  intros Hch Hm Hf HQ. apply wp_bind, (wp_child_call _ _ _ _ setsid_harmless Hch). intros _ s1 [H1 C1].
  apply wp_bind, wp_close_fd. intros _ s2 H2 C2. rewrite H1, Hf, delete_insert_id in H2 by done.
  apply wp_bind, wp_bind, wp_open_path.
  { intros s3 [_ C3] _. apply wp_err_exit. intros k s4 H4. unfold in_child. congruence. }
  intros fd s3 Hfd Hfree _ H3 C3. apply wp_ret. rewrite H2 in H3, Hfree.
  apply wp_bind, (wp_child_call _ _ _ _ (pl_tiocsctty fd)); [congruence|]. intros _ s4 [H4 C4].
  apply wp_bind. eapply wp_mono with (Q := fun _ s' => unchanged (kern s4) (kern s')) (E := in_child); [|intros [] s5 [H5 C5]|done].
  { destruct t as [t|]; [|by apply wp_ret]. apply (wp_child_call _ _ _ _ (pl_tcsetattr fd t)); [congruence|done]. }
  apply wp_bind. eapply wp_mono with (Q := fun _ s' => unchanged (kern s5) (kern s')) (E := in_child); [|intros [] s6 [H6 C6]|done].
  { destruct ws as [ws|]; [|by apply wp_ret]. apply (wp_child_call _ _ _ _ (pl_tiocswinsz fd ws)); [congruence|done]. }
  assert (F6 : fds (kern s6) = <[fd := Path n]> m) by congruence.
  assert (Hkeep : forall (i : Z) (m' : gmap Z file), m' !! fd = Some (Path n) -> <[i := Path n]> m' !! fd = Some (Path n)).
  { intros i m' Hx. destruct (decide (i = fd)) as [->|]; [apply lookup_insert_eq|by rewrite lookup_insert_ne]. }
  assert (L6 : fds (kern s6) !! fd = Some (Path n)) by (rewrite F6; apply lookup_insert_eq).
  apply wp_bind, (wp_child_dup2 fd _ (Path n)); [done|congruence|]. intros s7 F7 C7.
  apply wp_bind, (wp_child_dup2 fd _ (Path n)); [rewrite F7; auto|done|]. intros s8 F8 C8.
  apply wp_bind, (wp_child_dup2 fd _ (Path n)); [rewrite F8, F7; auto|done|]. intros s9 F9 C9.
  assert (F : fds (kern s9) = std_on (Path n) (<[fd := Path n]> m)) by (unfold std_on; congruence).
  pose proof (std_from_slave m fd (Path n) Hfree Hfd) as Hstd. apply wp_when; intros E; rewrite E in Hstd.
  - apply wp_bind, wp_close_fd. intros _ s10 F10 C10. apply wp_ret, HQ; [congruence|]. by rewrite F10, F.
  - apply HQ; [done|]. by rewrite F.
Qed.

(** C28: ptyFork returns -1 with the descriptors as they were and errno telling
    what failed; or a new pseudoterminal has been opened and it returns, in the
    parent, the child's identifier with the master as the only new descriptor;
    or, in the child, zero, with the slave of that master opened by its name as
    standard input, output and error and the other descriptors as they were.
    Both give the slave's name if it is asked for, and it fits. Only the child
    can end in it. *)
Theorem ptyFork_contract (snLen : option Z) (t : option termios) (ws : option winsize) (s : proc K) :
  wp (ptyFork snLen t ws) (fun r s' =>
    (pid r = -1 /\ masterFd r = None /\ unchanged (kern s) (kern s') /\ cause (errno s')) \/
    (exists mfd n, new_master (kern s) mfd n /\ fds (kern s) !! mfd = None /\
       slaveName r = (fun _ => n) <$> snLen /\ (forall l, snLen = Some l -> strlen n < l) /\
       (0 < pid r /\ masterFd r = Some mfd /\ child (kern s') = child (kern s) /\
          fds (kern s') = <[mfd := Master n]> (fds (kern s)) \/
        pid r = 0 /\ masterFd r = None /\ child (kern s') = true /\
          fds (kern s') = std_on (Path n) (fds (kern s))))) in_child s.
Proof.
  apply wp_bind, wp_ptyMasterOpen.
  - intros s1 Hu Hc. apply wp_ret. by left.
  - intros mfd n s1 Hnew Hmfd Hfree H1 C1 _. destruct (mfd =? -1) eqn:E; [lia|].
    destruct (match snLen with Some l => negb (strlen n <? l) | None => false end) eqn:El.
    + apply wp_bind, wp_close_fd. intros _ s2 H2 C2. apply wp_bind, wp_modify, wp_ret. left.
      split_and!; try done; [|apply cause_overflow]. split; simpl; [|congruence].
      rewrite H2, H1. by apply delete_insert_id.
    + assert (Hfits : forall l, snLen = Some l -> strlen n < l).
      { intros l ->. destruct (strlen n <? l) eqn:Ell; [lia|done]. }
      assert (Hname : match snLen with Some _ => Some n | None => None end = (fun _ => n) <$> snLen) by by destruct snLen.
      apply wp_bind, wp_fork.
      * intros s2 [H2 C2] Hc. apply wp_bind, wp_close_keeping. intros s3 H3 C3 E3. apply wp_ret. left.
        split_and!; try done; [|congruence]. split; [|congruence]. rewrite H3, H2, H1. by apply delete_insert_id.
      * intros pid s2 Hp [H2 C2]. rewrite (proj2 (Z.eqb_neq pid 0)) by lia. apply wp_ret. right. exists mfd, n.
        split_and!; try done. left. split_and!; [done|done|congruence|congruence].
      * intros s2 H2 C2. apply wp_bind, (wp_pty_child _ _ _ _ _ _ (fds (kern s))); [done|done|congruence|].
        intros s3 C3 H3. apply wp_ret. right. exists mfd, n. split_and!; try done. by right.
Qed.

End PtyFork.

(** The first descriptor that is not closed: what sysconf gives, as an int, or
    8192 if that is -1, which is also what it gives for no limit. *)
Definition close_limit {K} `{DO : DaemonOS K} (k : K) : Z :=
  let n := to_signed 32 (match (os_open_max k).2 with inr n => n | inl _ => -1 end) in
  if n =? -1 then BD_MAX_CLOSE else n.

(** The calls of a daemon that change no descriptor; and a limit is inherited
    over fork, and not changed by the calls before it is asked for. *)
Class DaemonLaws (K : Type) {OS : DescOS K} {DL : DescLaws K} {DO : DaemonOS K} := {
  dl_umask m k : unchanged k (os_umask k m).1;
  dl_chdir p k : unchanged k (os_chdir k p).1;
  dl_open_max k : unchanged k (os_open_max k).1;
  limit_umask m k : close_limit (os_umask k m).1 = close_limit k;
  limit_chdir p k : close_limit (os_chdir k p).1 = close_limit k;
  limit_fork k : close_limit (os_fork k).1 = close_limit k;
  limit_setsid k : close_limit (os_setsid k).1 = close_limit k
}.

(** The descriptors of a daemon that closes those below [limit]. *)
Definition daemon_fds (flags limit : Z) (m m' : gmap Z file) : Prop :=
  forall fd,
    m' !! fd =
      if negb (has_bit flags BD_NO_REOPEN_STD_FDS) && (0 <=? fd) && (fd <=? 2) then Some (Path (lit "/dev/null"))
      else if negb (has_bit flags BD_NO_CLOSE_FILES) && (0 <=? fd) && (fd <? limit) then None
      else m !! fd.

Section Daemons.
Context `{ET : ErrnoText} {K : Type} {OS : DescOS K} {DL : DescLaws K} {DO : DaemonOS K} {DW : DaemonLaws K}.
Implicit Type s : proc K.

Lemma wp_close_list l (Q : unit -> proc K -> Prop) E s :
  (forall s', (forall fd, fds (kern s') !! fd = if decide (fd ∈ l) then None else fds (kern s) !! fd) ->
     child (kern s') = child (kern s) -> Q tt s') ->
  wp (for_each l (fun fd => syscall (fun k => os_close k fd) ;;; ret tt)%c) Q E s.
Proof.
  revert s. induction l as [|x l IH]; intros s HQ.
  - apply wp_ret, HQ; [|done]. intros fd. by rewrite decide_False by (by intros ?%elem_of_nil).
  - apply wp_bind, wp_bind, wp_close_fd. intros _ s1 H1 C1. apply wp_ret, IH. intros s2 H2 C2. apply HQ; [|congruence].
    intros fd. rewrite H2, H1. destruct (decide (fd = x)) as [->|Hne].
    + rewrite lookup_delete_eq, (decide_True (P := x ∈ x :: l)) by by left. by destruct (decide _).
    + rewrite lookup_delete_ne by done. destruct (decide (fd ∈ l)); [by rewrite decide_True by by right|].
      rewrite decide_False; [done|]. intros [|]%elem_of_cons; done.
Qed.

(** The same descriptors and the same limit. *)
Definition same_limit (k k' : K) : Prop := fds k' = fds k /\ close_limit k' = close_limit k.

Lemma wp_fork_away (Q : bool -> proc K -> Prop) E s :
  (forall s', cause (errno s') -> Q false s') ->
  (forall s', same_limit (kern s) (kern s') -> child (kern s') = true -> Q true s') ->
  (forall s', E EXIT_SUCCESS s') ->
  wp fork_away Q E s.
Proof.
  intros HN HC HP. pose proof (d_fork (kern s)) as Hd. pose proof (limit_fork (kern s)) as Hl.
  apply wp_bind, wp_syscall; intros k x Hx; rewrite Hx in Hd, Hl; [by destruct Hd as (_ & _ & ?); apply wp_ret, HN|].
  destruct (x =? 0) eqn:E0; [|by apply wp_exit, HP]. destruct Hd as (Hf & _ & Hc). by apply wp_ret, HC.
Qed.

Lemma wp_daemon_setsid (Q : option Z -> proc K -> Prop) E s :
  (forall s', cause (errno s') -> Q None s') ->
  (forall sid s', same_limit (kern s) (kern s') -> child (kern s') = child (kern s) -> Q (Some sid) s') ->
  wp (syscall os_setsid) Q E s.
Proof.
  intros HN HS. pose proof (d_setsid (kern s)) as Hd. pose proof (limit_setsid (kern s)) as Hl.
  apply wp_syscall; intros k x Hx; rewrite Hx in Hd, Hl; [by destruct Hd as (_ & _ & ?); apply HN|].
  by destruct Hd; apply HS.
Qed.

(** The steps that may be left out. *)
Lemma wp_daemon_umask (b : bool) (Q : unit -> proc K -> Prop) E s :
  (forall s', same_limit (kern s) (kern s') -> child (kern s') = child (kern s) -> Q tt s') ->
  wp (when b (syscall_ (fun k => os_umask k 0) ;;; ret tt)%c) Q E s.
Proof.
  intros HQ. apply wp_when; intros _; [|by apply HQ]. pose proof (dl_umask 0 (kern s)) as [Hf Hc].
  pose proof (limit_umask 0 (kern s)) as Hl. apply wp_bind, wp_syscall_, wp_ret. by apply HQ.
Qed.

Lemma wp_daemon_chdir (b : bool) (Q : unit -> proc K -> Prop) E s :
  (forall s', same_limit (kern s) (kern s') -> child (kern s') = child (kern s) -> Q tt s') ->
  wp (when b (syscall (fun k => os_chdir k (lit "/")) ;;; ret tt)%c) Q E s.
Proof.
  intros HQ. apply wp_when; intros _; [|by apply HQ]. pose proof (dl_chdir (lit "/") (kern s)) as Hd.
  pose proof (limit_chdir (lit "/") (kern s)) as Hl.
  apply wp_bind, wp_syscall; intros k x Hx; rewrite Hx in Hd, Hl; destruct Hd; apply wp_ret; by apply HQ.
Qed.

Lemma wp_daemon_close (b : bool) (Q : unit -> proc K -> Prop) E s :
  (forall s', (forall fd, fds (kern s') !! fd =
     if b && (0 <=? fd) && (fd <? close_limit (kern s)) then None else fds (kern s) !! fd) ->
     child (kern s') = child (kern s) -> Q tt s') ->
  wp (when b (let! r := syscall os_open_max in
              let maxfd := to_signed 32 (default (-1) r) in
              close_all (if maxfd =? -1 then BD_MAX_CLOSE else maxfd))%c) Q E s.
Proof.
  intros HQ. apply wp_when; intros ->; [|by apply HQ]. pose proof (dl_open_max (kern s)) as Hd.
  assert (H : forall s1, unchanged (kern s) (kern s1) -> wp (close_all (close_limit (kern s))) Q E s1).
  { intros s1 [H1 C1]. apply wp_close_list. intros s2 H2 C2. apply HQ; [|congruence]. intros fd. rewrite H2, H1.
    destruct (decide (fd ∈ seqZ 0 (close_limit (kern s)))) as [Hin|Hin]; rewrite elem_of_seqZ in Hin;
      destruct (_ && _) eqn:E2; (done || lia). }
  unfold close_limit in H. apply wp_bind, wp_syscall; intros k x Hx; rewrite Hx in Hd, H; by apply H.
Qed.

(** The standard descriptors are opened again. *)
Lemma wp_reopen_std (Q : bool -> proc K -> Prop) E s :
  (forall s', cause (errno s') -> Q false s') ->
  (forall s', fds (kern s') = std_on (Path (lit "/dev/null")) (fds (kern s)) -> child (kern s') = child (kern s) ->
     Q true s') ->
  wp reopen_std Q E s.
Proof.
  intros HN HS. apply wp_bind, wp_close_fd. intros _ s1 H1 C1. apply wp_bind, wp_open_path.
  - intros s2 _ E2. rewrite bool_decide_eq_false_2 by done. by apply wp_ret, HN.
  - intros fd s2 Hfd Hfree Hlow H2 C2. destruct (decide (fd = STDIN_FILENO)) as [->|Hne].
    + rewrite bool_decide_eq_true_2 by done. cbn [negb].
      assert (F2 : fds (kern s2) = <[STDIN_FILENO := Path (lit "/dev/null")]> (fds (kern s))).
      { rewrite H2, H1. by rewrite insert_delete_eq. }
      apply wp_bind, (wp_dup2 _ _ (Path (lit "/dev/null"))); [rewrite F2; apply lookup_insert_eq| |].
      { intros s3 _ E3. rewrite bool_decide_eq_false_2 by done. by apply wp_ret, HN. }
      intros s3 H3 C3. rewrite bool_decide_eq_true_2 by done. cbn [negb].
      apply wp_bind, (wp_dup2 _ _ (Path (lit "/dev/null"))).
      { rewrite H3, lookup_insert_ne by done. rewrite F2. apply lookup_insert_eq. }
      { intros s4 _ E4. rewrite bool_decide_eq_false_2 by done. by apply wp_ret, HN. }
      intros s4 H4 C4. rewrite bool_decide_eq_true_2 by done. apply wp_ret, HS; [|congruence].
      rewrite H4, H3, F2. done.
    + exfalso. destruct (Hlow 0) as [x Hx]; [unfold STDIN_FILENO in *; lia|].
      rewrite H1 in Hx. by rewrite lookup_delete_eq in Hx.
Qed.

(** C33: becomeDaemon returns -1 with errno telling what failed, or zero, and
    then it does so in a child, which has /dev/null as standard input, output
    and error unless they were to be left, and of the other descriptors of the
    caller those that were not to be closed: all of them if so asked, and
    otherwise those that are not below the limit that sysconf gives, or not
    below 8192 where it gives none. Every process it leaves behind on the way
    has ended with success. *)
Theorem becomeDaemon_descriptors (flags : Z) (s : proc K) :
  wp (becomeDaemon flags) (fun r s' =>
    (r = -1 /\ cause (errno s')) \/
    (r = 0 /\ child (kern s') = true /\ daemon_fds flags (close_limit (kern s)) (fds (kern s)) (fds (kern s'))))
    (fun e s' => e = EXIT_SUCCESS) s.
Proof.
  apply wp_bind, wp_fork_away; [intros s1 H1; apply wp_ret; by left| |done]. intros s1 [H1 L1] C1. cbn [negb].
  apply wp_bind, wp_daemon_setsid; [intros s2 H2; apply wp_ret; by left|]. intros sid s2 [H2 L2] C2.
  rewrite bool_decide_eq_false_2 by done.
  apply wp_bind, wp_fork_away; [intros s3 H3; apply wp_ret; by left| |done]. intros s3 [H3 L3] C3. cbn [negb].
  apply wp_bind, wp_daemon_umask. intros s4 [H4 L4] C4. apply wp_bind, wp_daemon_chdir. intros s5 [H5 L5] C5.
  apply wp_bind, wp_daemon_close. intros s6 H6 C6.
  replace (close_limit (kern s5)) with (close_limit (kern s)) in H6 by congruence.
  replace (fds (kern s5)) with (fds (kern s)) in H6 by congruence.
  destruct (has_bit flags BD_NO_REOPEN_STD_FDS) eqn:E.
  - apply wp_ret. right. split_and!; [done|congruence|]. intros fd. by rewrite H6, E.
  - apply wp_bind, wp_reopen_std; [intros s7 H7; apply wp_ret; by left|]. intros s7 H7 C7. apply wp_ret. right.
    split_and!; [done|congruence|]. intros fd. rewrite H7, E, std_on_lookup.
    cbn [negb andb]. destruct ((0 <=? fd) && (fd <=? 2)); [done|]. apply H6.
Qed.

End Daemons.

(** ** A kernel *)

Definition EMFILE : Z := 24.
Definition EBADF : Z := 9.

(** Descriptors up to 1023, whether this is a child, and what the next forks
    give: in the parent, in the child, or a failure. *)
Record demo_kernel := DemoKernel { dk_fds : gmap Z file; dk_child : bool; dk_forks : list Z }.

Definition dk_new (k : demo_kernel) (f : file) : demo_kernel * (Z + Z) :=
  match list_find (fun i => dk_fds k !! i = None) (seqZ 0 1024) with
  | Some (_, fd) => (DemoKernel (<[fd := f]> (dk_fds k)) (dk_child k) (dk_forks k), inr fd)
  | None => (k, inl EMFILE)
  end.

#[export] Instance demo_desc_os : DescOS demo_kernel := {|
  os_open k p _ := dk_new k (Path p);
  os_close k fd :=
    (DemoKernel (delete fd (dk_fds k)) (dk_child k) (dk_forks k),
     match dk_fds k !! fd with Some _ => inr tt | None => inl EBADF end);
  os_dup2 k old new :=
    match dk_fds k !! old with
    | Some f => (DemoKernel (<[new := f]> (dk_fds k)) (dk_child k) (dk_forks k), inr new)
    | None => (k, inl EBADF)
    end;
  os_fork k :=
    match dk_forks k with
    | [] => (k, inl EMFILE)
    | p :: rest =>
        let pid := Z.max 0 p in
        (DemoKernel (dk_fds k) (if pid =? 0 then true else dk_child k) rest, inr pid)
    end;
  os_setsid k := (k, inr 1)
|}.

Lemma dk_new_spec k f : match dk_new k f with
  | (k', inr fd) => 0 <= fd /\ dk_fds k !! fd = None /\ (forall g, 0 <= g < fd -> is_Some (dk_fds k !! g)) /\
      dk_fds k' = <[fd := f]> (dk_fds k) /\ dk_child k' = dk_child k
  | (k', inl e) => k' = k /\ e = EMFILE
  end.
Proof.
  unfold dk_new. destruct (list_find _ _) as [[i fd]|] eqn:Hf; [|done].
  apply list_find_Some in Hf as (Hi & Hn & Hlow). apply lookup_seqZ in Hi as [-> Hi]. simpl.
  split_and!; try done; [lia|]. intros g Hg. destruct (dk_fds k !! g) eqn:Hx; [done|].
  exfalso. apply (Hlow (Z.to_nat g) g); [|lia|done]. apply lookup_seqZ. lia.
Qed.

#[export] Instance demo_desc_laws : DescLaws demo_kernel.
Proof.
  refine {| fds := dk_fds; child := dk_child; cause := fun e => e = EMFILE \/ e = EOVERFLOW |}.
  - by right.
  - intros k p fl. simpl. pose proof (dk_new_spec k (Path p)) as Hd. destruct (dk_new k (Path p)) as [k' [e|fd]]; [|done].
    destruct Hd as [-> ->]. auto.
  - by intros k fd.
  - intros k old new f Hf. simpl. by rewrite Hf.
  - intros k. simpl. destruct (dk_forks k) as [|p rest]; [auto|]. split; [done|]. split; [lia|done].
  - by intros k.
Defined.

#[export] Instance demo_pty_os : PtyOS demo_kernel := {|
  os_openpt k _ := dk_new k (Master (lit "/dev/pts/7"));
  os_grantpt k _ := (k, inr tt);
  os_unlockpt k _ := (k, inr tt);
  os_ptsname k fd := match dk_fds k !! fd with Some (Master n) => (k, inr n) | _ => (k, inl EMFILE) end;
  os_tiocsctty k _ := (k, inr tt);
  os_tcsetattr_now k _ _ := (k, inr tt);
  os_tiocswinsz k _ _ := (k, inr tt)
|}.

#[export] Instance demo_pty_laws : PtyLaws demo_kernel.
Proof.
  split; try (intros; by split).
  - intros k fl. simpl. pose proof (dk_new_spec k (Master (lit "/dev/pts/7"))) as Hd.
    destruct (dk_new k _) as [k' [e|fd]]; [destruct Hd as [-> ->]; by split; [|left]|].
    destruct Hd as (? & ? & _ & ? & ?). by split_and!; [..|eexists].
  - intros fd k. simpl. destruct (dk_fds k !! fd) as [[]|]; (split; [done|]); simpl; auto.
  - intros k fd n Hn. simpl in *. by rewrite Hn.
Defined.

#[export] Instance demo_daemon_os : DaemonOS demo_kernel := {|
  os_umask k _ := (k, 18);
  os_chdir k _ := (k, inr tt);
  os_open_max k := (k, inr 1024)
|}.

#[export] Instance demo_daemon_laws : DaemonLaws demo_kernel.
Proof. split; intros; by split. Defined.

#[export] Instance demo_desc_texts : ErrnoText :=
  {| MAX_ENAME := 0; ename := fun _ => []; strerror := fun _ => [] |}.

Definition demo_terminal : gmap Z file := {[ 0 := Other 0; 1 := Other 1; 2 := Other 2; 5 := Other 5 ]}.
Definition demo_process (forks : list Z) : proc demo_kernel :=
  Proc (DemoKernel demo_terminal false forks) 0 None [] [] [].

(** The child of ptyFork, and the daemon of a process with four descriptors. *)
Example pty_child_runs :
  match ptyFork (Some 20) None (Some (Winsize 24 80)) (demo_process [0]) with
  | Ret r s => r = PtyResult 0 None (Some (lit "/dev/pts/7")) /\
      fds (kern s) = std_on (Path (lit "/dev/pts/7")) demo_terminal
  | _ => False
  end.
Proof. by vm_compute. Qed.

Example daemon_runs :
  match becomeDaemon 0 (demo_process [0; 0]) with
  | Ret r s => r = 0 /\ fds (kern s) = std_on (Path (lit "/dev/null")) ∅
  | _ => False
  end.
Proof. by vm_compute. Qed.

(** The second fork fails: becomeDaemon returns -1, but not to its caller, which
    has ended with success. *)
Example late_failure :
  match becomeDaemon 0 (demo_process [0]) with
  | Ret r s => r = -1 /\ child (kern s) = true
  | _ => False
  end /\
  match becomeDaemon 0 (demo_process [7]) with Exit EXIT_SUCCESS _ => True | _ => False end.
Proof. by vm_compute. Qed.

(** A descriptor at the limit stays open. *)
Example daemon_leaves :
  match becomeDaemon 0 (Proc (DemoKernel {[ 5 := Other 5; 1024 := Other 6 ]} false [0; 0]) 0 None [] [] []) with
  | Ret r s => r = 0 /\ fds (kern s) = std_on (Path (lit "/dev/null")) {[ 1024 := Other 6 ]}
  | _ => False
  end.
Proof. by vm_compute. Qed.

Lemma becomeDaemon_descriptors_witness :
  wp (becomeDaemon 0) (fun r s' =>
    (r = -1 /\ cause (errno s')) \/
    (r = 0 /\ child (kern s') = true /\ daemon_fds 0 1024 demo_terminal (fds (kern s')))) (fun e _ => e = EXIT_SUCCESS)
    (demo_process [0; 0]).
Proof. exact (becomeDaemon_descriptors 0 (demo_process [0; 0])). Defined.

Lemma ptyFork_contract_witness :
  wp (ptyFork (Some 20) None (Some (Winsize 24 80))) (fun r s' =>
    (pid r = -1 /\ masterFd r = None /\ unchanged (kern (demo_process [0])) (kern s') /\ cause (errno s')) \/
    (exists mfd n, new_master (kern (demo_process [0])) mfd n /\ fds (kern (demo_process [0])) !! mfd = None /\
       slaveName r = (fun _ => n) <$> Some 20 /\ (forall l, Some 20 = Some l -> strlen n < l) /\
       (0 < pid r /\ masterFd r = Some mfd /\ child (kern s') = child (kern (demo_process [0])) /\
          fds (kern s') = <[mfd := Master n]> (fds (kern (demo_process [0]))) \/
        pid r = 0 /\ masterFd r = None /\ child (kern s') = true /\
          fds (kern s') = std_on (Path n) (fds (kern (demo_process [0])))))) in_child (demo_process [0]).
Proof. exact (ptyFork_contract (Some 20) None (Some (Winsize 24 80)) (demo_process [0])). Defined.
