(* ===== verification/PtyRelay.v ===== *)
(** pty/script.c and pty/unbuffer.c (src/tlpi-dist): a program on a
    pseudoterminal, with a parent that relays between the terminal and the
    master. What happens in the child is not part of the model after its exec.
    The relay takes a unit of fuel for each turn of its loop. *)
From Stdlib Require Import ZArith Lia Ascii String.
From stdpp Require Import base tactics list strings.
From S2P Require Import Prelude CString Process FdIo TtyFunctions Descriptors.
#[local] Open Scope Z_scope.

Definition BUF_SIZE : Z := 256.

(** The window size; [open] for the typescript; [select] for reading, with the
    descriptors that are ready; [atexit]; and an exec with a search in PATH,
    which returns only with an error. *)
Class RelayOS (K : Type) := {
  os_winsize : K -> Z -> K * (Z + winsize);
  os_open_script : K -> cstr -> K * (Z + Z);
  os_select : K -> Z -> list Z -> K * (Z + list Z);
  os_atexit : K -> K * bool;
  os_exec : K -> cstr -> list cstr -> K * option Z
}.

Section Code.
Context `{ErrnoText} {K : Type} {IO : ByteIO K} {DO : DescOS K} {PO : PtyOS K} {TO : TtyOS K} {RO : RelayOS K}.
Abbreviation PM := (M (proc K)).

Definition ttyReset (ttyOrig : termios) : PM unit :=
  let! r := syscall (fun k => os_tcsetattr_now k STDIN_FILENO ttyOrig) in
  when (bool_decide (r = None)) (errExit (lit "tcsetattr")).

(** Code that runs after [atexit(ttyReset)]: an exit, other than by abort, runs
    the handler first. *)
Definition with_ttyReset {A} (ttyOrig : termios) (m : PM A) : PM A := fun s =>
  match m s with
  | Exit ABORT s' => Exit ABORT s'
  | Exit k s' => (ttyReset ttyOrig ;;; exit k) s'
  | o => o
  end.

(** [if (write(fd, buf, numRead) != numRead) fatal(...)]. *)
Definition write_or_die (fd : Z) (buf : cstr) (name : string) : PM unit :=
  let! w := syscall (fun k => os_write k fd buf) in
  when (negb (bool_decide (w = Some (strlen buf)))) (fatal (lit "partial/failed write (" ++ lit name ++ lit ")")).

(** [read]; the process ends when it gives nothing. *)
Definition read_or_exit (fd : Z) : PM cstr :=
  let! r := syscall (fun k => os_read k fd BUF_SIZE) in
  match r with
  | None | Some [] => exit3 EXIT_SUCCESS
  | Some buf => ret buf
  end.

(** The typescript is only in script.c. *)
Definition write_typescript (scriptFd : option Z) (buf : cstr) : PM unit :=
  match scriptFd with Some scriptFd => write_or_die scriptFd buf "scriptFd" | None => ret tt end.

(** The loop. *)
Fixpoint relay (fuel : nat) (masterFd : Z) (scriptFd : option Z) : PM unit :=
  match fuel with
  | O => undef
  | S fuel =>
      let! inFds := syscall (fun k => os_select k (masterFd + 1) [STDIN_FILENO; masterFd]) in
      match inFds with
      | None => errExit (lit "select")
      | Some inFds =>
          when (bool_decide (STDIN_FILENO ∈ inFds)) (
            let! buf := read_or_exit STDIN_FILENO in
            write_or_die masterFd buf "masterFd") ;;;
          when (bool_decide (masterFd ∈ inFds)) (
            let! buf := read_or_exit masterFd in
            write_or_die STDOUT_FILENO buf "STDOUT_FILENO" ;;;
            write_typescript scriptFd buf) ;;;
          relay fuel masterFd scriptFd
      end
  end.

(** The terminal is made raw, whether that succeeds or not, and is given back
    at the exit. *)
Definition relay_raw (fuel : nat) (masterFd : Z) (scriptFd : option Z) (ttyOrig : termios) : PM unit :=
  let! prev := ttySetRaw STDIN_FILENO in
  let ttyOrig := default ttyOrig prev.2 in
  let! ok := syscall_ (fun k => os_atexit k) in
  when (negb ok) (errExit (lit "atexit")) ;;;
  with_ttyReset ttyOrig (relay fuel masterFd scriptFd).

(** What both programs do first; then the child and the parent. *)
Definition on_pty (winsize_msg : string) (child : PM unit) (parent : Z -> termios -> PM unit) : PM unit :=
  let! t := syscall (fun k => os_tcgetattr k STDIN_FILENO) in
  match t with
  | None => errExit (lit "tcgetattr")
  | Some ttyOrig =>
      let! ws := syscall (fun k => os_winsize k STDIN_FILENO) in
      match ws with
      | None => errExit (lit winsize_msg)
      | Some ws =>
          let! r := ptyFork (Some MAX_SNAME) (Some ttyOrig) (Some ws) in
          if pid r =? -1 then errExit (lit "ptyFork")
          else if pid r =? 0 then child
          else match masterFd r with Some masterFd => parent masterFd ttyOrig | None => undef end
      end
  end.

(** An exec that must not return. *)
Definition exec_or_die (file : cstr) (argv : list cstr) (name : string) : PM unit :=
  let! r := fun s => (let (k, r) := os_exec (kern s) file argv in Ret r (set_kern k s)) in
  match r with
  | None => exit EXECED
  | Some e => modify (set_errno e) ;;; errExit (lit name)
  end.

(** [shell] is what getenv gives for SHELL. *)
Definition script_main (fuel : nat) (argv : list cstr) (shell : option cstr) : PM unit :=
  let shell := match shell with None | Some [] => lit "/bin/sh" | Some shell => shell end in
  on_pty "ioctl-TIOCGWINSZ" (exec_or_die shell [shell] "execlp") (fun masterFd ttyOrig =>
    let! scriptFd := syscall (fun k => os_open_script k (default (lit "typescript") (argv !! 1%nat))) in
    match scriptFd with
    | None => errExit (lit "open typescript")
    | Some scriptFd => relay_raw fuel masterFd (Some scriptFd) ttyOrig
    end).

(** Without an argument execvp is given a null pointer. *)
Definition unbuffer_main (fuel : nat) (argv : list cstr) : PM unit :=
  on_pty "TIOCGWINSZ error"
    match drop 1 argv with
    | file :: args => exec_or_die file (file :: args) "execvp"
    | [] => undef
    end
    (fun masterFd ttyOrig => relay_raw fuel masterFd None ttyOrig).

End Code.

(** ** What is relayed *)

(** What has been read from the terminal and written to the master, and what
    has been read from the master and written to the terminal and the
    typescript. *)
Record traffic := Traffic { typed : cstr; sent : cstr; received : cstr; screen : cstr; script : cstr }.

(** [budget] bounds the reads that give something: the session is finite. *)
Class RelayLaws (K : Type) {IO : ByteIO K} {PO : PtyOS K} {TO : TtyOS K} {RO : RelayOS K} (masterFd : Z) (scriptFd : option Z) := {
  traffic_of : K -> traffic;
  settings : K -> termios;
  budget : K -> nat;
  rl_select k n fds : match os_select k n fds with
    | (k', inr ready) => traffic_of k' = traffic_of k /\ settings k' = settings k /\ budget k' = budget k /\
        (fds <> [] -> exists fd, fd ∈ ready /\ fd ∈ fds)
    | (k', inl _) => traffic_of k' = traffic_of k /\ settings k' = settings k
    end;
  rl_read_tty k : match os_read k STDIN_FILENO BUF_SIZE with
    | (k', inr bytes) => settings k' = settings k /\ (bytes <> [] -> budget k' < budget k)%nat /\
        let t := traffic_of k in traffic_of k' = Traffic (typed t ++ bytes) (sent t) (received t) (screen t) (script t)
    | (k', inl _) => traffic_of k' = traffic_of k /\ settings k' = settings k
    end;
  rl_read_master k : match os_read k masterFd BUF_SIZE with
    | (k', inr bytes) => settings k' = settings k /\ (bytes <> [] -> budget k' < budget k)%nat /\
        let t := traffic_of k in traffic_of k' = Traffic (typed t) (sent t) (received t ++ bytes) (screen t) (script t)
    | (k', inl _) => traffic_of k' = traffic_of k /\ settings k' = settings k
    end;
  rl_write_master k bytes : match os_write k masterFd bytes with
    | (k', inr n) => settings k' = settings k /\ budget k' = budget k /\ 0 <= n <= strlen bytes /\
        let t := traffic_of k in
        traffic_of k' = Traffic (typed t) (sent t ++ take (Z.to_nat n) bytes) (received t) (screen t) (script t)
    | (k', inl _) => traffic_of k' = traffic_of k /\ settings k' = settings k
    end;
  rl_write_tty k bytes : match os_write k STDOUT_FILENO bytes with
    | (k', inr n) => settings k' = settings k /\ budget k' = budget k /\ 0 <= n <= strlen bytes /\
        let t := traffic_of k in
        traffic_of k' = Traffic (typed t) (sent t) (received t) (screen t ++ take (Z.to_nat n) bytes) (script t)
    | (k', inl _) => traffic_of k' = traffic_of k /\ settings k' = settings k
    end;
  rl_write_script k bytes fd : scriptFd = Some fd -> match os_write k fd bytes with
    | (k', inr n) => settings k' = settings k /\ budget k' = budget k /\ 0 <= n <= strlen bytes /\
        let t := traffic_of k in
        traffic_of k' = Traffic (typed t) (sent t) (received t) (screen t) (script t ++ take (Z.to_nat n) bytes)
    | (k', inl _) => traffic_of k' = traffic_of k /\ settings k' = settings k
    end;
  rl_tcgetattr k : match os_tcgetattr k STDIN_FILENO with
    | (k', inr t) => traffic_of k' = traffic_of k /\ settings k' = settings k /\ budget k' = budget k /\ t = settings k
    | (k', inl _) => traffic_of k' = traffic_of k /\ settings k' = settings k /\ budget k' = budget k
    end;
  rl_tcsetattr k t : match os_tcsetattr k STDIN_FILENO t with
    | (k', inr _) => traffic_of k' = traffic_of k /\ settings k' = t /\ budget k' = budget k
    | (k', inl _) => traffic_of k' = traffic_of k /\ settings k' = settings k /\ budget k' = budget k
    end;
  rl_reset k t : match os_tcsetattr_now k STDIN_FILENO t with
    | (k', inr _) => traffic_of k' = traffic_of k /\ settings k' = t
    | (k', inl _) => traffic_of k' = traffic_of k
    end;
  rl_atexit k : let k' := (os_atexit k).1 in
    traffic_of k' = traffic_of k /\ settings k' = settings k /\ budget k' = budget k
}.

Section Props.
Context `{ET : ErrnoText} {K : Type} {IO : ByteIO K} {DO : DescOS K} {PO : PtyOS K} {TO : TtyOS K} {RO : RelayOS K}.
Context (masterFd : Z) (scriptFd : option Z) {RL : RelayLaws K masterFd scriptFd}.
Implicit Types (s : proc K).

(** [t] is [t0] and a session of which everything has been passed on, and one of
    which only beginnings have. *)
Definition all_passed (t0 t : traffic) : Prop :=
  exists i o, typed t = typed t0 ++ i /\ sent t = sent t0 ++ i /\ received t = received t0 ++ o /\
    screen t = screen t0 ++ o /\ script t = script t0 ++ (if scriptFd then o else []).
Definition part_passed (t0 t : traffic) : Prop :=
  exists i i' o o' o'', typed t = typed t0 ++ i /\ sent t = sent t0 ++ i' /\ received t = received t0 ++ o /\
    screen t = screen t0 ++ o' /\ script t = script t0 ++ o'' /\
    i' `prefix_of` i /\ o' `prefix_of` o /\ o'' `prefix_of` o'.

Lemma all_part t0 t : all_passed t0 t -> part_passed t0 t.
Proof.
  intros (i & o & H1 & H2 & H3 & H4 & H5). exists i, i, o, o, (if scriptFd then o else []). split_and!; try done.
  destruct scriptFd; [done|apply prefix_nil].
Qed.

Lemma all_refl t : all_passed t t.
Proof. exists [], []. rewrite !app_nil_r. split_and!; try done. destruct scriptFd; by rewrite app_nil_r. Qed.

(** The relay has ended, the terminal still as it set it. *)
Definition relay_end (t0 : traffic) (set : termios) (e : exit_kind) s : Prop :=
  (e = EXIT_SUCCESS -> all_passed t0 (traffic_of (kern s))) /\ part_passed t0 (traffic_of (kern s)) /\
  settings (kern s) = set.

Lemma relay_fails {A} (m : M (proc K) A) (Q : A -> proc K -> Prop) t0 set s :
  part_passed t0 (traffic_of (kern s)) -> settings (kern s) = set ->
  (forall E, (forall e s', e <> EXIT_SUCCESS -> kern s' = kern s -> E e s') -> wp m Q E s) ->
  wp m Q (relay_end t0 set) s.
Proof. intros Hp Hs Hm. apply Hm. intros e s' He Hs'. unfold relay_end. rewrite Hs'. by split. Qed.

Lemma wp_read_or_exit fd (Q : cstr -> proc K -> Prop) t0 set s :
  (forall k, (exists e, os_read (kern s) fd BUF_SIZE = (k, inl e)) \/ os_read (kern s) fd BUF_SIZE = (k, inr []) ->
     all_passed t0 (traffic_of k) /\ settings k = set) ->
  (forall k c buf, os_read (kern s) fd BUF_SIZE = (k, inr (c :: buf)) -> Q (c :: buf) (set_kern k s)) ->
  wp (read_or_exit fd) Q (relay_end t0 set) s.
Proof.
  intros HE HQ. assert (Hend : forall s', all_passed t0 (traffic_of (kern s')) /\ settings (kern s') = set ->
    wp (exit3 EXIT_SUCCESS) Q (relay_end t0 set) s').
  { intros s' [Ha Hs]. apply wp_exit3. intros s2 Hs2. unfold relay_end. rewrite Hs2. split_and!; [done|by apply all_part|done]. }
  apply wp_bind, wp_syscall; intros k r Hk; [apply Hend, HE; eauto|].
  destruct r as [|c buf]; [apply Hend, HE; by right|]. by apply wp_ret, HQ.
Qed.

Lemma wp_write_or_die fd buf name (Q : unit -> proc K -> Prop) t0 set s :
  part_passed t0 (traffic_of (os_write (kern s) fd buf).1) -> settings (os_write (kern s) fd buf).1 = set ->
  (forall k, os_write (kern s) fd buf = (k, inr (strlen buf)) -> Q tt (set_kern k s)) ->
  wp (write_or_die fd buf name) Q (relay_end t0 set) s.
Proof.
  intros Hp Hs HQ.
  apply wp_bind, wp_syscall; intros k r Hk; rewrite Hk in Hp, Hs; simpl in Hp, Hs; apply wp_when; intros Hr.
  - apply relay_fails; [done|done|]. intros E HE. by apply wp_fatal_fails.
  - done.
  - apply relay_fails; [done|done|]. intros E HE. by apply wp_fatal_fails.
  - apply negb_false_iff, bool_decide_eq_true in Hr. injection Hr as ->. by apply HQ.
Qed.

(** The terminal's input is passed on. *)
Lemma wp_from_tty (Q : unit -> proc K -> Prop) t0 set s :
  all_passed t0 (traffic_of (kern s)) -> settings (kern s) = set ->
  (forall s', all_passed t0 (traffic_of (kern s')) -> settings (kern s') = set -> (budget (kern s') < budget (kern s))%nat -> Q tt s') ->
  wp (let! buf := read_or_exit STDIN_FILENO in write_or_die masterFd buf "masterFd") Q (relay_end t0 set) s.
Proof.
  intros Ha Hs HQ. pose proof (rl_read_tty (kern s)) as Hl. apply wp_bind, wp_read_or_exit.
  - intros k [[e Hk]|Hk]; rewrite Hk in Hl; [destruct Hl as [-> ->]; done|].
    destruct Hl as (-> & _ & ->). split; [|done]. rewrite !app_nil_r. by destruct (traffic_of (kern s)).
  - intros k c buf Hk. rewrite Hk in Hl. destruct Hl as (Hset & Hb & Ht). cbv zeta in Ht. specialize (Hb ltac:(done)).
    destruct Ha as (i & o & H1 & H2 & H3 & H4 & H5). pose proof (rl_write_master k (c :: buf)) as Hw.
    assert (Hpart : forall n, part_passed t0 (Traffic (typed (traffic_of (kern s)) ++ c :: buf) (sent (traffic_of (kern s)) ++ take n (c :: buf))
      (received (traffic_of (kern s))) (screen (traffic_of (kern s))) (script (traffic_of (kern s))))).
    { intros n. exists (i ++ c :: buf), (i ++ take n (c :: buf)), o, o, (if scriptFd then o else []). cbn [typed sent received screen script].
      rewrite H1, H2, H3, H4, H5, <-!app_assoc. split_and!; try done; [apply prefix_app, prefix_take|destruct scriptFd; [done|apply prefix_nil]]. }
    apply wp_write_or_die; cbn [kern set_kern].
    + destruct (os_write k masterFd (c :: buf)) as [k' [e|n]]; cbn [fst].
      * destruct Hw as [-> _]. rewrite Ht. specialize (Hpart 0%nat). cbn in Hpart. by rewrite app_nil_r in Hpart.
      * destruct Hw as (_ & _ & _ & ->). rewrite Ht. apply Hpart.
    + destruct (os_write k masterFd (c :: buf)) as [k' [e|n]]; cbn [fst]; [destruct Hw as [_ ->]|destruct Hw as (-> & _)]; congruence.
    + intros k' Hk'. rewrite Hk' in Hw. destruct Hw as (Hset' & Hb' & _ & Ht'). apply HQ; cbn [kern set_kern]; [|congruence|lia].
      cbv zeta in Ht'. rewrite Ht', Ht. unfold strlen. rewrite Nat2Z.id, firstn_all. cbn [typed sent received screen script].
      exists (i ++ c :: buf), o. cbn [typed sent received screen script]. rewrite H1, H2, H3, H4, H5, <-!app_assoc. done.
Qed.

Lemma wp_write_typescript o buf (Q : unit -> proc K -> Prop) E s :
  (forall fd, o = Some fd -> wp (write_or_die fd buf "scriptFd") Q E s) -> (o = None -> Q tt s) ->
  wp (write_typescript o buf) Q E s.
Proof. destruct o; intros HS HN; [by apply HS|by apply wp_ret, HN]. Qed.

(** What the program on the pseudoterminal writes is passed on. *)
Lemma wp_from_master (Q : unit -> proc K -> Prop) t0 set s :
  all_passed t0 (traffic_of (kern s)) -> settings (kern s) = set ->
  (forall s', all_passed t0 (traffic_of (kern s')) -> settings (kern s') = set -> (budget (kern s') < budget (kern s))%nat -> Q tt s') ->
  wp (let! buf := read_or_exit masterFd in
      write_or_die STDOUT_FILENO buf "STDOUT_FILENO" ;;;
      write_typescript scriptFd buf) Q (relay_end t0 set) s.
Proof.
  intros Ha Hs HQ. pose proof (rl_read_master (kern s)) as Hl. apply wp_bind, wp_read_or_exit.
  - intros k [[e Hk]|Hk]; rewrite Hk in Hl; [destruct Hl as [-> ->]; done|].
    destruct Hl as (-> & _ & ->). split; [|done]. rewrite !app_nil_r. by destruct (traffic_of (kern s)).
  - intros k c buf Hk. rewrite Hk in Hl. destruct Hl as (Hset & Hb & Ht). cbv zeta in Ht. specialize (Hb ltac:(done)).
    destruct Ha as (i & o & H1 & H2 & H3 & H4 & H5). set (t := traffic_of (kern s)) in *. set (read := c :: buf) in *.
    assert (Hpart : forall n m, m = 0%nat \/ n = length read /\ is_Some scriptFd -> part_passed t0 (Traffic (typed t) (sent t)
      (received t ++ read) (screen t ++ take n read) (script t ++ take m read))).
    { intros n m Hm. exists i, i, (o ++ read), (o ++ take n read), ((if scriptFd then o else []) ++ take m read).
      cbn [typed sent received screen script]. rewrite H1, H2, H3, H4, H5, <-!app_assoc. split_and!; try done.
      - apply prefix_app, prefix_take.
      - destruct Hm as [-> |[-> [? Hfd]]].
        + rewrite take_0, app_nil_r. destruct scriptFd; [by apply prefix_app_r|apply prefix_nil].
        + rewrite Hfd, firstn_all. apply prefix_app, prefix_take. }
    pose proof (rl_write_tty k read) as Hw. apply wp_bind, wp_write_or_die; cbn [kern set_kern].
    + destruct (os_write k STDOUT_FILENO read) as [k' [e|n]]; cbn [fst].
      * destruct Hw as [-> _]. rewrite Ht. specialize (Hpart 0%nat 0%nat (or_introl eq_refl)). cbn in Hpart. by rewrite !app_nil_r in Hpart.
      * destruct Hw as (_ & _ & _ & ->). rewrite Ht. specialize (Hpart (Z.to_nat n) 0%nat (or_introl eq_refl)).
        rewrite take_0, app_nil_r in Hpart. exact Hpart.
    + destruct (os_write k STDOUT_FILENO read) as [k' [e|n]]; cbn [fst]; [destruct Hw as [_ ->]|destruct Hw as (-> & _)]; congruence.
    + intros k' Hk'. rewrite Hk' in Hw. destruct Hw as (Hset' & Hb' & _ & Ht'). cbv zeta in Ht'.
      rewrite Ht in Ht'. unfold strlen in Ht'. rewrite Nat2Z.id, firstn_all in Ht'. cbn [typed sent received screen script] in Ht'.
      assert (Hfull : forall k2 extra, traffic_of k2 = Traffic (typed t) (sent t) (received t ++ read) (screen t ++ read) (script t ++ extra) ->
        extra = (if scriptFd then read else []) -> all_passed t0 (traffic_of k2)).
      { intros k2 extra -> ->. exists i, (o ++ read). cbn [typed sent received screen script]. rewrite H1, H2, H3, H4, H5, <-!app_assoc.
        split_and!; try done. by destruct scriptFd. }
      apply wp_write_typescript.
      * intros fd Hfd. pose proof (rl_write_script k' read fd Hfd) as Hw. apply wp_write_or_die; cbn [kern set_kern].
        -- specialize (Hpart (length read)). rewrite firstn_all in Hpart.
           destruct (os_write k' fd read) as [k2 [e|n]]; cbn [fst].
           ++ destruct Hw as [-> _]. rewrite Ht'. specialize (Hpart 0%nat (or_introl eq_refl)). by rewrite take_0, app_nil_r in Hpart.
           ++ destruct Hw as (_ & _ & _ & ->). rewrite Ht'. apply Hpart. right. split; [done|by exists fd].
        -- destruct (os_write k' fd read) as [k2 [e|n]]; cbn [fst]; [destruct Hw as [_ ->]|destruct Hw as (-> & _)]; congruence.
        -- intros k2 Hk2. rewrite Hk2 in Hw. destruct Hw as (Hset2 & Hb2 & _ & Ht2). apply HQ; cbn [kern set_kern]; [|congruence|lia].
           apply (Hfull _ read); [|by rewrite Hfd]. cbv zeta in Ht2. rewrite Ht2, Ht'. unfold strlen. by rewrite Nat2Z.id, firstn_all.
      * intros Hfd. apply HQ; cbn [kern set_kern]; [|congruence|lia]. apply (Hfull _ []); [by rewrite Ht', app_nil_r|by rewrite Hfd].
Qed.

Lemma wp_relay fuel (Q : unit -> proc K -> Prop) t0 set s :
  all_passed t0 (traffic_of (kern s)) -> settings (kern s) = set -> (budget (kern s) < fuel)%nat ->
  wp (relay fuel masterFd scriptFd) Q (relay_end t0 set) s.
Proof.
  revert s. induction fuel as [|fuel IH]; intros s Ha Hs Hf; [lia|]. cbn [relay].
  pose proof (rl_select (kern s) (masterFd + 1) [STDIN_FILENO; masterFd]) as Hl.
  apply wp_bind, wp_syscall; intros k ready Hk; rewrite Hk in Hl.
  { destruct Hl as [Ht Hset]. apply relay_fails; cbn [kern set_kern set_errno]; [rewrite Ht; by apply all_part|congruence|].
    intros E HE. by apply wp_errExit_fails. }
  destruct Hl as (Ht & Hset & Hb & Hready). destruct (Hready ltac:(done)) as (fd & Hin & Hfd).
  assert (Ha' : all_passed t0 (traffic_of (kern (set_kern k s)))) by (cbn; by rewrite Ht).
  assert (Hs' : settings (kern (set_kern k s)) = set) by (cbn; congruence).
  assert (Hb' : budget (kern (set_kern k s)) = budget (kern s)) by done. clear Hk.
  set (s1 := set_kern k s) in *. clearbody s1. apply wp_bind.
  assert (Hmaster : forall s2 (strict : bool), all_passed t0 (traffic_of (kern s2)) -> settings (kern s2) = set ->
    (if strict then budget (kern s2) < budget (kern s) else budget (kern s2) = budget (kern s) /\ masterFd ∈ ready)%nat ->
    wp (when (bool_decide (masterFd ∈ ready)) (
          let! buf := read_or_exit masterFd in
          write_or_die STDOUT_FILENO buf "STDOUT_FILENO" ;;;
          write_typescript scriptFd buf) ;;; relay fuel masterFd scriptFd) Q (relay_end t0 set) s2).
  { intros s2 strict Ha2 Hs2 Hb2. apply wp_bind, wp_when; intros Hm.
    - apply wp_from_master; [done|done|]. intros s3 Ha3 Hs3 Hb3. apply IH; [done|done|]. destruct strict; lia.
    - apply bool_decide_eq_false in Hm. destruct strict; [|by destruct Hb2]. apply IH; [done|done|lia]. }
  apply wp_when; intros Hm.
  - apply wp_from_tty; [done|done|]. intros s2 Ha2 Hs2 Hb2. apply (Hmaster s2 true); [done|done|lia].
  - apply bool_decide_eq_false in Hm. apply (Hmaster s1 false); [done|done|]. split; [done|].
    rewrite !elem_of_cons in Hfd. destruct Hfd as [-> |[-> |?%elem_of_nil]]; [done|done|done].
Qed.

(** What holds when the parent of script or unbuffer ends: [set] are the
    terminal's settings before. *)
Definition session_end (t0 : traffic) (set : termios) (e : exit_kind) s : Prop :=
  (e = EXIT_SUCCESS -> all_passed t0 (traffic_of (kern s)) /\ settings (kern s) = set) /\
  part_passed t0 (traffic_of (kern s)) /\
  (settings (kern s) = set \/ e = ABORT \/ (exists k err, os_tcsetattr_now k STDIN_FILENO set = (kern s, inl err)) \/
   exists k, os_atexit k = (kern s, false)).

Lemma wp_with_ttyReset (m : M (proc K) unit) t0 set raw s :
  wp m (fun _ _ => False) (relay_end t0 raw) s ->
  wp (with_ttyReset set m) (fun _ _ => False) (session_end t0 set) s.
Proof.
  unfold wp, with_ttyReset. destruct (m s) as [? ?|e s1|]; try done. intros (Ha & Hp & Hs).
  assert (Hreset : forall e', (e' = EXIT_SUCCESS -> e = EXIT_SUCCESS) ->
    wp (ttyReset set ;;; exit e' (A := unit)) (fun _ _ => False) (session_end t0 set) s1).
  { intros e' He. pose proof (rl_reset (kern s1) set) as Hl. apply wp_bind, wp_bind, wp_syscall; intros k r Hk; rewrite Hk in Hl; apply wp_when; intros Hr; try done.
    - apply wp_errExit_fails. intros e2 s2 He2 Hs2. cbn [kern set_kern set_errno] in Hs2. unfold session_end. rewrite Hs2, Hl.
      split_and!; [done|done|]. right. right. left. by exists (kern s1), r.
    - destruct Hl as [Ht Hset]. apply wp_exit. unfold session_end. cbn [kern set_kern]. rewrite Ht, Hset.
      split_and!; [intros He'; split; [by apply Ha, He|done]|done|by left]. }
  assert (Habort : e = ABORT -> session_end t0 set ABORT s1).
  { intros ->. split_and!; [done|done|]. right. by left. }
  destruct e; try (by apply Hreset). by apply Habort.
Qed.

(** C13: a session of script or unbuffer, from the raw mode on: the parent always
    ends, without undefined behaviour. With success everything typed has been
    sent to the program on the pseudoterminal, in order, everything received
    from it is on the screen and in the typescript, and the terminal has the
    settings it had. Otherwise only beginnings have been passed on, and the
    terminal still gets its settings back, unless the parent aborts, the call
    that gives them back fails, or atexit has failed. *)
Theorem session_relayed ttyOrig s : settings (kern s) = ttyOrig ->
  wp (relay_raw (S (budget (kern s))) masterFd scriptFd ttyOrig) (fun _ _ => False)
    (session_end (traffic_of (kern s)) ttyOrig) s.
Proof.
  intros Hs0. assert (Htail : forall prev s1, (default ttyOrig prev = ttyOrig) -> traffic_of (kern s1) = traffic_of (kern s) ->
    budget (kern s1) = budget (kern s) ->
    wp (let! ok := syscall_ (fun k => os_atexit k) in
        when (negb ok) (errExit (lit "atexit")) ;;;
        with_ttyReset (default ttyOrig prev) (relay (S (budget (kern s))) masterFd scriptFd))
      (fun _ _ => False) (session_end (traffic_of (kern s)) ttyOrig) s1).
  { intros prev s1 -> Ht Hb. pose proof (rl_atexit (kern s1)) as Hl. cbv zeta in Hl. apply wp_bind, wp_syscall_. destruct Hl as (Ht' & Hs' & Hb').
    apply wp_bind, wp_when; intros Hok.
    - apply wp_errExit_fails. intros e s2 He Hs2. unfold session_end. rewrite Hs2. cbn [kern set_kern]. rewrite Ht', Ht.
      split_and!; [done|apply all_part, all_refl|]. right. right. right. exists (kern s1).
      apply negb_true_iff in Hok. rewrite <-Hok. by destruct (os_atexit (kern s1)).
    - eapply wp_with_ttyReset, wp_relay; cbn [kern set_kern]; [rewrite Ht', Ht; apply all_refl|reflexivity|lia]. }
  unfold relay_raw. apply wp_bind. unfold ttySetRaw, tty_set. pose proof (rl_tcgetattr (kern s)) as Hg.
  apply wp_bind, wp_syscall; intros k t Hk; rewrite Hk in Hg.
  { destruct Hg as (Ht & _ & Hb). apply wp_ret. by apply (Htail None). }
  destruct Hg as (Ht & Hset & Hb & ->). pose proof (rl_tcsetattr k (raw_termios (settings (kern s)))) as Hr.
  apply wp_bind, wp_syscall; intros k' u Hk'; cbn [kern set_kern] in Hk'; rewrite Hk' in Hr; destruct Hr as (Ht' & _ & Hb'); apply wp_ret;
    apply (Htail (Some (settings (kern s)))); cbn; congruence.
Qed.
End Props.

(** ** A run *)

(** What is still to be typed and to be received; the master is 5 and the
    typescript 6. *)
Record demo_session := DemoSession { ds_traffic : traffic; ds_settings : termios; ds_keys : cstr; ds_output : cstr }.

#[export] Instance demo_session_io : ByteIO demo_session := {|
  os_read k fd n :=
    let t := ds_traffic k in
    if fd =? 0 then
      let b := take 3 (ds_keys k) in
      (DemoSession (Traffic (typed t ++ b) (sent t) (received t) (screen t) (script t)) (ds_settings k) (drop 3 (ds_keys k)) (ds_output k), inr b)
    else
      let b := take 4 (ds_output k) in
      (DemoSession (Traffic (typed t) (sent t) (received t ++ b) (screen t) (script t)) (ds_settings k) (ds_keys k) (drop 4 (ds_output k)), inr b);
  os_write k fd b :=
    let t := ds_traffic k in
    let t' := if fd =? 5 then Traffic (typed t) (sent t ++ b) (received t) (screen t) (script t)
      else if fd =? 1 then Traffic (typed t) (sent t) (received t) (screen t ++ b) (script t)
      else Traffic (typed t) (sent t) (received t) (screen t) (script t ++ b) in
    (DemoSession t' (ds_settings k) (ds_keys k) (ds_output k), inr (strlen b))
|}.
#[export] Instance demo_session_tty : TtyOS demo_session := {|
  os_tcgetattr k fd := (k, inr (ds_settings k));
  os_tcsetattr k fd t := (DemoSession (ds_traffic k) t (ds_keys k) (ds_output k), inr tt)
|}.
#[export] Instance demo_session_pty : PtyOS demo_session := {|
  os_openpt k _ := (k, inr 5); os_grantpt k _ := (k, inr tt); os_unlockpt k _ := (k, inr tt);
  os_ptsname k _ := (k, inr (lit "/dev/pts/0")); os_tiocsctty k _ := (k, inr tt);
  os_tcsetattr_now k _ t := (DemoSession (ds_traffic k) t (ds_keys k) (ds_output k), inr tt);
  os_tiocswinsz k _ _ := (k, inr tt)
|}.
#[export] Instance demo_session_desc : DescOS demo_session := {|
  os_open k _ _ := (k, inr 6); os_close k _ := (k, inr tt); os_dup2 k _ new := (k, inr new);
  os_fork k := (k, inr 77); os_setsid k := (k, inr 77)
|}.
(** Both descriptors are always ready: the session ends when there is nothing
    more to read from one of them. *)
#[export] Instance demo_session_relay : RelayOS demo_session := {|
  os_winsize k _ := (k, inr (Winsize 24 80)); os_open_script k _ := (k, inr 6);
  os_select k n fds := (k, inr fds);
  os_atexit k := (k, true); os_exec k _ _ := (k, None)
|}.
#[export] Instance demo_session_texts : ErrnoText := {| MAX_ENAME := 0; ename _ := []; strerror _ := [] |}.

Lemma take_shorter {A} n (l : list A) : take (S n) l <> [] -> (length (drop (S n) l) < length l)%nat.
Proof. destruct l; [done|]. intros _. rewrite length_drop. simpl. lia. Qed.

Lemma demo_same_traffic t : t = Traffic (typed t) (sent t) (received t) (screen t) (script t).
Proof. by destruct t. Qed.

#[export] Instance demo_session_laws : RelayLaws demo_session 5 (Some 6).
Proof.
  refine {| traffic_of := ds_traffic; settings := ds_settings; budget k := (length (ds_keys k) + length (ds_output k))%nat |}; try done.
  - intros k n fds. simpl. split_and!; try done. destruct fds as [|fd fds]; [done|]. intros _. exists fd. split; left.
  - intros k. cbn -[take drop]. split_and!; try done. intros Hb%take_shorter. lia.
  - intros k. cbn -[take drop]. split_and!; try done. intros Hb%take_shorter. lia.
  - intros k bytes. cbn. unfold strlen. rewrite Nat2Z.id, firstn_all. split_and!; try done; lia.
  - intros k bytes. cbn. unfold strlen. rewrite Nat2Z.id, firstn_all. split_and!; try done; lia.
  - intros k bytes fd [= <-]. cbn. unfold strlen. rewrite Nat2Z.id, firstn_all. split_and!; try done; lia.
Defined.

Definition demo_cooked : termios := Termios ICRNL OPOST 0 (Z.lor ICANON ECHO) (repeat 0 20).
Definition demo_session_start : proc demo_session :=
  Proc (DemoSession (Traffic [] [] [] [] []) demo_cooked (lit "ls" ++ [NEWLINE] ++ lit "exit" ++ [NEWLINE]) (lit "a b c" ++ [NEWLINE] ++ lit "bye")) 0 None [] [] [].

Lemma session_relayed_witness :
  wp (relay_raw (S (budget (kern demo_session_start))) 5 (Some 6) demo_cooked) (fun _ _ => False)
    (session_end 5 (Some 6) (traffic_of (kern demo_session_start)) demo_cooked) demo_session_start.
Proof. by apply (session_relayed 5 (Some 6) demo_cooked demo_session_start). Defined.

Definition traffic_and_settings (o : outcome (proc demo_session) unit) : option (traffic * termios) :=
  match o with Exit _ s => Some (ds_traffic (kern s), ds_settings (kern s)) | _ => None end.

Example demo_script :
  traffic_and_settings (script_main 20 [lit "script"] None demo_session_start) =
  Some (Traffic (lit "ls" ++ [NEWLINE] ++ lit "exit" ++ [NEWLINE]) (lit "ls" ++ [NEWLINE] ++ lit "exit" ++ [NEWLINE])
    (lit "a b c" ++ [NEWLINE] ++ lit "bye") (lit "a b c" ++ [NEWLINE] ++ lit "bye") (lit "a b c" ++ [NEWLINE] ++ lit "bye"), demo_cooked).
Proof. vm_compute. reflexivity. Qed.

(** When the input ends first the rest of the output is not read. *)
Example output_left :
  (fun r => screen r.1) <$> traffic_and_settings (unbuffer_main 20 [lit "unbuffer"; lit "prog"]
    (Proc (DemoSession (Traffic [] [] [] [] []) demo_cooked [] (lit "output of prog")) 0 None [] [] [])) = Some [].
Proof. vm_compute. reflexivity. Qed.
