(* ===== verification/CopyLoops.v ===== *)
(** The loop that copies from one descriptor to another, as fileio/copy.c and
    the programs of EchoServers have it (src/tlpi-dist), and copy.c. *)
From Stdlib Require Import ZArith Lia Ascii String.
From stdpp Require Import base tactics list strings gmap.
From S2P Require Import Prelude CString Process FdIo.
#[local] Open Scope Z_scope.

Section Loop.
Context {K : Type} {IO : ByteIO K}.
Abbreviation PM := (M (proc K)).

(** [while ((numRead = read(src, buf, size)) > 0) if (write(dst, buf, numRead)
    != numRead) bad_write;], with a unit of fuel for each turn: the result says
    whether the loop ended at the end of the input or with an error of read. *)
Fixpoint copy_loop (fuel : nat) (src dst size : Z) (bad_write : PM bool) : PM bool :=
  match fuel with
  | O => undef
  | S fuel =>
      let! r := syscall (fun k => os_read k src size) in
      match r with
      | None => ret false
      | Some [] => ret true
      | Some buf =>
          let! w := syscall (fun k => os_write k dst buf) in
          if bool_decide (w = Some (strlen buf)) then copy_loop fuel src dst size bad_write else bad_write
      end
  end.

End Loop.

(** What a state says of the two descriptors: what is still to be read, and
    what has been written; [ready] is kept by both calls. *)
Class CopyStream (K : Type) {IO : ByteIO K} (src dst size : Z) := {
  left_in : K -> list ascii;
  sent : K -> list ascii;
  ready : K -> Prop;
  cs_read k : ready k ->
    match os_read k src size with
    | (k', inr bytes) => ready k' /\ sent k' = sent k /\ left_in k = bytes ++ left_in k' /\ (bytes = [] -> left_in k = [])
    | (k', inl _) => ready k' /\ sent k' = sent k /\ left_in k' = left_in k
    end;
  cs_write k bytes : ready k ->
    match os_write k dst bytes with
    | (k', inr n) => 0 <= n <= strlen bytes /\ ready k' /\ sent k' = sent k ++ take (Z.to_nat n) bytes /\ left_in k' = left_in k
    | (k', inl _) => ready k' /\ sent k' = sent k /\ left_in k' = left_in k
    end
}.

Section LoopProps.
Context {K : Type} {IO : ByteIO K} (src dst size : Z) {CS : CopyStream K src dst size}.
Implicit Types (s : proc K).

(** [k'] is [k] after a beginning of the input has been copied. *)
Definition copied_part (k k' : K) : Prop :=
  ready k' /\ exists part, part `prefix_of` left_in k /\ sent k' = sent k ++ part.

Definition copied_all (k k' : K) : Prop := ready k' /\ left_in k' = [] /\ sent k' = sent k ++ left_in k.

Lemma copied_part_refl k : ready k -> copied_part k k.
Proof. intros Hr. split; [done|]. exists []. rewrite app_nil_r. split; [apply prefix_nil|done]. Qed.

(** With fuel for each byte and one turn more, the loop ends: with everything
    copied, with an error of read, or in [bad_write]; in any case nothing is
    copied twice or out of order. *)
Lemma wp_copy_turns fuel bad_write (Q : bool -> proc K -> Prop) E s :
  ready (kern s) -> (length (left_in (kern s)) < fuel)%nat ->
  (forall s', copied_part (kern s) (kern s') -> wp bad_write Q E s') ->
  (forall s', copied_part (kern s) (kern s') -> Q false s') ->
  (forall s', copied_all (kern s) (kern s') -> Q true s') ->
  wp (copy_loop fuel src dst size bad_write) Q E s.
Proof.
  revert s. induction fuel as [|fuel IH]; intros s Hr Hf HB HE HQ; [lia|]. cbn [copy_loop].
  apply wp_bind, wp_syscall; intros k r Hk; pose proof (cs_read (kern s) Hr) as Hl; rewrite Hk in Hl.
  - destruct Hl as (Hr' & Hs & Hi). apply wp_ret, HE. split; [done|]. exists []. rewrite app_nil_r.
    split; [apply prefix_nil|done].
  - destruct Hl as (Hr' & Hs & Hi & Hz). destruct r as [|c bytes].
    { apply wp_ret, HQ. unfold copied_all. simpl in *. rewrite Hs, <-Hi, (Hz eq_refl), app_nil_r. done. }
    assert (Hpart : forall k' n, ready k' -> sent k' = sent k ++ take n (c :: bytes) -> copied_part (kern s) k').
    { intros k' n Hr1 Hs1. split; [done|]. exists (take n (c :: bytes)). rewrite Hs1, Hs. split; [|done].
      rewrite Hi. apply prefix_app_r, prefix_take. }
    apply wp_bind, wp_syscall; intros k' w Hk'; pose proof (cs_write k (c :: bytes) Hr') as Hl; simpl in Hk'; rewrite Hk' in Hl.
    + rewrite bool_decide_eq_false_2 by done. destruct Hl as (Hr1 & Hs1 & _).
      apply HB, (Hpart k' 0%nat); simpl; [done|by rewrite Hs1, app_nil_r].
    + destruct Hl as (Hw & Hr1 & Hs1 & Hi1). case_bool_decide as Hall; [|by eapply HB, Hpart].
      injection Hall as ->. unfold strlen in Hs1. rewrite Nat2Z.id, firstn_all in Hs1.
      assert (Hgo : forall k'', copied_part k' k'' -> copied_part (kern s) k'').
      { intros k'' (Hr2 & part & Hp & Hs2). split; [done|]. exists ((c :: bytes) ++ part).
        rewrite Hs2, Hs1, Hs, Hi, <-app_assoc. split; [|done]. apply prefix_app. by rewrite <-Hi1. }
      apply IH; simpl.
      * done.
      * rewrite Hi1. rewrite Hi, length_app in Hf. simpl in Hf. lia.
      * intros s' H. apply HB, Hgo, H.
      * intros s' H. apply HE, Hgo, H.
      * intros s' (H1 & H2 & H3). apply HQ. split; [done|]. split; [done|]. by rewrite H3, Hs1, Hs, Hi1, Hi, app_assoc.
Qed.
End LoopProps.

(** ** fileio/copy.c *)

Definition BUF_SIZE : Z := 1024.

(** [open] to read; and to write, with O_CREAT, O_TRUNC and rw-rw-rw-. *)
Class CopyOS (K : Type) := {
  os_open_input : K -> cstr -> K * (Z + Z);
  os_open_output : K -> cstr -> K * (Z + Z);
  os_close_copy : K -> Z -> K * (Z + unit)
}.

Section Copy.
Context `{ErrnoText} {K : Type} {IO : ByteIO K} {OS : CopyOS K}.
Abbreviation PM := (M (proc K)).

Definition close_or_exit (fd : Z) (msg : cstr) : PM unit :=
  let! c := syscall (fun k => os_close_copy k fd) in
  when (bool_decide (c = None)) (errExit msg).

Definition copy_main (fuel : nat) (argv : list cstr) : PM unit :=
  match argv with
  | [prog; old; new] =>
      if bool_decide (old = lit "--help") then usageErr (prog ++ lit " old-file new-file" ++ [NEWLINE])
      else
        let! inputFd := syscall (fun k => os_open_input k old) in
        match inputFd with
        | None => errExit (lit "opening file " ++ old)
        | Some inputFd =>
            let! outputFd := syscall (fun k => os_open_output k new) in
            match outputFd with
            | None => errExit (lit "opening file " ++ new)
            | Some outputFd =>
                let! eof := copy_loop fuel inputFd outputFd BUF_SIZE
                  (fatal (lit "write() returned error or partial write occurred")) in
                when (negb eof) (errExit (lit "read")) ;;;
                close_or_exit inputFd (lit "close input") ;;;
                close_or_exit outputFd (lit "close output") ;;;
                exit3 EXIT_SUCCESS
            end
        end
  | prog :: _ => usageErr (prog ++ lit " old-file new-file" ++ [NEWLINE])
  | [] => usageErr (lit " old-file new-file" ++ [NEWLINE])
  end.

End Copy.

(** Files by the names they are opened with, and the file and offset of each
    descriptor; nobody else changes them. *)
Class FileLaws (K : Type) {IO : ByteIO K} {OS : CopyOS K} := {
  files : K -> gmap cstr (list ascii);
  opened : K -> gmap Z (cstr * nat);
  fw_open_in k name : match os_open_input k name with
    | (k', inr fd) => is_Some (files k !! name) /\ files k' = files k /\ opened k !! fd = None /\
        opened k' = <[fd := (name, 0%nat)]> (opened k)
    | (k', inl _) => files k' = files k /\ opened k' = opened k
    end;
  fw_open_out k name : match os_open_output k name with
    | (k', inr fd) => files k' = <[name := []]> (files k) /\ opened k !! fd = None /\
        opened k' = <[fd := (name, 0%nat)]> (opened k)
    | (k', inl _) => files k' = files k /\ opened k' = opened k
    end;
  fw_read k fd n name off data : 0 < n -> opened k !! fd = Some (name, off) -> files k !! name = Some data ->
    match os_read k fd n with
    | (k', inr bytes) => files k' = files k /\ opened k' = <[fd := (name, (off + length bytes)%nat)]> (opened k) /\
        bytes `prefix_of` drop off data /\ (bytes = [] -> drop off data = [])
    | (k', inl _) => files k' = files k /\ opened k' = opened k
    end;
  fw_write k fd bytes name off data : opened k !! fd = Some (name, off) -> files k !! name = Some data ->
    match os_write k fd bytes with
    | (k', inr n) => 0 <= n <= strlen bytes /\
        files k' = <[name := take off data ++ take (Z.to_nat n) bytes ++ drop (off + Z.to_nat n) data]> (files k) /\
        opened k' = <[fd := (name, (off + Z.to_nat n)%nat)]> (opened k)
    | (k', inl _) => files k' = files k /\ opened k' = opened k
    end;
  fw_close k fd : match os_close_copy k fd with
    | (k', inr _) => files k' = files k /\ opened k' = delete fd (opened k)
    | (k', inl _) => files k' = files k
    end
}.

Section CopyProps.
Context `{ET : ErrnoText} {K : Type} {IO : ByteIO K} {OS : CopyOS K} {FL : FileLaws K}.
Implicit Types (s : proc K).

(** Between the opening and the closing of the files [old] and [new]: nothing
    else has changed since [k0]. *)
Record copying (k0 : K) (old new : cstr) (data : list ascii) (src dst : Z) (k : K) : Prop := {
  cp_in : exists off, opened k = <[dst := (new, length (files k !!! new))]> (<[src := (old, off)]> (opened k0));
  cp_data : files k !! old = Some data;
  cp_out : files k = <[new := files k !!! new]> (files k0)
}.

Definition input_left (data : list ascii) (src : Z) (k : K) : list ascii :=
  match opened k !! src with Some (_, off) => drop off data | None => [] end.

Lemma lookup_total_insert_files (m : gmap cstr (list ascii)) n d : <[n := d]> m !!! n = d.
Proof. apply lookup_total_insert_eq. Qed.

Definition copy_stream (k0 : K) (old new : cstr) (data : list ascii) (src dst : Z) :
  old <> new -> src <> dst -> CopyStream K src dst BUF_SIZE.
Proof.
  intros Hne Hfd. refine {| left_in := input_left data src; sent k := files k !!! new; ready := copying k0 old new data src dst |}.
  - intros k [[off Ho] Hd Hf]. assert (Hsrc : opened k !! src = Some (old, off)) by (rewrite Ho, lookup_insert_ne, lookup_insert_eq by done; done).
    pose proof (fw_read k src BUF_SIZE old off data ltac:(done) Hsrc Hd) as Hl. destruct (os_read _ _ _) as [k' [e|bytes]].
    + destruct Hl as [Hf' Ho']. unfold input_left. rewrite Ho', Hf'. split_and!; [|done|done]. split; rewrite ?Hf', ?Ho'; eauto.
    + destruct Hl as (Hf' & Ho' & [rest Hrest] & Hz). rewrite Hf'. split_and!.
      * split; rewrite ?Hf'; try done. exists (off + length bytes)%nat. rewrite Ho', Ho.
        rewrite (insert_insert_ne _ src dst) by done. by rewrite insert_insert_eq.
      * done.
      * unfold input_left. rewrite Hsrc, Ho', lookup_insert_eq. rewrite <-drop_drop, Hrest, drop_app_length. done.
      * unfold input_left. by rewrite Hsrc.
  - intros k bytes [[off Ho] Hd Hf]. set (d := files k !!! new) in *.
    assert (Hdst : opened k !! dst = Some (new, length d)) by (by rewrite Ho, lookup_insert_eq).
    assert (Hnew : files k !! new = Some d) by (rewrite Hf; apply lookup_insert_eq).
    pose proof (fw_write k dst bytes new (length d) d Hdst Hnew) as Hl. unfold input_left. destruct (os_write _ _ _) as [k' [e|n]].
    + destruct Hl as [Hf' Ho']. rewrite Ho', Hf'. split_and!; [|done|done]. split; rewrite ?Hf', ?Ho'; eauto.
    + destruct Hl as (Hn & Hf' & Ho'). rewrite firstn_all, drop_ge, app_nil_r in Hf' by lia.
      assert (Hd' : files k' !!! new = d ++ take (Z.to_nat n) bytes) by (rewrite Hf'; apply lookup_total_insert_eq).
      split_and!; [lia|lia| |done|by rewrite Ho', lookup_insert_ne].
      split; rewrite ?Hd'.
      * exists off. rewrite Ho', Ho, insert_insert_eq, length_app, length_take_le by (unfold strlen in *; lia). done.
      * by rewrite Hf', lookup_insert_ne.
      * by rewrite Hf', Hf, insert_insert_eq.
Defined.

(** How copy ends: what holds of the files at any end, and at success. *)
Definition copy_end (k0 : K) (new : cstr) (data : list ascii) (e : exit_kind) s : Prop :=
  (e = EXIT_SUCCESS -> files (kern s) = <[new := data]> (files k0) /\ opened (kern s) = opened k0) /\
  (files (kern s) = files k0 \/ exists part, part `prefix_of` data /\ files (kern s) = <[new := part]> (files k0)).

Lemma copy_end_failure k0 new data e s :
  e <> EXIT_SUCCESS ->
  files (kern s) = files k0 \/ (exists part, part `prefix_of` data /\ files (kern s) = <[new := part]> (files k0)) ->
  copy_end k0 new data e s.
Proof. intros He Hf. split; [by intros|done]. Qed.

Lemma wp_close_or_exit fd msg k0 new data (Q : unit -> proc K -> Prop) s :
  (exists part, part `prefix_of` data /\ files (kern s) = <[new := part]> (files k0)) ->
  (forall s', files (kern s') = files (kern s) -> opened (kern s') = delete fd (opened (kern s)) -> Q tt s') ->
  wp (close_or_exit fd msg) Q (copy_end k0 new data) s.
Proof.
  intros Hp HQ. apply wp_bind, wp_syscall; intros k r Hk; pose proof (fw_close (kern s) fd) as Hl; rewrite Hk in Hl.
  - apply wp_when; [intros _|done]. apply wp_errExit_fails. intros e s' He Hs'. apply copy_end_failure; [done|]. right.
    rewrite Hs'. simpl. by rewrite Hl.
  - apply wp_when; [done|intros _]. by apply HQ; destruct Hl.
Qed.

(** copy onto another file ends, without undefined behaviour; with
    success only when the new file has exactly the contents of the old one, all
    other files are as they were and both descriptors are closed; and otherwise
    the new file is untouched or has a beginning of them. *)
Theorem copy_copies (prog old new : cstr) (data : list ascii) (s : proc K) :
  old <> new -> files (kern s) !! old = Some data ->
  wp (copy_main (S (length data)) [prog; old; new]) (fun _ _ => False) (copy_end (kern s) new data) s.
Proof.
  intros Hne Hd. unfold copy_main. case_bool_decide.
  { apply wp_usageErr. intros s' Hs'. apply copy_end_failure; [done|left]. by rewrite Hs'. }
  assert (Hfail : forall s1 msg, files (kern s1) = files (kern s) -> wp (errExit msg) (fun (_ : unit) _ => False) (copy_end (kern s) new data) s1).
  { intros s1 msg H1. apply wp_errExit_fails. intros e s' He Hs'. apply copy_end_failure; [done|left]. by rewrite Hs'. }
  apply wp_bind, wp_syscall; intros k1 src Hk1; pose proof (fw_open_in (kern s) old) as Hl; rewrite Hk1 in Hl; [by apply Hfail, Hl|].
  destruct Hl as (_ & Hf1 & Hfree & Ho1).
  apply wp_bind, wp_syscall; intros k2 dst Hk2; pose proof (fw_open_out k1 new) as Hl; simpl in Hk2; rewrite Hk2 in Hl.
  { apply Hfail. simpl. by destruct Hl as [-> _]. }
  destruct Hl as (Hf2 & Hfree2 & Ho2).
  assert (Hfd : src <> dst) by (intros ->; by rewrite Ho1, lookup_insert_eq in Hfree2).
  assert (Hnew : files k2 !!! new = []) by (rewrite Hf2; apply lookup_total_insert_eq).
  assert (Hready : copying (kern s) old new data src dst k2).
  { split; rewrite ?Hnew, ?Hf2, ?Hf1; [exists 0%nat; by rewrite Ho2, Ho1|by rewrite lookup_insert_ne|done]. }
  assert (Hleft : input_left data src k2 = data) by (unfold input_left; by rewrite Ho2, lookup_insert_ne, Ho1, lookup_insert_eq).
  pose (CS := copy_stream (kern s) old new data src dst Hne Hfd).
  assert (Hpart : forall s', copied_part src dst BUF_SIZE (CS := CS) k2 (kern s') ->
    exists part, part `prefix_of` data /\ files (kern s') = <[new := part]> (files (kern s))).
  { intros s' (Hr & part & Hp & Hs). simpl in Hp, Hs. rewrite Hleft in Hp. rewrite Hnew in Hs. exists part.
    split; [done|]. rewrite (cp_out _ _ _ _ _ _ _ Hr), Hs. done. }
  assert (Hfatal : forall s' A (m : M (proc K) A) Q, copied_part src dst BUF_SIZE (CS := CS) k2 (kern s') ->
    (forall E, (forall e s2, e <> EXIT_SUCCESS -> kern s2 = kern s' -> E e s2) -> wp m Q E s') ->
    wp m Q (copy_end (kern s) new data) s').
  { intros s' A m Q Hp Hm. apply Hm. intros e s2 He Hs2. apply copy_end_failure; [done|right]. rewrite Hs2. by apply Hpart. }
  apply wp_bind, (wp_copy_turns src dst BUF_SIZE (CS := CS)).
  - exact Hready.
  - simpl. rewrite Hleft. lia.
  - intros s' Hp. eapply Hfatal; [exact Hp|]. intros E HE. apply wp_fatal_fails. done.
  - intros s' Hp. apply wp_bind. eapply Hfatal; [exact Hp|]. intros E HE. apply wp_errExit_fails. done.
  - intros s' (Hr & _ & Hs). simpl in Hs. rewrite Hnew, Hleft in Hs. simpl in Hs.
    assert (Hf : files (kern s') = <[new := data]> (files (kern s))) by (rewrite (cp_out _ _ _ _ _ _ _ Hr), Hs; done).
    destruct (cp_in _ _ _ _ _ _ _ Hr) as [off Ho].
    apply wp_bind, wp_ret, wp_bind, wp_close_or_exit; [by exists data|]. intros s1 H1 H1'.
    apply wp_bind, wp_close_or_exit; [exists data; by rewrite H1|]. intros s2 H2 H2'.
    apply wp_exit3. intros s3 H3. split; [intros _|right; exists data; by rewrite H3, H2, H1, Hf].
    rewrite H3, H2, H1, H2', H1', Ho. split; [done|].
    rewrite delete_insert_ne, delete_insert_eq, delete_insert_eq by done.
    rewrite (delete_id (opened (kern s)) src) by done. apply delete_id. by rewrite Ho1, lookup_insert_ne in Hfree2.
Qed.
End CopyProps.

(** ** Runs *)

(** Files by name, and descriptors; a read gives at most four bytes. *)
Record demo_fs := DemoFs { d_files : gmap cstr (list ascii); d_open : gmap Z (cstr * nat) }.

Definition demo_opening (k : demo_fs) (name : cstr) : demo_fs * (Z + Z) :=
  let fd := fresh (dom (d_open k)) in (DemoFs (d_files k) (<[fd := (name, 0%nat)]> (d_open k)), inr fd).

#[export] Instance demo_fs_io : ByteIO demo_fs := {|
  os_read k fd n :=
    match d_open k !! fd with
    | Some (name, off) =>
        match d_files k !! name with
        | Some data =>
            let bytes := take (Nat.min 4 (Z.to_nat n)) (drop off data) in
            (DemoFs (d_files k) (<[fd := (name, (off + length bytes)%nat)]> (d_open k)), inr bytes)
        | None => (k, inl 9)
        end
    | None => (k, inl 9)
    end;
  os_write k fd bytes :=
    match d_open k !! fd with
    | Some (name, off) =>
        match d_files k !! name with
        | Some data =>
            (DemoFs (<[name := take off data ++ bytes ++ drop (off + length bytes) data]> (d_files k))
               (<[fd := (name, (off + length bytes)%nat)]> (d_open k)), inr (strlen bytes))
        | None => (k, inl 9)
        end
    | None => (k, inl 9)
    end
|}.

#[export] Instance demo_copy_os : CopyOS demo_fs := {|
  os_open_input k name :=
    match d_files k !! name with Some _ => demo_opening k name | None => (k, inl 2) end;
  os_open_output k name := demo_opening (DemoFs (<[name := []]> (d_files k)) (d_open k)) name;
  os_close_copy k fd := (DemoFs (d_files k) (delete fd (d_open k)), inr tt)
|}.

Lemma fresh_descriptor (m : gmap Z (cstr * nat)) : m !! fresh (dom m) = None.
Proof. apply not_elem_of_dom, is_fresh. Qed.

#[export] Instance demo_file_laws : FileLaws demo_fs.
Proof.
  refine {| files := d_files; opened := d_open |}.
  - intros k name. unfold os_open_input, demo_copy_os, demo_opening. destruct (d_files k !! name); [|done]. cbn [d_files d_open].
    split_and!; try done. apply fresh_descriptor.
  - intros k name. cbn. split_and!; try done. apply fresh_descriptor.
  - intros k fd n name off data Hn Ho Hd. unfold os_read, demo_fs_io. rewrite Ho, Hd. cbn [d_files d_open]. split_and!; try done.
    + apply prefix_take.
    + intros H0. destruct (drop off data); [done|]. exfalso.
      destruct (Nat.min 4 (Z.to_nat n)) eqn:Hm; [lia|by simpl in H0].
  - intros k fd bytes name off data Ho Hd. unfold os_write, demo_fs_io. rewrite Ho, Hd. cbn [d_files d_open].
    unfold strlen. rewrite Nat2Z.id, firstn_all. split_and!; try done; lia.
  - by intros k fd.
Defined.

#[export] Instance demo_copy_texts : ErrnoText :=
  {| MAX_ENAME := 0; ename := fun _ => []; strerror := fun _ => [] |}.

Definition demo_copy : proc demo_fs :=
  Proc (DemoFs {[lit "a" := lit "0123456789"; lit "b" := lit "xyz"]} ∅) 0 None [] [] [].

Definition file_after (fuel : nat) (argv : list cstr) (name : cstr) : option (list ascii) :=
  match copy_main fuel argv demo_copy with Exit EXIT_SUCCESS s => d_files (kern s) !! name | _ => None end.

Lemma copy_copies_witness :
  file_after 11 [lit "copy"; lit "a"; lit "b"] (lit "b") = Some (lit "0123456789") /\
  wp (copy_main (S (length (lit "0123456789"))) [lit "copy"; lit "a"; lit "b"]) (fun _ _ => False)
    (copy_end (kern demo_copy) (lit "b") (lit "0123456789")) demo_copy.
Proof. split; [by vm_compute|]. apply (copy_copies (lit "copy") (lit "a") (lit "b") (lit "0123456789") demo_copy); done. Defined.

(** A file that is copied onto itself is emptied. *)
Example copied_onto_itself : file_after 11 [lit "copy"; lit "a"; lit "a"] (lit "a") = Some [].
Proof. by vm_compute. Qed.
