(* ===== verification/TeeCopy.v ===== *)
(** chapter4/tee.c: standard input is copied to standard output and to a list of
    files. [getopt] is the list of the options it returns. The loop takes a unit
    of fuel for each byte of the input, and one more. chapter4/teee.c is the same
    program. *)
From Stdlib Require Import ZArith Lia Ascii String.
From stdpp Require Import base tactics list strings gmap.
From S2P Require Import Prelude CString Process FdIo.
#[local] Open Scope Z_scope.

Definition STDIN_FILENO : Z := 0.
Definition STDOUT_FILENO : Z := 1.
Definition BUFSIZ : Z := 8192.

(** [open] to write, with O_CREAT and O_APPEND or O_TRUNC and mode rw-rw-rw-. *)
Class TeeOS (K : Type) := {
  os_malloc : K -> Z -> K * bool;
  os_open_write : K -> cstr -> bool -> K * (Z + Z);
  os_close : K -> Z -> K * (Z + unit)
}.

Section Code.
Context `{ErrnoText} {K : Type} {IO : ByteIO K} {OS : TeeOS K}.
Abbreviation PM := (M (proc K)).

(** [fprintf(stderr, ...)] and [exit(EXIT_FAILURE)]. *)
Definition complain {A} (msg : cstr) : PM A := puterr (msg ++ [NEWLINE]) ;;; exit3 EXIT_FAILURE.
Definition complain_errno {A} (msg : cstr) : PM A :=
  let! s := get in complain (msg ++ lit ": " ++ strerror (errno s)).

(** The loop over the options: [append_flag]. *)
Fixpoint tee_options (pname : cstr) (opts : list option_arg) (append_flag : bool) : PM bool :=
  match opts with
  | [] => ret append_flag
  | Opt c _ :: opts =>
      if bool_decide (c = "a"%char) then tee_options pname opts true
      else complain (lit "Usage: " ++ pname ++ lit " [-a] [file...]")
  end.

(** [fd_array] and [file_names], after their allocation. *)
Definition allocate_arrays (num_files : Z) : PM unit :=
  let! a := syscall_ (fun k => os_malloc k (4 * num_files)) in
  let! b := syscall_ (fun k => os_malloc k (8 * num_files)) in
  when (negb a || negb b) (complain (lit "Memory allocation failed")).

Fixpoint open_files (append_flag : bool) (files : list cstr) : PM (list (Z * cstr)) :=
  match files with
  | [] => ret []
  | name :: files =>
      let! fd := syscall (fun k => os_open_write k name append_flag) in
      match fd with
      | None => complain_errno (lit "Error opening file " ++ name)
      | Some fd =>
          let! fds := open_files append_flag files in
          ret ((fd, name) :: fds)
      end
  end.

Definition write_all (buf : cstr) (fd : Z) (error : cstr) : PM unit :=
  let! w := syscall (fun k => os_write k fd buf) in
  when (negb (bool_decide (w = Some (strlen buf)))) (complain_errno error).

(** What has been read is written to standard output and to each file. *)
Definition write_everywhere (buf : cstr) (fds : list (Z * cstr)) : PM unit :=
  write_all buf STDOUT_FILENO (lit "Error writing to stdout") ;;;
  for_each fds (fun '(fd, name) => write_all buf fd (lit "Error writing to file " ++ name)).

Fixpoint tee_loop (fuel : nat) (fds : list (Z * cstr)) : PM unit :=
  match fuel with
  | O => undef
  | S fuel =>
      let! r := syscall (fun k => os_read k STDIN_FILENO BUFSIZ) in
      match r with
      | None => complain_errno (lit "Error reading from stdin")
      | Some [] => ret tt
      | Some buf =>
          write_everywhere buf fds ;;;
          tee_loop fuel fds
      end
  end.

Definition close_file (f : Z * cstr) : PM unit :=
  let! c := syscall (fun k => os_close k f.1) in
  when (bool_decide (c = None)) (complain_errno (lit "Error closing file " ++ f.2)).

Definition tee_main (fuel : nat) (pname : cstr) (opts : list option_arg) (files : list cstr) : PM unit :=
  let! append_flag := tee_options pname opts false in
  when (0 <? Z.of_nat (length files)) (allocate_arrays (Z.of_nat (length files))) ;;;
  let! fds := open_files append_flag files in
  tee_loop fuel fds ;;;
  for_each fds close_file ;;;
  exit3 EXIT_SUCCESS.

End Code.

(** Standard input, of which [unread] is still to come and which is none of the
    files; the files; and the file of each descriptor with its offset, [None]
    for O_APPEND. *)
Class TeeLaws (K : Type) {IO : ByteIO K} {OS : TeeOS K} := {
  unread : K -> cstr;
  files : K -> gmap cstr cstr;
  opened : K -> gmap Z (cstr * option nat);
  tl_malloc k n : let k' := (os_malloc k n).1 in unread k' = unread k /\ files k' = files k /\ opened k' = opened k;
  tl_open k name (append : bool) : match os_open_write k name append with
    | (k', inr fd) => unread k' = unread k /\ opened k !! fd = None /\
        files k' = <[name := if append then files k !!! name else []]> (files k) /\
        opened k' = <[fd := (name, if append then None else Some 0%nat)]> (opened k)
    | (k', inl _) => unread k' = unread k /\ files k' = files k /\ opened k' = opened k
    end;
  tl_read k n : 0 < n -> match os_read k STDIN_FILENO n with
    | (k', inr bytes) => files k' = files k /\ opened k' = opened k /\ unread k = bytes ++ unread k' /\
        (bytes = [] -> unread k = [])
    | (k', inl _) => files k' = files k /\ opened k' = opened k /\ unread k' = unread k
    end;
  tl_write k fd bytes name offset data : opened k !! fd = Some (name, offset) -> files k !! name = Some data ->
    match os_write k fd bytes with
    | (k', inr n) => unread k' = unread k /\ 0 <= n <= strlen bytes /\
        let off := default (length data) offset in
        files k' = <[name := take off data ++ take (Z.to_nat n) bytes ++ drop (off + Z.to_nat n) data]> (files k) /\
        opened k' = <[fd := (name, Nat.add (Z.to_nat n) <$> offset)]> (opened k)
    | (k', inl _) => unread k' = unread k /\ files k' = files k /\ opened k' = opened k
    end;
  tl_close k fd : let k' := (os_close k fd).1 in unread k' = unread k /\ files k' = files k
}.

Section TeeProps.
Context `{ET : ErrnoText} {K : Type} {IO : ByteIO K} {OS : TeeOS K} {TL : TeeLaws K}.
Implicit Types (s : proc K).

(** [k0] is the start, [out] the file that is standard output and [names] are
    the operands; [base] is what a file begins with. *)
Context (k0 : K) (append : bool) (out : cstr) (names : list cstr).
Hypothesis distinct : NoDup (out :: names).

Definition base (name : cstr) : cstr :=
  if append || bool_decide (name = out) then files k0 !!! name else [].

(** Descriptor [fd] is at the end of the file [name], which has got [text]. *)
Definition stream (k : K) (fd : Z) (name text : cstr) : Prop :=
  exists offset, opened k !! fd = Some (name, offset) /\ files k !! name = Some (base name ++ text) /\
    default (length (base name ++ text)) offset = length (base name ++ text).

Record streams (k : K) (fds : list (Z * cstr)) (got : cstr -> cstr) : Prop := {
  st_streams : forall fd name, (fd, name) ∈ fds -> stream k fd name (got name);
  st_rest : forall name, name ∉ fds.*2 -> files k !! name = files k0 !! name
}.

(** At most beginnings of [text] have been written. *)
Definition part_of (text : cstr) (k : K) : Prop :=
  (forall name, name ∈ out :: names -> files k !! name = files k0 !! name \/
    exists part, part `prefix_of` text /\ files k !! name = Some (base name ++ part)) /\
  (forall name, name ∉ out :: names -> files k !! name = files k0 !! name).

Definition all_of (text : cstr) (k : K) : Prop :=
  unread k = [] /\ (forall name, name ∈ out :: names -> files k !! name = Some (base name ++ text)).

Definition tee_end (text : cstr) (e : exit_kind) s : Prop :=
  (e = EXIT_SUCCESS -> all_of text (kern s)) /\ part_of text (kern s).

Lemma streams_ext k k' fds got :
  files k' = files k -> opened k' = opened k -> streams k fds got -> streams k' fds got.
Proof.
  intros Hf Ho [Hs Hr]. split; [|intros name; rewrite Hf; apply Hr].
  intros fd name Hin. unfold stream. rewrite Hf, Ho. by apply Hs.
Qed.

Lemma streams_part text k fds got :
  fds.*2 ⊆ out :: names -> (forall name, got name `prefix_of` text) -> streams k fds got -> part_of text k.
Proof.
  intros Hsub Hp [Hs Hr]. split; intros name Hn; [|apply Hr; set_solver].
  destruct (decide (name ∈ fds.*2)) as [Hin|Hin]; [right|left; by apply Hr].
  apply list_elem_of_fmap in Hin as ([fd x] & -> & Hin). destruct (Hs _ _ Hin) as (o & _ & Hf & _).
  exists (got x). split; [apply Hp|exact Hf].
Qed.

Lemma same_name_same_fd (fds : list (Z * cstr)) fd fd' name :
  NoDup fds.*2 -> (fd, name) ∈ fds -> (fd', name) ∈ fds -> fd = fd'.
Proof.
  intros Hnd H1 H2. apply list_elem_of_lookup in H1 as [i Hi], H2 as [j Hj].
  assert (i = j) as ->; [|by simplify_eq].
  eapply (NoDup_lookup fds.*2); [done| |]; rewrite list_lookup_fmap; [rewrite Hi|rewrite Hj]; done.
Qed.

(** One write moves one stream on. *)
Lemma streams_write k fds got fd name bytes :
  NoDup fds.*2 -> (fd, name) ∈ fds -> streams k fds got ->
  match os_write k fd bytes with
  | (k', inr n) => unread k' = unread k /\ 0 <= n <= strlen bytes /\
      streams k' fds (fun x => if bool_decide (x = name) then got name ++ take (Z.to_nat n) bytes else got x)
  | (k', inl _) => unread k' = unread k /\ streams k' fds got
  end.
Proof.
  intros Hnd Hin Hst. destruct (st_streams _ _ _ Hst _ _ Hin) as (o & Ho & Hf & Hlen).
  pose proof (tl_write k fd bytes name o _ Ho Hf) as Hl. destruct (os_write _ _ _) as [k' [e|n]].
  { destruct Hl as (Hu & Hf' & Ho'). split; [done|]. by eapply streams_ext. }
  destruct Hl as (Hu & Hn & Hl). cbv zeta in Hl. destruct Hl as [Hf' Ho'].
  rewrite Hlen, firstn_all, drop_ge, app_nil_r in Hf' by lia. split; [done|]. split; [done|]. split.
  - intros fd1 name1 Hin1. case_bool_decide as Hx.
    + subst name1. rewrite <-(same_name_same_fd fds fd fd1 name) by done. exists (Nat.add (Z.to_nat n) <$> o).
      rewrite Ho', Hf', !lookup_insert_eq, <-app_assoc. split_and!; [done|done|].
      destruct o as [off|]; [|done]. simpl in *. rewrite !length_app in *.
      rewrite length_take_le by (unfold strlen in *; lia). lia.
    + assert (fd1 <> fd). { intros ->. destruct (st_streams _ _ _ Hst _ _ Hin1) as (? & ? & _). congruence. }
      destruct (st_streams _ _ _ Hst _ _ Hin1) as (o1 & Ho1 & Hf1 & Hlen1). exists o1.
      rewrite Ho', Hf', !lookup_insert_ne by done. done.
  - intros x Hx. rewrite Hf', lookup_insert_ne; [by apply Hst|]. intros ->. apply Hx.
    apply list_elem_of_fmap. by exists (fd, x).
Qed.

Lemma streams_got k fds got got' :
  (forall name, name ∈ fds.*2 -> got name = got' name) -> streams k fds got -> streams k fds got'.
Proof.
  intros Hg [Hs Hr]. split; [|done]. intros fd name Hin. rewrite <-Hg; [by apply Hs|].
  apply list_elem_of_fmap. by exists (fd, name).
Qed.

Lemma wp_tee_complain {A} msg (Q : A -> proc K -> Prop) E s :
  (forall s', kern s' = kern s -> E EXIT_FAILURE s') -> wp (complain msg) Q E s.
Proof. intros HE. apply wp_bind, wp_puterr. intros s1 H1 _. apply wp_exit3. intros s2 H2. apply HE. by rewrite H2. Qed.

Lemma wp_complain_end {A} text msg (Q : A -> proc K -> Prop) s :
  part_of text (kern s) -> wp (complain_errno msg) Q (tee_end text) s.
Proof. intros Hp. apply wp_bind, wp_get, wp_tee_complain. intros s' Hs'. split; [done|]. by rewrite Hs'. Qed.

(** The descriptors that are written through: standard output and the files. *)
Context (text : cstr).

Definition outputs_ok (fds : list (Z * cstr)) : Prop := fds.*2 = out :: names.

Lemma wp_write_all buf fd name error fds got (Q : unit -> proc K -> Prop) s :
  outputs_ok fds -> (fd, name) ∈ fds -> streams (kern s) fds got ->
  (forall x, got x `prefix_of` text) -> got name ++ buf `prefix_of` text ->
  (forall s', unread (kern s') = unread (kern s) ->
    streams (kern s') fds (fun x => if bool_decide (x = name) then got name ++ buf else got x) -> Q tt s') ->
  wp (write_all buf fd error) Q (tee_end text) s.
Proof.
  intros Hok Hin Hst Hp Hb HQ. assert (Hsub : fds.*2 ⊆ out :: names) by (by rewrite Hok).
  assert (Hnd : NoDup fds.*2) by (by rewrite Hok).
  apply wp_bind, wp_syscall; intros k r Hk; pose proof (streams_write (kern s) fds got fd name buf Hnd Hin Hst) as Hl; rewrite Hk in Hl.
  - rewrite bool_decide_eq_false_2 by done. apply wp_when; [intros _|done].
    apply wp_complain_end. destruct Hl as [_ Hl]. by eapply streams_part.
  - destruct Hl as (Hu & Hn & Hl). apply wp_when; case_bool_decide as Hr; try done; intros _.
    + apply wp_complain_end. eapply streams_part; [done| |exact Hl]. intros x. cbn beta. case_bool_decide; [|done].
      etrans; [|exact Hb]. apply prefix_app, prefix_take.
    + injection Hr as ->. unfold strlen in Hl. rewrite Nat2Z.id, firstn_all in Hl. by apply HQ.
Qed.

(** One round: what has been read is written everywhere. *)
Lemma wp_round buf fds don (Q : unit -> proc K -> Prop) s :
  outputs_ok ((STDOUT_FILENO, out) :: fds) -> streams (kern s) ((STDOUT_FILENO, out) :: fds) (fun _ => don) ->
  don ++ buf `prefix_of` text ->
  (forall s', unread (kern s') = unread (kern s) ->
    streams (kern s') ((STDOUT_FILENO, out) :: fds) (fun _ => don ++ buf) -> Q tt s') ->
  wp (write_everywhere buf fds) Q (tee_end text) s.
Proof.
  intros Hok Hst Hb HQ. set (all := (STDOUT_FILENO, out) :: fds) in *.
  assert (Hd : don `prefix_of` text) by (etrans; [apply prefix_app_r|]; done).
  assert (Hnd : NoDup all.*2) by (by rewrite Hok).
  pose (got (dn : list (Z * cstr)) (x : cstr) := if bool_decide (x ∈ dn.*2) then don ++ buf else don).
  assert (Hwrite : forall dn fd name rest error s1 (Q' : unit -> proc K -> Prop), all = dn ++ (fd, name) :: rest ->
    streams (kern s1) all (got dn) ->
    (forall s2, unread (kern s2) = unread (kern s1) -> streams (kern s2) all (got (dn ++ [(fd, name)])) -> Q' tt s2) ->
    wp (write_all buf fd error) Q' (tee_end text) s1).
  { intros dn fd name rest error s1 Q' Hall Hs1 HQ'. assert (Hg : got dn name = don).
    { unfold got. rewrite bool_decide_eq_false_2; [done|]. rewrite Hall, fmap_app, NoDup_app in Hnd.
      destruct Hnd as (_ & Hnd & _). intros Hx. apply (Hnd _ Hx). left. }
    eapply (wp_write_all buf fd name error all); [done| |exact Hs1| |by rewrite Hg|].
    { rewrite Hall. set_solver. }
    { intros x. unfold got. by case_bool_decide. }
    intros s2 Hu Hs2. apply HQ'; [done|]. revert Hs2. apply streams_got. intros x _. rewrite Hg. unfold got.
    rewrite fmap_app. simpl. repeat case_bool_decide; try done; set_solver. }
  apply wp_bind. apply (Hwrite [] STDOUT_FILENO out fds); [done|exact Hst|]. intros s1 Hu1 Hs1.
  eapply wp_mono; [|intros [] s2 H2; exact H2|done].
  eapply wp_mono; [apply (wp_for_each fds _ (fun dn s => unread (kern s) = unread (kern s1) /\
    streams (kern s) all (got ((STDOUT_FILENO, out) :: dn))))| |done].
  - done.
  - intros dn [fd name] rest s2 Hfds (Hu & Hs2). apply (Hwrite ((STDOUT_FILENO, out) :: dn) fd name rest); [by unfold all; rewrite Hfds|done|].
    intros s3 Hu3 Hs3. split; [by rewrite Hu3|done].
  - intros [] s2 (Hu & Hs2). apply HQ; [by rewrite Hu|]. revert Hs2. apply streams_got. intros x Hx. unfold got.
    by rewrite bool_decide_eq_true_2.
Qed.

Lemma wp_tee_loop fuel fds don (Q : unit -> proc K -> Prop) s :
  outputs_ok ((STDOUT_FILENO, out) :: fds) -> streams (kern s) ((STDOUT_FILENO, out) :: fds) (fun _ => don) ->
  text = don ++ unread (kern s) -> (length (unread (kern s)) < fuel)%nat ->
  (forall s', unread (kern s') = [] -> streams (kern s') ((STDOUT_FILENO, out) :: fds) (fun _ => text) -> Q tt s') ->
  wp (tee_loop fuel fds) Q (tee_end text) s.
Proof.
  intros Hok Hst Ht Hf HQ. revert don s Hst Ht Hf. induction fuel as [|fuel IH]; intros don s Hst Ht Hf; [lia|].
  cbn [tee_loop]. apply wp_bind, wp_syscall; intros k r Hk; pose proof (tl_read (kern s) BUFSIZ eq_refl) as Hl; rewrite Hk in Hl.
  - destruct Hl as (Hfi & Ho & Hu). apply wp_complain_end. eapply (streams_part _ _ ((STDOUT_FILENO, out) :: fds) (fun _ => don)).
    + by rewrite Hok.
    + intros _. rewrite Ht. by apply prefix_app_r.
    + by eapply streams_ext.
  - destruct Hl as (Hfi & Ho & Hu & Hz). assert (Hst' : streams k ((STDOUT_FILENO, out) :: fds) (fun _ => don)) by by eapply streams_ext.
    destruct r as [|c buf].
    { apply wp_ret, HQ; [by rewrite <-Hz, Hu|]. by rewrite Ht, Hz, app_nil_r. }
    eapply wp_bind, (wp_round (c :: buf) fds don); [done|done| |].
    { rewrite Ht, Hu, app_assoc. by apply prefix_app_r. }
    intros s' Hu' Hs'. simpl in Hu'. apply (IH (don ++ c :: buf)); [done| |].
    + by rewrite Hu', <-app_assoc, <-Hu.
    + rewrite Hu'. rewrite Hu, length_app in Hf. simpl in Hf. lia.
Qed.

Lemma streams_open k k' fds fd name :
  os_open_write k name append = (k', inr fd) -> name ∉ out :: fds.*2 ->
  streams k ((STDOUT_FILENO, out) :: fds) (fun _ => []) ->
  streams k' ((STDOUT_FILENO, out) :: fds ++ [(fd, name)]) (fun _ => []).
Proof.
  intros Hk Hn [Hs Hr]. pose proof (tl_open k name append) as Hl. rewrite Hk in Hl. destruct Hl as (_ & Hfree & Hf & Ho).
  split.
  - intros fd1 name1 Hin. change (?x :: fds ++ ?y) with ((x :: fds) ++ y) in Hin. apply elem_of_app in Hin as [Hin|Hin].
    + destruct (Hs _ _ Hin) as (o & Ho1 & Hf1 & Hlen). exists o. rewrite Ho, Hf, !lookup_insert_ne; [done| |by congruence].
      intros ->. apply Hn. change (out :: fds.*2) with (((STDOUT_FILENO, out) :: fds).*2). apply list_elem_of_fmap. by exists (fd1, name1).
    + apply list_elem_of_singleton in Hin. simplify_eq. exists (if append then None else Some 0%nat).
      assert (Hout : bool_decide (name = out) = false) by (apply bool_decide_eq_false_2; set_solver).
      unfold base. rewrite Ho, Hf, !lookup_insert_eq, app_nil_r, Hout. destruct append; simpl; [|done].
      unfold lookup_total, map_lookup_total. by rewrite Hr.
  - intros x Hx. simpl in Hx. rewrite fmap_app in Hx. rewrite Hf, lookup_insert_ne; [apply Hr; set_solver|set_solver].
Qed.

Lemma wp_tee_files todo fds (Q : list (Z * cstr) -> proc K -> Prop) s :
  names = fds.*2 ++ todo -> streams (kern s) ((STDOUT_FILENO, out) :: fds) (fun _ => []) ->
  (forall s' more, unread (kern s') = unread (kern s) -> more.*2 = todo ->
    streams (kern s') ((STDOUT_FILENO, out) :: fds ++ more) (fun _ => []) -> Q more s') ->
  wp (open_files append todo) Q (tee_end text) s.
Proof.
  revert fds s Q. induction todo as [|name todo IH]; intros fds s Q Hn Hst HQ; cbn [open_files].
  { apply wp_ret, HQ; [done|done|]. by rewrite app_nil_r. }
  apply wp_bind, wp_syscall; intros k r Hk; pose proof (tl_open (kern s) name append) as Hl; rewrite Hk in Hl.
  - destruct Hl as (_ & Hf & Ho). apply wp_complain_end. eapply (streams_part _ _ ((STDOUT_FILENO, out) :: fds) (fun _ => [])).
    + rewrite Hn. simpl. set_solver.
    + intros _. apply prefix_nil.
    + by eapply streams_ext.
  - destruct Hl as (Hu & _). assert (Hnew : name ∉ out :: fds.*2).
    { pose proof distinct as Hd. rewrite Hn, app_comm_cons, NoDup_app in Hd. destruct Hd as (_ & Hd & _).
      intros Hx. apply (Hd _ Hx). left. }
    eapply wp_bind, (IH (fds ++ [(r, name)])).
    + rewrite fmap_app, <-app_assoc. exact Hn.
    + by eapply streams_open.
    + intros s' more Hu' Hm Hs'. apply wp_ret, HQ; [by rewrite Hu'|by rewrite <-Hm|]. by rewrite <-app_assoc in Hs'.
Qed.

Lemma wp_tee_options pname opts flag (Q : bool -> proc K -> Prop) s :
  part_of text (kern s) ->
  (forall s', kern s' = kern s -> Q (flag || bool_decide (opts <> [])) s') ->
  wp (tee_options pname opts flag) Q (tee_end text) s.
Proof.
  intros Hp. revert flag. induction opts as [|[c arg] opts IH]; intros flag HQ; cbn [tee_options].
  - apply wp_ret. specialize (HQ s eq_refl). by rewrite orb_false_r in HQ.
  - destruct (bool_decide (c = "a"%char)).
    + apply IH. intros s' Hs'. specialize (HQ s' Hs'). by rewrite orb_true_r in HQ.
    + apply wp_tee_complain. intros s' Hs'. split; [done|]. by rewrite Hs'.
Qed.

Lemma wp_allocate n (Q : unit -> proc K -> Prop) s got fds :
  fds.*2 ⊆ out :: names -> (forall x, got x `prefix_of` text) -> streams (kern s) fds got ->
  (forall s', unread (kern s') = unread (kern s) -> streams (kern s') fds got -> Q tt s') ->
  wp (allocate_arrays n) Q (tee_end text) s.
Proof.
  intros Hsub Hg Hst HQ. apply wp_bind, wp_syscall_, wp_bind, wp_syscall_. simpl.
  destruct (tl_malloc (kern s) (4 * n)) as (Hu & Hf & Ho). set (k1 := (os_malloc (kern s) (4 * n)).1) in *.
  destruct (tl_malloc k1 (8 * n)) as (Hu' & Hf' & Ho').
  assert (Hst' : streams (os_malloc k1 (8 * n)).1 fds got) by (eapply streams_ext; [| |exact Hst]; congruence).
  apply wp_when; intros _.
  - apply wp_tee_complain. intros s' Hs'. split; [done|]. rewrite Hs'. by eapply streams_part.
  - apply HQ; [|done]. simpl. congruence.
Qed.

End TeeProps.

Section Tee.
Context `{ET : ErrnoText} {K : Type} {IO : ByteIO K} {OS : TeeOS K} {TL : TeeLaws K}.

Lemma wp_close_files fds (E : exit_kind -> proc K -> Prop) s :
  (forall e s', e <> EXIT_SUCCESS -> files (kern s') = files (kern s) -> E e s') ->
  wp (for_each fds close_file) (fun _ s' => files (kern s') = files (kern s) /\ unread (kern s') = unread (kern s)) E s.
Proof.
  intros HE. apply (wp_for_each_inv _ _ (fun s' => files (kern s') = files (kern s) /\ unread (kern s') = unread (kern s))); [done|].
  intros f s1 _ [Hf Hu]. apply wp_bind, wp_syscall; intros k r Hk;
    destruct (tl_close (kern s1) f.1) as [Hu' Hf']; rewrite Hk in Hu', Hf'; simpl in Hu', Hf'.
  - apply wp_when; intros H; [|done]. apply wp_bind, wp_get, wp_tee_complain. intros s2 Hs2. apply HE; [done|].
    rewrite Hs2. simpl. congruence.
  - apply wp_when; intros H; [done|]. simpl. split; congruence.
Qed.

(** C19: tee with standard output at the end of its file and operands that are
    different files always ends, without undefined behaviour. It ends with
    success only when all of its input has been read and standard output and
    each file have got exactly that input, after what they had in the case of
    standard output and with -a; otherwise they have got a beginning of it.
    Files that are not named are as they were. *)
Theorem tee_copies (pname out : cstr) opts names offset data (s : proc K) :
  NoDup (out :: names) -> opened (kern s) !! STDOUT_FILENO = Some (out, offset) ->
  files (kern s) !! out = Some data -> default (length data) offset = length data ->
  wp (tee_main (S (length (unread (kern s)))) pname opts names) (fun _ _ => False)
    (tee_end (kern s) (bool_decide (opts <> [])) out names (unread (kern s))) s.
Proof.
  intros Hnd Ho Hf Hoff. set (append := bool_decide (opts <> [])). set (text := unread (kern s)). set (k0 := kern s).
  assert (Hst : streams k0 append out k0 [(STDOUT_FILENO, out)] (fun _ => [])).
  { split; [|done]. intros fd name Hin. apply list_elem_of_singleton in Hin. simplify_eq. exists offset.
    unfold base. rewrite bool_decide_eq_true_2, orb_true_r by done. rewrite app_nil_r.
    unfold lookup_total, map_lookup_total. unfold k0. by rewrite Hf. }
  assert (Hp : part_of k0 append out names text k0) by (split; intros; [by left|done]).
  unfold tee_main. apply wp_bind, wp_tee_options; [done|]. intros s0 Hs0. rewrite orb_false_l.
  assert (Hst0 : streams k0 append out (kern s0) [(STDOUT_FILENO, out)] (fun _ => [])) by by rewrite Hs0.
  apply wp_bind.
  match goal with |- wp _ ?Q _ _ => assert (Hrest : forall s1, unread (kern s1) = text ->
    streams k0 append out (kern s1) [(STDOUT_FILENO, out)] (fun _ => []) -> Q tt s1) end.
  { clear s0 Hs0 Hst0. intros s1 Hu1 Hs1. apply wp_bind.
    apply (wp_tee_files k0 append out names Hnd text names []); [done|done|].
    intros s2 fds Hu2 Hfds Hs2. simpl in Hs2. apply wp_bind.
    assert (Hok : outputs_ok out names ((STDOUT_FILENO, out) :: fds)) by exact (f_equal (cons out) Hfds).
    apply (wp_tee_loop k0 append out names Hnd text _ fds []); [exact Hok|done| | |].
    { simpl. congruence. }
    { rewrite Hu2, Hu1. unfold text, k0. lia. }
    intros s3 Hu3 Hs3.
    assert (Hp3 : part_of k0 append out names text (kern s3)).
    { eapply (streams_part _ _ _ _ Hnd _ _ ((STDOUT_FILENO, out) :: fds) (fun _ => text)); [by rewrite Hok|by intros _|exact Hs3]. }
    assert (Hall : all_of k0 append out names text (kern s3)).
    { split; [done|]. intros name Hin. rewrite <-Hok in Hin.
      apply list_elem_of_fmap in Hin as ([fd x] & -> & Hin). by destruct (st_streams _ _ _ _ _ _ Hs3 _ _ Hin) as (? & _ & ? & _). }
    assert (Hsame : forall k, files k = files (kern s3) -> part_of k0 append out names text k).
    { intros k Hk. unfold part_of. rewrite Hk. exact Hp3. }
    apply wp_bind. eapply wp_mono; [apply wp_close_files| |intros e s' H; exact H].
    - intros e s' He Hs'. split; [done|by apply Hsame].
    - intros [] s4 [Hf4 Hu4]. apply wp_exit3. intros s5 Hs5. unfold tee_end, all_of. rewrite Hs5.
      split; [intros _|by apply Hsame]. rewrite Hf4, Hu4. exact Hall. }
  apply wp_when; intros _; [|apply Hrest; [by rewrite Hs0|done]].
  eapply (wp_allocate k0 append out names Hnd text _ _ s0 (fun _ => []) [(STDOUT_FILENO, out)]); [set_solver|intros; apply prefix_nil|done|].
  intros s1 Hu1 Hs1. apply Hrest; [by rewrite Hu1, Hs0|done].
Qed.
End Tee.

(** ** A run *)

(** A read gives at most five bytes. *)
Record demo_tee := DemoTee {
  dt_input : cstr;
  dt_files : gmap cstr cstr;
  dt_opened : gmap Z (cstr * option nat)
}.

#[export] Instance demo_tee_io : ByteIO demo_tee := {|
  os_read k fd n :=
    let m := Nat.min 5 (Z.to_nat n) in
    (DemoTee (drop m (dt_input k)) (dt_files k) (dt_opened k), inr (take m (dt_input k)));
  os_write k fd bytes :=
    match dt_opened k !! fd with
    | None => (k, inl 9)
    | Some (name, offset) =>
        let data := dt_files k !!! name in
        let off := default (length data) offset in
        (DemoTee (dt_input k) (<[name := take off data ++ bytes ++ drop (off + length bytes) data]> (dt_files k))
          (<[fd := (name, Nat.add (length bytes) <$> offset)]> (dt_opened k)), inr (strlen bytes))
    end
|}.

#[export] Instance demo_tee_os : TeeOS demo_tee := {|
  os_malloc k n := (k, true);
  os_open_write k name append :=
    let fd := fresh (dom (dt_opened k)) in
    (DemoTee (dt_input k) (<[name := if append then dt_files k !!! name else []]> (dt_files k))
       (<[fd := (name, if append then None else Some 0%nat)]> (dt_opened k)), inr fd);
  os_close k fd := (DemoTee (dt_input k) (dt_files k) (delete fd (dt_opened k)), inr tt)
|}.

#[export] Instance demo_tee_laws : TeeLaws demo_tee.
Proof.
  refine {| unread := dt_input; files := dt_files; opened := dt_opened |}.
  - done.
  - intros k name append. simpl. split_and!; try done. apply not_elem_of_dom, is_fresh.
  - intros k n Hn. cbn -[Nat.min]. split_and!; [done|done|by rewrite take_drop|].
    destruct (dt_input k); [done|]. destruct (Z.to_nat n) eqn:?; [lia|done].
  - intros k fd bytes name offset data Ho Hf. simpl. rewrite Ho. unfold lookup_total, map_lookup_total. rewrite Hf. simpl.
    unfold strlen. rewrite Nat2Z.id, firstn_all. split_and!; try done; lia.
  - done.
Defined.

#[export] Instance demo_tee_texts : ErrnoText := {| MAX_ENAME := 0; ename _ := lit "E"; strerror _ := lit "failed" |}.

Definition demo_start : proc demo_tee :=
  Proc (DemoTee (lit "two lines" ++ [NEWLINE]) {[lit "tty" := lit "$ "; lit "log" := lit "old "]}
    {[1 := (lit "tty", None)]}) 0 None [] [] [].

Lemma tee_copies_witness :
  wp (tee_main (S (length (unread (kern demo_start)))) (lit "tee") [Opt "a"%char []] [lit "log"; lit "new"]) (fun _ _ => False)
    (tee_end (kern demo_start) (bool_decide ([Opt "a"%char []] <> [])) (lit "tty") [lit "log"; lit "new"]
      (unread (kern demo_start))) demo_start.
Proof.
  apply (tee_copies (lit "tee") (lit "tty") [Opt "a"%char []] [lit "log"; lit "new"] None (lit "$ ") demo_start);
    [apply (bool_decide_unpack _); vm_compute; exact I|reflexivity|reflexivity|reflexivity].
Defined.

Example tee_appends :
  match tee_main 11 (lit "tee") [Opt "a"%char []] [lit "log"; lit "new"] demo_start with
  | Exit EXIT_SUCCESS s => dt_files (kern s) = {[lit "tty" := lit "$ two lines" ++ [NEWLINE];
      lit "log" := lit "old two lines" ++ [NEWLINE]; lit "new" := lit "two lines" ++ [NEWLINE]]}
  | _ => False
  end.
Proof. vm_compute. reflexivity. Qed.
