(* ===== verification/CpSparse.v ===== *)
(** chapter4/cp.c: a copy that leaves holes for blocks of nulls. The loop takes a
    unit of fuel for each byte of the source, and one more. *)
From Stdlib Require Import ZArith Lia Ascii String.
From stdpp Require Import base tactics list strings gmap.
From S2P Require Import Prelude CString Process FdIo.
#[local] Open Scope Z_scope.

Definition BUF_SIZE : Z := 4096.

(** S_IRWXU | S_IRWXG | S_IRWXO. *)
Definition permission_bits : Z := Z.lor 448 (Z.lor 56 7).

Inductive whence := SEEK_SET | SEEK_CUR.

(** [open] to read; [fstat] for [st_mode]; [open] to write with O_CREAT and
    O_TRUNC, with the permissions; [lseek] and [close]. *)
Class CpOS (K : Type) := {
  os_open_source : K -> cstr -> K * (Z + Z);
  os_fstat_mode : K -> Z -> K * (Z + Z);
  os_open_dest : K -> cstr -> Z -> K * (Z + Z);
  os_lseek : K -> Z -> Z -> whence -> K * (Z + Z);
  os_close : K -> Z -> K * (Z + unit)
}.

Section Code.
Context `{ErrnoText} {K : Type} {IO : ByteIO K} {OS : CpOS K}.
Abbreviation PM := (M (proc K)).

(** The inner loop: [allZeros]. *)
Fixpoint all_zeros (buf : cstr) : bool :=
  match buf with [] => true | c :: buf => if bool_decide (c <> NUL) then false else all_zeros buf end.

Definition copy_block (inputFd outputFd : Z) (buf : cstr) : PM unit :=
  let allZeros := all_zeros buf in
  let! currOffset := syscall (fun k => os_lseek k inputFd 0 SEEK_CUR) in
  match currOffset with
  | None => errExit (lit "lseek")
  | Some currOffset =>
      if allZeros then
        let! r := syscall (fun k => os_lseek k outputFd currOffset SEEK_SET) in
        when (bool_decide (r = None)) (errExit (lit "lseek"))
      else
        let! w := syscall (fun k => os_write k outputFd buf) in
        when (negb (bool_decide (w = Some (strlen buf)))) (fatal (lit "write() failed"))
  end.

Fixpoint cp_loop (fuel : nat) (inputFd outputFd : Z) : PM unit :=
  match fuel with
  | O => undef
  | S fuel =>
      let! numRead := syscall (fun k => os_read k inputFd BUF_SIZE) in
      match numRead with
      | None => errExit (lit "read")
      | Some [] => ret tt
      | Some buf => copy_block inputFd outputFd buf ;;; cp_loop fuel inputFd outputFd
      end
  end.

Definition close_file (fd : Z) (msg : cstr) : PM unit :=
  let! c := syscall (fun k => os_close k fd) in
  when (bool_decide (c = None)) (errExit msg).

Definition cp_main (fuel : nat) (argv : list cstr) : PM unit :=
  match argv with
  | [_; source; dest] =>
      let! inputFd := syscall (fun k => os_open_source k source) in
      match inputFd with
      | None => errExit (lit "open " ++ source)
      | Some inputFd =>
          let! st_mode := syscall (fun k => os_fstat_mode k inputFd) in
          match st_mode with
          | None => errExit (lit "fstat")
          | Some st_mode =>
              let! outputFd := syscall (fun k => os_open_dest k dest (Z.land st_mode permission_bits)) in
              match outputFd with
              | None => errExit (lit "open " ++ dest)
              | Some outputFd =>
                  cp_loop fuel inputFd outputFd ;;;
                  close_file inputFd (lit "close input") ;;;
                  close_file outputFd (lit "close output") ;;;
                  exit3 EXIT_SUCCESS
              end
          end
      end
  | prog :: _ => usageErr (prog ++ lit " source-file dest-file" ++ [NEWLINE])
  | [] => usageErr (lit " source-file dest-file" ++ [NEWLINE])
  end.

End Code.

(** Files by name with their mode, and the file and offset of each descriptor;
    nobody else changes them. Writing beyond the end fills the gap with nulls. *)
Class CpLaws (K : Type) {IO : ByteIO K} {OS : CpOS K} := {
  umask : Z;
  files : K -> gmap cstr (Z * cstr);
  opened : K -> gmap Z (cstr * nat);
  cl_source k name : match os_open_source k name with
    | (k', inr fd) => is_Some (files k !! name) /\ files k' = files k /\ opened k !! fd = None /\
        opened k' = <[fd := (name, 0%nat)]> (opened k)
    | (k', inl _) => files k' = files k /\ opened k' = opened k
    end;
  cl_fstat k fd name off mode data : opened k !! fd = Some (name, off) -> files k !! name = Some (mode, data) ->
    match os_fstat_mode k fd with
    | (k', inr m) => files k' = files k /\ opened k' = opened k /\ m = mode
    | (k', inl _) => files k' = files k /\ opened k' = opened k
    end;
  cl_dest k name perms : match os_open_dest k name perms with
    | (k', inr fd) => opened k !! fd = None /\ opened k' = <[fd := (name, 0%nat)]> (opened k) /\
        files k' = <[name := (match files k !! name with Some (m, _) => m | None => Z.ldiff perms umask end, [])]> (files k)
    | (k', inl _) => files k' = files k /\ opened k' = opened k
    end;
  cl_lseek k fd name off n w : opened k !! fd = Some (name, off) -> 0 <= n ->
    match os_lseek k fd n w with
    | (k', inr r) => let off' := match w with SEEK_SET => Z.to_nat n | SEEK_CUR => (off + Z.to_nat n)%nat end in
        files k' = files k /\ opened k' = <[fd := (name, off')]> (opened k) /\ r = Z.of_nat off'
    | (k', inl _) => files k' = files k /\ opened k' = opened k
    end;
  cl_read k fd n name off mode data : 0 < n -> opened k !! fd = Some (name, off) -> files k !! name = Some (mode, data) ->
    match os_read k fd n with
    | (k', inr bytes) => files k' = files k /\ opened k' = <[fd := (name, (off + length bytes)%nat)]> (opened k) /\
        bytes `prefix_of` drop off data /\ (bytes = [] -> drop off data = [])
    | (k', inl _) => files k' = files k /\ opened k' = opened k
    end;
  cl_write k fd bytes name off mode data : opened k !! fd = Some (name, off) -> files k !! name = Some (mode, data) ->
    match os_write k fd bytes with
    | (k', inr n) => 0 <= n <= strlen bytes /\
        opened k' = <[fd := (name, (off + Z.to_nat n)%nat)]> (opened k) /\
        files k' = (if n =? 0 then files k else
          <[name := (mode, take off data ++ replicate (off - length data) NUL ++ take (Z.to_nat n) bytes
                            ++ drop (off + Z.to_nat n) data)]> (files k))
    | (k', inl _) => files k' = files k /\ opened k' = opened k
    end;
  cl_close k fd : match os_close k fd with
    | (k', inr _) => files k' = files k /\ opened k' = delete fd (opened k)
    | (k', inl _) => files k' = files k
    end
}.

Section CpProps.
Context `{ET : ErrnoText} {K : Type} {IO : ByteIO K} {OS : CpOS K} {CL : CpLaws K}.
Implicit Types (s : proc K).

Lemma all_zeros_replicate buf : all_zeros buf = true -> buf = replicate (length buf) NUL.
Proof.
  induction buf as [|c buf IH]; [done|]. cbn [all_zeros]. case_bool_decide as Hc; [done|]. intros Hz. simpl.
  rewrite <-IH by done. f_equal. destruct (decide (c = NUL)); naive_solver.
Qed.

Context (k0 : K) (old new : cstr) (mode : Z) (data : cstr) (src dst : Z).

(** The mode that [new] gets. *)
Definition new_mode : Z :=
  match files k0 !! new with Some (m, _) => m | None => Z.ldiff (Z.land mode permission_bits) umask end.

(** The first [off] bytes of [data] have been dealt with: [out] is them without
    some of the nulls at their end. *)
Record cp_inv (off : nat) (out : cstr) (k : K) : Prop := {
  ci_opened : opened k = <[dst := (new, off)]> (<[src := (old, off)]> (opened k0));
  ci_files : files k = <[new := (new_mode, out)]> (files k0);
  ci_data : take off data = out ++ replicate (off - length out) NUL
}.

Definition cp_end (e : exit_kind) s : Prop :=
  (e = EXIT_SUCCESS -> opened (kern s) = opened k0 /\ exists out n,
     files (kern s) = <[new := (new_mode, out)]> (files k0) /\ data = out ++ replicate n NUL) /\
  (files (kern s) = files k0 \/
   exists out, out `prefix_of` data /\ files (kern s) = <[new := (new_mode, out)]> (files k0)).

Lemma cp_end_failure e s : e <> EXIT_SUCCESS ->
  (files (kern s) = files k0 \/
   exists out, out `prefix_of` data /\ files (kern s) = <[new := (new_mode, out)]> (files k0)) -> cp_end e s.
Proof. intros He Hf. split; [by intros|done]. Qed.

Hypothesis distinct : old <> new.
Hypothesis fds_distinct : src <> dst.
Hypothesis source : files k0 !! old = Some (mode, data).

Lemma out_prefix off out : take off data = out ++ replicate (off - length out) NUL -> out `prefix_of` data.
Proof.
  intros Hd. exists (replicate (off - length out) NUL ++ drop off data). rewrite app_assoc, <-Hd. symmetry. apply take_drop.
Qed.

Lemma cp_fails {A} (m : M (proc K) A) Q out s :
  out `prefix_of` data -> files (kern s) = <[new := (new_mode, out)]> (files k0) ->
  (forall E, (forall e s', e <> EXIT_SUCCESS -> kern s' = kern s -> E e s') -> wp m Q E s) -> wp m Q cp_end s.
Proof.
  intros Hp Hf Hm. apply Hm. intros e s' He Hs'. apply cp_end_failure; [done|right]. exists out. by rewrite Hs'.
Qed.

(** A block that has been read is skipped or written. *)
Lemma wp_copy_block off out buf (Q : unit -> proc K -> Prop) s :
  opened (kern s) = <[dst := (new, off)]> (<[src := (old, (off + length buf)%nat)]> (opened k0)) ->
  files (kern s) = <[new := (new_mode, out)]> (files k0) ->
  take off data = out ++ replicate (off - length out) NUL -> buf `prefix_of` drop off data -> buf <> [] ->
  (forall s' out', cp_inv (off + length buf) out' (kern s') -> Q tt s') ->
  wp (copy_block src dst buf) Q cp_end s.
Proof.
  intros Ho Hf Hd [rest Hb] Hne HQ. pose proof (out_prefix _ _ Hd) as Hp.
  assert (Hlen : (off + length buf <= length data)%nat).
  { apply (f_equal length) in Hb. rewrite length_app, length_drop in Hb. destruct buf; [done|simpl in *; lia]. }
  assert (Hout : (length out <= off)%nat).
  { apply (f_equal length) in Hd. rewrite length_app, length_replicate, length_take in Hd. lia. }
  assert (Hnext : take (off + length buf) data = take off data ++ buf).
  { by rewrite <-take_take_drop, Hb, take_app_length. }
  assert (Hsrc : opened (kern s) !! src = Some (old, (off + length buf)%nat)).
  { by rewrite Ho, lookup_insert_ne, lookup_insert_eq by done. }
  apply wp_bind, wp_syscall; intros k1 r1 Hk1; pose proof (cl_lseek (kern s) src old _ 0 SEEK_CUR Hsrc ltac:(done)) as Hl; rewrite Hk1 in Hl.
  { apply (cp_fails _ _ out); [done|simpl; by rewrite (proj1 Hl)|]. intros E HE. by apply wp_errExit_fails. }
  destruct Hl as (Hf1 & Ho1 & ->). rewrite Nat.add_0_r in Ho1 |- *.
  assert (Ho1' : opened k1 = <[dst := (new, off)]> (<[src := (old, (off + length buf)%nat)]> (opened k0))).
  { rewrite Ho1. rewrite insert_id by done. exact Ho. }
  assert (Hdst : opened k1 !! dst = Some (new, off)) by (by rewrite Ho1', lookup_insert_eq).
  destruct (all_zeros buf) eqn:Hz.
  - apply wp_bind, wp_syscall; intros k2 r2 Hk2;
      pose proof (cl_lseek k1 dst new off (Z.of_nat (off + length buf)) SEEK_SET Hdst ltac:(lia)) as Hl; simpl in Hk2; rewrite Hk2 in Hl.
    + apply wp_when; [intros _|done]. apply (cp_fails _ _ out); [done|simpl; by rewrite (proj1 Hl), Hf1|].
      intros E HE. by apply wp_errExit_fails.
    + destruct Hl as (Hf2 & Ho2 & _). apply wp_when; [done|intros _]. apply (HQ _ out). split; simpl.
      * by rewrite Ho2, Ho1', insert_insert_eq, Nat2Z.id.
      * by rewrite Hf2, Hf1.
      * rewrite Hnext, Hd, (all_zeros_replicate _ Hz) at 1. rewrite <-app_assoc, <-replicate_add. do 2 f_equal. lia.
  - assert (Hfn : files k1 !! new = Some (new_mode, out)) by (by rewrite Hf1, Hf, lookup_insert_eq).
    apply wp_bind, wp_syscall; intros k2 r2 Hk2;
      pose proof (cl_write k1 dst buf new off new_mode out Hdst Hfn) as Hl; simpl in Hk2; rewrite Hk2 in Hl.
    + rewrite bool_decide_eq_false_2 by done. apply wp_when; [intros _|done].
      apply (cp_fails _ _ out); [done|simpl; by rewrite (proj1 Hl), Hf1|]. intros E HE. by apply wp_fatal_fails.
    + destruct Hl as (Hn & Ho2 & Hf2). rewrite take_ge, drop_ge, app_nil_r in Hf2 by lia.
      assert (Hpart : forall m, out ++ replicate (off - length out) NUL ++ take m buf `prefix_of` data).
      { intros m. rewrite app_assoc, <-Hd. etrans; [apply prefix_app, prefix_take|]. rewrite <-Hnext. apply prefix_take. }
      apply wp_when; case_bool_decide as Hr; try done; intros _.
      * destruct (r2 =? 0).
        { apply (cp_fails _ _ out); [done|simpl; by rewrite Hf2, Hf1|]. intros E HE. by apply wp_fatal_fails. }
        eapply (cp_fails _ _ (out ++ replicate (off - length out) NUL ++ take (Z.to_nat r2) buf)); [done| |].
        { simpl. by rewrite Hf2, Hf1, Hf, insert_insert_eq. }
        intros E HE. by apply wp_fatal_fails.
      * injection Hr as ->. unfold strlen in *. rewrite Nat2Z.id, firstn_all in *.
        assert (Hnz : (Z.of_nat (length buf) =? 0) = false) by (apply Z.eqb_neq; destruct buf; [done|simpl; lia]).
        rewrite Hnz in Hf2. apply (HQ _ (take off data ++ buf)). split; simpl.
        -- by rewrite Ho2, Ho1', insert_insert_eq.
        -- by rewrite Hf2, Hf1, Hf, insert_insert_eq, Hd, <-app_assoc.
        -- rewrite Hnext, length_app, length_take_le by lia. rewrite Nat.sub_diag. by rewrite app_nil_r.
Qed.

Lemma wp_cp_loop fuel off out (Q : unit -> proc K -> Prop) s :
  cp_inv off out (kern s) -> (length (drop off data) < fuel)%nat ->
  (forall s' out' off', cp_inv off' out' (kern s') -> drop off' data = [] -> Q tt s') ->
  wp (cp_loop fuel src dst) Q cp_end s.
Proof.
  intros Hi Hf HQ. revert off out s Hi Hf. induction fuel as [|fuel IH]; intros off out s Hi Hf; [lia|].
  cbn [cp_loop]. destruct Hi as [Ho Hfi Hd]. pose proof (out_prefix _ _ Hd) as Hp.
  assert (Hsrc : opened (kern s) !! src = Some (old, off)) by (by rewrite Ho, lookup_insert_ne, lookup_insert_eq by done).
  assert (Hold : files (kern s) !! old = Some (mode, data)) by (by rewrite Hfi, lookup_insert_ne by done).
  apply wp_bind, wp_syscall; intros k r Hk; pose proof (cl_read (kern s) src BUF_SIZE old off mode data ltac:(done) Hsrc Hold) as Hl; rewrite Hk in Hl.
  - apply (cp_fails _ _ out); [done|simpl; by rewrite (proj1 Hl)|]. intros E HE. by apply wp_errExit_fails.
  - destruct Hl as (Hf1 & Ho1 & Hb & Hz). assert (Ho1' : opened k = <[dst := (new, off)]> (<[src := (old, (off + length r)%nat)]> (opened k0))).
    { rewrite Ho1, Ho, (insert_insert_ne _ src dst) by done. by rewrite insert_insert_eq. }
    destruct r as [|c buf].
    + apply wp_ret. simpl in Ho1'. rewrite Nat.add_0_r in Ho1'. eapply (HQ _ out off); [|by apply Hz]. split; simpl; [done|by rewrite Hf1|done].
    + apply wp_bind, (wp_copy_block off out); [done|simpl; by rewrite Hf1|done|done|done|]. intros s' out' Hi'.
      apply (IH (off + length (c :: buf))%nat out'); [exact Hi'|]. destruct Hb as [rest Hb]. apply (f_equal length) in Hb.
      rewrite length_app, !length_drop in *. simpl in *. lia.
Qed.

Lemma wp_close_file fd msg out (Q : unit -> proc K -> Prop) s :
  out `prefix_of` data -> files (kern s) = <[new := (new_mode, out)]> (files k0) ->
  (forall s', files (kern s') = files (kern s) -> opened (kern s') = delete fd (opened (kern s)) -> Q tt s') ->
  wp (close_file fd msg) Q cp_end s.
Proof.
  intros Hp Hf HQ. apply wp_bind, wp_syscall; intros k r Hk; pose proof (cl_close (kern s) fd) as Hl; rewrite Hk in Hl.
  - apply wp_when; [intros _|done]. apply (cp_fails _ _ out); [done|simpl; by rewrite Hl|]. intros E HE. by apply wp_errExit_fails.
  - apply wp_when; [done|intros _]. by apply HQ; destruct Hl.
Qed.
End CpProps.

Section Cp.
Context `{ET : ErrnoText} {K : Type} {IO : ByteIO K} {OS : CpOS K} {CL : CpLaws K}.

(** C16: cp of a file with the contents [data] onto another file always ends,
    without undefined behaviour. It ends with success only when the new file
    has the old contents without some of the nulls at their end, a new file with
    the permissions of the old one under the umask and an existing one with its
    own, no other file has changed and both descriptors are closed; otherwise
    the new file is untouched or has a beginning of the contents. Nulls at the
    end are lost when the last blocks are all nulls, for which the program seeks
    but never writes. *)
Theorem cp_copies (prog old new : cstr) (mode : Z) (data : cstr) (s : proc K) :
  old <> new -> files (kern s) !! old = Some (mode, data) ->
  wp (cp_main (S (length data)) [prog; old; new]) (fun _ _ => False) (cp_end (kern s) new mode data) s.
Proof.
  intros Hne Hd. cbn [cp_main].
  assert (Hfail : forall s1 msg, files (kern s1) = files (kern s) ->
    wp (errExit msg) (fun (_ : unit) _ => False) (cp_end (kern s) new mode data) s1).
  { intros s1 msg H1. apply wp_errExit_fails. intros e s' He Hs'. apply cp_end_failure; [done|left]. by rewrite Hs'. }
  apply wp_bind, wp_syscall; intros k1 src Hk1; pose proof (cl_source (kern s) old) as Hl; rewrite Hk1 in Hl; [by apply Hfail, Hl|].
  destruct Hl as (_ & Hf1 & Hfree & Ho1).
  assert (Hsrc : opened k1 !! src = Some (old, 0%nat)) by (by rewrite Ho1, lookup_insert_eq).
  apply wp_bind, wp_syscall; intros k2 m Hk2;
    pose proof (cl_fstat k1 src old 0 mode data Hsrc ltac:(by rewrite Hf1)) as Hl; simpl in Hk2; rewrite Hk2 in Hl.
  { apply Hfail. simpl. by rewrite (proj1 Hl). }
  destruct Hl as (Hf2 & Ho2 & ->).
  apply wp_bind, wp_syscall; intros k3 dst Hk3;
    pose proof (cl_dest k2 new (Z.land mode permission_bits)) as Hl; simpl in Hk3; rewrite Hk3 in Hl.
  { apply Hfail. simpl. by rewrite (proj1 Hl), Hf2. }
  destruct Hl as (Hfree3 & Ho3 & Hf3).
  assert (Hfd : src <> dst) by (intros ->; by rewrite Ho2, Hsrc in Hfree3).
  apply wp_bind, (wp_cp_loop (kern s) old new mode data src dst Hne Hfd Hd _ 0 []).
  - split; simpl; [by rewrite Ho3, Ho2, Ho1|by rewrite Hf3, Hf2, Hf1|done].
  - rewrite drop_0. lia.
  - intros s1 out off [Ho Hf Hdata] Hend. pose proof (out_prefix data off out Hdata) as Hp.
    apply (f_equal length) in Hend. rewrite length_drop in Hend. simpl in Hend. rewrite take_ge in Hdata by lia.
    apply wp_bind, (wp_close_file (kern s) new mode data _ _ out); [done|done|]. intros s2 Hf4 Ho4.
    apply wp_bind, (wp_close_file (kern s) new mode data _ _ out); [done|by rewrite Hf4|]. intros s3 Hf5 Ho5.
    apply wp_exit3. intros s4 Hs4. split.
    + intros _. rewrite Hs4. split; [|exists out, (off - length out)%nat; by rewrite Hf5, Hf4].
      rewrite Ho5, Ho4, Ho, delete_insert_ne, delete_insert_eq, delete_insert_eq by done.
      rewrite (delete_id (opened (kern s)) src) by done. apply delete_id.
      by rewrite Ho2, Ho1, lookup_insert_ne in Hfree3.
    + right. exists out. by rewrite Hs4, Hf5, Hf4.
Qed.

(** A file that does not end in a null is copied whole. *)
Lemma cp_end_whole k0 new mode data c s : cp_end k0 new mode (data ++ [c]) EXIT_SUCCESS s -> c <> NUL ->
  files (kern s) !! new = Some (new_mode k0 new mode, data ++ [c]).
Proof.
  intros [(_ & out & n & Hf & Hd) _] Hc; [done|]. rewrite Hf, lookup_insert_eq. do 2 f_equal.
  destruct n as [|n]; [by rewrite Hd, app_nil_r|]. rewrite replicate_S_end, app_assoc in Hd.
  apply app_inj_tail in Hd as [_ ->]. done.
Qed.
End Cp.

(** ** Runs *)

(** A read gives at most four bytes. *)
Record demo_disk := DemoDisk { k_files : gmap cstr (Z * cstr); k_open : gmap Z (cstr * nat) }.

Definition demo_open (k : demo_disk) (name : cstr) : demo_disk * (Z + Z) :=
  let fd := fresh (dom (k_open k)) in (DemoDisk (k_files k) (<[fd := (name, 0%nat)]> (k_open k)), inr fd).

#[export] Instance demo_disk_io : ByteIO demo_disk := {|
  os_read k fd n :=
    match k_open k !! fd with
    | Some (name, off) =>
        match k_files k !! name with
        | Some (mode, data) =>
            let bytes := take (Nat.min 4 (Z.to_nat n)) (drop off data) in
            (DemoDisk (k_files k) (<[fd := (name, (off + length bytes)%nat)]> (k_open k)), inr bytes)
        | None => (k, inl 9)
        end
    | None => (k, inl 9)
    end;
  os_write k fd bytes :=
    match k_open k !! fd with
    | Some (name, off) =>
        match k_files k !! name with
        | Some (mode, data) =>
            (DemoDisk (if strlen bytes =? 0 then k_files k else <[name := (mode, take off data ++ replicate (off - length data) NUL ++ bytes ++ drop (off + length bytes) data)]> (k_files k))
               (<[fd := (name, (off + length bytes)%nat)]> (k_open k)), inr (strlen bytes))
        | None => (k, inl 9)
        end
    | None => (k, inl 9)
    end
|}.

#[export] Instance demo_disk_os : CpOS demo_disk := {|
  os_open_source k name := match k_files k !! name with Some _ => demo_open k name | None => (k, inl 2) end;
  os_fstat_mode k fd :=
    match k_open k !! fd with
    | Some (name, _) => match k_files k !! name with Some (mode, _) => (k, inr mode) | None => (k, inl 9) end
    | None => (k, inl 9)
    end;
  os_open_dest k name perms :=
    demo_open (DemoDisk (<[name := (match k_files k !! name with Some (m, _) => m | None => Z.ldiff perms 18 end, [])]> (k_files k)) (k_open k)) name;
  os_lseek k fd n w :=
    match k_open k !! fd with
    | Some (name, off) =>
        let off' := match w with SEEK_SET => Z.to_nat n | SEEK_CUR => (off + Z.to_nat n)%nat end in
        (DemoDisk (k_files k) (<[fd := (name, off')]> (k_open k)), inr (Z.of_nat off'))
    | None => (k, inl 9)
    end;
  os_close k fd := (DemoDisk (k_files k) (delete fd (k_open k)), inr tt)
|}.

#[export] Instance demo_disk_laws : CpLaws demo_disk.
Proof.
  refine {| umask := 18; files := k_files; opened := k_open |}.
  - intros k name. simpl. destruct (k_files k !! name) eqn:Hn; simpl; [|done]. split_and!; try done. apply not_elem_of_dom, is_fresh.
  - intros k fd name off mode data Ho Hf. simpl. by rewrite Ho, Hf.
  - intros k name perms. simpl. split_and!; try done. apply not_elem_of_dom, is_fresh.
  - intros k fd name off n w Ho Hn. simpl. by rewrite Ho.
  - intros k fd n name off mode data Hn Ho Hf. cbn -[Nat.min]. rewrite Ho, Hf. split_and!; [done|done|apply prefix_take|].
    destruct (drop off data); [done|]. destruct (Z.to_nat n) eqn:?; [lia|done].
  - intros k fd bytes name off mode data Ho Hf. cbn -[strlen]. rewrite Ho, Hf. unfold strlen. rewrite Nat2Z.id, firstn_all.
    split_and!; [lia|lia|done|done].
  - done.
Defined.

#[export] Instance demo_disk_texts : ErrnoText := {| MAX_ENAME := 0; ename _ := []; strerror _ := [] |}.

Definition demo_disk_start (data : cstr) : proc demo_disk :=
  Proc (DemoDisk {[lit "a" := (511, data)]} ∅) 0 None [] [] [].

Definition holey : cstr := lit "abcd" ++ replicate 8 NUL ++ lit "efgh".

Lemma cp_copies_witness :
  lit "a" <> lit "b" /\
  wp (cp_main (S (length holey)) [lit "cp"; lit "a"; lit "b"]) (fun _ _ => False)
    (cp_end (kern (demo_disk_start holey)) (lit "b") 511 holey) (demo_disk_start holey).
Proof. split; [done|]. by apply (cp_copies (lit "cp") (lit "a") (lit "b") 511 holey (demo_disk_start holey)). Defined.

Example hole_kept :
  match cp_main 17 [lit "cp"; lit "a"; lit "b"] (demo_disk_start holey) with
  | Exit EXIT_SUCCESS s => k_files (kern s) !! lit "b" = Some (493, holey)
  | _ => False
  end.
Proof. vm_compute. reflexivity. Qed.

(** A file that ends in a block of nulls: the copy is shorter. *)
Example hole_at_end_lost :
  match cp_main 17 [lit "cp"; lit "a"; lit "b"] (demo_disk_start (lit "abcd" ++ replicate 8 NUL)) with
  | Exit EXIT_SUCCESS s => k_files (kern s) !! lit "b" = Some (493, lit "abcd")
  | _ => False
  end.
Proof. vm_compute. reflexivity. Qed.
