(* ===== verification/EchoServers.v ===== *)
(** Clients and servers that copy between connections and files
    (src/tlpi-dist/sockets): us_xfr_sv.c, us_xfr_cl.c and their second versions,
    is_echo_sv.c, is_echo_v2_sv.c, is_echo_inetd_sv.c and is_echo_cl.c. They use
    the loop of CopyLoops, the socket libraries (Sockets) and becomeDaemon
    (Descriptors); a fork may give either of its results. *)
From Stdlib Require Import ZArith Lia Ascii String.
From stdpp Require Import base tactics list strings gmap sets.
From S2P Require Import Prelude CString Process FdIo Sockets Descriptors CopyLoops.
#[local] Open Scope Z_scope.

Definition ENOENT : Z := 2.
Definition BACKLOG : Z := 5.
Definition SERVICE : cstr := lit "echo".
Definition XFR_BUF_SIZE : Z := 100.
Definition ECHO_BUF_SIZE : Z := 4096.

(** accept without an address, remove, shutdown of the writing half, syslog at
    LOG_ERR, and sigaction for SIGCHLD. *)
Class EchoOS (K : Type) := {
  os_accept : K -> Z -> K * (Z + Z);
  os_remove : K -> cstr -> K * (Z + unit);
  os_shutdown_write : K -> Z -> K * (Z + unit);
  os_syslog : K -> cstr -> K * unit;
  os_catch_sigchld : K -> K * (Z + unit)
}.

Section Code.
Context `{ET : ErrnoText} {K : Type} {IO : ByteIO K} {SO : SocketOS K} {DO : DescOS K} {EO : EchoOS K}.
Abbreviation PM := (M (proc K)).

(** A call that ends the program if it fails. *)
Definition must {A} (call : K -> K * (Z + A)) (msg : cstr) : PM A :=
  let! r := syscall call in
  match r with Some a => ret a | None => errExit msg end.

(** ** us_xfr *)

Definition XFR_PATH : cstr := lit "/tmp/us_xfr".
Definition XFR_V2_PATH : cstr := lit "us_xfr_v2".

(** [memset] and [strncpy] into a [sockaddr_un]. *)
Definition un_address (path : cstr) : list ascii :=
  let name := take (Z.to_nat (sizeof_sun_path - 1)) path in
  un_bytes (SockaddrUn AF_UNIX (name ++ replicate (Z.to_nat sizeof_sun_path - length name) NUL)).

(** The loop over clients, for at most [turns] turns. *)
Fixpoint xfr_serve (turns fuel : nat) (sfd : Z) : PM unit :=
  match turns with
  | O => ret tt
  | S turns =>
      let! cfd := must (fun k => os_accept k sfd) (lit "accept") in
      let! eof := copy_loop fuel cfd STDOUT_FILENO XFR_BUF_SIZE (fatal (lit "partial/failed write")) in
      when (negb eof) (errExit (lit "read")) ;;;
      let! c := syscall (fun k => Sockets.os_close k cfd) in
      when (bool_decide (c = None)) (errMsg (lit "close")) ;;;
      xfr_serve turns fuel sfd
  end.

Definition us_xfr_sv_main (turns fuel : nat) : PM unit :=
  let! sfd := must (fun k => os_socket k AF_UNIX SOCK_STREAM 0) (lit "socket") in
  if sizeof_sun_path - 1 <? strlen XFR_PATH then fatal (lit "Server socket path too long: " ++ XFR_PATH)
  else
    let! r := syscall (fun k => os_remove k XFR_PATH) in
    let! s := get in
    when (bool_decide (r = None) && negb (errno s =? ENOENT)) (errExit (lit "remove-" ++ XFR_PATH)) ;;;
    must (fun k => os_bind k sfd (un_address XFR_PATH)) (lit "bind") ;;;
    must (fun k => os_listen k sfd BACKLOG) (lit "listen") ;;;
    xfr_serve turns fuel sfd.

Definition us_xfr_v2_sv_main (turns fuel : nat) : PM unit :=
  let! sfd := unixBind XFR_V2_PATH SOCK_STREAM in
  when (sfd =? -1) (errExit (lit "unixBind")) ;;;
  must (fun k => os_listen k sfd BACKLOG) (lit "listen") ;;;
  xfr_serve turns fuel sfd.

(** Standard input to the socket. *)
Definition xfr_send (fuel : nat) (sfd : Z) : PM unit :=
  let! eof := copy_loop fuel STDIN_FILENO sfd XFR_BUF_SIZE (fatal (lit "partial/failed write")) in
  when (negb eof) (errExit (lit "read")) ;;;
  exit3 EXIT_SUCCESS.

Definition us_xfr_cl_main (fuel : nat) : PM unit :=
  let! sfd := must (fun k => os_socket k AF_UNIX SOCK_STREAM 0) (lit "socket") in
  must (fun k => os_connect k sfd (un_address XFR_PATH)) (lit "connect") ;;;
  xfr_send fuel sfd.

Definition us_xfr_v2_cl_main (fuel : nat) : PM unit :=
  let! sfd := unixConnect XFR_V2_PATH SOCK_STREAM in
  when (sfd =? -1) (errExit (lit "unixConnect")) ;;;
  xfr_send fuel sfd.

(** ** is_echo: the servers *)

(** [syslog(LOG_ERR, text, strerror(errno))] *)
Definition log_errno (before after : cstr) : PM unit :=
  let! s := get in syscall_ (fun k => os_syslog k (before ++ strerror (errno s) ++ after)).

Definition log_exit {A} (before after : cstr) : PM A := log_errno before after ;;; exit3 EXIT_FAILURE.

(** Input of [src] back to [dst]. *)
Definition echo_input (fuel : nat) (src dst : Z) : PM unit :=
  let! eof := copy_loop fuel src dst ECHO_BUF_SIZE (log_exit (lit "write() failed: ") []) in
  when (negb eof) (log_exit (lit "Error from read(): ") []).

Definition handleRequest (fuel : nat) (cfd : Z) : PM unit := echo_input fuel cfd cfd.

(** The loop over clients; the second version goes on when accept fails, and
    its children end with exit. *)
Fixpoint echo_serve (v2 : bool) (turns fuel : nat) (lfd : Z) : PM unit :=
  match turns with
  | O => ret tt
  | S turns =>
      let! cfd := syscall (fun k => os_accept k lfd) in
      match cfd with
      | None =>
          if v2 then log_errno (lit "Failure in accept(): ") [] ;;; echo_serve v2 turns fuel lfd
          else log_exit (lit "Failure in accept(): ") []
      | Some cfd =>
          let! pid := syscall os_fork in
          match pid with
          | None =>
              log_errno (lit "Can't create child (") (lit ")") ;;;
              syscall (fun k => Sockets.os_close k cfd) ;;;
              echo_serve v2 turns fuel lfd
          | Some pid =>
              if pid =? 0 then
                syscall (fun k => Sockets.os_close k lfd) ;;;
                handleRequest fuel cfd ;;;
                if v2 then exit3 EXIT_SUCCESS else exit EXIT_SUCCESS
              else
                syscall (fun k => Sockets.os_close k cfd) ;;;
                echo_serve v2 turns fuel lfd
          end
      end
  end.

Section Daemon.
Context {DA : DaemonOS K}.

Definition echo_daemon (v2 : bool) (turns fuel : nat) : PM unit :=
  let! d := becomeDaemon 0 in
  when (d =? -1) (errExit (lit "becomeDaemon")) ;;;
  let! r := syscall os_catch_sigchld in
  when (bool_decide (r = None)) (log_exit (lit "Error from sigaction(): ") []) ;;;
  let! (lfd, _) := inetListen SERVICE 10 false in
  when (lfd =? -1) (log_exit (lit "Could not create server socket (") (lit ")")) ;;;
  echo_serve v2 turns fuel lfd.

Definition is_echo_sv_main (turns fuel : nat) : PM unit := echo_daemon false turns fuel.

Definition is_echo_v2_sv_main (turns fuel : nat) (argv : list cstr) : PM unit :=
  if (1 <? length argv)%nat && bool_decide (argv !! 1%nat = Some (lit "-i")) then
    handleRequest fuel STDIN_FILENO ;;; exit3 EXIT_SUCCESS
  else echo_daemon true turns fuel.

End Daemon.

Definition is_echo_inetd_sv_main (fuel : nat) : PM unit :=
  echo_input fuel STDIN_FILENO STDOUT_FILENO ;;; exit3 EXIT_SUCCESS.

(** ** is_echo_cl.c *)

(** The child: "%.*s" shows what is before the first null. *)
Fixpoint show_response (fuel : nat) (sfd : Z) : PM unit :=
  match fuel with
  | O => undef
  | S fuel =>
      let! r := syscall (fun k => os_read k sfd XFR_BUF_SIZE) in
      match r with
      | None | Some [] => ret tt
      | Some buf => putout (string_in buf) ;;; show_response fuel sfd
      end
  end.

(** The two processes of the client, once it is connected. *)
Definition echo_converse (fuel : nat) (sfd : Z) : PM unit :=
  let! pid := must os_fork (lit "fork") in
  if pid =? 0 then show_response fuel sfd ;;; exit3 EXIT_SUCCESS
  else
    copy_loop fuel STDIN_FILENO sfd XFR_BUF_SIZE (fatal (lit "write() failed")) ;;;
    must (fun k => os_shutdown_write k sfd) (lit "shutdown") ;;;
    exit3 EXIT_SUCCESS.

Definition is_echo_cl_main (fuel : nat) (argv : list cstr) : PM unit :=
  match argv with
  | [prog; host] =>
      if bool_decide (host = lit "--help") then usageErr (prog ++ lit " host" ++ [NEWLINE])
      else
        let! sfd := inetConnect (Some host) SERVICE SOCK_STREAM in
        when (sfd =? -1) (errExit (lit "inetConnect")) ;;;
        echo_converse fuel sfd
  | prog :: _ => usageErr (prog ++ lit " host" ++ [NEWLINE])
  | [] => usageErr (lit " host" ++ [NEWLINE])
  end.

End Code.

(** ** Streams *)

(** What is still to be read from each descriptor and what has been written to
    it; what the clients still to be accepted will send; and the descriptors
    that are open. *)
Class StreamLaws (K : Type) {IO : ByteIO K} {SO : SocketOS K} {DO : DescOS K} {EO : EchoOS K} := {
  pend : K -> Z -> list ascii;
  out : K -> Z -> list ascii;
  incoming : K -> list (list ascii);
  open_fds : K -> gset Z;
  st_read k fd n : 0 < n ->
    match os_read k fd n with
    | (k', inr bytes) => pend k fd = bytes ++ pend k' fd /\ (bytes = [] -> pend k fd = []) /\
        (forall g, g <> fd -> pend k' g = pend k g) /\ out k' = out k /\ incoming k' = incoming k /\ open_fds k' = open_fds k
    | (k', inl _) => pend k' = pend k /\ out k' = out k /\ incoming k' = incoming k /\ open_fds k' = open_fds k
    end;
  st_write k fd bytes :
    match os_write k fd bytes with
    | (k', inr n) => 0 <= n <= strlen bytes /\ out k' fd = out k fd ++ take (Z.to_nat n) bytes /\
        (forall g, g <> fd -> out k' g = out k g) /\ pend k' = pend k /\ incoming k' = incoming k /\ open_fds k' = open_fds k
    | (k', inl _) => pend k' = pend k /\ out k' = out k /\ incoming k' = incoming k /\ open_fds k' = open_fds k
    end;
  st_accept k lfd :
    match os_accept k lfd with
    | (k', inr cfd) => STDERR_FILENO < cfd /\ (cfd ∉ open_fds k) /\ open_fds k' = {[cfd]} ∪ open_fds k /\
        incoming k = pend k' cfd :: incoming k' /\ out k' cfd = [] /\
        (forall g, g <> cfd -> pend k' g = pend k g /\ out k' g = out k g)
    | (k', inl _) => pend k' = pend k /\ out k' = out k /\ incoming k' = incoming k /\ open_fds k' = open_fds k
    end;
  st_close k fd : let k' := (Sockets.os_close k fd).1 in
    open_fds k' = open_fds k ∖ {[fd]} /\ incoming k' = incoming k /\
    (forall g, g <> fd -> pend k' g = pend k g /\ out k' g = out k g);
  st_quiet k k' : (exists msg, k' = (os_syslog k msg).1) \/ k' = (os_fork k).1 \/ (exists fd, k' = (os_shutdown_write k fd).1) ->
    pend k' = pend k /\ out k' = out k /\ incoming k' = incoming k /\ open_fds k' = open_fds k
}.

Section Streams.
Context `{ET : ErrnoText} {K : Type} {IO : ByteIO K} {SO : SocketOS K} {DO : DescOS K} {EO : EchoOS K} {SL : StreamLaws K}.
Implicit Types (s : proc K).

(** Nothing has happened to the descriptors but reading from [src] and writing
    to [dst]. *)
Record only (src dst : Z) (k k' : K) : Prop := {
  o_pend g : g <> src -> pend k' g = pend k g;
  o_out g : g <> dst -> out k' g = out k g;
  o_incoming : incoming k' = incoming k;
  o_open : open_fds k' = open_fds k
}.

Definition stream_copy (k0 : K) (src dst size : Z) : 0 < size -> CopyStream K src dst size.
Proof.
  intros Hsize. refine {| left_in k := pend k src; sent k := out k dst; ready := only src dst k0 |}.
  - intros k [Hp Ho Hi Hf]. pose proof (st_read k src size Hsize) as Hl. destruct (os_read _ _ _) as [k' [e|bytes]].
    + destruct Hl as (H1 & H2 & H3 & H4). rewrite H1, H2. split_and!; [|done|done].
      split; try congruence; intros g Hg; rewrite ?H1, ?H2; auto.
    + destruct Hl as (H0 & Hz & H1 & H2 & H3 & H4). rewrite H2. split_and!; [|done|done|done].
      split; try congruence; intros g Hg; rewrite ?H1, ?H2 by done; auto.
  - intros k bytes [Hp Ho Hi Hf]. pose proof (st_write k dst bytes) as Hl. destruct (os_write _ _ _) as [k' [e|n]].
    + destruct Hl as (H1 & H2 & H3 & H4). rewrite H1, H2. split_and!; [|done|done].
      split; try congruence; intros g Hg; rewrite ?H1, ?H2; auto.
    + destruct Hl as (Hn & H0 & H1 & H2 & H3 & H4). rewrite H2. split_and!; [lia|lia| |done|done].
      split; try congruence; intros g Hg; rewrite ?H1, ?H2 by done; auto.
Defined.

(** A beginning of what was to be read, or all of it, is copied. *)
Definition moved_some (src dst : Z) s s' : Prop :=
  only src dst (kern s) (kern s') /\ exists part, part `prefix_of` pend (kern s) src /\ out (kern s') dst = out (kern s) dst ++ part.
Definition moved_all (src dst : Z) s s' : Prop :=
  only src dst (kern s) (kern s') /\ pend (kern s') src = [] /\ out (kern s') dst = out (kern s) dst ++ pend (kern s) src.

Lemma moved_all_some src dst s s' : moved_all src dst s s' -> moved_some src dst s s'.
Proof. intros (Ho & _ & Hs). split; [done|]. by exists (pend (kern s) src). Qed.

Lemma wp_stream_copy fuel src dst size bad (Q : bool -> proc K -> Prop) E s :
  0 < size -> (length (pend (kern s) src) < fuel)%nat ->
  (forall s', moved_some src dst s s' -> wp bad Q E s') ->
  (forall s', moved_some src dst s s' -> Q false s') ->
  (forall s', moved_all src dst s s' -> Q true s') ->
  wp (copy_loop fuel src dst size bad) Q E s.
Proof.
  intros Hsize Hf HB HE HQ. apply (wp_copy_turns src dst size (CS := stream_copy (kern s) src dst size Hsize)).
  - by split.
  - exact Hf.
  - intros s' (Hr & H). apply HB. by split.
  - intros s' (Hr & H). apply HE. by split.
  - intros s' (Hr & H1 & H2). apply HQ. by split_and!.
Qed.

Definition clients_short (fuel : nat) s : Prop := Forall (fun bytes => (length bytes < fuel)%nat) (incoming (kern s)).

(** ** us_xfr *)

(** A server that has ended with an error has written a beginning of what its
    clients sent. *)
Definition collected_part (turns : nat) s (e : exit_kind) s' : Prop :=
  e <> EXIT_SUCCESS /\ exists part, part `prefix_of` concat (take turns (incoming (kern s))) /\
    out (kern s') STDOUT_FILENO = out (kern s) STDOUT_FILENO ++ part.

(** The xfr servers write what their clients send, one client after
    the other, whole, and close every connection. *)
Theorem xfr_collects (turns fuel : nat) (sfd : Z) s :
  clients_short fuel s ->
  wp (xfr_serve turns fuel sfd) (fun _ s' =>
      out (kern s') STDOUT_FILENO = out (kern s) STDOUT_FILENO ++ concat (take turns (incoming (kern s))) /\
      incoming (kern s') = drop turns (incoming (kern s)) /\ open_fds (kern s') = open_fds (kern s))
    (collected_part turns s) s.
Proof.
  unfold clients_short. revert s. induction turns as [|turns IH]; intros s Hc.
  { apply wp_ret. by rewrite app_nil_r, drop_0. }
  cbn [xfr_serve]. apply wp_bind, wp_bind, wp_syscall; intros k cfd Hk; pose proof (st_accept (kern s) sfd) as Hl; rewrite Hk in Hl.
  { destruct Hl as (_ & Ho & _). apply wp_errExit_fails. intros e s' He Hs'. split; [done|]. exists []. rewrite app_nil_r.
    split; [apply prefix_nil|]. rewrite Hs'. simpl. by rewrite Ho. }
  destruct Hl as (Hcfd & Hfree & Hopen & Hin & Hnew & Hrest). unfold STDERR_FILENO in Hcfd.
  assert (Hout : out k STDOUT_FILENO = out (kern s) STDOUT_FILENO) by (apply Hrest; unfold STDOUT_FILENO; lia).
  rewrite Hin in *. inversion Hc as [|? ? Hlen Hc']; subst. cbn [take concat].
  assert (Hpart : forall s' s2, moved_some cfd STDOUT_FILENO (set_kern k s) s' -> kern s2 = kern s' ->
    forall e, e <> EXIT_SUCCESS -> collected_part (S turns) s e s2).
  { intros s' s2 (_ & part & Hp & Hs) H2 e He. split; [done|]. exists part. rewrite Hin. simpl in *. rewrite H2, Hs, Hout.
    split; [|done]. by apply prefix_app_r. }
  apply wp_ret, wp_bind, wp_stream_copy; [done|exact Hlen|..].
  - intros s' Hm. apply wp_fatal_fails. intros e s2 He H2. by eapply Hpart.
  - intros s' Hm. apply wp_bind, wp_errExit_fails. intros e s2 He H2. by eapply Hpart.
  - intros s1 (Ho & _ & Hs). cbn [kern set_kern] in Ho, Hs. apply wp_bind, wp_ret, wp_bind.
    assert (Hgo : forall c s2, kern s2 = (Sockets.os_close (kern s1) cfd).1 ->
      wp (when (bool_decide (c = @None unit)) (errMsg (lit "close")) ;;; xfr_serve turns fuel sfd)
        (fun _ s' => out (kern s') STDOUT_FILENO = out (kern s) STDOUT_FILENO ++ pend k cfd ++ concat (take turns (incoming k)) /\
           incoming (kern s') = drop (S turns) (pend k cfd :: incoming k) /\ open_fds (kern s') = open_fds (kern s))
        (collected_part (S turns) s) s2).
    { intros c s2 H2. destruct (st_close (kern s1) cfd) as (Hop & Hinc & Hother). rewrite <-H2 in *.
      assert (Hout2 : out (kern s2) STDOUT_FILENO = out (kern s) STDOUT_FILENO ++ pend k cfd).
      { rewrite <-Hout. rewrite <-Hs. apply Hother. unfold STDOUT_FILENO; lia. }
      assert (Hinc2 : incoming (kern s2) = incoming k) by (rewrite Hinc; apply Ho).
      apply wp_seq_inv with (I := fun s3 => kern s3 = kern s2); [by apply wp_when_inv; [done|intros _; apply wp_errMsg]|].
      intros _ s3 H3. eapply wp_mono; [apply IH; rewrite H3, Hinc2; exact Hc'| |].
      - intros _ s4 (H4 & H5 & H6). rewrite H3, Hinc2, Hout2, <-?app_assoc in *. split_and!; [done|done|].
        rewrite H6, Hop, (o_open _ _ _ _ Ho), Hopen. set_solver.
      - intros e s4 (He & part & Hp & H4). rewrite H3, Hinc2, Hout2, <-?app_assoc in *. split; [done|].
        exists (pend k cfd ++ part). rewrite Hin. cbn [take concat]. split; [by apply prefix_app|done]. }
    apply wp_syscall; intros k2 c Hk2; apply Hgo; simpl; by rewrite Hk2.
Qed.

(** A client that ends with success has sent its whole input, one that
    does not a beginning of it. *)
Theorem xfr_sends (fuel : nat) (sfd : Z) s :
  (length (pend (kern s) STDIN_FILENO) < fuel)%nat ->
  wp (xfr_send fuel sfd) (fun _ _ => False) (fun e s' =>
      (e = EXIT_SUCCESS -> pend (kern s') STDIN_FILENO = [] /\
         out (kern s') sfd = out (kern s) sfd ++ pend (kern s) STDIN_FILENO) /\
      exists part, part `prefix_of` pend (kern s) STDIN_FILENO /\ out (kern s') sfd = out (kern s) sfd ++ part) s.
Proof.
  intros Hf. apply wp_bind, wp_stream_copy; [done|exact Hf|..].
  - intros s' (_ & Hs). apply wp_fatal_fails. intros e s2 He H2. split; [by intros ->|]. by rewrite H2.
  - intros s' (_ & Hs). apply wp_bind, wp_errExit_fails. intros e s2 He H2. split; [by intros ->|]. by rewrite H2.
  - intros s' (_ & Hp & Hs). apply wp_bind, wp_ret, wp_exit3. intros s2 H2. rewrite H2, Hp, Hs. split; [done|]. by eexists.
Qed.

(** ** is_echo *)

Definition same (k k' : K) : Prop :=
  pend k' = pend k /\ out k' = out k /\ incoming k' = incoming k /\ open_fds k' = open_fds k.

Lemma wp_log_errno before after (Q : unit -> proc K -> Prop) E s :
  (forall s', same (kern s) (kern s') -> Q tt s') -> wp (log_errno before after) Q E s.
Proof. intros HQ. apply wp_bind, wp_get, wp_syscall_. destruct (os_syslog _ _) as [k []] eqn:Hk. apply HQ, st_quiet. left. eexists. cbn. by rewrite Hk. Qed.

Lemma wp_log_exit {A} before after (Q : A -> proc K -> Prop) (E : exit_kind -> proc K -> Prop) s :
  (forall s', same (kern s) (kern s') -> E EXIT_FAILURE s') -> wp (log_exit before after) Q E s.
Proof. intros HE. apply wp_bind, wp_log_errno. intros s1 H1. apply wp_exit3. intros s2 H2. apply HE. by rewrite H2. Qed.

(** The handler of a request returns only when everything has been sent back. *)
Lemma wp_echo_input fuel src dst (Q : unit -> proc K -> Prop) (E : exit_kind -> proc K -> Prop) s :
  (length (pend (kern s) src) < fuel)%nat ->
  (forall s', E EXIT_FAILURE s') -> (forall s', moved_all src dst s s' -> Q tt s') ->
  wp (echo_input fuel src dst) Q E s.
Proof.
  intros Hf HE HQ. apply wp_bind, wp_stream_copy; [done|exact Hf|..].
  - intros s' _. by apply wp_log_exit.
  - intros s' _. by apply wp_log_exit.
  - intros s' Hm. by apply wp_ret, HQ.
Qed.

(** The end of a child of an echo server: it has had one client, whose bytes it
    has sent back; of the descriptors of the server it lacks the listening
    socket. *)
Definition client_echoed (lfd : Z) s (e : exit_kind) s' : Prop :=
  e = EXIT_SUCCESS -> exists (n : nat) cfd bytes, incoming (kern s) !! n = Some bytes /\ out (kern s') cfd = bytes /\
    open_fds (kern s') = {[cfd]} ∪ (open_fds (kern s) ∖ {[lfd]}).

Lemma client_echoed_later lfd s1 s n e s' :
  incoming (kern s1) = drop n (incoming (kern s)) -> open_fds (kern s1) = open_fds (kern s) ->
  client_echoed lfd s1 e s' -> client_echoed lfd s e s'.
Proof.
  intros Hi Ho H He. destruct (H He) as (m & cfd & bytes & Hb & H1 & H2). exists (n + m)%nat, cfd, bytes.
  by rewrite <-lookup_drop, <-Hi, <-Ho.
Qed.

(** The clients that the server itself has not come to, and its descriptors. *)
Definition served (turns : nat) s s' : Prop :=
  open_fds (kern s') = open_fds (kern s) /\ exists n, (n <= turns)%nat /\ incoming (kern s') = drop n (incoming (kern s)).

(** The rest of the loop, in a state in which one client at most is gone. *)
Lemma wp_echo_rest (v2 : bool) (turns fuel : nat) (lfd : Z) s s1 n :
  (n <= 1)%nat -> incoming (kern s1) = drop n (incoming (kern s)) -> open_fds (kern s1) = open_fds (kern s) ->
  wp (echo_serve v2 turns fuel lfd) (fun _ => served turns s1) (client_echoed lfd s1) s1 ->
  wp (echo_serve v2 turns fuel lfd) (fun _ => served (S turns) s) (client_echoed lfd s) s1.
Proof.
  intros Hn Hi Ho Hw. eapply wp_mono; [exact Hw| |].
  - intros _ s2 [H1 (m & Hm & H2)]. split; [congruence|]. exists (n + m)%nat. split; [lia|].
    by rewrite H2, Hi, drop_drop.
  - intros e s2. by apply (client_echoed_later lfd s1 s n).
Qed.

(** C34: Each child of an echo server that ends with success has sent back
    exactly the bytes of one client, over the connection of that client, and
    has closed its copy of the listening socket; the server itself ends only
    with an error, and after any number of turns it has the descriptors that it
    started with, so that no connection is left open. *)
Theorem echo_clients_served (v2 : bool) (turns fuel : nat) (lfd : Z) s :
  lfd ∈ open_fds (kern s) -> clients_short fuel s ->
  wp (echo_serve v2 turns fuel lfd) (fun _ => served turns s) (client_echoed lfd s) s.
Proof.
  unfold clients_short. revert s. induction turns as [|turns IH]; intros s Hlfd Hc.
  { apply wp_ret. split; [done|]. by exists 0%nat. }
  assert (Hgo : forall s1 n, (n <= 1)%nat -> incoming (kern s1) = drop n (incoming (kern s)) -> open_fds (kern s1) = open_fds (kern s) ->
    wp (echo_serve v2 turns fuel lfd) (fun _ => served (S turns) s) (client_echoed lfd s) s1).
  { intros s1 n Hn Hi Ho. apply (wp_echo_rest v2 turns fuel lfd s s1 n); try done. apply IH; [by rewrite Ho|].
    rewrite Hi. by apply Forall_drop. }
  cbn [echo_serve]. apply wp_bind, wp_syscall; intros k cfd Hk; pose proof (st_accept (kern s) lfd) as Hl; rewrite Hk in Hl.
  { destruct Hl as (_ & _ & Hi & Ho). destruct v2; [|by apply wp_log_exit].
    apply wp_bind, wp_log_errno. intros s1 (_ & _ & Hi1 & Ho1). cbn in Hi1, Ho1. apply (Hgo s1 0%nat); [lia|by rewrite Hi1, Hi|congruence]. }
  destruct Hl as (Hcfd & Hfree & Hopen & Hin & Hnew & Hrest). rewrite Hin in Hc. inversion Hc as [|? ? Hlen _]; subst.
  assert (Hclose : forall s1, incoming (kern s1) = incoming k -> open_fds (kern s1) = open_fds k ->
    wp (syscall (fun k => Sockets.os_close k cfd) ;;; echo_serve v2 turns fuel lfd)
      (fun _ => served (S turns) s) (client_echoed lfd s) s1).
  { intros s1 Hi Ho. destruct (st_close (kern s1) cfd) as (Hop & Hinc & _).
    apply wp_bind, wp_syscall; intros k2 c Hk2; rewrite Hk2 in Hop, Hinc; cbn [fst] in Hop, Hinc; apply (Hgo _ 1%nat); cbn; try lia.
    1,3: by rewrite Hinc, Hi, Hin. all: rewrite Hop, Ho, Hopen; set_solver. }
  assert (Hfork : same k (os_fork k).1) by (apply st_quiet; right; by left). destruct Hfork as (Hp1 & Ho1 & Hi1 & Hf1).
  apply wp_bind, wp_syscall; intros k1 pid Hk1; simpl in Hk1; rewrite Hk1 in *; cbn [fst] in *.
  { apply wp_bind, wp_log_errno. intros s1 (_ & _ & Hi2 & Ho2). cbn in Hi2, Ho2. apply Hclose; congruence. }
  destruct (pid =? 0); [|by apply Hclose].
  destruct (st_close k1 lfd) as (Hop & Hinc & Hother).
  assert (Hne : cfd <> lfd) by (by intros ->). destruct (Hother cfd Hne) as [Hpc Hoc].
  apply wp_bind, wp_syscall; intros k2 c Hk2; simpl in Hk2; rewrite Hk2 in *; cbn [fst] in *; apply wp_bind.
  all: apply wp_echo_input; [cbn; rewrite Hpc, Hp1; exact Hlen|done|].
  all: intros s1 (Honly & _ & Hout); cbn [kern set_kern set_errno] in *.
  all: assert (Hend : forall s2, kern s2 = kern s1 -> client_echoed lfd s EXIT_SUCCESS s2) by
    (intros s2 H2 _; exists 0%nat, cfd, (pend k cfd); rewrite Hin, H2, Hout, Hpc, Hoc, Hp1, Ho1, Hnew, (o_open _ _ _ _ Honly), Hop, Hf1, Hopen;
     split_and!; [done|done|set_solver]).
  all: destruct v2; [by apply wp_exit3, Hend|by apply wp_exit, Hend].
Qed.

(** The child of the client has shown a beginning of what it could read. *)
Lemma wp_show_response fuel sfd (Q : unit -> proc K -> Prop) E s :
  (length (pend (kern s) sfd) < fuel)%nat -> NUL ∉ pend (kern s) sfd ->
  (forall s' part, part `prefix_of` pend (kern s) sfd -> out_done s' = out_done s -> out_pending s' = out_pending s ++ part -> Q tt s') ->
  wp (show_response fuel sfd) Q E s.
Proof.
  revert s. induction fuel as [|fuel IH]; intros s Hf Hn HQ; [lia|]. cbn [show_response].
  apply wp_bind, wp_syscall; intros k r Hk; pose proof (st_read (kern s) sfd XFR_BUF_SIZE ltac:(done)) as Hl; rewrite Hk in Hl.
  { apply wp_ret, (HQ _ []); [apply prefix_nil|done|by rewrite app_nil_r]. }
  destruct Hl as (Hp & _). destruct r as [|c bytes]; [apply wp_ret, (HQ _ []); [apply prefix_nil|done|by rewrite app_nil_r]|].
  rewrite Hp in Hn, Hf. rewrite length_app in Hf. simpl in Hf.
  apply wp_bind, wp_modify, IH; cbn [kern set_kern set_out out_done out_pending]; [lia|by intros H; apply Hn, elem_of_app; right|].
  intros s' part Hpart Hd Ho. apply (HQ s' ((c :: bytes) ++ part)).
  - rewrite Hp. by apply prefix_app.
  - exact Hd.
  - rewrite Ho, string_in_id, <-app_assoc; [done|]. intros H. apply Hn, elem_of_app. by left.
Qed.

(** A client that ends with success: its parent has sent a beginning of
    its input, all of it unless a read failed; its child has shown a beginning
    of what the server sends, if there are no nulls in it. *)
Theorem echo_client_ends (fuel : nat) (sfd : Z) s :
  (length (pend (kern s) STDIN_FILENO) < fuel)%nat -> (length (pend (kern s) sfd) < fuel)%nat -> NUL ∉ pend (kern s) sfd ->
  wp (echo_converse fuel sfd) (fun _ _ => False) (fun e s' => e = EXIT_SUCCESS ->
    (exists part, part `prefix_of` pend (kern s) STDIN_FILENO /\ out (kern s') sfd = out (kern s) sfd ++ part) \/
    (exists part, part `prefix_of` pend (kern s) sfd /\ out_done s' = out_done s ++ out_pending s ++ part)) s.
Proof.
  intros H0 H1 Hn. apply wp_bind, wp_bind, wp_syscall; [intros k e _; apply wp_errExit_fails; by intros ? ? ? _ ?|]. intros k pid Hk.
  destruct (st_quiet (kern s) k) as (Hp & Ho & _); [right; left; by rewrite Hk|]. apply wp_ret. destruct (pid =? 0).
  - apply wp_bind, wp_show_response; cbn [kern set_kern out_done out_pending]; rewrite ?Hp; try done. intros s' part Hpart Hd Hout.
    unfold exit3, fflush_stdout. apply wp_bind, wp_modify, wp_exit. intros _. right. exists part. cbn. by rewrite Hd, Hout.
  - assert (Hend : forall s1, (exists part, part `prefix_of` pend (kern s) STDIN_FILENO /\ out (kern s1) sfd = out (kern s) sfd ++ part) ->
      wp (must (fun k => os_shutdown_write k sfd) (lit "shutdown") ;;; exit3 EXIT_SUCCESS) (fun (_ : unit) _ => False) (fun e s' => e = EXIT_SUCCESS ->
        (exists part, part `prefix_of` pend (kern s) STDIN_FILENO /\ out (kern s') sfd = out (kern s) sfd ++ part) \/
        (exists part, part `prefix_of` pend (kern s) sfd /\ out_done s' = out_done s ++ out_pending s ++ part)) s1).
    { intros s1 Hs. apply wp_bind, wp_bind, wp_syscall; [intros ? e _; apply wp_errExit_fails; by intros ? ? ? _ ?|]. intros k2 u Hk2.
      destruct (st_quiet (kern s1) k2) as (_ & Ho2 & _); [right; right; exists sfd; by rewrite Hk2|].
      apply wp_ret, wp_exit3. intros s2 H2 _. left. rewrite H2. cbn. by rewrite Ho2. }
    apply wp_bind, wp_stream_copy; [done|cbn; by rewrite Hp|..].
    + intros s' _. apply wp_fatal_fails. by intros ? ? ? _ ?.
    + intros s' (_ & Hs). apply Hend. cbn in Hs. by rewrite Hp, Ho in Hs.
    + intros s' Hm. apply moved_all_some in Hm as (_ & Hs). apply Hend. cbn in Hs. by rewrite Hp, Ho in Hs.
Qed.
End Streams.

(** ** Runs *)

(** Streams by descriptor, the clients to come, the open descriptors, and the
    results of the forks to come. *)
Record demo_world := DemoWorld {
  d_pend : gmap Z (list ascii);
  d_out : gmap Z (list ascii);
  d_incoming : list (list ascii);
  d_open : gset Z;
  d_forks : list Z
}.

Definition demo_fresh (fds : gset Z) : Z := 3 + foldr Z.max 0 (elements fds).
Lemma demo_fresh_spec fds : 2 < demo_fresh fds /\ demo_fresh fds ∉ fds.
Proof.
  unfold demo_fresh. rewrite <-elem_of_elements. generalize (elements fds). intros l.
  assert (Hm : forall x, x ∈ l -> x <= foldr Z.max 0 l) by (induction l as [|y l IH]; intros x; [by intros ?%elem_of_nil|];
    intros [->|Hx]%elem_of_cons; simpl; [lia|]; specialize (IH x Hx); lia).
  assert (0 <= foldr Z.max 0 l) by (clear Hm; induction l; simpl; lia).
  split; [lia|]. intros Hx%Hm. lia.
Qed.

#[export] Instance demo_world_io : ByteIO demo_world := {|
  os_read k fd n :=
    let bytes := take (Nat.min 3 (Z.to_nat n)) (d_pend k !!! fd) in
    (DemoWorld (<[fd := drop (length bytes) (d_pend k !!! fd)]> (d_pend k)) (d_out k) (d_incoming k) (d_open k) (d_forks k), inr bytes);
  os_write k fd bytes :=
    (DemoWorld (d_pend k) (<[fd := (d_out k !!! fd) ++ bytes]> (d_out k)) (d_incoming k) (d_open k) (d_forks k), inr (strlen bytes))
|}.
#[export] Instance demo_world_sockets : SocketOS demo_world := {|
  os_getaddrinfo k _ _ _ _ := (k, None); os_freeaddrinfo k := (k, tt); os_socket k _ _ _ := (k, inl 1);
  os_connect k _ _ := (k, inl 1); os_bind k _ _ := (k, inl 1); os_reuseaddr k _ := (k, inl 1); os_listen k _ _ := (k, inl 1);
  Sockets.os_close k fd := (DemoWorld (d_pend k) (d_out k) (d_incoming k) (d_open k ∖ {[fd]}) (d_forks k), inr tt);
  os_getnameinfo k _ := (k, None)
|}.
#[export] Instance demo_world_desc : DescOS demo_world := {|
  os_open k _ _ := (k, inl 1); Descriptors.os_close k _ := (k, inl 1); os_dup2 k _ _ := (k, inl 1);
  os_fork k :=
    (DemoWorld (d_pend k) (d_out k) (d_incoming k) (d_open k) (tail (d_forks k)),
     match d_forks k with [] => inl 11 | pid :: _ => inr pid end);
  os_setsid k := (k, inl 1)
|}.
#[export] Instance demo_world_echo : EchoOS demo_world := {|
  os_accept k _ :=
    match d_incoming k with
    | [] => (k, inl 4)
    | bytes :: rest =>
        let fd := demo_fresh (d_open k) in
        (DemoWorld (<[fd := bytes]> (d_pend k)) (<[fd := []]> (d_out k)) rest ({[fd]} ∪ d_open k) (d_forks k), inr fd)
    end;
  os_remove k _ := (k, inr tt); os_shutdown_write k _ := (k, inr tt); os_syslog k _ := (k, tt); os_catch_sigchld k := (k, inr tt)
|}.

Lemma take_drop_length {A} m (l : list A) : take m l ++ drop (length (take m l)) l = l.
Proof. rewrite <-(take_drop m l) at 3. rewrite drop_app_length. apply take_drop. Qed.

#[export] Instance demo_world_laws : StreamLaws demo_world.
Proof.
  refine {| pend k fd := d_pend k !!! fd; out k fd := d_out k !!! fd; incoming := d_incoming; open_fds := d_open |}.
  - intros k fd n Hn. unfold os_read, demo_world_io. cbn [d_pend d_out d_incoming d_open]. rewrite lookup_total_insert_eq. split_and!; try done.
    + by rewrite take_drop_length.
    + intros H0. destruct (d_pend k !!! fd); [done|]. exfalso. destruct (Nat.min 3 (Z.to_nat n)) eqn:Hm; [lia|done].
    + intros g Hg. by rewrite lookup_total_insert_ne.
  - intros k fd bytes. unfold os_write, demo_world_io. cbn [d_pend d_out d_incoming d_open]. unfold strlen.
    rewrite lookup_total_insert_eq, Nat2Z.id, firstn_all. split_and!; try done; try lia.
    intros g Hg. by rewrite lookup_total_insert_ne.
  - intros k lfd. unfold os_accept, demo_world_echo. destruct (d_incoming k) as [|bytes rest] eqn:Hi; [done|].
    destruct (demo_fresh_spec (d_open k)) as [Hf Hn]. cbn [d_pend d_out d_incoming d_open]. rewrite !lookup_total_insert_eq.
    split_and!; try done. intros g Hg. by rewrite !lookup_total_insert_ne.
  - by intros k fd.
  - intros k k' [[msg ->] | [-> | [fd ->]]]; by split_and!.
Defined.

#[export] Instance demo_world_texts : ErrnoText :=
  {| MAX_ENAME := 0; ename := fun _ => []; strerror := fun _ => [] |}.

Definition demo_server (forks : list Z) : proc demo_world :=
  Proc (DemoWorld ∅ ∅ [lit "first"; lit "second client"] {[3]} forks) 0 None [] [] [].

(** What the child of the second client sends back, over descriptor 6. *)
Lemma echo_clients_served_witness :
  match echo_serve true 2 14 3 (demo_server [5; 0]) with
  | Exit EXIT_SUCCESS s => d_out (kern s) !!! 6 = lit "second client" /\ elements (d_open (kern s)) = [6]
  | _ => False
  end /\
  wp (echo_serve true 2 14 3) (fun _ => served 2 (demo_server [5; 0])) (client_echoed 3 (demo_server [5; 0])) (demo_server [5; 0]).
Proof.
  split; [by vm_compute|]. apply (echo_clients_served true 2 14 3 (demo_server [5; 0])); [by vm_compute|].
  apply (bool_decide_eq_true_1 _). by vm_compute.
Defined.

Lemma xfr_collects_witness :
  match xfr_serve 2 14 3 (demo_server []) with Ret _ s => d_out (kern s) !!! 1 = lit "firstsecond client" | _ => False end /\
  wp (xfr_serve 2 14 3) (fun _ s' =>
      out (kern s') STDOUT_FILENO = out (kern (demo_server [])) STDOUT_FILENO ++ concat (take 2 (incoming (kern (demo_server [])))) /\
      incoming (kern s') = drop 2 (incoming (kern (demo_server []))) /\ open_fds (kern s') = open_fds (kern (demo_server [])))
    (collected_part 2 (demo_server [])) (demo_server []).
Proof. split; [by vm_compute|]. apply (xfr_collects 2 14 3 (demo_server [])). apply (bool_decide_eq_true_1 _). by vm_compute. Defined.

(** A null in what the server sends hides the rest of what was read with it. *)
Example response_hidden :
  match echo_converse 9 7 (Proc (DemoWorld {[7 := lit "a" ++ [NUL] ++ lit "bcd"]} ∅ [] ∅ [0]) 0 None [] [] []) with
  | Exit EXIT_SUCCESS s => out_done s = lit "acd"
  | _ => False
  end.
Proof. by vm_compute. Qed.
