(* ===== verification/ProdCondvar.v ===== *)
(** threads/prod_condvar.c (src/tlpi-dist): producers and a consumer that share
    a counter, a mutex and a condition variable, as a transition system.

    Each thread has a place in its code, between two of its accesses to what is
    shared; one event runs one thread from its place to the next. Sleeping
    without a signal can end at any time, as POSIX allows. *)
From Stdlib Require Import ZArith Lia Ascii String.
From stdpp Require Import base tactics list strings.
From S2P Require Import Prelude CString Transitions.
#[local] Open Scope Z_scope.

(** ** The program *)

(** Where a producer is: at the head of its loop, at the call of
    [pthread_mutex_lock], and so on. *)
Inductive producer_pc := PLoop | PLock | PIncr | PUnlock | PSignal | PDone.
#[global] Instance producer_pc_eq_dec : EqDecision producer_pc.
Proof. solve_decision. Defined.
Record producer := Producer { p_pc : producer_pc; p_j : Z; p_cnt : Z }.

(** Where main is: creating threads for the arguments left, locking the mutex,
    testing [avail] before it sleeps, asleep in [pthread_cond_wait], locking
    the mutex again inside it, in the loop that consumes, unlocking, ended.
    [MUndef]: an addition of ints has overflowed, and the program has undefined
    behaviour. *)
Inductive main_pc := MCreate (rest : list cstr) | MLock | MTest | MSleep | MWake | MEat | MUnlock
  | MExit (k : exit_kind) | MUndef.

Definition overflows (z : Z) : bool := (z <? INT_MIN) || (INT_MAX <? z).

Record state := State {
  mtx : option tid;
  avail : Z;
  totRequired : Z;
  numConsumed : Z;
  is_done : bool;
  pc : main_pc;
  threads : list producer
}.

Definition start (args : list cstr) : state := State None 0 0 0 false (MCreate args) [].

(** [pthread_cond_signal]: main is the only thread that waits. *)
Definition signalled (m : main_pc) : main_pc :=
  match m with MSleep => MWake | _ => m end.

(** One step of thread [i] in [producer]; [None] when it cannot run. *)
Definition run_producer (i : nat) (st : state) : option state :=
  match threads st !! i with
  | None => None
  | Some (Producer p j cnt) =>
      let goto q mtx avail m := State mtx avail (totRequired st) (numConsumed st) (is_done st) m
        (<[i := q]> (threads st)) in
      match p with
      | PLoop =>
          Some (goto (Producer (if j <? cnt then PLock else PDone) j cnt) (mtx st) (avail st) (pc st))
      | PLock =>
          match mtx st with
          | None => Some (goto (Producer PIncr j cnt) (Some (Thread i)) (avail st) (pc st))
          | Some _ => None
          end
      | PIncr =>
          Some (goto (Producer PUnlock j cnt) (mtx st) (avail st + 1)
            (if overflows (avail st + 1) then MUndef else pc st))
      | PUnlock => Some (goto (Producer PSignal j cnt) None (avail st) (pc st))
      | PSignal =>
          Some (goto (Producer PLoop (j + 1) cnt) (mtx st) (avail st) (signalled (pc st)))
      | PDone => None
      end
  end.

(** One step of [main]. *)
Definition run_main (st : state) : option state :=
  let goto m mtx avail numConsumed is_done :=
    State mtx avail (totRequired st) numConsumed is_done m (threads st) in
  let stay m := goto m (mtx st) (avail st) (numConsumed st) (is_done st) in
  let lock m :=
    match mtx st with
    | None => Some (goto m (Some Main) (avail st) (numConsumed st) (is_done st))
    | Some _ => None
    end in
  match pc st with
  | MCreate [] => Some (stay MLock)
  | MCreate (a :: rest) =>
      Some (State (mtx st) (avail st) (totRequired st + atoi a) (numConsumed st) (is_done st)
        (if overflows (totRequired st + atoi a) then MUndef else MCreate rest) (threads st ++ [Producer PLoop 0 (atoi a)]))
  | MLock | MWake => lock MTest
  | MTest =>
      if avail st =? 0 then Some (goto MSleep None (avail st) (numConsumed st) (is_done st))
      else Some (stay MEat)
  | MSleep => None
  | MEat =>
      if 0 <? avail st then
        Some (goto (if overflows (numConsumed st + 1) then MUndef else MEat) (mtx st) (avail st - 1) (numConsumed st + 1)
          (totRequired st <=? numConsumed st + 1))
      else Some (stay MUnlock)
  | MUnlock =>
      Some (goto (if is_done st then MExit EXIT_SUCCESS else MLock) None (avail st)
        (numConsumed st) (is_done st))
  | MExit _ | MUndef => None
  end.

(** A thread runs only while the process lives. *)
Definition run_thread (t : tid) (st : state) : option state :=
  match pc st, t with
  | MExit _, _ | MUndef, _ => None
  | _, Main => run_main st
  | _, Thread i => run_producer i st
  end.

(** A wakeup without a signal, and a thread that cannot be created, which ends
    the program with an error. *)
Inductive event := Run (t : tid) | Spurious | CreateFails.

Definition set_pc (m : main_pc) (st : state) : state :=
  State (mtx st) (avail st) (totRequired st) (numConsumed st) (is_done st) m (threads st).

Definition fire (e : event) (st : state) : option state :=
  match e, pc st with
  | Run t, _ => run_thread t st
  | Spurious, MSleep => Some (set_pc MWake st)
  | CreateFails, MCreate (_ :: _) => Some (set_pc (MExit EXIT_FAILURE) st)
  | _, _ => None
  end.

(** ** The invariant *)

Definition total (args : list cstr) : Z := sumZ atoi args.

(** The arguments without a thread yet. *)
Definition waiting_args (m : main_pc) : list cstr :=
  match m with MCreate rest => rest | _ => [] end.

Definition main_owns (m : main_pc) : bool :=
  match m with MTest | MEat | MUnlock => true | _ => false end.
Definition producer_owns (p : producer_pc) : bool :=
  match p with PIncr | PUnlock => true | _ => false end.

(** The units a producer has made, and whether it still has to signal. *)
Definition made (p : producer) : Z :=
  p_j p + (match p_pc p with PUnlock | PSignal => 1 | _ => 0 end).
Definition will_signal (p : producer_pc) : bool :=
  match p with PUnlock | PSignal => true | _ => false end.

Definition producer_ok (p : producer) : Prop :=
  0 <= p_j p <= p_cnt p /\
  match p_pc p with
  | PLoop => True
  | PDone => p_j p = p_cnt p
  | _ => p_j p < p_cnt p
  end.

Record inv (args : list cstr) (st : state) : Prop := {
  inv_main : mtx st = Some Main <-> main_owns (pc st) = true;
  inv_thread i : mtx st = Some (Thread i) <->
    exists p, threads st !! i = Some p /\ producer_owns (p_pc p) = true;
  inv_threads i p : threads st !! i = Some p -> producer_ok p;
  inv_rest : Forall (fun a => 0 <= atoi a) (waiting_args (pc st));
  inv_units : avail st + numConsumed st = sumZ made (threads st);
  inv_avail : 0 <= avail st;
  inv_consumed : 0 <= numConsumed st;
  inv_cnts : sumZ p_cnt (threads st) = totRequired st;
  inv_total : totRequired st + sumZ atoi (waiting_args (pc st)) = total args;
  inv_done : is_done st = (total args <=? numConsumed st);
  inv_loop : match pc st with
    | MEat | MUnlock | MExit _ => True
    | MUndef => False
    | _ => is_done st = false
    end;
  inv_unlock : pc st = MUnlock -> avail st = 0;
  inv_exit k : pc st = MExit k -> k = EXIT_SUCCESS /\ is_done st = true;
  inv_signal : pc st = MSleep -> 0 < avail st ->
    exists i p, threads st !! i = Some p /\ will_signal (p_pc p) = true
}.

Section Invariant.
Context (args : list cstr) (Hargs : Forall (fun a => 0 <= atoi a) args) (Htotal : 0 < total args <= INT_MAX).
Implicit Types (st : state).

Lemma start_inv : inv args (start args).
Proof.
  split; simpl; try done; try lia.
  - intros i. split; [done|]. intros (p & Hp & _). by rewrite lookup_nil in Hp.
Qed.

(** A producer moves: what a step must do to keep the invariant. *)
Lemma producer_goto st i p q mtx' avail' m' :
  inv args st -> threads st !! i = Some p -> producer_ok q -> p_cnt q = p_cnt p ->
  avail' = avail st + made q - made p ->
  ((producer_owns (p_pc q) = producer_owns (p_pc p) /\ mtx' = mtx st) \/
   (producer_owns (p_pc q) = true /\ mtx st = None /\ mtx' = Some (Thread i)) \/
   (producer_owns (p_pc p) = true /\ producer_owns (p_pc q) = false /\ mtx' = None)) ->
  m' = pc st \/ m' = signalled (pc st) ->
  made p <= made q ->
  (will_signal (p_pc p) = true -> will_signal (p_pc q) = true \/ m' = signalled (pc st)) ->
  (made p <> made q -> will_signal (p_pc q) = true /\ producer_owns (p_pc p) = true) ->
  (forall k, pc st <> MExit k) ->
  inv args (State mtx' avail' (totRequired st) (numConsumed st) (is_done st) m'
    (<[i := q]> (threads st))).
Proof.
  intros [Hm Ht Hps Hr Hu Ha Hc Hcn Htot Hd Hl Hul He Hs] Hi Hq Hcnt -> Hmx Hm' Hmade Hsig Hunit Hne.
  assert (Hlk : <[i := q]> (threads st) !! i = Some q)
    by (apply list_lookup_insert_eq; by eapply lookup_lt_Some).
  assert (Hpc : main_owns m' = main_owns (pc st) /\ waiting_args m' = waiting_args (pc st) /\
    (m' = MSleep -> pc st = MSleep /\ m' <> signalled (pc st)) /\ (m' = MUnlock -> pc st = MUnlock) /\
    (forall k, m' <> MExit k)).
  { destruct Hm' as [->| ->]; destruct (pc st); split_and!; try done; intros; by eapply Hne. }
  destruct Hpc as (Hown & Hwait & Hsleep & Hunl & Hnex).
  assert (Hexcl : producer_owns (p_pc p) = true -> mtx st = Some (Thread i)).
  { intros Hp. apply Ht. by exists p. }
  split; simpl; rewrite ?Hown, ?Hwait; try done.
  - rewrite <-Hm. destruct Hmx as [[_ ->]|[(_ & -> & ->)|(Hp & _ & ->)]]; [done|done|].
    rewrite (Hexcl Hp). done.
  - intros k. split.
    + intros Hk. destruct Hmx as [[Ho ->]|[(Ho & _ & ->)|(_ & _ & ->)]]; [|simplify_eq; eauto|done].
      apply Ht in Hk as (x & Hx & Hxo). destruct (decide (k = i)) as [->|Hki].
      * exists q. split; [done|]. rewrite Ho. congruence.
      * exists x. by rewrite list_lookup_insert_ne by done.
    + intros (x & Hx & Hxo). destruct (lookup_insert_cases _ _ _ _ _ _ Hi Hx) as [[-> ->]|[Hki Hx']].
      * destruct Hmx as [[Ho ->]|[(Ho & _ & ->)|(_ & Ho & ->)]]; [|done|congruence].
        apply Hexcl. congruence.
      * assert (Hmk : mtx st = Some (Thread k)) by (apply Ht; eauto).
        destruct Hmx as [[Ho ->]|[(Ho & Hn & ->)|(Ho & _ & ->)]]; [done|congruence|].
        specialize (Hexcl Ho). congruence.
  - intros k x Hx. destruct (lookup_insert_cases _ _ _ _ _ _ Hi Hx) as [[-> ->]|[_ Hx']]; eauto.
  - rewrite (sumZ_insert _ _ _ _ _ Hi). lia.
  - lia.
  - rewrite (sumZ_insert _ _ _ _ _ Hi). lia.
  - destruct Hm' as [->| ->]; [done|]. by destruct (pc st).
  - intros Hx. specialize (Hunl Hx). rewrite (Hul Hunl).
    destruct (decide (made p = made q)); [lia|]. destruct Hunit as [_ Ho]; [done|].
    specialize (Hexcl Ho). rewrite Hunl in Hm. simpl in Hm. assert (mtx st = Some Main) by by apply Hm.
    congruence.
  - intros k Hx. by apply Hnex in Hx.
  - intros Hx Hav. destruct (Hsleep Hx) as [Hpcs Hns].
    destruct (decide (made p = made q)) as [Heq|Hn].
    + destruct (Hs Hpcs ltac:(lia)) as (k & x & Hk & Hxs). destruct (decide (k = i)) as [->|Hki].
      * simplify_eq. destruct (Hsig Hxs) as [|Hsg]; [by eauto|by rewrite Hsg in *].
      * exists k, x. by rewrite list_lookup_insert_ne by done.
    + destruct (Hunit Hn). eauto.
Qed.

(** Units come from producers, so none are consumed beyond the total. *)
Lemma made_le_total st : inv args st -> sumZ made (threads st) <= totRequired st <= total args.
Proof.
  intros Hi. rewrite <-(inv_cnts _ _ Hi), <-(inv_total _ _ Hi), (inv_cnts _ _ Hi). split.
  - rewrite <-(inv_cnts _ _ Hi). apply sumZ_le. intros p [i Hp]%list_elem_of_lookup.
    apply (inv_threads _ _ Hi) in Hp. unfold producer_ok, made in *. destruct (p_pc p); lia.
  - enough (0 <= sumZ atoi (waiting_args (pc st))) by lia. apply sumZ_nonneg.
    by apply Forall_forall, (inv_rest _ _ Hi).
Qed.

Lemma in_range z : 0 <= z <= total args -> overflows z = false.
Proof. intros Hz. unfold overflows, INT_MIN. apply orb_false_intro; lia. Qed.

Lemma incr_in_range st i j cnt :
  inv args st -> threads st !! i = Some (Producer PIncr j cnt) -> overflows (avail st + 1) = false.
Proof.
  intros Hinv Hi. apply in_range. pose proof (inv_avail _ _ Hinv). pose proof (inv_consumed _ _ Hinv).
  pose proof (inv_units _ _ Hinv) as Hu. split; [lia|].
  pose proof (inv_cnts _ _ Hinv) as Hc. pose proof (made_le_total _ Hinv) as [_ Ht].
  pose proof (inv_threads _ _ Hinv _ _ Hi) as Hok. unfold producer_ok in Hok. simpl in Hok.
  set (ps := <[i := Producer PUnlock j cnt]> (threads st)).
  assert (H1 : sumZ made ps = sumZ made (threads st) + 1).
  { unfold ps. rewrite (sumZ_insert _ _ _ _ _ Hi). unfold made. simpl. lia. }
  assert (H2 : sumZ p_cnt ps = sumZ p_cnt (threads st)).
  { unfold ps. rewrite (sumZ_insert _ _ _ _ _ Hi). simpl. lia. }
  enough (sumZ made ps <= sumZ p_cnt ps) by lia.
  apply sumZ_le. intros p [k Hp]%list_elem_of_lookup.
  destruct (lookup_insert_cases _ _ _ _ _ _ Hi Hp) as [[-> ->]|[_ Hp']]; [unfold made; simpl; lia|].
  apply (inv_threads _ _ Hinv) in Hp'. unfold producer_ok, made in *. destruct (p_pc p); lia.
Qed.

Lemma eat_in_range st : inv args st -> 0 < avail st -> overflows (numConsumed st + 1) = false.
Proof.
  intros Hinv Ha. pose proof (made_le_total _ Hinv). pose proof (inv_units _ _ Hinv).
  pose proof (inv_consumed _ _ Hinv). apply in_range. lia.
Qed.

Lemma create_in_range st a rest : inv args st -> pc st = MCreate (a :: rest) -> overflows (totRequired st + atoi a) = false.
Proof.
  intros Hinv Hpc. pose proof (inv_rest _ _ Hinv) as Hr. pose proof (inv_total _ _ Hinv) as Ht. rewrite Hpc in Hr, Ht.
  apply Forall_cons in Hr as [Ha Hr]. simpl in Ht. pose proof (inv_cnts _ _ Hinv) as Hc.
  assert (0 <= sumZ atoi rest) by (apply sumZ_nonneg; by apply Forall_forall).
  assert (0 <= sumZ p_cnt (threads st)); [|apply in_range; lia].
  apply sumZ_nonneg. intros p [i Hp]%list_elem_of_lookup. apply (inv_threads _ _ Hinv) in Hp as [Hp _]. lia.
Qed.

Lemma run_producer_inv st i st' :
  inv args st -> (forall k, pc st <> MExit k) -> run_producer i st = Some st' -> inv args st'.
Proof.
  intros Hinv Hne. unfold run_producer. destruct (threads st !! i) as [[p j cnt]|] eqn:Hi; [|done].
  pose proof (inv_threads _ _ Hinv _ _ Hi) as Hok. unfold producer_ok in Hok. simpl in Hok.
  destruct p; try rewrite (incr_in_range st i j cnt) by done; intros Hst; simplify_eq; try (destruct (mtx st) eqn:Hmx; [done|]; simplify_eq);
    (eapply (producer_goto st i); [done|done|..]); unfold producer_ok, made in *; simpl;
    try done; try lia; auto.
  - destruct (Z.ltb_spec j cnt); simpl; lia.
  - destruct (j <? cnt); simpl; lia.
  - destruct (j <? cnt); simpl; by left.
  - destruct (j <? cnt); simpl; lia.
  - destruct (j <? cnt); simpl; lia.
Qed.

Lemma run_main_inv st st' : inv args st -> run_main st = Some st' -> inv args st'.
Proof.
  intros Hinv. pose proof Hinv as [Hm Ht Hps Hr Hu Ha Hc Hcn Htot Hd Hl Hul He Hs].
  unfold run_main. destruct (pc st) as [[|a rest]| | | | | | |k|] eqn:Hpc; simpl in *; intros Hst; simplify_eq.
  - split; simpl; try done.
  - apply Forall_cons in Hr as [Ha0 Hr].
    rewrite (create_in_range _ _ _ Hinv Hpc). split; simpl; try done.
    + intros i. rewrite Ht. split; intros (p & Hp & Ho).
      * exists p. split; [|done]. by apply lookup_app_l_Some.
      * apply lookup_app_Some in Hp as [Hp|[_ Hp]]; [by eauto|].
        apply list_lookup_singleton_Some in Hp as [_ <-]. done.
    + intros i p Hp. apply lookup_app_Some in Hp as [Hp|[_ Hp]]; [by eauto|].
      apply list_lookup_singleton_Some in Hp as [_ <-]. unfold producer_ok. simpl. lia.
    + rewrite sumZ_app. simpl. unfold made at 2. simpl. lia.
    + rewrite sumZ_app. simpl. lia.
    + lia.
  - destruct (mtx st) eqn:Hmx; [done|]. simplify_eq. split; simpl; try done.
    intros i. split; [done|]. intros Hx. apply Ht in Hx. congruence.
  - assert (Hmm : mtx st = Some Main) by by apply Hm.
    destruct (Z.eqb_spec (avail st) 0) as [H0|H0]; simplify_eq; split; simpl; try done.
    + intros i. split; [done|]. intros Hx. apply Ht in Hx. congruence.
    + lia.
  - destruct (mtx st) eqn:Hmx; [done|]. simplify_eq. split; simpl; try done.
    intros i. split; [done|]. intros Hx. apply Ht in Hx. congruence.
  - assert (Hmm : mtx st = Some Main) by by apply Hm.
    destruct (Z.ltb_spec 0 (avail st)) as [H0|H0]; [rewrite eat_in_range in Hst by done|]; simplify_eq; split; simpl; try done; try lia.
  - assert (Hmm : mtx st = Some Main) by by apply Hm.
    assert (Hex : forall i, None = Some (Thread i) <->
      exists p, threads st !! i = Some p /\ producer_owns (p_pc p) = true).
    { intros i. split; [done|]. intros Hx. apply Ht in Hx. congruence. }
    destruct (is_done st) eqn:Hdn; split; simpl; try done. intros k [= <-]. done.
Qed.

(** No thread is lost between events, unless creating one failed. *)
Lemma reachable_inv st : reachable fire (start args) st -> pc st = MExit EXIT_FAILURE \/ inv args st.
Proof.
  induction 1 as [|e st st' _ [Hf|Hi] Hfire]; [right; by apply start_inv| |].
  - destruct e; simpl in Hfire; [unfold run_thread in Hfire|..]; rewrite Hf in Hfire; by destruct_or?.
  - destruct e as [t| |]; simpl in Hfire.
    + right. unfold run_thread in Hfire. destruct (pc st) eqn:Hpc; try done; destruct t as [|i];
        first [by eapply run_main_inv | eapply run_producer_inv; [done| |done]; by rewrite Hpc].
    + right. destruct Hi as [Hm Ht Hps Hr Hu Ha Hc Hcn Htot Hd Hl Hul He Hs].
      destruct (pc st) eqn:Hpc; try done. simplify_eq. by split.
    + left. destruct (pc st) as [[|a r]| | | | | | | |]; try done. by simplify_eq.
Qed.

End Invariant.

(** ** Progress and termination *)

(** What a producer has left to do, in steps; what main has left to do before
    it sleeps; and every unit and signal still to come pays for a turn of
    main. *)
Definition producer_work (p : producer) : Z :=
  5 * (p_cnt p - p_j p) +
  match p_pc p with PLoop => 1 | PLock => 0 | PIncr => -1 | PUnlock => -2 | PSignal => -3
                  | PDone => 0 end.

Definition main_work (m : main_pc) (avail : Z) : Z :=
  match m with
  | MCreate rest => 7 + sumZ (fun a => 50 * atoi a + 11) rest
  | MLock | MWake => 4
  | MTest => 3
  | MSleep => 0
  | MEat => if avail =? 0 then 6 else 1
  | MUnlock => 5
  | MExit _ | MUndef => 0
  end.

Definition work (args : list cstr) (st : state) : Z :=
  10 * sumZ producer_work (threads st) + main_work (pc st) (avail st)
  + 10 * (total args - numConsumed st).

Section Progress.
Context (args : list cstr) (Hargs : Forall (fun a => 0 <= atoi a) args) (Htotal : 0 < total args <= INT_MAX).
Implicit Types (st : state).

Lemma producer_work_nonneg p : producer_ok p -> 0 <= producer_work p.
Proof. unfold producer_ok, producer_work. destruct (p_pc p); lia. Qed.

Lemma work_nonneg st : inv args st -> 0 <= work args st.
Proof.
  intros Hi. pose proof (made_le_total args st Hi). pose proof (inv_units _ _ Hi).
  pose proof (inv_avail _ _ Hi).
  assert (0 <= sumZ producer_work (threads st)).
  { apply sumZ_nonneg. intros p [i Hp]%list_elem_of_lookup.
    by apply producer_work_nonneg, (inv_threads _ _ Hi i). }
  assert (0 <= main_work (pc st) (avail st)); [|unfold work; lia].
  unfold main_work. pose proof (inv_rest _ _ Hi) as Hr. destruct (pc st); simpl in *; try lia.
  - enough (0 <= sumZ (fun a => 50 * atoi a + 11) rest) by lia. apply sumZ_nonneg.
    intros a Ha. rewrite Forall_forall in Hr. specialize (Hr a Ha). lia.
  - destruct (_ =? _); lia.
Qed.

(** Every step of a thread leaves less work. *)
Lemma run_producer_work st i st' :
  inv args st -> run_producer i st = Some st' -> work args st' < work args st.
Proof.
  intros Hi. unfold run_producer, work. destruct (threads st !! i) as [[p j cnt]|] eqn:Hp; [|done].
  pose proof (inv_threads _ _ Hi _ _ Hp) as Hok. unfold producer_ok in Hok. simpl in Hok.
  assert (Heat : p = PIncr -> pc st <> MEat).
  { intros -> Hm. assert (H1 : mtx st = Some (Thread i)) by (apply (inv_thread _ _ Hi); eauto).
    assert (H2 : mtx st = Some Main) by (apply (inv_main _ _ Hi); by rewrite Hm). congruence. }
  destruct p; try rewrite (incr_in_range args Htotal st i j cnt) by done;
    intros Hst; simplify_eq; try (destruct (mtx st); [done|]; simplify_eq); simpl;
    rewrite (sumZ_insert _ _ _ _ _ Hp); unfold producer_work; simpl; try lia.
  - destruct (Z.ltb_spec j cnt); simpl; lia.
  - specialize (Heat eq_refl). unfold main_work. destruct (pc st); try lia; done.
  - unfold main_work. destruct (pc st); simpl; try lia.
Qed.

Lemma run_main_work st st' : inv args st -> run_main st = Some st' -> work args st' < work args st.
Proof.
  intros Hi. unfold run_main, work. pose proof (inv_unlock _ _ Hi) as Hul.
  pose proof (create_in_range args Htotal st) as Hcr.
  destruct (pc st) as [[|a rest]| | | | | | |k|] eqn:Hpc; intros Hst; simplify_eq/=.
  - lia.
  - rewrite (Hcr a rest) by done. rewrite sumZ_app. simpl. unfold producer_work at 2. simpl. lia.
  - destruct (mtx st); [done|]. simplify_eq/=. lia.
  - destruct (Z.eqb_spec (avail st) 0) as [H0|H0]; simplify_eq/=; [lia|].
    destruct (Z.eqb_spec (avail st) 0); lia.
  - destruct (mtx st); [done|]. simplify_eq/=. lia.
  - pose proof (inv_avail _ _ Hi).
    destruct (Z.ltb_spec 0 (avail st)) as [H0|H0]; [rewrite (eat_in_range args Htotal) in Hst by done|]; simplify_eq/=;
      destruct (Z.eqb_spec (avail st) 0); try lia. destruct (_ =? _); lia.
  - destruct (is_done st); simpl; lia.
Qed.

(** Until the program ends, some thread can run: no wakeup is lost. *)
Lemma inv_defined st : inv args st -> pc st <> MUndef.
Proof. intros Hi Hpc. pose proof (inv_loop _ _ Hi) as Hl. by rewrite Hpc in Hl. Qed.

Lemma run_thread_live t st : inv args st -> (forall k, pc st <> MExit k) ->
  run_thread t st = match t with Main => run_main st | Thread i => run_producer i st end.
Proof.
  intros Hi H. pose proof (inv_defined st Hi). unfold run_thread. destruct (pc st); destruct t; try done; by destruct (H k).
Qed.

Lemma producer_runs st i p : threads st !! i = Some p -> p_pc p <> PDone ->
  (p_pc p = PLock -> mtx st = None) -> is_Some (run_producer i st).
Proof.
  intros Hp Hd Hl. unfold run_producer. rewrite Hp. destruct p as [[] j cnt]; simpl in *; eauto; try done.
  rewrite Hl by done. eauto.
Qed.

Lemma owner_runs st : inv args st -> main_owns (pc st) = false ->
  mtx st = None \/ exists i, is_Some (run_producer i st).
Proof.
  intros Hi Hm. destruct (mtx st) as [[|i]|] eqn:Hx; [|right|by left].
  - apply (inv_main _ _ Hi) in Hx. congruence.
  - apply (inv_thread _ _ Hi) in Hx as (p & Hp & Ho). exists i.
    eapply producer_runs; [done|..]; intros E; by rewrite E in Ho.
Qed.

Lemma progress st : inv args st -> (forall k, pc st <> MExit k) ->
  exists t, is_Some (run_thread t st).
Proof.
  intros Hi Hne.
  assert (Hmain : is_Some (run_main st) -> exists t, is_Some (run_thread t st))
    by (intros; exists Main; by rewrite run_thread_live).
  assert (Hprod : (exists i, is_Some (run_producer i st)) -> exists t, is_Some (run_thread t st))
    by (intros [i ?]; exists (Thread i); by rewrite run_thread_live).
  pose proof (owner_runs st Hi) as Hown. unfold run_main in Hmain.
  destruct (pc st) as [[|a rest]| | | | | | |k|] eqn:Hpc; try (apply Hmain; by eauto).
  - destruct Hown as [Hx|Hx]; [done| |by auto]. apply Hmain. rewrite Hx. eauto.
  - apply Hmain. destruct (_ =? _); eauto.
  - destruct Hown as [Hx|Hx]; [done| |by auto].
    destruct (decide (Exists (fun p => p_pc p <> PDone) (threads st))) as [He|He].
    + apply Exists_exists in He as (p & [i Hp]%list_elem_of_lookup & Hd).
      apply Hprod. exists i. by eapply producer_runs.
    + exfalso.
      assert (Hall : forall p, p ∈ threads st -> p_pc p = PDone).
      { intros p Hp. destruct (decide (p_pc p = PDone)) as [|Hd]; [done|]. destruct He.
        apply Exists_exists. eauto. }
      assert (Hmade : sumZ made (threads st) = total args).
      { pose proof (inv_total _ _ Hi) as Ht. rewrite Hpc in Ht. simpl in Ht.
        rewrite <-(inv_cnts _ _ Hi) in Ht. rewrite <-Ht, Z.add_0_r. apply sumZ_eq. intros p Hp.
        specialize (Hall p Hp). apply list_elem_of_lookup in Hp as [i Hp].
        apply (inv_threads _ _ Hi) in Hp. unfold producer_ok, made in *. rewrite Hall in *. lia. }
      pose proof (inv_units _ _ Hi). pose proof (inv_avail _ _ Hi). pose proof (inv_done _ _ Hi) as Hd.
      pose proof (inv_loop _ _ Hi) as Hl. rewrite Hpc in Hl. rewrite Hl in Hd.
      symmetry in Hd. apply Z.leb_gt in Hd.
      destruct (inv_signal _ _ Hi Hpc ltac:(lia)) as (i & p & Hp & Hs).
      rewrite (Hall p) in Hs by by eapply list_elem_of_lookup_2. done.
  - destruct Hown as [Hx|Hx]; [done| |by auto]. apply Hmain. rewrite Hx. eauto.
  - apply Hmain. destruct (_ <? _); eauto.
  - by destruct (Hne k).
  - by apply inv_defined in Hi.
Qed.

Lemma run_thread_inv t st st' : inv args st -> run_thread t st = Some st' ->
  inv args st' /\ work args st' < work args st.
Proof.
  intros Hi Hr. assert (Hne : forall k, pc st <> MExit k).
  { intros k Hk. unfold run_thread in Hr. by rewrite Hk in Hr. }
  rewrite run_thread_live in Hr by done. destruct t.
  - split; [by eapply run_main_inv|by eapply run_main_work].
  - split; [by eapply run_producer_inv|by eapply run_producer_work].
Qed.

Definition completed (st : state) : Prop :=
  pc st = MExit EXIT_SUCCESS /\ numConsumed st = total args /\ avail st = 0.

Lemma inv_ends st : inv args st -> always_ends run_thread completed st.
Proof.
  apply (ends_by_work run_thread (inv args) completed (work args)).
  - apply work_nonneg.
  - intros t s s'. apply run_thread_inv.
  - clear st. intros st Hi. destruct (pc st) eqn:Hpc; try (left; apply progress; [done|by rewrite Hpc]).
    right. split; [intros t; unfold run_thread; by rewrite Hpc|].
    destruct (inv_exit _ _ Hi _ Hpc) as [-> Hd]. pose proof (inv_done _ _ Hi) as Hd'.
    rewrite Hd in Hd'. symmetry in Hd'. apply Z.leb_le in Hd'.
    pose proof (made_le_total args st Hi). pose proof (inv_units _ _ Hi). pose proof (inv_avail _ _ Hi).
    split_and!; [done|lia|lia].
Qed.

End Progress.

(** C8: Run with arguments that are not negative and ask for at least one unit
    in all, and for no more than an int can hold, whatever has happened so far, unwanted wakeups included: from any
    state the threads can reach without a failed creation, every way to go on
    running them ends, and ends with the program exiting successfully when
    exactly the total has been consumed: no wakeup is lost, nothing deadlocks,
    and the counters stay between 0 and the total. *)
Theorem prod_condvar_completes (args : list cstr) (st : state) :
  Forall (fun a => 0 <= atoi a) args -> 0 < total args <= INT_MAX -> reachable fire (start args) st ->
  pc st = MExit EXIT_FAILURE \/
  always_ends run_thread (completed args) st /\
  0 <= avail st /\ 0 <= numConsumed st /\ avail st + numConsumed st <= total args /\
  0 <= totRequired st <= total args.
Proof.
  intros Hargs Htotal Hr. destruct (reachable_inv args Hargs Htotal st Hr) as [Hf|Hi]; [by left|right].
  split; [by apply inv_ends|]. pose proof (made_le_total args st Hi).
  pose proof (inv_units _ _ Hi). pose proof (inv_avail _ _ Hi). pose proof (inv_consumed _ _ Hi).
  split_and!; lia.
Qed.

(** One run of two producers, with a sleep, a signal and an unwanted
    wakeup. *)
Definition demo_events : list event :=
  replicate 5 (Run Main) ++ [Spurious; Run Main; Run Main] ++ replicate 5 (Run (Thread 1)).
Definition demo_state : state := default (start []) (run_all fire demo_events (start [lit "2"; lit "1"])).

Lemma prod_condvar_completes_witness :
  pc demo_state = MExit EXIT_FAILURE \/
  always_ends run_thread (completed [lit "2"; lit "1"]) demo_state /\
  0 <= avail demo_state /\ 0 <= numConsumed demo_state /\
  avail demo_state + numConsumed demo_state <= 3 /\ 0 <= totRequired demo_state <= 3.
Proof.
  apply (prod_condvar_completes [lit "2"; lit "1"] demo_state).
  - by repeat (apply Forall_cons; split; [by vm_compute|]).
  - done.
  - apply (run_all_reachable fire demo_events _ (start [lit "2"; lit "1"])); [apply reach_start|].
    by vm_compute.
Defined.

(** Without units to wait for, main sleeps for ever. *)
Example no_units_hangs :
  exists st, run_all fire [Run Main; Run Main; Run Main] (start []) = Some st /\
    forall t, run_thread t st = None.
Proof. eexists. split; [reflexivity|]. by intros [|i]. Qed.

(** More units than an int can hold: adding them up overflows. *)
Example total_overflows :
  pc <$> run_all fire [Run Main; Run Main] (start [lit "2147483647"; lit "1"]) = Some MUndef.
Proof. vm_compute. reflexivity. Qed.
