(* ===== verification/ThreadIncr.v ===== *)
(** Five programs in which two threads increment a global variable:
    threads/thread_incr.c, thread_incr_mutex.c, thread_incr_spinlock.c,
    thread_incr_rwlock.c and psem/thread_incr_psem.c (src/tlpi-dist). They differ
    in what guards the increment: [Guard] is the pair of calls around it, the
    five programs are its instances.

    One event runs one thread between two accesses to what is shared; a read or
    a write of the variable is one access. *)
From Stdlib Require Import ZArith Lia Ascii String.
From stdpp Require Import base tactics list strings.
From S2P Require Import Prelude CString Transitions.
#[local] Open Scope Z_scope.

(** ** Guards *)

(** What the threads call before and after the increment, if anything. *)
Class Guard (L : Type) := {
  locks : bool;
  unlocked : L;
  acquire : nat -> L -> option L;
  release : nat -> L -> L
}.

(** What makes a guard a lock. *)
Class GuardLaws (L : Type) {G : Guard L} := {
  free : L -> Prop;
  busy : L -> Prop;
  gl_locks : locks = true;
  gl_unlocked : free unlocked;
  gl_acquire i l : free l -> exists l', acquire i l = Some l' /\ busy l';
  gl_wait i l : busy l -> acquire i l = None;
  gl_release i l : busy l -> free (release i l)
}.

(** thread_incr.c *)
Inductive no_guard := NoGuard.
Definition no_guard_calls : Guard no_guard :=
  {| locks := false; unlocked := NoGuard; acquire := fun _ l => Some l; release := fun _ l => l |}.
#[export] Existing Instance no_guard_calls.

(** A mutex or a spinlock: its owner. *)
Definition mutex : Type := option nat.
Definition mutex_calls : Guard mutex :=
  {| locks := true; unlocked := None;
    acquire := fun i l => match l with None => Some (Some i) | Some _ => None end; release := fun _ _ => None |}.
#[export] Existing Instance mutex_calls.

(** A read/write lock, locked for writing. *)
Record rwlock := RwLock { writer : option nat; readers : nat }.
Definition rwlock_calls : Guard rwlock :=
  {| locks := true; unlocked := RwLock None 0;
    acquire := fun i l => match l with RwLock None O => Some (RwLock (Some i) 0) | _ => None end;
    release := fun _ l => RwLock None (readers l) |}.
#[export] Existing Instance rwlock_calls.

(** A semaphore, initialised to 1. *)
Record sem := Sem { sem_value : Z }.
Definition sem_calls : Guard sem :=
  {| locks := true; unlocked := Sem 1;
    acquire := fun _ l => if 0 <? sem_value l then Some (Sem (sem_value l - 1)) else None;
    release := fun _ l => Sem (sem_value l + 1) |}.
#[export] Existing Instance sem_calls.

#[export] Instance mutex_laws : GuardLaws mutex.
Proof.
  refine {| free l := l = None; busy l := l <> None |}; try done.
  - intros i l ->. by exists (Some i).
  - by intros i [o|].
Defined.

#[export] Instance rwlock_laws : GuardLaws rwlock.
Proof.
  refine {| free l := l = RwLock None 0; busy l := readers l = 0%nat /\ writer l <> None |}; try done.
  - intros i l ->. by exists (RwLock (Some i) 0).
  - by intros i [[o|] [|n]] [].
  - by intros i [w n] [Hn _]; simpl in *; subst.
Defined.

#[export] Instance sem_laws : GuardLaws sem.
Proof.
  refine {| free l := sem_value l = 1; busy l := sem_value l = 0 |}; try done.
  - intros i [v] Hv. simpl in *. subst. by exists (Sem 0).
  - intros i [v] Hv. simpl in *. by subst.
  - intros i [v] Hv. simpl in *. lia.
Defined.

(** ** The program *)

(** Where a thread is: at the head of its loop, at the call before the
    increment, reading, incrementing and writing, at the call after it. *)
Inductive incr_pc := ILoop | IWait | IRead | IAdd | IWrite | IPost | IDone.
Record incr := Incr { i_pc : incr_pc; i_j : Z; i_loc : Z }.

(** [MUndefined]: the increment has overflowed. *)
Inductive main_pc := MCreate1 | MCreate2 | MJoin1 | MJoin2 | MPrint | MExit (k : exit_kind) | MUndefined.

Section Code.
Context {L : Type} {G : Guard L} (loops : Z).

Record state := State {
  lock : L;
  glob : Z;
  pc : main_pc;
  threads : list incr;
  out : cstr
}.

Definition start : state := State unlocked 0 MCreate1 [] [].

(** One step of threadFunc in thread [i]. *)
Definition run_incr (i : nat) (st : state) : option state :=
  match threads st !! i with
  | None => None
  | Some (Incr p j loc) =>
      let goto l g q := Some (State l g (pc st) (<[i := q]> (threads st)) (out st)) in
      let stay q := goto (lock st) (glob st) q in
      match p with
      | ILoop => stay (Incr (if j <? loops then if locks then IWait else IRead else IDone) j loc)
      | IWait =>
          match acquire i (lock st) with
          | Some l => goto l (glob st) (Incr IRead j loc)
          | None => None
          end
      | IRead => stay (Incr IAdd j (glob st))
      | IAdd =>
          if loc <? INT_MAX then stay (Incr IWrite j (loc + 1))
          else Some (State (lock st) (glob st) MUndefined (threads st) (out st))
      | IWrite => goto (lock st) loc (if locks then Incr IPost j loc else Incr ILoop (j + 1) loc)
      | IPost => goto (release i (lock st)) (glob st) (Incr ILoop (j + 1) loc)
      | IDone => None
      end
  end.

Definition is_done (i : nat) (st : state) : bool :=
  match threads st !! i with Some (Incr IDone _ _) => true | _ => false end.

Definition glob_text (v : Z) : cstr := lit "glob = " ++ show_Z v ++ [NEWLINE].

(** One step of main after it has read [loops]. *)
Definition run_main (st : state) : option state :=
  let goto m l := Some (State (lock st) (glob st) m l (out st)) in
  let join i m := if is_done i st then goto m (threads st) else None in
  match pc st with
  | MCreate1 => goto MCreate2 (threads st ++ [Incr ILoop 0 0])
  | MCreate2 => goto MJoin1 (threads st ++ [Incr ILoop 0 0])
  | MJoin1 => join 0%nat MJoin2
  | MJoin2 => join 1%nat MPrint
  | MPrint => Some (State (lock st) (glob st) (MExit EXIT_SUCCESS) (threads st) (out st ++ glob_text (glob st)))
  | MExit _ | MUndefined => None
  end.

(** A thread runs only while the process lives. *)
Definition run (t : tid) (st : state) : option state :=
  match pc st, t with
  | MExit _, _ | MUndefined, _ => None
  | _, Main => run_main st
  | _, Thread i => run_incr i st
  end.

(** A call that fails, which ends the process: of main, or of a thread on its
    guard. *)
Inductive event := Run (t : tid) | MainFails | GuardFails (i : nat).

Definition failed (st : state) : state :=
  State (lock st) (glob st) (MExit EXIT_FAILURE) (threads st) (out st).

Definition fire (e : event) (st : state) : option state :=
  match e with
  | Run t => run t st
  | MainFails =>
      match pc st with MCreate1 | MCreate2 | MJoin1 | MJoin2 => Some (failed st) | _ => None end
  | GuardFails i =>
      match pc st, threads st !! i with
      | (MExit _ | MUndefined), _ => None
      | _, Some (Incr (IWait | IPost) _ _) => Some (failed st)
      | _, _ => None
      end
  end.

End Code.
Arguments state : clear implicits.
Arguments State {L} lock glob pc threads out.

(** ** What every variant keeps *)

(** The increments of a thread that are in the variable. *)
Definition writes (p : incr) : Z := i_j p + (match i_pc p with IPost => 1 | _ => 0 end).

Section Shape.
Context {L : Type} {G : Guard L} (loops : Z).
Implicit Types (st : state L).

Definition incr_ok (p : incr) : Prop :=
  0 <= i_j p <= loops /\
  match i_pc p with ILoop => True | IDone => i_j p = loops | _ => i_j p < loops end.

Definition created (m : main_pc) : nat := match m with MCreate1 => 0 | MCreate2 => 1 | _ => 2 end.
Definition joined (m : main_pc) : nat := match m with MJoin2 => 1 | MPrint => 2 | _ => 0 end.

Definition incr_work (p : incr) : Z :=
  6 * (loops - i_j p) +
  match i_pc p with ILoop => 1 | IWait => 0 | IRead => -1 | IAdd => -2 | IWrite => -3 | IPost => -4 | IDone => 0 end.
Definition main_work (m : main_pc) : Z :=
  match m with
  | MCreate1 => 5 + 2 * (6 * loops + 2) | MCreate2 => 4 + (6 * loops + 2)
  | MJoin1 => 3 | MJoin2 => 2 | MPrint => 1 | _ => 0
  end.
Definition work st : Z := sumZ incr_work (threads st) + main_work (pc st).

(** A variant's own invariant [V] of the lock, the variable and the threads,
    and [P] for the value at the end. *)
Record variant (V : L -> Z -> list incr -> Prop) (P : Z -> Prop) : Prop := {
  v_start : V unlocked 0 [];
  v_new l g ts : V l g ts -> V l g (ts ++ [Incr ILoop 0 0]);
  v_step i st st' : V (lock st) (glob st) (threads st) -> (length (threads st) <= 2)%nat ->
    Forall incr_ok (threads st) -> run_incr loops i st = Some st' ->
    pc st' = pc st /\ V (lock st') (glob st') (threads st');
  v_runs st i p : V (lock st) (glob st) (threads st) -> Forall incr_ok (threads st) ->
    threads st !! i = Some p -> i_pc p <> IDone -> exists k, is_Some (run_incr loops k st);
  v_end l g ts : V l g ts -> length ts = 2%nat -> Forall (fun p => writes p = loops) ts -> P g
}.

Definition printed (P : Z -> Prop) st : Prop :=
  pc st = MExit EXIT_SUCCESS /\ exists v, P v /\ out st = glob_text v.

Record inv (V : L -> Z -> list incr -> Prop) (P : Z -> Prop) st : Prop := {
  inv_ok : Forall incr_ok (threads st);
  inv_variant : V (lock st) (glob st) (threads st);
  inv_created : length (threads st) = created (pc st);
  inv_joined i : (i < joined (pc st))%nat -> is_done i st = true;
  inv_end : match pc st with MExit _ => printed P st | MUndefined => False | _ => out st = [] end
}.

Context (Hloops : 0 < loops) {V : L -> Z -> list incr -> Prop} {P : Z -> Prop} (HV : variant V P).

Lemma is_done_spec i st : is_done i st = true <-> exists p, threads st !! i = Some p /\ i_pc p = IDone.
Proof.
  unfold is_done. split.
  - destruct (threads st !! i) as [[[] j l]|] eqn:Hi; try done. by exists (Incr IDone j l).
  - intros ([q j l] & -> & Hq). simpl in Hq. by subst.
Qed.

(** What one step of a thread does to the list of threads. *)
Lemma run_incr_thread i st st' : run_incr loops i st = Some st' -> pc st' = pc st -> pc st <> MUndefined ->
  exists p q, threads st !! i = Some p /\ threads st' = <[i := q]> (threads st) /\ i_pc p <> IDone /\
    out st' = out st /\ incr_work q < incr_work p /\ (incr_ok p -> incr_ok q).
Proof.
  unfold run_incr. destruct (threads st !! i) as [[p j l]|] eqn:Hi; [|done]. unfold incr_ok, incr_work.
  destruct p; try done; repeat case_match; intros [= <-] Hpc Hn; simpl in *; try congruence;
    eexists _, _; (split; [done|]); split_and!; try done; simpl; try lia; intros; try lia.
Qed.

Lemma run_keeps_inv t st st' : inv V P st -> run loops t st = Some st' ->
  inv V P st' /\ work st' < work st.
Proof.
  intros Hi Hr. pose proof Hi as [Hok Hv Hc Hj He].
  assert (Hlive : forall k, pc st <> MExit k) by (intros k Hk; unfold run in Hr; by rewrite Hk in Hr).
  assert (Hund : pc st <> MUndefined) by (intros Hk; by rewrite Hk in He).
  assert (Hrun : match t with Main => run_main st | Thread i => run_incr loops i st end = Some st')
    by (unfold run in Hr; destruct (pc st), t; try done; by destruct (Hlive k)).
  clear Hr. destruct t as [|i].
  - unfold work. unfold run_main in Hrun.
    destruct (pc st) eqn:Hpc; simpl in *; try done; try (by destruct (Hlive k));
      try (case_match eqn:Hd; [|done]); injection Hrun as <-; simpl.
    + assert (threads st = []) as Ht by by apply length_zero_iff_nil. rewrite Ht in *. split; [|unfold incr_work; simpl; lia].
      split; simpl; try done; [|by apply (v_new _ _ HV _ _ [])|by intros k ?%Nat.nlt_0_r].
      repeat constructor; simpl; lia.
    + split; [|rewrite sumZ_app; unfold incr_work at 2; simpl; lia].
      split; simpl; try done; [|by apply (v_new _ _ HV)|by rewrite length_app, Hc|by intros k ?%Nat.nlt_0_r].
      apply Forall_app_2; [done|]. repeat constructor; simpl; lia.
    + split; [|lia]. split; simpl; try done. intros k Hk. assert (k = 0)%nat as -> by lia. done.
    + split; [|lia]. split; simpl; try done. intros k Hk. destruct (decide (k = 1)%nat) as [->|]; [done|].
      apply (Hj k). lia.
    + split; [|lia]. split; simpl; try done; [by intros k ?%Nat.nlt_0_r|]. split; [done|].
      exists (glob st). rewrite He. split; [|done]. apply (v_end _ _ HV _ _ _ Hv Hc).
      apply Forall_lookup. intros k p Hk.
      assert (Hd : is_done k st = true) by (apply Hj; apply lookup_lt_Some in Hk; lia).
      apply is_done_spec in Hd as (q & Hq & Hqd). rewrite Hk in Hq. injection Hq as <-.
      rewrite Forall_lookup in Hok. apply Hok in Hk. unfold incr_ok, writes in *. rewrite Hqd in *. lia.
  - destruct (v_step _ _ HV i st st' Hv) as [Hpc Hv']; [rewrite Hc; destruct (pc st); simpl; lia|done..|].
    destruct (run_incr_thread i st st' Hrun Hpc Hund) as (p & q & Hp & Ht & Hd & Ho & Hw & Hq).
    split; [|unfold work; rewrite Ht, Hpc, (sumZ_insert _ _ _ _ _ Hp); lia].
    split; rewrite ?Hpc, ?Ho; try done.
    + rewrite Ht. apply Forall_insert; [done|]. apply Hq. by eapply Forall_lookup_1.
    + by rewrite Ht, length_insert.
    + intros k Hk. specialize (Hj k Hk). apply is_done_spec. apply is_done_spec in Hj as (r & Hr & Hrd).
      rewrite Ht. destruct (decide (k = i)) as [->|Hne]; [congruence|]. exists r.
      by rewrite list_lookup_insert_ne by done.
    + destruct (pc st); try done. by destruct (Hlive k).
Qed.

Lemma inv_progress st : inv V P st ->
  (exists t, is_Some (run loops t st)) \/ (forall t, run loops t st = None) /\ printed P st.
Proof.
  intros [Hok Hv Hc Hj He].
  assert (Hth : forall i, (forall k, pc st <> MExit k) -> (i < length (threads st))%nat -> is_done i st = false ->
    exists t, is_Some (run loops t st)).
  { intros i Hl Hlt Hd. apply lookup_lt_is_Some in Hlt as [p Hp].
    destruct (v_runs _ _ HV st i p Hv Hok Hp) as [k Hk].
    { intros Hpd. enough (is_done i st = true) by congruence. apply is_done_spec. eauto. }
    exists (Thread k). unfold run. destruct (pc st); try done. by destruct (Hl k0). }
  destruct (pc st) eqn:Hpc; simpl in *; try done.
  - left. exists Main. unfold run, run_main. rewrite Hpc. by eexists.
  - left. exists Main. unfold run, run_main. rewrite Hpc. by eexists.
  - left. destruct (is_done 0 st) eqn:Hd; [|by apply (Hth 0%nat); [done|lia|]].
    exists Main. unfold run, run_main. rewrite Hpc, Hd. by eexists.
  - left. destruct (is_done 1 st) eqn:Hd; [|by apply (Hth 1%nat); [done|lia|]].
    exists Main. unfold run, run_main. rewrite Hpc, Hd. by eexists.
  - left. exists Main. unfold run, run_main. rewrite Hpc. by eexists.
  - right. split; [|done]. intros t. unfold run. by rewrite Hpc.
Qed.

(** Every variant: from any state reached, either a call has failed or every
    schedule ends with a value in [P] printed. *)
Lemma variant_ends st : reachable (fire loops) start st ->
  pc st = MExit EXIT_FAILURE \/ always_ends (run loops) (printed P) st.
Proof.
  intros Hr. enough (pc st = MExit EXIT_FAILURE \/ inv V P st) as [|Hi]; [by left| |].
  { right. apply (ends_by_work (run loops) (inv V P) (printed P) work); [| | |done].
    - intros s [Hok _ _ _ _]. unfold work. assert (0 <= sumZ incr_work (threads s)).
      { apply sumZ_nonneg. intros p Hp. rewrite Forall_forall in Hok. specialize (Hok p Hp).
        unfold incr_ok, incr_work in *. destruct (i_pc p); lia. }
      destruct (pc s); simpl; lia.
    - intros t s s' Hs Ht. by apply (run_keeps_inv t).
    - apply inv_progress. }
  revert Hr. apply (reachable_ind_inv _ (fun s => pc s = MExit EXIT_FAILURE \/ inv V P s)).
  - right. split; simpl; try done; [by apply (v_start _ _ HV)|by intros i ?%Nat.nlt_0_r].
  - intros e s s' [Hf|Hi] Hs.
    + left. destruct e as [t| |i]; simpl in Hs; [unfold run in Hs|..]; by rewrite Hf in Hs.
    + destruct e as [t| |i]; simpl in Hs.
      * right. by apply (run_keeps_inv t s).
      * left. destruct (pc s); by simplify_eq.
      * left. repeat case_match; by simplify_eq.
Qed.

End Shape.

Lemma writes_room loops ts i p : Forall (incr_ok loops) ts -> (length ts <= 2)%nat ->
  ts !! i = Some p -> writes p < loops -> sumZ writes ts < 2 * loops.
Proof.
  intros Hok Hl Hi Hp. assert (Hw : forall q, q ∈ ts -> writes q <= loops).
  { intros q Hq. rewrite Forall_forall in Hok. specialize (Hok q Hq). unfold incr_ok, writes in *.
    destruct (i_pc q); lia. }
  assert (Hpos : 0 <= loops).
  { rewrite Forall_lookup in Hok. apply Hok in Hi. unfold incr_ok in Hi. lia. }
  pose proof (Hw p ltac:(by eapply list_elem_of_lookup_2)).
  destruct ts as [|a [|b [|]]]; simpl in *; [done| | |lia].
  - pose proof (Hw a ltac:(by left)). destruct i as [|i]; simpl in Hi; simplify_eq. lia.
  - pose proof (Hw a ltac:(by left)). pose proof (Hw b ltac:(by right; left)).
    destruct i as [|[|i]]; simpl in Hi; simplify_eq; lia.
Qed.

(** ** With a lock *)

Definition in_section (p : incr) : bool :=
  match i_pc p with IRead | IAdd | IWrite | IPost => true | _ => false end.

Section Guarded.
Context {L : Type} {G : Guard L} {GL : GuardLaws L} (loops : Z).

Record exact (l : L) (g : Z) (ts : list incr) : Prop := {
  ex_owner : exists m, holds in_section m ts /\ match m with None => free l | Some _ => busy l end;
  ex_value : g = sumZ writes ts;
  ex_copies i p : ts !! i = Some p ->
    match i_pc p with IAdd => i_loc p = g | IWrite => i_loc p = g + 1 | _ => True end
}.

(** A thread in the section moves on in it. *)
Lemma exact_move l g g' ts i p q : exact l g ts -> ts !! i = Some p -> in_section p = true ->
  in_section q = true -> g' = g + writes q - writes p ->
  match i_pc q with IAdd => i_loc q = g' | IWrite => i_loc q = g' + 1 | _ => True end ->
  exact l g' (<[i := q]> ts).
Proof.
  intros [(m & Hm & Hl) Hg Hcp] Hi Hp Hq Hg' Hc.
  assert (m = Some i) as -> by by apply (holds_owner _ _ _ _ _ Hm Hi).
  split.
  - exists (Some i). split; [by apply (holds_keep _ _ _ _ p); [done|done|congruence]|done].
  - rewrite (sumZ_insert _ _ _ _ _ Hi). lia.
  - intros k x Hx. destruct (lookup_insert_cases _ _ _ _ _ _ Hi Hx) as [[-> ->]|[Hne Hx']]; [done|].
    assert (in_section x = false) as Hxs.
    { destruct (in_section x) eqn:Ho; [|done]. pose proof (holds_owner _ _ _ _ _ Hm Hx' Ho). congruence. }
    unfold in_section in Hxs. by destruct (i_pc x).
Qed.

(** A thread enters, leaves or stays outside. *)
Lemma exact_outside l l' g ts i p q m' : exact l g ts -> ts !! i = Some p -> writes q = writes p ->
  holds in_section m' (<[i := q]> ts) -> match m' with None => free l' | Some _ => busy l' end ->
  match i_pc q with IAdd | IWrite => False | _ => True end -> exact l' g (<[i := q]> ts).
Proof.
  intros [_ Hg Hcp] Hi Hw Hm' Hl' Hq. split; [by exists m'|rewrite (sumZ_insert _ _ _ _ _ Hi); lia|].
  intros k x Hx. destruct (lookup_insert_cases _ _ _ _ _ _ Hi Hx) as [[-> ->]|[Hne Hx']]; [|by apply Hcp in Hx'].
  by destruct (i_pc q).
Qed.

Lemma guarded_step i (st st' : state L) : 2 * loops <= INT_MAX ->
  exact (lock st) (glob st) (threads st) -> (length (threads st) <= 2)%nat ->
  Forall (incr_ok loops) (threads st) -> run_incr loops i st = Some st' ->
  pc st' = pc st /\ exact (lock st') (glob st') (threads st').
Proof.
  intros Hmax HE Hlen Hok. unfold run_incr. destruct (threads st !! i) as [[p j loc]|] eqn:Hi; [|done].
  pose proof HE as [(m & Hm & Hl) Hg Hcp]. specialize (Hcp i _ Hi). rewrite gl_locks.
  destruct p; simpl in Hcp.
  - intros [= <-]. split; [done|]. eapply (exact_outside _ _ _ _ _ _ _ m); [done|done|..]; simpl.
    + unfold writes. simpl. by destruct (_ <? _).
    + eapply holds_keep; [done|done|]. unfold in_section. simpl. by destruct (_ <? _).
    + done.
    + by destruct (_ <? _).
  - destruct m as [o|]; [by rewrite (gl_wait i _ Hl)|].
    destruct (gl_acquire i _ Hl) as (l' & -> & Hb). intros [= <-]. split; [done|].
    by eapply (exact_outside _ _ _ _ _ _ _ (Some i)); [done|done| |by eapply holds_take| |].
  - intros [= <-]. split; [done|]. by eapply exact_move; [done|done|..]; unfold writes; simpl; try lia.
  - pose proof (writes_room loops _ i _ Hok Hlen Hi) as Hroom.
    assert (Hj : j < loops) by (rewrite Forall_lookup in Hok; apply Hok in Hi; unfold incr_ok in Hi; simpl in Hi; lia).
    unfold writes in Hroom at 1. simpl in Hroom. specialize (Hroom ltac:(lia)).
    rewrite (proj2 (Z.ltb_lt _ _)) by (rewrite Hcp, Hg; lia).
    intros [= <-]. split; [done|]. eapply exact_move; [done|done|..]; unfold writes; simpl; try done; lia.
  - intros [= <-]. split; [done|]. eapply exact_move; [done|done|..]; unfold writes; simpl; try done; lia.
  - intros [= <-]. split; [done|].
    assert (m = Some i) as -> by by apply (holds_owner _ _ _ _ _ Hm Hi).
    eapply (exact_outside _ _ _ _ _ _ _ None); [done|done| |by eapply holds_leave|by apply gl_release|done].
    unfold writes. simpl. lia.
  - done.
Qed.

Lemma guarded_variant : 2 * loops <= INT_MAX -> variant loops exact (fun v => v = 2 * loops).
Proof.
  intros Hmax. split.
  - split; [exists None; split; [by apply holds_start, Forall_nil|apply gl_unlocked]|done|].
    intros i p. by rewrite lookup_nil.
  - intros l g ts [(m & Hm & Hl) Hg Hcp]. split.
    + exists m. split; [by apply holds_app|done].
    + rewrite sumZ_app. unfold writes at 2. simpl. lia.
    + intros i p [Hp|[_ Hp]]%lookup_app_Some; [by apply (Hcp i)|].
      by apply list_lookup_singleton_Some in Hp as [_ <-].
  - intros i st st'. by apply guarded_step.
  - intros st i p [(m & Hm & Hl) _ Hcp] Hok Hi Hd.
    assert (Hgo : forall k x, threads st !! k = Some x -> i_pc x <> IDone -> (i_pc x = IWait -> free (lock st)) ->
      is_Some (run_incr loops k st)).
    { intros k [q j loc] Hk Hx Hw. unfold run_incr. rewrite Hk. destruct q; simpl in *; eauto; try done.
      - destruct (gl_acquire k _ (Hw eq_refl)) as (l' & -> & _). eauto.
      - destruct (_ <? _); eauto. }
    destruct m as [o|]; [|exists i; by apply (Hgo i p Hi Hd)].
    destruct (proj1 (Hm o) eq_refl) as (x & Hx & Hxo). exists o. apply (Hgo o x Hx);
      intros E; unfold in_section in Hxo; by rewrite E in Hxo.
  - intros l g ts [_ -> _] Hl Hw. destruct ts as [|a [|b [|]]]; try done. simpl.
    rewrite !Forall_cons in Hw. lia.
Qed.

End Guarded.

(** ** Without a lock *)

Section Unguarded.
Context (loops : Z) (Hloops : 0 < loops).

(** A thread has read and is to write something that is not above the number
    of increments so far, and not 0 after its own first one. *)
Definition copy_ok (total : Z) (p : incr) : Prop :=
  match i_pc p with
  | IAdd => 0 <= i_loc p <= total /\ (0 < i_j p -> 1 <= i_loc p)
  | IWrite => 1 <= i_loc p <= total + 1 /\ (0 < i_j p -> 2 <= i_loc p)
  | _ => True
  end.

Record between (l : no_guard) (g : Z) (ts : list incr) : Prop := {
  bt_value : 0 <= g <= sumZ writes ts;
  bt_copies i p : ts !! i = Some p -> copy_ok (sumZ writes ts) p;
  bt_one i p : ts !! i = Some p -> 0 < writes p -> 1 <= g;
  bt_two : ts <> [] -> Forall (fun p => writes p = loops) ts -> Z.min 2 loops <= g
}.

Lemma copy_ok_mono a b p : a <= b -> copy_ok a p -> copy_ok b p.
Proof. unfold copy_ok. destruct (i_pc p); lia. Qed.

(** A step that writes nothing. *)
Lemma between_move l g ts i p q : between l g ts -> ts !! i = Some p -> writes q = writes p ->
  copy_ok (sumZ writes ts) q -> between l g (<[i := q]> ts).
Proof.
  intros [Hg Hcp H1 H2] Hi Hw Hq.
  assert (Hs : sumZ writes (<[i := q]> ts) = sumZ writes ts) by (rewrite (sumZ_insert _ _ _ _ _ Hi); lia).
  split; rewrite ?Hs; try done.
  - intros k x Hx. destruct (lookup_insert_cases _ _ _ _ _ _ Hi Hx) as [[_ ->]|[_ Hx']]; [done|by apply (Hcp k)].
  - intros k x Hx Hpos. destruct (lookup_insert_cases _ _ _ _ _ _ Hi Hx) as [[_ ->]|[_ Hx']];
      [apply (H1 i p Hi); lia|by apply (H1 k x)].
  - intros _ Hall. apply H2; [by intros ->|]. rewrite <-(list_insert_id ts i p Hi).
    rewrite <-(list_insert_insert_eq ts i p q). apply Forall_insert; [done|].
    rewrite Forall_lookup in Hall. rewrite <-Hw. apply (Hall i). apply list_lookup_insert_eq. by eapply lookup_lt_Some.
Qed.

Lemma unguarded_step i (st st' : state no_guard) : 2 * loops <= INT_MAX ->
  between (lock st) (glob st) (threads st) -> (length (threads st) <= 2)%nat ->
  Forall (incr_ok loops) (threads st) -> run_incr loops i st = Some st' ->
  pc st' = pc st /\ between (lock st') (glob st') (threads st').
Proof.
  intros Hmax HB Hlen Hok. unfold run_incr. destruct (threads st !! i) as [[p j loc]|] eqn:Hi; [|done].
  pose proof HB as [Hg Hcp H1 H2]. specialize (Hcp i _ Hi). specialize (H1 i _ Hi). unfold writes in H1.
  assert (Hj : incr_ok loops (Incr p j loc)) by (by rewrite Forall_lookup in Hok; apply Hok in Hi).
  unfold incr_ok in Hj. unfold copy_ok in Hcp.
  destruct p; simpl in *.
  - intros [= <-]. split; [done|]. eapply between_move; [done|done|..]; unfold writes, copy_ok; simpl;
      by destruct (_ <? _).
  - intros [= <-]. split; [done|]. by eapply between_move.
  - intros [= <-]. split; [done|]. eapply between_move; [done|done|unfold writes; simpl; lia|unfold copy_ok; simpl; lia].
  - pose proof (writes_room loops _ i _ Hok Hlen Hi) as Hroom. unfold writes in Hroom at 1. simpl in Hroom.
    specialize (Hroom ltac:(lia)). rewrite (proj2 (Z.ltb_lt _ _)) by lia.
    intros [= <-]. split; [done|]. eapply between_move; [done|done|unfold writes; simpl; lia|unfold copy_ok; simpl; lia].
  - intros [= <-]. split; [done|]. simpl.
    assert (Hs : sumZ writes (<[i:=Incr ILoop (j + 1) loc]> (threads st)) = sumZ writes (threads st) + 1)
      by (rewrite (sumZ_insert _ _ _ _ _ Hi); unfold writes at 2 3; simpl; lia).
    split; rewrite ?Hs; try lia.
    + intros k x Hx. destruct (lookup_insert_cases _ _ _ _ _ _ Hi Hx) as [[_ ->]|[_ Hx']]; [done|].
      by apply (copy_ok_mono (sumZ writes (threads st))); [lia|apply (bt_copies _ _ _ HB k)].
    + intros _ Hall. rewrite Forall_lookup in Hall.
      specialize (Hall i (Incr ILoop (j + 1) loc)). unfold writes in Hall. simpl in Hall.
      rewrite list_lookup_insert_eq in Hall by by eapply lookup_lt_Some. specialize (Hall eq_refl). lia.
  - intros [= <-]. split; [done|]. eapply between_move; [done|done|unfold writes; simpl; lia|unfold copy_ok; simpl; lia].
  - done.
Qed.

Lemma unguarded_variant : 2 * loops <= INT_MAX ->
  variant loops between (fun v => Z.min 2 loops <= v <= 2 * loops).
Proof.
  intros Hmax. split.
  - split; simpl; try lia; try done; intros i p; by rewrite lookup_nil.
  - intros l g ts [Hg Hcp H1 H2].
    assert (Hs : sumZ writes (ts ++ [Incr ILoop 0 0]) = sumZ writes ts)
      by (rewrite sumZ_app; unfold writes at 2; simpl; lia).
    split; rewrite ?Hs; try done.
    + intros i p [Hp|[_ Hp]]%lookup_app_Some; [by apply (Hcp i)|].
      by apply list_lookup_singleton_Some in Hp as [_ <-].
    + intros i p [Hp|[_ Hp]]%lookup_app_Some; [by apply (H1 i)|].
      by apply list_lookup_singleton_Some in Hp as [_ <-].
    + intros _ [_ Hn]%Forall_app. apply Forall_inv in Hn. unfold writes in Hn. simpl in Hn. lia.
  - intros i st st'. by apply unguarded_step.
  - intros st i [p j loc] _ _ Hi Hd. exists i. unfold run_incr. rewrite Hi.
    destruct p; simpl in *; eauto; try done. destruct (_ <? _); eauto.
  - intros l g ts [Hg _ _ H2] Hl Hw. split; [apply H2; [by intros ->|done]|].
    destruct ts as [|a [|b [|]]]; try done. simpl in Hg. rewrite !Forall_cons in Hw. lia.
Qed.

End Unguarded.

(** ** The theorems *)

(** With a mutex, a spinlock, a read/write lock or a semaphore around the
    increment, no update is lost: whatever schedule has led to a state, unless
    a call has failed every way to go on ends, and ends with the program
    successful and twice the number of loops printed. No thread waits for ever
    and the variable does not overflow, provided that twice the number of
    loops is an int. *)
Theorem guarded_increments_all {L : Type} {G : Guard L} {GL : GuardLaws L} (loops : Z) (st : state L) :
  0 < loops -> 2 * loops <= INT_MAX -> reachable (fire loops) start st ->
  pc st = MExit EXIT_FAILURE \/
  always_ends (run loops)
    (fun st' => pc st' = MExit EXIT_SUCCESS /\ out st' = glob_text (2 * loops)) st.
Proof.
  intros H0 Hmax Hr. destruct (variant_ends loops H0 (guarded_variant loops Hmax) st Hr) as [Hf|He]; [by left|right].
  apply (always_ends_weaken _ _ _ _ He). intros s [Hp (v & -> & Ho)]. done.
Qed.

(** Without a guard updates are lost, but not all of them: every schedule
    ends, with the program successful and a value printed that is between 2
    (or 1, for a single loop) and twice the number of loops. *)
Theorem unguarded_bounds (loops : Z) (st : state no_guard) :
  0 < loops -> 2 * loops <= INT_MAX -> reachable (fire loops) start st ->
  pc st = MExit EXIT_FAILURE \/
  always_ends (run loops)
    (fun st' => pc st' = MExit EXIT_SUCCESS /\
       exists v, Z.min 2 loops <= v <= 2 * loops /\ out st' = glob_text v) st.
Proof.
  intros H0 Hmax Hr. exact (variant_ends loops H0 (unguarded_variant loops H0 Hmax) st Hr).
Qed.

(** ** Runs *)

Definition steps (n : nat) (t : tid) : list event := replicate n (Run t).

Definition mutex_events : list event := steps 2 Main ++ steps 3 (Thread 1) ++ steps 1 (Thread 0).
Definition mutex_state : state mutex := default start (run_all (fire 2) mutex_events start).

Lemma guarded_increments_all_witness :
  lock mutex_state = Some 1%nat /\
  (pc mutex_state = MExit EXIT_FAILURE \/
   always_ends (run 2)
     (fun st' => pc st' = MExit EXIT_SUCCESS /\ out st' = glob_text 4) mutex_state).
Proof.
  split; [by vm_compute|]. apply (guarded_increments_all 2 mutex_state); [lia|by vm_compute|].
  apply (run_all_reachable (fire 2) mutex_events _ start); [apply reach_start|by vm_compute].
Defined.

(** With three loops each: the first thread reads 0 and the second increments
    twice; then the second reads the 1 that the first writes, and writes last. *)
Definition lossy_events : list event :=
  steps 2 Main ++ steps 2 (Thread 0) ++ steps 8 (Thread 1) ++ steps 2 (Thread 0) ++ steps 2 (Thread 1).
Definition lossy_state : state no_guard := default start (run_all (fire 3) lossy_events start).

Lemma unguarded_bounds_witness :
  glob lossy_state = 1 /\
  (pc lossy_state = MExit EXIT_FAILURE \/
   always_ends (run 3)
     (fun st' => pc st' = MExit EXIT_SUCCESS /\ exists v, Z.min 2 3 <= v <= 2 * 3 /\ out st' = glob_text v)
     lossy_state).
Proof.
  split; [by vm_compute|]. apply (unguarded_bounds 3 lossy_state); [lia|by vm_compute|].
  apply (run_all_reachable (fire 3) lossy_events _ start); [apply reach_start|by vm_compute].
Defined.

(** The lower bound is reached: this run goes on to print 2. *)
Example two_of_six :
  exists st, run_all (fire 3) (steps 9 (Thread 0) ++ steps 3 (Thread 1) ++ steps 3 Main) lossy_state = Some st /\
    pc st = MExit EXIT_SUCCESS /\ out st = glob_text 2.
Proof. eexists. split; [vm_compute; reflexivity|]. by split. Qed.

(** getInt accepts numbers of loops whose double is not an int: the increment
    of INT_MAX is undefined. *)
Example increment_overflows :
  exists st, run_incr INT_MAX 0 (State NoGuard INT_MAX MJoin1 [Incr IAdd 1073741824 INT_MAX] []) = Some st /\
    pc st = MUndefined.
Proof. eexists. by vm_compute. Qed.
