(* ===== verification/OnceInit.v ===== *)
(** threads/one_time_init.c (src/tlpi-dist): a function that lets only the
    first of its callers run an initialisation, called twice in each of two
    threads, as a transition system with one event for each access to what is
    shared. *)
From Stdlib Require Import ZArith Lia Ascii String.
From stdpp Require Import base tactics list strings.
From S2P Require Import Prelude CString Transitions.
#[local] Open Scope Z_scope.

(** ** The program *)

(** In one_time_init: at the lock, the test of [called], the call of [init], the
    store to [called], the unlock; or the thread has ended. *)
Inductive once_pc := OLock | OTest | OInit | OSet | OUnlock | ODone.

(** [left]: the calls of one_time_init after the one at hand. *)
Record caller := Caller { o_pc : once_pc; left : nat }.

Inductive main_pc := MCreate1 | MCreate2 | MJoin1 | MJoin2 | MFinish | MExit (k : exit_kind).

(** [mtx] and [called] are the fields of [once]. *)
Record state := State {
  mtx : option nat;
  called : bool;
  pc : main_pc;
  threads : list caller;
  out : cstr
}.

Definition start : state := State None false MCreate1 [] [].

(** threadFunc before its first call. *)
Definition thread_start : caller := Caller OLock 1.

Definition init_line : cstr := lit "Called init_func()" ++ [NEWLINE].
Definition first_line : cstr := lit "First thread returned" ++ [NEWLINE].
Definition second_line : cstr := lit "Second thread returned" ++ [NEWLINE].

(** One step of thread [i]. *)
Definition run_caller (i : nat) (st : state) : option state :=
  match threads st !! i with
  | None => None
  | Some (Caller p n) =>
      let goto m c q o := Some (State m c (pc st) (<[i := q]> (threads st)) o) in
      match p with
      | OLock =>
          match mtx st with
          | None => goto (Some i) (called st) (Caller OTest n) (out st)
          | Some _ => None
          end
      | OTest => goto (mtx st) (called st) (Caller (if called st then OUnlock else OInit) n) (out st)
      | OInit => goto (mtx st) (called st) (Caller OSet n) (out st ++ init_line)
      | OSet => goto (mtx st) true (Caller OUnlock n) (out st)
      | OUnlock =>
          goto None (called st) (match n with O => Caller ODone 0 | S n => Caller OLock n end) (out st)
      | ODone => None
      end
  end.

Definition is_done (i : nat) (st : state) : bool :=
  match threads st !! i with Some (Caller ODone _) => true | _ => false end.

(** One step of main. *)
Definition run_main (st : state) : option state :=
  let goto m l o := Some (State (mtx st) (called st) m l o) in
  let join i m o := if is_done i st then goto m (threads st) (out st ++ o) else None in
  match pc st with
  | MCreate1 => goto MCreate2 (threads st ++ [thread_start]) (out st)
  | MCreate2 => goto MJoin1 (threads st ++ [thread_start]) (out st)
  | MJoin1 => join 0%nat MJoin2 first_line
  | MJoin2 => join 1%nat MFinish second_line
  | MFinish => goto (MExit EXIT_SUCCESS) (threads st) (out st)
  | MExit _ => None
  end.

Definition run (t : tid) (st : state) : option state :=
  match pc st, t with
  | MExit _, _ => None
  | _, Main => run_main st
  | _, Thread i => run_caller i st
  end.

(** A call of main that fails ends the program. One of pthread_mutex_lock that
    fails does not: the test that follows it compares its result, an error
    number, with -1. *)
Inductive event := Run (t : tid) | MainFails | LockFails (i : nat).

Definition fire (e : event) (st : state) : option state :=
  match e with
  | Run t => run t st
  | MainFails =>
      match pc st with
      | MExit _ | MFinish => None
      | _ => Some (State (mtx st) (called st) (MExit EXIT_FAILURE) (threads st) (out st))
      end
  | LockFails i =>
      match pc st, threads st !! i with
      | MExit _, _ => None
      | _, Some (Caller OLock n) =>
          Some (State (mtx st) (called st) (pc st) (<[i := Caller OTest n]> (threads st)) (out st))
      | _, _ => None
      end
  end.

(** Locking does not fail. *)
Definition fire_locked (e : event) (st : state) : option state :=
  match e with LockFails _ => None | _ => fire e st end.

(** ** The invariant *)

Definition in_section (p : caller) : bool :=
  match o_pc p with OTest | OInit | OSet | OUnlock => true | _ => false end.

(** What a thread's place says, [ran] being whether [init] has run. *)
Definition caller_ok (called ran : bool) (p : caller) : Prop :=
  (left p <= 1)%nat /\
  match o_pc p with
  | OLock | OTest => left p = 0%nat -> called = true
  | OInit => called = false /\ ran = false
  | OSet => called = false /\ ran = true
  | OUnlock | ODone => called = true /\ ran = true
  end.

Definition created (m : main_pc) : nat := match m with MCreate1 => 0 | MCreate2 => 1 | _ => 2 end.
Definition joined (m : main_pc) : nat := match m with MJoin2 => 1 | MFinish | MExit _ => 2 | _ => 0 end.
Definition main_lines (m : main_pc) : cstr :=
  match m with
  | MJoin2 => first_line | MFinish | MExit _ => first_line ++ second_line | _ => []
  end.

Record inv (st : state) : Prop := {
  inv_mutex : holds in_section (mtx st) (threads st);
  inv_callers : exists ran, out st = (if ran : bool then init_line else []) ++ main_lines (pc st) /\
    Forall (caller_ok (called st) ran) (threads st) /\ (called st = true -> ran = true) /\
    (called st = false -> ran = true -> exists i p, threads st !! i = Some p /\ o_pc p = OSet);
  inv_created : length (threads st) = created (pc st);
  inv_joined i : (i < joined (pc st))%nat -> is_done i st = true;
  inv_exit k : pc st = MExit k -> k = EXIT_SUCCESS
}.

Definition completed (st : state) : Prop :=
  pc st = MExit EXIT_SUCCESS /\ out st = init_line ++ first_line ++ second_line.

Lemma once_done_spec i st : is_done i st = true <-> exists p, threads st !! i = Some p /\ o_pc p = ODone.
Proof.
  unfold is_done. split.
  - destruct (threads st !! i) as [[[] n]|]; try done. by exists (Caller ODone n).
  - intros ([q n] & -> & Hq). simpl in Hq. by subst.
Qed.

(** Before [init] has run no thread has been joined. *)
Lemma not_ran_no_lines st called : inv st -> Forall (caller_ok called false) (threads st) -> main_lines (pc st) = [].
Proof.
  intros Hi Hok. destruct (joined (pc st)) as [|n] eqn:Hj; [by destruct (pc st)|].
  assert (Hd : is_done 0 st = true) by (apply (inv_joined _ Hi); lia).
  apply once_done_spec in Hd as (p & Hp & Hpd). rewrite Forall_lookup in Hok. apply Hok in Hp as [_ Hp].
  rewrite Hpd in Hp. by destruct Hp.
Qed.

(** Thread [i] moves: what it must do to the flag and the output. *)
Lemma caller_goto st i p q m c o : inv st -> threads st !! i = Some p -> o_pc p <> ODone ->
  holds in_section m (<[i := q]> (threads st)) ->
  (forall ran, out st = (if ran : bool then init_line else []) ++ main_lines (pc st) ->
     Forall (caller_ok (called st) ran) (threads st) -> (called st = true -> ran = true) ->
     (called st = false -> ran = true -> exists k x, threads st !! k = Some x /\ o_pc x = OSet) ->
     exists ran', o = (if ran' : bool then init_line else []) ++ main_lines (pc st) /\
       Forall (caller_ok c ran') (<[i := q]> (threads st)) /\ (c = true -> ran' = true) /\
       (c = false -> ran' = true -> o_pc q = OSet \/ o_pc p <> OSet /\ ran = true /\ called st = false)) ->
  inv (State m c (pc st) (<[i := q]> (threads st)) o).
Proof.
  intros [Hm (ran & Ho & Hok & Hcr & Hset) Hc Hj He] Hi Hnd Hm' Hout.
  destruct (Hout ran Ho Hok Hcr Hset) as (ran' & Ho' & Hok' & Hcr' & Hset'). split; simpl; try done.
  - exists ran'. split; [done|]. split; [done|]. split; [done|]. intros Hcf Hrt.
    destruct (Hset' Hcf Hrt) as [Hq|(Hp & Hr & Hcs)].
    + exists i, q. split; [|done]. apply list_lookup_insert_eq. by eapply lookup_lt_Some.
    + destruct (Hset Hcs Hr) as (k & x & Hk & Hx). exists k, x. split; [|done].
      rewrite list_lookup_insert_ne; [done|]. intros <-. congruence.
  - by rewrite length_insert.
  - intros k Hk. specialize (Hj k Hk). apply once_done_spec. apply once_done_spec in Hj as (x & Hx & Hxd).
    exists x. split; [|done]. simpl. rewrite list_lookup_insert_ne; [done|]. intros <-. congruence.
Qed.

(** The threads outside the section do not mind what the one in it does. *)
Lemma others_ok st i p q c ran c' ran' : holds in_section (mtx st) (threads st) -> threads st !! i = Some p ->
  in_section p = true -> (c = true -> c' = true) -> (ran = true -> ran' = true) ->
  Forall (caller_ok c ran) (threads st) -> caller_ok c' ran' q -> Forall (caller_ok c' ran') (<[i := q]> (threads st)).
Proof.
  intros Hm Hi Hp Hc Hran Hok Hq. pose proof (holds_owner _ _ _ _ _ Hm Hi Hp) as Hmi.
  apply Forall_lookup. intros k x Hx.
  destruct (lookup_insert_cases _ _ _ _ _ _ Hi Hx) as [[_ ->]|[Hne Hx']]; [done|].
  assert (in_section x = false) as Hxs.
  { destruct (in_section x) eqn:Ho; [|done]. pose proof (holds_owner _ _ _ _ _ Hm Hx' Ho). congruence. }
  rewrite Forall_lookup in Hok. specialize (Hok k x Hx'). unfold caller_ok, in_section in *.
  destruct Hok as [Hl Hok]. split; [done|]. destruct (o_pc x); try done; intuition auto.
Qed.

Lemma run_caller_inv st i st' : inv st -> run_caller i st = Some st' -> inv st'.
Proof.
  intros Hi. pose proof (inv_mutex _ Hi) as Hm. unfold run_caller.
  destruct (threads st !! i) as [[p n]|] eqn:Hp; [|done].
  assert (Hself : forall c ran, Forall (caller_ok c ran) (threads st) -> caller_ok c ran (Caller p n))
    by (intros c ran Hok; by eapply Forall_lookup_1 in Hp).
  unfold caller_ok in Hself. simpl in Hself.
  assert (Hmine : p <> OLock -> p <> ODone -> mtx st = Some i).
  { intros H1 H2. eapply (holds_owner _ _ _ _ _ Hm Hp). unfold in_section. simpl. by destruct p. }
  destruct p; simpl in Hself.
  - destruct (mtx st) eqn:Hmx; [done|]. intros [= <-]. eapply caller_goto; [done|done|done|by eapply holds_take|].
    intros ran Ho Hok Hcr Hset. exists ran. split; [done|]. split; [|split; [done|]].
    + apply Forall_insert; [done|]. by apply (Hself _ _ Hok).
    + intros. right. by split.
  - intros [= <-]. eapply caller_goto; [done|done|done|eapply holds_keep; [done|done|by destruct (called st)]|].
    intros ran Ho Hok Hcr Hset. exists ran. split; [done|]. split; [|split; [done|]].
    + apply (others_ok st i (Caller OTest n) _ (called st) ran); try done.
      destruct (Hself _ _ Hok) as [Hl _]. destruct (called st) eqn:Hc; [by split; [done|split; [done|by apply Hcr]]|].
      split; [done|]. split; [done|]. destruct ran; [|done].
      destruct Hset as (k & x & Hk & Hx); [done|done|].
      assert (Some k = Some i); [|by simplify_eq]. rewrite <-Hmine by done.
      symmetry. apply (holds_owner _ _ _ _ _ Hm Hk). unfold in_section. by rewrite Hx.
    + intros. right. by split.
  - intros [= <-]. eapply caller_goto; [done|done|done|by eapply holds_keep|].
    intros ran Ho Hok Hcr Hset. destruct (Hself _ _ Hok) as (Hl & Hc & ->). exists true. split; [|split; [|split; [done|]]].
    + rewrite Ho. by rewrite (not_ran_no_lines st _ Hi Hok), !app_nil_r.
    + by apply (others_ok st i (Caller OInit n) _ (called st) false).
    + intros. by left.
  - intros [= <-]. eapply caller_goto; [done|done|done|by eapply holds_keep|].
    intros ran Ho Hok Hcr Hset. destruct (Hself _ _ Hok) as (Hl & Hc & ->). exists true. split; [done|split; [|split; [done|done]]].
    by apply (others_ok st i (Caller OSet n) _ (called st) true).
  - intros [= <-]. eapply caller_goto; [done|done|done|eapply holds_leave; [done|done|done|by destruct n]|].
    intros ran Ho Hok Hcr Hset. destruct (Hself _ _ Hok) as (Hl & Hc & ->). exists true. split; [done|split; [|split; [done|congruence]]].
    rewrite Hc in *. apply (others_ok st i (Caller OUnlock n) _ true true); try done.
    destruct n as [|n]; split; simpl; try done; lia.
  - done.
Qed.

Lemma once_main_inv st st' : inv st -> run_main st = Some st' -> inv st'.
Proof.
  intros [Hm (ran & Ho & Hok & Hcr & Hset) Hc Hj He]. unfold run_main.
  assert (Hran : forall i, is_done i st = true -> ran = true).
  { intros i (p & Hp & Hd)%once_done_spec. rewrite Forall_lookup in Hok. apply Hok in Hp as [_ Hp].
    rewrite Hd in Hp. by destruct Hp. }
  assert (Hgrow : forall m, main_lines m = main_lines (pc st) -> joined m = 0%nat -> (forall k, m <> MExit k) ->
    S (length (threads st)) = created m -> inv (State (mtx st) (called st) m (threads st ++ [thread_start]) (out st))).
  { intros m Hl Hjm Hn Hcm. split; simpl; [by apply holds_app| |by rewrite length_app, Nat.add_comm| |].
    - exists ran. rewrite Hl. split_and!; [done| |done|].
      + apply Forall_app_2; [done|]. apply Forall_singleton. by split; simpl; [lia|].
      + intros H1 H2. destruct (Hset H1 H2) as (i & p & Hp & Hd). exists i, p. split; [|done]. by apply lookup_app_l_Some.
    - rewrite Hjm. by intros i ?%Nat.nlt_0_r.
    - intros k Hk. by destruct (Hn k). }
  destruct (pc st) eqn:Hpc; simpl in *; try (destruct (is_done _ st) eqn:Hd; [|done]); try done; intros [= <-].
  - by apply Hgrow; [..|rewrite Hc].
  - by apply Hgrow; [..|rewrite Hc].
  - split; simpl; try done.
    + exists ran. split_and!; try done. by rewrite Ho, (Hran _ Hd), !app_nil_r.
    + intros i Hi. by assert (i = 0)%nat as -> by lia.
  - split; simpl; try done.
    + exists ran. split_and!; try done. by rewrite Ho, <-app_assoc.
    + intros i Hi. destruct (decide (i = 1)%nat) as [->|]; [done|]. apply (Hj i). lia.
  - split; simpl; try done; [by exists ran|congruence].
Qed.

(** ** Progress and termination *)

Definition caller_work (p : caller) : Z :=
  7 * Z.of_nat (left p) +
  match o_pc p with OLock => 6 | OTest => 5 | OInit => 4 | OSet => 3 | OUnlock => 2 | ODone => 0 end.
Definition main_work (m : main_pc) : Z :=
  match m with MCreate1 => 40 | MCreate2 => 20 | MJoin1 => 3 | MJoin2 => 2 | MFinish => 1 | MExit _ => 0 end.
Definition work (st : state) : Z := sumZ caller_work (threads st) + main_work (pc st).

Lemma once_work_nonneg st : 0 <= work st.
Proof.
  unfold work. assert (0 <= sumZ caller_work (threads st)).
  { apply sumZ_nonneg. intros p _. unfold caller_work. destruct (o_pc p); lia. }
  destruct (pc st); simpl; lia.
Qed.

Lemma run_split t st st' : run t st = Some st' ->
  match t with Main => run_main st | Thread i => run_caller i st end = Some st'.
Proof. unfold run. by destruct (pc st), t. Qed.

Lemma once_run_work t st st' : run t st = Some st' -> work st' < work st.
Proof.
  intros Hrun%run_split. unfold work. destruct t as [|i].
  - unfold run_main in Hrun. destruct (pc st); simpl in *;
      try (destruct (is_done _ st); [|done]); try done; injection Hrun as <-; simpl;
      rewrite ?sumZ_app; unfold caller_work; simpl; lia.
  - unfold run_caller in Hrun. destruct (threads st !! i) as [[p n]|] eqn:Hp; [|done].
    destruct p; try (destruct (mtx st); [done|]); try done; injection Hrun as <-; simpl;
      rewrite (sumZ_insert _ _ _ _ _ Hp); unfold caller_work; simpl; try lia.
    + destruct (called st); lia.
    + destruct n as [|n]; simpl; lia.
Qed.

Lemma once_run_inv t st st' : inv st -> run t st = Some st' -> inv st'.
Proof.
  intros Hi Hr%run_split. destruct t; [by eapply once_main_inv|by eapply run_caller_inv].
Qed.

Lemma once_live_run t st : (forall k, pc st <> MExit k) ->
  run t st = match t with Main => run_main st | Thread i => run_caller i st end.
Proof. intros H. unfold run. destruct (pc st), t; try done; by destruct (H k). Qed.

Lemma unfinished_runs st i : inv st -> (forall k, pc st <> MExit k) -> (i < length (threads st))%nat ->
  is_done i st = false -> exists t, is_Some (run t st).
Proof.
  intros Hi Hl Hlt Hd.
  assert (Hgo : forall k x, threads st !! k = Some x -> o_pc x <> ODone -> (o_pc x = OLock -> mtx st = None) ->
    exists t, is_Some (run t st)).
  { intros k [q n] Hk Hx Hw. exists (Thread k). rewrite once_live_run by done. unfold run_caller. rewrite Hk.
    destruct q; simpl in *; eauto; try done. rewrite Hw by done. eauto. }
  apply lookup_lt_is_Some in Hlt as [p Hp].
  assert (Hnd : o_pc p <> ODone) by (intros Hx; enough (is_done i st = true) by congruence; apply once_done_spec; eauto).
  destruct (mtx st) as [k|] eqn:Hm; [|by apply (Hgo i p)].
  pose proof (inv_mutex _ Hi) as Hh. rewrite Hm in Hh. destruct (proj1 (Hh k) eq_refl) as (x & Hx & Hxo).
  apply (Hgo k x Hx); intros E; unfold in_section in Hxo; by rewrite E in Hxo.
Qed.

Lemma once_progress st : inv st ->
  (exists t, is_Some (run t st)) \/ (forall t, run t st = None) /\ completed st.
Proof.
  intros Hi. pose proof (inv_created _ Hi) as Hc.
  assert (Hmain : forall i, pc st = MJoin1 /\ i = 0%nat \/ pc st = MJoin2 /\ i = 1%nat ->
    exists t, is_Some (run t st)).
  { intros i Hpc. destruct (is_done i st) eqn:Hd.
    - exists Main. unfold run, run_main. destruct Hpc as [[-> ->]|[-> ->]]; rewrite Hd; eauto.
    - apply (unfinished_runs st i); [done| | |done]; destruct Hpc as [[Hpc ->]|[Hpc ->]];
        rewrite Hpc in *; simpl in Hc; (done || lia). }
  destruct (pc st) eqn:Hpc; try (left; exists Main; unfold run, run_main; rewrite Hpc; by eauto).
  - left. by apply (Hmain 0%nat); left.
  - left. by apply (Hmain 1%nat); right.
  - right. split; [intros t; unfold run; by rewrite Hpc|].
    pose proof (inv_exit _ Hi k Hpc) as ->. split; [done|].
    destruct (inv_callers _ Hi) as (ran & Ho & Hok & _). rewrite Ho, Hpc. simpl.
    assert (Hd : is_done 0 st = true) by (apply (inv_joined _ Hi); rewrite Hpc; simpl; lia).
    apply once_done_spec in Hd as (p & Hp & Hd). rewrite Forall_lookup in Hok. apply Hok in Hp as [_ Hp].
    rewrite Hd in Hp. by destruct Hp as [_ ->].
Qed.

(** As long as locking does not fail, from every state that a schedule can
    reach, unless a call of main has failed, every way to go on ends with the
    program successful; the initialisation has then run exactly once in the
    four calls of two threads, before either thread returned. *)
Theorem init_runs_once (st : state) :
  reachable fire_locked start st ->
  pc st = MExit EXIT_FAILURE \/ always_ends run completed st.
Proof.
  intros Hr. enough (pc st = MExit EXIT_FAILURE \/ inv st) as [|Hi]; [by left| |].
  { right. apply (ends_by_work run inv completed work); [..|exact Hi].
    - intros s _. apply once_work_nonneg.
    - intros t s s' Hs Ht. split; [by eapply once_run_inv|by eapply once_run_work].
    - apply once_progress. }
  revert Hr. apply (reachable_ind_inv _ (fun s => pc s = MExit EXIT_FAILURE \/ inv s)).
  - right. split; simpl; try done; [by apply holds_start, Forall_nil| |by intros i ?%Nat.nlt_0_r].
    exists false. by split_and!.
  - intros [t| |i] s s' [Hf|Hi] Hs; simpl in Hs; try done.
    + unfold run in Hs. by rewrite Hf in Hs.
    + right. by eapply once_run_inv.
    + by rewrite Hf in Hs.
    + left. destruct (pc s); by simplify_eq.
Qed.

(** The second thread is in the initialisation while the first waits. *)
Definition once_events : list event :=
  [Run Main; Run Main; Run (Thread 1); Run (Thread 1)].
Definition once_state : state := default start (run_all fire_locked once_events start).

Lemma init_runs_once_witness :
  mtx once_state = Some 1%nat /\ run (Thread 0) once_state = None /\
  (pc once_state = MExit EXIT_FAILURE \/ always_ends run completed once_state).
Proof.
  split; [done|]. split; [done|]. apply (init_runs_once once_state).
  apply (run_all_reachable fire_locked once_events _ start); [apply reach_start|by vm_compute].
Defined.

(** A failure of the lock goes unnoticed: the initialisation runs twice. *)
Example failed_lock_ignored :
  exists st, run_all fire ([Run Main; Run Main] ++ [LockFails 0; LockFails 1] ++
      [Run (Thread 0); Run (Thread 1); Run (Thread 0); Run (Thread 1)]) start = Some st /\
    out st = init_line ++ init_line.
Proof. eexists. split; [vm_compute; reflexivity|done]. Qed.
