(* ===== verification/Barrier.v ===== *)
(** threads/pthread_barrier_demo.c (src/tlpi-dist): threads that pass a barrier
    a number of times, as a transition system with one event for each call or
    message of a thread that others can tell. Sleeping is left out; the calls
    do not fail for a positive number of threads. *)
From Stdlib Require Import ZArith Lia.
From stdpp Require Import base tactics list sets.
From S2P Require Import Prelude Transitions.
#[local] Open Scope Z_scope.

(** threadFunc: its first message; before the call for barrier [j], in it, and
    back from it, [serial] being whether the result is
    PTHREAD_BARRIER_SERIAL_THREAD; the last message. *)
Inductive pc := BStart | BCall (j : nat) | BIn (j : nat) | BPassed (j : nat) (serial : bool) | BLast | BEnd.

Inductive main_pc := MCreate | MJoin (k : nat) | MExit (k : exit_kind).

(** A message that a thread has passed a barrier. *)
Record passed := Passed { p_thread : nat; p_barrier : nat; p_serial : bool }.

(** [arrived]: how many threads wait at the barrier. *)
Record state := State { arrived : nat; threads : list pc; main : main_pc; log : list passed }.

Section Program.
Context (numBarriers numThreads : nat).

Definition start : state := State 0 [] MCreate [].

(** The head of the loop of threadFunc. *)
Definition loop_at (j : nat) : pc := if (j <? numBarriers)%nat then BCall j else BLast.

Definition wake (p : pc) : pc := match p with BIn j => BPassed j false | p => p end.

(** pthread_barrier_wait by thread [i]; if it is the last one all go on, and the
    system chooses [k] to have the special result. *)
Definition barrier_wait (i j k : nat) (st : state) : option state :=
  let ts := <[i := BIn j]> (threads st) in
  if (S (arrived st) <? numThreads)%nat then Some (State (S (arrived st)) ts (main st) (log st))
  else
    match (wake <$> ts) !! k with
    | Some (BPassed j' _) =>
        if (j' =? j)%nat then Some (State 0 (<[k := BPassed j true]> (wake <$> ts)) (main st) (log st)) else None
    | _ => None
    end.

(** One step of thread [i]. *)
Definition run_thread (i k : nat) (st : state) : option state :=
  let goto p l := Some (State (arrived st) (<[i := p]> (threads st)) (main st) l) in
  match threads st !! i with
  | Some BStart => goto (loop_at 0) (log st)
  | Some (BCall j) => barrier_wait i j k st
  | Some (BPassed j s) => goto (loop_at (S j)) (log st ++ [Passed i j s])
  | Some BLast => goto BEnd (log st)
  | Some (BIn _) | Some BEnd | None => None
  end.

Definition run_main (st : state) : option state :=
  let goto m := Some (State (arrived st) (threads st) m (log st)) in
  match main st with
  | MCreate =>
      if (length (threads st) <? numThreads)%nat then
        Some (State (arrived st) (threads st ++ [BStart]) MCreate (log st))
      else goto (MJoin 0)
  | MJoin k =>
      if (k <? numThreads)%nat then
        match threads st !! k with Some BEnd => goto (MJoin (S k)) | _ => None end
      else goto (MExit EXIT_SUCCESS)
  | MExit _ => None
  end.

Inductive step := Main | Thread (i k : nat).

Definition run (t : step) (st : state) : option state :=
  match main st, t with
  | MExit _, _ => None
  | _, Main => run_main st
  | _, Thread i k => run_thread i k st
  end.

(** ** The invariant *)

Definition ind (b : bool) : Z := if b then 1 else 0.
Definition inside (p : pc) : Z := match p with BIn _ => 1 | _ => 0 end.
Definition serial_at (j : nat) (p : pc) : Z :=
  match p with BPassed j' true => ind (j' =? j)%nat | _ => 0 end.
Definition serial_logged (j : nat) (p : passed) : Z := ind (p_serial p && (p_barrier p =? j)%nat).

(** The barriers that a thread has reported. *)
Definition reported (p : pc) : nat :=
  match p with BStart => 0 | BCall j | BIn j | BPassed j _ => j | BLast | BEnd => numBarriers end.
Definition barriers_of (i : nat) (l : list passed) : list nat :=
  p_barrier <$> filter (fun p => p_thread p = i) l.

(** A thread's place when [r] barriers have been passed by all. *)
Definition place_ok (r : nat) (p : pc) : Prop :=
  match p with
  | BStart => r = 0%nat
  | BCall j | BIn j => j = r /\ (r < numBarriers)%nat
  | BPassed j _ => S j = r
  | BLast | BEnd => r = numBarriers
  end.

Definition ended (st : state) (k : nat) : Prop := forall i, (i < k)%nat -> threads st !! i = Some BEnd.

Record inv (st : state) (r : nat) : Prop := {
  inv_round : (r <= numBarriers)%nat;
  inv_places : Forall (place_ok r) (threads st);
  inv_arrived : Z.of_nat (arrived st) = sumZ inside (threads st);
  inv_room : (arrived st < numThreads)%nat;
  inv_length : (length (threads st) <= numThreads)%nat;
  inv_full : main st <> MCreate \/ (0 < r)%nat -> length (threads st) = numThreads;
  inv_reported i p : threads st !! i = Some p -> barriers_of i (log st) = seq 0 (reported p);
  inv_logged p : p ∈ log st -> (p_thread p < length (threads st))%nat;
  inv_serial j : sumZ (serial_logged j) (log st) + sumZ (serial_at j) (threads st) = ind (j <? r)%nat;
  inv_joined k : main st = MJoin k -> (k <= numThreads)%nat /\ ended st k;
  inv_exit k : main st = MExit k -> k = EXIT_SUCCESS /\ ended st numThreads
}.

(** The program has ended; every thread has reported each barrier once, in
    order, and for each barrier one thread had the special result. *)
Definition completed (st : state) : Prop :=
  main st = MExit EXIT_SUCCESS /\
  (forall i, (i < numThreads)%nat -> barriers_of i (log st) = seq 0 numBarriers) /\
  (forall j, (j < numBarriers)%nat -> sumZ (serial_logged j) (log st) = 1) /\
  (forall p, p ∈ log st -> (p_thread p < numThreads)%nat).

(** Whether a thread has called pthread_barrier_wait for barrier [j]. *)
Definition came (j : nat) (p : pc) : bool :=
  match p with
  | BStart => false
  | BCall j' => (j <? j')%nat
  | BIn j' | BPassed j' _ => (j <=? j')%nat
  | BLast | BEnd => (j <? numBarriers)%nat
  end.

(** Whoever has passed barrier [j] has done so after all had come to it. *)
Definition all_came (st : state) : Prop :=
  forall i j s, threads st !! i = Some (BPassed j s) \/ Passed i j s ∈ log st ->
    length (threads st) = numThreads /\ Forall (fun p => came j p = true) (threads st).

Lemma barrier_start_inv : (0 < numThreads)%nat -> inv start 0.
Proof.
  intros Hn. split; simpl; try done; try lia; [intros [|]; [done|lia]|by intros p ?%elem_of_nil].
Qed.

Lemma place_loop j : (j <= numBarriers)%nat -> place_ok j (loop_at j) /\ reported (loop_at j) = j /\
  inside (loop_at j) = 0 /\ forall j', serial_at j' (loop_at j) = 0.
Proof.
  intros Hj. unfold loop_at. destruct (j <? numBarriers)%nat eqn:E.
  - apply Nat.ltb_lt in E. by split_and!.
  - apply Nat.ltb_ge in E. assert (j = numBarriers) by lia. by split_and!.
Qed.

(** A thread moves on its own. *)
Lemma thread_inv st r a i p q l : inv st r -> threads st !! i = Some p -> p <> BEnd ->
  place_ok r q -> Z.of_nat a = Z.of_nat (arrived st) - inside p + inside q -> (a < numThreads)%nat ->
  (l = log st /\ reported q = reported p /\ (forall j, serial_at j q = serial_at j p) \/
   exists j s, p = BPassed j s /\ l = log st ++ [Passed i j s] /\ reported q = S j /\
     (forall j, serial_at j q = 0)) ->
  inv (State a (<[i := q]> (threads st)) (main st) l) r.
Proof.
  intros [Hr Hp Ha Hro Hl Hf Hre Hlg Hs Hj He] Hi Hne Hq Hin Hroom Hlog.
  pose proof (lookup_lt_Some _ _ _ Hi) as Hlt.
  assert (Hend : forall k, ended st k -> forall i', (i' < k)%nat -> <[i := q]> (threads st) !! i' = Some BEnd).
  { intros k Hk i' Hi'. rewrite list_lookup_insert_ne; [by apply Hk|]. intros <-. rewrite (Hk i Hi') in Hi. by simplify_eq. }
  split; simpl; try done.
  - by apply Forall_insert.
  - rewrite (sumZ_insert _ _ _ _ _ Hi). lia.
  - by rewrite length_insert.
  - by rewrite length_insert.
  - intros i' p' Hi'. destruct (lookup_insert_cases _ _ _ _ _ _ Hi Hi') as [[-> ->]|[Hne' Hi'']].
    + destruct Hlog as [(-> & -> & _)|(j & s & -> & -> & -> & _)]; [by apply Hre|].
      unfold barriers_of. rewrite filter_app, fmap_app, filter_cons_True by done. simpl.
      change (barriers_of i (log st) ++ [j] = seq 0 (S j)). rewrite (Hre _ _ Hi). by rewrite seq_S.
    + destruct Hlog as [(-> & _)|(j & s & _ & -> & _)]; [by apply Hre|].
      unfold barriers_of. rewrite filter_app, fmap_app, filter_cons_False by (simpl; congruence). simpl.
      rewrite app_nil_r. by apply Hre.
  - rewrite length_insert. intros p' Hp'. destruct Hlog as [(-> & _)|(j & s & _ & -> & _)]; [by apply Hlg|].
    apply elem_of_app in Hp' as [Hp'|Hp']; [by apply Hlg|]. apply list_elem_of_singleton in Hp' as ->. done.
  - intros j'. rewrite (sumZ_insert _ _ _ _ _ Hi). pose proof (Hs j') as Hsj. destruct Hlog as [(-> & _ & ->)|(j & s & -> & -> & _ & ->)].
    + lia.
    + rewrite sumZ_app. simpl. unfold serial_logged at 2. simpl. destruct s; simpl; [rewrite (Nat.eqb_sym j j') in *; rewrite ?(Nat.eqb_sym j' j) in *|]; lia.
  - intros k Hk. destruct (Hj k Hk). split; [done|]. intros i' Hi'. by apply (Hend k).
  - intros k Hk. destruct (He k Hk). split; [done|]. intros i' Hi'. by apply (Hend numThreads).
Qed.

Lemma sumZ_fmap {A B} (f : B -> Z) (g : A -> B) l : sumZ f (g <$> l) = sumZ (fun x => f (g x)) l.
Proof.
  induction l as [|x l IH]; [done|].
  change (f (g x) + sumZ f (g <$> l) = f (g x) + sumZ (fun x => f (g x)) l). by rewrite IH.
Qed.

Lemma inside_le l : sumZ inside l <= Z.of_nat (length l).
Proof.
  induction l as [|p l IH]; [done|]. change (length (p :: l)) with (S (length l)). destruct p; simpl in *; lia.
Qed.

(** All are inside when as many are as there are threads. *)
Lemma all_inside l : sumZ inside l = Z.of_nat (length l) -> Forall (fun p => inside p = 1) l.
Proof.
  induction l as [|p l IH]; [by constructor|]. change (length (p :: l)) with (S (length l)). simpl. pose proof (inside_le l).
  intros Hs. constructor; [destruct p; simpl in *; lia|]. apply IH. destruct p; simpl in *; lia.
Qed.

(** The last thread comes to the barrier. *)
Lemma release_inv st r i j k st' : inv st r -> threads st !! i = Some (BCall j) ->
  barrier_wait i j k st = Some st' -> (numThreads <= S (arrived st))%nat -> inv st' (S r).
Proof.
  intros [Hr Hp Ha Hro Hl Hf Hre Hlg Hs Hj He] Hi Hw Hlast. unfold barrier_wait in Hw.
  rewrite (proj2 (Nat.ltb_ge _ _) Hlast) in Hw. pose proof (lookup_lt_Some _ _ _ Hi) as Hlt.
  destruct (Forall_lookup_1 _ _ _ _ Hp Hi) as [-> Hrb].
  set (ts := <[i := BIn r]> (threads st)) in *.
  assert (Hx : sumZ inside (threads st) + 1 <= Z.of_nat (length (threads st))).
  { pose proof (inside_le ts) as Hx. unfold ts in Hx. rewrite (sumZ_insert _ _ _ _ _ Hi), length_insert in Hx. simpl in Hx. lia. }
  assert (Hlen : length (threads st) = numThreads) by lia.
  assert (Hts : Forall (fun p => p = BIn r) ts).
  { assert (Hin : Forall (fun p => inside p = 1) ts).
    { apply all_inside. unfold ts. rewrite (sumZ_insert _ _ _ _ _ Hi), length_insert. simpl. lia. }
    apply Forall_lookup. intros i' p' Hi'. pose proof (Forall_lookup_1 _ _ _ _ Hin Hi') as Hx1.
    destruct p' as [| |j'| | |]; try done.
    destruct (lookup_insert_cases _ _ _ _ _ _ Hi Hi') as [[_ [= ->]]|[_ Hi'']]; [done|].
    by destruct (Forall_lookup_1 _ _ _ _ Hp Hi'') as [-> _]. }
  assert (Hwake : wake <$> ts = (fun _ => BPassed r false) <$> ts).
  { apply list_fmap_ext. intros i' p' Hi'. by rewrite (Forall_lookup_1 _ _ _ _ Hts Hi'). }
  rewrite Hwake in Hw. destruct (_ !! k) as [[| | |j s| |]|] eqn:Hk; try done.
  destruct (j =? r)%nat eqn:E; [|done]. injection Hw as <-.
  rewrite list_lookup_fmap in Hk. destruct (ts !! k) as [x|] eqn:Hkx; [|done]. injection Hk as <- <-. clear E.
  assert (Hk : ((fun _ => BPassed r false) <$> ts) !! k = Some (BPassed r false)) by (by rewrite list_lookup_fmap, Hkx).
  assert (Hnone : forall f, f (BPassed r false) = 0 -> sumZ f ((fun _ => BPassed r false) <$> ts) = 0).
  { intros f Hf0. rewrite sumZ_fmap. clear -Hf0. induction ts as [|p l IH]; [done|]. unfold sumZ in *. simpl in *. by rewrite IH, Hf0. }
  assert (Hbusy : forall i', (i' < numThreads)%nat -> threads st !! i' <> Some BEnd).
  { intros i' _ Hy. assert (Hin : ts !! i' = Some (BIn r) \/ ts !! i' = Some BEnd).
    { unfold ts. destruct (decide (i' = i)) as [->|]; [left; by apply list_lookup_insert_eq|right; by rewrite list_lookup_insert_ne]. }
    destruct Hin as [Hin|Hin]; [|by pose proof (Forall_lookup_1 _ _ _ _ Hts Hin)].
    pose proof (Forall_lookup_1 _ _ _ _ Hp Hy) as Hy'. simpl in Hy'. lia. }
  split; simpl.
  - lia.
  - apply Forall_insert; [|done]. apply Forall_fmap, Forall_true. done.
  - rewrite (sumZ_insert _ _ _ _ _ Hk), Hnone by done. done.
  - lia.
  - rewrite length_insert, length_fmap. unfold ts. rewrite length_insert. done.
  - intros _. rewrite length_insert, length_fmap. unfold ts. by rewrite length_insert.
  - intros i' p' Hi'. assert (Hrep : reported p' = r).
    { destruct (lookup_insert_cases _ _ _ _ _ _ Hk Hi') as [[_ ->]|[_ Hi'']]; [done|].
      rewrite list_lookup_fmap in Hi''. destruct (ts !! i'); [by injection Hi'' as <-|done]. }
    rewrite Hrep. apply lookup_lt_Some in Hi'. rewrite length_insert, length_fmap in Hi'. unfold ts in Hi'. rewrite length_insert in Hi'.
    destruct (lookup_lt_is_Some_2 _ _ Hi') as [q Hq]. rewrite (Hre _ _ Hq). f_equal.
    destruct (decide (i' = i)) as [->|Hne]; [rewrite Hi in Hq; by injection Hq as <-|].
    assert (ts !! i' = Some q) as Htq by (unfold ts; by rewrite list_lookup_insert_ne).
    by rewrite (Forall_lookup_1 _ _ _ _ Hts Htq).
  - rewrite length_insert, length_fmap. unfold ts. by rewrite length_insert.
  - intros j'. rewrite (sumZ_insert _ _ _ _ _ Hk), Hnone by done. simpl. pose proof (Hs j') as Hsj.
    assert (Hz : sumZ (serial_at j') (threads st) = 0).
    { assert (Hz : sumZ (serial_at j') ts = 0).
      { clear -Hts. induction Hts as [|p l -> _ IH]; simpl; [done|]. by rewrite IH. }
      unfold ts in Hz. rewrite (sumZ_insert _ _ _ _ _ Hi) in Hz. simpl in Hz. lia. }
    rewrite Hz in Hsj. unfold ind in *. destruct (r =? j')%nat eqn:E1, (j' <? r)%nat eqn:E2, (j' <? S r)%nat eqn:E3; 
      rewrite ?Nat.eqb_eq, ?Nat.eqb_neq, ?Nat.ltb_lt, ?Nat.ltb_ge in *; lia.
  - intros k' Hk'. destruct (Hj k' Hk') as [Hle Hen]. split; [done|]. intros i' Hi'. by destruct (Hbusy i' ltac:(lia) (Hen i' Hi')).
  - intros k' Hk'. destruct (He k' Hk') as [_ Hen]. by destruct (Hbusy 0%nat ltac:(lia) (Hen 0%nat ltac:(lia))).
Qed.

Lemma barrier_run_inv i k st st' r : inv st r -> run_thread i k st = Some st' -> exists r', inv st' r'.
Proof.
  intros Hi. unfold run_thread. destruct (threads st !! i) as [p|] eqn:Hp; [|done].
  pose proof (Forall_lookup_1 _ _ _ _ (inv_places _ _ Hi) Hp) as Hpl.
  pose proof (inv_round _ _ Hi) as Hr. pose proof (inv_room _ _ Hi) as Hro.
  destruct p as [|j|j|j s| |]; try done; simpl in Hpl.
  - intros [= <-]. exists r. subst r. destruct (place_loop 0) as (H1 & H2 & H3 & H4); [lia|].
    eapply thread_inv; [done|exact Hp|done|done|rewrite H3; simpl; lia|done|]. left. by split_and!.
  - destruct Hpl as [-> Hrb]. intros Hw. destruct (S (arrived st) <? numThreads)%nat eqn:E.
    + apply Nat.ltb_lt in E. unfold barrier_wait in Hw. rewrite (proj2 (Nat.ltb_lt _ _) E) in Hw. injection Hw as <-.
      exists r. eapply thread_inv; [done|exact Hp|done|done|simpl; lia|done|]. left. by split_and!.
    + apply Nat.ltb_ge in E. exists (S r). by eapply release_inv.
  - intros [= <-]. exists r. subst r. destruct (place_loop (S j)) as (H1 & H2 & H3 & H4); [lia|].
    eapply thread_inv; [done|exact Hp|done|done|rewrite H3; simpl; lia|done|]. right. by exists j, s.
  - intros [= <-]. exists r. eapply thread_inv; [done|exact Hp|done|done|simpl; lia|done|]. left. by split_and!.
Qed.

Lemma barrier_main_inv st st' r : inv st r -> run_main st = Some st' -> inv st' r.
Proof.
  intros [Hr Hp Ha Hro Hl Hf Hre Hlg Hs Hj He]. unfold run_main.
  destruct (main st) as [|k|] eqn:Hm; [destruct (_ <? _)%nat eqn:E|destruct (_ <? _)%nat eqn:E; [destruct (threads st !! k) as [[]|] eqn:Hk; try done|]|done];
    intros [= <-].
  - apply Nat.ltb_lt in E. assert (r = 0%nat) as -> by (destruct r; [done|]; rewrite Hf in E by (right; lia); lia).
    split; simpl; try done.
    + by apply Forall_app_2, Forall_singleton.
    + rewrite sumZ_app. simpl. lia.
    + rewrite length_app. simpl. lia.
    + intros [|]; [done|lia].
    + intros i p Hi. apply lookup_app_Some in Hi as [Hi|[Hlen Hi]]; [by apply Hre|].
      apply list_lookup_singleton_Some in Hi as [Hi0 <-]. simpl. unfold barriers_of.
      replace (filter _ (log st)) with (@nil passed); [done|]. symmetry.
      assert (Hall : forall p, p ∈ log st -> p_thread p <> i) by (intros p Hpl; specialize (Hlg p Hpl); lia).
      clear -Hall. induction (log st) as [|p l IH]; [done|]. rewrite filter_cons_False; [apply IH|]; set_solver.
    + intros p Hpl. rewrite length_app. specialize (Hlg p Hpl). lia.
    + intros j. rewrite sumZ_app. pose proof (Hs j). simpl in *. lia.
  - apply Nat.ltb_ge in E. split; simpl; try done; [intros _; lia|]. intros k [= <-]. split; [lia|]. intros i Hi. lia.
  - apply Nat.ltb_lt in E. split; simpl; try done; [intros _; apply Hf; by left|]. intros k' [= <-]. split; [lia|].
    intros i Hi. destruct (decide (i = k)) as [->|]; [done|]. apply (Hj k eq_refl). lia.
  - apply Nat.ltb_ge in E. destruct (Hj k eq_refl) as [Hle Hen]. split; simpl; try done; [intros _; apply Hf; by left|].
    intros k' [= <-]. split; [done|]. by assert (k = numThreads) as -> by lia.
Qed.

(** ** Progress and termination *)

Definition thread_work (p : pc) : Z :=
  let left j := 4 * (Z.of_nat numBarriers - Z.of_nat j) in
  match p with
  | BStart => left 0%nat + 6 | BCall j => left j + 4 | BIn j => left j + 3 | BPassed j _ => left j + 2
  | BLast => 1 | BEnd => 0
  end.

Definition work (st : state) : Z :=
  sumZ thread_work (threads st) +
  match main st with
  | MCreate => (Z.of_nat numThreads - Z.of_nat (length (threads st))) * (4 * Z.of_nat numBarriers + 7) +
               Z.of_nat numThreads + 2
  | MJoin k => Z.of_nat numThreads - Z.of_nat k + 1
  | MExit _ => 0
  end.

Lemma thread_work_nonneg r p : (r <= numBarriers)%nat -> place_ok r p -> 0 <= thread_work p.
Proof. intros Hr. destruct p; simpl; lia. Qed.

Lemma loop_work j : (j <= numBarriers)%nat -> thread_work (loop_at j) <= 4 * (Z.of_nat numBarriers - Z.of_nat j) + 4 /\
  (j = numBarriers -> thread_work (loop_at j) = 1).
Proof. intros Hj. unfold loop_at. destruct (j <? _)%nat eqn:E; [apply Nat.ltb_lt in E|apply Nat.ltb_ge in E]; simpl; lia. Qed.

Lemma barrier_run_work t st st' r : inv st r -> run t st = Some st' -> work st' < work st.
Proof.
  intros Hi Hr. assert (Hr' : match t with Main => run_main st | Thread i k => run_thread i k st end = Some st')
    by (unfold run in Hr; by destruct (main st), t).
  clear Hr. pose proof (inv_round _ _ Hi) as Hrb. destruct t as [|i k].
  - unfold run_main, work in *. destruct (main st) as [|k|] eqn:Hm; [destruct (_ <? _)%nat eqn:E|destruct (_ <? _)%nat eqn:E; [destruct (threads st !! k) as [[]|]; try done|]|done];
      injection Hr' as <-; simpl; rewrite ?sumZ_app, ?length_app; simpl;
      rewrite ?Nat.ltb_lt, ?Nat.ltb_ge in E; rewrite ?Nat2Z.inj_add, ?Z.sub_add_distr, ?Z.mul_sub_distr_r; try lia.
    + pose proof (inv_length _ _ Hi). replace (length (threads st)) with numThreads by lia. lia.
    + destruct (inv_joined _ _ Hi _ Hm). lia.
  - unfold run_thread in Hr'. destruct (threads st !! i) as [p|] eqn:Hp; [|done].
    pose proof (Forall_lookup_1 _ _ _ _ (inv_places _ _ Hi) Hp) as Hpl.
    assert (Hgo : forall a q l, thread_work q < thread_work p ->
      work (State a (<[i := q]> (threads st)) (main st) l) < work st).
    { intros a q l Hq. unfold work. simpl. rewrite length_insert, (sumZ_insert _ _ _ _ _ Hp). lia. }
    destruct p as [|j|j|j s| |]; try done; simpl in Hpl.
    + injection Hr' as <-. apply Hgo. pose proof (loop_work 0). simpl in *. lia.
    + unfold barrier_wait in Hr'. destruct (_ <? _)%nat; [injection Hr' as <-; apply Hgo; simpl; lia|].
      destruct (_ !! k) as [[| | |j' s'| |]|] eqn:Hk; try done. destruct (j' =? j)%nat eqn:E; [|done]. apply Nat.eqb_eq in E as ->.
      injection Hr' as <-. unfold work. simpl. rewrite length_insert, length_fmap, length_insert, (sumZ_insert _ _ _ _ _ Hk), sumZ_fmap.
      assert (Hle : sumZ (fun p => thread_work (wake p)) (<[i := BIn j]> (threads st)) <= sumZ thread_work (<[i := BIn j]> (threads st))).
      { apply sumZ_le. intros [] _; simpl; lia. }
      rewrite (sumZ_insert thread_work _ _ _ _ Hp) in Hle. simpl in *. lia.
    + injection Hr' as <-. apply Hgo. pose proof (loop_work (S j)). simpl in *. lia.
    + injection Hr' as <-. apply Hgo. simpl. lia.
Qed.

Lemma barrier_progress st r : inv st r ->
  (exists t, is_Some (run t st)) \/ (forall t, run t st = None) /\ completed st.
Proof.
  intros Hi. destruct (main st) as [|k|k] eqn:Hm.
  - left. exists Main. unfold run, run_main. rewrite Hm. by destruct (_ <? _)%nat.
  - left. destruct (k <? numThreads)%nat eqn:E; [|exists Main; unfold run, run_main; rewrite Hm, E; eauto].
    apply Nat.ltb_lt in E. assert (Hlen : length (threads st) = numThreads) by (apply (inv_full _ _ Hi); left; by rewrite Hm).
    destruct (lookup_lt_is_Some_2 (threads st) k ltac:(lia)) as [pk Hpk].
    assert (Hstep : (exists i p, threads st !! i = Some p /\ inside p = 0 /\ p <> BEnd) \/
      Forall (fun p => inside p = 1 \/ p = BEnd) (threads st)).
    { clear. induction (threads st) as [|p l [(i & q & Hq & Hx)|IH]]; [by right|left; by exists (S i), q|].
      destruct p; try (left; eexists 0%nat, _; by split_and!); right; constructor; auto. }
    destruct Hstep as [(i & p & Hp & Hin & Hne)|Hall].
    + exists (Thread i i). assert (Hx : run (Thread i i) st = run_thread i i st) by (unfold run; by rewrite Hm).
      rewrite Hx. unfold run_thread. rewrite Hp. destruct p as [|j|j|j s| |]; simpl; eauto; try done.
      unfold barrier_wait. destruct (_ <? _)%nat; [eauto|].
      rewrite list_lookup_fmap, list_lookup_insert_eq by (by eapply lookup_lt_Some). simpl. rewrite Nat.eqb_refl. eauto.
    + destruct (Forall_lookup_1 _ _ _ _ Hall Hpk) as [Hin| ->].
      * exfalso. destruct pk as [| |j| | |]; try done.
        destruct (Forall_lookup_1 _ _ _ _ (inv_places _ _ Hi) Hpk) as [-> Hrb].
        assert (Hs : sumZ inside (threads st) = Z.of_nat (length (threads st))).
        { pose proof (inv_places _ _ Hi) as Hpl. clear -Hall Hpl Hrb. induction (threads st) as [|p l IH]; [done|].
          inversion Hall as [|? ? Hp Hl]; inversion Hpl as [|? ? Hp' Hl']; subst. change (length (p :: l)) with (S (length l)).
          simpl. rewrite IH by done. destruct Hp as [->| ->]; [lia|]. simpl in Hp'. lia. }
        pose proof (inv_arrived _ _ Hi). pose proof (inv_room _ _ Hi). lia.
      * exists Main. unfold run, run_main. rewrite Hm, (proj2 (Nat.ltb_lt _ _) E), Hpk. eauto.
  - right. split; [intros t; unfold run; by rewrite Hm|]. destruct (inv_exit _ _ Hi k Hm) as [-> Hen].
    split; [done|]. split; [intros i Hlt; apply (inv_reported _ _ Hi _ _ (Hen i Hlt))|]. split.
    + intros j Hj. pose proof (inv_serial _ _ Hi j) as Hs. pose proof (inv_length _ _ Hi) as Hl.
      assert (Hz : sumZ (serial_at j) (threads st) = 0).
      { apply Z.le_antisymm; [|apply sumZ_nonneg; intros [| | |? []| |] _; simpl; unfold ind; try done; by destruct (_ =? _)%nat].
        assert (Hall : Forall (fun p => p = BEnd) (threads st)).
        { apply Forall_lookup. intros i p Hp. assert (i < numThreads)%nat by (apply lookup_lt_Some in Hp; lia).
          rewrite (Hen i) in Hp by done. by injection Hp. }
        clear -Hall. induction Hall as [|p l -> _ IH]; simpl in *; [done|]. lia. }
      assert (Hr : numBarriers = r).
      { pose proof (inv_room _ _ Hi). pose proof (Hen 0%nat ltac:(lia)) as H0.
        symmetry. exact (Forall_lookup_1 _ _ _ _ (inv_places _ _ Hi) H0). }
      rewrite Hz, <-Hr in Hs. unfold ind in Hs. rewrite (proj2 (Nat.ltb_lt _ _) Hj) in Hs. lia.
    + intros p Hp. pose proof (inv_logged _ _ Hi p Hp). pose proof (inv_length _ _ Hi). lia.
Qed.

Lemma all_came_inv st r : inv st r -> all_came st.
Proof.
  intros Hi i j s Hp.
  assert (Hj : (j < r)%nat).
  { destruct Hp as [Hp|Hp].
    - pose proof (Forall_lookup_1 _ _ _ _ (inv_places _ _ Hi) Hp) as Hx. simpl in Hx. lia.
    - pose proof (inv_logged _ _ Hi _ Hp) as Hlt. simpl in Hlt. destruct (lookup_lt_is_Some_2 _ _ Hlt) as [p Hip].
      pose proof (inv_reported _ _ Hi _ _ Hip) as Hre. pose proof (Forall_lookup_1 _ _ _ _ (inv_places _ _ Hi) Hip) as Hpl.
      assert (Hin : j ∈ seq 0 (reported p)).
      { rewrite <-Hre. apply (list_elem_of_fmap_2' p_barrier _ (Passed i j s)); [|done]. by apply list_elem_of_filter. }
      apply elem_of_seq in Hin. destruct p; simpl in *; lia. }
  split; [apply (inv_full _ _ Hi); right; lia|].
  pose proof (inv_round _ _ Hi). eapply Forall_impl; [exact (inv_places _ _ Hi)|]. intros p Hpl.
  destruct p; simpl in *; rewrite ?Nat.ltb_lt, ?Nat.leb_le; lia.
Qed.

(** C32: With a positive number of threads, from every state that a schedule
    can reach every way to go on ends with the program successful; no thread
    gets past a barrier before all threads have been created and come to it;
    and in the end each thread has reported every barrier once, in order, and
    for each barrier exactly one thread had the special result. *)
Theorem barrier_rounds (st : state) :
  (0 < numThreads)%nat -> reachable run start st -> all_came st /\ always_ends run completed st.
Proof.
  intros Hn Hr. assert (Hi : exists r, inv st r).
  { revert Hr. apply (reachable_ind_inv _ (fun s => exists r, inv s r)); [exists 0%nat; by apply barrier_start_inv|].
    intros t s s' [r Hi] Ht. unfold run in Ht. destruct (main s) eqn:Hm, t; try done; (by exists r; eapply barrier_main_inv) || by eapply barrier_run_inv. }
  split; [destruct Hi; by eapply all_came_inv|].
  apply (ends_by_work run (fun s => exists r, inv s r) completed work); [| |by intros s [r Hs]; eapply barrier_progress|done].
  - intros s [r Hs]. unfold work. assert (0 <= sumZ thread_work (threads s)).
    { apply sumZ_nonneg. intros p Hp. apply (thread_work_nonneg r); [apply (inv_round _ _ Hs)|].
      pose proof (inv_places _ _ Hs) as Hpl. rewrite Forall_forall in Hpl. by apply Hpl. }
    pose proof (inv_length _ _ Hs). destruct (main s) eqn:Hm; [nia|destruct (inv_joined _ _ Hs _ Hm); lia|lia].
  - intros t s s' [r Hs] Ht. split; [|by eapply barrier_run_work].
    unfold run in Ht. destruct (main s) eqn:Hm, t; try done; (by exists r; eapply barrier_main_inv) || by eapply barrier_run_inv.
Qed.

End Program.

(** Two threads and two barriers: the second thread is back from the first
    barrier, the first still in the call. *)
Definition barrier_events : list step := [Main; Main; Thread 0 0; Thread 1 0; Thread 0 0; Thread 1 1; Thread 1 0].
Definition barrier_state : state := default start (run_all (run 2 2) barrier_events start).

Lemma barrier_rounds_witness :
  threads barrier_state = [BPassed 0 false; BCall 1] /\ log barrier_state = [Passed 1 0 true] /\
  all_came 2 2 barrier_state /\ always_ends (run 2 2) (completed 2 2) barrier_state.
Proof.
  split; [by vm_compute|]. split; [by vm_compute|]. refine (barrier_rounds 2 2 barrier_state _ _); [lia|].
  apply (run_all_reachable _ barrier_events _ start); [apply reach_start|by vm_compute].
Defined.
