(* ===== verification/Strerror.v ===== *)
(** threads/strerror.c, strerror_tsd.c and strerror_tls.c (src/tlpi-dist): the
    text of an error number in one buffer for all threads, in a buffer for each
    thread held by thread-specific data, and in thread-local storage. A call is
    one step: what two calls of the last two share is the key, which
    pthread_once protects. *)
From Stdlib Require Import ZArith Lia Ascii String.
From stdpp Require Import base tactics list strings gmap.
From S2P Require Import Prelude CString.
#[local] Open Scope Z_scope.

Definition MAX_ERROR_LEN : Z := 256.

(** [_sys_errlist] and [_sys_nerr]. *)
Class ErrorList := sys_errlist : list (option cstr).
Definition sys_nerr {EL : ErrorList} : Z := Z.of_nat (length sys_errlist).

(** What a call leaves in its buffer. *)
Definition error_text {EL : ErrorList} (err : Z) : cstr :=
  let unknown := snprintf MAX_ERROR_LEN (lit "Unknown error " ++ show_Z err) in
  if (err <? 0) || (sys_nerr <=? err) then unknown
  else
    match sys_errlist !! Z.to_nat err with
    | Some (Some text) => take (Z.to_nat (MAX_ERROR_LEN - 1)) text
    | _ => unknown
    end.

(** ** strerror.c and strerror_tls.c *)

(** The static buffer. *)
Definition strerror_static {EL : ErrorList} (err : Z) : M cstr unit := modify (fun _ => error_text err).

(** The buffers of the threads, zeros at first. *)
Definition strerror_tls {EL : ErrorList} (t : nat) (err : Z) : M (nat -> cstr) unit :=
  modify (fun bufs t' => if decide (t' = t) then error_text err else bufs t').

(** ** strerror_tsd.c *)

(** [keys]: the keys created; [strerrorKey] the static variable; [specific] the
    values of threads for a key. *)
Record tsd := Tsd {
  once : bool;
  keys : nat;
  strerrorKey : nat;
  specific : gmap (nat * nat) positive;
  heap : gmap positive cstr
}.

Definition tsd_start : tsd := Tsd false 0 0 ∅ ∅.

Definition createKey : M tsd unit :=
  modify (fun s => Tsd (once s) (S (keys s)) (keys s) (specific s) (heap s)).

Definition pthread_once : M tsd unit :=
  let! s := get in
  if once s then ret tt
  else createKey ;;; modify (fun s => Tsd true (keys s) (strerrorKey s) (specific s) (heap s)).

(** The buffer of a thread; [fails]: malloc gives no more memory. *)
Definition thread_buffer (fails : bool) (t : nat) : M tsd positive :=
  let! s := get in
  match specific s !! (strerrorKey s, t) with
  | Some buf => ret buf
  | None =>
      if fails then exit EXIT_FAILURE
      else
        let buf := fresh (dom (heap s)) in
        modify (fun s => Tsd (once s) (keys s) (strerrorKey s)
          (<[(strerrorKey s, t) := buf]> (specific s)) (<[buf := []]> (heap s))) ;;;
        ret buf
  end.

Definition strerror_tsd {EL : ErrorList} (fails : bool) (t : nat) (err : Z) : M tsd positive :=
  pthread_once ;;;
  let! buf := thread_buffer fails t in
  modify (fun s => Tsd (once s) (keys s) (strerrorKey s) (specific s) (<[buf := error_text err]> (heap s))) ;;;
  ret buf.

(** A thread ends: [destructor] frees its buffer. *)
Definition end_thread (t : nat) : M tsd unit :=
  modify (fun s =>
    match specific s !! (strerrorKey s, t) with
    | Some buf => Tsd (once s) (keys s) (strerrorKey s) (delete (strerrorKey s, t) (specific s)) (delete buf (heap s))
    | None => s
    end).

Inductive event := Call (t : nat) (err : Z) | EndThread (t : nat).

Definition perform {EL : ErrorList} (e : event) : M tsd unit :=
  match e with
  | Call t err => strerror_tsd false t err ;;; ret tt
  | EndThread t => end_thread t
  end.

(** ** Each thread keeps its text *)

(** The last error that each thread has asked for since it started. *)
Definition last_errors (es : list event) : gmap nat Z :=
  foldl (fun m e => match e with Call t err => <[t := err]> m | EndThread t => delete t m end) ∅ es.

Section Texts.
Context {EL : ErrorList}.

(** The buffers of the threads are distinct, are all there is on the heap, and
    hold the texts of [m]. *)
Record holds_texts (m : gmap nat Z) (s : tsd) : Prop := {
  ht_key : if once s then keys s = 1%nat /\ strerrorKey s = 0%nat else keys s = 0%nat /\ specific s = ∅;
  ht_keys k t buf : specific s !! (k, t) = Some buf -> k = strerrorKey s;
  ht_text t : (specific s !! (strerrorKey s, t) ≫= fun buf => heap s !! buf) = error_text <$> m !! t;
  ht_distinct t t' buf : specific s !! (strerrorKey s, t) = Some buf ->
    specific s !! (strerrorKey s, t') = Some buf -> t = t';
  ht_alive t buf : specific s !! (strerrorKey s, t) = Some buf -> is_Some (heap s !! buf);
  ht_heap buf : is_Some (heap s !! buf) -> exists t, specific s !! (strerrorKey s, t) = Some buf
}.
Lemma texts_start : holds_texts ∅ tsd_start.
Proof. split; simpl; try done; [intros buf Hb; by rewrite lookup_empty in Hb; destruct Hb]. Qed.

Lemma ht_none m s : holds_texts m s -> once s = false -> forall t, specific s !! (strerrorKey s, t) = None.
Proof. intros Hh Ho t. pose proof (ht_key _ _ Hh) as Hk. rewrite Ho in Hk. destruct Hk as [_ ->]. apply lookup_empty. Qed.

Lemma wp_pthread_once m s (Q : unit -> tsd -> Prop) E : holds_texts m s ->
  (forall s', holds_texts m s' -> once s' = true -> Q tt s') -> wp pthread_once Q E s.
Proof.
  intros Hh HQ. apply wp_bind, wp_get. destruct (once s) eqn:Ho; [by apply wp_ret, HQ|].
  apply wp_bind, wp_modify, wp_modify. apply HQ; [|done].
  pose proof (ht_none _ _ Hh Ho) as Hn. destruct Hh as [Hk Hks Ht Hd Ha Hp]. rewrite Ho in Hk. destruct Hk as [Hk Hsp].
  split; simpl.
  - by rewrite Hk.
  - intros k t buf. by rewrite Hsp, lookup_empty.
  - intros t. rewrite Hsp, lookup_empty. simpl. rewrite <-Ht, Hn. done.
  - intros t t' buf. by rewrite Hsp, lookup_empty.
  - intros t buf. by rewrite Hsp, lookup_empty.
  - intros buf Hb. destruct (Hp buf Hb) as [t Hx]. by rewrite Hn in Hx.
Qed.

(** A buffer for the thread, as it was if there is one. *)
Lemma wp_thread_buffer m s t (Q : positive -> tsd -> Prop) E : holds_texts m s -> once s = true ->
  (forall buf s', specific s' !! (strerrorKey s', t) = Some buf ->
    (forall v, holds_texts (<[t := v]> m)
       (Tsd (once s') (keys s') (strerrorKey s') (specific s') (<[buf := error_text v]> (heap s')))) -> Q buf s') ->
  wp (thread_buffer false t) Q E s.
Proof.
  intros Hh Ho HQ. apply wp_bind, wp_get.
  pose proof Hh as [Hk Hks Ht Hd Ha Hp]. rewrite Ho in Hk.
  destruct (specific s !! (strerrorKey s, t)) as [buf|] eqn:Hs.
  - apply wp_ret, HQ; [done|]. intros v. split; simpl; try done.
    + by rewrite Ho.
    + intros t'. destruct (decide (t' = t)) as [->|Hne].
      * rewrite Hs, lookup_insert_eq. simpl. by rewrite lookup_insert_eq.
      * rewrite (lookup_insert_ne m) by done. rewrite <-Ht. destruct (specific s !! (_, t')) as [b|] eqn:Hb; [|done]. simpl.
        rewrite lookup_insert_ne; [done|]. intros <-. by destruct Hne; eapply Hd.
    + intros t' b Hb. apply lookup_insert_is_Some'. right. eauto.
    + intros b Hb. destruct (decide (b = buf)) as [->|]; [eauto|]. rewrite lookup_insert_ne in Hb by done. eauto.
  - apply wp_bind, wp_modify, wp_ret. set (buf := fresh (dom (heap s))).
    assert (Hfr : heap s !! buf = None) by apply not_elem_of_dom, is_fresh.
    assert (Hnew : forall t', specific s !! (strerrorKey s, t') <> Some buf).
    { intros t' Hx. destruct (Ha _ _ Hx) as [x Hy]. by rewrite Hfr in Hy. }
    apply HQ; [apply lookup_insert_eq|]. intros v. simpl. rewrite insert_insert_eq. split; simpl; try done.
    + by rewrite Ho.
    + intros k t' b. destruct (decide ((k, t') = (strerrorKey s, t))) as [[= -> ->]|Hne]; [done|].
      rewrite lookup_insert_ne by done. apply Hks.
    + intros t'. destruct (decide (t' = t)) as [->|Hne].
      * rewrite !lookup_insert_eq. simpl. by rewrite lookup_insert_eq.
      * rewrite (lookup_insert_ne m) by done. rewrite (lookup_insert_ne (specific s)) by congruence. rewrite <-Ht.
        destruct (specific s !! (_, t')) as [b|] eqn:Hb; [|done]. simpl.
        rewrite lookup_insert_ne; [done|]. intros <-. by apply (Hnew t').
    + intros t1 t2 b. destruct (decide (t1 = t)) as [->|H1], (decide (t2 = t)) as [->|H2]; [done|..];
        rewrite ?lookup_insert_eq, ?(lookup_insert_ne (specific s)) by congruence.
      * intros [= <-] Hx. by destruct (Hnew t2).
      * intros Hx [= <-]. by destruct (Hnew t1).
      * apply Hd.
    + intros t' b. destruct (decide (t' = t)) as [->|Hne].
      * rewrite lookup_insert_eq. intros [= <-]. rewrite lookup_insert_eq. eauto.
      * rewrite (lookup_insert_ne (specific s)) by congruence. intros Hx. apply lookup_insert_is_Some'. right. eauto.
    + intros b Hb. destruct (decide (b = buf)) as [->|Hne]; [exists t; apply lookup_insert_eq|].
      rewrite lookup_insert_ne in Hb by done. destruct (Hp b Hb) as [t' Hx]. exists t'.
      rewrite lookup_insert_ne; [done|]. intros [= <-]. by rewrite Hs in Hx.
Qed.

Lemma wp_perform m e s (Q : unit -> tsd -> Prop) E : holds_texts m s ->
  (forall s', holds_texts (match e with Call t err => <[t := err]> m | EndThread t => delete t m end) s' -> Q tt s') ->
  wp (perform e) Q E s.
Proof.
  intros Hh HQ. destruct e as [t err|t].
  - apply wp_bind, wp_bind, (wp_pthread_once m); [done|]. intros s1 Hh1 Ho1.
    apply wp_bind, (wp_thread_buffer m); [done|done|]. intros buf s2 _ H2. apply wp_bind, wp_modify, wp_ret, wp_ret.
    apply HQ, H2.
  - apply wp_modify, HQ. pose proof Hh as [Hk Hks Ht Hd Ha Hp]. destruct (specific s !! _) as [buf|] eqn:Hs.
    + assert (Hother : forall t', t' <> t -> specific s !! (strerrorKey s, t') <> Some buf).
      { intros t' Hne Hx. by destruct Hne; eapply Hd. }
      split; simpl.
      * destruct (once s); [done|]. destruct Hk as [_ Hk]. by rewrite Hk, lookup_empty in Hs.
      * intros k t' b Hb. apply lookup_delete_Some in Hb as [_ Hb]. by eapply Hks.
      * intros t'. destruct (decide (t' = t)) as [->|Hne]; [by rewrite !lookup_delete_eq|].
        rewrite (lookup_delete_ne m), (lookup_delete_ne (specific s)) by congruence. rewrite <-Ht.
        destruct (specific s !! (_, t')) as [b|] eqn:Hb; [|done]. simpl. rewrite lookup_delete_ne; [done|].
        intros <-. by destruct (Hother t').
      * intros t1 t2 b [_ H1]%lookup_delete_Some [_ H2]%lookup_delete_Some. by eapply Hd.
      * intros t' b [Hne Hb]%lookup_delete_Some. destruct (Ha _ _ Hb) as [x Hx]. exists x.
        rewrite lookup_delete_ne; [done|]. intros <-. destruct (Hother t'); [congruence|done].
      * intros b [x [Hne Hx]%lookup_delete_Some]. destruct (Hp b) as [t' Ht']; [eauto|]. exists t'.
        rewrite lookup_delete_ne; [done|]. congruence.
    + rewrite delete_id; [done|]. pose proof (Ht t) as Hy. rewrite Hs in Hy. simpl in Hy. by destruct (m !! t).
Qed.

Lemma error_text_length err : strlen (error_text err) < MAX_ERROR_LEN.
Proof.
  unfold error_text. destruct (_ || _); [by apply snprintf_bound|].
  by destruct (_ !! _) as [[t|]|]; apply snprintf_bound.
Qed.

(** After any sequence of calls by any threads, each thread that has called
    strerror since it started has a buffer of its own with the text of its
    last error, null included within MAX_ERROR_LEN; nothing else is allocated,
    and the key has been created at most once. *)
Theorem strerror_per_thread (es : list event) :
  wp (for_each es perform) (fun _ s =>
    (forall t err, last_errors es !! t = Some err ->
      exists buf, specific s !! (strerrorKey s, t) = Some buf /\ heap s !! buf = Some (error_text err) /\
        strlen (error_text err) < MAX_ERROR_LEN) /\
    (forall t t' buf, specific s !! (strerrorKey s, t) = Some buf ->
      specific s !! (strerrorKey s, t') = Some buf -> t = t') /\
    (forall buf, is_Some (heap s !! buf) -> exists t, specific s !! (strerrorKey s, t) = Some buf /\
      is_Some (last_errors es !! t)) /\
    (keys s <= 1)%nat) (fun _ _ => False) tsd_start.
Proof.
  assert (Hgo : forall es m s (Q : unit -> tsd -> Prop), holds_texts m s ->
    (forall s', holds_texts (foldl (fun m e => match e with Call t err => <[t := err]> m | EndThread t => delete t m end) m es) s' -> Q tt s') ->
    wp (for_each es perform) Q (fun _ _ => False) s).
  { clear es. intros es. induction es as [|e es IH]; intros m s Q Hh HQ; [by apply wp_ret, HQ|].
    apply wp_bind, (wp_perform m); [done|]. intros s1 H1. by eapply IH. }
  apply (Hgo es ∅); [apply texts_start|]. intros s Hh. fold (last_errors es) in Hh.
  destruct Hh as [Hk Hks Ht Hd Ha Hp]. split_and!.
  - intros t err Hl. specialize (Ht t). rewrite Hl in Ht. destruct (specific s !! _) as [buf|]; [|done].
    exists buf. split; [done|]. split; [done|]. apply error_text_length.
  - exact Hd.
  - intros buf Hb. destruct (Hp buf Hb) as [t Hx]. exists t. split; [done|]. specialize (Ht t). rewrite Hx in Ht. simpl in Ht.
    destruct Hb as [x Hb]. rewrite Hb in Ht. destruct (last_errors es !! t); [eauto|done].
  - destruct (once s); destruct Hk as [-> _]; lia.
Qed.

End Texts.

(** EPERM and EINVAL, as strerror_test asks for them. *)
#[export] Instance demo_errors : ErrorList := (fun n => if decide (n = 1%nat) then Some (lit "Operation not permitted")
  else if decide (n = 22%nat) then Some (lit "Invalid argument") else None) <$> seq 0 23.

(** strerror_test: with the static buffer main's text is the other thread's. *)
Example static_overwritten :
  match (strerror_static 22 ;;; strerror_static 1)%c [] with
  | Ret _ buf => buf = lit "Operation not permitted"
  | _ => False
  end.
Proof. by vm_compute. Qed.

Example tsd_kept :
  match for_each [Call 0 22; Call 1 1; Call 1 (-7); EndThread 1] perform tsd_start with
  | Ret _ s => map_to_list (heap s) = [(1%positive, lit "Invalid argument")]
  | _ => False
  end.
Proof. by vm_compute. Qed.

Example tls_kept :
  match (strerror_tls 0 22 ;;; strerror_tls 1 (-7))%c (fun _ => []) with
  | Ret _ bufs => bufs 0%nat = lit "Invalid argument" /\ bufs 1%nat = lit "Unknown error -7"
  | _ => False
  end.
Proof. by vm_compute. Qed.
