(* ===== verification/MultiJoin.v ===== *)
(** threads/thread_multijoin.c (src/tlpi-dist): main waits for any of its
    threads to terminate, and joins with those that have, until none is left;
    as a transition system. What a thread does to shared variables while it
    holds the mutex is one event. *)
From Stdlib Require Import ZArith Lia Ascii String.
From stdpp Require Import base tactics list strings.
From S2P Require Import Prelude CString Transitions.
#[local] Open Scope Z_scope.

(** ** The program *)

Inductive tstate := TS_ALIVE | TS_TERMINATED | TS_JOINED.
#[export] Instance tstate_eq_dec : EqDecision tstate.
Proof. solve_decision. Defined.

(** Where a thread is: in its sleep, at the lock, counting itself, at the unlock,
    at the signal, ended. *)
Inductive thread_pc := TSleep | TLock | TMark | TUnlock | TSignal | TDone.
#[export] Instance thread_pc_eq_dec : EqDecision thread_pc.
Proof. solve_decision. Defined.

(** Where main is: creating thread [k], setting the totals, at the head of its
    loop, locking, testing [numUnjoined], asleep, locking again, looking at
    thread [k], joining with it, unlocking, ended. *)
Inductive main_pc := MCreate (k : nat) | MTotals | MHead | MLock | MTest | MSleep | MWake
  | MScan (k : nat) | MJoin (k : nat) | MUnlock | MExit (e : exit_kind).

(** The lines printed: by thread [i], and by main. *)
Inductive line := Terminating (i : nat) | Reaped (i : nat) (numLive : Z).

Definition line_text (l : line) : cstr :=
  match l with
  | Terminating i => lit "Thread " ++ show_Z (Z.of_nat i) ++ lit " terminating" ++ [NEWLINE]
  | Reaped i n =>
      lit "Reaped thread " ++ show_Z (Z.of_nat i) ++ lit " (numLive=" ++ show_Z n ++ lit ")" ++ [NEWLINE]
  end.

Record state := State {
  mtx : option tid;
  pc : main_pc;
  threads : list thread_pc;
  states : list tstate;
  totThreads : nat;
  numLive : Z;
  numUnjoined : Z;
  out : list line
}.

(** After [calloc], with [n] arguments. *)
Definition start (n : nat) : state := State None (MCreate 0) [] (replicate n TS_ALIVE) 0 0 0 [].

(** pthread_cond_signal: main is the only thread that waits. *)
Definition signalled (m : main_pc) : main_pc := match m with MSleep => MWake | _ => m end.

(** One step of threadFunc in thread [i]. *)
Definition run_thread (i : nat) (st : state) : option state :=
  match threads st !! i with
  | None => None
  | Some p =>
      let goto m pc q ss u o := Some (State m pc (<[i := q]> (threads st)) ss (totThreads st) (numLive st) u o) in
      let stay q := goto (mtx st) (pc st) q (states st) (numUnjoined st) in
      match p with
      | TSleep => stay TLock (out st ++ [Terminating i])
      | TLock =>
          match mtx st with
          | None => goto (Some (Thread i)) (pc st) TMark (states st) (numUnjoined st) (out st)
          | Some _ => None
          end
      | TMark =>
          goto (mtx st) (pc st) TUnlock (<[i := TS_TERMINATED]> (states st)) (numUnjoined st + 1) (out st)
      | TUnlock => goto None (pc st) TSignal (states st) (numUnjoined st) (out st)
      | TSignal => goto (mtx st) (signalled (pc st)) TDone (states st) (numUnjoined st) (out st)
      | TDone => None
      end
  end.

(** One step of main. *)
Definition run_main (n : nat) (st : state) : option state :=
  let at_ m pc := Some (State m pc (threads st) (states st) (totThreads st) (numLive st) (numUnjoined st) (out st)) in
  let goto pc := at_ (mtx st) pc in
  let lock pc := match mtx st with None => at_ (Some Main) pc | Some _ => None end in
  match pc st with
  | MCreate k =>
      if decide (k < n)%nat then
        Some (State (mtx st) (MCreate (S k)) (threads st ++ [TSleep]) (<[k := TS_ALIVE]> (states st))
          (totThreads st) (numLive st) (numUnjoined st) (out st))
      else goto MTotals
  | MTotals => Some (State (mtx st) MHead (threads st) (states st) n (Z.of_nat n) (numUnjoined st) (out st))
  | MHead => goto (if 0 <? numLive st then MLock else MExit EXIT_SUCCESS)
  | MLock | MWake => lock MTest
  | MTest => if numUnjoined st =? 0 then at_ None MSleep else goto (MScan 0)
  | MSleep => None
  | MScan k =>
      if decide (k < totThreads st)%nat then
        goto (if decide (states st !! k = Some TS_TERMINATED) then MJoin k else MScan (S k))
      else goto MUnlock
  | MJoin k =>
      match threads st !! k with
      | Some TDone =>
          Some (State (mtx st) (MScan (S k)) (threads st) (<[k := TS_JOINED]> (states st)) (totThreads st)
            (numLive st - 1) (numUnjoined st - 1) (out st ++ [Reaped k (numLive st - 1)]))
      | _ => None
      end
  | MUnlock => at_ None MHead
  | MExit _ => None
  end.

Definition run (n : nat) (t : tid) (st : state) : option state :=
  match pc st, t with
  | MExit _, _ => None
  | _, Main => run_main n st
  | _, Thread i => run_thread i st
  end.

(** A wakeup without a signal, and an argument that is not a number or a thread
    that cannot be created. *)
Inductive event := Run (t : tid) | Spurious | CreateFails.

Definition set_pc (m : main_pc) (st : state) : state :=
  State (mtx st) m (threads st) (states st) (totThreads st) (numLive st) (numUnjoined st) (out st).

Definition fire (n : nat) (e : event) (st : state) : option state :=
  match e, pc st with
  | Run t, _ => run n t st
  | Spurious, MSleep => Some (set_pc MWake st)
  | CreateFails, MCreate _ => Some (set_pc (MExit EXIT_FAILURE) st)
  | _, _ => None
  end.

(** ** The invariant *)

Definition main_owns (m : main_pc) : bool :=
  match m with MTest | MScan _ | MJoin _ | MUnlock => true | _ => false end.
Definition thread_owns (p : thread_pc) : bool := match p with TMark | TUnlock => true | _ => false end.
Definition thread_owner (m : option tid) : option nat := match m with Some (Thread i) => Some i | _ => None end.
Definition will_signal (p : thread_pc) : bool := match p with TUnlock | TSignal => true | _ => false end.

(** What the table says of a thread. *)
Definition entry_ok (s : tstate) (p : option thread_pc) : Prop :=
  match s with
  | TS_ALIVE => p = None \/ p = Some TSleep \/ p = Some TLock \/ p = Some TMark
  | TS_TERMINATED => p = Some TUnlock \/ p = Some TSignal \/ p = Some TDone
  | TS_JOINED => p = Some TDone
  end.

Definition unjoined (s : tstate) : Z := match s with TS_TERMINATED => 1 | _ => 0 end.
Definition joined (s : tstate) : Z := match s with TS_JOINED => 1 | _ => 0 end.

Definition created (n : nat) (m : main_pc) : nat := match m with MCreate k => k | _ => n end.

(** The table has no unjoined thread before place [scanned]. *)
Definition scanned (n : nat) (m : main_pc) : nat :=
  match m with MScan k | MJoin k => k | MUnlock => n | _ => 0 end.

Definition reaped (o : list line) : list (nat * Z) :=
  omap (fun l => match l with Reaped i n => Some (i, n) | Terminating _ => None end) o.
(** Threads reaped in this order, with the number that is left each time. *)
Definition numbered (n : nat) (p : list nat) : list (nat * Z) :=
  imap (fun k i => (i, Z.of_nat n - 1 - Z.of_nat k)) p.

Record inv (n : nat) (st : state) : Prop := {
  inv_main : mtx st = Some Main <-> main_owns (pc st) = true;
  inv_threads : holds thread_owns (thread_owner (mtx st)) (threads st);
  inv_created : length (threads st) = created n (pc st) /\ (created n (pc st) <= n)%nat;
  inv_table : length (states st) = n;
  inv_entries i s : states st !! i = Some s -> entry_ok s (threads st !! i);
  inv_unjoined : numUnjoined st = sumZ unjoined (states st);
  inv_joined : sumZ joined (states st) =
    match pc st with MCreate _ | MTotals => 0 | _ => Z.of_nat n - numLive st end;
  inv_reaped : exists p, reaped (out st) = numbered n p /\ NoDup p /\
    (forall i, i ∈ p <-> states st !! i = Some TS_JOINED) /\
    match pc st with MCreate _ | MTotals => p = [] | _ => Z.of_nat (length p) + numLive st = Z.of_nat n end;
  inv_total : match pc st with MCreate _ | MTotals => True | _ => totThreads st = n end;
  inv_live : match pc st with MLock | MTest | MSleep | MWake => 0 < numLive st | _ => True end;
  inv_scanned i : (i < scanned n (pc st))%nat -> states st !! i <> Some TS_TERMINATED;
  inv_join : match pc st with
    | MScan k => (k <= n)%nat
    | MJoin k => states st !! k = Some TS_TERMINATED
    | _ => True
    end;
  inv_signal : pc st = MSleep -> 0 < numUnjoined st ->
    exists i p, threads st !! i = Some p /\ will_signal p = true;
  inv_exit e : pc st = MExit e -> e = EXIT_SUCCESS /\ numLive st = 0
}.

Section Invariant.
Context (n : nat).
Implicit Types (st : state).

Lemma multijoin_start_inv : inv n (start n).
Proof.
  split; simpl; try done; try lia.
  - by apply holds_start, Forall_nil.
  - apply length_replicate.
  - intros i s Hs. apply lookup_replicate in Hs as [-> _]. left. by rewrite lookup_nil.
  - clear. induction n; simpl; [done|lia].
  - clear. induction n; simpl; [done|lia].
  - exists []. split_and!; try done; [by apply NoDup_nil|]. intros i. split; [by intros ?%elem_of_nil|].
    intros Hs. by apply lookup_replicate in Hs as [? _].
Qed.

(** What the places of main that a signal leads between have in common. *)
Lemma signalled_same m : main_owns (signalled m) = main_owns m /\ created n (signalled m) = created n m /\
  scanned n (signalled m) = scanned n m.
Proof. by destruct m. Qed.

(** A thread moves and leaves the table alone. *)
Lemma thread_moves st i p q m' pc' o' : inv n st -> threads st !! i = Some p ->
  (forall s, states st !! i = Some s -> entry_ok s (Some p) -> entry_ok s (Some q)) ->
  (thread_owns q = thread_owns p /\ m' = mtx st \/
   thread_owns q = true /\ mtx st = None /\ m' = Some (Thread i) \/
   thread_owns p = true /\ thread_owns q = false /\ m' = None) ->
  (pc' = pc st /\ (will_signal p = true -> will_signal q = true) \/ pc' = signalled (pc st)) ->
  reaped o' = reaped (out st) ->
  inv n (State m' pc' (<[i := q]> (threads st)) (states st) (totThreads st) (numLive st) (numUnjoined st) o').
Proof.
  intros [Hm Ht Hc Htab He Hu Hjd Hr Htot Hl Hs Hj Hsig Hex] Hi Hent Hmx Hpc Ho.
  assert (Hexcl : thread_owns p = true -> mtx st = Some (Thread i)).
  { intros Hp. pose proof (holds_owner _ _ _ _ _ Ht Hi Hp) as Hx. destruct (mtx st) as [[|k]|]; simplify_eq/=; done. }
  assert (Hsame : main_owns pc' = main_owns (pc st) /\ created n pc' = created n (pc st) /\
    scanned n pc' = scanned n (pc st)) by (destruct Hpc as [[-> _]| ->]; [done|apply signalled_same]).
  destruct Hsame as (Hown & Hcr & Hsc).
  split; simpl; rewrite ?Hown, ?Hcr, ?Hsc, ?Ho, ?length_insert; try done.
  - rewrite <-Hm. destruct Hmx as [[_ ->]|[(_ & -> & ->)|(Hp & _ & ->)]]; [done|done|by rewrite (Hexcl Hp)].
  - destruct Hmx as [[Hq ->]|[(Hq & Hn & ->)|(Hp & Hq & ->)]].
    + by apply (holds_keep _ _ _ _ p).
    + rewrite Hn in Ht. by apply (holds_take _ _ _ p).
    + by apply (holds_leave _ (thread_owner (mtx st)) _ _ p).
  - intros k s Hk. specialize (He k s Hk). destruct (decide (k = i)) as [->|Hne].
    + rewrite list_lookup_insert_eq by by eapply lookup_lt_Some. apply Hent; [done|]. by rewrite <-Hi.
    + by rewrite list_lookup_insert_ne by done.
  - destruct Hpc as [[-> _]| ->]; [done|]. by destruct (pc st).
  - destruct Hpc as [[-> _]| ->]; [done|]. by destruct (pc st).
  - destruct Hpc as [[-> _]| ->]; [done|]. by destruct (pc st).
  - destruct Hpc as [[-> _]| ->]; [done|]. by destruct (pc st).
  - destruct Hpc as [[-> _]| ->]; [done|]. by destruct (pc st).
  - intros Hx Hpos. destruct Hpc as [[-> Hw]| ->]; [|by destruct (pc st)].
    destruct (Hsig Hx Hpos) as (k & x & Hk & Hxs). destruct (decide (k = i)) as [->|Hne].
    + simplify_eq. exists i, q. split; [|by apply Hw]. apply list_lookup_insert_eq. by eapply lookup_lt_Some.
    + exists k, x. by rewrite list_lookup_insert_ne by done.
  - intros e Hx. apply (Hex e). destruct Hpc as [[-> _]| ->]; [done|]. by destruct (pc st).
Qed.

(** A thread counts itself, while it holds the mutex. *)
Lemma thread_marks st i : inv n st -> threads st !! i = Some TMark ->
  inv n (State (mtx st) (pc st) (<[i := TUnlock]> (threads st)) (<[i := TS_TERMINATED]> (states st))
    (totThreads st) (numLive st) (numUnjoined st + 1) (out st)).
Proof.
  intros [Hm Ht Hc Htab He Hu Hjd Hr Htot Hl Hs Hj Hsig Hex] Hi.
  assert (Hmi : mtx st = Some (Thread i)).
  { pose proof (holds_owner _ _ _ _ _ Ht Hi eq_refl) as Hx. destruct (mtx st) as [[|k]|]; simplify_eq/=; done. }
  assert (Hown : main_owns (pc st) = false).
  { destruct (main_owns (pc st)) eqn:Ho; [|done]. assert (mtx st = Some Main) by by apply Hm. congruence. }
  assert (Hst : states st !! i = Some TS_ALIVE).
  { destruct (lookup_lt_is_Some_2 (states st) i) as [s Hst].
    { rewrite Htab. apply lookup_lt_Some in Hi. lia. }
    pose proof (He i s Hst) as Hx. rewrite Hi in Hx. rewrite Hst. f_equal. destruct s; simpl in Hx; naive_solver. }
  split; simpl; rewrite ?length_insert; try done.
  - by apply (holds_keep _ _ _ _ TMark).
  - intros k s Hk. destruct (lookup_insert_cases _ _ _ _ _ _ Hst Hk) as [[-> ->]|[Hne Hk']].
    + rewrite list_lookup_insert_eq by by eapply lookup_lt_Some. by left.
    + rewrite list_lookup_insert_ne by done. by apply He.
  - rewrite (sumZ_insert _ _ _ _ _ Hst). simpl. lia.
  - rewrite (sumZ_insert _ _ _ _ _ Hst). simpl. lia.
  - destruct Hr as (p & H1 & H2 & H3 & H4). exists p. split_and!; try done.
    intros k. rewrite H3. destruct (decide (k = i)) as [->|Hne].
    + rewrite Hst, list_lookup_insert_eq by by eapply lookup_lt_Some. by split.
    + by rewrite list_lookup_insert_ne by done.
  - intros k Hk. destruct (pc st); simpl in *; try done; lia.
  - by destruct (pc st).
  - intros _ _. exists i, TUnlock. split; [|done]. apply list_lookup_insert_eq. by eapply lookup_lt_Some.
Qed.

Lemma multi_thread_inv st i st' : inv n st -> run_thread i st = Some st' -> inv n st'.
Proof.
  intros Hi. unfold run_thread. destruct (threads st !! i) as [p|] eqn:Hp; [|done].
  destruct p; intros Hst; simplify_eq.
  - eapply thread_moves; try done; simpl; [|by left|by left|].
    + intros []; simpl; naive_solver.
    + unfold reaped. rewrite omap_app. by rewrite app_nil_r.
  - destruct (mtx st) eqn:Hm; [done|]. simplify_eq. eapply thread_moves; try done; simpl; [|by auto|by left].
    intros []; simpl; naive_solver.
  - by apply thread_marks.
  - eapply thread_moves; try done; simpl; [|by auto|by left]. intros []; simpl; naive_solver.
  - eapply thread_moves; try done; simpl; [|by left|by right]. intros []; simpl; naive_solver.
Qed.

(** Main goes to another place without touching what is shared. *)
Lemma main_goes st m' pc' : inv n st -> thread_owner m' = thread_owner (mtx st) ->
  (m' = Some Main <-> main_owns pc' = true) -> created n pc' = created n (pc st) ->
  match pc st, pc' with
  | MCreate _, (MCreate _ | MTotals) => True
  | (MCreate _ | MTotals), _ => False
  | _, (MCreate _ | MTotals) => False
  | _, _ => True
  end ->
  match pc' with MLock | MTest | MSleep | MWake => 0 < numLive st | _ => True end ->
  (forall i, (i < scanned n pc')%nat -> states st !! i <> Some TS_TERMINATED) ->
  match pc' with
  | MScan k => (k <= n)%nat | MJoin k => states st !! k = Some TS_TERMINATED | _ => True
  end ->
  (pc' = MSleep -> numUnjoined st = 0) ->
  (forall e, pc' = MExit e -> e = EXIT_SUCCESS /\ numLive st = 0) ->
  inv n (State m' pc' (threads st) (states st) (totThreads st) (numLive st) (numUnjoined st) (out st)).
Proof.
  intros [Hm Ht Hc Htab He Hu Hjd Hr Htot Hl Hs Hj Hsig Hex] Hmo Hown Hcr Hphase Hlive Hsc Hjn Hsl Hxt.
  split; simpl; rewrite ?Hcr, ?Hmo; try done.
  - by destruct (pc st), pc'.
  - destruct Hr as (p & H1 & H2 & H3 & H4). exists p. split_and!; try done.
    by destruct (pc st), pc'.
  - by destruct (pc st), pc'.
  - intros Hx Hpos. specialize (Hsl Hx). lia.
Qed.

(** The table has as many entries of any two kinds as it has places at most. *)
Lemma joined_unjoined_le (l : list tstate) : 0 <= sumZ unjoined l /\ sumZ joined l + sumZ unjoined l <= Z.of_nat (length l).
Proof. induction l as [|[] l IH]; simpl; lia. Qed.

(** The threads joined are some of the [n]. *)
Lemma joined_submseteq st p : length (states st) = n -> NoDup p ->
  (forall i, i ∈ p <-> states st !! i = Some TS_JOINED) -> p ⊆+ seq 0 n.
Proof.
  intros Hl Hd Hp. apply NoDup_submseteq; [done|]. intros i Hi. apply elem_of_seq.
  apply Hp in Hi. apply lookup_lt_Some in Hi. lia.
Qed.

Lemma live_nonneg st : inv n st ->
  match pc st with MCreate _ | MTotals => True | _ => 0 <= numUnjoined st <= numLive st end.
Proof.
  intros Hi. pose proof (joined_unjoined_le (states st)) as [H1 H2]. rewrite (inv_table _ _ Hi) in H2.
  pose proof (inv_joined _ _ Hi). pose proof (inv_unjoined _ _ Hi). destruct (pc st); done || lia.
Qed.

Lemma unmarked_entry st i : inv n st -> (forall p, threads st !! i = Some p -> p = TSleep) -> (i < n)%nat ->
  states st !! i = Some TS_ALIVE.
Proof.
  intros Hi Hp Hlt. destruct (lookup_lt_is_Some_2 (states st) i) as [s Hst]; [by rewrite (inv_table _ _ Hi)|].
  rewrite Hst. f_equal. pose proof (inv_entries _ _ Hi i s Hst) as Hx.
  destruct (threads st !! i) as [q|]; [rewrite (Hp q eq_refl) in Hx|]; destruct s; simpl in Hx; naive_solver.
Qed.

Lemma create_inv st k : inv n st -> pc st = MCreate k -> (k < n)%nat ->
  inv n (State (mtx st) (MCreate (S k)) (threads st ++ [TSleep]) (<[k := TS_ALIVE]> (states st))
          (totThreads st) (numLive st) (numUnjoined st) (out st)).
Proof.
  intros Hi Hpc Hk. pose proof (inv_created _ _ Hi) as Hc. rewrite Hpc in Hc. simpl in Hc.
  assert (Hnew : states st !! k = Some TS_ALIVE).
  { apply unmarked_entry; [done| |done]. intros p Hp. apply lookup_lt_Some in Hp. lia. }
  destruct Hi as [Hm Ht _ Htab He Hu Hjd Hr Htot Hl Hs Hj Hsig Hex]. rewrite Hpc in *.
  rewrite (list_insert_id _ _ _ Hnew). split; simpl; rewrite ?length_app; try done; simpl; try lia.
  - by apply holds_app.
  - intros i s Hx. specialize (He i s Hx). destruct (decide (i = k)) as [->|Hne].
    + assert (length (threads st) = k) as <- by lia. rewrite lookup_app_r, Nat.sub_diag by done. simpl.
      rewrite Hnew in Hx. injection Hx as <-. simpl. auto.
    + destruct (decide (i < k)%nat); [by rewrite lookup_app_l by lia|].
      rewrite lookup_ge_None_2 in He by lia.
      rewrite lookup_ge_None_2; [done|]. rewrite length_app. simpl. lia.
Qed.

Lemma join_inv st k : inv n st -> pc st = MJoin k -> threads st !! k = Some TDone ->
  inv n (State (mtx st) (MScan (S k)) (threads st) (<[k := TS_JOINED]> (states st)) (totThreads st)
    (numLive st - 1) (numUnjoined st - 1) (out st ++ [Reaped k (numLive st - 1)])).
Proof.
  intros [Hm Ht Hc Htab He Hu Hjd Hr Htot Hl Hs Hj Hsig Hex] Hpc Hk. rewrite Hpc in *. simpl in *.
  assert (Hkn : (k < n)%nat) by (apply lookup_lt_Some in Hj; lia).
  split; simpl; rewrite ?length_insert; try done.
  - intros i s Hi. destruct (lookup_insert_cases _ _ _ _ _ _ Hj Hi) as [[-> ->]|[_ Hi']]; [done|by apply He].
  - rewrite (sumZ_insert _ _ _ _ _ Hj). simpl. lia.
  - rewrite (sumZ_insert _ _ _ _ _ Hj). simpl. lia.
  - destruct Hr as (p & H1 & H2 & H3 & H4). exists (p ++ [k]).
    assert (Hnew : k ∉ p) by (rewrite H3, Hj; congruence). split_and!.
    + unfold reaped, numbered in *. rewrite omap_app, imap_app, H1. simpl. do 3 f_equal. lia.
    + apply NoDup_app. split_and!; [done| |by apply NoDup_singleton].
      by intros x Hx ->%list_elem_of_singleton.
    + intros i. rewrite elem_of_app, list_elem_of_singleton, H3.
      destruct (decide (i = k)) as [->|Hne].
      * rewrite list_lookup_insert_eq by by eapply lookup_lt_Some. naive_solver.
      * rewrite list_lookup_insert_ne by done. naive_solver.
    + rewrite length_app. simpl. lia.
  - intros i Hi. destruct (decide (i = k)) as [->|Hne].
    + by rewrite list_lookup_insert_eq by by eapply lookup_lt_Some.
    + rewrite list_lookup_insert_ne by done. apply Hs. lia.
Qed.

Lemma no_unjoined st : inv n st -> (forall i, (i < n)%nat -> states st !! i <> Some TS_TERMINATED) -> numUnjoined st = 0.
Proof.
  intros Hi H. rewrite (inv_unjoined _ _ Hi).
  rewrite (sumZ_eq _ (fun _ => 0)); [clear; induction (states st); simpl; lia|].
  intros s [i Hs]%list_elem_of_lookup. assert (i < n)%nat by (rewrite <-(inv_table _ _ Hi); by eapply lookup_lt_Some).
  destruct s; try done. by destruct (H i).
Qed.

Lemma multi_main_inv st st' : inv n st -> run_main n st = Some st' -> inv n st'.
Proof.
  intros Hi. pose proof (inv_main _ _ Hi) as Hm. pose proof (inv_join _ _ Hi) as Hj.
  pose proof (inv_scanned _ _ Hi) as Hs. pose proof (inv_total _ _ Hi) as Htot.
  pose proof (inv_live _ _ Hi) as Hl. pose proof (inv_created _ _ Hi) as Hc. pose proof (live_nonneg _ Hi) as Hpos.
  unfold run_main. destruct (pc st) as [k| | | | | | |k|k| |e] eqn:Hpc; simpl in *.
  - destruct (decide (k < n)%nat) as [Hk|Hk]; intros [= <-]; [by apply create_inv|].
    eapply main_goes; try done; rewrite ?Hpc; try done; simpl; lia.
  - intros [= <-]. destruct Hi as [_ Ht _ Htab He Hu Hjd (p & H1 & H2 & H3 & H4) _ _ _ _ _ _].
    rewrite Hpc in H4, Hjd. subst p. split; simpl; try done; [lia|]. exists []. split_and!; try done.
  - intros [= <-]. destruct (Z.ltb_spec 0 (numLive st)); eapply main_goes; try done; rewrite ?Hpc; try done; simpl.
    intros e [= <-]. split; [done|]. lia.
  - destruct (mtx st) eqn:Hx; [done|]. intros [= <-]. eapply main_goes; try done; rewrite ?Hpc, ?Hx; done.
  - destruct (Z.eqb_spec (numUnjoined st) 0); intros [= <-]; eapply main_goes; try done; rewrite ?Hpc; try done.
    all: try (simpl; lia). by rewrite (proj2 Hm).
  - done.
  - destruct (mtx st) eqn:Hx; [done|]. intros [= <-]. eapply main_goes; try done; rewrite ?Hpc, ?Hx; done.
  - destruct (decide (k < totThreads st)%nat) as [Hk|Hk]; rewrite Htot in Hk; [case_decide as Hd|]; intros [= <-];
      eapply main_goes; try done; rewrite ?Hpc; try done; simpl; try lia.
    + intros i Hi'. destruct (decide (i = k)) as [->|]; [done|]. apply Hs. lia.
    + intros i Hi'. apply Hs. lia.
  - destruct (threads st !! k) as [[]|] eqn:Hk; try done. intros [= <-]. by apply join_inv.
  - intros [= <-]. eapply main_goes; try done; rewrite ?Hpc; try done; [by rewrite (proj2 Hm)|]. simpl. lia.
  - done.
Qed.

End Invariant.

(** ** Progress and termination *)

Definition thread_work (p : thread_pc) : Z :=
  10 * match p with TSleep => 5 | TLock => 4 | TMark => 3 | TUnlock => 2 | TSignal => 1 | TDone => 0 end.

Section Progress.
Context (n : nat).
Implicit Types (st : state).

(** More than main does between two joins. *)
Definition round : Z := 2 * Z.of_nat n + 20.

Definition main_work (st : state) : Z :=
  match pc st with
  | MCreate k => 51 * (Z.of_nat n - Z.of_nat k) + round * Z.of_nat n + 12
  | MTotals => round * Z.of_nat n + 11
  | MHead => round * numLive st + 7
  | MLock | MWake => round * numLive st + 6
  | MTest => round * numLive st + 5
  | MSleep => round * numLive st
  | MScan k => round * (numLive st - numUnjoined st) + 2 * (Z.of_nat n - Z.of_nat k) + 9
  | MJoin k => round * (numLive st - numUnjoined st) + 2 * (Z.of_nat n - Z.of_nat k) + 8
  | MUnlock => round * numLive st + 8
  | MExit _ => 0
  end.
Definition work (st : state) : Z := sumZ thread_work (threads st) + main_work st.

Lemma multijoin_work_nonneg st : inv n st -> 0 <= work st.
Proof.
  intros Hi. pose proof (live_nonneg n st Hi) as Hl. pose proof (inv_created _ _ Hi) as Hc.
  pose proof (inv_join _ _ Hi) as Hj. pose proof (inv_table _ _ Hi) as Htab. unfold work, main_work, round.
  assert (0 <= sumZ thread_work (threads st)) by (apply sumZ_nonneg; intros [] _; done).
  destruct (pc st) as [k| | | | | | |k|k| |e]; simpl in *; try nia.
  assert (k < n)%nat by (apply lookup_lt_Some in Hj; lia). nia.
Qed.

Lemma run_thread_work st i st' : inv n st -> run_thread i st = Some st' -> work st' < work st.
Proof.
  intros Hi. unfold run_thread. destruct (threads st !! i) as [p|] eqn:Hp; [|done].
  unfold work, main_work.
  destruct p; try (destruct (mtx st); [done|]); try done; intros [= <-]; simpl;
    rewrite (sumZ_insert _ _ _ _ _ Hp); unfold thread_work; simpl; try lia.
  - destruct (pc st); try lia; unfold round; lia.
  - destruct (pc st); simpl; lia.
Qed.

Lemma multi_main_work st st' : inv n st -> run_main n st = Some st' -> work st' < work st.
Proof.
  intros Hi. pose proof (live_nonneg n st Hi) as Hl. pose proof (inv_total _ _ Hi) as Htot.
  pose proof (inv_created _ _ Hi) as Hc. pose proof (inv_scanned _ _ Hi) as Hs. pose proof (inv_join _ _ Hi) as Hj.
  unfold run_main, work, main_work. destruct (pc st) as [k| | | | | | |k|k| |e] eqn:Hpc; simpl in *.
  - destruct (decide (k < n)%nat); intros [= <-]; simpl; [|lia]. rewrite sumZ_app. unfold thread_work at 2. simpl. lia.
  - intros [= <-]. simpl. lia.
  - intros [= <-]. simpl. destruct (Z.ltb_spec 0 (numLive st)); unfold round; nia.
  - destruct (mtx st); [done|]. intros [= <-]. simpl. lia.
  - destruct (Z.eqb_spec (numUnjoined st) 0); intros [= <-]; simpl; [lia|].
    assert (round * 1 <= round * numUnjoined st) by (apply Z.mul_le_mono_nonneg_l; unfold round; lia).
    unfold round in *. lia.
  - done.
  - destruct (mtx st); [done|]. intros [= <-]. simpl. lia.
  - destruct (decide (k < totThreads st)%nat); [case_decide|]; intros [= <-]; simpl; [lia|lia|].
    rewrite (no_unjoined n st Hi); [lia|]. intros i Hlt. apply Hs. lia.
  - destruct (threads st !! k) as [[]|]; try done. intros [= <-]. simpl. nia.
  - intros [= <-]. simpl. lia.
  - done.
Qed.

Lemma multi_live_run t st : (forall k, pc st <> MExit k) ->
  run n t st = match t with Main => run_main n st | Thread i => run_thread i st end.
Proof. intros H. unfold run. destruct (pc st), t; try done; by destruct (H e). Qed.

Lemma thread_runs st i p : (forall k, pc st <> MExit k) -> threads st !! i = Some p -> p <> TDone ->
  (p = TLock -> mtx st = None) -> exists t, is_Some (run n t st).
Proof.
  intros Hl Hp Hd Hm. exists (Thread i). rewrite multi_live_run by done. unfold run_thread. rewrite Hp.
  destruct p; eauto; try done. rewrite Hm by done. eauto.
Qed.

(** If main does not hold the mutex, it is free or its owner can run. *)
Lemma owner_or_free st : inv n st -> (forall k, pc st <> MExit k) -> main_owns (pc st) = false ->
  mtx st = None \/ exists t, is_Some (run n t st).
Proof.
  intros Hi Hl Hm. destruct (mtx st) as [[|i]|] eqn:Hx; [|right|by left].
  - apply (inv_main _ _ Hi) in Hx. congruence.
  - pose proof (inv_threads _ _ Hi) as Ht. rewrite Hx in Ht. destruct (proj1 (Ht i) eq_refl) as (p & Hp & Ho).
    apply (thread_runs st i p Hl Hp); by intros ->.
Qed.

(** While main sleeps with threads to wait for, one of them can run. *)
Lemma sleeping_progress st : inv n st -> pc st = MSleep -> exists t, is_Some (run n t st).
Proof.
  intros Hi Hpc. assert (Hl : forall k, pc st <> MExit k) by (by rewrite Hpc).
  destruct (owner_or_free st Hi Hl) as [Hx|Hx]; [by rewrite Hpc| |done].
  destruct (decide (Exists (fun p => p <> TDone) (threads st))) as [He|He].
  { apply Exists_exists in He as (p & [i Hp]%list_elem_of_lookup & Hd). by apply (thread_runs st i p). }
  exfalso. assert (Hdone : forall i p, threads st !! i = Some p -> p = TDone).
  { intros i p Hp. destruct (decide (p = TDone)) as [|Hd]; [done|]. destruct He. apply Exists_exists.
    exists p. split; [by eapply list_elem_of_lookup_2|done]. }
  pose proof (inv_live _ _ Hi) as Hlive. pose proof (inv_joined _ _ Hi) as Hj. pose proof (inv_created _ _ Hi) as [Hc _].
  rewrite Hpc in *. simpl in Hc.
  assert (Hu : numUnjoined st = numLive st).
  { rewrite (inv_unjoined _ _ Hi). enough (sumZ (fun s => unjoined s + joined s) (states st) = Z.of_nat n) as Hsum.
    { assert (Hadd : forall l, sumZ (fun s => unjoined s + joined s) l = sumZ unjoined l + sumZ joined l)
        by (induction l; simpl; lia). rewrite Hadd in Hsum. lia. }
    rewrite (sumZ_eq _ (fun _ => 1)).
    - rewrite <-(inv_table _ _ Hi). clear. induction (states st); simpl; lia.
    - intros s [i Hs]%list_elem_of_lookup. pose proof (inv_entries _ _ Hi i s Hs) as Hent.
      destruct (lookup_lt_is_Some_2 (threads st) i) as [p Hp].
      { rewrite Hc, <-(inv_table _ _ Hi). by eapply lookup_lt_Some. }
      rewrite Hp, (Hdone i p Hp) in Hent. destruct s; simpl in *; naive_solver. }
  destruct (inv_signal _ _ Hi Hpc ltac:(lia)) as (i & p & Hp & Hs). by rewrite (Hdone i p Hp) in Hs.
Qed.

(** All joined, each once, the number left counted down to 0. *)
Definition completed (st : state) : Prop :=
  pc st = MExit EXIT_SUCCESS /\ numLive st = 0 /\ states st = replicate n TS_JOINED /\
  exists p, p ≡ₚ seq 0 n /\ reaped (out st) = numbered n p.

Lemma exit_completed st e : inv n st -> pc st = MExit e -> completed st.
Proof.
  intros Hi Hpc. destruct (inv_exit _ _ Hi e Hpc) as [-> H0].
  destruct (inv_reaped _ _ Hi) as (p & Hr & Hd & Hp & Hlen). rewrite Hpc in Hlen.
  assert (Hperm : p ≡ₚ seq 0 n).
  { apply submseteq_length_Permutation; [by apply (joined_submseteq n st); [apply (inv_table _ _ Hi)|..]|].
    rewrite length_seq. lia. }
  split_and!; try done; [|by exists p].
  apply list_eq. intros i. destruct (decide (i < n)%nat) as [Hi'|Hi'].
  - rewrite lookup_replicate_2 by done. apply Hp. rewrite Hperm. apply elem_of_seq. lia.
  - rewrite !lookup_ge_None_2; [done|rewrite length_replicate; lia|rewrite (inv_table _ _ Hi); lia].
Qed.

Lemma multijoin_progress st : inv n st ->
  (exists t, is_Some (run n t st)) \/ (forall t, run n t st = None) /\ completed st.
Proof.
  intros Hi. destruct (pc st) as [k| | | | | | |k|k| |e] eqn:Hpc;
    try (left; exists Main; unfold run, run_main; rewrite Hpc; by eauto).
  - left. exists Main. unfold run, run_main. rewrite Hpc. case_decide; eauto.
  - left. destruct (owner_or_free st Hi) as [Hx|Hx]; [by rewrite Hpc..| |done].
    exists Main. unfold run, run_main. rewrite Hpc, Hx. eauto.
  - left. exists Main. unfold run, run_main. rewrite Hpc. case_match; eauto.
  - left. by apply sleeping_progress.
  - left. destruct (owner_or_free st Hi) as [Hx|Hx]; [by rewrite Hpc..| |done].
    exists Main. unfold run, run_main. rewrite Hpc, Hx. eauto.
  - left. exists Main. unfold run, run_main. rewrite Hpc. case_decide; eauto.
  - left. pose proof (inv_join _ _ Hi) as Hj. rewrite Hpc in Hj. pose proof (inv_entries _ _ Hi k _ Hj) as Hent.
    assert (Hown : mtx st = Some Main) by (apply (inv_main _ _ Hi); by rewrite Hpc).
    destruct Hent as [Hk|[Hk|Hk]].
    + pose proof (inv_threads _ _ Hi) as Ht. rewrite Hown in Ht. by pose proof (holds_none _ _ _ _ Ht Hk).
    + apply (thread_runs st k TSignal); [by rewrite Hpc|done..].
    + exists Main. unfold run, run_main. rewrite Hpc, Hk. eauto.
  - right. split; [intros t; unfold run; by rewrite Hpc|by eapply exit_completed].
Qed.

End Progress.

(** From any state that a schedule of [n] threads can reach, spurious
    wakeups included, unless an argument was not a number or a thread could not
    be created, every way to go on ends, and ends with the program successful
    and every thread joined exactly once; the lines about it count the threads
    left down to 0. No wakeup is lost, and main is not stuck in pthread_join
    while it holds the mutex. *)
Theorem multijoin_completes (n : nat) (st : state) :
  reachable (fire n) (start n) st ->
  pc st = MExit EXIT_FAILURE \/ always_ends (run n) (completed n) st.
Proof.
  intros Hr. enough (pc st = MExit EXIT_FAILURE \/ inv n st) as [|Hi]; [by left| |].
  { right. apply (ends_by_work (run n) (inv n) (completed n) (work n)); [..|exact Hi].
    - apply multijoin_work_nonneg.
    - intros t s s' Hs Ht. assert (Hl : forall k, pc s <> MExit k) by (intros k Hk; unfold run in Ht; by rewrite Hk in Ht).
      rewrite multi_live_run in Ht by done. destruct t.
      + split; [by eapply multi_main_inv|by eapply multi_main_work].
      + split; [by eapply multi_thread_inv|by eapply run_thread_work].
    - apply multijoin_progress. }
  revert Hr. apply (reachable_ind_inv _ (fun s => pc s = MExit EXIT_FAILURE \/ inv n s)).
  - right. apply multijoin_start_inv.
  - intros e s s' [Hf|Hi] Hs.
    + destruct e as [t| |]; simpl in Hs; [unfold run in Hs|..]; by rewrite Hf in Hs.
    + destruct e as [t| |]; simpl in Hs.
      * right. assert (Hl : forall k, pc s <> MExit k) by (intros k Hk; unfold run in Hs; by rewrite Hk in Hs).
        rewrite multi_live_run in Hs by done. destruct t; [by eapply multi_main_inv|by eapply multi_thread_inv].
      * right. destruct (pc s) eqn:Hpc; try done. injection Hs as <-.
        eapply main_goes; try done; rewrite ?Hpc; try done.
        -- pose proof (inv_main _ _ Hi) as Hm. by rewrite Hpc in Hm.
        -- pose proof (inv_live _ _ Hi) as Hl. by rewrite Hpc in Hl.
        -- by intros i ?%Nat.nlt_0_r.
      * left. destruct (pc s); by simplify_eq.
Qed.

(** Two threads; the second has terminated, and main is joining with it before
    it has signalled. *)
Definition join_events : list event :=
  replicate 4 (Run Main) ++ replicate 4 (Run (Thread 1)) ++ replicate 5 (Run Main).
Definition join_state : state := default (start 2) (run_all (fire 2) join_events (start 2)).

Lemma multijoin_completes_witness :
  pc join_state = MJoin 1 /\ run 2 Main join_state = None /\
  (pc join_state = MExit EXIT_FAILURE \/ always_ends (run 2) (completed 2) join_state).
Proof.
  split; [by vm_compute|]. split; [by vm_compute|]. apply (multijoin_completes 2 join_state).
  apply (run_all_reachable (fire 2) join_events _ (start 2)); [apply reach_start|by vm_compute].
Defined.
