(* ===== verification/MsgFile.v ===== *)
(** svmsg/svmsg_file_server.c and svmsg_file_client.c (src/tlpi-dist): a server
    that sends files through message queues, with a child of its own for each
    request, and any number of clients, as a transition system with one event
    for each call. *)
From Stdlib Require Import ZArith Lia Ascii String.
From stdpp Require Import base tactics list strings.
From S2P Require Import Prelude CString Transitions.
#[local] Open Scope Z_scope.

(** ** Messages and processes *)

(** A response: a failure with its text, a block of the file, or the end. *)
Inductive resp := RFail | RData (b : cstr) | REnd.

Definition PATH_SIZE : Z := 4096.

Definition could_not_open : cstr := lit "Couldn't open".
(** The length of the text of a message. *)
Definition resp_len (r : resp) : Z :=
  match r with RFail => strlen could_not_open + 1 | RData b => strlen b | REnd => 0 end.

Inductive server_pc := SRecv | SFork (req : nat * cstr) | SExit (k : exit_kind).

(** A child: opening the file, sending the failure, reading with [rest] of the
    file to come, sending a block, sending the end. *)
Inductive child_pc := KOpen (path : cstr) | KFailed | KRead (rest : list cstr) | KSend (b : cstr) (rest : list cstr)
  | KFinal | KDone (k : exit_kind).
Record child := Child { k_client : nat; k_pc : child_pc }.

(** A client: checking its argument, sending the request, waiting for the first
    response and for others. *)
Inductive client_pc := CStart | CSend | CFirst | CLoop | CEnd (k : exit_kind).

(** [c_queue] is the client's own message queue, which it removes when it ends. *)
Record client := Client {
  c_pc : client_pc;
  c_path : cstr;
  c_queue : list resp;
  totBytes : Z;
  numMsgs : Z;
  c_out : cstr
}.

Record state := State {
  server : server_pc;
  requests : list (nat * cstr);
  children : list child;
  clients : list client
}.

Definition start (paths : list cstr) : state :=
  State SRecv [] [] ((fun p => Client CStart p [] 0 0 []) <$> paths).

Definition received_text (bytes msgs : Z) : cstr :=
  lit "Received " ++ show_Z bytes ++ lit " bytes (" ++ show_Z msgs ++ lit " messages)" ++ [NEWLINE].

Section Code.
(** The files, as the blocks that read returns; the number of messages a queue
    has room for. *)
Context (file : cstr -> option (list cstr)) (room : nat).

(** One step of the server's parent. *)
Definition run_server (st : state) : option state :=
  match server st with
  | SRecv =>
      match requests st with
      | [] => None
      | r :: rs => Some (State (SFork r) rs (children st) (clients st))
      end
  | SFork (i, path) =>
      Some (State SRecv (requests st) (children st ++ [Child i (KOpen path)]) (clients st))
  | SExit _ => None
  end.

(** msgsnd to the queue of client [i], which is gone when the client has ended. *)
Inductive sent := Sent (cs : list client) | Full | Gone.
Definition send (i : nat) (r : resp) (cs : list client) : sent :=
  match cs !! i with
  | None => Gone
  | Some (Client (CEnd _) _ _ _ _ _) => Gone
  | Some (Client pc path q b m o) =>
      if decide (length q < room)%nat then Sent (<[i := Client pc path (q ++ [r]) b m o]> cs) else Full
  end.

(** One step of serveRequest in child [j]. *)
Definition run_child (j : nat) (st : state) : option state :=
  match children st !! j with
  | None => None
  | Some (Child i pc) =>
      let goto pc cs := Some (State (server st) (requests st) (<[j := Child i pc]> (children st)) cs) in
      let send_then r ok bad :=
        match send i r (clients st) with Sent cs => goto ok cs | Gone => goto bad (clients st) | Full => None end in
      match pc with
      | KOpen path => goto (match file path with Some blocks => KRead blocks | None => KFailed end) (clients st)
      | KFailed => send_then RFail (KDone EXIT_FAILURE) (KDone EXIT_FAILURE)
      | KRead [] => goto KFinal (clients st)
      | KRead (b :: rest) => goto (KSend b rest) (clients st)
      | KSend b rest => send_then (RData b) (KRead rest) KFinal
      | KFinal => send_then REnd (KDone EXIT_SUCCESS) (KDone EXIT_SUCCESS)
      | KDone _ => None
      end
  end.

(** What a client does with a response. *)
Definition receive (r : resp) (pc : client_pc) (bytes msgs : Z) : client_pc * Z * Z * cstr :=
  let bytes' := bytes + resp_len r in
  let msgs' := msgs + 1 in
  match r, pc with
  | RData _, _ => (CLoop, bytes', msgs', [])
  | RFail, CFirst => (CEnd EXIT_FAILURE, bytes, msgs, could_not_open ++ [NEWLINE])
  | _, _ => (CEnd EXIT_SUCCESS, bytes', msgs', received_text bytes' msgs')
  end.

(** One step of client [i]. *)
Definition run_client (i : nat) (st : state) : option state :=
  match clients st !! i with
  | None => None
  | Some (Client pc path q b m o) =>
      let goto rs c := Some (State (server st) rs (children st) (<[i := c]> (clients st))) in
      match pc with
      | CStart =>
          goto (requests st)
            (Client (if PATH_SIZE - 1 <? strlen path then CEnd EXIT_FAILURE else CSend) path q b m o)
      | CSend =>
          match server st with
          | SExit _ => goto (requests st) (Client (CEnd EXIT_FAILURE) path q b m o)
          | _ =>
              if decide (length (requests st) < room)%nat then
                goto (requests st ++ [(i, path)]) (Client CFirst path q b m o)
              else None
          end
      | CFirst | CLoop =>
          match q with
          | [] => None
          | r :: q =>
              let '(pc', b', m', t) := receive r pc b m in goto (requests st) (Client pc' path q b' m' (o ++ t))
          end
      | CEnd _ => None
      end
  end.

Inductive process := PServer | PChild (j : nat) | PClient (i : nat).

Definition run (p : process) (st : state) : option state :=
  match p with PServer => run_server st | PChild j => run_child j st | PClient i => run_client i st end.

(** A read of the file that fails, which its child takes for the end of the
    file; a receive or a fork that fails, after which the server removes its
    queue and ends. *)
Inductive event := Run (p : process) | ReadFails (j : nat) | ServerFails.

Definition fire (e : event) (st : state) : option state :=
  match e with
  | Run p => run p st
  | ReadFails j =>
      match children st !! j with
      | Some (Child i (KRead _)) =>
          Some (State (server st) (requests st) (<[j := Child i KFinal]> (children st)) (clients st))
      | _ => None
      end
  | ServerFails =>
      match server st with
      | SExit _ => None
      | _ => Some (State (SExit EXIT_SUCCESS) [] (children st) (clients st))
      end
  end.

(** ** The protocol *)

(** The responses to a request for [path]. *)
Definition script (path : cstr) : list resp :=
  match file path with Some blocks => (RData <$> blocks) ++ [REnd] | None => [RFail] end.

(** What a child has still to send. *)
Definition to_send (k : child) : nat * list resp :=
  (k_client k,
   match k_pc k with
   | KOpen path => script path
   | KFailed => [RFail]
   | KRead rest => (RData <$> rest) ++ [REnd]
   | KSend b rest => RData b :: (RData <$> rest) ++ [REnd]
   | KFinal => [REnd]
   | KDone _ => []
   end).

Definition forking (s : server_pc) : list (nat * cstr) := match s with SFork r => [r] | _ => [] end.
Definition asked (r : nat * cstr) : nat * list resp := (r.1, script r.2).

(** For each request that has been made: its client and what is still to be
    sent. *)
Definition pending (st : state) : list (nat * list resp) :=
  (to_send <$> children st) ++ (asked <$> (forking (server st) ++ requests st)).

(** A client that has received [got]. *)
Definition has_got (c : client) (got : list resp) : Prop :=
  match c_pc c with
  | CFirst => got = [] /\ totBytes c = 0 /\ numMsgs c = 0 /\ c_out c = []
  | CLoop => exists blocks, got = RData <$> blocks /\ blocks <> [] /\ c_out c = [] /\
      totBytes c = sumZ strlen blocks /\ numMsgs c = Z.of_nat (length blocks)
  | CEnd EXIT_SUCCESS => exists blocks, got = (RData <$> blocks) ++ [REnd] /\
      c_out c = received_text (sumZ strlen blocks) (Z.of_nat (length blocks) + 1)
  | CEnd EXIT_FAILURE => got = [RFail] /\ c_out c = could_not_open ++ [NEWLINE]
  | _ => False
  end.

Definition unasked (ps : list (nat * list resp)) (i : nat) : Prop := forall rest : list resp, (i, rest) ∉ ps.

(** A client and its request, if it has made one. *)
Definition client_ok (ps : list (nat * list resp)) (i : nat) (c : client) : Prop :=
  match c_pc c with
  | CStart => c_queue c = [] /\ totBytes c = 0 /\ numMsgs c = 0 /\ c_out c = [] /\ unasked ps i
  | CSend => c_queue c = [] /\ totBytes c = 0 /\ numMsgs c = 0 /\ c_out c = [] /\ unasked ps i /\
      strlen (c_path c) < PATH_SIZE
  | _ =>
      (c_pc c = CEnd EXIT_FAILURE /\ PATH_SIZE <= strlen (c_path c) /\ c_out c = [] /\ unasked ps i /\ c_queue c = []) \/
      strlen (c_path c) < PATH_SIZE /\
      exists rest got, (i, rest) ∈ ps /\ has_got c got /\ got ++ c_queue c ++ rest = script (c_path c)
  end.

Record inv_of (ps : list (nat * list resp)) (cs : list client) : Prop := {
  inv_once : NoDup ps.*1;
  inv_known i rest : (i, rest) ∈ ps -> is_Some (cs !! i);
  inv_clients i c : cs !! i = Some c -> client_ok ps i c
}.

Definition is_data (r : resp) : Prop := match r with RData _ => True | _ => False end.

Lemma script_ends path : exists l x, script path = l ++ [x] /\ Forall is_data l.
Proof.
  unfold script. destruct (file path) as [bs|]; [|by exists [], RFail].
  exists (RData <$> bs), REnd. split; [done|]. by apply Forall_fmap, Forall_true.
Qed.

(** Nothing follows the last message. *)
Lemma script_final path l x more : l ++ [x] ++ more = script path -> ~ is_data x -> more = [].
Proof.
  destruct (script_ends path) as (l' & y & -> & Hd). intros H Hx.
  destruct more as [|z more _] using rev_ind; [done|]. exfalso. apply Hx.
  rewrite !app_assoc in H. apply app_inj_tail in H as [<- _]. rewrite !Forall_app in Hd.
  destruct Hd as [[_ Hd] _]. by apply Forall_inv in Hd.
Qed.

Lemma ended_got k c got more path : c_pc c = CEnd k -> has_got c got -> got ++ more = script path -> more = [].
Proof.
  intros Hp Hg Hs. unfold has_got in Hg. rewrite Hp in Hg. destruct k; try done.
  - destruct Hg as (bs & -> & _). rewrite <-app_assoc in Hs. by apply script_final in Hs; [|intros []].
  - destruct Hg as [-> _]. by apply (script_final path [] RFail) in Hs; [|intros []].
Qed.

Lemma client_ok_same ps ps' k c : (forall rest, (k, rest) ∈ ps <-> (k, rest) ∈ ps') ->
  client_ok ps k c -> client_ok ps' k c.
Proof.
  intros H. assert (Hu : unasked ps k -> unasked ps' k) by (intros Hn rest; by rewrite <-H).
  unfold client_ok. destruct (c_pc c); naive_solver.
Qed.

(** A client asks. *)
Lemma ask_inv ps cs i c : inv_of ps cs -> cs !! i = Some c -> c_pc c = CSend ->
  inv_of (ps ++ [(i, script (c_path c))])
    (<[i := Client CFirst (c_path c) (c_queue c) (totBytes c) (numMsgs c) (c_out c)]> cs).
Proof.
  intros [Ho Hk Hc] Hi Hp. pose proof (Hc i c Hi) as Hok. unfold client_ok in Hok. rewrite Hp in Hok.
  destruct Hok as (Hq & Hb & Hm & Hout & Hun & Hlen). split.
  - rewrite fmap_app. apply NoDup_app. split_and!; [done| |by apply NoDup_singleton].
    intros x Hx. simpl. intros ->%list_elem_of_singleton. apply list_elem_of_fmap_1 in Hx as ([k r] & -> & Hx). by apply (Hun r).
  - intros k rest [Hx|[= -> ->]%list_elem_of_singleton]%elem_of_app.
    + destruct (decide (k = i)) as [->|Hne]; [by apply Hun in Hx|].
      rewrite list_lookup_insert_ne by done. by eapply Hk.
    + rewrite list_lookup_insert_eq by by eapply lookup_lt_Some. by eexists.
  - intros k x Hx. destruct (lookup_insert_cases _ _ _ _ _ _ Hi Hx) as [[-> ->]|[Hne Hx']].
    + right. split; [done|]. exists (script (c_path c)), []. simpl. rewrite Hq, Hb, Hm, Hout.
      split; [apply elem_of_app; right; by apply list_elem_of_singleton|]. by split.
    + eapply client_ok_same; [|by apply Hc]. intros rest. rewrite elem_of_app, list_elem_of_singleton. naive_solver.
Qed.

(** A client that has something to come is waiting. *)
Lemma waiting_client ps cs i r rest : inv_of ps cs -> (i, r :: rest) ∈ ps ->
  exists c, cs !! i = Some c /\ (c_pc c = CFirst \/ c_pc c = CLoop) /\ strlen (c_path c) < PATH_SIZE /\
    exists got, has_got c got /\ got ++ c_queue c ++ r :: rest = script (c_path c).
Proof.
  intros [Ho Hk Hc] Hin. destruct (Hk _ _ Hin) as [c Hi]. exists c. split; [done|].
  pose proof (Hc i c Hi) as Hok. unfold client_ok in Hok.
  assert (Hgo : forall got rest', (i, rest') ∈ ps -> has_got c got -> got ++ c_queue c ++ rest' = script (c_path c) ->
    has_got c got /\ got ++ c_queue c ++ r :: rest = script (c_path c)).
  { intros got rest' H1 H2 H3. by rewrite (NoDup_fst_unique _ _ _ _ Ho Hin H1). }
  destruct (c_pc c) eqn:Hp.
  - destruct Hok as (_ & _ & _ & _ & Hun). by apply Hun in Hin.
  - destruct Hok as (_ & _ & _ & _ & Hun & _). by apply Hun in Hin.
  - destruct Hok as [[? _]|(Hl & rest' & got & H1 & H2 & H3)]; [done|]. split; [by left|]. split; [done|]. exists got. by eapply Hgo.
  - destruct Hok as [[? _]|(Hl & rest' & got & H1 & H2 & H3)]; [done|]. split; [by right|]. split; [done|]. exists got. by eapply Hgo.
  - exfalso. destruct Hok as [(_ & _ & _ & Hun & _)|(Hl & rest' & got & H1 & H2 & H3)]; [by apply Hun in Hin|].
    destruct (Hgo _ _ H1 H2 H3) as [H2' H3']. eapply ended_got in H3'; [|done..].
    by apply app_eq_nil in H3' as [_ ?].
Qed.

(** A response is sent. *)
Lemma send_inv ps cs i j r rest c : inv_of ps cs -> ps !! j = Some (i, r :: rest) -> cs !! i = Some c ->
  inv_of (<[j := (i, rest)]> ps)
    (<[i := Client (c_pc c) (c_path c) (c_queue c ++ [r]) (totBytes c) (numMsgs c) (c_out c)]> cs).
Proof.
  intros Hi Hj Hci. destruct (waiting_client ps cs i r rest Hi) as (c' & Hc' & Hp & Hlen & got & Hg & Hs);
    [by eapply list_elem_of_lookup_2|]. rewrite Hci in Hc'. injection Hc' as <-.
  pose proof Hi as [Ho Hk Hc].
  assert (Hfst : (<[j := (i, rest)]> ps).*1 = ps.*1).
  { rewrite list_fmap_insert. simpl. apply list_insert_id. by rewrite list_lookup_fmap, Hj. }
  assert (Hother : forall k x, k <> i -> (k, x) ∈ ps <-> (k, x) ∈ <[j := (i, rest)]> ps).
  { intros k x Hne. rewrite !list_elem_of_lookup. split; intros [m Hm].
    - exists m. rewrite list_lookup_insert_ne; [done|]. intros <-. congruence.
    - destruct (lookup_insert_cases _ _ _ _ _ _ Hj Hm) as [[_ [= ? _]]|[_ Hm']]; [done|by exists m]. }
  assert (Hmine : (i, rest) ∈ <[j := (i, rest)]> ps).
  { apply list_elem_of_lookup. exists j. apply list_lookup_insert_eq. by eapply lookup_lt_Some. }
  split.
  - by rewrite Hfst.
  - intros k x Hx. destruct (decide (k = i)) as [->|Hne].
    + rewrite list_lookup_insert_eq by by eapply lookup_lt_Some. by eexists.
    + rewrite list_lookup_insert_ne by done. eapply Hk. by apply Hother.
  - intros k x Hx. destruct (lookup_insert_cases _ _ _ _ _ _ Hci Hx) as [[-> ->]|[Hne Hx']].
    + destruct c as [pc path q b m o]. simpl in *.
      destruct Hp as [-> | ->]; right; (split; [done|]); exists rest, got; (split; [done|]); (split; [done|]);
        simpl; by rewrite <-app_assoc.
    + eapply client_ok_same; [|by apply Hc]. intros y. by apply Hother.
Qed.

Lemma sumZ_snoc {A} (f : A -> Z) l x : sumZ f (l ++ [x]) = sumZ f l + f x.
Proof. rewrite sumZ_app. simpl. lia. Qed.

(** What a client has got grows by the response that it takes. *)
Lemma receive_got pc path q r q' b m o pc' b' m' t got more :
  pc = CFirst \/ pc = CLoop -> has_got (Client pc path q b m o) got -> got ++ r :: more = script path ->
  receive r pc b m = (pc', b', m', t) -> has_got (Client pc' path q' b' m' (o ++ t)) (got ++ [r]).
Proof.
  intros Hpc Hg Hs. unfold receive, has_got in *. simpl in *.
  assert (Hcases : exists bs, got = RData <$> bs /\ b = sumZ strlen bs /\ m = Z.of_nat (length bs) /\ o = [] /\
    (pc = CLoop -> bs <> [])).
  { destruct Hpc as [-> | ->]; [by destruct Hg as (-> & -> & -> & ->); exists []|].
    destruct Hg as (bs & -> & Hne & -> & -> & ->). by exists bs. }
  destruct Hcases as (bs & -> & -> & -> & -> & Hne).
  destruct r as [|blk|].
  - destruct Hpc as [-> | ->].
    + intros [= <- <- <- <-]. destruct Hg as (Hbs & _). apply fmap_nil_inv in Hbs as ->. by split.
    + exfalso. specialize (Hne eq_refl). unfold script in Hs. destruct (file path) as [bs'|].
      * assert (Hin : RFail ∈ (RData <$> bs') ++ [REnd]) by (rewrite <-Hs; apply elem_of_app; right; by left).
        apply elem_of_app in Hin as [Hin|Hin]; [|by apply list_elem_of_singleton in Hin].
        by apply list_elem_of_fmap_1 in Hin as (y & ? & _).
      * destruct bs as [|y bs]; [done|]. by destruct bs.
  - intros [= <- <- <- <-]. exists (bs ++ [blk]). rewrite fmap_app, sumZ_snoc, length_app. simpl.
    split_and!; [done|by destruct bs|done|done|lia].
  - assert (Hr : forall x y, (CEnd EXIT_SUCCESS, x, y, received_text x y) = (pc', b', m', t) ->
      x = sumZ strlen bs -> y = Z.of_nat (length bs) + 1 ->
      match pc' with CEnd EXIT_SUCCESS => exists blocks, (RData <$> bs) ++ [REnd] = (RData <$> blocks) ++ [REnd] /\
        t = received_text (sumZ strlen blocks) (Z.of_nat (length blocks) + 1) | _ => False end).
    { intros x y [= <- <- <- <-] -> ->. by exists bs. }
    destruct Hpc as [-> | ->]; intros Heq; specialize (Hr _ _ Heq ltac:(simpl; lia) ltac:(lia));
      destruct pc' as [| | | |[]]; done.
Qed.

(** A response is received. *)
Lemma receive_inv ps cs i pc path r q b m o pc' b' m' t : inv_of ps cs ->
  cs !! i = Some (Client pc path (r :: q) b m o) -> pc = CFirst \/ pc = CLoop ->
  receive r pc b m = (pc', b', m', t) -> inv_of ps (<[i := Client pc' path q b' m' (o ++ t)]> cs).
Proof.
  intros [Ho Hk Hc] Hi Hpc Hr. split; [done| |].
  - intros k rest Hx. destruct (decide (k = i)) as [->|Hne].
    + rewrite list_lookup_insert_eq by by eapply lookup_lt_Some. by eexists.
    + rewrite list_lookup_insert_ne by done. by eapply Hk.
  - intros k x Hx. destruct (lookup_insert_cases _ _ _ _ _ _ Hi Hx) as [[-> ->]|[Hne Hx']]; [|by apply Hc].
    pose proof (Hc i _ Hi) as Hok. unfold client_ok in Hok. simpl in Hok.
    assert (Hok' : strlen path < PATH_SIZE /\ exists rest got, (i, rest) ∈ ps /\
      has_got (Client pc path (r :: q) b m o) got /\ got ++ r :: q ++ rest = script path).
    { destruct Hpc as [-> | ->]; by destruct Hok as [[? _]|Hok]. }
    destruct Hok' as (Hlen & rest & got & H1 & H2 & H3).
    assert (Hnew : strlen path < PATH_SIZE /\ exists rest got, (i, rest) ∈ ps /\
      has_got (Client pc' path q b' m' (o ++ t)) got /\ got ++ q ++ rest = script path).
    { split; [done|]. exists rest, (got ++ [r]). split; [done|]. split; [by eapply receive_got|].
      by rewrite <-app_assoc. }
    assert (Hpc' : pc' <> CStart /\ pc' <> CSend) by (unfold receive in Hr; destruct r, pc; by simplify_eq).
    unfold client_ok. simpl. destruct pc'; try tauto; by destruct Hpc'.
Qed.

(** ** The processes keep to it *)

Definition inv (st : state) : Prop := inv_of (pending st) (clients st) /\ forall k, server st <> SExit k.

Lemma start_ok paths : inv (start paths).
Proof.
  split; [|done]. split; simpl; [by apply NoDup_nil|by intros i rest ?%elem_of_nil|].
  intros i c Hc. rewrite list_lookup_fmap in Hc. destruct (paths !! i); [|done]. injection Hc as <-.
  unfold client_ok. simpl. split_and!; try done. by intros rest ?%elem_of_nil.
Qed.

Lemma child_pending st j k k' cs : children st !! j = Some k ->
  pending (State (server st) (requests st) (<[j := k']> (children st)) cs) = <[j := to_send k']> (pending st) /\
  pending st !! j = Some (to_send k).
Proof.
  intros Hj. unfold pending. simpl. rewrite list_fmap_insert. split.
  - rewrite insert_app_l; [done|]. rewrite length_fmap. by eapply lookup_lt_Some.
  - rewrite lookup_app_l by (rewrite length_fmap; by eapply lookup_lt_Some). by rewrite list_lookup_fmap, Hj.
Qed.

(** A child that sends nothing. *)
Lemma child_quiet st j i pc pc' : inv st -> children st !! j = Some (Child i pc) ->
  to_send (Child i pc') = to_send (Child i pc) ->
  inv (State (server st) (requests st) (<[j := Child i pc']> (children st)) (clients st)).
Proof.
  intros [Hi Hs] Hj Heq. destruct (child_pending st j _ (Child i pc') (clients st) Hj) as [Hp Hpj].
  split; [|done]. simpl. rewrite Hp, Heq. by rewrite (list_insert_id _ _ _ Hpj).
Qed.

Lemma send_spec ps cs i r rest : inv_of ps cs -> (i, r :: rest) ∈ ps ->
  exists c, cs !! i = Some c /\ (c_pc c = CFirst \/ c_pc c = CLoop) /\
    send i r cs = if decide (length (c_queue c) < room)%nat
                  then Sent (<[i := Client (c_pc c) (c_path c) (c_queue c ++ [r]) (totBytes c) (numMsgs c) (c_out c)]> cs)
                  else Full.
Proof.
  intros Hi Hin. destruct (waiting_client _ _ _ _ _ Hi Hin) as (c & Hc & Hp & _). exists c. split; [done|].
  split; [done|]. unfold send. rewrite Hc. destruct c as [pc path q b m o]. simpl in *. by destruct Hp as [-> | ->].
Qed.

(** A child that sends. *)
Lemma child_sends st j i pc pc' r rest cs : inv st -> children st !! j = Some (Child i pc) ->
  to_send (Child i pc) = (i, r :: rest) -> to_send (Child i pc') = (i, rest) ->
  send i r (clients st) = Sent cs ->
  inv (State (server st) (requests st) (<[j := Child i pc']> (children st)) cs).
Proof.
  intros [Hi Hs] Hj Heq Heq' Hsent. destruct (child_pending st j _ (Child i pc') cs Hj) as [Hp Hpj].
  rewrite Heq in Hpj. destruct (send_spec _ _ _ _ _ Hi ltac:(by eapply list_elem_of_lookup_2)) as (c & Hc & Hpc & Hsend).
  rewrite Hsend in Hsent. case_decide; [|done]. injection Hsent as <-.
  split; [|done]. simpl. rewrite Hp, Heq'. by eapply send_inv.
Qed.

Lemma run_child_inv j st st' : inv st -> run_child j st = Some st' -> inv st'.
Proof.
  intros Hi. unfold run_child. destruct (children st !! j) as [[i pc]|] eqn:Hj; [|done].
  assert (Hsend : forall r rest ok bad,
    to_send (Child i pc) = (i, r :: rest) -> to_send (Child i ok) = (i, rest) ->
    match send i r (clients st) with
    | Sent cs => Some (State (server st) (requests st) (<[j := Child i ok]> (children st)) cs)
    | Gone => Some (State (server st) (requests st) (<[j := Child i bad]> (children st)) (clients st))
    | Full => None
    end = Some st' -> inv st').
  { intros r rest ok bad H1 H2. destruct (child_pending st j _ (Child i ok) (clients st) Hj) as [_ Hpj].
    rewrite H1 in Hpj. destruct (send_spec _ _ _ _ _ (proj1 Hi) ltac:(by eapply list_elem_of_lookup_2)) as (c & Hc & Hpc & Hs).
    destruct (send i r (clients st)) eqn:Hsent; [|done|by case_decide].
    intros [= <-]. by eapply child_sends. }
  destruct pc as [path| |[|b rest]|b rest| |k].
  - intros [= <-]. eapply child_quiet; [done|done|]. unfold to_send, script. simpl. by destruct (file path).
  - by apply (Hsend _ []).
  - intros [= <-]. by eapply child_quiet.
  - intros [= <-]. by eapply child_quiet.
  - by apply (Hsend _ ((RData <$> rest) ++ [REnd])).
  - by apply (Hsend _ []).
  - done.
Qed.

Lemma run_server_inv st st' : inv st -> run_server st = Some st' -> inv st'.
Proof.
  intros [Hi Hs]. unfold run_server, inv, pending in *. destruct (server st) as [|[i path]|k] eqn:Hsv.
  - destruct (requests st) as [|r rs] eqn:Hr; [done|]. intros [= <-]. by split.
  - intros [= <-]. split; [|done]. simpl. rewrite fmap_app. simpl in *. by rewrite <-app_assoc.
  - done.
Qed.

Lemma run_client_inv i st st' : inv st -> run_client i st = Some st' -> inv st'.
Proof.
  intros [Hi Hs]. unfold run_client. destruct (clients st !! i) as [[pc path q b m o]|] eqn:Hc; [|done].
  assert (Hrecv : pc = CFirst \/ pc = CLoop -> forall r q', q = r :: q' ->
    (let '(pc', b', m', t) := receive r pc b m in
     Some (State (server st) (requests st) (children st) (<[i := Client pc' path q' b' m' (o ++ t)]> (clients st)))) =
      Some st' -> inv st').
  { intros Hpc r q' ->. destruct (receive r pc b m) as [[[pc' b'] m'] t] eqn:Hr. intros [= <-].
    split; [|done]. by eapply receive_inv. }
  destruct pc.
  - intros [= <-]. split; [|done]. destruct Hi as [Ho Hk Hcl]. split; [done| |].
    + intros k rest Hx. destruct (decide (k = i)) as [->|Hne]; simpl.
      * rewrite list_lookup_insert_eq by by eapply lookup_lt_Some. by eexists.
      * rewrite list_lookup_insert_ne by done. by eapply Hk.
    + intros k x Hx. destruct (lookup_insert_cases _ _ _ _ _ _ Hc Hx) as [[-> ->]|[Hne Hx']]; [|by apply Hcl].
      destruct (Hcl i _ Hc) as (Hq & Hb & Hm & Hout & Hun). simpl in *. subst. unfold client_ok. simpl.
      destruct (Z.ltb_spec (PATH_SIZE - 1) (strlen path)); simpl; [left|]; split_and!; try done; lia.
  - destruct (server st) eqn:Hsv; [| |by destruct (Hs k)]; case_decide; try done; intros [= <-]; (split; [|done]);
      pose proof (ask_inv _ _ i _ Hi Hc eq_refl) as Ha; simpl in Ha;
      unfold pending in *; simpl; rewrite Hsv in *; by rewrite !fmap_app, <-!app_assoc in *.
  - destruct q as [|r q]; [done|]. apply Hrecv; auto.
  - destruct q as [|r q]; [done|]. apply Hrecv; auto.
  - done.
Qed.

Lemma msg_run_inv p st st' : inv st -> run p st = Some st' -> inv st'.
Proof. destruct p; [apply run_server_inv|apply run_child_inv|apply run_client_inv]. Qed.

(** ** Progress and termination *)

Definition len (path : cstr) : Z := Z.of_nat (length (script path)).
Definition client_work (c : client) : Z :=
  2 * Z.of_nat (length (c_queue c)) +
  match c_pc c with
  | CStart => 10 * len (c_path c) + 22 | CSend => 10 * len (c_path c) + 21 | CFirst | CLoop => 1 | CEnd _ => 0
  end.
Definition child_work (k : child) : Z :=
  match k_pc k with
  | KOpen path => 4 * len path + 3
  | KFailed | KFinal => 5
  | KRead rest => 4 * (Z.of_nat (length rest) + 1) + 2
  | KSend b rest => 4 * (Z.of_nat (length rest) + 2) + 1
  | KDone _ => 0
  end.
Definition request_work (r : nat * cstr) : Z := 4 * len r.2 + 5.
Definition server_work (s : server_pc) : Z := match s with SFork r => 4 * len r.2 + 4 | _ => 0 end.
Definition work (st : state) : Z :=
  server_work (server st) + sumZ request_work (requests st) + sumZ child_work (children st)
  + sumZ client_work (clients st).

Lemma len_pos path : 1 <= len path.
Proof. unfold len, script. destruct (file path); rewrite ?length_app; simpl; lia. Qed.

Lemma msg_work_nonneg st : 0 <= work st.
Proof.
  assert (0 <= server_work (server st)) by (unfold server_work; destruct (server st) as [|r|]; try pose proof (len_pos r.2); lia).
  assert (0 <= sumZ request_work (requests st)) by (apply sumZ_nonneg; intros r _; pose proof (len_pos r.2); unfold request_work; lia).
  assert (0 <= sumZ child_work (children st)).
  { apply sumZ_nonneg. intros [i k] _. unfold child_work. simpl. destruct k as [p| | | | |]; try pose proof (len_pos p); lia. }
  assert (0 <= sumZ client_work (clients st)); [|unfold work; lia].
  apply sumZ_nonneg. intros c _. pose proof (len_pos (c_path c)). unfold client_work. destruct (c_pc c); lia.
Qed.

Lemma send_work i r cs cs' : send i r cs = Sent cs' -> sumZ client_work cs' = sumZ client_work cs + 2.
Proof.
  unfold send. destruct (cs !! i) as [[pc path q b m o]|] eqn:Hc; [|done].
  destruct pc; try case_decide; try done; intros [= <-]; rewrite (sumZ_insert _ _ _ _ _ Hc);
    unfold client_work; simpl; rewrite length_app; simpl; lia.
Qed.

Lemma msg_run_work p st st' : run p st = Some st' -> work st' < work st.
Proof.
  unfold work. destruct p as [|j|i]; simpl.
  - unfold run_server. destruct (server st) as [|[i path]|k]; simpl; try done.
    + destruct (requests st) as [|r rs]; [done|]. intros [= <-]. simpl. unfold request_work at 2. lia.
    + intros [= <-]. simpl. rewrite sumZ_snoc. unfold child_work at 2. simpl. lia.
  - unfold run_child. destruct (children st !! j) as [[i pc]|] eqn:Hj; [|done].
    assert (Hsend : forall r ok bad, child_work (Child i ok) + 2 < child_work (Child i pc) ->
      child_work (Child i bad) < child_work (Child i pc) ->
      match send i r (clients st) with
      | Sent cs => Some (State (server st) (requests st) (<[j := Child i ok]> (children st)) cs)
      | Gone => Some (State (server st) (requests st) (<[j := Child i bad]> (children st)) (clients st))
      | Full => None
      end = Some st' -> work st' < work st).
    { intros r ok bad H1 H2. destruct (send i r (clients st)) eqn:Hs; [|done|]; intros [= <-]; unfold work; simpl;
        rewrite (sumZ_insert _ _ _ _ _ Hj); [rewrite (send_work _ _ _ _ Hs)|]; lia. }
    unfold work in Hsend.
    destruct pc as [path| |[|b rest]|b rest| |k]; try (by apply Hsend; unfold child_work; simpl; lia); try done;
      intros [= <-]; simpl; rewrite (sumZ_insert _ _ _ _ _ Hj); unfold child_work; simpl; try lia.
    unfold len, script. destruct (file path); rewrite ?length_app, ?length_fmap; simpl; lia.
  - unfold run_client. destruct (clients st !! i) as [[pc path q b m o]|] eqn:Hc; [|done].
    pose proof (len_pos path) as Hl.
    destruct pc; try done.
    + intros [= <-]. simpl. rewrite (sumZ_insert _ _ _ _ _ Hc). unfold client_work. simpl.
      destruct (_ <? _); lia.
    + destruct (server st); try case_decide; try done; intros [= <-]; simpl; rewrite ?sumZ_snoc;
        rewrite (sumZ_insert _ _ _ _ _ Hc); unfold client_work, request_work; simpl; lia.
    + destruct q as [|r q]; [done|]. destruct r; simpl; intros [= <-]; simpl; rewrite (sumZ_insert _ _ _ _ _ Hc);
        unfold client_work; simpl; lia.
    + destruct q as [|r q]; [done|]. destruct r; simpl; intros [= <-]; simpl; rewrite (sumZ_insert _ _ _ _ _ Hc);
        unfold client_work; simpl; lia.
Qed.

Lemma run_paths p st st' : run p st = Some st' -> c_path <$> clients st' = c_path <$> clients st.
Proof.
  assert (Hins : forall (cs : list client) i c c', cs !! i = Some c -> c_path c' = c_path c ->
    c_path <$> <[i := c']> cs = c_path <$> cs).
  { intros cs i c c' Hc Hp. rewrite list_fmap_insert, Hp. apply list_insert_id. by rewrite list_lookup_fmap, Hc. }
  destruct p as [|j|i]; simpl.
  - unfold run_server. repeat case_match; intros [= <-]; done.
  - unfold run_child, send. destruct (children st !! j) as [[i pc]|]; [|done].
    destruct (clients st !! i) as [[cp path q b m o]|] eqn:Hc;
      repeat case_match; intros; simplify_eq/=; try done; by eapply Hins.
  - unfold run_client. destruct (clients st !! i) as [[pc path q b m o]|] eqn:Hc; [|done].
    destruct pc; try destruct q as [|r q]; try destruct (receive _ _ _ _) as [[[] ] ]; repeat case_match; intros; simplify_eq/=;
      try done; by eapply Hins.
Qed.

(** What a client that asked for [path] ends with. *)
Definition served (path : cstr) (c : client) : Prop :=
  if PATH_SIZE <=? strlen path then c_pc c = CEnd EXIT_FAILURE /\ c_out c = []
  else
    match file path with
    | Some blocks =>
        c_pc c = CEnd EXIT_SUCCESS /\
        c_out c = received_text (sumZ strlen blocks) (Z.of_nat (length blocks) + 1)
    | None => c_pc c = CEnd EXIT_FAILURE /\ c_out c = could_not_open ++ [NEWLINE]
    end.

(** The server waits for requests, its children have ended, and every client
    has what it asked for. *)
Definition all_served (paths : list cstr) (st : state) : Prop :=
  server st = SRecv /\ requests st = [] /\
  Forall (fun k => exists e, k_pc k = KDone e) (children st) /\ Forall2 served paths (clients st).

Lemma ended_served ps cs i c k : inv_of ps cs -> cs !! i = Some c -> c_pc c = CEnd k -> served (c_path c) c.
Proof.
  intros [_ _ Hc] Hi Hp. pose proof (Hc i c Hi) as Hok. unfold client_ok in Hok. rewrite Hp in Hok. unfold served.
  destruct Hok as [(Hk & Hl & Ho & _)|(Hl & rest & got & _ & Hg & Hs)].
  - rewrite (proj2 (Z.leb_le _ _)) by done. split; [congruence|done].
  - rewrite (proj2 (Z.leb_gt _ _)) by done.
    pose proof (ended_got _ _ _ _ _ Hp Hg Hs) as Hnil. rewrite Hnil, app_nil_r in Hs.
    unfold has_got in Hg. rewrite Hp in *. destruct k; try done.
    + destruct Hg as (bs & -> & Ho). unfold script in Hs. destruct (file (c_path c)) as [bs'|].
      * apply app_inj_tail in Hs as [Hs _]. assert (Inj (=) (=) RData) by (by intros ? ? [=]).
        apply (inj (fmap RData)) in Hs as ->. by split.
      * destruct bs as [|b bs]; [done|]. by destruct bs.
    + destruct Hg as (-> & Ho). unfold script in Hs. destruct (file (c_path c)) as [bs'|]; [|by split].
      by destruct bs' as [|b [|]].
Qed.

Context (Hroom : (0 < room)%nat).

(** A child that has not ended runs, or its client does. *)
Lemma child_progress st j k : inv st -> children st !! j = Some k -> (forall e, k_pc k <> KDone e) ->
  exists p, is_Some (run p st).
Proof.
  intros [Hi _] Hj Hd. destruct k as [i pc]. simpl in Hd.
  destruct (child_pending st j _ (Child i pc) (clients st) Hj) as [_ Hpj].
  assert (Hsend : forall r rest, to_send (Child i pc) = (i, r :: rest) ->
    (exists p, is_Some (run p st)) \/ exists cs, send i r (clients st) = Sent cs).
  { intros r rest Heq. rewrite Heq in Hpj.
    destruct (send_spec _ _ _ _ _ Hi ltac:(by eapply list_elem_of_lookup_2)) as (c & Hc & Hpc & Hs).
    destruct (decide (length (c_queue c) < room)%nat); [by eauto|left].
    exists (PClient i). simpl. unfold run_client. rewrite Hc. destruct c as [cp path [|r' q] b m o]; simpl in *; [lia|].
    destruct Hpc as [-> | ->]; destruct (receive _ _ _ _) as [[[] ] ]; eauto. }
  assert (Hme : is_Some (run_child j st) -> exists p, is_Some (run p st)) by (intros; by exists (PChild j)).
  unfold run_child in Hme. rewrite Hj in Hme.
  destruct pc as [path| |[|b rest]|b rest| |e]; try (apply Hme; by eauto); [| | |by destruct (Hd e)].
  - destruct (Hsend RFail [] eq_refl) as [|[cs Hs]]; [done|]. apply Hme. rewrite Hs. eauto.
  - destruct (Hsend (RData b) _ eq_refl) as [|[cs Hs]]; [done|]. apply Hme. rewrite Hs. eauto.
  - destruct (Hsend REnd [] eq_refl) as [|[cs Hs]]; [done|]. apply Hme. rewrite Hs. eauto.
Qed.

(** A client that has not ended runs, or another process does. *)
Lemma client_progress st i c : inv st -> server st = SRecv -> requests st = [] ->
  Forall (fun k => exists e, k_pc k = KDone e) (children st) ->
  clients st !! i = Some c -> (forall e, c_pc c <> CEnd e) -> is_Some (run_client i st).
Proof.
  intros [[_ _ Hcl] _] Hs Hr Hk Hc Hd. pose proof (Hcl i c Hc) as Hok. unfold run_client. rewrite Hc.
  assert (Hnone : forall rest, (i, rest) ∈ pending st -> rest = []).
  { intros rest Hin. unfold pending in Hin. rewrite Hs, Hr in Hin. simpl in Hin. rewrite app_nil_r in Hin.
    apply list_elem_of_fmap_1 in Hin as (k & Heq & Hin). rewrite Forall_forall in Hk. destruct (Hk k Hin) as [e He].
    unfold to_send in Heq. rewrite He in Heq. by injection Heq. }
  assert (Hwait : c_pc c = CFirst \/ c_pc c = CLoop -> c_queue c <> []).
  { intros Hp Hq. unfold client_ok in Hok.
    assert (Hx : exists rest got, (i, rest) ∈ pending st /\ has_got c got /\ got ++ c_queue c ++ rest = script (c_path c))
      by (destruct Hp as [Hp|Hp]; rewrite Hp in Hok; by destruct Hok as [[? _]|[_ ?]]).
    destruct Hx as (rest & got & Hin & Hg & Hx). rewrite Hq, (Hnone _ Hin), app_nil_r in Hx. simpl in Hx.
    assert (Hdata : Forall is_data got).
    { unfold has_got in Hg. destruct Hp as [Hp|Hp]; rewrite Hp in Hg; [by destruct Hg as [-> _]|].
      destruct Hg as (bs & -> & _). by apply Forall_fmap, Forall_true. }
    destruct (script_ends (c_path c)) as (l & x & Hsc & _). revert Hx Hdata. unfold script.
    destruct (file (c_path c)); intros ->; [intros [_ Hx]%Forall_app|intros Hx]; by apply Forall_inv in Hx. }
  destruct c as [pc path q b m o]. simpl in *. destruct pc.
  - eauto.
  - rewrite Hs, Hr. simpl. rewrite decide_True by done. eauto.
  - destruct q as [|r q]; [by destruct Hwait; auto|]. destruct (receive _ _ _ _) as [[[] ] ]. eauto.
  - destruct q as [|r q]; [by destruct Hwait; auto|]. destruct (receive _ _ _ _) as [[[] ] ]. eauto.
  - by destruct (Hd k).
Qed.

Lemma msg_progress paths st : inv st -> c_path <$> clients st = paths ->
  (exists p, is_Some (run p st)) \/ (forall p, run p st = None) /\ all_served paths st.
Proof.
  intros Hi Hp. pose proof Hi as [Hi0 Hs].
  destruct (server st) as [|[i path]|k] eqn:Hsv; [| |by destruct (Hs k)].
  2: { left. exists PServer. simpl. unfold run_server. rewrite Hsv. eauto. }
  destruct (requests st) as [|r rs] eqn:Hr.
  2: { left. exists PServer. simpl. unfold run_server. rewrite Hsv, Hr. eauto. }
  assert (Hkd : forall k : child, Decision (exists e, k_pc k = KDone e)).
  { intros k. destruct (k_pc k) eqn:Hk; try (right; intros [e He]; by rewrite He in Hk). left. eauto. }
  destruct (decide (Forall (fun k => exists e, k_pc k = KDone e) (children st))) as [Hk|Hk].
  2: { left. apply not_Forall_Exists in Hk; [|apply _]. apply Exists_exists in Hk as (k & [j Hj]%list_elem_of_lookup & Hd).
       apply (child_progress st j k); [done|done|]. intros e He. apply Hd. eauto. }
  assert (Hcd : forall c : client, Decision (exists e, c_pc c = CEnd e)).
  { intros c. destruct (c_pc c) eqn:Hc; try (right; intros [e He]; by rewrite He in Hc). left. eauto. }
  destruct (decide (Forall (fun c => exists e, c_pc c = CEnd e) (clients st))) as [Hc|Hc].
  2: { left. apply not_Forall_Exists in Hc; [|apply _]. apply Exists_exists in Hc as (c & [j Hj]%list_elem_of_lookup & Hd).
       exists (PClient j). apply (client_progress st j c); try done. intros e He. apply Hd. eauto. }
  right. split.
  - intros [|j|i]; simpl.
    + unfold run_server. by rewrite Hsv, Hr.
    + unfold run_child. destruct (children st !! j) as [[i pc]|] eqn:Hj; [|done].
      rewrite Forall_lookup in Hk. destruct (Hk j _ Hj) as [e He]. simpl in He. by rewrite He.
    + unfold run_client. destruct (clients st !! i) as [[pc path q b m o]|] eqn:Hj; [|done].
      rewrite Forall_lookup in Hc. destruct (Hc i _ Hj) as [e He]. simpl in He. by rewrite He.
  - split_and!; try done. rewrite <-Hp. apply Forall2_fmap_l, Forall_Forall2_diag.
    apply Forall_lookup. intros i c Hci. rewrite Forall_lookup in Hc. destruct (Hc i c Hci) as [e He].
    by eapply ended_served.
Qed.

End Code.

(** Any number of clients that run while no call fails: from every state
    reached, every order of steps ends with the server waiting for further
    requests, its children ended, and each client served: told that the file
    could not be opened, or having counted exactly the bytes of the file it
    asked for and its messages, the end included, whatever the server did for
    others in between. There is no deadlock, with any room for messages in the
    queues. *)
Theorem msg_files_served (file : cstr -> option (list cstr)) (room : nat) (paths : list cstr) (st : state) :
  (0 < room)%nat -> reachable (run file room) (start paths) st ->
  always_ends (run file room) (all_served file paths) st.
Proof.
  intros Hroom Hr.
  assert (Hi : inv file st /\ c_path <$> clients st = paths).
  { revert Hr. apply (reachable_ind_inv _ (fun s => inv file s /\ c_path <$> clients s = paths)).
    - split; [apply start_ok|]. simpl. rewrite <-list_fmap_compose. apply list_fmap_id.
    - intros p s s' [Hs Hp] Hrun. split; [by eapply msg_run_inv|]. by rewrite (run_paths _ _ _ _ _ Hrun). }
  apply (ends_by_work (run file room) (fun s => inv file s /\ c_path <$> clients s = paths) _ (work file)); [..|exact Hi].
  - intros s _. apply msg_work_nonneg.
  - intros p s s' [Hs Hp] Hrun. split; [|by eapply msg_run_work].
    split; [by eapply msg_run_inv|]. by rewrite (run_paths _ _ _ _ _ Hrun).
  - intros s [Hs Hp]. by apply msg_progress.
Qed.

(** ** Runs *)

Definition demo_files (path : cstr) : option (list cstr) :=
  if decide (path = lit "f") then Some [lit "ab"; lit "c"] else None.
Definition demo_paths : list cstr := [lit "f"; lit "g"].

(** Both clients have asked, and the first child has filled a queue with room
    for one message. *)
Definition demo_run : list process :=
  [PClient 0; PClient 1; PClient 0; PServer; PServer; PClient 1; PServer; PChild 0; PChild 0; PChild 0; PChild 0].
Definition demo_served : state := default (start []) (run_all (run demo_files 1) demo_run (start demo_paths)).

Lemma msg_files_served_witness :
  run demo_files 1 (PChild 0) demo_served = None /\
  always_ends (run demo_files 1) (all_served demo_files demo_paths) demo_served.
Proof.
  split; [by vm_compute|]. apply (msg_files_served demo_files 1 demo_paths demo_served); [lia|].
  apply (run_all_reachable (run demo_files 1) demo_run _ (start demo_paths)); [apply reach_start|by vm_compute].
Defined.

(** A read that fails in the server looks like the end of the file: the client
    reports success with a part of it. *)
Example truncated_unnoticed :
  exists st, run_all (fire demo_files 4)
      (map Run [PClient 0; PClient 0; PServer; PServer; PChild 0; PChild 0; PChild 0] ++ [ReadFails 0] ++
       map Run [PChild 0; PClient 0; PClient 0]) (start [lit "f"]) = Some st /\
    c_out <$> clients st = [received_text 2 2] /\ c_pc <$> clients st = [CEnd EXIT_SUCCESS].
Proof. eexists. split; [vm_compute; reflexivity|]. by split. Qed.

(** A server that ends after a client has asked leaves it waiting for ever. *)
Example abandoned_client :
  exists st, run_all (fire demo_files 4)
      (map Run [PClient 0; PClient 0] ++ [ServerFails]) (start [lit "f"]) = Some st /\
    c_pc <$> clients st = [CFirst] /\ forall p, run demo_files 4 p st = None.
Proof. eexists. split; [vm_compute; reflexivity|]. split; [done|]. by intros [|j|[|i]]. Qed.
