(* ===== verification/SeqnumFifo.v ===== *)
(** pipes/fifo_seqnum_server.c and fifo_seqnum_client.c (src/tlpi-dist): a server
    that hands out sequences of numbers and any number of clients, over one
    FIFO for the requests and one FIFO of each client for its response, as a
    transition system with one event for each call that may wait.

    Opening a FIFO for writing waits for a process that opens it for reading,
    and the other way round. The server has made its FIFO when the clients
    start. *)
From Stdlib Require Import ZArith Lia Ascii String.
From stdpp Require Import base tactics list strings sets.
From S2P Require Import Prelude CString Transitions.
#[local] Open Scope Z_scope.

(** ** The programs *)

(** A request: the process and the length that it asks for. *)
Abbreviation request := (nat * Z)%type.

(** The server, opening its FIFO, reading, opening the client's FIFO, writing
    and closing it; [SUndefined]: the addition has overflowed. *)
Inductive server_pc :=
| SOpen | SRead | SOpenClient (req : request) | SWrite (req : request) | SClose (req : request) | SUndefined.

(** A client, making its FIFO, opening the server's, sending, opening its own
    and reading. *)
Inductive client_pc := KStart | KOpenServer | KSend | KOpenOwn | KRead | KEnd (k : exit_kind) | KKilled.

(** [k_met] is whether a writer has opened the client's FIFO, [k_writer]
    whether one has it open, [k_data] what is in it. *)
Record client := Client {
  k_pc : client_pc;
  k_len : Z;
  k_met : bool;
  k_writer : bool;
  k_data : list Z;
  k_out : cstr
}.

Record state := State {
  server : server_pc;
  seqNum : Z;
  fifo : list request;
  clients : list client
}.

Definition start (lens : list Z) : state :=
  State SOpen 0 [] ((fun len => Client KStart len false false [] []) <$> lens).

(** Who has the server's FIFO open, or waits to. *)
Definition writes_server (c : client) : bool :=
  match k_pc c with KOpenServer | KSend | KOpenOwn | KRead => true | _ => false end.

(** A client's FIFO is there from its start until it ends, but a client that
    is killed leaves it. *)
Definition has_fifo (c : client) : bool := match k_pc c with KStart | KEnd _ => false | _ => true end.

(** Who has its own FIFO open, or waits to. *)
Definition reads_own (c : client) : bool := match k_pc c with KOpenOwn | KRead => true | _ => false end.

Definition number_text (n : Z) : cstr := show_Z n ++ [NEWLINE].

Definition set_fifo (met writer : bool) (data : list Z) (c : client) : client :=
  Client (k_pc c) (k_len c) met writer data (k_out c).

Section Code.
(** The number of requests that the server's FIFO has room for. *)
Context (room : nat).

Definition run_server (st : state) : option state :=
  let goto s fifo cs := Some (State s (seqNum st) fifo cs) in
  match server st with
  | SOpen => if existsb writes_server (clients st) then goto SRead (fifo st) (clients st) else None
  | SRead => match fifo st with [] => None | req :: rest => goto (SOpenClient req) rest (clients st) end
  | SOpenClient req =>
      match clients st !! req.1 with
      | Some c =>
          if negb (has_fifo c) then goto SRead (fifo st) (clients st)
          else if reads_own c then
            goto (SWrite req) (fifo st) (<[req.1 := set_fifo true true (k_data c) c]> (clients st))
          else None
      | None => goto SRead (fifo st) (clients st)
      end
  | SWrite req =>
      match clients st !! req.1 with
      | Some c =>
          goto (SClose req) (fifo st)
            (if reads_own c then <[req.1 := set_fifo (k_met c) true (k_data c ++ [seqNum st]) c]> (clients st)
             else clients st)
      | None => goto (SClose req) (fifo st) (clients st)
      end
  | SClose req =>
      let next := seqNum st + req.2 in
      let cs := alter (fun c => set_fifo (k_met c) false (k_data c) c) req.1 (clients st) in
      if (INT_MIN <=? next) && (next <=? INT_MAX) then Some (State SRead next (fifo st) cs)
      else Some (State SUndefined (seqNum st) (fifo st) cs)
  | SUndefined => None
  end.

Definition run_client (i : nat) (st : state) : option state :=
  match clients st !! i with
  | None => None
  | Some (Client pc len met writer data out) =>
      let goto fifo c := Some (State (server st) (seqNum st) fifo (<[i := c]> (clients st))) in
      let step pc := goto (fifo st) (Client pc len met writer data out) in
      match pc with
      | KStart => step KOpenServer
      | KOpenServer => step KSend
      | KSend =>
          if decide (length (fifo st) < room)%nat then goto (fifo st ++ [(i, len)]) (Client KOpenOwn len met writer data out)
          else None
      | KOpenOwn => if met then step KRead else None
      | KRead =>
          match data with
          | n :: data => goto (fifo st) (Client (KEnd EXIT_SUCCESS) len met writer data (out ++ number_text n))
          | [] => if writer then None else step (KEnd EXIT_FAILURE)
          end
      | KEnd _ | KKilled => None
      end
  end.

Inductive process := PServer | PClient (i : nat).

Definition run (p : process) (st : state) : option state :=
  match p with PServer => run_server st | PClient i => run_client i st end.

(** A client whose call fails, and one that a signal kills. *)
Inductive event := Run (p : process) | Fails (i : nat) | Killed (i : nat).

Definition set_pc (pc : client_pc) (c : client) : client :=
  Client pc (k_len c) (k_met c) (k_writer c) (k_data c) (k_out c).

Definition fire (e : event) (st : state) : option state :=
  let stop i pc :=
    match clients st !! i with
    | None | Some (Client (KEnd _ | KKilled) _ _ _ _ _) => None
    | Some c => Some (State (server st) (seqNum st) (fifo st) (<[i := set_pc pc c]> (clients st)))
    end in
  match e with
  | Run p => run p st
  | Fails i => stop i (KEnd EXIT_FAILURE)
  | Killed i => stop i KKilled
  end.

(** ** Where requests and clients are *)

(** Requests that wait for the server to open the client's FIFO, and those
    without a number. *)
Definition asking (s : server_pc) : list request := match s with SOpenClient r => [r] | _ => [] end.
Definition current (s : server_pc) : list request := match s with SOpenClient r | SWrite r => [r] | _ => [] end.

(** The number of the [k]-th request that was answered. *)
Definition number (log : list request) (k : nat) : Z := sumZ snd (take k log).

(** What client [i] is doing when [log] has been answered. *)
Inductive stage (log : list request) (s : server_pc) (fifo : list request) (i : nat) : client -> Prop :=
| st_fresh pc len : pc = KStart \/ pc = KOpenServer \/ pc = KSend ->
    i ∉ (log ++ current s ++ fifo).*1 -> stage log s fifo i (Client pc len false false [] [])
| st_waiting len : (i, len) ∈ asking s ++ fifo -> stage log s fifo i (Client KOpenOwn len false false [] [])
| st_met pc len : pc = KOpenOwn \/ pc = KRead -> s = SWrite (i, len) ->
    stage log s fifo i (Client pc len true true [] [])
| st_given pc len w k : pc = KOpenOwn \/ pc = KRead -> log !! k = Some (i, len) ->
    stage log s fifo i (Client pc len true w [number log k] [])
| st_done len w k : log !! k = Some (i, len) ->
    stage log s fifo i (Client (KEnd EXIT_SUCCESS) len true w [] (number_text (number log k))).

Record inv_log (log : list request) (st : state) : Prop := {
  il_defined : server st <> SUndefined;
  il_open : server st = SOpen -> log = [];
  il_close r : server st = SClose r -> exists l, log = l ++ [r];
  il_seq : seqNum st + (match server st with SClose r => r.2 | _ => 0 end) = sumZ snd log;
  il_once : NoDup (log ++ current (server st) ++ fifo st).*1;
  il_known i : i ∈ (log ++ current (server st) ++ fifo st).*1 -> is_Some (clients st !! i);
  il_clients i c : clients st !! i = Some c -> stage log (server st) (fifo st) i c
}.

Lemma number_app log more k : (k <= length log)%nat -> number (log ++ more) k = number log k.
Proof. intros Hk. unfold number. by rewrite take_app_le. Qed.

(** A client does not mind what happens to others. *)
Lemma stage_other log s q log' s' q' i c :
  log `prefix_of` log' ->
  (i ∈ (log' ++ current s' ++ q').*1 -> i ∈ (log ++ current s ++ q).*1) ->
  (forall len, (i, len) ∈ asking s ++ q -> (i, len) ∈ asking s' ++ q') ->
  (forall len, s = SWrite (i, len) -> s' = SWrite (i, len)) ->
  stage log s q i c -> stage log' s' q' i c.
Proof.
  intros [more ->] Hin Hask Hw. destruct 1 as [pc len Hp Hn|len Ha|pc len Hp Hs|pc len w k Hp Hk|len w k Hk].
  - apply st_fresh; auto.
  - apply st_waiting; auto.
  - apply st_met; auto.
  - rewrite <-(number_app log more) by (apply lookup_lt_Some in Hk; lia).
    apply st_given; [done|by apply lookup_app_l_Some].
  - rewrite <-(number_app log more) by (apply lookup_lt_Some in Hk; lia).
    by apply st_done, lookup_app_l_Some.
Qed.

(** The client of a request that has no number. *)
Lemma unanswered_client log s q i len c :
  NoDup (log ++ current s ++ q).*1 -> (i, len) ∈ current s ++ q -> stage log s q i c ->
  c = Client KOpenOwn len false false [] [] /\ (i, len) ∈ asking s ++ q \/
  exists pc, (pc = KOpenOwn \/ pc = KRead) /\ c = Client pc len true true [] [] /\ s = SWrite (i, len).
Proof.
  intros Hn Hin Hs.
  assert (Hlog : forall k l, log !! k <> Some (i, l)).
  { intros k l Hk%list_elem_of_lookup_2. rewrite fmap_app in Hn. apply NoDup_app in Hn as (_ & Hd & _).
    apply (Hd i); by eapply list_elem_of_fmap_2'. }
  assert (Huniq : forall l, (i, l) ∈ current s ++ q -> l = len).
  { intros l Hl. rewrite fmap_app in Hn. apply NoDup_app in Hn as (_ & _ & Hn). by eapply NoDup_fst_unique. }
  destruct Hs as [pc l Hp Hf|l Ha|pc l Hp Hw|pc l w k Hp Hk|l w k Hk].
  - destruct Hf. rewrite fmap_app. apply elem_of_app. right. by eapply list_elem_of_fmap_2'.
  - left. assert (l = len) as ->; [|done]. apply Huniq. destruct s; set_solver.
  - right. assert (l = len) as ->; [|by exists pc]. apply Huniq. subst s. by left.
  - by apply Hlog in Hk.
  - by apply Hlog in Hk.
Qed.

(** An invariant of the clients survives an update. *)
Lemma clients_insert (P Q : nat -> client -> Prop) (cs : list client) i c c' :
  cs !! i = Some c -> Q i c' -> (forall k x, k <> i -> P k x -> Q k x) ->
  (forall k x, cs !! k = Some x -> P k x) -> forall k x, <[i := c']> cs !! k = Some x -> Q k x.
Proof.
  intros Hi Hc Hother Hcs k x Hx. destruct (lookup_insert_cases _ _ _ _ _ _ Hi Hx) as [[-> ->]|[Hne Hx']]; auto.
Qed.

Lemma is_Some_insert {A} (l : list A) i k x : is_Some (l !! k) -> is_Some (<[i := x]> l !! k).
Proof. rewrite !lookup_lt_is_Some. by rewrite length_insert. Qed.

Lemma alter_insert {A} (f : A -> A) (l : list A) i x : l !! i = Some x -> alter f i l = <[i := f x]> l.
Proof.
  intros Hx. apply list_eq. intros k. rewrite list_lookup_alter. case_decide as Hk.
  - subst k. rewrite Hx. symmetry. apply list_lookup_insert_eq. by eapply lookup_lt_Some.
  - by rewrite list_lookup_insert_ne.
Qed.

(** Distinct keys in a list of lengths cannot count more than the list. *)
Lemma keyed_sum (log : list request) (lens : list Z) :
  NoDup log.*1 -> (forall i l, (i, l) ∈ log -> lens !! i = Some l) -> Forall (fun l => 0 <= l) lens ->
  0 <= sumZ snd log <= sumZ id lens.
Proof.
  revert lens. induction log as [|[i l] log IH]; intros lens Hn Hl Hpos; simpl.
  - split; [lia|]. apply sumZ_nonneg. by apply Forall_forall.
  - assert (Hi : lens !! i = Some l) by (apply Hl; by left).
    assert (0 <= l) by (rewrite Forall_lookup in Hpos; by eapply Hpos).
    destruct (IH (<[i := 0]> lens)) as [H1 H2].
    + by eapply NoDup_cons_1_2.
    + intros k x Hx. rewrite list_lookup_insert_ne; [apply Hl; by right|]. intros <-.
      apply (NoDup_cons_1_1 _ _ Hn). by eapply list_elem_of_fmap_2'.
    + by apply Forall_insert.
    + rewrite (sumZ_insert _ _ _ _ _ Hi) in H2. simpl in H2. unfold id in *. lia.
Qed.

Lemma answered_client log st i l : inv_log log st -> (i, l) ∈ log ->
  exists c, clients st !! i = Some c /\ k_len c = l.
Proof.
  intros Hi Hin. pose proof (il_once _ _ Hi) as Hn. rewrite fmap_app in Hn. apply NoDup_app in Hn as (Hn & Hd & _).
  assert (Hi1 : i ∈ log.*1) by by eapply list_elem_of_fmap_2'.
  destruct (il_known _ _ Hi i) as [c Hc]; [rewrite fmap_app; apply elem_of_app; by left|].
  exists c. split; [done|]. destruct (il_clients _ _ Hi i c Hc) as [pc l' Hp Hf|l' Ha|pc l' Hp Hw|pc l' w k Hp Hk|l' w k Hk]; simpl.
  - destruct Hf. rewrite fmap_app. apply elem_of_app. by left.
  - destruct (Hd i Hi1). apply list_elem_of_fmap_2' with (x := (i, l')); [|done]. destruct (server st); set_solver.
  - destruct (Hd i Hi1). rewrite Hw. by left.
  - apply list_elem_of_lookup_2 in Hk. by eapply NoDup_fst_unique.
  - apply list_elem_of_lookup_2 in Hk. by eapply NoDup_fst_unique.
Qed.

(** The lengths are positive and their sum is an int. *)
Definition lens_ok (lens : list Z) : Prop := Forall (fun l => 0 < l) lens /\ sumZ id lens <= INT_MAX.

Lemma log_sum log st : inv_log log st -> lens_ok (k_len <$> clients st) -> 0 <= sumZ snd log <= INT_MAX.
Proof.
  intros Hi [Hp Hs]. destruct (keyed_sum log (k_len <$> clients st)) as [H1 H2]; [| | |lia].
  - pose proof (il_once _ _ Hi) as Hn. rewrite fmap_app in Hn. by apply NoDup_app in Hn as [? _].
  - intros i l Hin. destruct (answered_client _ _ _ _ Hi Hin) as (c & Hc & <-). by rewrite list_lookup_fmap, Hc.
  - eapply Forall_impl; [done|]. simpl. lia.
Qed.

(** ** The steps keep to it *)

Definition inv (st : state) : Prop := (exists log, inv_log log st) /\ lens_ok (k_len <$> clients st).

Lemma run_lens p st st' : run p st = Some st' -> k_len <$> clients st' = k_len <$> clients st.
Proof.
  assert (Hins : forall (cs : list client) i c c', cs !! i = Some c -> k_len c' = k_len c ->
    k_len <$> <[i := c']> cs = k_len <$> cs).
  { intros cs i c c' Hc Hp. rewrite list_fmap_insert, Hp. apply list_insert_id. by rewrite list_lookup_fmap, Hc. }
  destruct p as [|i]; simpl.
  - unfold run_server. destruct (server st) as [| |r|r|r|].
    + destruct (existsb _ _); by intros [= <-].
    + destruct (fifo st); by intros [= <-].
    + destruct (clients st !! r.1) as [c|] eqn:Hc; [|by intros [= <-]].
      destruct (negb _); [by intros [= <-]|]. destruct (reads_own c); intros [= <-]. by eapply Hins.
    + destruct (clients st !! r.1) as [c|] eqn:Hc; [|by intros [= <-]].
      intros [= <-]. simpl. destruct (reads_own c); [by eapply Hins|done].
    + assert (Hal : forall cs : list client, k_len <$> alter (fun c => set_fifo (k_met c) false (k_data c) c) r.1 cs = k_len <$> cs).
      { intros cs. apply list_eq. intros k. rewrite !list_lookup_fmap, list_lookup_alter.
        case_decide; [subst k|done]. by destruct (cs !! r.1). }
      destruct (_ && _); intros [= <-]; apply Hal.
    + done.
  - unfold run_client. destruct (clients st !! i) as [[pc len met writer data out]|] eqn:Hc; [|done].
    destruct pc; try case_decide; try destruct met; try destruct data; try destruct writer; intros; simplify_eq/=;
      by eapply Hins.
Qed.

(** The server moves and leaves the clients as they are. *)
Lemma server_quiet log st s q : inv_log log st ->
  current s ++ q = current (server st) ++ fifo st -> asking s ++ q = asking (server st) ++ fifo st ->
  s <> SUndefined -> s <> SOpen -> (forall r, s <> SClose r) -> (forall r, server st <> SClose r) -> (forall r, server st <> SWrite r) ->
  inv_log log (State s (seqNum st) q (clients st)).
Proof.
  intros Hi Hcur Hask Hsu Hso Hsc Hnc Hnw. destruct Hi as [Hd Ho Hc Hs Hn Hk Hcl]. split; simpl; try (by rewrite Hcur); try done.
  - intros r ->. by destruct (Hsc r).
  - rewrite <-Hs. destruct s, (server st); try done; exfalso; naive_solver.
  - intros k c Hc'. eapply stage_other; [done|by rewrite Hcur|by intros ?; rewrite Hask| |by apply Hcl].
    intros len Hw. by destruct (Hnw (k, len)).
Qed.

Lemma run_server_keeps log st st' : inv_log log st -> lens_ok (k_len <$> clients st) ->
  run_server st = Some st' -> exists log', inv_log log' st'.
Proof.
  intros Hi Hl Hr. pose proof (log_sum log st Hi Hl) as Hsum. pose proof Hi as [Hdef Ho Hc Hs Hn Hk Hcl].
  unfold run_server in Hr. destruct (server st) as [| |[i len]|[i len]|[i len]|] eqn:Hsv; simpl in *.
  - destruct (existsb _ _); [|done]. injection Hr as <-. exists log.
    apply server_quiet; rewrite ?Hsv; done.
  - destruct (fifo st) as [|r q] eqn:Hq; [done|]. injection Hr as <-. exists log.
    apply server_quiet; rewrite ?Hsv, ?Hq; done.
  - destruct (Hk i) as [c Hci]; [rewrite fmap_app; set_solver|]. rewrite Hci in Hr.
    destruct (unanswered_client log (SOpenClient (i, len)) (fifo st) i len c) as [[-> _]|(pc & _ & _ & ?)];
      [done|by left|by apply Hcl| |done]. simpl in Hr. injection Hr as <-. exists log. split; simpl; try done.
    + intros k Hkk. by apply is_Some_insert, Hk.
    + eapply (clients_insert _ _ _ _ _ _ Hci); [| |exact Hcl]; [by apply st_met; [left|]|].
      intros k x Hne. apply stage_other; [done|done| |done]. set_solver.
  - destruct (Hk i) as [c Hci]; [rewrite fmap_app; set_solver|]. rewrite Hci in Hr.
    destruct (unanswered_client log (SWrite (i, len)) (fifo st) i len c) as [[-> Ha]|(pc & Hpc & -> & _)];
      [done|by left|by apply Hcl| |].
    { rewrite fmap_app in Hn. apply NoDup_app in Hn as (_ & _ & Hn). simpl in Hn, Ha.
      destruct (NoDup_cons_1_1 _ _ Hn). by eapply list_elem_of_fmap_2'. }
    assert (Hro : reads_own (Client pc len true true [] []) = true) by by destruct Hpc as [-> | ->].
    rewrite Hro in Hr. injection Hr as <-. exists (log ++ [(i, len)]).
    assert (Hnum : seqNum st = number (log ++ [(i, len)]) (length log)).
    { unfold number. rewrite take_app_length. lia. }
    assert (Happ : (log ++ [(i, len)]) ++ fifo st = log ++ (i, len) :: fifo st) by by rewrite <-app_assoc.
    split; simpl; rewrite ?Happ; try done.
    + intros r [= <-]. by exists log.
    + rewrite sumZ_app. simpl. lia.
    + intros k Hkk. by apply is_Some_insert, Hk.
    + eapply (clients_insert _ _ _ _ _ _ Hci); [| |exact Hcl].
      * simpl. rewrite Hnum. apply st_given; [done|]. by apply list_lookup_middle.
      * intros k x Hne. apply stage_other; simpl; [by eexists|by rewrite Happ| |intros len' [= ? _]; congruence]. done.
  - destruct (Hc _ eq_refl) as [l ->]. assert (Hil : i ∈ (l ++ [(i, len)]).*1) by (rewrite fmap_app; set_solver).
    destruct (Hk i) as [c Hci]; [rewrite fmap_app; set_solver|].
    rewrite (proj2 (Z.leb_le _ _)), (proj2 (Z.leb_le _ _)) in Hr by (unfold INT_MIN; lia). injection Hr as <-.
    exists (l ++ [(i, len)]). rewrite (alter_insert _ _ _ _ Hci). split; simpl; try done.
    + lia.
    + intros k Hkk. by apply is_Some_insert, Hk.
    + eapply (clients_insert _ _ _ _ _ _ Hci); [| |exact Hcl].
      * pose proof (Hcl i c Hci) as Hst. destruct Hst as [pc l' Hp Hf|l' Ha|pc l' Hp Hw|pc l' w k Hp Hk'|l' w k Hk'].
        -- destruct Hf. rewrite fmap_app. apply elem_of_app. by left.
        -- rewrite fmap_app in Hn. apply NoDup_app in Hn as (_ & Hd & _). destruct (Hd i Hil). by eapply list_elem_of_fmap_2'.
        -- done.
        -- by apply st_given.
        -- by apply st_done.
      * intros k x Hne. by apply stage_other.
  - done.
Qed.

Lemma run_client_keeps log st i st' : inv_log log st -> run_client i st = Some st' -> inv_log log st'.
Proof.
  intros Hi Hr. pose proof Hi as [Hdef Ho Hc Hs Hn Hk Hcl]. unfold run_client in Hr.
  destruct (clients st !! i) as [[pc len met writer data out]|] eqn:Hci; [|done].
  pose proof (Hcl i _ Hci) as Hst.
  assert (Hquiet : forall c, stage log (server st) (fifo st) i c ->
    inv_log log (State (server st) (seqNum st) (fifo st) (<[i := c]> (clients st)))).
  { intros c Hst'. split; simpl; try done; [intros k Hkk; by apply is_Some_insert, Hk|].
    by eapply (clients_insert _ _ _ _ _ _ Hci); [| |exact Hcl]. }
  destruct pc.
  - injection Hr as <-. apply Hquiet. inversion Hst; simplify_eq; try (by destruct_or!). apply st_fresh; auto.
  - injection Hr as <-. apply Hquiet. inversion Hst; simplify_eq; try (by destruct_or!). apply st_fresh; auto.
  - case_decide; [|done]. injection Hr as <-. inversion Hst as [pc' l' Hp Hf| | | |]; simplify_eq; try (by destruct_or!).
    split; simpl; try done.
    + rewrite !app_assoc, fmap_app. apply NoDup_app. rewrite <-app_assoc. split_and!; [done| |by apply NoDup_singleton].
      intros x Hx. simpl. by intros ->%list_elem_of_singleton.
    + intros k Hkk. destruct (decide (k = i)) as [->|Hne].
      * apply is_Some_insert. by eexists.
      * apply is_Some_insert, Hk. revert Hkk. rewrite !fmap_app. simpl. set_solver.
    + eapply (clients_insert _ _ _ _ _ _ Hci); [| |exact Hcl].
      * apply st_waiting. set_solver.
      * intros k x Hne. apply stage_other; [done| |set_solver|done]. rewrite !fmap_app. simpl. set_solver.
  - destruct met; [|done]. injection Hr as <-. apply Hquiet. inversion Hst; simplify_eq; try (by destruct_or!).
    + apply st_met; auto.
    + eapply st_given; auto.
  - destruct data as [|n data]; [destruct writer; [done|]|]; injection Hr as <-; inversion Hst; simplify_eq; try (by destruct_or!).
    apply Hquiet. simpl. by apply st_done.
  - done.
  - done.
Qed.

Lemma seq_run_inv p st st' : inv st -> run p st = Some st' -> inv st'.
Proof.
  intros [[log Hi] Hl] Hr. split; [|by rewrite (run_lens _ _ _ Hr)].
  destruct p as [|i]; [by eapply run_server_keeps|]. exists log. by eapply run_client_keeps.
Qed.

Lemma seq_start_ok lens : lens_ok lens -> inv (start lens).
Proof.
  intros Hl. split; [|simpl; by rewrite <-list_fmap_compose, list_fmap_id].
  exists []. split; simpl; try done; [by apply NoDup_nil|set_solver|].
  intros i c Hc. rewrite list_lookup_fmap in Hc. destruct (lens !! i); [|done]. injection Hc as <-.
  apply st_fresh; [by left|]. simpl. set_solver.
Qed.

(** ** Termination *)

Definition client_work (c : client) : Z :=
  match k_pc c with
  | KStart => 12 | KOpenServer => 11 | KSend => 10 | KOpenOwn => 2 | KRead => 1 | KEnd _ | KKilled => 0
  end.
Definition server_work (s : server_pc) : Z :=
  match s with SOpen => 1 | SOpenClient _ => 4 | SWrite _ => 3 | SClose _ => 2 | SRead | SUndefined => 0 end.
Definition work (st : state) : Z :=
  server_work (server st) + 5 * Z.of_nat (length (fifo st)) + sumZ client_work (clients st).

Lemma work_same (cs : list client) i c c' : cs !! i = Some c -> k_pc c' = k_pc c ->
  sumZ client_work (<[i := c']> cs) = sumZ client_work cs.
Proof. intros Hc Hp. rewrite (sumZ_insert _ _ _ _ _ Hc). unfold client_work. rewrite Hp. lia. Qed.

Lemma work_alter (cs : list client) i b :
  sumZ client_work (alter (fun c => set_fifo (k_met c) b (k_data c) c) i cs) = sumZ client_work cs.
Proof.
  destruct (cs !! i) as [c|] eqn:Hc.
  - rewrite (alter_insert _ _ _ _ Hc). by apply work_same with (c := c).
  - f_equal. apply list_eq. intros k. rewrite list_lookup_alter. case_decide; [|done]. subst k. by rewrite Hc.
Qed.

Lemma seq_run_work p st st' : run p st = Some st' -> work st' < work st.
Proof.
  unfold work. destruct p as [|i]; simpl.
  - unfold run_server. destruct (server st) as [| |r|r|r|]; simpl.
    + destruct (existsb _ _); [|done]. intros [= <-]. simpl. lia.
    + destruct (fifo st) as [|r q]; [done|]. intros [= <-]. simpl. lia.
    + destruct (clients st !! r.1) as [c|] eqn:Hc; [|intros [= <-]; simpl; lia].
      destruct (negb _); [intros [= <-]; simpl; lia|]. destruct (reads_own c); [|done].
      intros [= <-]. simpl. rewrite (work_same _ _ _ _ Hc); [lia|done].
    + destruct (clients st !! r.1) as [c|] eqn:Hc; [|intros [= <-]; simpl; lia].
      destruct (reads_own c); intros [= <-]; simpl; [rewrite (work_same _ _ _ _ Hc); [lia|done]|lia].
    + destruct (_ && _); intros [= <-]; simpl; rewrite work_alter; lia.
    + done.
  - unfold run_client. destruct (clients st !! i) as [[pc len met writer data out]|] eqn:Hc; [|done].
    destruct pc; try case_decide; try destruct met; try destruct data; try destruct writer; intros; simplify_eq/=;
      rewrite (sumZ_insert _ _ _ _ _ Hc), ?length_app; unfold client_work; simpl; lia.
Qed.

Lemma seq_work_nonneg st : 0 <= work st.
Proof.
  assert (0 <= sumZ client_work (clients st)) by (apply sumZ_nonneg; intros c _; unfold client_work; destruct (k_pc c); lia).
  unfold work, server_work. destruct (server st); lia.
Qed.

(** ** The end *)

Definition len_of (lens : list Z) (i : nat) : Z := default 0 (lens !! i).

(** Every client has been served, in some order, and printed the sum of the
    lengths of those before it. *)
Definition all_numbered (lens : list Z) (st : state) : Prop :=
  fifo st = [] /\ exists order, order ≡ₚ seq 0 (length lens) /\ seqNum st = sumZ (len_of lens) order /\
    forall k i, order !! k = Some i -> exists c, clients st !! i = Some c /\
      k_pc c = KEnd EXIT_SUCCESS /\ k_out c = number_text (sumZ (len_of lens) (take k order)).

Lemma sumZ_keys log lens : (forall i l, (i, l) ∈ log -> lens !! i = Some l) ->
  sumZ snd log = sumZ (len_of lens) log.*1.
Proof.
  induction log as [|[i l] log IH]; intros H; simpl; [done|]. rewrite IH by (intros; apply H; by right).
  unfold len_of at 2. by rewrite (H i l) by by left.
Qed.

Lemma numbered_end log st : inv_log log st -> current (server st) = [] -> (forall r, server st <> SClose r) ->
  fifo st = [] -> (forall i c, clients st !! i = Some c -> exists k, k_pc c = KEnd k) ->
  all_numbered (k_len <$> clients st) st.
Proof.
  intros Hi Hcur Hnc Hq Hend. pose proof Hi as [_ _ _ Hs Hn _ Hcl]. split; [done|]. exists log.*1.
  rewrite Hcur, Hq, app_nil_r in Hn.
  assert (Hkeys : forall i l, (i, l) ∈ log -> (k_len <$> clients st) !! i = Some l).
  { intros i l Hin. destruct (answered_client _ _ _ _ Hi Hin) as (c & Hc & <-). by rewrite list_lookup_fmap, Hc. }
  assert (Hdone : forall i c, clients st !! i = Some c -> exists len w k, log !! k = Some (i, len) /\
    c = Client (KEnd EXIT_SUCCESS) len true w [] (number_text (number log k))).
  { intros i c Hc. destruct (Hend i c Hc) as [e He].
    destruct (Hcl i c Hc) as [pc len Hp Hf|len Ha|pc len Hp Hw|pc len w k Hp Hk|len w k Hk]; simpl in He; subst;
      try (by destruct_or!); [done|]. by exists len, w, k. }
  split_and!.
  - apply NoDup_Permutation; [done|apply NoDup_seq|]. intros i. rewrite elem_of_seq, length_fmap. split.
    + intros Hin. apply list_elem_of_fmap_1 in Hin as ([j l] & -> & Hin).
      apply Hkeys in Hin. rewrite list_lookup_fmap in Hin. simpl. destruct (clients st !! j) eqn:Hj; [|done].
      apply lookup_lt_Some in Hj. lia.
    + intros [_ Hlt]. destruct (lookup_lt_is_Some_2 (clients st) i) as [c Hc]; [lia|].
      destruct (Hdone i c Hc) as (len & w & k & Hk & _). apply list_elem_of_lookup_2 in Hk. by eapply list_elem_of_fmap_2'.
  - rewrite <-(sumZ_keys log) by done. rewrite <-Hs. destruct (server st); try lia. by destruct (Hnc req).
  - intros k i Hk. rewrite list_lookup_fmap in Hk. destruct (log !! k) as [[j l]|] eqn:Hlk; [|done]. injection Hk as ->.
    destruct (answered_client _ _ i l Hi) as (c & Hc & _); [by eapply list_elem_of_lookup_2|].
    exists c. split; [done|]. destruct (Hdone i c Hc) as (len & w & k' & Hk' & ->). split; [done|]. simpl.
    assert (k' = k) as ->.
    { eapply (NoDup_lookup _ _ _ _ Hn); by rewrite list_lookup_fmap, ?Hk', ?Hlk. }
    unfold number. rewrite <-fmap_take, <-sumZ_keys; [done|]. intros x y Hxy. apply Hkeys.
    apply list_elem_of_lookup in Hxy as [z Hz]. apply lookup_take_Some in Hz as [Hz _]. by eapply list_elem_of_lookup_2.
Qed.

Context (Hroom : (0 < room)%nat).

(** Between two requests every client that has not ended runs. *)
Lemma idle_client log st i c : inv_log log st -> current (server st) = [] -> fifo st = [] ->
  clients st !! i = Some c -> is_Some (run_client i st) \/ exists k, k_pc c = KEnd k.
Proof.
  intros Hi Hcur Hq Hc. unfold run_client. rewrite Hc.
  destruct (il_clients _ _ Hi i c Hc) as [pc len Hp Hf|len Ha|pc len Hp Hw|pc len w k Hp Hk|len w k Hk].
  - left. destruct Hp as [-> |[-> | ->]]; [by eexists..|]. rewrite Hq. simpl. rewrite decide_True by done. by eexists.
  - exfalso. rewrite Hq in Ha. destruct (server st); try done; by apply elem_of_nil in Ha.
  - by rewrite Hw in Hcur.
  - left. destruct Hp as [-> | ->]; by eexists.
  - right. by eexists.
Qed.

Lemma all_ended_dec (cs : list client) :
  (forall i c, cs !! i = Some c -> exists k, k_pc c = KEnd k) \/
  exists i c, cs !! i = Some c /\ forall k, k_pc c <> KEnd k.
Proof.
  assert (Hd : forall c : client, Decision (exists e, k_pc c = KEnd e)).
  { intros c. destruct (k_pc c) eqn:Hc; try (right; intros [e He]; by rewrite He in Hc). left. eauto. }
  destruct (decide (Forall (fun c => exists e, k_pc c = KEnd e) cs)) as [Hc|Hc].
  - left. intros i c Hi. rewrite Forall_lookup in Hc. by eapply Hc.
  - right. apply not_Forall_Exists in Hc; [|apply _]. apply Exists_exists in Hc as (c & [i Hi]%list_elem_of_lookup & Hn).
    exists i, c. split; [done|]. intros k Hk. apply Hn. eauto.
Qed.

Lemma seq_progress st : inv st ->
  (exists p, is_Some (run p st)) \/ (forall p, run p st = None) /\ all_numbered (k_len <$> clients st) st.
Proof.
  intros [[log Hi] Hl]. pose proof Hi as [Hdef Ho Hc Hs Hn Hk Hcl].
  assert (Hsrv : is_Some (run_server st) -> exists p, is_Some (run p st)) by (intros; by exists PServer).
  assert (Hidle : current (server st) = [] -> (forall r, server st <> SClose r) -> fifo st = [] -> run_server st = None ->
    (exists p, is_Some (run p st)) \/ (forall p, run p st = None) /\ all_numbered (k_len <$> clients st) st).
  { intros Hcur Hnc Hq Hnone. destruct (all_ended_dec (clients st)) as [He|(i & c & Hic & Hne)].
    - right. split; [|by eapply numbered_end]. intros [|i]; [done|]. simpl. unfold run_client.
      destruct (clients st !! i) as [[pc len met writer data out]|] eqn:Hci; [|done].
      destruct (He i _ Hci) as [k Hpk]. simpl in Hpk. by subst.
    - left. exists (PClient i). destruct (idle_client log st i c Hi Hcur Hq Hic) as [?|[k Hpk]]; [done|]. by destruct (Hne k). }
  unfold run_server in *. destruct (server st) as [| |[i len]|[i len]|r|] eqn:Hsv; simpl in *.
  - destruct (existsb writes_server (clients st)) eqn:Hw; [left; apply Hsrv; by eexists|].
    destruct (fifo st) as [|[i len] q] eqn:Hq; [by apply Hidle|]. exfalso.
    destruct (Hk i) as [c Hci]; [rewrite Ho by done; set_solver|].
    destruct (unanswered_client log SOpen ((i, len) :: q) i len c) as [[-> _]|(pc & _ & _ & ?)];
      [done|by left|by apply Hcl| |done].
    apply Bool.not_true_iff_false in Hw. apply Hw, existsb_exists. exists (Client KOpenOwn len false false [] []). split; [|done].
    apply list_elem_of_In. by eapply list_elem_of_lookup_2.
  - destruct (fifo st) as [|req q] eqn:Hq; [by apply Hidle|]. left. apply Hsrv. by eexists.
  - left. apply Hsrv. destruct (Hk i) as [c Hci]; [rewrite fmap_app; set_solver|]. rewrite Hci.
    destruct (unanswered_client log (SOpenClient (i, len)) (fifo st) i len c) as [[-> _]|(pc & _ & _ & ?)];
      [done|by left|by apply Hcl| |done]. by eexists.
  - left. apply Hsrv. destruct (clients st !! i); by eexists.
  - left. apply Hsrv. destruct (_ && _); by eexists.
  - done.
Qed.

End Code.

(** While no call fails and no client is killed, and the lengths that the
    clients ask for add up to an int: from every state reached, every order of
    steps ends, with no deadlock, and every client has printed a number of its
    own: for some order of the clients, the number of each is the sum of the
    lengths of those before it, so that the sequences follow one another without
    gap or overlap, and the server goes on from their sum. *)
Theorem seqnum_clients_numbered (room : nat) (lens : list Z) (st : state) :
  (0 < room)%nat -> lens_ok lens -> reachable (run room) (start lens) st ->
  always_ends (run room) (all_numbered lens) st.
Proof.
  intros Hroom Hl Hr.
  assert (Hi : inv st /\ k_len <$> clients st = lens).
  { revert Hr. apply (reachable_ind_inv _ (fun s => inv s /\ k_len <$> clients s = lens)).
    - split; [by apply seq_start_ok|]. simpl. by rewrite <-list_fmap_compose, list_fmap_id.
    - intros p s s' [Hs Hp] Hrun. split; [by eapply seq_run_inv|]. by rewrite (run_lens _ _ _ _ Hrun). }
  apply (ends_by_work (run room) (fun s => inv s /\ k_len <$> clients s = lens) _ work); [..|exact Hi].
  - intros s _. apply seq_work_nonneg.
  - intros p s s' [Hs Hp] Hrun. split; [|by eapply seq_run_work].
    split; [by eapply seq_run_inv|]. by rewrite (run_lens _ _ _ _ Hrun).
  - intros s [Hs <-]. by apply seq_progress.
Qed.

(** ** Runs *)

Definition demo_events : list process :=
  [PClient 0; PClient 1; PServer; PClient 1; PClient 1; PClient 0; PClient 0; PServer; PServer; PServer; PServer].
Definition demo_numbered : state := default (start []) (run_all (run 8) demo_events (start [3; 5])).

Lemma seqnum_clients_numbered_witness :
  seqNum demo_numbered = 5 /\ always_ends (run 8) (all_numbered [3; 5]) demo_numbered.
Proof.
  split; [by vm_compute|]. apply (seqnum_clients_numbered 8 [3; 5]).
  - lia.
  - split; [by repeat constructor|]. by vm_compute.
  - apply (run_all_reachable (run 8) demo_events _ (start [3; 5])); [apply reach_start|by vm_compute].
Defined.

(** The client that asked second is served first here. *)
Example second_served_first :
  exists st, run_all (run 8) (demo_events ++ [PClient 1; PClient 1; PServer; PServer; PServer; PServer; PClient 0; PClient 0])
      (start [3; 5]) = Some st /\ k_out <$> clients st = [number_text 5; number_text 0].
Proof. eexists. split; [vm_compute; reflexivity|by vm_compute]. Qed.

(** A client that is killed after it has asked leaves its FIFO, and the server
    waits for a reader: no other client is served. *)
Example killed_client_blocks_server :
  exists st, run_all (fire 8)
      ((Run <$> [PClient 0; PClient 0; PServer; PClient 0]) ++ [Killed 0] ++
       (Run <$> [PServer; PClient 1; PClient 1; PClient 1])) (start [3; 5]) = Some st /\
    k_pc <$> clients st = [KKilled; KOpenOwn] /\ forall p, run 8 p st = None.
Proof. eexists. split; [vm_compute; reflexivity|]. split; [done|]. by intros [|[|[|i]]]. Qed.

(** Two clients may ask for more than an int holds. *)
Example sequence_overflows :
  exists st, run_all (run 8)
      [PClient 0; PClient 0; PServer; PClient 0; PServer; PServer; PServer; PServer; PClient 1; PClient 1; PClient 1;
       PServer; PServer; PServer; PServer] (start [INT_MAX; 1]) = Some st /\ server st = SUndefined.
Proof. eexists. split; [vm_compute; reflexivity|done]. Qed.
