(* ===== verification/SemInit.v ===== *)
(** svsem/svsem_good_init.c and svsem/svsem_bad_init.c (src/tlpi-dist): any
    number of processes that start together, the first of which creates a
    semaphore for all, as transition systems with one event for each call that
    uses the semaphore.

    Nobody removes the semaphore, its key and permissions let every process use
    it, and a process may be killed at any time. What the programs print and the
    time they sleep are left out. *)
From Stdlib Require Import ZArith Lia Ascii String.
From stdpp Require Import base tactics list strings.
From S2P Require Import Prelude CString Process NumArgs Transitions.
#[local] Open Scope Z_scope.

Definition SEMVMX : Z := 32767.
Definition MAX_TRIES : nat := 10.

(** The semaphore of the set: its value and whether [sem_otime] is not zero. *)
Record semset := Semset { semval : Z; sem_otime : bool }.

(** semop with one operation: it blocks, fails with ERANGE, or is done. *)
Inductive sem_result := Blocks | OutOfRange | Operated (s : semset).

Definition semop (sem_op : Z) (s : semset) : sem_result :=
  if sem_op =? 0 then if semval s =? 0 then Operated (Semset (semval s) true) else Blocks
  else
    let v := semval s + sem_op in
    if v <? 0 then Blocks else if SEMVMX <? v then OutOfRange else Operated (Semset v true).

(** ** svsem_good_init.c *)

(** How a process ends: [exit] after its operation, [usageErr], [fatal],
    [getInt] that exits, [errExit] after semop; or it is killed. *)
Inductive ending := Completed | Usage | NotInitialized | BadNumber | RangeError | Killed.
#[export] Instance ending_eq_dec : EqDecision ending.
Proof. solve_decision. Defined.

(** At the first semget; SETVAL and the "no-op" of the creator; the second
    semget of another, which then makes a try; the operation. *)
Inductive good_pc := GCreate | GSetval | GNoop | GGet | GTry (j : nat) | GOp | GEnd (e : ending).

(** [g_argv]: the arguments after the name of the program. *)
Record good := Good { g_argv : list cstr; g_pc : good_pc }.

(** The state of the programs: the set, once it exists. *)
Record state (P : Type) := State { set : option semset; procs : list P }.
Arguments State {P}.
Arguments set {P}.
Arguments procs {P}.

Definition good_start (argvs : list (list cstr)) : state good :=
  State None ((fun a => Good a GCreate) <$> argvs).

(** [argc != 2 || strcmp(argv[1], "--help") == 0]. *)
Definition wrong_usage (argv : list cstr) : bool :=
  match argv with [a] => bool_decide (a = lit "--help") | _ => true end.

(** [sops[0].sem_op = getInt(argv[1], 0, "sem-op")], a short; [None]: getInt
    ends the process. *)
Definition sem_op_of `{ErrnoText} (argv : list cstr) : option Z :=
  match getInt (argv !! 0%nat) 0 (Some (lit "sem-op")) (Proc tt 0 None [] [] []) with
  | Ret n _ => Some (to_signed 16 n)
  | _ => None
  end.

(** One step of process [i], [junk] being the value of a new semaphore. *)
Definition run_good `{ErrnoText} (junk : Z) (i : nat) (st : state good) : option (state good) :=
  match procs st !! i with
  | None => None
  | Some (Good argv pc) =>
      let goto s pc := Some (State s (<[i := Good argv pc]> (procs st))) in
      match pc, set st with
      | GCreate, s =>
          if wrong_usage argv then goto s (GEnd Usage)
          else match s with
               | None => goto (Some (Semset junk false)) GSetval
               | Some _ => goto s GGet
               end
      | GSetval, Some s => goto (Some (Semset 0 (sem_otime s))) GNoop
      | GNoop, Some s =>
          match semop 0 s with
          | Operated s => goto (Some s) GOp
          | _ => None
          end
      | GGet, Some s => goto (Some s) (GTry 0)
      | GTry j, Some s =>
          if sem_otime s then goto (Some s) GOp
          else if (S j <? MAX_TRIES)%nat then goto (Some s) (GTry (S j))
          else goto (Some s) (GEnd NotInitialized)
      | GOp, Some s =>
          match sem_op_of argv with
          | None => goto (Some s) (GEnd BadNumber)
          | Some op =>
              match semop op s with
              | Blocks => None
              | OutOfRange => goto (Some s) (GEnd RangeError)
              | Operated s => goto (Some s) (GEnd Completed)
              end
          end
      | _, _ => None
      end
  end.

(** A step, or a process is killed. *)
Inductive event := Run (i : nat) | Kill (i : nat).

Definition fire_good `{ErrnoText} (junk : Z) (e : event) (st : state good) : option (state good) :=
  match e with
  | Run i => run_good junk i st
  | Kill i =>
      match procs st !! i with
      | Some (Good argv pc) =>
          match pc with
          | GEnd _ => None
          | _ => Some (State (set st) (<[i := Good argv (GEnd Killed)]> (procs st)))
          end
      | None => None
      end
  end.

(** ** svsem_bad_init.c *)

Inductive bad_pc := BCreate | BSetval | BGet | BOp | BEnd (e : ending).

(** [b_created]: whether the first semget of the process has created the set. *)
Record bad := Bad { b_created : bool; b_pc : bad_pc }.

Definition bad_start (n : nat) : state bad := State None (replicate n (Bad false BCreate)).

Definition run_bad (junk : Z) (i : nat) (st : state bad) : option (state bad) :=
  match procs st !! i with
  | None => None
  | Some (Bad c pc) =>
      let goto s c pc := Some (State s (<[i := Bad c pc]> (procs st))) in
      match pc, set st with
      | BCreate, None => goto (Some (Semset junk false)) true BSetval
      | BCreate, Some s => goto (Some s) false BGet
      | BSetval, Some s => goto (Some (Semset 0 (sem_otime s))) c BOp
      | BGet, Some s => goto (Some s) c BOp
      | BOp, Some s =>
          match semop 1 s with
          | Blocks => None
          | OutOfRange => goto (Some s) c (BEnd RangeError)
          | Operated s => goto (Some s) c (BEnd Completed)
          end
      | _, _ => None
      end
  end.

(** ** The good program: nobody operates before the semaphore is initialised *)

Section GoodInit.
Context `{ET : ErrnoText}.

(** The creator before its "no-op". *)
Definition creating (p : good) : Z := match g_pc p with GSetval | GNoop => 1 | _ => 0 end.

(** What a process has added to the semaphore. *)
Definition added (p : good) : Z :=
  match g_pc p with GEnd Completed => default 0 (sem_op_of (g_argv p)) | _ => 0 end.

(** Arithmetic on what the processes count for. *)
Ltac counts := unfold creating, added in *; simpl in *; lia.

(** A process that has seen the semaphore initialised. *)
Definition past (pc : good_pc) : bool :=
  match pc with GOp | GEnd Completed | GEnd BadNumber | GEnd RangeError => true | _ => false end.

(** A process that has not used the semaphore. *)
Definition unborn (pc : good_pc) : bool :=
  match pc with GCreate | GEnd Usage | GEnd Killed => true | _ => false end.

Definition good_inv (st : state good) : Prop :=
  match set st with
  | None => Forall (fun p => unborn (g_pc p) = true) (procs st)
  | Some (Semset v false) =>
      sumZ creating (procs st) <= 1 /\ Forall (fun p => past (g_pc p) = false) (procs st) /\
      Forall (fun p => g_pc p = GNoop -> v = 0) (procs st)
  | Some (Semset v true) =>
      sumZ creating (procs st) = 0 /\ v = sumZ added (procs st) /\ 0 <= v <= SEMVMX
  end.

(** Whoever is past the start found the semaphore initialised, and its value is
    what the operations made so far add up to. *)
Definition good_accounts (st : state good) : Prop :=
  (forall p, p ∈ procs st -> past (g_pc p) = true -> exists v, set st = Some (Semset v true)) /\
  (forall v, set st = Some (Semset v true) -> v = sumZ added (procs st) /\ 0 <= v <= SEMVMX).

(** Every process has ended, or waits for a value that others do not give. *)
Definition good_finished (st : state good) : Prop :=
  good_accounts st /\
  forall p, p ∈ procs st -> (exists e, g_pc p = GEnd e) \/
    (g_pc p = GOp /\ exists op s, sem_op_of (g_argv p) = Some op /\ set st = Some s /\ semop op s = Blocks).

Lemma creating_nonneg p : 0 <= creating p.
Proof. unfold creating. destruct (g_pc p); lia. Qed.

Lemma none_creating l : Forall (fun p => unborn (g_pc p) = true) l -> sumZ creating l = 0.
Proof. induction 1 as [|p l Hp _ IH]; simpl; [done|]. rewrite IH. unfold creating. by destruct (g_pc p). Qed.

Lemma none_added l : Forall (fun p => past (g_pc p) = false) l -> sumZ added l = 0.
Proof. induction 1 as [|p l Hp _ IH]; simpl; [done|]. rewrite IH. unfold added. by destruct (g_pc p) as [| | | | | |[]]. Qed.

Lemma good_accounts_inv st : good_inv st -> good_accounts st.
Proof.
  unfold good_inv, good_accounts. intros Hi. destruct (set st) as [[v []]|].
  - split; [by eauto|]. intros w [= <-]. by destruct Hi as (_ & ? & ?).
  - destruct Hi as (_ & Hf & _). split; [|done]. rewrite Forall_forall in Hf. intros p Hp Hq. by rewrite (Hf p Hp) in Hq.
  - rewrite Forall_forall in Hi. split; [|done]. intros p Hp Hq. specialize (Hi p Hp).
    by destruct (g_pc p) as [| | | | | |[]].
Qed.

(** A process that moves without the semaphore. *)
Lemma good_inv_move st i argv pc pc' : good_inv st -> procs st !! i = Some (Good argv pc) ->
  creating (Good argv pc') = 0 -> (pc = GOp \/ past pc' = false) -> added (Good argv pc) = 0 ->
  added (Good argv pc') = 0 -> (set st = None -> unborn pc' = true) ->
  (set st <> None -> past pc' = true -> pc = GOp) ->
  good_inv (State (set st) (<[i := Good argv pc']> (procs st))).
Proof.
  unfold good_inv. intros Hi Hp Hc Hpast Ha Ha' Hn Ho. simpl.
  pose proof (creating_nonneg (Good argv pc)). destruct (set st) as [[v []]|].
  - rewrite !(sumZ_insert _ _ _ _ _ Hp). pose proof (sumZ_member creating _ _ _ creating_nonneg Hp). lia.
  - destruct Hi as (H1 & H2 & H3). rewrite (sumZ_insert _ _ _ _ _ Hp). split; [lia|].
    split; apply Forall_insert; try done.
    + simpl. destruct (past pc') eqn:Hpp; [|done]. rewrite Forall_forall in H2.
      specialize (H2 _ (list_elem_of_lookup_2 _ _ _ Hp)). by rewrite (Ho ltac:(done) eq_refl) in H2.
    + simpl. intros ->. by unfold creating in Hc.
  - by apply Forall_insert; [|apply Hn].
Qed.

Lemma semop_spec op s s' : semop op s = Operated s' -> 0 <= semval s <= SEMVMX ->
  semval s' = semval s + op /\ sem_otime s' = true /\ 0 <= semval s' <= SEMVMX.
Proof.
  unfold semop. destruct (op =? 0) eqn:E; [destruct (semval s =? 0); [|done]; intros [= <-]; simpl; lia|].
  destruct (_ <? 0) eqn:E1; [done|]. destruct (SEMVMX <? _) eqn:E2; [done|]. intros [= <-]. simpl. lia.
Qed.

Lemma run_good_inv junk i st st' : good_inv st -> run_good junk i st = Some st' -> good_inv st'.
Proof.
  intros Hi. unfold run_good. destruct (procs st !! i) as [[argv pc]|] eqn:Hp; [|done].
  assert (Hmove : forall pc', creating (Good argv pc') = 0 -> (pc = GOp \/ past pc' = false) ->
    added (Good argv pc) = 0 -> added (Good argv pc') = 0 -> (set st = None -> unborn pc' = true) ->
    (set st <> None -> past pc' = true -> pc = GOp) ->
    good_inv (State (set st) (<[i := Good argv pc']> (procs st)))) by (intros; by eapply good_inv_move).
  pose proof (sumZ_member creating _ _ _ creating_nonneg Hp) as Hmem.
  assert (Hout : forall v, set st = Some (Semset v false) -> past pc = false).
  { intros v Hs. unfold good_inv in Hi. rewrite Hs in Hi. destruct Hi as (_ & Hf & _).
    by eapply (Forall_lookup_1 _ _ _ _ Hf) in Hp. }
  destruct pc as [| | | |j| |e]; [destruct (wrong_usage argv)| | | | | |done];
    [|destruct (set st) as [[v o]|] eqn:Hs..]; try done; simpl; intros Hr.
  - injection Hr as <-. by apply Hmove; try done; right.
  - injection Hr as <-. by apply Hmove; try done; right.
  - injection Hr as <-. unfold good_inv in *. rewrite Hs in Hi. simpl.
    rewrite (sumZ_insert _ _ _ _ _ Hp), (none_creating _ Hi). split; [done|].
    split; apply Forall_insert; try done; eapply Forall_impl; [exact Hi| |exact Hi|]; intros [? [| | | | | |[]]]; done.
  - injection Hr as <-. unfold good_inv in *. rewrite Hs in Hi. simpl. destruct o; [destruct Hi; counts|].
    destruct Hi as (H1 & H2 & H3). rewrite (sumZ_insert _ _ _ _ _ Hp). split; [counts|].
    split; apply Forall_insert; try done. by apply Forall_true.
  - unfold good_inv in *. rewrite Hs in Hi. destruct o; [counts|].
    destruct Hi as (H1 & H2 & H3). assert (v = 0) as -> by by apply (Forall_lookup_1 _ _ _ _ H3 Hp).
    injection Hr as <-. simpl. rewrite !(sumZ_insert _ _ _ _ _ Hp), (none_added _ H2).
    unfold SEMVMX. counts.
  - injection Hr as <-. by apply Hmove; try done; right.
  - destruct o; [|destruct (S j <? MAX_TRIES)%nat; injection Hr as <-; by apply Hmove; try done; right].
    injection Hr as <-. unfold good_inv in *. rewrite Hs in Hi. simpl. rewrite !(sumZ_insert _ _ _ _ _ Hp).
    counts.
  - assert (o = true) as -> by (destruct o; [done|by specialize (Hout _ eq_refl)]).
    destruct (sem_op_of argv) as [op|] eqn:Ho; [destruct (semop op _) as [| |s] eqn:He; [done| |]|];
      injection Hr as <-; try (by apply Hmove; try done; left).
    unfold good_inv in *. rewrite Hs in Hi. destruct Hi as (H1 & H2 & H3).
    destruct (semop_spec _ _ _ He H3) as (Hv & Hot & Hb). destruct s as [w []]; [|done]. simpl in *.
    rewrite !(sumZ_insert _ _ _ _ _ Hp). assert (added (Good argv (GEnd Completed)) = op) as -> by (unfold added; simpl; by rewrite Ho). counts.
Qed.

Lemma good_start_inv argvs : good_inv (good_start argvs).
Proof. apply Forall_forall. by intros p (a & -> & _)%list_elem_of_fmap. Qed.

Lemma fire_good_inv junk e st st' : good_inv st -> fire_good junk e st = Some st' -> good_inv st'.
Proof.
  intros Hi. destruct e as [i|i]; simpl; [by apply run_good_inv|].
  destruct (procs st !! i) as [[argv pc]|] eqn:Hp; [|done]. intros Hr.
  destruct pc; try done; injection Hr as <-; (eapply good_inv_move; [exact Hi|exact Hp|..]); try done; by right.
Qed.

(** Every step leaves less to do. *)
Definition good_left (p : good) : Z :=
  match g_pc p with
  | GCreate => 20 | GGet => 19 | GTry j => 18 - Z.of_nat (j `min` 10) | GSetval => 4 | GNoop => 3 | GOp => 2 | GEnd _ => 0
  end.

Lemma good_left_nonneg p : 0 <= good_left p.
Proof. unfold good_left. destruct (g_pc p); lia. Qed.

Lemma run_good_work junk i st st' : run_good junk i st = Some st' ->
  sumZ good_left (procs st') < sumZ good_left (procs st).
Proof.
  unfold run_good. destruct (procs st !! i) as [[argv pc]|] eqn:Hp; [|done].
  intros Hr. repeat (case_match; try done); injection Hr as <-; simpl; rewrite (sumZ_insert _ _ _ _ _ Hp);
    unfold good_left, MAX_TRIES in *; simpl; try lia.
  match goal with H : (_ <? _)%nat = true |- _ => apply Nat.ltb_lt in H end. lia.
Qed.

Lemma good_progress junk st : good_inv st ->
  (exists i, is_Some (run_good junk i st)) \/ (forall i, run_good junk i st = None) /\ good_finished st.
Proof.
  intros Hi. destruct (some_runs (run_good junk) (length (procs st)) st) as [|Hn]; [|by left|].
  { intros i Hle. unfold run_good. by rewrite lookup_ge_None_2. }
  right. split; [done|]. split; [by apply good_accounts_inv|]. intros p [i Hp]%list_elem_of_lookup.
  specialize (Hn i). unfold run_good in Hn. rewrite Hp in Hn. destruct p as [argv pc]. simpl.
  pose proof (sumZ_member creating _ _ _ creating_nonneg Hp).
  unfold good_inv in Hi. destruct (set st) as [s|] eqn:Hs.
  - destruct pc as [| | | |j| |e]; try done; [by destruct (wrong_usage argv)| |by destruct (sem_otime s), (S j <? MAX_TRIES)%nat| |by left; exists e].
    + destruct s as [v []]; [counts|]. destruct Hi as (_ & _ & H3).
      by rewrite (Forall_lookup_1 _ _ _ _ H3 Hp eq_refl) in Hn.
    + right. split; [done|]. destruct (sem_op_of argv) as [op|] eqn:Ho; [|done]. exists op, s.
      by destruct (semop op s) eqn:He.
  - eapply Forall_lookup_1 in Hi; [|exact Hp]. destruct pc; try done; [by destruct (wrong_usage argv)|]. left. eauto.
Qed.

(** C31: In whatever order the processes run, and whoever of them is killed, a
    process comes to its operation only when the semaphore has been
    initialised, and the semaphore's value is always the sum of the operations
    made, between 0 and SEMVMX; however the processes go on, each of them ends,
    or waits for others to raise or lower the value. *)
Theorem good_init_orders (junk : Z) (argvs : list (list cstr)) (st : state good) :
  reachable (fire_good junk) (good_start argvs) st ->
  good_accounts st /\ always_ends (run_good junk) good_finished st.
Proof.
  intros Hr. assert (Hi : good_inv st).
  { revert Hr. apply reachable_ind_inv; [apply good_start_inv|]. intros e s s'. apply fire_good_inv. }
  split; [by apply good_accounts_inv|].
  apply (ends_by_work _ good_inv _ (fun s => sumZ good_left (procs s))); [| |by apply good_progress|done].
  - intros s _. apply sumZ_nonneg. intros p _. apply good_left_nonneg.
  - intros i s s' Hs Hr'. split; [by eapply run_good_inv|by eapply run_good_work].
Qed.

End GoodInit.

(** ** The bad program: the late initialisation undoes operations *)

Definition ind (b : bool) : Z := if b then 1 else 0.

(** Initialising, having created and initialised, and ended; each counts the
    processes for which it is true. *)
Definition setting (p : bad) : Z := ind (b_created p && match b_pc p with BSetval => true | _ => false end).
Definition has_set (p : bad) : Z := ind (b_created p && match b_pc p with BOp => true | _ => false end).
Definition set_ended (p : bad) : Z := ind (b_created p && match b_pc p with BEnd _ => true | _ => false end).
Definition ended (p : bad) : Z := ind (match b_pc p with BEnd _ => true | _ => false end).

Definition bad_ok (p : bad) : Prop :=
  match b_pc p with
  | BCreate | BGet => b_created p = false
  | BSetval => b_created p = true
  | BOp => True
  | BEnd e => e = Completed
  end.

Definition bad_inv (junk : Z) (n : nat) (st : state bad) : Prop :=
  let count f := sumZ f (procs st) in
  length (procs st) = n /\ Forall bad_ok (procs st) /\
  match set st with
  | None => Forall (fun p => p = Bad false BCreate) (procs st)
  | Some (Semset v _) =>
      count setting + count has_set + count set_ended = 1 /\
      (count setting = 1 -> v = junk + count ended) /\
      (count setting = 0 -> count set_ended <= v <= count ended)
  end.

(** All have ended with success and the value is at most what it should be. *)
Definition bad_finished (n : nat) (st : state bad) : Prop :=
  Forall (fun p => b_pc p = BEnd Completed) (procs st) /\
  exists v o, set st = Some (Semset v o) /\ 1 <= v <= Z.of_nat n.

Ltac bad_counts := cbv zeta in *; unfold setting, has_set, set_ended, ended, ind in *; simpl in *; lia.

Lemma bad_counts_nonneg l : 0 <= sumZ setting l /\ 0 <= sumZ has_set l /\
  0 <= sumZ set_ended l <= sumZ ended l /\ sumZ ended l <= Z.of_nat (length l).
Proof.
  induction l as [|[c pc] l IH]; [done|]. change (length _) with (S (length l)).
  destruct c, pc; bad_counts.
Qed.

Section BadInit.
Context (junk : Z) (n : nat).

Lemma run_bad_inv i st st' : 0 <= junk -> junk + Z.of_nat n <= SEMVMX -> bad_inv junk n st ->
  run_bad junk i st = Some st' -> bad_inv junk n st'.
Proof.
  intros Hj Hn (Hl & Hok & Hi). unfold run_bad.
  destruct (procs st !! i) as [[c pc]|] eqn:Hp; [|done].
  pose proof (Forall_lookup_1 _ _ _ _ Hok Hp) as Hself. unfold bad_ok in Hself. simpl in Hself.
  pose proof (bad_counts_nonneg (procs st)) as Hc. rewrite Hl in Hc.
  assert (Hrest : forall s c' pc', bad_ok (Bad c' pc') ->
    (sumZ ended (<[i := Bad c' pc']> (procs st)) <= Z.of_nat n ->
     match s with
     | None => Forall (fun p => p = Bad false BCreate) (<[i := Bad c' pc']> (procs st))
     | Some (Semset v _) =>
       let count f := sumZ f (procs st) - f (Bad c pc) + f (Bad c' pc') in
       count setting + count has_set + count set_ended = 1 /\
       (count setting = 1 -> v = junk + count ended) /\
       (count setting = 0 -> count set_ended <= v <= count ended)
     end) -> bad_inv junk n (State s (<[i := Bad c' pc']> (procs st)))).
  { intros s c' pc' Hok' Hs. pose proof (bad_counts_nonneg (<[i := Bad c' pc']> (procs st))) as Hc'.
    rewrite length_insert, Hl in Hc'. split; [by simpl; rewrite length_insert|]. split; [by apply Forall_insert|]. simpl.
    destruct Hc' as (_ & _ & _ & Hc'). specialize (Hs Hc'). destruct s as [[v o]|]; [|done].
    by rewrite !(sumZ_insert _ _ _ _ _ Hp). }
  assert (Hnone : set st = None -> sumZ setting (procs st) = 0 /\ sumZ has_set (procs st) = 0 /\
    sumZ set_ended (procs st) = 0 /\ sumZ ended (procs st) = 0).
  { intros E. rewrite E in Hi. clear -Hi. induction Hi as [|p l -> _ IH]; [done|]. bad_counts. }
  destruct pc; destruct (set st) as [[v o]|] eqn:Hset; try done; simpl; intros Hr.
  - injection Hr as <-. apply Hrest; [done|]. intros _. rewrite Hself in *. bad_counts.
  - injection Hr as <-. specialize (Hnone eq_refl). apply Hrest; [done|]. intros _. rewrite Hself. bad_counts.
  - injection Hr as <-. apply Hrest; [done|]. intros _. rewrite Hself in *. bad_counts.
  - injection Hr as <-. apply Hrest; [done|]. intros _. rewrite Hself in *. bad_counts.
  - assert (sumZ ended (procs st) < Z.of_nat n) as Hlt.
    { pose proof (bad_counts_nonneg (<[i := Bad c (BEnd Completed)]> (procs st))) as Hc'.
      rewrite length_insert, Hl, !(sumZ_insert _ _ _ _ _ Hp) in Hc'. destruct c; bad_counts. }
    destruct (semop 1 _) as [| |s] eqn:He; [done| |].
    + exfalso. unfold semop in He. simpl in He. destruct (_ <? 0); [done|]. destruct (SEMVMX <? _) eqn:E; [|done].
      destruct c; bad_counts.
    + unfold semop in He. simpl in He. destruct (_ <? 0); [done|]. destruct (SEMVMX <? _); [done|].
      injection He as <-. injection Hr as <-. apply Hrest; [done|]. intros _. cbv zeta. destruct c; bad_counts.
Qed.

Lemma bad_start_inv : bad_inv junk n (bad_start n).
Proof.
  split; [apply length_replicate|].
  split; apply Forall_forall; intros p Hp; apply elem_of_replicate in Hp as [-> _]; done.
Qed.

Definition bad_left (p : bad) : Z :=
  match b_pc p with BCreate => 3 | BSetval | BGet => 2 | BOp => 1 | BEnd _ => 0 end.

Lemma run_bad_work i st st' : run_bad junk i st = Some st' -> sumZ bad_left (procs st') < sumZ bad_left (procs st).
Proof.
  unfold run_bad. destruct (procs st !! i) as [[c pc]|] eqn:Hp; [|done].
  intros Hr. repeat (case_match; try done); injection Hr as <-; simpl; rewrite (sumZ_insert _ _ _ _ _ Hp);
    unfold bad_left; simpl; lia.
Qed.

Lemma bad_progress st : (0 < n)%nat -> 0 <= junk -> bad_inv junk n st ->
  (exists i, is_Some (run_bad junk i st)) \/ (forall i, run_bad junk i st = None) /\ bad_finished n st.
Proof.
  intros Hn0 Hj (Hl & Hok & Hi). destruct (some_runs (run_bad junk) (length (procs st)) st) as [|Hn]; [|by left|].
  { intros i Hle. unfold run_bad. by rewrite lookup_ge_None_2. }
  right. split; [done|]. pose proof (bad_counts_nonneg (procs st)) as Hc. rewrite Hl in Hc.
  destruct (set st) as [[v o]|] eqn:Hs.
  - assert (Hall : Forall (fun p => b_pc p = BEnd Completed) (procs st)).
    { apply Forall_lookup. intros i [c pc] Hp. specialize (Hn i). unfold run_bad in Hn. rewrite Hp, Hs in Hn.
      eapply Forall_lookup_1 in Hok; [|exact Hp]. unfold bad_ok in Hok. destruct pc; simpl in *; try done; [|by rewrite Hok].
      unfold semop in Hn. simpl in Hn. destruct (v + 1 <? 0) eqn:E; [|by destruct (SEMVMX <? v + 1)].
      pose proof (sumZ_member ended _ _ _ (fun p => ltac:(unfold ended, ind; by destruct (match b_pc p with BEnd _ => true | _ => false end))) Hp).
      cbv zeta in Hi. lia. }
    split; [done|]. exists v, o. split; [done|].
    assert (Hz : sumZ setting (procs st) = 0 /\ sumZ has_set (procs st) = 0 /\ sumZ ended (procs st) <= Z.of_nat n).
    { split_and!; [| |lia]; clear -Hall; induction Hall as [|[c pc] l Hp _ IH]; try done; simpl in *; rewrite IH, Hp; by destruct c. }
    cbv zeta in Hi. lia.
  - exfalso. destruct (procs st) as [|p l] eqn:Hp; [simpl in Hl; lia|].
    specialize (Hn 0%nat). unfold run_bad in Hn. rewrite Hp, Hs in Hn. simpl in Hn.
    inversion Hi as [|? ? -> _]; subst. done.
Qed.

(** However the processes run, each ends with success; but the value, which the
    initialisation ought to make their number, is only known to be between one
    and their number. *)
Theorem bad_init_bounds (st : state bad) :
  (0 < n)%nat -> 0 <= junk -> junk + Z.of_nat n <= SEMVMX -> reachable (run_bad junk) (bad_start n) st ->
  always_ends (run_bad junk) (bad_finished n) st.
Proof.
  intros Hn Hj Hmax Hr. assert (Hi : bad_inv junk n st).
  { revert Hr. apply reachable_ind_inv; [apply bad_start_inv|]. intros i s s'. by apply run_bad_inv. }
  apply (ends_by_work _ (bad_inv junk n) _ (fun s => sumZ bad_left (procs s))); [| |by intros; apply bad_progress|done].
  - intros s _. apply sumZ_nonneg. intros p _. unfold bad_left. destruct (b_pc p); lia.
  - intros i s s' Hs Hr'. split; [by eapply run_bad_inv|by eapply run_bad_work].
Qed.

End BadInit.

(** ** Runs *)

#[export] Instance demo_sem_texts : ErrnoText :=
  {| MAX_ENAME := 0; ename := fun _ => []; strerror := fun _ => [] |}.

(** The first process creates the semaphore, the second looks at it once, the
    first initialises it and makes its operation. *)
Definition good_events : list event := Run <$> [0; 1; 1; 1; 0; 0; 0]%nat.
Definition good_args : list (list cstr) := [[lit "2"]; [lit "-1"]].
Definition good_state : state good := default (State None []) (run_all (fire_good 5) good_events (good_start good_args)).

Lemma good_init_orders_witness :
  set good_state = Some (Semset 2 true) /\ procs good_state !! 1%nat = Some (Good [lit "-1"] (GTry 1)) /\
  good_accounts good_state /\ always_ends (run_good 5) good_finished good_state.
Proof.
  split; [by vm_compute|]. split; [by vm_compute|]. apply (good_init_orders 5 good_args good_state).
  apply (run_all_reachable _ good_events _ (good_start good_args)); [apply reach_start|by vm_compute].
Defined.

(** The creator is killed after the call that creates: the other gives up. *)
Example creator_killed : exists st,
  run_all (fire_good 5) ([Run 0; Kill 0] ++ replicate 12 (Run 1)) (good_start good_args) = Some st /\
  g_pc <$> procs st = [GEnd Killed; GEnd NotInitialized].
Proof. eexists. split; vm_compute; reflexivity. Qed.

(** An operation that does not fit a short is another: 65535 lowers the
    semaphore by one. *)
Example sem_op_wraps : sem_op_of [lit "65535"] = Some (-1).
Proof. by vm_compute. Qed.

(** The bad program: the second process adds one between the creation and the
    initialisation by the first, and its addition is lost. *)
Example addition_lost : exists st,
  run_all (run_bad 0) [0; 1; 1; 1; 0; 0]%nat (bad_start 2) = Some st /\
  set st = Some (Semset 1 true) /\ b_pc <$> procs st = [BEnd Completed; BEnd Completed].
Proof. eexists. split; [vm_compute; reflexivity|done]. Qed.

Lemma bad_init_bounds_witness : always_ends (run_bad 0) (bad_finished 2) (bad_start 2).
Proof. apply (bad_init_bounds 0 2 (bad_start 2)); [lia|lia|by vm_compute|apply reach_start]. Defined.
