(* ===== verification/SimpleInit.v ===== *)
(** namespaces/simple_init.c (src/tlpi-dist): an init process that runs commands
    one after the other and reaps its children in the handler of SIGCHLD, as a
    transition system: a child may end, and the signal come, between any two
    calls of init.

    Left out: stopped and continued children, the terminal's foreground group
    but for the call that may fail, the mounting of procfs, and output. *)
From Stdlib Require Import ZArith Lia Ascii String.
From stdpp Require Import base tactics list strings.
From S2P Require Import Prelude CString Transitions.
#[local] Open Scope Z_scope.

(** In the loop of main: reading a command, after fork, in pause, making itself
    the foreground group. *)
Inductive init_pc := IRead | IForked | IPause | IForeground | IExit (k : exit_kind).

(** [input]: the lines that fgets will give; [pending]: SIGCHLD; [in_handler]:
    child_handler runs; [woken]: it has run since pause was called. *)
Record state := State {
  pc : init_pc;
  input : list cstr;
  children : list child_state;
  pending : bool;
  in_handler : bool;
  woken : bool
}.

Definition start (lines : list cstr) : state := State IRead lines [] false false false.

(** The command in a line, which may end in a newline: [None] for an empty line
    of fgets, before which the code looks. *)
Definition command_of (line : cstr) : option cstr :=
  match rev line with
  | [] => None
  | c :: rest => Some (if bool_decide (c = NEWLINE) then rev rest else line)
  end.

(** A step of main. *)
Definition run_main (st : state) : option state :=
  let goto p i cs w := Some (State p i cs (pending st) false w) in
  if in_handler st then None
  else
    match pc st with
    | IRead =>
        match input st with
        | [] => goto (IExit EXIT_SUCCESS) [] (children st) (woken st)
        | line :: rest =>
            match command_of line with
            | None => None
            | Some [] => goto IRead rest (children st) (woken st)
            | Some _ => goto IForked rest (children st ++ [Running]) (woken st)
            end
        end
    | IForked => goto IPause (input st) (children st) false
    | IPause => if woken st then goto IForeground (input st) (children st) false else None
    | IForeground => goto IRead (input st) (children st) (woken st)
    | IExit _ => None
    end.

(** The signal is delivered, or waitpid is called once more by the handler,
    which ends when there is nothing to reap. *)
Definition run_handler (st : state) : option state :=
  if in_handler st then
    match list_find (fun c => c = Zombie) (children st) with
    | Some (i, _) => Some (State (pc st) (input st) (<[i := Reaped]> (children st)) (pending st) true (woken st))
    | None => Some (State (pc st) (input st) (children st) (pending st) false (woken st))
    end
  else if pending st then
    Some (State (pc st) (input st) (children st) false true
            (woken st || match pc st with IPause => true | _ => false end))
  else None.

(** A child ends. *)
Definition run_child (i : nat) (st : state) : option state :=
  match children st !! i with
  | Some Running => Some (State (pc st) (input st) (<[i := Zombie]> (children st)) true (in_handler st) (woken st))
  | _ => None
  end.

Inductive process := Init | Handler | Child (i : nat).

Definition run (p : process) (st : state) : option state :=
  match pc st, p with
  | IExit _, _ => None
  | _, Init => run_main st
  | _, Handler => run_handler st
  | _, Child i => run_child i st
  end.

(** Or: fork or a call of main fails; a process whose parent has ended becomes
    a child of init. *)
Inductive event := Run (p : process) | CallFails | Adopts.

Definition fire (e : event) (st : state) : option state :=
  match e, pc st with
  | Run p, _ => run p st
  | _, IExit _ => None
  | CallFails, p =>
      if in_handler st then None
      else
        let exits k := Some (State (IExit k) (input st) (children st) (pending st) false (woken st)) in
        match p with IRead => exits EXIT_SUCCESS | IForeground => exits EXIT_FAILURE | _ => None end
  | Adopts, p => Some (State p (input st) (children st ++ [Running]) (pending st) (in_handler st) (woken st))
  end.

(** ** Every child that ends is reaped *)

Definition lines_ok (l : list cstr) : Prop := Forall (fun line => line <> []) l.

(** A zombie does not go unnoticed. *)
Definition inv (st : state) : Prop :=
  lines_ok (input st) /\ (Zombie ∈ children st -> pending st = true \/ in_handler st = true).

(** Init has ended; or all its children have been reaped and it is in pause, and
    no signal will come. *)
Definition finished (st : state) : Prop :=
  (exists k, pc st = IExit k) \/
  (pc st = IPause /\ woken st = false /\ Forall (fun c => c = Reaped) (children st)).

Definition child_work (c : child_state) : Z := match c with Running => 5 | Zombie => 1 | Reaped => 0 end.
Definition work (st : state) : Z :=
  sumZ child_work (children st) + 10 * Z.of_nat (length (input st)) +
  (if pending st then 2 else 0) + (if in_handler st then 1 else 0) +
  match pc st with IRead => 1 | IForked => 4 | IPause => 3 | IForeground => 2 | IExit _ => 0 end.

Lemma init_run_split p st st' : run p st = Some st' ->
  match p with Init => run_main st | Handler => run_handler st | Child i => run_child i st end = Some st'.
Proof. unfold run. by destruct (pc st), p. Qed.

Lemma init_run_inv p st st' : inv st -> run p st = Some st' -> inv st'.
Proof.
  intros [Hl Hz] Hr%init_run_split. destruct p as [| |i].
  - unfold run_main in Hr. destruct (in_handler st) eqn:Hh; [done|]. destruct (pc st); try done.
    + destruct (input st) as [|line rest] eqn:Hi; [injection Hr as <-; by split|].
      inversion Hl as [|? ? Hline Hrest]; subst. destruct (command_of line) as [[|c cmd]|]; try done; injection Hr as <-; (split; [done|]); simpl; [done|].
      intros [Hc|Hc]%elem_of_app; [auto|]. by apply list_elem_of_singleton in Hc.
    + injection Hr as <-. by split.
    + destruct (woken st); [|done]. injection Hr as <-. by split.
    + injection Hr as <-. by split.
  - unfold run_handler in Hr. destruct (in_handler st) eqn:Hh.
    + destruct (list_find _ _) as [[i c]|] eqn:Hf; injection Hr as <-; (split; [done|]); simpl; [auto|].
      apply list_find_None in Hf. rewrite Forall_forall in Hf. intros Hc. by destruct (Hf _ Hc).
    + destruct (pending st); [|done]. injection Hr as <-. split; [done|]. simpl. auto.
  - unfold run_child in Hr. destruct (children st !! i) as [[]|]; try done. injection Hr as <-. split; [done|]. simpl. auto.
Qed.

Lemma init_fire_inv e st st' : inv st -> fire e st = Some st' -> inv st'.
Proof.
  intros Hi. destruct e as [p| |]; simpl.
  - by apply init_run_inv.
  - destruct Hi as [Hl Hz]. destruct (pc st); [| | | |done]; (destruct (in_handler st) eqn:Hh; [done|]); intros Hr; try done;
      injection Hr as <-; by split.
  - destruct Hi as [Hl Hz]. destruct (pc st); try done; intros [= <-]; (split; [done|]); simpl;
      (intros [Hc|Hc]%elem_of_app; [auto|]); by apply list_elem_of_singleton in Hc.
Qed.

Lemma init_run_work p st st' : run p st = Some st' -> work st' < work st.
Proof.
  intros Hr%init_run_split. unfold work. destruct p as [| |i].
  - unfold run_main in Hr. destruct (in_handler st); [done|].
    destruct (pc st); try done; repeat (case_match; try done); simplify_eq; simpl; rewrite ?sumZ_app; simpl; lia.
  - unfold run_handler in Hr. destruct (in_handler st).
    + destruct (list_find _ _) as [[i c]|] eqn:Hf; injection Hr as <-; simpl; [|lia].
      apply list_find_Some in Hf as (Hi & -> & _). rewrite (sumZ_insert _ _ _ _ _ Hi). simpl. lia.
    + destruct (pending st); [|done]. injection Hr as <-. simpl. lia.
  - unfold run_child in Hr. destruct (children st !! i) as [[]|] eqn:Hi; try done. injection Hr as <-. simpl.
    rewrite (sumZ_insert _ _ _ _ _ Hi). simpl. destruct (pending st); lia.
Qed.

Lemma init_progress st : inv st ->
  (exists p, is_Some (run p st)) \/ (forall p, run p st = None) /\ finished st.
Proof.
  intros [Hl Hz]. destruct (pc st) as [| | | |k] eqn:Hpc.
  5: { right. split; [intros p; unfold run; by rewrite Hpc|]. left. by exists k. }
  all: assert (Hrun : forall p, run p st = match p with Init => run_main st | Handler => run_handler st | Child i => run_child i st end)
    by (intros p; unfold run; rewrite Hpc; by destruct p).
  all: destruct (in_handler st) eqn:Hh;
    [left; exists Handler; rewrite Hrun; unfold run_handler; rewrite Hh; destruct (list_find _ _) as [[]|]; eauto|].
  - left. exists Init. rewrite Hrun. unfold run_main. rewrite Hh, Hpc. destruct (input st) as [|line rest]; [eauto|].
    inversion Hl as [|? ? Hline _]; subst. destruct (command_of line) as [[|c cmd]|] eqn:Hc; eauto.
    exfalso. unfold command_of in Hc. destruct (rev line) eqn:Hrev; [|done].
    apply (f_equal (@rev ascii)) in Hrev. rewrite rev_involutive in Hrev. by subst.
  - left. exists Init. rewrite Hrun. unfold run_main. rewrite Hh, Hpc. eauto.
  - destruct (woken st) eqn:Hw; [left; exists Init; rewrite Hrun; unfold run_main; rewrite Hh, Hpc, Hw; eauto|].
    destruct (pending st) eqn:Hp; [left; exists Handler; rewrite Hrun; unfold run_handler; rewrite Hh, Hp; eauto|].
    destruct (decide (Running ∈ children st)) as [[i Hi]%list_elem_of_lookup|Hn].
    + left. exists (Child i). rewrite Hrun. unfold run_child. rewrite Hi. eauto.
    + right. split.
      * intros [| |i]; rewrite Hrun; unfold run_main, run_handler, run_child; rewrite ?Hh, ?Hpc, ?Hw, ?Hp; try done.
        destruct (children st !! i) as [[]|] eqn:Hi; try done. by destruct Hn; eapply list_elem_of_lookup_2.
      * right. split_and!; try done. apply Forall_forall. intros [] Hc; [done| |done].
        destruct (Hz Hc); congruence.
  - left. exists Init. rewrite Hrun. unfold run_main. rewrite Hh, Hpc. eauto.
Qed.

(** Whatever the order of events, a child that has ended is reaped: while
    there is a zombie the signal is pending or the handler is looking for it.
    From every state that can be reached every way to go on, without further
    failures and adoptions, ends with init gone, or with all children reaped
    and init in a pause that its child's signal came too early for. *)
Theorem init_reaps_children (lines : list cstr) (st : state) :
  lines_ok lines -> reachable fire (start lines) st ->
  (Zombie ∈ children st -> pending st = true \/ in_handler st = true) /\ always_ends run finished st.
Proof.
  intros Hl Hr. assert (Hi : inv st).
  { revert Hr. apply reachable_ind_inv; [by split; [|intros ?%elem_of_nil]|]. intros e s s'. apply init_fire_inv. }
  split; [apply Hi|]. apply (ends_by_work run inv finished work); [| |apply init_progress|done].
  - intros s _. unfold work. assert (0 <= sumZ child_work (children s)) by (apply sumZ_nonneg; intros [] _; simpl; lia).
    destruct (pending s), (in_handler s), (pc s); lia.
  - intros p s s' Hs Hr'. split; [by eapply init_run_inv|by eapply init_run_work].
Qed.

(** Two commands; the first has ended while init is in pause. *)
Definition demo_lines : list cstr := [lit "date" ++ [NEWLINE]; [NEWLINE]; lit "ls"].
Definition demo_events : list event := [Run Init; Run Init; Run (Child 0)].
Definition demo_state : state := default (start []) (run_all fire demo_events (start demo_lines)).

Lemma init_reaps_children_witness :
  children demo_state = [Zombie] /\ pc demo_state = IPause /\
  (Zombie ∈ children demo_state -> pending demo_state = true \/ in_handler demo_state = true) /\
  always_ends run finished demo_state.
Proof.
  split; [by vm_compute|]. split; [by vm_compute|]. apply (init_reaps_children demo_lines demo_state).
  - by repeat constructor.
  - apply (run_all_reachable fire demo_events _ (start demo_lines)); [apply reach_start|by vm_compute].
Defined.

(** The child ends, and the handler runs, before pause is called: init waits for
    ever. *)
Example wakeup_lost :
  let st := run_all fire [Run Init; Run (Child 0); Run Handler; Run Handler; Run Handler; Run Init] (start [lit "date"; lit "ls"]) in
  option_map (fun s => (children s, input s, pc s)) st = Some ([Reaped], [lit "ls"], IPause) /\
  option_bind _ _ (run Init) st = None /\ option_bind _ _ (run Handler) st = None.
Proof. vm_compute. done. Qed.
