(* ===== verification/MultiSigchld.v ===== *)
(** procexec/multi_SIGCHLD.c (src/tlpi-dist): a parent that reaps its children
    in the handler of SIGCHLD, which it keeps blocked but for sigsuspend, as a
    transition system: a child may end between any two calls of the parent.

    Left out: output, and failures of waitpid other than for want of children,
    which are reported and nothing more. *)
From Stdlib Require Import ZArith Lia.
From stdpp Require Import base tactics list.
From S2P Require Import Prelude Transitions.
#[local] Open Scope Z_scope.

(** The parent: creating [j] more children, at the head of its loop, in
    sigsuspend, in the loop of the handler, in its sleep. *)
Inductive parent_pc := MFork (j : nat) | MTest | MSuspend | MReap | MSleep | MExit (k : exit_kind).

Record state := State {
  pc : parent_pc;
  numLiveChildren : Z;
  sigCnt : Z;
  children : list child_state;
  pending : bool
}.

(** At the first fork, for [n] arguments. *)
Definition start (n : nat) : state := State (MFork n) (Z.of_nat n) 0 [] false.

(** A step of the handler; the last one ends sigsuspend. *)
Definition sigchldHandler (st : state) : option state :=
  match pc st with
  | MReap =>
      match list_find (fun c => c = Zombie) (children st) with
      | Some (i, _) => Some (State MReap (numLiveChildren st - 1) (sigCnt st) (<[i := Reaped]> (children st)) (pending st))
      | None => Some (State MSleep (numLiveChildren st) (sigCnt st) (children st) (pending st))
      end
  | MSleep => Some (State MTest (numLiveChildren st) (sigCnt st + 1) (children st) (pending st))
  | _ => None
  end.

Definition run_parent (st : state) : option state :=
  let goto p := Some (State p (numLiveChildren st) (sigCnt st) (children st) (pending st)) in
  match pc st with
  | MFork O => goto MTest
  | MFork (S j) => Some (State (MFork j) (numLiveChildren st) (sigCnt st) (children st ++ [Running]) (pending st))
  | MTest => if 0 <? numLiveChildren st then goto MSuspend else goto (MExit EXIT_SUCCESS)
  | MSuspend =>
      if pending st then Some (State MReap (numLiveChildren st) (sigCnt st) (children st) false) else None
  | MReap | MSleep => sigchldHandler st
  | MExit _ => None
  end.

(** A child ends: after its sleep, or because its argument is not a number. *)
Definition run_child (i : nat) (st : state) : option state :=
  match pc st, children st !! i with
  | MExit _, _ => None
  | p, Some Running => Some (State p (numLiveChildren st) (sigCnt st) (<[i := Zombie]> (children st)) true)
  | _, _ => None
  end.

Definition run (t : tid) (st : state) : option state :=
  match t with Main => run_parent st | Thread i => run_child i st end.

(** Or: fork fails. *)
Inductive event := Run (t : tid) | ForkFails.

Definition fire (e : event) (st : state) : option state :=
  match e with
  | Run t => run t st
  | ForkFails =>
      match pc st with
      | MFork (S j) => Some (State (MExit EXIT_FAILURE) (numLiveChildren st) (sigCnt st) (children st) (pending st))
      | _ => None
      end
  end.

(** ** All children are reaped *)

Definition to_fork (p : parent_pc) : nat := match p with MFork j => j | _ => 0 end.
Definition not_reaped (c : child_state) : Z := match c with Reaped => 0 | _ => 1 end.
Definition has_ended (c : child_state) : Z := match c with Running => 0 | _ => 1 end.

Section Children.
Variable n : nat.
(** Whether a fork has failed. *)
Variable failed : Prop.

(** The counter is right; a zombie is not left unnoticed; and each signal that
    was caught, or is pending, is for an end of its own. *)
Record inv (st : state) : Prop := {
  mi_live : pc st <> MExit EXIT_FAILURE ->
    numLiveChildren st = sumZ not_reaped (children st) + Z.of_nat (to_fork (pc st)) /\
    (length (children st) + to_fork (pc st) = n)%nat;
  mi_zombie : Zombie ∈ children st -> pending st = true \/ pc st = MReap \/ pc st = MExit EXIT_FAILURE;
  mi_count : 0 <= sigCnt st /\
    sigCnt st + (if pending st then 1 else 0) + (match pc st with MReap | MSleep => 1 | _ => 0 end) <= sumZ has_ended (children st);
  mi_caught : Reaped ∈ children st -> 0 < sigCnt st \/ pc st = MReap \/ pc st = MSleep;
  mi_waits : pc st = MSuspend -> 0 < numLiveChildren st;
  mi_exit k : pc st = MExit k -> k = EXIT_FAILURE /\ failed \/ k = EXIT_SUCCESS /\ numLiveChildren st = 0
}.

(** The end of a run: all children have ended and been waited for, and the
    handler was called between one and [n] times; or a fork has failed. *)
Definition finished (st : state) : Prop :=
  (pc st = MExit EXIT_FAILURE /\ failed) \/
  (pc st = MExit EXIT_SUCCESS /\ numLiveChildren st = 0 /\ children st = replicate n Reaped /\
   sigCnt st <= Z.of_nat n /\ ((0 < n)%nat -> 0 < sigCnt st)).

(** An end costs the signal it sends, the turn of the parent that this gives,
    and the reaping. *)
Definition child_work (c : child_state) : Z := match c with Running => 7 | Zombie => 1 | Reaped => 0 end.
Definition work (st : state) : Z :=
  sumZ child_work (children st) + (if pending st then 5 else 0) +
  match pc st with
  | MFork j => 10 + 8 * Z.of_nat j
  | MReap => 5 | MSleep => 4 | MTest => 3 | MSuspend => 1 | MExit _ => 0
  end.

Lemma sumZ_replicate {A} (f : A -> Z) k x : sumZ f (replicate k x) = Z.of_nat k * f x.
Proof. induction k as [|k IH]; simpl; lia. Qed.

Lemma Forall_Reaped l : Forall (fun c => c = Reaped) l -> l = replicate (length l) Reaped.
Proof. induction 1 as [|c l -> _ IH]; [done|]. simpl. by f_equal. Qed.

Lemma not_reaped_0 l : sumZ not_reaped l = 0 -> Forall (fun c => c = Reaped) l.
Proof.
  induction l as [|c l IH]; simpl; [by constructor|].
  assert (0 <= sumZ not_reaped l) by (apply sumZ_nonneg; intros [] _; simpl; lia).
  intros H0. constructor; [by destruct c; simpl in *; try lia|]. apply IH. destruct c; simpl in *; lia.
Qed.

Lemma zombie_insert (l : list child_state) i c : Zombie ∈ <[i := c]> l -> c = Zombie \/ Zombie ∈ l.
Proof.
  intros (j & Hj)%list_elem_of_lookup. destruct (decide (i = j)) as [<-|Hne].
  - left. destruct (decide (i < length l)%nat); [by rewrite list_lookup_insert_eq in Hj by done; injection Hj|].
    by rewrite list_insert_ge, (proj2 (lookup_ge_None _ _)) in Hj by lia.
  - right. rewrite list_lookup_insert_ne in Hj by done. by eapply list_elem_of_lookup_2.
Qed.

#[local] Ltac field :=
  simpl in *; try done; try lia; try (intros _; lia); try (by intros; auto);
  try (let Hx := fresh in intros Hx; match goal with H : _ ∈ _ -> _ |- _ => destruct (H Hx) as [|[|]] end; first [done | auto; done | lia]).

Lemma parent_inv st st' : inv st -> run_parent st = Some st' -> inv st'.
Proof.
  intros [Hl Hz Hc Hg Hw He] Hr. destruct st as [p live cnt cs pend]. unfold run_parent, sigchldHandler in Hr. simpl in *.
  assert (Hp : forall k, p <> MExit k) by (by intros k ->). destruct (Hl (Hp _)) as [Hl1 Hl2]. clear Hl.
  destruct p as [[|j]| | | | |k]; simplify_eq; simpl in *.
  - split; field.
  - split; simpl; rewrite ?sumZ_app, ?length_app; simpl; try (intros [Hx|Hx]%elem_of_app; [|by apply list_elem_of_singleton in Hx]; revert Hx); field.
  - assert (0 <= sumZ not_reaped cs) by (apply sumZ_nonneg; intros [] _; simpl; lia).
    destruct (Z.ltb_spec 0 (sumZ not_reaped cs + Z.of_nat 0)); simplify_eq; split; field.
    intros k ?. right. split; [congruence|lia].
  - destruct pend; [|done]. simplify_eq. split; field.
  - destruct (list_find _ cs) as [[i c]|] eqn:Hf; simplify_eq.
    + apply list_find_Some in Hf as (Hi & -> & _).
      split; simpl; rewrite ?(sumZ_insert _ _ _ _ _ Hi), ?length_insert; simpl; field.
    + apply list_find_None in Hf. rewrite Forall_forall in Hf. split; field. intros Hx. by destruct (Hf _ Hx).
  - split; field. 
Qed.

Lemma child_inv i st st' : inv st -> run_child i st = Some st' -> inv st'.
Proof.
  intros [Hl Hz Hc Hg Hw He] Hr. unfold run_child in Hr. destruct st as [p live cnt cs pend]. simpl in *.
  destruct (cs !! i) as [[]|] eqn:Hi; try (by destruct p).
  assert (Hr' : State p live cnt (<[i := Zombie]> cs) true = st' /\ forall k, p <> MExit k) by (destruct p; simplify_eq; done).
  clear Hr. destruct Hr' as [<- Hp]. split; simpl.
  - intros H. destruct (Hl H) as [Hl1 Hl2]. rewrite (sumZ_insert _ _ _ _ _ Hi), length_insert. simpl. lia.
  - by left.
  - rewrite (sumZ_insert _ _ _ _ _ Hi). simpl. destruct pend; lia.
  - intros Hx. apply Hg. apply list_elem_of_lookup in Hx as [j Hj]. destruct (decide (i = j)) as [<-|].
    + by rewrite list_lookup_insert_eq in Hj by by eapply lookup_lt_Some.
    + rewrite list_lookup_insert_ne in Hj by done. by eapply list_elem_of_lookup_2.
  - exact Hw.
  - intros k Hk. by destruct (Hp k).
Qed.

Lemma sigchld_fire_inv e st st' : (e = ForkFails -> failed) -> inv st -> fire e st = Some st' -> inv st'.
Proof.
  intros Hfail Hi. destruct e as [[|i]|]; simpl; [by apply parent_inv|by apply child_inv|].
  destruct Hi as [Hl Hz Hc Hg Hw He]. destruct (pc st) as [[|j]| | | | |] eqn:Hp; try done. intros [= <-].
  split; field. intros k [= <-]. left. auto.
Qed.

Lemma run_work t st st' : run t st = Some st' -> work st' < work st.
Proof.
  unfold work. destruct t as [|i]; simpl.
  - unfold run_parent, sigchldHandler. destruct st as [[[|j]| | | | |k] live cnt cs pend]; cbn [pc numLiveChildren sigCnt children pending]; intros Hr.
    5: destruct (list_find _ cs) as [[i c]|] eqn:Hf; [apply list_find_Some in Hf as (Hi & -> & _)|].
    4: destruct pend; [|done].
    3: destruct (0 <? live).
    all: simplify_eq; cbn [pc children pending]; rewrite ?sumZ_app, ?(sumZ_insert _ _ _ _ _ Hi); simpl; lia.
  - unfold run_child. destruct (children st !! i) as [[]|] eqn:Hi; try (by destruct (pc st)).
    assert (Hs : forall p, sumZ child_work (<[i := Zombie]> (children st)) + 5 + p < sumZ child_work (children st) + (if pending st then 5 else 0) + p)
      by (intros p; rewrite (sumZ_insert _ _ _ _ _ Hi); simpl; destruct (pending st); lia).
    destruct (pc st); intros [= <-]; apply Hs.
Qed.

Lemma sigchld_work_nonneg st : 0 <= work st.
Proof.
  unfold work. assert (0 <= sumZ child_work (children st)) by (apply sumZ_nonneg; intros [] _; simpl; lia).
  destruct (pending st), (pc st); lia.
Qed.

(** In sigsuspend either the signal is pending or a child still runs. *)
Lemma sigchld_progress st : inv st -> (exists t, is_Some (run t st)) \/ (forall t, run t st = None) /\ finished st.
Proof.
  intros [Hl Hz Hc Hg Hw He]. destruct (pc st) as [[|j]| | | | |k] eqn:Hp.
  1,2,3,5,6: left; exists Main; simpl; unfold run_parent, sigchldHandler; rewrite Hp; repeat case_match; eauto.
  - destruct (pending st) eqn:Hq; [left; exists Main; simpl; unfold run_parent, sigchldHandler; rewrite Hp, Hq; eauto|].
    destruct (decide (Running ∈ children st)) as [[i Hi]%list_elem_of_lookup|Hn].
    + left. exists (Thread i). simpl. unfold run_child. rewrite Hp, Hi. eauto.
    + assert (Hall : Forall (fun c => c = Reaped) (children st)).
      { apply Forall_forall. intros [] Hx; [done| |done]. by destruct (Hz Hx) as [|[|]]. }
      exfalso. specialize (Hw eq_refl). destruct Hl as [Hl _]; [done|]. rewrite (Forall_Reaped _ Hall) in Hl. simpl in Hl.
      rewrite sumZ_replicate in Hl. simpl in Hl. lia.
  - right. split; [intros [|i]; simpl; [unfold run_parent|unfold run_child]; by rewrite Hp|].
    destruct (He k eq_refl) as [[-> Hfail]|[-> H0]]; [by left|right]. destruct Hl as [Hl Hn]; [done|]. simpl in Hl, Hn.
    assert (Hall : children st = replicate n Reaped).
    { rewrite <-Hn, Nat.add_0_r. apply Forall_Reaped, not_reaped_0. lia. }
    rewrite Hall, sumZ_replicate in Hc. simpl in Hc. split_and!; try done; [destruct (pending st); lia|].
    intros Hpos. destruct Hg as [|[|]]; try done. rewrite Hall. destruct n; [lia|by left].
Qed.
End Children.

(** C36: For any number of children and after any events, the parent ends,
    however the ends of the children fall from there. It ends with failure only
    if one of the events was a fork that failed. Otherwise it ends with success,
    and then all children have been waited for, its counter is zero, and the
    handler has been called at least once, if there is a child, and at most once
    for each child. *)
Theorem children_all_reaped (n : nat) (es : list event) (st : state) :
  run_all fire es (start n) = Some st -> always_ends run (finished n (ForkFails ∈ es)) st.
Proof.
  intros Hr. apply (ends_by_work run (inv n (ForkFails ∈ es)) (finished n _) work).
  - intros s _. apply sigchld_work_nonneg.
  - intros t s s' Hi Hs. split; [|by eapply run_work]. by apply (sigchld_fire_inv n _ (Run t) s).
  - apply sigchld_progress.
  - revert Hr. apply run_all_inv; [intros e s s' He; apply sigchld_fire_inv; by intros <-|]. split; simpl; try done; try lia.
    all: by intros ?%elem_of_nil.
Qed.

(** ** Runs *)

(** Three children: the first ends, and the others while the handler sleeps. *)
Definition demo_events : list event :=
  Run <$> [Main; Main; Main; Thread 1; Main; Main; Main; Main; Main; Thread 0; Thread 2].
Definition demo_state : state := default (start 0) (run_all fire demo_events (start 3)).

Lemma children_all_reaped_witness :
  children demo_state = [Zombie; Reaped; Zombie] /\ pc demo_state = MSleep /\
  always_ends run (finished 3 (ForkFails ∈ demo_events)) demo_state.
Proof.
  split; [by vm_compute|]. split; [by vm_compute|]. apply (children_all_reaped 3 demo_events demo_state). by vm_compute.
Defined.

(** The two signals of the run are one: the handler is called twice in all. *)
Example signals_merge :
  run_all fire (demo_events ++ (Run <$> replicate 8 Main)) (start 3) =
    Some (State (MExit EXIT_SUCCESS) 0 2 [Reaped; Reaped; Reaped] false).
Proof. by vm_compute. Qed.
