(* ===== verification/SelfPipe.v ===== *)
(** altio/self_pipe.c (src/tlpi-dist): select on descriptors and a signal, by
    way of a pipe to which the handler writes, as a transition system; the
    signal may come between any two calls. *)
From Stdlib Require Import ZArith Lia Ascii String.
From stdpp Require Import base tactics list strings.
From S2P Require Import Prelude CString Process NumArgs Transitions.
#[local] Open Scope Z_scope.

(** ** The sets of descriptors *)

Definition FD_SETSIZE : Z := 1024.

(** [FD_SET] on an array of FD_SETSIZE bits. *)
Definition FD_SET {K} (fd : Z) (readfds : list Z) : M (proc K) (list Z) :=
  if (0 <=? fd) && (fd <? FD_SETSIZE) then ret (readfds ++ [fd]) else undef.

Section Arguments.
Context `{ErrnoText} {K : Type}.
Abbreviation PM := (M (proc K)).

(** The loop over the arguments from the third one on: [nfds] and the set. *)
Fixpoint build_set (args : list cstr) (nfds : Z) (readfds : list Z) : PM (Z * list Z) :=
  match args with
  | [] => ret (nfds, readfds)
  | arg :: args =>
      let! fd := getInt (Some arg) 0 (Some (lit "fd")) in
      if FD_SETSIZE <=? fd then cmdLineErr (lit "file descriptor exceeds limit (" ++ show_Z FD_SETSIZE ++ lit ")" ++ [NEWLINE])
      else
        let! readfds := FD_SET fd readfds in
        build_set args (if nfds <=? fd then fd + 1 else nfds) readfds
  end.

(** The timeout, [None] for a null pointer; then the sets, with the read end
    [pfd] of the pipe. *)
Definition prepare (argv : list cstr) (pfd : Z) : PM (option Z * Z * list Z) :=
  match argv with
  | prog :: t :: args =>
      if bool_decide (t = lit "--help") then usageErr (prog ++ lit " {timeout|-} fd..." ++ [NEWLINE])
      else
        let! timeout := (if bool_decide (t = lit "-") then ret None
                         else let! n := getLong (Some t) 0 (Some (lit "timeout")) in ret (Some n)) in
        let! (nfds, readfds) := build_set args 0 [] in
        let! readfds := FD_SET pfd readfds in
        ret (timeout, Z.max nfds (pfd + 1), readfds)
  | prog :: _ => usageErr (prog ++ lit " {timeout|-} fd..." ++ [NEWLINE])
  | [] => usageErr (lit " {timeout|-} fd..." ++ [NEWLINE])
  end.
End Arguments.

(** ** select and the handler *)

Section Pipe.
(** How many bytes the pipe can hold. *)
Context (capacity : nat).

(** In select; after it, with the bit of the pipe in the set; reading bytes from
    the pipe; before the end. *)
Inductive main_pc := PSelect | PTest (isset : bool) | PDrain | PReport (isset : bool) | PExit.

(** [pipe]: the bytes in the pipe; [ready]: whether another descriptor is ready
    or the time is over; [handled]: how often the handler has run; [caught]: "A
    signal was caught" has been printed; [early]: the handler had run when
    select returned. *)
Record state := State {
  pc : main_pc;
  pipe : nat;
  ready : bool;
  handled : nat;
  caught : bool;
  early : bool
}.

Definition start : state := State PSelect 0 false 0 false false.

(** The handler: one byte, if there is room for it. *)
Definition handler (st : state) : option state :=
  match pc st with
  | PExit => None
  | p => Some (State p (if (pipe st <? capacity)%nat then S (pipe st) else pipe st) (ready st) (S (handled st)) (caught st) (early st))
  end.

(** main; an interrupted select is called again. *)
Definition run_main (st : state) : option state :=
  let goto p n c := Some (State p n (ready st) (handled st) c (early st)) in
  match pc st with
  | PSelect =>
      let isset := (0 <? pipe st)%nat in
      if isset || ready st then
        Some (State (PTest isset) (pipe st) (ready st) (handled st) (caught st) (0 <? handled st)%nat)
      else None
  | PTest isset => if isset then goto PDrain (pipe st) true else goto (PReport false) (pipe st) (caught st)
  | PDrain => match pipe st with O => goto (PReport true) 0%nat (caught st) | S n => goto PDrain n (caught st) end
  | PReport _ => goto PExit (pipe st) (caught st)
  | PExit => None
  end.

Inductive event := RunMain | Signal | BecomesReady.

Definition fire (e : event) (st : state) : option state :=
  match e with
  | RunMain => run_main st
  | Signal => handler st
  | BecomesReady => Some (State (pc st) (pipe st) true (handled st) (caught st) (early st))
  end.

(** While main is in select the pipe has a byte if and only if the handler has
    run; what select reports of the pipe, and what is printed, is whether it
    had run when select returned. *)
Definition inv (st : state) : Prop :=
  match pc st with
  | PSelect => ((0 < pipe st)%nat <-> (0 < handled st)%nat) /\ caught st = false
  | PTest isset => isset = early st /\ caught st = false
  | PDrain => caught st = true /\ early st = true
  | PReport isset => caught st = early st /\ isset = early st
  | PExit => caught st = early st
  end.

Lemma self_pipe_main_inv st st' : inv st -> run_main st = Some st' -> inv st' /\ handled st' = handled st.
Proof.
  intros Hi Hf. destruct st as [p n r h c ea]. unfold inv, run_main in *. simpl in *. destruct p as [|b| |b|]; simpl in *.
  - destruct Hi as [Hi ->]. destruct (_ || _); [|done]. injection Hf as <-. simpl. split; [|done]. split; [|done].
    destruct (Nat.ltb_spec 0 n), (Nat.ltb_spec 0 h); try done; lia.
  - destruct Hi as [-> ->]. by destruct ea; injection Hf as <-.
  - destruct Hi as [-> ->]. by destruct n; injection Hf as <-.
  - injection Hf as <-. by destruct Hi.
  - done.
Qed.

Lemma self_pipe_inv e st st' : (0 < capacity)%nat -> inv st -> fire e st = Some st' -> inv st'.
Proof.
  intros Hcap Hi Hf. destruct e; simpl in Hf.
  - by apply (self_pipe_main_inv st).
  - destruct st as [p n r h c ea]. unfold inv, handler in *. simpl in *. destruct p; simpl in *; try done; injection Hf as <-; simpl; try done.
    destruct Hi as [Hi ->]. split; [|done]. destruct (Nat.ltb_spec n capacity); lia.
  - by injection Hf as <-.
Qed.

Definition ranked (st : state) : Z :=
  2 * Z.of_nat (pipe st) + match pc st with PSelect => 4 | PTest _ => 3 | PDrain => 2 | PReport _ => 1 | PExit => 0 end.

Lemma self_pipe_ends st : inv st -> (0 < handled st)%nat ->
  always_ends (fun _ : unit => run_main) (fun st => pc st = PExit) st.
Proof.
  intros Hi Hh. apply (ends_by_work _ (fun st => inv st /\ (0 < handled st)%nat) _ ranked); [| | |done].
  - intros s _. unfold ranked. destruct (pc s); lia.
  - intros [] s s' [Hs Hsh] Hr. split.
    + destruct (self_pipe_main_inv s s' Hs Hr) as [H1 H2]. by rewrite H2.
    + unfold ranked. destruct s as [p n r h c ea]. unfold run_main in Hr. simpl in *.
      destruct p as [|[]| |b|]; simpl in *; [destruct (_ || _)|..|destruct n| |]; simplify_eq; simpl; lia.
  - intros s [Hs Hsh]. destruct s as [p n r h c ea]. unfold inv in Hs. simpl in *. destruct p as [|[]| |b|]; simpl in *.
    + left. exists tt. unfold run_main. simpl. destruct Hs as [Hs _]. destruct (Nat.ltb_spec 0 n); [eauto|lia].
    + left. exists tt. unfold run_main. simpl. eauto.
    + left. exists tt. unfold run_main. simpl. eauto.
    + left. exists tt. unfold run_main. simpl. destruct n; eauto.
    + left. exists tt. unfold run_main. simpl. eauto.
    + right. by split.
Qed.

(** The signal is not lost between select and the test for it: whenever it
    comes, if the handler has run before select returns then "A signal was
    caught" is printed, and if it has not run it is not; and once it has run,
    main comes to its end without waiting. *)
Theorem signal_not_lost (st : state) :
  (0 < capacity)%nat -> reachable fire start st ->
  match pc st with
  | PSelect => caught st = false
  | PTest isset => isset = early st
  | _ => caught st = early st
  end /\
  ((0 < handled st)%nat -> always_ends (fun _ : unit => run_main) (fun st => pc st = PExit) st).
Proof.
  intros Hcap Hr. assert (Hi : inv st).
  { revert Hr. apply reachable_ind_inv; [by split; [|done]; simpl; lia|]. intros e s s'. by apply self_pipe_inv. }
  split; [|by apply self_pipe_ends]. unfold inv in Hi. destruct (pc st); destruct Hi; try done; congruence.
Qed.
End Pipe.

(** ** Runs *)

(** The signal comes twice, the second time while the pipe is being emptied. *)
Definition demo_events : list event := [Signal; RunMain; RunMain; Signal; RunMain].
Definition demo_state : state := default start (run_all (fire 4) demo_events start).

Lemma signal_not_lost_witness :
  pc demo_state = PDrain /\ pipe demo_state = 1%nat /\ (0 < 4)%nat /\
  (match pc demo_state with
   | PSelect => caught demo_state = false
   | PTest isset => isset = early demo_state
   | _ => caught demo_state = early demo_state
   end /\
   ((0 < handled demo_state)%nat -> always_ends (fun _ : unit => run_main) (fun st => pc st = PExit) demo_state)).
Proof.
  split; [by vm_compute|]. split; [by vm_compute|]. split; [lia|]. apply (signal_not_lost 4 demo_state); [lia|].
  apply (run_all_reachable (fire 4) demo_events _ start); [apply reach_start|by vm_compute].
Defined.

#[export] Instance demo_self_pipe_texts : ErrnoText :=
  {| MAX_ENAME := 0; ename := fun _ => []; strerror := fun _ => [] |}.
Definition demo_proc : proc unit := Proc tt 0 None [] [] [].

Example sets : match prepare [lit "self_pipe"; lit "-"; lit "0"; lit "5"] 3 demo_proc with Ret r _ => r = (None, 6, [0; 5; 3]) | _ => False end.
Proof. by vm_compute. Qed.

(** A descriptor that is negative is not refused; neither is one of the pipe that
    is too large. *)
Example negative_descriptor : prepare [lit "self_pipe"; lit "-"; lit "-1"] 3 demo_proc = Undef.
Proof. by vm_compute. Qed.
Example pipe_too_large : prepare [lit "self_pipe"; lit "-"] 1024 demo_proc = Undef.
Proof. by vm_compute. Qed.
