(* ===== verification/ShmTransfer.v ===== *)
(** svsem/binary_sems.c, svshm/svshm_xfr_writer.c and svshm/svshm_xfr_reader.c
    (src/tlpi-dist): a stream sent from one process to another in blocks, through
    shared memory that two binary semaphores guard, as a transition system with
    one event for each system call and each access to shared memory.

    The input is the list of blocks that successive calls of read give, none
    of them empty; then read gives the end of file. The counters
    are ints, taken to wrap as compiled code does (C leaves it undefined). *)
From Stdlib Require Import ZArith Lia Ascii String.
From stdpp Require Import base tactics list strings.
From S2P Require Import Prelude CString Transitions.
#[local] Open Scope Z_scope.

(** ** binary_sems.c *)

(** The values of a semaphore set; [None] when no set has the key. *)
Definition semset : Type := option (list Z).

(** A call goes on, sleeps, or gives -1. *)
Inductive sem_result := SemDone (s : semset) | SemBlocks | SemError.

Definition bsUseSemUndo : bool := false.
Definition bsRetryOnEintr : bool := true.

Definition sem_setval (set : semset) (semNum : nat) (val : Z) : sem_result :=
  match set with
  | Some vals => if bool_decide (semNum < length vals)%nat then SemDone (Some (<[semNum := val]> vals)) else SemError
  | None => SemError
  end.

Definition initSemAvailable (set : semset) (semNum : nat) : sem_result := sem_setval set semNum 1.
Definition initSemInUse (set : semset) (semNum : nat) : sem_result := sem_setval set semNum 0.

(** [semop] with one operation. *)
Definition semop (set : semset) (semNum : nat) (op : Z) : sem_result :=
  match set with
  | Some vals =>
      match vals !! semNum with
      | Some v => if v + op <? 0 then SemBlocks else SemDone (Some (<[semNum := v + op]> vals))
      | None => SemError
      end
  | None => SemError
  end.

(** A turn of the loop of reserveSem: a call that a signal interrupts is made
    again. *)
Definition reserveSem (interrupted : bool) (set : semset) (semNum : nat) : sem_result :=
  if interrupted then (if bsRetryOnEintr then SemBlocks else SemError) else semop set semNum (-1).

Definition releaseSem (set : semset) (semNum : nat) : sem_result := semop set semNum 1.

(** ** The two programs *)

Definition WRITE_SEM : nat := 0.
Definition READ_SEM : nat := 1.

(** Where the writer is: at which of its calls, or at its test for the end of
    the input. *)
Inductive writer_pc := WSemget | WInitWrite | WInitRead | WShmget | WShmat | WReserve | WRead
  | WRelease | WTest | WFinal | WRemoveSem | WShmdt | WRemoveShm | WReport | WExit (k : exit_kind).

Inductive reader_pc := RSemget | RShmget | RShmat | RReserve | RTest | RWrite | RRelease | RShmdt
  | RLast | RReport | RExit (k : exit_kind).

(** The shared memory holds [cnt] and [buf], its first [cnt] bytes; the key
    finds it while [shm]. [stdin] is what the writer has not read. *)
Record state := State {
  wpc : writer_pc;
  rpc : reader_pc;
  sems : semset;
  shm : bool;
  cnt : Z;
  buf : cstr;
  stdin : list cstr;
  stdout : cstr;
  w_bytes : Z;
  w_xfrs : Z;
  r_bytes : Z;
  r_xfrs : Z;
  stderr : list cstr
}.

Definition start (blocks : list cstr) : state :=
  State WSemget RSemget None false 0 [] blocks [] 0 0 0 0 [].

Definition add_int (a b : Z) : Z := to_signed 32 (a + b).

Definition w_goto (p : writer_pc) (st : state) : state :=
  State p (rpc st) (sems st) (shm st) (cnt st) (buf st) (stdin st) (stdout st) (w_bytes st) (w_xfrs st) (r_bytes st) (r_xfrs st) (stderr st).
Definition r_goto (p : reader_pc) (st : state) : state :=
  State (wpc st) p (sems st) (shm st) (cnt st) (buf st) (stdin st) (stdout st) (w_bytes st) (w_xfrs st) (r_bytes st) (r_xfrs st) (stderr st).
Definition set_sems (s : semset) (st : state) : state :=
  State (wpc st) (rpc st) s (shm st) (cnt st) (buf st) (stdin st) (stdout st) (w_bytes st) (w_xfrs st) (r_bytes st) (r_xfrs st) (stderr st).
Definition set_shm (b : bool) (st : state) : state :=
  State (wpc st) (rpc st) (sems st) b (cnt st) (buf st) (stdin st) (stdout st) (w_bytes st) (w_xfrs st) (r_bytes st) (r_xfrs st) (stderr st).
Definition set_block (b : cstr) (rest : list cstr) (st : state) : state :=
  State (wpc st) (rpc st) (sems st) (shm st) (strlen b) b rest (stdout st) (w_bytes st) (w_xfrs st) (r_bytes st) (r_xfrs st) (stderr st).
Definition write_out (b : cstr) (st : state) : state :=
  State (wpc st) (rpc st) (sems st) (shm st) (cnt st) (buf st) (stdin st) (stdout st ++ b) (w_bytes st) (w_xfrs st) (r_bytes st) (r_xfrs st) (stderr st).
Definition count_w (n : Z) (st : state) : state :=
  State (wpc st) (rpc st) (sems st) (shm st) (cnt st) (buf st) (stdin st) (stdout st) (add_int (w_bytes st) n) (add_int (w_xfrs st) 1) (r_bytes st) (r_xfrs st) (stderr st).
Definition count_r (n : Z) (st : state) : state :=
  State (wpc st) (rpc st) (sems st) (shm st) (cnt st) (buf st) (stdin st) (stdout st) (w_bytes st) (w_xfrs st) (add_int (r_bytes st) n) (r_xfrs st) (stderr st).
Definition xfr_r (st : state) : state :=
  State (wpc st) (rpc st) (sems st) (shm st) (cnt st) (buf st) (stdin st) (stdout st) (w_bytes st) (w_xfrs st) (r_bytes st) (add_int (r_xfrs st) 1) (stderr st).
Definition report (m : cstr) (st : state) : state :=
  State (wpc st) (rpc st) (sems st) (shm st) (cnt st) (buf st) (stdin st) (stdout st) (w_bytes st) (w_xfrs st) (r_bytes st) (r_xfrs st) (stderr st ++ [m]).

Definition count_text (bytes xfrs : Z) : cstr :=
  show_Z bytes ++ lit " bytes (" ++ show_Z xfrs ++ lit " xfrs)" ++ [NEWLINE].

(** After a call on the semaphores. *)
Definition w_sem (r : sem_result) (next : state -> state) (st : state) : option state :=
  match r with
  | SemDone s => Some (next (set_sems s st))
  | SemBlocks => None
  | SemError => Some (w_goto (WExit EXIT_FAILURE) st)
  end.
Definition r_sem (r : sem_result) (next : state -> state) (st : state) : option state :=
  match r with
  | SemDone s => Some (next (set_sems s st))
  | SemBlocks => None
  | SemError => Some (r_goto (RExit EXIT_FAILURE) st)
  end.

(** main of svshm_xfr_writer.c; [None] when it waits or has ended. *)
Definition run_writer (st : state) : option state :=
  match wpc st with
  | WSemget => Some (w_goto WInitWrite (set_sems (Some (default [0; 0] (sems st))) st))
  | WInitWrite => w_sem (initSemAvailable (sems st) WRITE_SEM) (w_goto WInitRead) st
  | WInitRead => w_sem (initSemInUse (sems st) READ_SEM) (w_goto WShmget) st
  | WShmget => Some (w_goto WShmat (set_shm true st))
  | WShmat => Some (w_goto WReserve st)
  | WReserve => w_sem (reserveSem false (sems st) WRITE_SEM) (w_goto WRead) st
  | WRead =>
      Some (w_goto WRelease
        match stdin st with b :: rest => set_block b rest st | [] => set_block [] [] st end)
  | WRelease => w_sem (releaseSem (sems st) READ_SEM) (w_goto WTest) st
  | WTest => Some (if cnt st =? 0 then w_goto WFinal st else w_goto WReserve (count_w (cnt st) st))
  | WFinal => w_sem (reserveSem false (sems st) WRITE_SEM) (w_goto WRemoveSem) st
  | WRemoveSem =>
      Some match sems st with
           | Some _ => w_goto WShmdt (set_sems None st)
           | None => w_goto (WExit EXIT_FAILURE) st
           end
  | WShmdt => Some (w_goto WRemoveShm st)
  | WRemoveShm => Some (w_goto WReport (set_shm false st))
  | WReport => Some (w_goto (WExit EXIT_SUCCESS) (report (lit "Sent " ++ count_text (w_bytes st) (w_xfrs st)) st))
  | WExit _ => None
  end.

(** main of svshm_xfr_reader.c. *)
Definition run_reader (st : state) : option state :=
  match rpc st with
  | RSemget =>
      Some (match sems st with Some _ => r_goto RShmget st | None => r_goto (RExit EXIT_FAILURE) st end)
  | RShmget => Some (if shm st then r_goto RShmat st else r_goto (RExit EXIT_FAILURE) st)
  | RShmat => Some (r_goto RReserve st)
  | RReserve => r_sem (reserveSem false (sems st) READ_SEM) (r_goto RTest) st
  | RTest => Some (if cnt st =? 0 then r_goto RShmdt st else r_goto RWrite (count_r (cnt st) st))
  | RWrite => Some (r_goto RRelease (write_out (buf st) st))
  | RRelease => r_sem (releaseSem (sems st) WRITE_SEM) (fun st => r_goto RReserve (xfr_r st)) st
  | RShmdt => Some (r_goto RLast st)
  | RLast => r_sem (releaseSem (sems st) WRITE_SEM) (r_goto RReport) st
  | RReport => Some (r_goto (RExit EXIT_SUCCESS) (report (lit "Received " ++ count_text (r_bytes st) (r_xfrs st)) st))
  | RExit _ => None
  end.

Inductive process := Writer | Reader.

Definition run (p : process) (st : state) : option state :=
  match p with Writer => run_writer st | Reader => run_reader st end.

(** A call that fails ends the process that makes it; a write may have written
    part of the block by then. *)
Inductive event := Run (p : process) | WriterFails | ReaderFails (written : nat).

Definition written_part (st : state) (n : nat) : cstr :=
  match rpc st with RWrite => take n (buf st) | _ => [] end.

Definition fire (e : event) (st : state) : option state :=
  match e with
  | Run p => run p st
  | WriterFails => match wpc st with WExit _ => None | _ => Some (w_goto (WExit EXIT_FAILURE) st) end
  | ReaderFails n =>
      match rpc st with
      | RExit _ => None
      | _ => Some (r_goto (RExit EXIT_FAILURE) (write_out (written_part st n) st))
      end
  end.

(** ** The protocol *)

Definition input (blocks : list cstr) : cstr := concat blocks.

(** A reader that has not had a turn yet, or came too early to find the
    objects. *)
Definition waits (r : reader_pc) : Prop :=
  r = RSemget \/ r = RShmget \/ r = RShmat \/ r = RReserve.
Definition idle (r : reader_pc) (out : cstr) : Prop :=
  waits r \/ r = RExit EXIT_FAILURE /\ out = [].

(** The writer between its release of a block and its next turn. *)
Definition released (w : writer_pc) (cnt : Z) : Prop :=
  w = WTest \/ (w = WReserve /\ cnt <> 0) \/ (w = WFinal /\ cnt = 0).

(** The places both can be at, with the values of the semaphores: one of the
    two has the turn, or can take it. The last argument is what the writer has
    read and the reader has not written. *)
Inductive phase : writer_pc -> reader_pc -> semset -> bool -> Z -> cstr -> list cstr -> cstr ->
    cstr -> Prop :=
| ph_start stdin : phase WSemget RSemget None false 0 [] stdin [] []
| ph_start_early stdin : phase WSemget (RExit EXIT_FAILURE) None false 0 [] stdin [] []
| ph_init w r sem stdin :
    (w = WInitWrite /\ sem = [0; 0]) \/ (w = WInitRead /\ sem = [1; 0]) \/ (w = WShmget /\ sem = [1; 0]) ->
    r = RSemget \/ r = RShmget \/ r = RExit EXIT_FAILURE ->
    phase w r (Some sem) false 0 [] stdin [] []
| ph_writer_turn w r cnt buf stdin out :
    w = WShmat \/ w = WReserve \/ (w = WTest /\ cnt <> 0) ->
    idle r out -> phase w r (Some [1; 0]) true cnt buf stdin out []
| ph_read r cnt buf stdin out :
    idle r out -> phase WRead r (Some [0; 0]) true cnt buf stdin out []
| ph_release r cnt buf stdin out :
    cnt = strlen buf ->
    idle r out -> (cnt = 0 -> stdin = []) ->
    phase WRelease r (Some [0; 0]) true cnt buf stdin out buf
| ph_reader_turn w r cnt buf stdin out :
    cnt = strlen buf ->
    released w cnt -> idle r out -> (cnt = 0 -> stdin = []) ->
    phase w r (Some [0; 1]) true cnt buf stdin out buf
| ph_test w cnt buf stdin out :
    cnt = strlen buf ->
    released w cnt -> (cnt = 0 -> stdin = []) ->
    phase w RTest (Some [0; 0]) true cnt buf stdin out buf
| ph_write w cnt buf stdin out :
    cnt = strlen buf ->
    released w cnt -> cnt <> 0 ->
    phase w RWrite (Some [0; 0]) true cnt buf stdin out buf
| ph_back w cnt buf stdin out :
    cnt = strlen buf ->
    released w cnt -> cnt <> 0 ->
    phase w RRelease (Some [0; 0]) true cnt buf stdin out []
| ph_last w r out :
    w = WTest \/ w = WFinal -> r = RShmdt \/ r = RLast ->
    phase w r (Some [0; 0]) true 0 [] [] out []
| ph_left w r out :
    w = WTest \/ w = WFinal -> r = RReport \/ r = RExit EXIT_SUCCESS ->
    phase w r (Some [1; 0]) true 0 [] [] out []
| ph_remove r out :
    r = RReport \/ r = RExit EXIT_SUCCESS ->
    phase WRemoveSem r (Some [0; 0]) true 0 [] [] out []
| ph_removed w r shm out :
    (w = WShmdt /\ shm = true) \/ (w = WRemoveShm /\ shm = true) \/ (w = WReport /\ shm = false)
      \/ (w = WExit EXIT_SUCCESS /\ shm = false) ->
    r = RReport \/ r = RExit EXIT_SUCCESS ->
    phase w r None shm 0 [] [] out [].

Definition len (blocks : list cstr) : Z := Z.of_nat (length blocks).

(** Blocks the loop of each program has not counted yet. *)
Definition w_uncounted (w : writer_pc) (cnt : Z) : Z :=
  match w with WRelease | WTest => cnt | _ => 0 end.
Definition w_unfinished (w : writer_pc) (cnt : Z) : Z :=
  match w with WRelease | WTest => if cnt =? 0 then 0 else 1 | _ => 0 end.
Definition r_unfinished (r : reader_pc) (pending : cstr) : Z :=
  match r with RRelease => 1 | _ => if strlen pending =? 0 then 0 else 1 end.

Definition sent (bytes xfrs : Z) : cstr := lit "Sent " ++ count_text bytes xfrs.
Definition received (bytes xfrs : Z) : cstr := lit "Received " ++ count_text bytes xfrs.
Definition w_report (st : state) : list cstr :=
  match wpc st with WExit EXIT_SUCCESS => [sent (w_bytes st) (w_xfrs st)] | _ => [] end.
Definition r_report (st : state) : list cstr :=
  match rpc st with RExit EXIT_SUCCESS => [received (r_bytes st) (r_xfrs st)] | _ => [] end.

Definition phase_of (pending : cstr) (st : state) : Prop :=
  phase (wpc st) (rpc st) (sems st) (shm st) (cnt st) (buf st) (stdin st) (stdout st) pending.

(** Nothing is lost, and the counters say so. *)
Record accounts (blocks : list cstr) (pending : cstr) (st : state) : Prop := {
  ac_data : input blocks = stdout st ++ pending ++ input (stdin st);
  ac_blocks : Forall (fun b => b <> []) (stdin st);
  ac_w_bytes : w_bytes st = to_signed 32 (strlen (input blocks) - strlen (input (stdin st)) -
                 w_uncounted (wpc st) (cnt st));
  ac_w_xfrs : w_xfrs st = to_signed 32 (len blocks - len (stdin st) - w_unfinished (wpc st) (cnt st));
  ac_r_bytes : r_bytes st = to_signed 32 (strlen (stdout st) + match rpc st with RWrite => cnt st | _ => 0 end);
  ac_r_xfrs : r_xfrs st = to_signed 32 (len blocks - len (stdin st) - r_unfinished (rpc st) pending);
  ac_stderr : stderr st ≡ₚ w_report st ++ r_report st
}.

(** ** Every step keeps to the protocol *)

Lemma to_signed_mod w z : 0 < w -> to_signed w z mod 2 ^ w = z mod 2 ^ w.
Proof.
  intros Hw. unfold to_signed. case_bool_decide; [by rewrite Zmod_mod|].
  by rewrite <-(Z.mod_add _ 1), Z.mul_1_l, Z.sub_add, Zmod_mod by lia.
Qed.

Lemma add_int_to_signed a b : add_int (to_signed 32 a) b = to_signed 32 (a + b).
Proof.
  assert (H : (to_signed 32 a + b) mod 2 ^ 32 = (a + b) mod 2 ^ 32)
    by by rewrite <-Zplus_mod_idemp_l, to_signed_mod, Zplus_mod_idemp_l by done.
  unfold add_int, to_signed at 1 3. by rewrite H.
Qed.

Lemma strlen_app (a b : cstr) : strlen (a ++ b) = strlen a + strlen b.
Proof. unfold strlen. rewrite length_app. lia. Qed.
Lemma strlen_nonzero (b : cstr) : b <> [] -> strlen b <> 0.
Proof. destruct b; [done|]. unfold strlen. simpl. lia. Qed.

Section Protocol.
Context (blocks : list cstr).
Implicit Types (st : state).

(** What the reader has to write after a step. *)
Definition next_pending (p : process) (pending : cstr) (st : state) : cstr :=
  match p, wpc st, rpc st with
  | Writer, WRead, _ => match stdin st with b :: _ => b | [] => [] end
  | Reader, _, RWrite => []
  | _, _, _ => pending
  end.

Create HintDb shm.
#[local] Hint Unfold idle waits released : shm.
#[local] Hint Constructors phase : shm.
Lemma run_writer_phase pending st st' :
  Forall (fun b => b <> []) (stdin st) ->
  phase_of pending st -> run_writer st = Some st' -> phase_of (next_pending Writer pending st) st'.
Proof.
  intros Hb Hp Hr. destruct st as [wp rp ss sh cn bf inp out wb wx rb rx err].
  unfold run_writer, w_sem, phase_of in *; simpl in *.
  destruct (Z.eqb_spec cn 0) as [H0|H0], inp as [|b rest]; try apply Forall_cons in Hb as [Hb _];
    try apply strlen_nonzero in Hb;
    inversion Hp; clear Hp; subst; try unfold released in *; destruct_or?; destruct_and?; simplify_eq/=; try done;
    try (constructor; autounfold with shm in *; naive_solver).
Qed.

Lemma run_reader_phase pending st st' :
  phase_of pending st -> run_reader st = Some st' -> phase_of (next_pending Reader pending st) st'.
Proof.
  intros Hp Hr. destruct st as [wp rp ss sh cn bf inp out wb wx rb rx err].
  unfold run_reader, r_sem, phase_of in *; simpl in *.
  destruct (Z.eqb_spec cn 0) as [H0|H0];
    inversion Hp; clear Hp; subst; try unfold idle, waits in *; destruct_or?; destruct_and?; simplify_eq/=; try done;
    try (constructor; autounfold with shm in *; naive_solver).
  destruct pending; [|done]. rewrite (H2 eq_refl).
  constructor; autounfold with shm in *; naive_solver.
Qed.

(** A step that leaves everything that is counted as it is. *)
Lemma accounts_same pending st st' :
  accounts blocks pending st ->
  stdin st' = stdin st -> stdout st' = stdout st -> cnt st' = cnt st ->
  w_bytes st' = w_bytes st -> w_xfrs st' = w_xfrs st -> r_bytes st' = r_bytes st -> r_xfrs st' = r_xfrs st ->
  stderr st' = stderr st ->
  w_uncounted (wpc st') (cnt st) = w_uncounted (wpc st) (cnt st) ->
  w_unfinished (wpc st') (cnt st) = w_unfinished (wpc st) (cnt st) ->
  r_unfinished (rpc st') pending = r_unfinished (rpc st) pending ->
  match rpc st' with RWrite => cnt st | _ => 0 end = match rpc st with RWrite => cnt st | _ => 0 end ->
  w_report st' = w_report st -> r_report st' = r_report st ->
  accounts blocks pending st'.
Proof.
  intros [] H1 H2 H3 H4 H5 H6 H7 H8 H9 H10 H11 H12 H13 H14.
  split; rewrite ?H1, ?H2, ?H3, ?H4, ?H5, ?H6, ?H7, ?H8, ?H9, ?H10, ?H11, ?H12, ?H13, ?H14; done.
Qed.

Lemma read_phase pending st :
  phase_of pending st -> wpc st = WRead -> pending = [] /\ rpc st <> RWrite /\ rpc st <> RRelease.
Proof.
  unfold phase_of. intros Hp Hw. rewrite Hw in Hp.
  inversion Hp; unfold released, idle, waits in *; destruct_or?; destruct_and?; try done; by split_and!; try congruence.
Qed.

Lemma uncounted_0 (r : reader_pc) (n : Z) : r <> RWrite -> match r with RWrite => n | _ => 0 end = 0.
Proof. by destruct r. Qed.
Lemma unfinished_0 (r : reader_pc) pending : r <> RRelease ->
  r_unfinished r pending = if strlen pending =? 0 then 0 else 1.
Proof. by destruct r. Qed.

(** Reading a block, or the end of the input. *)
Lemma read_accounts st b rest :
  accounts blocks [] st -> wpc st = WRead -> rpc st <> RWrite -> rpc st <> RRelease ->
  stdin st = b :: rest \/ stdin st = [] /\ b = [] /\ rest = [] ->
  accounts blocks b (w_goto WRelease (set_block b rest st)).
Proof.
  intros [K1 K2 K3 K4 K5 K6 K7] Hw Hr1 Hr2 Hin. unfold w_report, r_report in *.
  rewrite Hw in *. rewrite uncounted_0 in K5 by done. rewrite unfinished_0 in K6 by done.
  assert (Hbr : input (stdin st) = b ++ input rest) by by destruct Hin as [->|(-> & -> & ->)].
  assert (Hlen : len (stdin st) = len rest + if strlen b =? 0 then 0 else 1).
  { destruct Hin as [Hin|(-> & -> & ->)]; [|done]. rewrite Hin in K2 |- *. apply Forall_cons in K2 as [K2 _].
    apply strlen_nonzero in K2. destruct (Z.eqb_spec (strlen b) 0); [done|]. unfold len. simpl. lia. }
  rewrite Hbr in K1, K3. rewrite Hlen in K4, K6. rewrite strlen_app in K3.
  split; simpl; rewrite ?uncounted_0, ?unfinished_0 by done.
  - done.
  - destruct Hin as [Hin|(_ & _ & ->)]; [|done]. rewrite Hin in K2. by apply Forall_cons in K2 as [_ K2].
  - rewrite K3. f_equal. simpl. lia.
  - rewrite K4. f_equal. simpl. lia.
  - done.
  - rewrite K6. f_equal. simpl. lia.
  - done.
Qed.

Lemma run_writer_accounts pending st st' :
  phase_of pending st -> accounts blocks pending st -> run_writer st = Some st' ->
  accounts blocks (next_pending Writer pending st) st'.
Proof.
  intros Hp Ha Hr. pose proof (read_phase _ _ Hp) as Hrd. unfold run_writer, w_sem in Hr. unfold next_pending.
  destruct (wpc st) eqn:Hw; repeat case_match; simplify_eq;
    try (eapply accounts_same; [exact Ha|..]; unfold w_report, r_report; simpl; rewrite ?Hw; done).
  - destruct (Hrd eq_refl) as (-> & H1 & H2). apply read_accounts; auto.
  - destruct (Hrd eq_refl) as (-> & H1 & H2). apply read_accounts; auto.
  - unfold phase_of in Hp. rewrite Hw in Hp. inversion Hp; unfold released in *; destruct_or?; destruct_and?; try done; by destruct (sems st); simplify_eq.
  - eapply accounts_same; [exact Ha|..]; unfold w_report, r_report; simpl; rewrite ?Hw; try done; simpl.
    + by apply Z.eqb_eq in H.
    + by rewrite H.
  - destruct Ha as [K1 K2 K3 K4 K5 K6 K7]. unfold w_report, r_report in *. rewrite Hw in *. simpl in *.
    rewrite H in *.
    split; simpl; try done; rewrite ?K3, ?K4, add_int_to_signed; f_equal; lia.
  - destruct Ha as [K1 K2 K3 K4 K5 K6 K7]. unfold w_report, r_report in *. rewrite Hw in *. simpl in *.
    split; simpl; try done. rewrite K7. by rewrite Permutation_app_comm.
Qed.

Lemma write_phase pending st :
  phase_of pending st -> rpc st = RWrite ->
  pending = buf st /\ cnt st = strlen (buf st) /\ strlen (buf st) <> 0.
Proof.
  unfold phase_of. intros Hp Hw. rewrite Hw in Hp.
  inversion Hp; unfold idle, waits in *; destruct_or?; destruct_and?; try done; by split_and!; try congruence.
Qed.

Lemma back_phase pending st :
  phase_of pending st -> rpc st = RRelease -> pending = [] /\ sems st = Some [0; 0].
Proof.
  unfold phase_of. intros Hp Hw. rewrite Hw in Hp.
  inversion Hp; unfold idle, waits in *; destruct_or?; destruct_and?; done.
Qed.

Lemma run_reader_accounts pending st st' :
  phase_of pending st -> accounts blocks pending st -> run_reader st = Some st' ->
  accounts blocks (next_pending Reader pending st) st'.
Proof.
  intros Hp Ha Hr. unfold run_reader, r_sem in Hr. unfold next_pending.
  destruct (rpc st) eqn:Hw; repeat case_match; simplify_eq;
    try (eapply accounts_same; [exact Ha|..]; unfold w_report, r_report; simpl; rewrite ?Hw; done).
  - destruct Ha as [K1 K2 K3 K4 K5 K6 K7]. unfold w_report, r_report in *. rewrite Hw in *. simpl in *.
    split; simpl; try done. rewrite K5, add_int_to_signed. f_equal. lia.
  - destruct (write_phase _ _ Hp Hw) as (-> & H1 & H2). destruct Ha as [K1 K2 K3 K4 K5 K6 K7].
    unfold w_report, r_report in *. rewrite Hw in *. apply Z.eqb_neq in H2. simpl in *. rewrite H2 in K6.
    split; simpl; try done.
    + by rewrite K1, (assoc_L (++)).
    + rewrite K5, strlen_app. f_equal. lia.
  - destruct (back_phase _ _ Hp Hw) as [-> _]. destruct Ha as [K1 K2 K3 K4 K5 K6 K7].
    unfold w_report, r_report in *. rewrite Hw in *. simpl in *.
    split; simpl; try done. rewrite K6, add_int_to_signed. f_equal. lia.
  - destruct (back_phase _ _ Hp Hw) as [_ Hs]. by rewrite Hs in H.
  - destruct Ha as [K1 K2 K3 K4 K5 K6 K7]. unfold w_report, r_report in *. rewrite Hw in *. simpl in *.
    split; simpl; try done. rewrite K7. by rewrite app_nil_r.
Qed.

Definition inv st : Prop := exists pending, phase_of pending st /\ accounts blocks pending st.

Lemma run_inv p st st' : inv st -> run p st = Some st' -> inv st'.
Proof.
  intros (pending & Hp & Ha) Hr. exists (next_pending p pending st). destruct p; simpl in Hr.
  - split; [by eapply run_writer_phase; [apply Ha|..]|by eapply run_writer_accounts].
  - split; [by eapply run_reader_phase|by eapply run_reader_accounts].
Qed.

Lemma xfr_start_inv : Forall (fun b => b <> []) blocks -> inv (start blocks).
Proof.
  intros Hb. exists []. split; [apply ph_start|]. split; simpl; try done; by rewrite Z.sub_diag.
Qed.

(** ** Every schedule ends *)

(** The steps each program can still make without the other, what a turn that
    was given away pays for, and what each block still to be read pays for. *)
Definition writer_work (w : writer_pc) (cnt : Z) : Z :=
  let eof := cnt =? 0 in
  match w with
  | WSemget => 60 | WInitWrite => 59 | WInitRead => 58 | WShmget => 57 | WShmat => 56
  | WReserve => 40 | WRead => 39
  | WRelease => if eof then 38 else 50
  | WTest => if eof then 33 else 45
  | WFinal => 32 | WRemoveSem => 31 | WShmdt => 30 | WRemoveShm => 29 | WReport => 28 | WExit _ => 0
  end.
Definition reader_work (r : reader_pc) : Z :=
  match r with
  | RSemget => 20 | RShmget => 19 | RShmat => 18 | RReserve => 10
  | RTest => 13 | RWrite => 12 | RRelease => 11 | RShmdt => 9 | RLast => 8 | RReport => 7 | RExit _ => 0
  end.
Definition turn_work (s : semset) : Z := match s with Some [_; r] => 4 * r | _ => 0 end.

Definition work st : Z :=
  writer_work (wpc st) (cnt st) + reader_work (rpc st) + turn_work (sems st) + 20 * len (stdin st).

(** Taking a state of the protocol apart, with the step [Hr] of a program. *)
Ltac all_phases Hp :=
  inversion Hp; clear Hp; subst; unfold released, idle, waits in *; destruct_or?; destruct_and?; subst.
Ltac one_step Hr :=
  unfold run, run_writer, run_reader, w_sem, r_sem in Hr; simpl in Hr; repeat case_match; simplify_eq/=.

Lemma xfr_run_work p st st' : inv st -> run p st = Some st' -> 0 <= work st' < work st.
Proof.
  intros (pending & Hp & Ha) Hr. pose proof (ac_blocks _ _ _ Ha) as Hb. clear Ha.
  destruct st as [wp rp ss sh cn bf inp out wb wx rb rx err].
  unfold work, phase_of, len in *; simpl in *.
  assert (Hne : forall b rest, inp = b :: rest -> strlen b <> 0).
  { intros b rest ->. apply Forall_cons in Hb as [Hb _]. by apply strlen_nonzero. }
  all_phases Hp; destruct p; one_step Hr; try lia; try (specialize (Hne _ _ eq_refl));
    repeat match goal with |- context [if ?n =? 0 then _ else _] => destruct (Z.eqb_spec n 0) end;
    simplify_eq/=; try lia.
Qed.

(** The whole input has arrived, both programs have said so and ended, and the
    objects are gone. *)
Definition completed st : Prop :=
  wpc st = WExit EXIT_SUCCESS /\ rpc st = RExit EXIT_SUCCESS /\ stdout st = input blocks /\
  sems st = None /\ shm st = false /\
  stderr st ≡ₚ [sent (to_signed 32 (strlen (input blocks))) (to_signed 32 (len blocks));
                received (to_signed 32 (strlen (input blocks))) (to_signed 32 (len blocks))].

(** The reader came before the objects and gave up; the writer waits for it,
    and the objects stay. *)
Definition deserted st : Prop :=
  rpc st = RExit EXIT_FAILURE /\ stdout st = [] /\ (wpc st = WReserve \/ wpc st = WFinal) /\
  sems st = Some [0; 1] /\ shm st = true.

Lemma end_phase r ss sh cn bf inp out pending :
  phase (WExit EXIT_SUCCESS) r ss sh cn bf inp out pending ->
  ss = None /\ sh = false /\ inp = [] /\ pending = [] /\ (r = RReport \/ r = RExit EXIT_SUCCESS).
Proof. intros Hp. all_phases Hp; try done; split_and!; auto. Qed.

Lemma left_completed st pending :
  phase_of pending st -> accounts blocks pending st ->
  wpc st = WExit EXIT_SUCCESS -> rpc st = RExit EXIT_SUCCESS -> completed st.
Proof.
  intros Hp [K1 _ K3 K4 K5 K6 K7] Hw Hr. unfold phase_of in Hp. unfold completed, w_report, r_report in *.
  rewrite Hw, Hr in *. destruct (end_phase _ _ _ _ _ _ _ _ Hp) as (H1 & H2 & H3 & -> & _).
  rewrite H3 in *. assert (Hout : stdout st = input blocks) by (rewrite K1; simpl; by rewrite app_nil_r).
  split_and!; [done..|]. rewrite K7, K3, K4, K5, K6, Hout. simpl. by rewrite !Z.sub_0_r, Z.add_0_r.
Qed.

Lemma xfr_progress st : inv st ->
  (exists p, is_Some (run p st)) \/ (forall p, run p st = None) /\ (completed st \/ deserted st).
Proof.
  intros (pending & Hp & Ha). pose proof (left_completed st pending Hp Ha) as Hc. clear Ha.
  assert (Hw : is_Some (run_writer st) -> exists p, is_Some (run p st)) by (by exists Writer).
  assert (Hr : is_Some (run_reader st) -> exists p, is_Some (run p st)) by (by exists Reader).
  destruct st as [wp rp ss sh cn bf inp out wb wx rb rx err]. unfold phase_of, deserted in *. simpl in *.
  assert (Hall : run_writer (State wp rp ss sh cn bf inp out wb wx rb rx err) = None ->
    run_reader (State wp rp ss sh cn bf inp out wb wx rb rx err) = None ->
    forall p, run p (State wp rp ss sh cn bf inp out wb wx rb rx err) = None) by (by intros ? ? []).
  all_phases Hp; try done; try (left; apply Hw; by eexists); try (left; apply Hr; by eexists).
  all: right; split; [by apply Hall|]; first [left; by apply Hc|right; split_and!; auto].
Qed.

(** The reader has found the objects, or will. *)
Definition joined st : Prop :=
  rpc st <> RExit EXIT_FAILURE /\ (shm st = true \/ rpc st = RReport \/ rpc st = RExit EXIT_SUCCESS).

Lemma run_joined p st st' : inv st -> joined st -> run p st = Some st' -> joined st'.
Proof.
  intros (pending & Hp & _) [Hr Hj] Hs. destruct st as [wp rp ss sh cn bf inp out wb wx rb rx err].
  unfold phase_of, joined in *. simpl in *.
  all_phases Hp; destruct p; one_step Hs; try (split; [done|]; auto); naive_solver.
Qed.

Lemma xfr_reachable_inv st :
  Forall (fun b => b <> []) blocks -> reachable run (start blocks) st -> inv st.
Proof.
  intros Hb. apply reachable_ind_inv; [by apply xfr_start_inv|]. intros p s s' Hi Hs. by eapply run_inv.
Qed.

Lemma xfr_work_nonneg st : inv st -> 0 <= work st.
Proof.
  intros (pending & Hp & _). assert (0 <= turn_work (sems st)).
  { unfold phase_of in Hp. inversion Hp; destruct_or?; destruct_and?; subst; done. }
  assert (0 <= writer_work (wpc st) (cnt st)) by (unfold writer_work; repeat case_match; lia).
  assert (0 <= reader_work (rpc st)) by (unfold reader_work; by case_match).
  unfold work, len. lia.
Qed.

(** The places the theorems speak of. *)
Lemma success_phase pending st :
  phase_of pending st -> rpc st = RExit EXIT_SUCCESS -> stdin st = [] /\ pending = [].
Proof. unfold phase_of. intros Hp Hr. rewrite Hr in Hp. by all_phases Hp. Qed.
Lemma test_phase pending st : phase_of pending st -> rpc st = RTest -> wpc st <> WRead.
Proof. unfold phase_of. intros Hp Hr Hw. rewrite Hr, Hw in Hp. by all_phases Hp. Qed.
Lemma removal_phase pending st :
  phase_of pending st -> wpc st = WRemoveShm -> rpc st = RReport \/ rpc st = RExit EXIT_SUCCESS.
Proof. unfold phase_of. intros Hp Hw. rewrite Hw in Hp. inversion Hp; unfold released in *; destruct_or?; destruct_and?; done || auto. Qed.

(** ** Calls that fail *)

(** A state with programs that have failed where others are still running. *)
Definition stopped (w : writer_pc) (r : reader_pc) (extra : cstr) st : state :=
  State w r (sems st) (shm st) (cnt st) (buf st) (stdin st) (stdout st ++ extra)
    (w_bytes st) (w_xfrs st) (r_bytes st) (r_xfrs st) (stderr st).

(** [st] is [st0] with programs that have failed, the reader perhaps in the
    middle of its write. *)
Inductive follows st0 : state -> Prop :=
| follows_intro w r extra :
    w = wpc st0 \/ w = WExit EXIT_FAILURE ->
    (r = rpc st0 /\ extra = []) \/
      (r = RExit EXIT_FAILURE /\ (extra = [] \/ rpc st0 = RWrite /\ extra `prefix_of` buf st0)) ->
    follows st0 (stopped w r extra st0).

Lemma run_writer_stopped r extra st0 :
  run_writer (stopped (wpc st0) r extra st0) =
    (fun st => stopped (wpc st) r extra st) <$> run_writer st0.
Proof.
  destruct st0 as [wp rp ss sh cn bf inp out wb wx rb rx err].
  destruct wp; unfold run_writer, w_sem; simpl; repeat case_match; done.
Qed.

Lemma run_reader_stopped w st0 :
  run_reader (stopped w (rpc st0) [] st0) = (fun st => stopped w (rpc st) [] st) <$> run_reader st0.
Proof.
  destruct st0 as [wp rp ss sh cn bf inp out wb wx rb rx err].
  destruct rp; unfold run_reader, r_sem, stopped; simpl; rewrite ?app_nil_r; repeat case_match; try done.
  all: simpl; unfold r_goto, set_sems, write_out, xfr_r; simpl; by rewrite !app_nil_r.
Qed.

(** What the step of one program leaves to the other. *)
Lemma run_writer_keeps st st' :
  run_writer st = Some st' -> rpc st' = rpc st /\ (wpc st <> WRead -> buf st' = buf st).
Proof. intros Hr. unfold run_writer, w_sem in Hr. by repeat case_match; simplify_eq. Qed.
Lemma run_reader_keeps st st' : run_reader st = Some st' -> wpc st' = wpc st.
Proof. intros Hr. unfold run_reader, r_sem in Hr. by repeat case_match; simplify_eq. Qed.

(** With failures, the programs do what they do without, up to where each
    stops. *)
Lemma reachable_follows st :
  Forall (fun b => b <> []) blocks ->
  reachable fire (start blocks) st -> exists st0, reachable run (start blocks) st0 /\ follows st0 st.
Proof.
  intros Hb. induction 1 as [|e st st' _ (st0 & H0 & [w r extra Hw Hr]) Hf].
  { exists (start blocks). split; [apply reach_start|]. by apply (follows_intro (start blocks) WSemget RSemget []); auto. }
  destruct e as [[]| |n]; simpl in Hf.
  - destruct Hw as [-> | ->]; [|done]. rewrite run_writer_stopped in Hf.
    apply fmap_Some in Hf as (st0' & Hs & ->). pose proof (run_writer_keeps _ _ Hs) as [Hk1 Hk2].
    exists st0'. split; [by apply (reach_run _ _ Writer st0)|].
    constructor; [by left|]. rewrite Hk1. destruct Hr as [Hr|(-> & [-> | [Hrw Hx]])]; [by left|by auto|].
    right. split; [done|]. right. split; [done|]. rewrite Hk2; [done|].
    intros Hrd. destruct (xfr_reachable_inv _ Hb H0) as (pending & Hp & _).
    by destruct (read_phase _ _ Hp Hrd) as (_ & ? & _).
  - destruct Hr as [[-> ->]|[-> _]]; [|done]. rewrite run_reader_stopped in Hf.
    apply fmap_Some in Hf as (st0' & Hs & ->).
    exists st0'. split; [by apply (reach_run _ _ Reader st0)|].
    constructor; [|by auto]. by rewrite (run_reader_keeps _ _ Hs).
  - destruct w; simplify_eq; exists st0; (split; [done|]); apply (follows_intro st0 _ r extra); auto.
  - assert (Hf' : follows st0 (stopped w (RExit EXIT_FAILURE)
      (extra ++ written_part (stopped w r extra st0) n) st0)).
    { constructor; [done|]. right. split; [done|]. destruct Hr as [[-> ->]|[-> H]]; unfold written_part; simpl.
      - destruct (rpc st0) eqn:Hrp; auto. right. split; [done|]. apply prefix_take.
      - by rewrite app_nil_r. }
    assert (Hst : st' = stopped w (RExit EXIT_FAILURE) (extra ++ written_part (stopped w r extra st0) n) st0).
    { unfold stopped. rewrite (assoc_L (++)). destruct r; by simplify_eq. }
    subst st'. eauto.
Qed.

End Protocol.

(** Whatever calls fail, in any order of steps: what has been written is a
    beginning of the input, and all of it when the reader ends successfully;
    the reader never looks at the block while the writer reads into it; and
    the shared memory is removed only when the reader has detached it or
    failed. *)
Theorem shm_transfer_safe (blocks : list cstr) (st : state) :
  Forall (fun b => b <> []) blocks -> reachable fire (start blocks) st ->
  stdout st `prefix_of` input blocks /\
  (rpc st = RExit EXIT_SUCCESS -> stdout st = input blocks) /\
  ~ (wpc st = WRead /\ (rpc st = RTest \/ rpc st = RWrite)) /\
  (wpc st = WRemoveShm -> rpc st = RReport \/ exists k, rpc st = RExit k).
Proof.
  intros Hb Hr. destruct (reachable_follows blocks st Hb Hr) as (st0 & H0 & [w r extra Hw Hrx]).
  destruct (xfr_reachable_inv blocks st0 Hb H0) as (pending & Hp & Ha).
  pose proof (ac_data _ _ _ Ha) as Hd. simpl. split_and!.
  - rewrite Hd. apply prefix_app. destruct Hrx as [[_ ->]|[_ [-> |[Hrw Hx]]]]; try apply prefix_nil.
    destruct (write_phase _ _ Hp Hrw) as (-> & _). by apply prefix_app_r.
  - intros ->. destruct Hrx as [[Hrs ->]|[? _]]; [|done].
    destruct (success_phase _ _ Hp (eq_sym Hrs)) as [Hs ->]. by rewrite Hd, Hs.
  - intros [-> Hr']. destruct Hw as [Hw|]; [|done]. destruct (read_phase _ _ Hp (eq_sym Hw)) as (-> & H1 & H2).
    destruct Hrx as [[-> _]|[-> _]]; [|by destruct Hr']. destruct Hr' as [Hr'|]; [|done].
    by apply (test_phase _ _ Hp).
  - intros ->. destruct Hw as [Hw|]; [|done]. destruct Hrx as [[-> _]|[-> _]]; [|by eauto].
    destruct (removal_phase _ _ Hp (eq_sym Hw)) as [?|?]; eauto.
Qed.

(** C21: Without failures every order of steps of the two programs ends: with
    the whole input written, both programs ended successfully and the objects
    removed, or with a reader that came before the objects were there and a
    writer that waits for it. Once the shared memory is there and the reader
    has not failed it is the first. *)
Theorem shm_transfer_completes (blocks : list cstr) (st : state) :
  Forall (fun b => b <> []) blocks -> reachable run (start blocks) st ->
  always_ends run (fun st => completed blocks st \/ deserted st) st /\
  (shm st = true -> rpc st <> RExit EXIT_FAILURE -> always_ends run (completed blocks) st).
Proof.
  intros Hb Hr. pose proof (xfr_reachable_inv blocks st Hb Hr) as Hi. split.
  - apply (ends_by_work run (inv blocks) _ work); [..|done].
    + intros s. apply xfr_work_nonneg.
    + intros p s s' H1 H2. split; [by eapply run_inv|by apply (xfr_run_work blocks p)].
    + apply xfr_progress.
  - intros Hs Hf. apply (ends_by_work run (fun st => inv blocks st /\ joined st) _ work).
    + intros s [H1 _]. by apply (xfr_work_nonneg blocks).
    + intros p s s' [H1 H2] H3. split; [split; [by eapply run_inv|by eapply run_joined]|by apply (xfr_run_work blocks p)].
    + intros s [H1 [H2 H3]]. destruct (xfr_progress blocks s H1) as [|[? [?|(? & _)]]]; [by left|by right|done].
    + split; [done|]. split; [done|by left].
Qed.

(** ** Runs *)

Definition demo_blocks : list cstr := [lit "ab"; lit "c"].
(** The reader fails in the middle of the first block. *)
Definition demo_failure_events : list event :=
  replicate 8 (Run Writer) ++ replicate 5 (Run Reader) ++ [ReaderFails 1].
Definition demo_midway_events : list process := replicate 9 Writer ++ replicate 7 Reader.
Definition demo_failure : state := default (start []) (run_all fire demo_failure_events (start demo_blocks)).
Definition demo_midway : state := default (start []) (run_all run demo_midway_events (start demo_blocks)).

Lemma shm_transfer_safe_witness :
  stdout demo_failure = lit "a" /\ rpc demo_failure = RExit EXIT_FAILURE /\
  stdout demo_failure `prefix_of` lit "abc" /\
  (rpc demo_failure = RExit EXIT_SUCCESS -> stdout demo_failure = lit "abc") /\
  ~ (wpc demo_failure = WRead /\ (rpc demo_failure = RTest \/ rpc demo_failure = RWrite)) /\
  (wpc demo_failure = WRemoveShm -> rpc demo_failure = RReport \/ exists k, rpc demo_failure = RExit k).
Proof.
  split; [by vm_compute|]. split; [by vm_compute|]. apply (shm_transfer_safe demo_blocks demo_failure).
  - by repeat (apply Forall_cons; split; [done|]).
  - apply (run_all_reachable fire demo_failure_events _ (start demo_blocks)); [apply reach_start|by vm_compute].
Defined.

Lemma shm_transfer_completes_witness :
  stdout demo_midway = lit "ab" /\
  always_ends run (fun st => completed demo_blocks st \/ deserted st) demo_midway /\
  (shm demo_midway = true -> rpc demo_midway <> RExit EXIT_FAILURE ->
     always_ends run (completed demo_blocks) demo_midway).
Proof.
  split; [by vm_compute|]. apply (shm_transfer_completes demo_blocks demo_midway).
  - by repeat (apply Forall_cons; split; [done|]).
  - apply (run_all_reachable run demo_midway_events _ (start demo_blocks)); [apply reach_start|by vm_compute].
Defined.

(** Objects that an earlier run left behind, with a block in them: the reader
    that runs before the writer has set them up again takes that block. *)
Example stale_block_is_read :
  exists st, run_all run (replicate 6 Reader)
      (State WSemget RSemget (Some [0; 1]) true 3 (lit "old") [lit "new"] [] 0 0 0 0 []) = Some st /\
    stdout st = lit "old".
Proof. eexists. split; [vm_compute; reflexivity|done]. Qed.

(** The counts of a stream of 2^31 bytes and more are wrong. *)
Example byte_count_wraps : add_int INT_MAX 1 = INT_MIN.
Proof. reflexivity. Qed.
