(* ===== verification/UsernsExec.v ===== *)
(** namespaces/userns_child_exec.c with namespaces/userns_functions.c and
    cap/cap_functions.c (src/tlpi-dist): a command run in new namespaces, whose
    identifier maps the parent writes while the child waits on a pipe, and the
    requests for capabilities, identifiers and securebits that the child carries
    out before it executes the command.

    libcap belongs to the system: its sets of capabilities are a type of the
    class. A null [val] of an option is [None]; using one is undefined. *)
From Stdlib Require Import ZArith Lia Ascii String.
From stdpp Require Import base tactics list strings.
From S2P Require Import Prelude CString Process.
#[local] Open Scope Z_scope.

(** ** libcap and the kernel *)

Inductive cap_flag := CAP_PERMITTED | CAP_EFFECTIVE | CAP_INHERITABLE.
#[export] Instance cap_flag_eq_dec : EqDecision cap_flag.
Proof. solve_decision. Defined.

Inductive prctl_op :=
| PR_CAP_AMBIENT_RAISE (cap : Z)
| PR_CAP_AMBIENT_LOWER (cap : Z)
| PR_CAPBSET_DROP (cap : Z)
| PR_SET_SECUREBITS (bits : Z)
| PR_SET_DUMPABLE (n : Z).

Class LibCap (K : Type) := {
  cap_t : Type;
  CAP_LAST_CAP : Z;
  os_cap_get_proc : K -> K * (Z + cap_t);
  os_cap_set_proc : K -> cap_t -> K * (Z + unit);
  lib_cap_set_flag : cap_t -> cap_flag -> list Z -> bool -> Z + cap_t;
  lib_cap_free : cap_t -> Z + unit;
  cap_from_name : cstr -> option Z;
  lib_cap_from_text : cstr -> Z + cap_t;
  lib_cap_to_text : cap_t -> Z + cstr
}.

Class UsernsOS (K : Type) := {
  os_prctl : K -> prctl_op -> K * (Z + unit);
  os_setresuid : K -> Z -> Z -> Z -> K * (Z + unit);
  os_geteuid : K -> K * Z;
  os_getegid : K -> K * Z;
  os_getuid : K -> K * Z;
  os_getgid : K -> K * Z;
  os_sleep : K -> Z -> K * Z;
  os_open : K -> cstr -> K * (Z + Z);
  os_write : K -> Z -> cstr -> K * (Z + Z);
  os_read : K -> Z -> Z -> K * (Z + cstr);
  os_close : K -> Z -> K * (Z + unit);
  os_pipe : K -> K * (Z + (Z * Z));
  os_mmap : K -> Z -> K * (Z + Z);
  os_munmap : K -> Z -> Z -> K * unit;
  os_clone : K -> Z -> K * (Z + Z);
  os_waitpid : K -> Z -> K * (Z + unit);
  os_execvp : K -> list cstr -> K * option Z
}.

Section Code.
Context `{ErrnoText} {K : Type} {LC : LibCap K} {OS : UsernsOS K}.
Abbreviation PM := (M (proc K)).

(** A library call that may set [errno]. *)
Definition libcall {A} (r : Z + A) : PM (option A) := syscall (fun k => (k, r)).

(** ** cap_functions.c *)

Definition modifyCapSetting (flag : cap_flag) (capability : Z) (setting : bool) : PM Z :=
  let! caps := syscall os_cap_get_proc in
  match caps with
  | None => ret (-1)
  | Some caps =>
      let! r := libcall (lib_cap_set_flag caps flag [capability] setting) in
      match r with
      | None => libcall (lib_cap_free caps) ;;; ret (-1)
      | Some caps =>
          let! r := syscall (fun k => os_cap_set_proc k caps) in
          match r with
          | None => libcall (lib_cap_free caps) ;;; ret (-1)
          | Some _ =>
              let! r := libcall (lib_cap_free caps) in
              ret (match r with None => -1 | Some _ => 0 end)
          end
      end
  end.

Definition SECBIT_NOROOT : Z := 1.
Definition SECBIT_NOROOT_LOCKED : Z := 2.
Definition SECBIT_NO_SETUID_FIXUP : Z := 4.
Definition SECBIT_NO_SETUID_FIXUP_LOCKED : Z := 8.
Definition SECBIT_KEEP_CAPS : Z := 16.
Definition SECBIT_KEEP_CAPS_LOCKED : Z := 32.
Definition SECBIT_NO_CAP_AMBIENT_RAISE : Z := 64.
Definition SECBIT_NO_CAP_AMBIENT_RAISE_LOCKED : Z := 128.

Record secbitInfo := SecbitInfo { sb_flag : Z; sb_name : cstr; sb_letter : ascii }.
Definition secbitInfoList : list secbitInfo := [
  SecbitInfo SECBIT_NO_CAP_AMBIENT_RAISE (lit "NO_CAP_AMBIENT_RAISE") "a";
  SecbitInfo SECBIT_NO_CAP_AMBIENT_RAISE_LOCKED (lit "NO_CAP_AMBIENT_RAISE_LOCKED") "A";
  SecbitInfo SECBIT_KEEP_CAPS (lit "KEEP_CAPS") "k";
  SecbitInfo SECBIT_KEEP_CAPS_LOCKED (lit "KEEP_CAPS_LOCKED") "K";
  SecbitInfo SECBIT_NOROOT (lit "NOROOT") "r";
  SecbitInfo SECBIT_NOROOT_LOCKED (lit "NOROOT_LOCKED") "R";
  SecbitInfo SECBIT_NO_SETUID_FIXUP (lit "NO_SETUID_FIXUP") "s";
  SecbitInfo SECBIT_NO_SETUID_FIXUP_LOCKED (lit "NO_SETUID_FIXUP_LOCKED") "S"
]%char.

(** The loop of the long form, with its count of names printed. *)
Fixpoint print_names (secbits printed : Z) (l : list secbitInfo) : cstr :=
  match l with
  | [] => []
  | p :: l =>
      if has_bit secbits (sb_flag p)
      then (if 0 <? printed then lit ", " else []) ++ sb_name p ++ print_names secbits (printed + 1) l
      else print_names secbits printed l
  end.

(** What is printed. *)
Definition printSecbits (secbits : Z) (verbose : bool) : cstr :=
  if verbose then lit "[" ++ print_names secbits 0 secbitInfoList ++ lit "]"
  else map (fun p => if has_bit secbits (sb_flag p) then sb_letter p else "-"%char) secbitInfoList.

(** ** userns_functions.c *)

Definition display_creds_and_caps (str : cstr) : PM unit :=
  let! euid := syscall_ os_geteuid in
  let! egid := syscall_ os_getegid in
  putout (str ++ lit "eUID = " ++ show_Z euid ++ lit "; eGID = " ++ show_Z egid ++ lit ";  ") ;;;
  let! caps := syscall os_cap_get_proc in
  match caps with
  | None => errExit (lit "cap_get_proc")
  | Some caps =>
      let! s := libcall (lib_cap_to_text caps) in
      match s with
      | None => errExit (lit "cap_to_text")
      | Some s =>
          putout (lit "capabilities: " ++ s ++ [NEWLINE]) ;;;
          libcall (lib_cap_free caps) ;;; ret tt
      end
  end.

(** The loop over the mapping. *)
Definition newlines_for_commas (mapping : cstr) : cstr :=
  map (fun c => if decide (c = COMMA) then NEWLINE else c) mapping.

Definition report_file_error (what file : cstr) : PM unit :=
  let! s := get in
  puterr (lit "ERROR: " ++ what ++ file ++ lit ": " ++ strerror (errno s) ++ [NEWLINE]).

Definition update_map (mapping map_file : cstr) : PM Z :=
  let mapping := newlines_for_commas mapping in
  let! fd := syscall (fun k => os_open k map_file) in
  match fd with
  | None => report_file_error (lit "open ") map_file ;;; ret (-1)
  | Some fd =>
      let! n := syscall (fun k => os_write k fd mapping) in
      let! status :=
        (if bool_decide (n = Some (strlen mapping)) then ret 0
         else report_file_error (lit "writing to ") map_file ;;; ret (-1)) in
      syscall (fun k => os_close k fd) ;;;
      ret status
  end.

Definition ENOENT : Z := 2.

Definition proc_path (pid : Z) (file : string) : cstr := lit "/proc/" ++ show_Z pid ++ lit "/" ++ lit file.

Definition proc_setgroups_write (child_pid : Z) (str : cstr) : PM Z :=
  let setgroups_path := proc_path child_pid "setgroups" in
  let! fd := syscall (fun k => os_open k setgroups_path) in
  match fd with
  | None =>
      let! s := get in
      if errno s =? ENOENT then ret 0
      else report_file_error (lit "open ") setgroups_path ;;; ret (-1)
  | Some fd =>
      let! n := syscall (fun k => os_write k fd str) in
      let! status :=
        match n with
        | None => report_file_error (lit "writing to ") setgroups_path ;;; ret (-1)
        | Some _ => ret 0
        end in
      syscall (fun k => os_close k fd) ;;;
      ret status
  end.

(** ** userns_child_exec.c: messages *)

Definition complain {A} (msg : cstr) : PM A := puterr (msg ++ [NEWLINE]) ;;; exit3 EXIT_FAILURE.

Definition referToHelp {A} (pname : cstr) : PM A :=
  complain (lit "For more information, use: " ++ pname ++ lit " -h").

Definition line (s : string) : cstr := lit s ++ [NEWLINE].
Definition fpe (s : cstr) : cstr := lit "    " ++ s.
Definition help_text (pname : cstr) : list cstr :=
  [ lit "Usage: " ++ pname ++ line " [options] cmd [arg...]" ++ [NEWLINE];
      line "Create a child process that executes a shell command in (typically) a new user" ++ line "namespace, and possibly also other new namespaces." ++ [NEWLINE];
      line "Options can be:" ++ [NEWLINE];
      fpe (line "-C            New cgroup namespace");
      fpe (line "-i            New IPC namespace");
      fpe (line "-m            New mount namespace");
      fpe (line "-n            New network namespace");
      fpe (line "-p            New PID namespace");
      fpe (line "-u            New UTS namespace");
      fpe (line "-U            New user namespace");
      fpe (line "-M uid_map    Specify UID map for user namespace");
      fpe (line "-G gid_map    Specify GID map for user namespace");
      fpe (line "-P projid_map Specify project ID map for user namespace");
      fpe (lit "-D            Do not write " ++ [QUOTE] ++ lit "deny" ++ [QUOTE] ++ line " to /proc/PID/setgroups before");
      fpe (line "              updating GID map");
      fpe (line "-r            Create 'root' mappings: map user's UID and GID to 0 in user");
      fpe (line "              namespace (equivalent to: -M '0 <uid> 1' -G '0 <gid> 1')");
      fpe (line "-v            Display verbose messages" ++ [NEWLINE]);
      fpe (line "If -r, -M, -G, or -P is specified, -U is required." ++ [NEWLINE]);
      fpe (line "It is not permitted to specify both -r and either -M or -G.");
      fpe ([NEWLINE]);
      fpe (line "Map strings for -M -G, and -P consist of records of the form:");
      fpe ([NEWLINE]);
      fpe (line "    ID-inside-ns   ID-outside-ns   len");
      fpe ([NEWLINE]);
      fpe (line "A map string can contain multiple records, separated by commas;");
      fpe (line "the commas are replaced by newlines before writing to map files.");
      [NEWLINE] ++ line "The following additional options (primarily useful when experimenting with" ++ line "user namespaces) are repeatable: they can appear multiple times and are" ++ line "performed in the child in the order that they are specified, just before" ++ line "'cmd' is execed:" ++ [NEWLINE];
      fpe (line "-I          Push all possible capabilities into inheritable set");
      fpe (line "-A          Push all possible capabilities into inheritable and");
      fpe (line "            ambient sets");
      fpe (line "-s <uid>    Set all process UIDs to <uid>");
      fpe (line "-S r,e,s    Set real/effective/saved-set UIDs");
      fpe (line "-b <bits>   Set securebits flags; 'bits' can be '0' to clear the flags");
      fpe (line "            or one or more of:");
      fpe (line "                'a' - NO_CAP_AMBIENT_RAISE");
      fpe (line "                'A' - NO_CAP_AMBIENT_RAISE_LOCKED");
      fpe (line "                'k' - KEEP_CAPS");
      fpe (line "                'K' - KEEP_CAPS_LOCKED");
      fpe (line "                'r' - NOROOT");
      fpe (line "                'R' - NOROOT_LOCKED");
      fpe (line "                's' - NO_SETUID_FIXUP");
      fpe (line "                'S' - NO_SETUID_FIXUP_LOCKED");
      fpe (line "-d          Display process credentials and capabilities");
      fpe (line "-w <nsecs>  Wait (sleep) for <nsecs> seconds");
      fpe (line "-x <caps>   Set process capabilities; <caps> as per cap_from_text(3)");
      fpe (line "-X [peiba]{+|-}<cap-name>");
      fpe (line "            Modify one or more process sets by adding or removing");
      fpe (line "            a capability.");
      fpe (line "            Each set is modified as an individual operation");
      fpe (line "            in the order specified before +/-.") ].

Definition displayHelp {A} (pname : cstr) : PM A :=
  for_each (help_text pname) puterr ;;; exit3 EXIT_FAILURE.

(** ** Requests the child carries out *)

(** The values 0, 1, ..., [CAP_LAST_CAP]. *)
Definition all_caps : list Z := seqZ 0 (CAP_LAST_CAP + 1).

Definition raiseInheritableAndAmbientCaps (doAmbient : bool) : PM unit :=
  for_each all_caps (fun cap =>
    modifyCapSetting CAP_INHERITABLE cap true ;;;
    when doAmbient (syscall (fun k => os_prctl k (PR_CAP_AMBIENT_RAISE cap)) ;;; ret tt)).

(** The first loop: the letters before the operator, the operator and what
    follows, and whether a letter names no set. *)
Fixpoint scan_sets (s : cstr) : cstr * cstr * bool :=
  match s with
  | [] => ([], [], false)
  | c :: s' =>
      if decide (c = "+" \/ c = "-")%char then ([], s, false)
      else
        let '(sets, rest, bad) := scan_sets s' in
        (c :: sets, rest, bad || bool_decide (c ∉ lit "peiba"))
  end.

(** One turn of the second loop. *)
Definition modify_set (op : ascii) (name : cstr) (cap : Z) (p : ascii) : PM unit :=
  let raise := bool_decide (op = "+")%char in
  if decide (p = "p" \/ p = "i" \/ p = "e")%char then
    let flag :=
      if decide (p = "p")%char then CAP_PERMITTED
      else if decide (p = "e")%char then CAP_EFFECTIVE else CAP_INHERITABLE in
    let! r := modifyCapSetting flag cap raise in
    if r =? -1 then
      complain (lit "-X: modifyCapSetting() failed while " ++
        (if raise then lit "raising" else lit "lowering") ++ lit " '" ++ name ++ lit "' in '" ++ [p] ++ lit "'")
    else ret tt
  else if decide (p = "b")%char then
    if raise then complain (lit "Can't add capabilities to the bounding set")
    else
      let! r := syscall (fun k => os_prctl k (PR_CAPBSET_DROP cap)) in
      match r with None => perror_exit (lit "-X: PR_CAPBSET_DROP") | Some _ => ret tt end
  else if decide (p = "a")%char then
    let! r := syscall (fun k => os_prctl k (if raise then PR_CAP_AMBIENT_RAISE cap else PR_CAP_AMBIENT_LOWER cap)) in
    match r with None => perror_exit (lit "-X: PR_CAP_AMBIENT") | Some _ => ret tt end
  else complain (lit "Bad switch case ('-X'): " ++ [p]).

Definition modify_individual_capability (optval : cstr) : PM unit :=
  match scan_sets optval with
  | (sets, op :: ((_ :: _) as name), false) =>
      match cap_from_name name with
      | None => complain (lit "-X: bad capability name")
      | Some cap => for_each sets (modify_set op name cap)
      end
  | _ => complain (lit "Badly formed -X option")
  end.

(** The switch of set_securebits. *)
Definition secbit_letter (secbits : Z) (p : ascii) : option Z :=
  let set flag := Some (Z.lor secbits flag) in
  if decide (p = "a")%char then set SECBIT_NO_CAP_AMBIENT_RAISE
  else if decide (p = "A")%char then set SECBIT_NO_CAP_AMBIENT_RAISE_LOCKED
  else if decide (p = "k")%char then set SECBIT_KEEP_CAPS
  else if decide (p = "K")%char then set SECBIT_KEEP_CAPS_LOCKED
  else if decide (p = "r")%char then set SECBIT_NOROOT
  else if decide (p = "R")%char then set SECBIT_NOROOT_LOCKED
  else if decide (p = "s")%char then set SECBIT_NO_SETUID_FIXUP
  else if decide (p = "S")%char then set SECBIT_NO_SETUID_FIXUP_LOCKED
  else if decide (p = "0")%char then Some 0
  else None.
Fixpoint securebits_loop (secbits : Z) (optval : cstr) : PM Z :=
  match optval with
  | [] => ret secbits
  | p :: optval =>
      match secbit_letter secbits p with
      | Some secbits => securebits_loop secbits optval
      | None => complain (lit "Unexpected value for '-b' (securebits flag): " ++ [p])
      end
  end.
Definition set_securebits (optval : cstr) : PM unit :=
  let! secbits := securebits_loop 0 optval in
  let! r := syscall (fun k => os_prctl k (PR_SET_SECUREBITS secbits)) in
  match r with None => perror_exit (lit "prctl-PR_SET_SECUREBITS") | Some _ => ret tt end.

(** [uid_t] from the int that atoi gives. *)
Definition atouid (s : cstr) : Z := to_unsigned 32 (atoi s).

Definition set_process_uids (optval : cstr) : PM unit :=
  let three :=
    match strchr COMMA optval with
    | Some (r, rest) =>
        match strchr COMMA rest with
        | Some (e, s) => Some (r, e, s)
        | None => None
        end
    | None => None
    end in
  match three with
  | None => complain (lit "Expected three comma-separated UIDs: -S " ++ optval)
  | Some (r, e, s) =>
      let! ok := syscall (fun k => os_setresuid k (atouid r) (atouid e) (atouid s)) in
      match ok with None => perror_exit (lit "-S failed (setresuid)") | Some _ => ret tt end
  end.

(** ** Options *)

Definition MAX_OPT : Z := 100.

Record option_entry := OptionEntry { opt : ascii; val : option cstr }.

(** The list has [opt_cnt] entries. *)
Record cmd_options := CmdOptions {
  argv : list cstr;
  flags : Z;
  create_root_mappings : bool;
  deny_setgroups : bool;
  verbose : bool;
  uid_map : option cstr;
  gid_map : option cstr;
  projid_map : option cstr;
  opt_list : list option_entry
}.
Definition opt_cnt (o : cmd_options) : Z := Z.of_nat (length (opt_list o)).

Definition set_argv v o := CmdOptions v (flags o) (create_root_mappings o) (deny_setgroups o) (verbose o) (uid_map o) (gid_map o) (projid_map o) (opt_list o).
Definition add_flag v o := CmdOptions (argv o) (Z.lor (flags o) v) (create_root_mappings o) (deny_setgroups o) (verbose o) (uid_map o) (gid_map o) (projid_map o) (opt_list o).
Definition set_root o := CmdOptions (argv o) (flags o) true (deny_setgroups o) (verbose o) (uid_map o) (gid_map o) (projid_map o) (opt_list o).
Definition allow_setgroups o := CmdOptions (argv o) (flags o) (create_root_mappings o) false (verbose o) (uid_map o) (gid_map o) (projid_map o) (opt_list o).
Definition set_verbose o := CmdOptions (argv o) (flags o) (create_root_mappings o) (deny_setgroups o) true (uid_map o) (gid_map o) (projid_map o) (opt_list o).
Definition set_uid_map v o := CmdOptions (argv o) (flags o) (create_root_mappings o) (deny_setgroups o) (verbose o) (Some v) (gid_map o) (projid_map o) (opt_list o).
Definition set_gid_map v o := CmdOptions (argv o) (flags o) (create_root_mappings o) (deny_setgroups o) (verbose o) (uid_map o) (Some v) (projid_map o) (opt_list o).
Definition set_projid_map v o := CmdOptions (argv o) (flags o) (create_root_mappings o) (deny_setgroups o) (verbose o) (uid_map o) (gid_map o) (Some v) (opt_list o).
Definition add_option v o := CmdOptions (argv o) (flags o) (create_root_mappings o) (deny_setgroups o) (verbose o) (uid_map o) (gid_map o) (projid_map o) (opt_list o ++ [v]).

Definition no_options : cmd_options := CmdOptions [] 0 false true false None None None [].

Definition CLONE_NEWNS : Z := 131072.
Definition CLONE_NEWCGROUP : Z := 33554432.
Definition CLONE_NEWUTS : Z := 67108864.
Definition CLONE_NEWIPC : Z := 134217728.
Definition CLONE_NEWUSER : Z := 268435456.
Definition CLONE_NEWPID : Z := 536870912.
Definition CLONE_NEWNET : Z := 1073741824.

Definition is_one_of (c : ascii) (s : string) : bool := bool_decide (c ∈ lit s).

(** A store in the array [opt_list]. *)
Definition store_option (e : option_entry) (o : cmd_options) : PM cmd_options :=
  if opt_cnt o <? MAX_OPT then ret (add_option e o) else undef.

(** One turn of the loop, for what [getopt] returns. *)
Definition parse_option (pname : cstr) (a : option_arg) (o : cmd_options) : PM cmd_options :=
  let 'Opt c optarg := a in
  if decide (c = "C")%char then ret (add_flag CLONE_NEWCGROUP o)
  else if decide (c = "i")%char then ret (add_flag CLONE_NEWIPC o)
  else if decide (c = "m")%char then ret (add_flag CLONE_NEWNS o)
  else if decide (c = "n")%char then ret (add_flag CLONE_NEWNET o)
  else if decide (c = "p")%char then ret (add_flag CLONE_NEWPID o)
  else if decide (c = "u")%char then ret (add_flag CLONE_NEWUTS o)
  else if decide (c = "U")%char then ret (add_flag CLONE_NEWUSER o)
  else if decide (c = "M")%char then ret (set_uid_map optarg o)
  else if decide (c = "G")%char then ret (set_gid_map optarg o)
  else if decide (c = "P")%char then ret (set_projid_map optarg o)
  else if decide (c = "r")%char then ret (set_root o)
  else if decide (c = "D")%char then ret (allow_setgroups o)
  else if decide (c = "v")%char then ret (set_verbose o)
  else if is_one_of c "IAbsdxXw" then
    if MAX_OPT <=? opt_cnt o then
      complain (lit "Too many repeatable options (maximum: " ++ show_Z MAX_OPT ++ lit ")")
    else store_option (OptionEntry c (if is_one_of c "sSxXwb" then Some optarg else None)) o
  else if decide (c = "h")%char then (displayHelp pname : PM unit) ;;; exit3 EXIT_SUCCESS
  else puterr (lit "Bad command-line option: -" ++ [c] ++ [NEWLINE]) ;;; referToHelp pname.

Fixpoint parse_options (pname : cstr) (args : list option_arg) (o : cmd_options) : PM cmd_options :=
  match args with
  | [] => ret o
  | a :: args => let! o := parse_option pname a o in parse_options pname args o
  end.

(** [parse_command_options], from the options [getopt] returns and the operands
    it leaves. *)
Definition parse_command_options (pname : cstr) (args : list option_arg) (operands : list cstr) :
    PM cmd_options :=
  let! o := parse_options pname args no_options in
  (if ((bool_decide (uid_map o <> None) || bool_decide (gid_map o <> None) ||
        bool_decide (projid_map o <> None) || create_root_mappings o)
       && negb (has_bit (flags o) CLONE_NEWUSER))
      || (create_root_mappings o && (bool_decide (uid_map o <> None) || bool_decide (gid_map o <> None)))
   then puterr (line "-M, -G, -P, or -r specified without -U") ;;; referToHelp pname
   else ret tt) ;;;
  (if bool_decide (operands = []) then puterr (line "No command provided") ;;; referToHelp pname
   else ret tt) ;;;
  ret (set_argv operands o).

(** ** The child *)

Definition with_val (e : option_entry) (f : cstr -> PM unit) : PM unit :=
  match val e with Some v => f v | None => undef end.

(** One turn of the loop, with [display_cnt]. *)
Definition perform_option (e : option_entry) (display_cnt : Z) : PM Z :=
  let same m := m ;;; ret display_cnt in
  let c := opt e in
  if decide (c = "A")%char then same (raiseInheritableAndAmbientCaps true)
  else if decide (c = "b")%char then same (with_val e set_securebits)
  else if decide (c = "d")%char then
    display_creds_and_caps (snprintf 20 (lit "[-d " ++ show_Z (display_cnt + 1) ++ lit "] ")) ;;;
    ret (display_cnt + 1)
  else if decide (c = "I")%char then same (raiseInheritableAndAmbientCaps false)
  else if decide (c = "s")%char then
    same (with_val e (fun v =>
      let newuid := atouid v in
      let! r := syscall (fun k => os_setresuid k newuid newuid newuid) in
      match r with None => perror_exit (lit "setresuid") | Some _ => ret tt end))
  else if decide (c = "S")%char then same (with_val e set_process_uids)
  else if decide (c = "w")%char then
    same (with_val e (fun v => syscall_ (fun k => os_sleep k (to_unsigned 32 (atoi v))) ;;; ret tt))
  else if decide (c = "x")%char then
    same (with_val e (fun v =>
      let! caps := libcall (lib_cap_from_text v) in
      match caps with
      | None => perror_exit (lit "-x: cap_from_text")
      | Some caps =>
          let! r := syscall (fun k => os_cap_set_proc k caps) in
          match r with
          | None => perror_exit (lit "-x: cap_set_proc()")
          | Some _ => libcall (lib_cap_free caps) ;;; ret tt
          end
      end))
  else if decide (c = "X")%char then same (with_val e modify_individual_capability)
  else same (puterr (lit "Unexpected option (-" ++ [c] ++ line ") in perform_repeatable_options()")).

Fixpoint perform_loop (l : list option_entry) (display_cnt : Z) : PM unit :=
  match l with
  | [] => ret tt
  | e :: l => let! display_cnt := perform_option e display_cnt in perform_loop l display_cnt
  end.
Definition perform_repeatable_options (o : cmd_options) : PM unit := perform_loop (opt_list o) 0.

(** [pipe_fd] is the read end and the write end. *)
Definition childFunc (pipe_fd : Z * Z) (o : cmd_options) : PM unit :=
  syscall (fun k => os_close k (snd pipe_fd)) ;;;
  let! r := syscall (fun k => os_read k (fst pipe_fd) 1) in
  (if bool_decide (r = Some []) then ret tt
   else complain (lit "Failure in child: read from pipe returned != 0")) ;;;
  syscall (fun k => os_close k (fst pipe_fd)) ;;;
  perform_repeatable_options o ;;;
  when (verbose o) (putout (lit "About to exec: " ++ default [] (head (argv o)) ++ [NEWLINE])) ;;;
  let! r := syscall_ (fun k => os_execvp k (argv o)) in
  match r with
  | None => exit EXECED
  | Some e => modify (set_errno e) ;;; perror_exit (lit "execvp")
  end.

(** ** The parent *)

Definition MAP_BUF_SIZE : Z := 100.

Definition root_mapping (id : Z) : cstr := snprintf MAP_BUF_SIZE (lit "0 " ++ show_Z id ++ lit " 1").

(** [update_map] of one file, or the end of the process. *)
Definition write_map (map : cstr) (child_pid : Z) (file : string) : PM unit :=
  let! r := update_map map (proc_path child_pid file) in
  if r =? -1 then perror_exit (lit "update_map: " ++ lit file) else ret tt.

Definition update_child_maps (o : cmd_options) (child_pid : Z) : PM unit :=
  (if bool_decide (uid_map o <> None) || create_root_mappings o then
     let! map :=
       (if create_root_mappings o then let! id := syscall_ os_getuid in ret (root_mapping id)
        else ret (default [] (uid_map o))) in
     write_map map child_pid "uid_map"
   else ret tt) ;;;
  (if bool_decide (gid_map o <> None) || create_root_mappings o then
     when (deny_setgroups o) (
       let! r := proc_setgroups_write child_pid (lit "deny") in
       if r =? -1 then perror_exit (lit "proc_setgroups_write") else ret tt) ;;;
     let! map :=
       (if create_root_mappings o then let! id := syscall_ os_getgid in ret (root_mapping id)
        else ret (default [] (gid_map o))) in
     write_map map child_pid "gid_map"
   else ret tt) ;;;
  match projid_map o with
  | Some map => write_map map child_pid "projid_map"
  | None => ret tt
  end.

Definition STACK_SIZE : Z := 1048576.
Definition SIGCHLD_FLAG : Z := 17.

(** main up to clone, which starts [childFunc]: the identifier of the child and
    the pipe. *)
Definition create_child (o : cmd_options) : PM (Z * (Z * Z)) :=
  let! r := syscall (fun k => os_prctl k (PR_SET_DUMPABLE 1)) in
  match r with
  | None => perror_exit (lit "prctl-PR_SET_DUMPABLE")
  | Some _ =>
  let! pipe_fd := syscall os_pipe in
  match pipe_fd with
  | None => perror_exit (lit "pipe")
  | Some pipe_fd =>
  let! stack := syscall (fun k => os_mmap k STACK_SIZE) in
  match stack with
  | None => perror_exit (lit "mmap")
  | Some stack =>
  let! child_pid := syscall (fun k => os_clone k (Z.lor (flags o) SIGCHLD_FLAG)) in
  match child_pid with
  | None => perror_exit (lit "clone")
  | Some child_pid => syscall_ (fun k => os_munmap k stack STACK_SIZE) ;;; ret (child_pid, pipe_fd)
  end end end end.

Definition main (pname : cstr) (args : list option_arg) (operands : list cstr) : PM unit :=
  let! o := parse_command_options pname args operands in
  let! child := create_child o in
  let '(child_pid, pipe_fd) := child in
  when (verbose o) (putout (pname ++ lit ": PID of child created by clone() is " ++ show_Z child_pid ++ [NEWLINE])) ;;;
  update_child_maps o child_pid ;;;
  syscall (fun k => os_close k (snd pipe_fd)) ;;;
  let! r := syscall (fun k => os_waitpid k child_pid) in
  match r with
  | None => perror_exit (lit "waitpid")
  | Some _ =>
      when (verbose o) (putout (pname ++ lit ": terminating" ++ [NEWLINE])) ;;;
      exit3 EXIT_SUCCESS
  end.

End Code.
