(* ===== verification/UsernsProps.v ===== *)
(** What namespaces/userns_child_exec.c promises: its options mean what a
    reference says, the maps are written once each in order, securebits and
    capability requests have their documented effect, and the command runs
    after the maps are written. *)
From Stdlib Require Import ZArith Lia Ascii String.
From stdpp Require Import base tactics list strings gmap.
From S2P Require Import Prelude CString Process UsernsExec Transitions.
#[local] Open Scope Z_scope.

(** ** The options *)

(** The reference: each setting on its own, as a function of all options. *)
Definition ns_flags : list (ascii * Z) :=
  [("C", CLONE_NEWCGROUP); ("i", CLONE_NEWIPC); ("m", CLONE_NEWNS); ("n", CLONE_NEWNET);
   ("p", CLONE_NEWPID); ("u", CLONE_NEWUTS); ("U", CLONE_NEWUSER)]%char.
Definition ns_flag (c : ascii) : Z :=
  foldr (fun p f => if decide (c = fst p) then snd p else f) 0 ns_flags.
Definition opt_char (a : option_arg) : ascii := let 'Opt c _ := a in c.
Definition known_option (a : option_arg) : bool := is_one_of (opt_char a) "CimnpuUMGPrDvIAbsdxXw".
Definition has_option (c : ascii) (args : list option_arg) : bool :=
  existsb (fun a => bool_decide (opt_char a = c)) args.
Definition last_value (c : ascii) (before : option cstr) (args : list option_arg) : option cstr :=
  foldl (fun v a => let 'Opt c' optarg := a in if decide (c' = c) then Some optarg else v) before args.
Definition all_flags (before : Z) (args : list option_arg) : Z :=
  foldl (fun f a => Z.lor f (ns_flag (opt_char a))) before args.
Definition entries (args : list option_arg) : list option_entry :=
  omap (fun a => let 'Opt c optarg := a in
    if is_one_of c "IAbsdxXw" then Some (OptionEntry c (if is_one_of c "bsxXw" then Some optarg else None))
    else None) args.

(** The settings after more options. *)
Definition with_options (o : cmd_options) (args : list option_arg) : cmd_options :=
  CmdOptions (argv o) (all_flags (flags o) args)
    (create_root_mappings o || has_option "r" args)
    (deny_setgroups o && negb (has_option "D" args))
    (verbose o || has_option "v" args)
    (last_value "M" (uid_map o) args) (last_value "G" (gid_map o) args) (last_value "P" (projid_map o) args)
    (opt_list o ++ entries args).

(** Options that make sense together. *)
Definition consistent (o : cmd_options) : Prop :=
  (uid_map o <> None \/ gid_map o <> None \/ projid_map o <> None \/ create_root_mappings o = true ->
     has_bit (flags o) CLONE_NEWUSER = true) /\
  (create_root_mappings o = true -> uid_map o = None /\ gid_map o = None).
#[export] Instance consistent_dec o : Decision (consistent o).
Proof. apply _. Defined.

Definition acceptable (args : list option_arg) (operands : list cstr) : Prop :=
  Forall (fun a => known_option a = true) args /\ Z.of_nat (length (entries args)) <= MAX_OPT /\
  consistent (with_options no_options args) /\ operands <> [].
#[export] Instance acceptable_dec args operands : Decision (acceptable args operands).
Proof. apply _. Defined.

(** Evaluating the tests of a known character. *)
Ltac eval_chars :=
  repeat match goal with
  | |- context [@decide ?P ?D] =>
      let v := eval vm_compute in (bool_decide P) in
      match v with
      | true => rewrite (decide_True_pi (P:=P) ltac:(vm_compute; done)) || rewrite (decide_True (P:=P)) by done
      | false => rewrite (decide_False (P:=P)) by done
      end
  | |- context [@bool_decide ?P ?D] =>
      let v := eval vm_compute in (@bool_decide P D) in
      match v with true => idtac | false => idtac end; change (@bool_decide P D) with v
  | |- context [is_one_of ?c ?t] =>
      let v := eval vm_compute in (is_one_of c t) in
      match v with true => idtac | false => idtac end; change (is_one_of c t) with v
  end.

Section Options.
Context `{ErrnoText} {K : Type} {LC : LibCap K} {OS : UsernsOS K}.
Implicit Types (s : proc K).

(** Code that ends the process with a failure, without a call to the kernel. *)
Definition refuses {A} (m : M (proc K) A) : Prop :=
  forall s, exists s', m s = Exit EXIT_FAILURE s' /\ kern s' = kern s.

Lemma complain_refuses {A} msg : refuses (@complain K A msg).
Proof. intros s. by eexists. Qed.
Lemma referToHelp_refuses {A} pname : refuses (@referToHelp K A pname).
Proof. intros s. by eexists. Qed.
Lemma puterr_refuses {A} msg (m : M (proc K) A) : refuses m -> refuses (puterr msg ;;; m).
Proof. intros Hm s. destruct (Hm (set_err (err_out s ++ msg) s)) as (s' & H1 & H2). by exists s'. Qed.
Lemma displayHelp_refuses {A B} pname (m : A -> M (proc K) B) : refuses (bind (@displayHelp K A pname) m).
Proof.
  intros s. unfold displayHelp.
  assert (Hl : forall l s, exists s', for_each l puterr s = Ret tt s' /\ kern s' = kern s).
  { clear s. induction l as [|x l IH]; intros s; [by exists s|].
    destruct (IH (set_err (err_out s ++ x) s)) as (s' & H1 & H2). by exists s'. }
  destruct (Hl (help_text pname) s) as (s' & H1 & H2). exists (set_out [] (out_done s' ++ out_pending s') s').
  unfold bind. rewrite H1. simpl. done.
Qed.

Lemma with_options_cons o a args : with_options o (a :: args) = with_options (with_options o [a]) args.
Proof.
  unfold with_options, has_option. simpl. rewrite !orb_false_r, negb_orb, <-!orb_assoc, <-!andb_assoc.
  f_equal. destruct a as [c x]. rewrite <-app_assoc. f_equal. simpl.
  destruct (is_one_of c "IAbsdxXw"); done.
Qed.

Lemma is_one_of_spec c t : is_one_of c t = true <-> c ∈ lit t.
Proof. apply bool_decide_eq_true. Qed.

(** Options that set a field. *)
Lemma plain_option_spec pname c x o s :
  is_one_of c "CimnpuUMGPrDv" = true ->
  parse_option pname (Opt c x) o s = Ret (with_options o [Opt c x]) s.
Proof.
  intros Hc%is_one_of_spec. unfold with_options, parse_option.
  destruct o as [v f [] [] [] um gm pm l]; simpl in Hc;
    repeat (apply elem_of_cons in Hc as [->|Hc];
      [unfold has_option, all_flags, last_value, ns_flag; simpl; eval_chars; simpl; by rewrite ?Z.lor_0_r, ?app_nil_r|]);
    by apply not_elem_of_nil in Hc.
Qed.

Lemma repeatable_option_spec pname c x o s :
  is_one_of c "IAbsdxXw" = true ->
  if opt_cnt o <? MAX_OPT then parse_option pname (Opt c x) o s = Ret (with_options o [Opt c x]) s
  else exists s', parse_option pname (Opt c x) o s = Exit EXIT_FAILURE s' /\ kern s' = kern s.
Proof.
  intros Hr. pose proof Hr as Hc%is_one_of_spec. unfold parse_option, store_option.
  assert (Hcmp : (MAX_OPT <=? opt_cnt o) = negb (opt_cnt o <? MAX_OPT)) by apply Z.leb_antisym.
  assert (Hw : with_options o [Opt c x] =
    add_option (OptionEntry c (if is_one_of c "sSxXwb" then Some x else None)) o).
  { unfold with_options, add_option. 
    destruct o as [v f [] [] [] um gm pm l]; simpl in Hc;
    repeat (apply elem_of_cons in Hc as [->|Hc];
      [unfold has_option, all_flags, last_value, ns_flag; simpl; eval_chars; simpl; by rewrite ?Z.lor_0_r|]);
    by apply not_elem_of_nil in Hc. }
  rewrite Hw, Hr, Hcmp. clear Hw Hcmp Hr. simpl in Hc.
  repeat (apply elem_of_cons in Hc as [->|Hc];
    [eval_chars; destruct (_ <? _); [done|apply complain_refuses]|]);
  by apply not_elem_of_nil in Hc.
Qed.

Lemma unknown_option_refuses pname c x o :
  is_one_of c "CimnpuUMGPrDvIAbsdxXw" = false -> refuses (parse_option pname (Opt c x) o).
Proof.
  intros Hc. unfold parse_option.
  repeat (destruct (decide (c = _)) as [->|?]; [by vm_compute in Hc|]).
  destruct (is_one_of c "IAbsdxXw") eqn:Hr.
  - exfalso. apply is_one_of_spec in Hr. simpl in Hr.
    repeat (apply elem_of_cons in Hr as [->|Hr]; [by vm_compute in Hc|]). by apply not_elem_of_nil in Hr.
  - destruct (decide (c = _)); [apply displayHelp_refuses|apply puterr_refuses, referToHelp_refuses].
Qed.

Lemma known_cases c : is_one_of c "CimnpuUMGPrDvIAbsdxXw" = true ->
  is_one_of c "CimnpuUMGPrDv" = true \/ is_one_of c "IAbsdxXw" = true.
Proof.
  rewrite !is_one_of_spec. change (lit "CimnpuUMGPrDvIAbsdxXw") with (lit "CimnpuUMGPrDv" ++ lit "IAbsdxXw").
  apply elem_of_app.
Qed.

Lemma plain_not_repeatable c : is_one_of c "CimnpuUMGPrDv" = true -> is_one_of c "IAbsdxXw" = false.
Proof.
  intros Hc%is_one_of_spec. simpl in Hc.
  repeat (apply elem_of_cons in Hc as [->|Hc]; [done|]). by apply not_elem_of_nil in Hc.
Qed.

Lemma entries_length a args :
  Z.of_nat (length (entries (a :: args))) = Z.of_nat (length (entries [a])) + Z.of_nat (length (entries args)).
Proof.
  destruct a as [c x]. unfold entries; simpl. destruct (is_one_of c "IAbsdxXw").
  all: by rewrite <-Nat2Z.inj_add.
Qed.
Lemma opt_cnt_with_options o args :
  opt_cnt (with_options o args) = opt_cnt o + Z.of_nat (length (entries args)).
Proof. unfold opt_cnt. simpl. rewrite length_app. lia. Qed.

Lemma parse_options_spec pname args o s :
  opt_cnt o <= MAX_OPT ->
  if decide (Forall (fun a => known_option a = true) args /\ opt_cnt o + Z.of_nat (length (entries args)) <= MAX_OPT)
  then parse_options pname args o s = Ret (with_options o args) s
  else exists s', parse_options pname args o s = Exit EXIT_FAILURE s' /\ kern s' = kern s.
Proof.
  revert o s. induction args as [|[c x] args IH]; intros o s Ho.
  { rewrite decide_True by (split; [done|simpl; lia]). destruct o; unfold with_options; simpl.
    by rewrite !orb_false_r, andb_true_r, app_nil_r. }
  rewrite with_options_cons.
  change (parse_options pname (Opt c x :: args) o s) with
    (match parse_option pname (Opt c x) o s with
     | Ret o s => parse_options pname args o s | Exit k s => Exit k s | Undef => Undef end).
  rewrite (decide_ext _ (is_one_of c "CimnpuUMGPrDvIAbsdxXw" = true /\
    Forall (fun a => known_option a = true) args /\
    opt_cnt (with_options o [Opt c x]) + Z.of_nat (length (entries args)) <= MAX_OPT)).
  2:{ rewrite Forall_cons. change (known_option (Opt c x)) with (is_one_of c "CimnpuUMGPrDvIAbsdxXw").
      rewrite opt_cnt_with_options, (entries_length (Opt c x) args), Z.add_assoc. tauto. }
  destruct (is_one_of c "CimnpuUMGPrDvIAbsdxXw") eqn:Hk.
  2:{ rewrite decide_False by (by intros [? _]).
      destruct (unknown_option_refuses pname c x o Hk s) as (s' & -> & H1). by exists s'. }
  rewrite (decide_ext _ (Forall (fun a => known_option a = true) args /\
    opt_cnt (with_options o [Opt c x]) + Z.of_nat (length (entries args)) <= MAX_OPT)) by tauto.
  destruct (known_cases c Hk) as [Hp|Hr].
  - rewrite plain_option_spec by done. apply IH. rewrite opt_cnt_with_options. simpl.
    rewrite (plain_not_repeatable c Hp). simpl. lia.
  - pose proof (repeatable_option_spec pname c x o s Hr) as Hs.
    assert (Hcnt : opt_cnt (with_options o [Opt c x]) = opt_cnt o + 1).
    { rewrite opt_cnt_with_options. simpl. by rewrite Hr. }
    destruct (Z.ltb_spec (opt_cnt o) MAX_OPT) as [Hlt|Hge].
    + rewrite Hs. apply IH. lia.
    + rewrite decide_False by (intros [_ Hle]; lia). destruct Hs as (s' & -> & H1). by exists s'.
Qed.

(** The test of the result, as the source writes it. *)
Lemma consistent_spec o :
  ((bool_decide (uid_map o <> None) || bool_decide (gid_map o <> None) ||
    bool_decide (projid_map o <> None) || create_root_mappings o)
   && negb (has_bit (flags o) CLONE_NEWUSER))
  || (create_root_mappings o && (bool_decide (uid_map o <> None) || bool_decide (gid_map o <> None)))
  = negb (bool_decide (consistent o)).
Proof.
  destruct (decide (consistent o)) as [Hc|Hc];
    [rewrite (bool_decide_eq_true_2 _ Hc)|rewrite (bool_decide_eq_false_2 _ Hc)]; unfold consistent in Hc;
    destruct (uid_map o), (gid_map o), (projid_map o), (create_root_mappings o),
      (has_bit (flags o) CLONE_NEWUSER); simpl; intuition congruence.
Qed.

Lemma parse_command_options_spec pname args operands s :
  if decide (acceptable args operands)
  then parse_command_options pname args operands s =
         Ret (set_argv operands (with_options no_options args)) s
  else exists s', parse_command_options pname args operands s = Exit EXIT_FAILURE s' /\ kern s' = kern s.
Proof.
  pose proof (parse_options_spec pname args no_options s ltac:(done)) as Hp. unfold acceptable.
  change (opt_cnt no_options + Z.of_nat (length (entries args))) with (Z.of_nat (length (entries args))) in Hp.
  unfold parse_command_options.
  destruct (decide (Forall _ args /\ _)) as [[Hk Hn]|Hno] in Hp.
  - rewrite (bind_Ret _ _ _ _ _ Hp), consistent_spec. case_bool_decide as Hc; cbn [negb].
    + rewrite (bind_Ret _ _ s tt s) by done. case_bool_decide as Ho.
      * rewrite decide_False by tauto.
        destruct (puterr_refuses (line "No command provided") _ (@referToHelp_refuses unit pname) s) as (s' & Hr & H1).
        exists s'. by rewrite (bind_Exit _ _ _ _ _ Hr).
      * by rewrite decide_True by tauto.
    + rewrite decide_False by tauto.
      destruct (puterr_refuses (line "-M, -G, -P, or -r specified without -U") _ (@referToHelp_refuses unit pname) s)
        as (s' & Hr & H1). exists s'. by rewrite (bind_Exit _ _ _ _ _ Hr).
  - rewrite decide_False by tauto. destruct Hp as (s' & Hr & H1). exists s'. by rewrite (bind_Exit _ _ _ _ _ Hr).
Qed.

End Options.

(** ** The maps *)

(** What the proofs need of a kernel: open descriptors with their files, what
    has been written to which file, and the identifiers of the process. *)
Record map_view := MapView { fds : gmap Z cstr; writes : list (cstr * cstr); ids : Z * Z }.

Class MapLaws (K : Type) {OS : UsernsOS K} := {
  view : K -> map_view;
  ml_open k path k' r : os_open k path = (k', r) ->
    match r with
    | inl _ => view k' = view k
    | inr fd => fds (view k) !! fd = None /\
        view k' = MapView (<[fd := path]> (fds (view k))) (writes (view k)) (ids (view k))
    end;
  ml_write k fd path text k' r : os_write k fd text = (k', r) -> fds (view k) !! fd = Some path ->
    match r with
    | inl _ => view k' = view k
    | inr n => 0 <= n <= strlen text /\
        view k' = MapView (fds (view k)) (writes (view k) ++ [(path, take (Z.to_nat n) text)]) (ids (view k))
    end;
  ml_close k fd k' r : os_close k fd = (k', r) ->
    view k' = MapView (delete fd (fds (view k))) (writes (view k)) (ids (view k));
  ml_getuid k k' id : os_getuid k = (k', id) -> view k' = view k /\ id = (ids (view k)).1;
  ml_getgid k k' id : os_getgid k = (k', id) -> view k' = view k /\ id = (ids (view k)).2
}.

Section Maps.
Context `{ErrnoText} {K : Type} {LC : LibCap K} {OS : UsernsOS K} {ML : MapLaws K}.
Implicit Types (s : proc K).
Abbreviation vw s := (view (kern s)).

(** [s'] is [s] after the writes [l], with the descriptors that were open. *)
Definition wrote (l : list (cstr * cstr)) s s' : Prop :=
  vw s' = MapView (fds (vw s)) (writes (vw s) ++ l) (ids (vw s)).

Lemma wrote_nil s : wrote [] s s.
Proof. unfold wrote. rewrite app_nil_r. by destruct (vw s). Qed.
Lemma wrote_app l l' s s' s'' : wrote l s s' -> wrote l' s' s'' -> wrote (l ++ l') s s''.
Proof. unfold wrote. intros H1 H2. rewrite H2, H1. simpl. by rewrite (assoc_L (++)). Qed.

(** A beginning of the text of a file, or nothing. *)
Definition partly (file text : cstr) (l : list (cstr * cstr)) : Prop :=
  l = [] \/ exists n, l = [(file, take n text)].

(** Opening, writing and closing, as both functions do it. *)
Lemma wp_open path Q E s :
  (forall s', wrote [] s s' -> Q None s') ->
  (forall fd s', fds (vw s) !! fd = None ->
     vw s' = MapView (<[fd := path]> (fds (vw s))) (writes (vw s)) (ids (vw s)) -> Q (Some fd) s') ->
  wp (syscall (fun k => os_open k path)) Q E s.
Proof.
  intros H1 H2. apply wp_syscall; intros k r Hk; pose proof (ml_open _ _ _ _ Hk) as Hv; simpl in Hv.
  - apply H1. unfold wrote. simpl. rewrite Hv, app_nil_r. by destruct (vw s).
  - destruct Hv. by apply H2.
Qed.

Lemma wp_report what file Q E s :
  (forall s', kern s' = kern s -> Q tt s') -> wp (report_file_error what file) Q E s.
Proof. intros HQ. apply wp_bind, wp_get, wp_modify. by apply HQ. Qed.

Lemma wp_written fd path text (check : option Z -> M (proc K) Z) Q E s s1 :
  fds (vw s) !! fd = None ->
  vw s1 = MapView (<[fd := path]> (fds (vw s))) (writes (vw s)) (ids (vw s)) ->
  (forall n s2, wp (check n) (fun r s3 => kern s3 = kern s2 /\
     forall s4, vw s4 = MapView (delete fd (fds (vw s2))) (writes (vw s2)) (ids (vw s2)) ->
       match n with Some n => 0 <= n <= strlen text /\ vw s2 = MapView (fds (vw s1)) (writes (vw s1) ++ [(path, take (Z.to_nat n) text)]) (ids (vw s1))
               | None => vw s2 = vw s1 end -> Q r s4) E s2) ->
  wp (let! n := syscall (fun k => os_write k fd text) in
      let! status := check n in
      syscall (fun k => os_close k fd) ;;;
      ret status) Q E s1.
Proof.
  intros Hfd Hv1 Hc. apply wp_bind.
  assert (Hl : fds (vw s1) !! fd = Some path) by (rewrite Hv1; simpl; by rewrite lookup_insert_eq).
  apply wp_syscall; intros k r Hk; pose proof (ml_write _ _ _ _ _ _ Hk Hl) as Hw; simpl in Hw;
    (apply wp_bind; eapply wp_mono; [apply Hc| |done]; simpl;
     intros x s3 [Hk3 HQ]; apply wp_bind; apply wp_syscall; intros k4 r4 Hk4;
     apply wp_ret; (apply HQ; [simpl; rewrite (ml_close _ _ _ _ Hk4), Hk3; done|done])).
Qed.

Lemma wp_update_map mapping file (Q : Z -> proc K -> Prop) E s :
  (forall s', wrote [(file, newlines_for_commas mapping)] s s' -> Q 0 s') ->
  (forall l s', partly file (newlines_for_commas mapping) l -> wrote l s s' -> Q (-1) s') ->
  wp (update_map mapping file) Q E s.
Proof.
  intros Hok Hbad. apply wp_bind, wp_open.
  - intros s' Hs. apply wp_bind, wp_report. intros s'' Hk. apply wp_ret. apply (Hbad []); [by left|].
    unfold wrote in *. by rewrite Hk.
  - intros fd s1 Hfd Hv1. eapply wp_written; [done..|]. intros n s2.
    case_bool_decide as Hn.
    + apply wp_ret. split; [done|]. intros s4 H4 Hv2. subst n. destruct Hv2 as [_ Hv2]. apply Hok.
      unfold wrote. rewrite H4, Hv2, Hv1. simpl. rewrite delete_insert_id by done.
      unfold strlen. by rewrite Nat2Z.id, firstn_all.
    + apply wp_bind, wp_report. intros s3 Hk. apply wp_ret. split; [done|]. intros s4 H4 Hv2.
      destruct n as [n|].
      * destruct Hv2 as [_ Hv2]. eapply Hbad; [right; by eexists|].
        unfold wrote. rewrite H4, Hv2, Hv1. simpl. by rewrite delete_insert_id.
      * apply (Hbad []); [by left|]. unfold wrote. rewrite H4, Hv2, Hv1. simpl.
        by rewrite delete_insert_id, app_nil_r.
Qed.

Lemma wp_proc_setgroups_write pid text (Q : Z -> proc K -> Prop) E s :
  (forall r l s', partly (proc_path pid "setgroups") text l -> wrote l s s' -> r = 0 \/ r = -1 -> Q r s') ->
  wp (proc_setgroups_write pid text) Q E s.
Proof.
  intros HQ. apply wp_bind, wp_open.
  - intros s' Hs. apply wp_bind, wp_get. destruct (_ =? _).
    + apply wp_ret. apply (HQ _ []); auto. by left.
    + apply wp_bind, wp_report. intros s'' Hk. apply wp_ret. apply (HQ _ []); auto; [by left|].
      unfold wrote in *. by rewrite Hk.
  - intros fd s1 Hfd Hv1. eapply wp_written; [done..|]. intros n s2. destruct n as [n|].
    + apply wp_ret. split; [done|]. intros s4 H4 [_ Hv2]. eapply HQ; [right; by eexists| |by left].
      unfold wrote. rewrite H4, Hv2, Hv1. simpl. by rewrite delete_insert_id.
    + apply wp_bind, wp_report. intros s3 Hk. apply wp_ret. split; [done|]. intros s4 H4 Hv2.
      apply (HQ _ []); [by left| |by right].
      unfold wrote. rewrite H4, Hv2, Hv1. simpl. by rewrite delete_insert_id, app_nil_r.
Qed.

(** What there is to write: each file with its text. *)
Definition uid_part (o : cmd_options) (pid : Z) (ids : Z * Z) : list (cstr * cstr) :=
  if bool_decide (uid_map o <> None) || create_root_mappings o then
    [(proc_path pid "uid_map", newlines_for_commas
        (if create_root_mappings o then root_mapping ids.1 else default [] (uid_map o)))]
  else [].
Definition gid_part (o : cmd_options) (pid : Z) (ids : Z * Z) (deny : list (cstr * cstr)) : list (cstr * cstr) :=
  if bool_decide (gid_map o <> None) || create_root_mappings o then
    (if deny_setgroups o then deny else []) ++
    [(proc_path pid "gid_map", newlines_for_commas
        (if create_root_mappings o then root_mapping ids.2 else default [] (gid_map o)))]
  else [].
Definition projid_part (o : cmd_options) (pid : Z) : list (cstr * cstr) :=
  match projid_map o with
  | Some map => [(proc_path pid "projid_map", newlines_for_commas map)]
  | None => []
  end.
Definition map_plan (o : cmd_options) (pid : Z) (ids : Z * Z) (deny : list (cstr * cstr)) : list (cstr * cstr) :=
  uid_part o pid ids ++ gid_part o pid ids deny ++ projid_part o pid.

(** Every write is one of the plan, or a beginning of it. *)
Definition within (plan l : list (cstr * cstr)) : Prop :=
  Forall (fun e => exists text, (e.1, text) ∈ plan /\ e.2 `prefix_of` text) l.

Lemma within_app plan l l' : within plan l -> within plan l' -> within plan (l ++ l').
Proof. apply Forall_app_2. Qed.
Lemma within_partly plan file text l : (file, text) ∈ plan -> partly file text l -> within plan l.
Proof.
  intros Hin [-> |[n ->]]; [by apply Forall_nil|]. apply Forall_singleton. exists text. split; [done|].
  apply prefix_take.
Qed.
Lemma partly_all file text : partly file text [(file, text)].
Proof. right. exists (length text). by rewrite firstn_all. Qed.
Lemma partly_nil file text : partly file text [].
Proof. by left. Qed.

(** How the process ends when a map cannot be written. *)
Definition fails_within (plan : list (cstr * cstr)) s (e : exit_kind) (s' : proc K) : Prop :=
  e = EXIT_FAILURE /\ exists l, wrote l s s' /\ within plan l.

(** One map, after the writes [l0]. *)
Lemma wp_write_map plan l0 map pid file (Q : unit -> proc K -> Prop) s0 s :
  wrote l0 s0 s -> within plan l0 -> (proc_path pid file, newlines_for_commas map) ∈ plan ->
  (forall s', wrote (l0 ++ [(proc_path pid file, newlines_for_commas map)]) s0 s' -> Q tt s') ->
  wp (write_map map pid file) Q (fails_within plan s0) s.
Proof.
  intros Hl Hw Hin HQ. apply wp_bind, wp_update_map.
  - intros s' Hs. apply wp_ret, HQ. by eapply wrote_app.
  - intros l s' Hp Hs. apply wp_perror_exit. intros s'' Hk. split; [done|]. exists (l0 ++ l). split.
    + unfold wrote. rewrite Hk. by eapply (wrote_app l0 l s0 s s').
    + apply within_app; [done|by eapply within_partly].
Qed.

(** A test of the identifier of the process, or a map of the command line. *)
Lemma wp_choose_map (root : bool) (get_id : K -> K * Z) id map (Q : cstr -> proc K -> Prop) E l0 s0 s :
  (forall k k' x, get_id k = (k', x) -> view k' = view k /\ x = id (ids (view k))) ->
  wrote l0 s0 s ->
  (forall s', wrote l0 s0 s' -> Q (if root then root_mapping (id (ids (vw s0))) else map) s') ->
  wp (if root then let! x := syscall_ get_id in ret (root_mapping x) else ret map) Q E s.
Proof.
  intros Hlaw Hl HQ. destruct root; [|by apply wp_ret, HQ]. apply wp_bind. unfold wp, syscall_.
  destruct (get_id (kern s)) as [k x] eqn:Hg. destruct (Hlaw _ _ _ Hg) as [Hv ->].
  assert (Hids : ids (vw s) = ids (vw s0)) by by rewrite Hl.
  rewrite Hids. apply HQ. unfold wrote in *. simpl. by rewrite Hv.
Qed.

Section OneChild.
Context (o : cmd_options) (pid : Z) (s0 : proc K).
Abbreviation own_ids := (ids (vw s0)).
Abbreviation setgroups_file := (proc_path pid "setgroups").
Definition full_plan : list (cstr * cstr) := map_plan o pid own_ids [(setgroups_file, lit "deny")].
Abbreviation gid_wanted := (bool_decide (gid_map o <> None) || create_root_mappings o).

Lemma uid_part_within : within full_plan (uid_part o pid own_ids).
Proof. apply Forall_forall. intros [f t] Hin. exists t. split; [|done]. apply elem_of_app. by left. Qed.

Lemma deny_within deny :
  gid_wanted = true -> partly setgroups_file (lit "deny") deny ->
  within full_plan (if deny_setgroups o then deny else []).
Proof.
  intros Hg Hp. destruct (deny_setgroups o) eqn:Hd; [|by apply Forall_nil].
  eapply within_partly; [|exact Hp]. unfold full_plan, map_plan, gid_part. rewrite Hg, Hd. set_solver.
Qed.

Lemma gid_part_within deny :
  partly setgroups_file (lit "deny") deny -> within full_plan (gid_part o pid own_ids deny).
Proof.
  intros Hp. unfold gid_part. destruct gid_wanted eqn:Hg; [|by apply Forall_nil].
  apply within_app; [by apply deny_within|]. eapply within_partly; [|apply partly_all].
  unfold full_plan, map_plan, gid_part. rewrite Hg. set_solver.
Qed.

Lemma wp_deny l s :
  gid_wanted = true -> wrote l s0 s -> within full_plan l ->
  wp (when (deny_setgroups o) (
        let! r := proc_setgroups_write pid (lit "deny") in
        if r =? -1 then perror_exit (lit "proc_setgroups_write") else ret tt))
    (fun _ s' => exists deny, partly setgroups_file (lit "deny") deny /\
       wrote (l ++ if deny_setgroups o then deny else []) s0 s') (fails_within full_plan s0) s.
Proof.
  intros Hg Hl Hw. pose proof (deny_within [(setgroups_file, lit "deny")] Hg (partly_all _ _)) as Hden.
  apply wp_when; intros Hd; rewrite Hd in *.
  - apply wp_bind, wp_proc_setgroups_write. intros r l' s2 Hp Hs2 [->| ->].
    + apply wp_ret. exists l'. split; [done|]. by eapply wrote_app.
    + apply wp_perror_exit. intros s3 Hk. split; [done|]. exists (l ++ l'). split.
      * unfold wrote. rewrite Hk. by eapply (wrote_app l l' s0 s s2).
      * apply within_app; [done|]. pose proof (deny_within l' Hg Hp) as Hx. by rewrite Hd in Hx.
  - exists []. split; [apply partly_nil|by rewrite app_nil_r].
Qed.

End OneChild.

(** The maps of the child: when [update_child_maps] returns, the files of
    the maps that were asked for have been written once each, in the order
    uid_map, setgroups, gid_map, projid_map, with commas as newlines and with
    the caller's own identifier mapped to 0 under -r; no other file has been
    written and no descriptor stays open. When a map cannot be written the
    process ends with a failure, and still has written nothing but what was
    planned. *)
Theorem child_maps_written (o : cmd_options) (pid : Z) s :
  wp (update_child_maps o pid)
    (fun _ s' => exists deny, partly (proc_path pid "setgroups") (lit "deny") deny /\
       wrote (map_plan o pid (ids (vw s)) deny) s s')
    (fails_within (map_plan o pid (ids (vw s)) [(proc_path pid "setgroups", lit "deny")]) s) s.
Proof.
  change (map_plan _ _ _ [_]) with (full_plan o pid s). pose proof (uid_part_within o pid s) as Hw1.
  apply wp_bind.
  apply (wp_mono _ (fun _ s' => wrote (uid_part o pid (ids (vw s))) s s') _ (fails_within (full_plan o pid s) s)); [| |done].
  { unfold uid_part in *. destruct (_ || _) eqn:Hu; [|apply wp_ret, wrote_nil].
    apply wp_bind. eapply (wp_choose_map _ _ fst _ _ _ [] s); [apply ml_getuid|apply wrote_nil|].
    intros s' Hs. eapply (wp_write_map _ []); [done|by apply Forall_nil| |by intros s'' Hs''].
    unfold full_plan, map_plan, uid_part. rewrite Hu. set_solver. }
  intros _ s1 H1. apply wp_bind.
  apply (wp_mono _ (fun _ s' => exists deny, partly (proc_path pid "setgroups") (lit "deny") deny /\
      wrote (uid_part o pid (ids (vw s)) ++ gid_part o pid (ids (vw s)) deny) s s') _
      (fails_within (full_plan o pid s) s)); [| |done].
  { unfold gid_part. destruct (_ || _) eqn:Hg.
    2:{ apply wp_ret. exists []. split; [apply partly_nil|by rewrite app_nil_r]. }
    apply wp_bind. eapply wp_mono; [by apply wp_deny| |done]. intros _ s2 (deny & Hp & Hs2).
    apply wp_bind. eapply (wp_choose_map _ _ snd); [apply ml_getgid|exact Hs2|].
    intros s3 Hs3. eapply wp_write_map; [exact Hs3|apply within_app; [done|by apply deny_within]| |].
    - unfold full_plan, map_plan, gid_part. rewrite Hg. set_solver.
    - intros s4 Hs4. exists deny. split; [done|]. by rewrite (assoc_L (++)). }
  intros _ s2 (deny & Hp & Hs2). unfold map_plan, projid_part. destruct (projid_map o) as [map|] eqn:Hpm.
  - eapply wp_write_map; [exact Hs2|apply within_app; [done|by apply gid_part_within]| |].
    + unfold full_plan, map_plan, projid_part. rewrite Hpm. set_solver.
    + intros s3 Hs3. exists deny. split; [done|]. by rewrite (assoc_L (++)).
  - apply wp_ret. exists deny. split; [done|]. by rewrite app_nil_r.
Qed.

End Maps.

(** ** Requests *)

Section Requests.
Context `{ErrnoText} {K : Type} {LC : LibCap K} {OS : UsernsOS K}.
Implicit Types (s : proc K).

(** Code without undefined behaviour, whose process ends only like this. *)
Definition ended (e : exit_kind) s : Prop := e = EXECED \/ e = EXIT_FAILURE \/ e = ABORT.
Definition runs {A} (m : M (proc K) A) : Prop := forall s, wp m (fun _ _ => True) ended s.

Lemma runs_bind {A B} (m : M (proc K) A) (f : A -> M (proc K) B) :
  runs m -> (forall a, runs (f a)) -> runs (bind m f).
Proof. intros Hm Hf s. apply wp_bind. eapply wp_mono; [apply Hm| |done]. intros a s' _. apply Hf. Qed.
Lemma runs_ret {A} (a : A) : runs (ret a).
Proof. done. Qed.
Lemma runs_syscall {A} (call : K -> K * (Z + A)) : runs (syscall call).
Proof. intros s. by apply wp_syscall. Qed.
Lemma runs_syscall_ {A} (call : K -> K * A) : runs (syscall_ call).
Proof. intros s. unfold wp, syscall_. by destruct (call (kern s)). Qed.
Lemma runs_for_each {B} (l : list B) body : (forall x, runs (body x)) -> runs (for_each l body).
Proof. intros Hb s. apply (wp_for_each_inv _ _ (fun _ => True)); [done|]. intros x s' _ _. apply Hb. Qed.
Lemma runs_complain {A} msg : runs (@complain K A msg).
Proof. intros s. right. by left. Qed.
Lemma runs_perror_exit {A} msg : runs (@perror_exit _ K A msg).
Proof. intros s. right. by left. Qed.
Lemma runs_errExit {A} msg : runs (@errExit _ K A msg).
Proof.
  intros s. destruct (@errExit_run _ K A msg s) as (s' & Hr & _). unfold wp. rewrite Hr.
  destruct (EF_DUMPCORE s) as [[|]|]; unfold ended; auto.
Qed.
Lemma runs_modify f : runs (modify f : M (proc K) unit).
Proof. done. Qed.

Create HintDb runs.
#[local] Hint Resolve runs_ret runs_syscall runs_syscall_ runs_complain runs_perror_exit runs_errExit
  runs_modify : runs.
(** Following the structure of the code. *)
Ltac runs_steps :=
  repeat (cbn beta zeta; match goal with
  | |- runs (bind _ _) => apply runs_bind; [|intros ?]
  | |- runs (for_each _ _) => apply runs_for_each; intros ?
  | |- runs (when ?b _) => destruct b; unfold when
  | |- runs (if ?b then _ else _) => destruct b
  | |- runs (match ?x with _ => _ end) => destruct x
  | |- runs _ => solve [auto with runs]
  end).

Lemma runs_modifyCapSetting flag cap b : runs (modifyCapSetting flag cap b).
Proof. unfold modifyCapSetting, libcall. runs_steps. Qed.
Lemma runs_raise b : runs (raiseInheritableAndAmbientCaps b).
Proof. unfold raiseInheritableAndAmbientCaps, modifyCapSetting, libcall. runs_steps. Qed.
Lemma runs_display t : runs (display_creds_and_caps t).
Proof. unfold display_creds_and_caps, libcall, putout. runs_steps. Qed.
Lemma runs_modify_individual_capability v : runs (modify_individual_capability v).
Proof. unfold modify_individual_capability, modify_set, modifyCapSetting, libcall. runs_steps. Qed.
Lemma runs_securebits_loop b v : runs (securebits_loop b v).
Proof. revert b. induction v as [|c v IH]; intros b; simpl; runs_steps. Qed.
Lemma runs_set_securebits v : runs (set_securebits v).
Proof. unfold set_securebits. apply runs_bind; [apply runs_securebits_loop|]. intros b. runs_steps. Qed.
Lemma runs_set_process_uids v : runs (set_process_uids v).
Proof. unfold set_process_uids. runs_steps. Qed.
#[local] Hint Resolve runs_raise runs_display runs_modify_individual_capability runs_set_securebits
  runs_set_process_uids : runs.

Lemma runs_with_val e f : val e <> None -> (forall v, runs (f v)) -> runs (with_val e f).
Proof. unfold with_val. destruct (val e); [auto|done]. Qed.

Lemma runs_perform_option e cnt :
  (is_one_of (opt e) "bsSxXw" = true -> val e <> None) -> runs (perform_option e cnt).
Proof.
  intros Hv. unfold perform_option, libcall.
  repeat (destruct (decide (opt e = _)) as [Hc|?];
    [try (assert (val e <> None) by (apply Hv; by rewrite Hc)); runs_steps; try (apply runs_with_val; [done|intros v]; runs_steps)|]).
  runs_steps. apply runs_modify.
Qed.

Lemma runs_perform_loop l cnt :
  Forall (fun e => is_one_of (opt e) "bsSxXw" = true -> val e <> None) l -> runs (perform_loop l cnt).
Proof.
  intros Hl. revert cnt. induction Hl as [|e l He _ IH]; intros cnt; simpl; [apply runs_ret|].
  apply runs_bind; [by apply runs_perform_option|]. done.
Qed.

(** Every option that is used with a value has one. *)
Lemma entries_have_values args :
  Forall (fun e => is_one_of (opt e) "bsSxXw" = true -> val e <> None) (entries args).
Proof.
  induction args as [|[c x] args IH]; [by apply Forall_nil|]. unfold entries. simpl.
  destruct (is_one_of c "IAbsdxXw") eqn:Hr; [|done]. apply Forall_cons. split; [|done]. simpl.
  intros Hc. destruct (is_one_of c "bsxXw") eqn:Hv; [done|]. exfalso.
  apply is_one_of_spec in Hr. simpl in Hr.
  repeat (apply elem_of_cons in Hr as [->|Hr]; [done|]). by apply not_elem_of_nil in Hr.
Qed.

Lemma child_ends pipe_fd o s :
  Forall (fun e => is_one_of (opt e) "bsSxXw" = true -> val e <> None) (opt_list o) ->
  wp (childFunc pipe_fd o) (fun _ _ => False) ended s.
Proof.
  intros Ho. unfold childFunc.
  apply (wp_seq_inv _ _ (fun _ => True)); [apply runs_syscall|]. intros _ s1 _.
  apply (wp_seq_inv _ _ (fun _ => True)); [apply runs_syscall|]. intros r s2 _.
  apply (wp_seq_inv _ _ (fun _ => True)); [revert s2; change (runs (if bool_decide (r = Some []) then ret tt else @complain K unit (lit "Failure in child: read from pipe returned != 0"))); runs_steps|]. intros _ s3 _.
  apply (wp_seq_inv _ _ (fun _ => True)); [apply runs_syscall|]. intros _ s4 _.
  apply (wp_seq_inv _ _ (fun _ => True)); [by apply runs_perform_loop|]. intros _ s5 _.
  apply (wp_seq_inv _ _ (fun _ => True)); [by destruct (verbose o)|]. intros _ s6 _.
  apply (wp_seq_inv _ _ (fun _ => True)); [apply runs_syscall_|]. intros [e|] s7 _.
  - apply (wp_seq_inv _ _ (fun _ => True)); [done|]. intros _ s8 _. right. by left.
  - by left.
Qed.

(** C26: The options mean what the reference says of each setting on its own:
    when every option is known, at most 100 are repeatable, those that need -U
    or exclude each other are consistent and there is a command, parsing gives
    the flags of all options together, the last argument of -M, -G and -P, and
    the repeatable options in order with the arguments they take; otherwise it
    ends the process with a failure and no effect on the kernel. With such
    options the child never uses a null argument, whatever its calls return: it
    ends in the command or with an error. *)
Theorem parse_command_options_reference pname args operands s :
  if decide (acceptable args operands)
  then exists o, parse_command_options pname args operands s = Ret o s /\
    o = set_argv operands (with_options no_options args) /\
    forall pipe_fd s1, wp (childFunc pipe_fd o) (fun _ _ => False)
      (fun e _ => e = EXECED \/ e = EXIT_FAILURE \/ e = ABORT) s1
  else exists s', parse_command_options pname args operands s = Exit EXIT_FAILURE s' /\ kern s' = kern s.
Proof.
  pose proof (parse_command_options_spec pname args operands s) as Hp. case_decide; [|done].
  eexists. split; [exact Hp|]. split; [done|]. intros pipe_fd s1. apply child_ends. apply entries_have_values.
Qed.

(** ** Securebits *)

(** The letters of set_securebits. *)
Fixpoint letters_value (secbits : Z) (v : cstr) : option Z :=
  match v with
  | [] => Some secbits
  | p :: v => match secbit_letter secbits p with Some b => letters_value b v | None => None end
  end.

Lemma securebits_loop_spec b v s :
  match letters_value b v with
  | Some b' => securebits_loop b v s = Ret b' s
  | None => exists s', securebits_loop b v s = Exit EXIT_FAILURE s' /\ kern s' = kern s
  end.
Proof.
  revert b. induction v as [|p v IH]; intros b; simpl; [done|].
  destruct (secbit_letter b p); [apply IH|apply complain_refuses].
Qed.

Definition printed_letters (bits : Z) : cstr := filter (fun c => c <> "-"%char) (printSecbits bits false).

Lemma letters_of_printed bits : 0 <= bits < 256 -> letters_value 0 (printed_letters bits) = Some bits.
Proof.
  intros Hb. assert (Hall : forallb (fun b => bool_decide (letters_value 0 (printed_letters b) = Some b)) (seqZ 0 256) = true)
    by (vm_compute; done).
  rewrite forallb_forall in Hall. specialize (Hall bits).
  apply (bool_decide_unpack _). apply Is_true_true, Hall. apply list_elem_of_In, elem_of_seqZ. lia.
Qed.

(** The letters that printSecbits shows for a mask are the argument of -b
    that sets it: set_securebits then asks for exactly this mask, for all 256,
    whatever came before a 0 in the argument; a letter that means nothing ends
    the process before any request. *)
Theorem securebits_round_trip (bits : Z) (before : cstr) s :
  0 <= bits < 256 ->
  match letters_value 0 before with
  | Some _ => set_securebits (before ++ "0"%char :: printed_letters bits) s =
      (let! r := syscall (fun k => os_prctl k (PR_SET_SECUREBITS bits)) in
       match r with None => perror_exit (lit "prctl-PR_SET_SECUREBITS") | Some _ => ret tt end) s
  | None => exists s', set_securebits (before ++ "0"%char :: printed_letters bits) s = Exit EXIT_FAILURE s' /\
      kern s' = kern s
  end.
Proof.
  intros Hb. pose proof (securebits_loop_spec 0 (before ++ "0"%char :: printed_letters bits) s) as Hl.
  assert (Happ : forall b v w, letters_value b (v ++ w) =
    match letters_value b v with Some b' => letters_value b' w | None => None end).
  { intros b v w. revert b. induction v as [|p v IH]; intros b; simpl; [done|]. by destruct (secbit_letter b p). }
  rewrite Happ in Hl. destruct (letters_value 0 before) as [b0|].
  - change (letters_value b0 ("0"%char :: printed_letters bits)) with (letters_value 0 (printed_letters bits)) in Hl.
    rewrite letters_of_printed in Hl by done.
    unfold set_securebits. by rewrite (bind_Ret _ _ _ _ _ Hl).
  - destruct Hl as (s' & Hl & Hk). exists s'. unfold set_securebits. by rewrite (bind_Exit _ _ _ _ _ Hl).
Qed.

End Requests.
