(* ===== verification/UsernsCaps.v ===== *)
(** The -X option of namespaces/userns_child_exec.c against the documented
    behaviour of libcap and prctl: what modify_individual_capability and
    modifyCapSetting do to the capability sets of the process. *)
From Stdlib Require Import ZArith Lia Ascii String.
From stdpp Require Import base tactics list strings gmap sets.
From S2P Require Import Prelude CString Process UsernsExec UsernsProps.
#[local] Open Scope Z_scope.

(** The sets of a process. *)
Record cap_sets := CapSets { file_sets : cap_flag -> gset Z; bounding : gset Z; ambient : gset Z }.

(** Equal sets. *)
Definition sets_eq (c d : cap_sets) : Prop :=
  (forall f, file_sets c f = file_sets d f) /\ bounding c = bounding d /\ ambient c = ambient d.
#[export] Instance sets_eq_equivalence : Equivalence sets_eq.
Proof.
  split.
  - by intros c.
  - intros c d (H1 & H2 & H3). split_and!; [by intros f|done|done].
  - intros c d e (H1 & H2 & H3) (H4 & H5 & H6). split_and!; [intros f; by rewrite H1|congruence..].
Qed.

Definition update (s : gset Z) (cap : Z) (raise : bool) : gset Z :=
  if raise then s ∪ {[ cap ]} else s ∖ {[ cap ]}.

(** Setting the three sets that libcap handles: a capability stays ambient only
    while it is permitted and inheritable. *)
Definition set_sets (g : cap_flag -> gset Z) (c : cap_sets) : cap_sets :=
  CapSets g (bounding c) (ambient c ∩ g CAP_PERMITTED ∩ g CAP_INHERITABLE).

#[export] Instance set_sets_proper : Proper (pointwise_relation _ eq ==> sets_eq ==> sets_eq) set_sets.
Proof. intros g h Hg c d (H1 & H2 & H3). split_and!; simpl; [apply Hg|done|by rewrite H3, !Hg]. Qed.

(** What the letter of a set in the argument of -X asks for. *)
Definition change_set (raise : bool) (cap : Z) (p : ascii) (c : cap_sets) : cap_sets :=
  let one f := set_sets (fun f' => if decide (f' = f) then update (file_sets c f) cap raise else file_sets c f') c in
  if decide (p = "p")%char then one CAP_PERMITTED
  else if decide (p = "e")%char then one CAP_EFFECTIVE
  else if decide (p = "i")%char then one CAP_INHERITABLE
  else if decide (p = "b")%char then CapSets (file_sets c) (bounding c ∖ {[ cap ]}) (ambient c)
  else CapSets (file_sets c) (bounding c) (update (ambient c) cap raise).

#[export] Instance change_set_proper raise cap p : Proper (sets_eq ==> sets_eq) (change_set raise cap p).
Proof.
  intros c d Hcd. pose proof Hcd as (H1 & H2 & H3). unfold change_set. cbv zeta.
  repeat case_decide; try (apply set_sets_proper; [intros f; by rewrite !H1|done]);
    (split_and!; simpl; [done|by rewrite ?H2|by rewrite ?H3]).
Qed.

Definition change_sets (raise : bool) (cap : Z) (sets : cstr) (c : cap_sets) : cap_sets :=
  foldl (fun c p => change_set raise cap p c) c sets.

Class CapLaws (K : Type) {LC : LibCap K} {OS : UsernsOS K} := {
  caps_of : K -> cap_sets;
  cap_view : cap_t -> cap_flag -> gset Z;
  cl_get_proc k k' r : os_cap_get_proc k = (k', r) ->
    sets_eq (caps_of k') (caps_of k) /\
    forall c, r = inr c -> forall f, cap_view c f = file_sets (caps_of k) f;
  cl_set_flag c f cap raise c' : lib_cap_set_flag c f [cap] raise = inr c' ->
    forall f', cap_view c' f' = if decide (f' = f) then update (cap_view c f) cap raise else cap_view c f';
  cl_set_proc k c k' r : os_cap_set_proc k c = (k', r) ->
    sets_eq (caps_of k') (match r with inl _ => caps_of k | inr _ => set_sets (cap_view c) (caps_of k) end);
  cl_free c : exists u, lib_cap_free c = inr u;
  cl_prctl k op k' r : os_prctl k op = (k', r) ->
    sets_eq (caps_of k') (match r, op with
      | inl _, _ => caps_of k
      | inr _, PR_CAP_AMBIENT_RAISE cap => CapSets (file_sets (caps_of k)) (bounding (caps_of k)) (update (ambient (caps_of k)) cap true)
      | inr _, PR_CAP_AMBIENT_LOWER cap => CapSets (file_sets (caps_of k)) (bounding (caps_of k)) (update (ambient (caps_of k)) cap false)
      | inr _, PR_CAPBSET_DROP cap => CapSets (file_sets (caps_of k)) (bounding (caps_of k) ∖ {[ cap ]}) (ambient (caps_of k))
      | inr _, _ => caps_of k
      end)
}.

Section Caps.
Context `{ErrnoText} {K : Type} {LC : LibCap K} {OS : UsernsOS K} {CL : CapLaws K}.
Implicit Types (s : proc K).
Abbreviation cps s := (caps_of (kern s)).

Lemma wp_libcall {A} (r : Z + A) (Q : option A -> proc K -> Prop) E s :
  (forall e s', r = inl e -> kern s' = kern s -> Q None s') ->
  (forall a, r = inr a -> Q (Some a) s) -> wp (libcall r) Q E s.
Proof.
  intros H1 H2. unfold libcall, wp, syscall. destruct r as [e|a]; [by eapply H1|].
  specialize (H2 a eq_refl). by destruct s.
Qed.

Lemma wp_cap_free c (Q : Z -> proc K -> Prop) x E s :
  Q x s -> wp (libcall (lib_cap_free c) ;;; ret x) Q E s.
Proof.
  intros HQ. apply wp_bind, wp_libcall; intros a Ha; [|by apply wp_ret].
  intros Hx. destruct (cl_free c) as [u Hu]. congruence.
Qed.

(** modifyCapSetting changes one capability in one set, or nothing. *)
Lemma wp_modifyCapSetting flag cap raise (Q : Z -> proc K -> Prop) E s :
  (forall s', sets_eq (cps s') (set_sets (fun f => if decide (f = flag) then update (file_sets (cps s) flag) cap raise
     else file_sets (cps s) f) (cps s)) -> Q 0 s') ->
  (forall s', sets_eq (cps s') (cps s) -> Q (-1) s') ->
  wp (modifyCapSetting flag cap raise) Q E s.
Proof.
  intros Hok Hbad. apply wp_bind, wp_syscall; intros k r Hk; destruct (cl_get_proc _ _ _ Hk) as [Hs Hv].
  { apply wp_ret, Hbad. done. }
  specialize (Hv _ eq_refl). apply wp_bind, wp_libcall.
  { intros e s' _ Hk'. apply wp_cap_free, Hbad. by rewrite Hk'. }
  intros c Hc. pose proof (cl_set_flag _ _ _ _ _ Hc) as Hf.
  apply wp_bind, wp_syscall; intros k' r' Hk'; pose proof (cl_set_proc _ _ _ _ Hk') as Hp; simpl in Hp.
  { apply wp_cap_free, Hbad. simpl. by rewrite Hp. }
  apply wp_bind, wp_libcall; intros a Ha.
  { destruct (cl_free c) as [u Hu]. congruence. }
  apply wp_ret, Hok. simpl. rewrite Hp. apply set_sets_proper; [|done].
  intros f. by rewrite Hf, !Hv.
Qed.

Lemma wp_complain {A} msg (Q : A -> proc K -> Prop) E s :
  (forall s', kern s' = kern s -> E EXIT_FAILURE s') -> wp (complain msg) Q E s.
Proof. intros HE. apply wp_bind, wp_modify, wp_bind, wp_modify, wp_exit. by apply HE. Qed.

(** One letter. *)
Lemma wp_modify_set op name cap p s :
  p ∈ lit "peiba" ->
  wp (modify_set op name cap p)
    (fun _ s' => sets_eq (cps s') (change_set (bool_decide (op = "+")%char) cap p (cps s)))
    (fun e s' => e = EXIT_FAILURE /\ sets_eq (cps s') (cps s)) s.
Proof.
  intros Hp. unfold modify_set, change_set. set (raise := bool_decide (op = "+"%char)).
  assert (Hfile : forall flag, wp (let! r := modifyCapSetting flag cap raise in
      if r =? -1 then
        complain (lit "-X: modifyCapSetting() failed while " ++
          (if raise then lit "raising" else lit "lowering") ++ lit " '" ++ name ++ lit "' in '" ++ [p] ++ lit "'")
      else ret tt)
    (fun _ s' => sets_eq (cps s') (set_sets (fun f => if decide (f = flag) then update (file_sets (cps s) flag) cap raise
     else file_sets (cps s) f) (cps s))) (fun e s' => e = EXIT_FAILURE /\ sets_eq (cps s') (cps s)) s).
  { intros flag. apply wp_bind, wp_modifyCapSetting; intros s' Hs'; [by apply wp_ret|].
    apply wp_complain. intros s'' Hk. split; [done|]. by rewrite Hk. }
  assert (Hcase : (p = "p" \/ p = "e" \/ p = "i" \/ p = "b" \/ p = "a")%char).
  { simpl in Hp. rewrite !elem_of_cons in Hp. destruct_or?; auto. by apply not_elem_of_nil in Hp. }
  clear Hp. destruct Hcase as [->|[->|[->|[-> | ->]]]]; eval_chars; try apply Hfile; cbv zeta.
  - destruct raise.
    + apply wp_complain. intros s' Hk. split; [done|]. by rewrite Hk.
    + apply wp_bind, wp_syscall; intros k r Hk; pose proof (cl_prctl _ _ _ _ Hk) as Hl; simpl in Hl.
      * apply wp_perror_exit. intros s' Hk'. split; [done|]. by rewrite Hk'.
      * apply wp_ret. exact Hl.
  - apply wp_bind, wp_syscall; intros k r Hk; pose proof (cl_prctl _ _ _ _ Hk) as Hl; simpl in Hl.
    + apply wp_perror_exit. intros s' Hk'. split; [done|]. by rewrite Hk'.
    + apply wp_ret. by destruct raise.
Qed.

(** The first loop splits the argument at the first operator. *)
Lemma scan_sets_spec v :
  let '(sets, rest, bad) := scan_sets v in
  v = sets ++ rest /\ (bad = false -> Forall (fun p => p ∈ lit "peiba") sets) /\
  match rest with [] => True | op :: _ => op = "+"%char \/ op = "-"%char end.
Proof.
  induction v as [|c v IH]; simpl; [done|]. destruct (decide _) as [Hop|Hop]; [by split_and!|].
  destruct (scan_sets v) as [[sets rest] bad]. destruct IH as (-> & H1 & H2). split_and!; [done| |done].
  intros [-> Hb]%orb_false_iff. apply bool_decide_eq_false in Hb. apply Forall_cons.
  split; [by destruct (decide (c ∈ lit "peiba"))|by apply H1].
Qed.

(** -X with an argument made of letters of sets, an operator and the name
    of a capability adds it to or removes it from these sets one after the
    other, in the order of the letters; when a step is refused, or adds to the
    bounding set, the process ends with a failure after exactly the steps
    before it; any other argument ends it before the first step. *)
Theorem modify_capability_steps (optval : cstr) s :
  wp (modify_individual_capability optval)
    (fun _ s' => exists sets op name cap, optval = sets ++ op :: name /\ (op = "+" \/ op = "-")%char /\
       Forall (fun p => p ∈ lit "peiba") sets /\ cap_from_name name = Some cap /\
       sets_eq (cps s') (change_sets (bool_decide (op = "+")%char) cap sets (cps s)))
    (fun e s' => e = EXIT_FAILURE /\
       (sets_eq (cps s') (cps s) \/
        exists done rest op name cap, optval = done ++ rest ++ op :: name /\ cap_from_name name = Some cap /\
          sets_eq (cps s') (change_sets (bool_decide (op = "+")%char) cap done (cps s)))) s.
Proof.
  unfold modify_individual_capability. pose proof (scan_sets_spec optval) as Hscan.
  assert (Hany : forall msg (Q : unit -> proc K -> Prop) R, wp (complain msg) Q (fun e s' => e = EXIT_FAILURE /\
       (sets_eq (cps s') (cps s) \/ R s')) s).
  { intros msg Q R. apply wp_complain. intros s' Hk. split; [done|]. left. by rewrite Hk. }
  destruct (scan_sets optval) as [[sets rest] bad]. destruct Hscan as (Hv & Hsets & Hop).
  destruct rest as [|op [|n name]]; try apply Hany. destruct bad; [apply Hany|].
  destruct (cap_from_name (n :: name)) as [cap|] eqn:Hcap; [|apply Hany].
  specialize (Hsets eq_refl). set (raise := bool_decide (op = "+"%char)).
  apply (wp_mono _ (fun _ s' => sets_eq (cps s') (change_sets raise cap sets (cps s))) _
    (fun e s' => e = EXIT_FAILURE /\ exists done rest, sets = done ++ rest /\
       sets_eq (cps s') (change_sets raise cap done (cps s)))).
  - apply (wp_for_each sets _ (fun done s' => sets_eq (cps s') (change_sets raise cap done (cps s)))); [done|].
    intros done p todo s' Hl Hs'. eapply wp_mono; [apply wp_modify_set| |].
    + rewrite Hl in Hsets. apply Forall_app in Hsets as [_ Hsets]. by apply Forall_cons in Hsets as [? _].
    + simpl. intros _ s'' Hs''. unfold change_sets. rewrite foldl_app. simpl. rewrite Hs''. by apply change_set_proper.
    + simpl. intros e s'' [-> Hs'']. split; [reflexivity|]. exists done, (p :: todo). split; [exact Hl|].
      by rewrite Hs''.
  - intros _ s' Hs'. exists sets, op, (n :: name), cap. by split_and!.
  - intros e s' [-> (done & todo & Hl & Hs')]. split; [reflexivity|]. right.
    exists done, todo, op, (n :: name), cap. split_and!; [by rewrite Hv, Hl, <-app_assoc|done|exact Hs'].
Qed.

End Caps.

(** ** A kernel with capability sets and files *)

Definition demo_userns : Type := map_view * cap_sets.

#[export] Instance demo_strerror : ErrnoText :=
  { MAX_ENAME := 3; ename := fun _ => lit "EX"; strerror := fun _ => lit "text" }.

#[export] Instance demo_libcap : LibCap demo_userns := {
  cap_t := cap_flag -> gset Z;
  CAP_LAST_CAP := 40;
  os_cap_get_proc k := (k, inr (file_sets k.2));
  os_cap_set_proc k c := ((k.1, set_sets c k.2), inr tt);
  lib_cap_set_flag c f l raise :=
    inr (fun f' => if decide (f' = f) then foldl (fun s cap => update s cap raise) (c f) l else c f');
  lib_cap_free c := inr tt;
  cap_from_name t := if streq t (lit "cap_kill") then Some 5 else None;
  lib_cap_from_text t := inl EINVAL;
  lib_cap_to_text c := inr (lit "=")
}.

#[export] Instance demo_userns_os : UsernsOS demo_userns := {
  os_prctl k op :=
    let c := k.2 in
    ((k.1, match op with
           | PR_CAP_AMBIENT_RAISE cap => CapSets (file_sets c) (bounding c) (update (ambient c) cap true)
           | PR_CAP_AMBIENT_LOWER cap => CapSets (file_sets c) (bounding c) (update (ambient c) cap false)
           | PR_CAPBSET_DROP cap => CapSets (file_sets c) (bounding c ∖ {[ cap ]}) (ambient c)
           | _ => c
           end), inr tt);
  os_setresuid k r e s := (k, inr tt);
  os_geteuid k := (k, 1000);
  os_getegid k := (k, 1000);
  os_getuid k := (k, (ids k.1).1);
  os_getgid k := (k, (ids k.1).2);
  os_sleep k n := (k, 0);
  os_open k path :=
    let fd := fresh (dom (fds k.1)) in
    ((MapView (<[fd := path]> (fds k.1)) (writes k.1) (ids k.1), k.2), inr fd);
  os_write k fd text :=
    match fds k.1 !! fd with
    | Some path => ((MapView (fds k.1) (writes k.1 ++ [(path, text)]) (ids k.1), k.2), inr (strlen text))
    | None => (k, inl 9)
    end;
  os_read k fd n := (k, inr []);
  os_close k fd := ((MapView (delete fd (fds k.1)) (writes k.1) (ids k.1), k.2), inr tt);
  os_pipe k := (k, inr (3, 4));
  os_mmap k n := (k, inr 4096);
  os_munmap k p n := (k, tt);
  os_clone k f := (k, inr 77);
  os_waitpid k pid := (k, inr tt);
  os_execvp k a := (k, None)
}.

#[export] Instance demo_map_laws : MapLaws demo_userns.
Proof.
  refine {| view := fst |}; simpl.
  - intros k path k' r [= <- <-]. simpl. split; [|done]. apply not_elem_of_dom, is_fresh.
  - intros k fd path text k' r Hw Hf. rewrite Hf in Hw. injection Hw as <- <-. simpl.
    split; [unfold strlen; lia|]. unfold strlen. by rewrite Nat2Z.id, firstn_all.
  - by intros k fd k' r [= <- <-].
  - by intros k k' id [= <- <-].
  - by intros k k' id [= <- <-].
Defined.

#[export] Instance demo_cap_laws : CapLaws demo_userns.
Proof.
  refine {| caps_of := snd; cap_view := fun c => c |}; simpl.
  - intros k k' r [= <- <-]. split; [reflexivity|]. by intros c [= <-].
  - intros c f cap raise c' [= <-] f'. done.
  - intros k c k' r [= <- <-]. reflexivity.
  - intros c. by exists tt.
  - intros k op k' r [= <- <-]. simpl. by destruct op.
Defined.

Definition demo_process : proc demo_userns :=
  Proc (MapView {[ 0 := lit "tty" ]} [] (1000, 100),
        CapSets (fun f => if decide (f = CAP_PERMITTED) then {[ 5 ]} else ∅) {[ 5 ]} ∅) 0 None [] [] [].

(** -U -r writes both root mappings after denying setgroups. *)
Example root_mappings_written :
  exists s', update_child_maps (add_flag CLONE_NEWUSER (set_root no_options)) 77 demo_process = Ret tt s' /\
    writes (kern s').1 = [(lit "/proc/77/uid_map", lit "0 1000 1"); (lit "/proc/77/setgroups", lit "deny");
                          (lit "/proc/77/gid_map", lit "0 100 1")] /\
    fds (kern s').1 = {[ 0 := lit "tty" ]}.
Proof. eexists. split; [vm_compute; reflexivity|]. split; by vm_compute. Qed.

(** -X ei+cap_kill. *)
Example capability_raised :
  exists s', modify_individual_capability (lit "ei+cap_kill") demo_process = Ret tt s' /\
    file_sets (kern s').2 CAP_EFFECTIVE = {[ 5 ]} /\ file_sets (kern s').2 CAP_INHERITABLE = {[ 5 ]}.
Proof. eexists. split; [reflexivity|]. split; by vm_compute. Qed.

(** The parser refuses -S, which its list of options announces and the loop
    over the options would carry out. *)
Example option_S_refused :
  exists s', parse_command_options (lit "p") [Opt "S" (lit "1,2,3")] [lit "sh"] demo_process =
    Exit EXIT_FAILURE s' /\ err_out s' = lit "Bad command-line option: -S" ++ [NEWLINE] ++
      lit "For more information, use: p -h" ++ [NEWLINE].
Proof. eexists. by vm_compute. Qed.

(** The help text ends the program with a failure. *)
Example help_is_a_failure :
  exists s', parse_command_options (lit "p") [Opt "h" []] [lit "sh"] demo_process = Exit EXIT_FAILURE s'.
Proof. eexists. by vm_compute. Qed.

Lemma securebits_round_trip_witness :
  set_securebits (lit "aR" ++ lit "0" ++ printed_letters 17) demo_process =
      (let! r := syscall (fun k => os_prctl k (PR_SET_SECUREBITS 17)) in
       match r with None => perror_exit (lit "prctl-PR_SET_SECUREBITS") | Some _ => ret tt end) demo_process.
Proof. apply (securebits_round_trip 17 (lit "aR") demo_process). lia. Defined.
