(* ===== verification/UsernsSync.v ===== *)
(** How the parent and the child of namespaces/userns_child_exec.c wait for
    each other, as a transition system: the child reads from the pipe until no
    process has its write end open, which the parent closes after it has
    written the maps. *)
From Stdlib Require Import ZArith Lia Ascii String.
From stdpp Require Import base tactics list strings.
From S2P Require Import Prelude CString UsernsExec Transitions.
#[local] Open Scope Z_scope.

(** The parent: writing the maps that are left, closing the write end, waiting
    for the child. *)
Inductive parent_pc := PMaps (rest : list (cstr * cstr)) | PClose | PWait | PExit (k : exit_kind).

(** The child: closing its copy of the write end, reading, carrying out the
    requests and executing the command. *)
Inductive child_pc := CClose | CRead | CPerform | CExec | CExit (k : exit_kind).

(** [parent_end] and [child_end]: who still has the write end of the pipe. *)
Record state := State {
  ppc : parent_pc;
  cpc : child_pc;
  parent_end : bool;
  child_end : bool;
  written : list (cstr * cstr)
}.

(** After clone, with [maps] to write. *)
Definition start (maps : list (cstr * cstr)) : state := State (PMaps maps) CClose true true [].

(** update_child_maps and what follows it in main. *)
Definition run_parent (st : state) : option state :=
  match ppc st with
  | PMaps (m :: rest) => Some (State (PMaps rest) (cpc st) (parent_end st) (child_end st) (written st ++ [m]))
  | PMaps [] => Some (State PClose (cpc st) (parent_end st) (child_end st) (written st))
  | PClose => Some (State PWait (cpc st) false (child_end st) (written st))
  | PWait =>
      match cpc st with
      | CExit _ => Some (State (PExit EXIT_SUCCESS) (cpc st) (parent_end st) (child_end st) (written st))
      | _ => None
      end
  | PExit _ => None
  end.

(** childFunc; a command that has been executed ends at some time. *)
Definition run_child (st : state) : option state :=
  let goto c e := Some (State (ppc st) c (parent_end st) e (written st)) in
  match cpc st with
  | CClose => goto CRead false
  | CRead => if parent_end st || child_end st then None else goto CPerform (child_end st)
  | CPerform => goto CExec (child_end st)
  | CExec => goto (CExit EXECED) (child_end st)
  | CExit _ => None
  end.

Inductive process := Parent | Child.

Definition run (p : process) (st : state) : option state :=
  match p with Parent => run_parent st | Child => run_child st end.

(** A call of the parent or a request of the child that fails ends the process;
    the parent's end of the pipe is closed with it. *)
Inductive event := Run (p : process) | ParentFails | ChildFails.

Definition fire (e : event) (st : state) : option state :=
  match e, ppc st, cpc st with
  | Run p, _, _ => run p st
  | ParentFails, PMaps _, c => Some (State (PExit EXIT_FAILURE) c false (child_end st) (written st))
  | ChildFails, p, CPerform => Some (State p (CExit EXIT_FAILURE) (parent_end st) (child_end st) (written st))
  | _, _, _ => None
  end.

(** The child has read the end of the pipe. *)
Definition released (c : child_pc) : Prop := c <> CClose /\ c <> CRead.

(** What holds of the parent does not depend on a child that has not ended. *)
Definition parent_ok (maps : list (cstr * cstr)) (p : parent_pc) (c : child_pc) (pe : bool)
    (w : list (cstr * cstr)) : Prop :=
  match p with
  | PMaps rest => pe = true /\ maps = w ++ rest
  | PClose => pe = true /\ w = maps
  | PWait => pe = false /\ w = maps
  | PExit EXIT_SUCCESS => pe = false /\ w = maps /\ exists k, c = CExit k
  | PExit k => k = EXIT_FAILURE /\ pe = false /\ w `prefix_of` maps
  end.
Lemma child_live maps p c c' pe w : (forall k, c <> CExit k) -> parent_ok maps p c pe w -> parent_ok maps p c' pe w.
Proof. intros Hc. destruct p as [| | |[]]; try done. intros (_ & _ & k & Hk). by destruct (Hc k). Qed.

Lemma parent_ok_prefix maps p c pe w : parent_ok maps p c pe w -> w `prefix_of` maps.
Proof.
  destruct p as [rest| | |[]]; simpl; intros Hp; destruct_and?; subst; auto. by apply prefix_app_r.
Qed.

Record inv (maps : list (cstr * cstr)) (st : state) : Prop := {
  inv_maps : parent_ok maps (ppc st) (cpc st) (parent_end st) (written st);
  inv_child : child_end st = true <-> cpc st = CClose;
  inv_released : released (cpc st) -> parent_end st = false
}.

Lemma fire_inv maps e st st' : inv maps st -> fire e st = Some st' -> inv maps st'.
Proof.
  intros [H1 H2 H3] Hf. destruct st as [p c pe ce w]. unfold released in *. simpl in *.
  destruct e as [[]| |]; simpl in Hf.
  - unfold run_parent in Hf. destruct p as [[|m rest]| | |k]; simpl in Hf; simplify_eq; simpl in H1.
    + rewrite app_nil_r in H1. destruct H1 as [-> ->]. split; simpl; [done|done|done].
    + split; simpl; [|done|done]. destruct H1 as [-> ->]. split; [done|]. by rewrite <-(assoc_L (++)).
    + destruct H1 as [-> ->]. split; simpl; [done|done|done].
    + destruct c; simplify_eq. destruct H1 as [-> ->]. split; simpl; [by eauto|done|done].
  - unfold run_child in Hf. destruct c; simpl in Hf.
    + simplify_eq. split; simpl; [by eapply child_live; [|exact H1]|done|by intros [_ []]].
    + destruct pe, ce; simplify_eq/=. split; simpl; [by eapply child_live; [|exact H1]|done|done].
    + simplify_eq. split; simpl; [by eapply child_live; [|exact H1]|by split; [intros ?%H2|]|by intros _; apply H3].
    + simplify_eq. split; simpl; [|by split; [intros ?%H2|]|by intros _; apply H3].
      destruct p as [| | |[]]; try done. destruct H1 as (? & ? & _). split_and!; [done|done|by eexists].
    + done.
  - destruct p as [rest| | |]; simplify_eq. destruct H1 as [_ ->].
    split; simpl; [|done|done]. split_and!; [done..|]. by apply prefix_app_r.
  - assert (Hst : c = CPerform /\ st' = State p (CExit EXIT_FAILURE) pe ce w)
      by by destruct p, c; simplify_eq.
    destruct Hst as [-> ->].
    split; simpl; [by eapply child_live; [|exact H1]|by split; [intros ?%H2|]|by intros _; apply H3].
Qed.

Lemma sync_reachable_inv maps st : reachable fire (start maps) st -> inv maps st.
Proof. apply reachable_ind_inv; [by split; simpl; [done|done|intros [[] ?]]|]. intros e. apply fire_inv. Qed.

Definition parent_work (p : parent_pc) : Z :=
  match p with PMaps rest => 3 + Z.of_nat (length rest) | PClose => 2 | PWait => 1 | PExit _ => 0 end.
Definition child_work (c : child_pc) : Z :=
  match c with CClose => 4 | CRead => 3 | CPerform => 2 | CExec => 1 | CExit _ => 0 end.
Definition work (st : state) : Z := parent_work (ppc st) + child_work (cpc st).

Lemma sync_run_work p st st' : run p st = Some st' -> work st' < work st.
Proof.
  destruct st as [q c pe ce w]. unfold work. destruct p; simpl.
  - unfold run_parent. destruct q as [[|m rest]| | |k]; simpl; intros Hr; simplify_eq/=; try lia.
    destruct c; simplify_eq/=. lia.
  - unfold run_child. destruct c; simpl; intros Hr; simplify_eq/=; try lia. destruct (_ || _); simplify_eq/=. lia.
Qed.

(** Both processes have ended, the child in the command or with an error. *)
Definition both_ended (st : state) : Prop :=
  (exists k, ppc st = PExit k) /\ exists k, cpc st = CExit k.

Lemma sync_progress maps st : inv maps st ->
  (exists p, is_Some (run p st)) \/ (forall p, run p st = None) /\ both_ended st.
Proof.
  intros [H1 H2 H3]. destruct st as [p c pe ce w]. unfold released, both_ended in *. simpl in *.
  assert (Hp : is_Some (run_parent (State p c pe ce w)) -> exists q, is_Some (run q (State p c pe ce w)))
    by by exists Parent.
  assert (Hc : is_Some (run_child (State p c pe ce w)) -> exists q, is_Some (run q (State p c pe ce w)))
    by by exists Child.
  destruct p as [[|m rest]| | |k]; try (left; apply Hp; by eexists).
  - destruct c; try (left; apply Hp; by eexists); try (left; apply Hc; by eexists).
    left. apply Hc. unfold run_child. simpl. destruct H1 as [-> _]. destruct ce; [naive_solver|by eexists].
  - destruct c; try (left; apply Hc; by eexists).
    + left. apply Hc. unfold run_child. simpl. assert (pe = false) as -> by (destruct k; naive_solver).
      destruct ce; [naive_solver|by eexists].
    + right. split; [by intros []|]. split; eauto.
Qed.

(** C22: Whatever happens, the requests and the command of the child start only
    when its parent has written every map or has failed, and every order of
    steps ends with both processes ended: no process waits for ever for the
    pipe or for the other. Without a failure the maps are all there when the
    child goes on. *)
Theorem maps_before_command (maps : list (cstr * cstr)) (st : state) :
  reachable fire (start maps) st ->
  (released (cpc st) -> written st = maps \/ ppc st = PExit EXIT_FAILURE) /\
  written st `prefix_of` maps /\
  always_ends run both_ended st.
Proof.
  intros Hr. pose proof (sync_reachable_inv maps st Hr) as Hi. split_and!.
  - intros Hc. pose proof (inv_released _ _ Hi Hc) as Hpe. pose proof (inv_maps _ _ Hi) as Hm.
    destruct (ppc st) as [| | |[]]; simpl in Hm; destruct_and?; simplify_eq; auto; congruence.
  - by eapply parent_ok_prefix, inv_maps.
  - apply (ends_by_work run (inv maps) _ work); [| | |done].
    + intros s _. unfold work, parent_work, child_work. destruct (ppc s), (cpc s); lia.
    + intros p s s' Hs Hrun. split; [by apply (fire_inv maps (Run p) s)|by eapply sync_run_work].
    + apply sync_progress.
Qed.

Definition demo_maps : list (cstr * cstr) := [(lit "uid_map", lit "0 1000 1"); (lit "gid_map", lit "0 100 1")].
Definition demo_events : list event :=
  [Run Child; Run Parent; Run Parent; Run Parent; Run Parent; Run Child].
Definition demo_state : state := default (start []) (run_all fire demo_events (start demo_maps)).

Lemma maps_before_command_witness :
  cpc demo_state = CPerform /\
  (released (cpc demo_state) -> written demo_state = demo_maps \/ ppc demo_state = PExit EXIT_FAILURE) /\
  written demo_state `prefix_of` demo_maps /\ always_ends run both_ended demo_state.
Proof.
  split; [done|]. apply (maps_before_command demo_maps demo_state).
  apply (run_all_reachable fire demo_events _ (start demo_maps)); [apply reach_start|by vm_compute].
Defined.

(** A parent that cannot write the first map ends, which closes the pipe: the
    child goes on and executes the command without its maps. *)
Example command_without_maps :
  exists st, run_all fire [Run Child; ParentFails; Run Child; Run Child; Run Child] (start demo_maps) = Some st /\
    cpc st = CExit EXECED /\ written st = [].
Proof. eexists. split; [vm_compute; reflexivity|done]. Qed.
