(* ===== verification/NsRun.v ===== *)
(** The programs of src/tlpi-dist/namespaces that run a command in other
    namespaces: unshare.c, ns_exec.c, ns_run.c and ns_child_exec.c. [getopt] is
    the list of the options it returns, and the operands.

    [who] says whose run is described: after a fork or a clone the two processes
    go on in kernel states of their own, the child in that which the call makes
    for it. Without a child there is only the parent. *)
From Stdlib Require Import ZArith Lia Ascii String.
From stdpp Require Import base tactics list strings gmap.
From S2P Require Import Prelude CString Process UsernsExec.
#[local] Open Scope Z_scope.

Inductive whose := Parent | Child.

Definition CLONE_NEWTIME : Z := 128.

(** [os_open] has the flags O_RDONLY | O_CLOEXEC. A fork or clone gives the
    identifier and the state of the child; execvp [None] when the command runs
    instead. *)
Class NsOS (K : Type) := {
  os_unshare : K -> Z -> K * (Z + unit);
  os_open : K -> cstr -> K * (Z + Z);
  os_setns : K -> Z -> Z -> K * (Z + unit);
  os_close : K -> Z -> K;
  os_fork : K -> K * (Z + (Z * K));
  os_mmap : K -> Z -> K * (Z + Z);
  os_munmap : K -> Z -> Z -> K;
  os_clone : K -> Z -> Z -> K * (Z + (Z * K));
  os_wait : K -> K * (Z + Z);
  os_waitpid : K -> Z -> K * (Z + Z);
  os_execvp : K -> list cstr -> K * option Z
}.

Section Code.
Context `{ErrnoText} {K : Type} {OS : NsOS K}.
Abbreviation PM := (M (proc K)).

(** fork, in the process [who]: -1, 0 in the child, its identifier in the parent. *)
Definition fork (who : whose) : PM Z := fun s =>
  match os_fork (kern s) with
  | (k, inl e) => Ret (-1) (set_errno e (set_kern k s))
  | (k, inr (pid, kc)) =>
      match who with Parent => Ret pid (set_kern k s) | Child => Ret 0 (set_kern kc s) end
  end.

(** [execvp(argv[0], argv); errExit("execvp");] *)
Definition execute {A} (argv : list cstr) : PM A :=
  let! r := syscall_ (fun k => os_execvp k argv) in
  match r with
  | None => exit EXECED
  | Some e => modify (set_errno e) ;;; perror_exit (lit "execvp")
  end.

Definition with_newline (t : cstr) : cstr := t ++ [NEWLINE].

(** ** unshare.c *)

Definition unshare_usage {A} (pname : cstr) : PM A :=
  puterr (with_newline (lit "Usage: " ++ pname ++ lit " [options] cmd [arg...]")) ;;;
  puterr (with_newline (lit "Options can be:")) ;;;
  puterr (with_newline (lit "    -f   fork() before executing cmd (useful when unsharing PID namespace)")) ;;;
  puterr (with_newline (lit "    -C   unshare cgroup namespace")) ;;;
  puterr (with_newline (lit "    -i   unshare IPC namespace")) ;;;
  puterr (with_newline (lit "    -m   unshare mount namespace")) ;;;
  puterr (with_newline (lit "    -n   unshare network namespace")) ;;;
  puterr (with_newline (lit "    -p   unshare PID namespace")) ;;;
  puterr (with_newline (lit "    -T   unshare time namespace")) ;;;
  puterr (with_newline (lit "    -u   unshare UTS namespace")) ;;;
  puterr (with_newline (lit "    -U   unshare user namespace")) ;;;
  exit3 EXIT_FAILURE.

(** The cases that set a flag. *)
Definition unshare_flags : list (ascii * Z) :=
  [("C", CLONE_NEWCGROUP); ("i", CLONE_NEWIPC); ("m", CLONE_NEWNS); ("n", CLONE_NEWNET); ("p", CLONE_NEWPID);
   ("T", CLONE_NEWTIME); ("u", CLONE_NEWUTS); ("U", CLONE_NEWUSER)]%char.

Fixpoint unshare_options (pname : cstr) (opts : list option_arg) (flags : Z) (do_fork : bool) : PM (Z * bool) :=
  match opts with
  | [] => ret (flags, do_fork)
  | Opt c _ :: opts =>
      if bool_decide (c = "f"%char) then unshare_options pname opts flags true
      else match case_of c unshare_flags with
           | Some flag => unshare_options pname opts (Z.lor flags flag) do_fork
           | None => unshare_usage pname
           end
  end.

Definition unshare_main (who : whose) (pname : cstr) (opts : list option_arg) (operands : list cstr) : PM unit :=
  let! (flags, do_fork) := unshare_options pname opts 0 false in
  when (bool_decide (operands = [])) (unshare_usage pname) ;;;
  let! r := syscall (fun k => os_unshare k flags) in
  match r with
  | None => perror_exit (lit "unshare")
  | Some _ =>
      when do_fork
        (let! pid := fork who in
         when (negb (pid =? 0))
           (let! w := syscall os_wait in exit3 EXIT_SUCCESS)) ;;;
      execute operands
  end.

(** ** ns_exec.c *)

Definition ns_exec_usage {A} (pname : cstr) : PM A :=
  puterr (with_newline (pname ++ lit " [-f] /proc/PID/ns/FILE cmd [arg...]")) ;;;
  puterr (with_newline (lit "    -f  Do a fork() after entering the namespace")) ;;;
  exit3 EXIT_FAILURE.

Fixpoint ns_exec_options (pname : cstr) (opts : list option_arg) (do_fork : bool) : PM bool :=
  match opts with
  | [] => ret do_fork
  | Opt c _ :: opts =>
      if bool_decide (c = "f"%char) then ns_exec_options pname opts true else ns_exec_usage pname
  end.

(** A descriptor for the namespace, and joining it. *)
Definition open_and_join (file : cstr) : PM Z :=
  let! fd := syscall (fun k => os_open k file) in
  match fd with
  | None => perror_exit (lit "open")
  | Some fd =>
      let! r := syscall (fun k => os_setns k fd 0) in
      match r with None => perror_exit (lit "setns") | Some _ => ret fd end
  end.

Definition ns_exec (who : whose) (pname : cstr) (opts : list option_arg) (operands : list cstr) : PM unit :=
  let! do_fork := ns_exec_options pname opts false in
  match operands with
  | file :: (command :: args) =>
      let! fd := open_and_join file in
      when do_fork
        (let! pid := fork who in
         when (pid =? -1) (perror_exit (lit "fork")) ;;;
         when (negb (pid =? 0))
           (let! w := syscall os_wait in exit3 EXIT_SUCCESS)) ;;;
      execute (command :: args)
  | _ => ns_exec_usage pname
  end.

(** ** ns_run.c *)

Definition ns_run_usage {A} (pname : cstr) : PM A :=
  puterr (with_newline (lit "Usage: " ++ pname ++ lit " [-f] [-n /proc/PID/ns/FILE] cmd [arg...]")) ;;;
  puterr (TAB :: with_newline (lit "-f     Execute command in child process")) ;;;
  puterr (TAB :: with_newline (lit "-n     Join specified namespace")) ;;;
  exit3 EXIT_FAILURE.

Fixpoint ns_run_options (pname : cstr) (opts : list option_arg) (do_fork : bool) : PM bool :=
  match opts with
  | [] => ret do_fork
  | Opt c optarg :: opts =>
      if bool_decide (c = "n"%char) then
        let! fd := open_and_join optarg in
        modify (fun s => set_kern (os_close (kern s) fd) s) ;;;
        ns_run_options pname opts do_fork
      else if bool_decide (c = "f"%char) then ns_run_options pname opts true
      else ns_run_usage pname
  end.

Definition ns_run (who : whose) (pname : cstr) (opts : list option_arg) (operands : list cstr) : PM unit :=
  let! do_fork := ns_run_options pname opts false in
  when (bool_decide (operands = [])) (ns_run_usage pname) ;;;
  when do_fork
    (let! pid := fork who in
     when (pid =? -1) (perror_exit (lit "fork")) ;;;
     when (negb (pid =? 0))
       (let! w := syscall (fun k => os_waitpid k pid) in
        match w with None => perror_exit (lit "waitpid") | Some _ => exit3 EXIT_SUCCESS end)) ;;;
  execute operands.

(** ** ns_child_exec.c *)

Definition ns_child_usage {A} (pname : cstr) : PM A :=
  puterr (with_newline (lit "Usage: " ++ pname ++ lit " [options] cmd [arg...]")) ;;;
  puterr (with_newline (lit "Options can be:")) ;;;
  puterr (with_newline (lit "    -C   new cgroup namespace")) ;;;
  puterr (with_newline (lit "    -i   new IPC namespace")) ;;;
  puterr (with_newline (lit "    -m   new mount namespace")) ;;;
  puterr (with_newline (lit "    -n   new network namespace")) ;;;
  puterr (with_newline (lit "    -p   new PID namespace")) ;;;
  puterr (with_newline (lit "    -u   new UTS namespace")) ;;;
  puterr (with_newline (lit "    -U   new user namespace")) ;;;
  puterr (with_newline (lit "    -v   Display verbose messages")) ;;;
  exit3 EXIT_FAILURE.

Definition ns_child_flags : list (ascii * Z) :=
  [("C", CLONE_NEWCGROUP); ("i", CLONE_NEWIPC); ("m", CLONE_NEWNS); ("n", CLONE_NEWNET); ("p", CLONE_NEWPID);
   ("u", CLONE_NEWUTS); ("U", CLONE_NEWUSER)]%char.

Fixpoint ns_child_options (pname : cstr) (opts : list option_arg) (flags : Z) (verbose : bool) : PM (Z * bool) :=
  match opts with
  | [] => ret (flags, verbose)
  | Opt c _ :: opts =>
      match case_of c ns_child_flags with
      | Some flag => ns_child_options pname opts (Z.lor flags flag) verbose
      | None => if bool_decide (c = "v"%char) then ns_child_options pname opts flags true else ns_child_usage pname
      end
  end.

Definition ns_childFunc {A} (argv : list cstr) : PM A := execute argv.

Definition SIGCHLD : Z := 17.

(** clone, in the process [who]; the child, which has a copy of the memory,
    runs [fn]. *)
Definition clone (who : whose) (fn : PM (option Z)) (stack flags : Z) : PM (option Z) := fun s =>
  match os_clone (kern s) stack flags with
  | (k, inl e) => Ret None (set_errno e (set_kern k s))
  | (k, inr (pid, kc)) =>
      match who with Parent => Ret (Some pid) (set_kern k s) | Child => fn (set_kern kc s) end
  end.

Definition ns_child_exec (who : whose) (pname : cstr) (opts : list option_arg) (operands : list cstr) : PM unit :=
  let! (flags, verbose) := ns_child_options pname opts 0 false in
  when (bool_decide (operands = [])) (ns_child_usage pname) ;;;
  let! stack := syscall (fun k => os_mmap k STACK_SIZE) in
  match stack with
  | None => perror_exit (lit "mmap")
  | Some stack =>
      let! child_pid := clone who (ns_childFunc operands) (stack + STACK_SIZE) (Z.lor flags SIGCHLD) in
      match child_pid with
      | None => perror_exit (lit "clone")
      | Some child_pid =>
          when verbose
            (putout (with_newline (pname ++ lit ": PID of child created by clone() is " ++ show_Z child_pid))) ;;;
          modify (fun s => set_kern (os_munmap (kern s) stack STACK_SIZE) s) ;;;
          let! w := syscall (fun k => os_waitpid k child_pid) in
          match w with
          | None => perror_exit (lit "waitpid")
          | Some _ =>
              when verbose (putout (with_newline (pname ++ lit ": terminating"))) ;;;
              exit3 EXIT_SUCCESS
          end
      end
  end.

End Code.

(** ** Namespaces and files of a process *)

(** What a process has done: the calls that succeeded, in order. *)
Inductive ns_event :=
| Unshared (flags : Z)
| Joined (file : option cstr)
| Forked (pid : Z)
| ForkedFrom
| Cloned (flags pid : Z)
| ClonedFrom (flags : Z)
| Waited (pid : Z)
| Executed (argv : list cstr).

(** The descriptors that stay open when a command runs: those without the
    close-on-exec flag. *)
Definition kept (m : gmap Z (cstr * bool)) : gmap Z (cstr * bool) := filter (fun x => x.2.2 = false) m.

(** [files] has the file and the close-on-exec flag of each open descriptor. *)
Class NsView (K : Type) := { history : K -> list ns_event; files : K -> gmap Z (cstr * bool) }.

Definition effect {K : Type} {NV : NsView K} (k k' : K) (evs : list ns_event) : Prop :=
  history k' = history k ++ evs /\ files k' = files k.

(** The documented effects of these calls on the process and, for fork and
    clone, on the child. *)
Class NsLaws (K : Type) {OS : NsOS K} {NV : NsView K} := {
  nl_unshare k flags : match os_unshare k flags with
    | (k', inl _) => effect k k' [] | (k', inr _) => effect k k' [Unshared flags] end;
  nl_open k file : match os_open k file with
    | (k', inl _) => effect k k' []
    | (k', inr fd) => history k' = history k /\ files k !! fd = None /\ files k' = <[fd := (file, true)]> (files k) end;
  nl_setns k fd : match os_setns k fd 0 with
    | (k', inl _) => effect k k' [] | (k', inr _) => effect k k' [Joined (fst <$> files k !! fd)] end;
  nl_close k fd : history (os_close k fd) = history k /\ files (os_close k fd) = delete fd (files k);
  nl_fork k : match os_fork k with
    | (k', inl _) => effect k k' []
    | (k', inr (pid, kc)) => 0 < pid /\ effect k k' [Forked pid] /\ effect k kc [ForkedFrom] end;
  nl_mmap k n : effect k (os_mmap k n).1 [];
  nl_munmap k a n : effect k (os_munmap k a n) [];
  nl_clone k stack flags : match os_clone k stack flags with
    | (k', inl _) => effect k k' []
    | (k', inr (pid, kc)) => effect k k' [Cloned flags pid] /\ effect k kc [ClonedFrom flags] end;
  nl_wait k : match os_wait k with
    | (k', inl _) => effect k k' [] | (k', inr pid) => effect k k' [Waited pid] end;
  nl_waitpid k pid : match os_waitpid k pid with
    | (k', inl _) => effect k k' [] | (k', inr _) => effect k k' [Waited pid] end;
  nl_execvp k argv : match os_execvp k argv with
    | (k', None) => history k' = history k ++ [Executed argv] /\ files k' = kept (files k)
    | (k', Some _) => effect k k' [] end
}.

Section Props.
Context `{ET : ErrnoText} {K : Type} {OS : NsOS K} {NV : NsView K} {NL : NsLaws K}.
Implicit Types (s : proc K).

(** What has been done since [s], and without running a command. *)
Definition so_far s (evs : list ns_event) s1 : Prop :=
  history (kern s1) = history (kern s) ++ evs /\ (forall argv, Executed argv ∉ evs) /\
  kept (files (kern s1)) = kept (files (kern s)).

(** The ends of a program: the command runs, with the descriptors the program
    was started with; success; failure, when no command has been run. *)
Definition ends s (runs succeeds : list ns_event -> Prop) (e : exit_kind) s' : Prop :=
  exists evs, history (kern s') = history (kern s) ++ evs /\
    match e with
    | EXECED => files (kern s') = kept (files (kern s)) /\ runs evs
    | EXIT_SUCCESS => succeeds evs /\ forall argv, Executed argv ∉ evs
    | EXIT_FAILURE => forall argv, Executed argv ∉ evs
    | _ => False
    end.

Lemma so_far_refl s : so_far s [] s.
Proof. split_and!; [by rewrite app_nil_r|intros argv; apply not_elem_of_nil|done]. Qed.

Lemma so_far_kern s evs s1 s2 : so_far s evs s1 -> kern s2 = kern s1 -> so_far s evs s2.
Proof. intros H Hk. unfold so_far. by rewrite Hk. Qed.

Lemma so_far_effect s evs s1 s2 evs' : so_far s evs s1 -> effect (kern s1) (kern s2) evs' ->
  (forall argv, Executed argv ∉ evs') -> so_far s (evs ++ evs') s2.
Proof.
  intros (H1 & H2 & H3) [He Hf] Hn. split_and!; [by rewrite He, H1, app_assoc| |by rewrite Hf].
  intros argv. rewrite elem_of_app. intros [H|H]; [by eapply H2|by eapply Hn].
Qed.

Lemma so_far_quiet s evs s1 s2 : so_far s evs s1 -> effect (kern s1) (kern s2) [] -> so_far s evs s2.
Proof. intros H He. rewrite <-(app_nil_r evs). eapply so_far_effect; [done|done|]. intros argv. apply not_elem_of_nil. Qed.

Lemma wp_ns_exit3 {A} k s evs s1 (Q : A -> proc K -> Prop) (R S : list ns_event -> Prop) :
  so_far s evs s1 -> k = EXIT_FAILURE \/ k = EXIT_SUCCESS /\ S evs -> wp (exit3 k) Q (ends s R S) s1.
Proof.
  intros (H1 & H2 & H3) Hk. apply wp_exit3. intros s2 Hs. exists evs. rewrite Hs. by destruct Hk as [->|[-> HS]].
Qed.

Lemma wp_ns_perror {A} msg s evs s1 (Q : A -> proc K -> Prop) (R S : list ns_event -> Prop) :
  so_far s evs s1 -> wp (perror_exit msg) Q (ends s R S) s1.
Proof. intros (H1 & H2 & H3). apply wp_perror_exit. intros s2 Hs. exists evs. by rewrite Hs. Qed.

(** A line on standard error changes nothing. *)
Lemma wp_ns_puterr {A} t (m : M (proc K) A) s evs s1 Q (R S : list ns_event -> Prop) :
  so_far s evs s1 -> (forall s2, so_far s evs s2 -> wp m Q (ends s R S) s2) -> wp (puterr t ;;; m) Q (ends s R S) s1.
Proof. intros H Hm. apply wp_bind, wp_puterr. intros s2 Hk _. by eapply Hm, so_far_kern. Qed.

Lemma wp_execute {A} argv s evs s1 (Q : A -> proc K -> Prop) (R S : list ns_event -> Prop) :
  so_far s evs s1 -> R (evs ++ [Executed argv]) -> wp (execute argv) Q (ends s R S) s1.
Proof.
  intros H HR. apply wp_bind, wp_syscall_. pose proof (nl_execvp (kern s1) argv) as Hl.
  destruct (os_execvp (kern s1) argv) as [k [e|]]; cbn [fst snd].
  - apply wp_bind, wp_modify. eapply wp_ns_perror, so_far_quiet; [exact H|exact Hl].
  - apply wp_exit. destruct H as (H1 & _ & H3), Hl as [Hh Hf]. exists (evs ++ [Executed argv]). cbn [kern set_kern].
    by rewrite Hh, H1, Hf, H3, app_assoc.
Qed.

Definition harmless (evs : list ns_event) : Prop := forall argv, Executed argv ∉ evs.
Lemma harmless_1 ev : (match ev with Executed _ => False | _ => True end) -> harmless [ev].
Proof. intros H argv Hin. by apply list_elem_of_singleton in Hin as <-. Qed.

Lemma wp_ns_call {A} (call : K -> K * (Z + A)) (done_by : A -> list ns_event) s evs s1 (Q : option A -> proc K -> Prop) E :
  so_far s evs s1 ->
  (match call (kern s1) with (k, inl _) => effect (kern s1) k [] | (k, inr a) => effect (kern s1) k (done_by a) end) ->
  (forall a, harmless (done_by a)) ->
  (forall s2, so_far s evs s2 -> Q None s2) -> (forall a s2, so_far s (evs ++ done_by a) s2 -> Q (Some a) s2) ->
  wp (syscall call) Q E s1.
Proof.
  intros H Hl Hh HN HS. apply wp_syscall; intros k a Hk; rewrite Hk in Hl; [eapply HN, so_far_quiet|eapply HS, so_far_effect];
    [exact H|exact Hl|exact H|exact Hl|apply Hh].
Qed.

Lemma wp_ns_fork who s evs s1 (Q : Z -> proc K -> Prop) E :
  so_far s evs s1 -> (forall s2, so_far s evs s2 -> Q (-1) s2) ->
  (forall pid s2, who = Parent -> 0 < pid -> so_far s (evs ++ [Forked pid]) s2 -> Q pid s2) ->
  (forall s2, who = Child -> so_far s (evs ++ [ForkedFrom]) s2 -> Q 0 s2) -> wp (fork who) Q E s1.
Proof.
  intros H HN HP HC. unfold wp, fork. pose proof (nl_fork (kern s1)) as Hl.
  destruct (os_fork (kern s1)) as [k [e|[pid kc]]]; [by eapply HN, so_far_quiet|]. destruct Hl as (Hpid & Hp & Hc).
  destruct who; [eapply HP; [done..|]|eapply HC; [done|]]; (eapply so_far_effect; [exact H|done|by apply harmless_1]).
Qed.

Lemma wp_open_and_join file s evs s1 (Q : Z -> proc K -> Prop) (R S : list ns_event -> Prop) :
  so_far s evs s1 ->
  (forall fd s2, so_far s (evs ++ [Joined (Some file)]) s2 -> files (kern s1) !! fd = None ->
     files (kern s2) = <[fd := (file, true)]> (files (kern s1)) -> Q fd s2) ->
  wp (open_and_join file) Q (ends s R S) s1.
Proof.
  intros (H1 & H2 & H3) HQ. apply wp_bind. pose proof (nl_open (kern s1) file) as Ho.
  apply wp_syscall; intros k fd Hk; rewrite Hk in Ho; [by eapply wp_ns_perror, so_far_quiet|]. destruct Ho as (Ho1 & Ho2 & Ho3).
  assert (Hs : so_far s evs (set_kern k s1)).
  { split_and!; [cbn; congruence|done|]. cbn [kern set_kern]. rewrite Ho3, <-H3. unfold kept.
    apply map_filter_insert_not'; [done|]. intros y Hy. congruence. }
  apply wp_bind. pose proof (nl_setns k fd) as Hl. rewrite Ho3, lookup_insert_eq in Hl. cbn [fmap option_fmap option_map fst] in Hl.
  apply wp_syscall; intros k' u Hk'; cbn [kern set_kern] in Hk'; rewrite Hk' in Hl; [by eapply wp_ns_perror, so_far_quiet|].
  apply wp_ret, HQ; [|done|destruct Hl as [_ Hf]; cbn; congruence]. eapply so_far_effect; [exact Hs|exact Hl|by apply harmless_1].
Qed.

(** ** Options *)

Definition letters (opts : list option_arg) : cstr := (fun '(Opt c _) => c) <$> opts.
Definition given (c : ascii) (opts : list option_arg) : bool := bool_decide (c ∈ letters opts).

(** The flags of the options, one of which, [other], stands for none: each flag
    is there exactly when its letter is an option, and there are no others. *)
Definition flags_requested (cases : list (ascii * Z)) (other : ascii) (opts : list option_arg) (flags : Z) : Prop :=
  (forall c, c ∈ letters opts -> c = other \/ is_Some (case_of c cases)) /\
  flags = letter_flags cases (filter (fun c => c <> other) (letters opts)) /\
  forall c flag, (c, flag) ∈ cases -> has_bit flags flag = true <-> c ∈ letters opts.

Lemma given_cons c c' arg opts : given c (Opt c' arg :: opts) = bool_decide (c = c') || given c opts.
Proof. unfold given. cbn. apply eq_bool_prop_intro. rewrite orb_True, !bool_decide_spec, elem_of_cons. done. Qed.

Lemma flags_requested_intro cases other opts :
  own_bits cases -> case_of other cases = None -> (forall c flag, (c, flag) ∈ cases -> c <> other) ->
  (forall c, c ∈ letters opts -> c = other \/ is_Some (case_of c cases)) ->
  flags_requested cases other opts (letter_flags cases (filter (fun c => c <> other) (letters opts))).
Proof.
  intros Hown Hno Hother Hall. split_and!; [done|done|]. intros c flag Hc.
  rewrite letter_flags_bit; [|done..|].
  - rewrite list_elem_of_filter. naive_solver.
  - apply Forall_forall. intros d [Hd Hin]%list_elem_of_filter. destruct (Hall d Hin); [done|done].
Qed.

Lemma unshare_own_bits : own_bits unshare_flags.
Proof. unfold own_bits. apply (bool_decide_unpack _). vm_compute. exact I. Qed.
Lemma ns_child_own_bits : own_bits ns_child_flags.
Proof. unfold own_bits. apply (bool_decide_unpack _). vm_compute. exact I. Qed.

Lemma wp_unshare_usage {A} pname s evs s1 (Q : A -> proc K -> Prop) (R S : list ns_event -> Prop) :
  so_far s evs s1 -> wp (unshare_usage pname) Q (ends s R S) s1.
Proof. intros H. do 11 (eapply wp_ns_puterr; [exact H|]; clear dependent s1; intros s1 H). eapply wp_ns_exit3; [exact H|by left]. Qed.

Lemma wp_ns_child_usage {A} pname s evs s1 (Q : A -> proc K -> Prop) (R S : list ns_event -> Prop) :
  so_far s evs s1 -> wp (ns_child_usage pname) Q (ends s R S) s1.
Proof. intros H. do 10 (eapply wp_ns_puterr; [exact H|]; clear dependent s1; intros s1 H). eapply wp_ns_exit3; [exact H|by left]. Qed.

Lemma wp_ns_exec_usage {A} pname s evs s1 (Q : A -> proc K -> Prop) (R S : list ns_event -> Prop) :
  so_far s evs s1 -> wp (ns_exec_usage pname) Q (ends s R S) s1.
Proof. intros H. do 2 (eapply wp_ns_puterr; [exact H|]; clear dependent s1; intros s1 H). eapply wp_ns_exit3; [exact H|by left]. Qed.

Lemma wp_ns_run_usage {A} pname s evs s1 (Q : A -> proc K -> Prop) (R S : list ns_event -> Prop) :
  so_far s evs s1 -> wp (ns_run_usage pname) Q (ends s R S) s1.
Proof. intros H. do 3 (eapply wp_ns_puterr; [exact H|]; clear dependent s1; intros s1 H). eapply wp_ns_exit3; [exact H|by left]. Qed.

Lemma wp_unshare_options pname opts flags fork s evs s1 (Q : Z * bool -> proc K -> Prop) (R S : list ns_event -> Prop) :
  so_far s evs s1 ->
  ((forall c, c ∈ letters opts -> c = "f"%char \/ is_Some (case_of c unshare_flags)) ->
   Q (Z.lor flags (letter_flags unshare_flags (filter (fun c => c <> "f"%char) (letters opts))), fork || given "f" opts) s1) ->
  wp (unshare_options pname opts flags fork) Q (ends s R S) s1.
Proof.
  intros Hs. revert flags fork. induction opts as [|[c arg] opts IH]; intros flags fork HQ; cbn [unshare_options].
  { apply wp_ret. cbn in HQ. rewrite Z.lor_0_r, orb_false_r in HQ. apply HQ. by intros c ?%elem_of_nil. }
  rewrite given_cons in HQ. cbn [letters fmap list_fmap] in HQ. fold (letters opts) in HQ. rewrite filter_cons in HQ.
  destruct (decide (c = "f"%char)) as [->|Hc].
  - cbn in HQ |- *. apply IH. intros Hall. rewrite orb_true_l. rewrite orb_true_r in HQ. apply HQ. intros d [->|Hd]%elem_of_cons; auto.
  - rewrite bool_decide_eq_false_2 in HQ |- * by done. rewrite decide_True in HQ by done.
    destruct (case_of c unshare_flags) as [flag|] eqn:Hcase; [|by eapply wp_unshare_usage]. apply IH. intros Hall.
    cbn [letter_flags foldr] in HQ. rewrite Hcase in HQ. cbn [default] in HQ. rewrite Z.lor_assoc in HQ. apply HQ.
    intros d [->|Hd]%elem_of_cons; [right; by eexists|auto].
Qed.

Lemma wp_ns_child_options pname opts flags verbose s evs s1 (Q : Z * bool -> proc K -> Prop) (R S : list ns_event -> Prop) :
  so_far s evs s1 ->
  ((forall c, c ∈ letters opts -> c = "v"%char \/ is_Some (case_of c ns_child_flags)) ->
   Q (Z.lor flags (letter_flags ns_child_flags (filter (fun c => c <> "v"%char) (letters opts))), verbose || given "v" opts) s1) ->
  wp (ns_child_options pname opts flags verbose) Q (ends s R S) s1.
Proof.
  intros Hs. revert flags verbose. induction opts as [|[c arg] opts IH]; intros flags verbose HQ; cbn [ns_child_options].
  { apply wp_ret. cbn in HQ. rewrite Z.lor_0_r, orb_false_r in HQ. apply HQ. by intros c ?%elem_of_nil. }
  rewrite given_cons in HQ. cbn [letters fmap list_fmap] in HQ. fold (letters opts) in HQ. rewrite filter_cons in HQ.
  destruct (decide (c = "v"%char)) as [->|Hc].
  - cbn in HQ |- *. apply IH. intros Hall. rewrite orb_true_l. rewrite orb_true_r in HQ. apply HQ. intros d [->|Hd]%elem_of_cons; auto.
  - rewrite (bool_decide_eq_false_2 (c = "v"%char)) by done. rewrite bool_decide_eq_false_2, decide_True in HQ by done.
    destruct (case_of c ns_child_flags) as [flag|] eqn:Hcase; [|by eapply wp_ns_child_usage]. apply IH. intros Hall.
    cbn [letter_flags foldr] in HQ. rewrite Hcase in HQ. cbn [default] in HQ. rewrite Z.lor_assoc in HQ. apply HQ.
    intros d [->|Hd]%elem_of_cons; [right; by eexists|auto].
Qed.

Lemma wp_ns_exec_options pname opts fork s evs s1 (Q : bool -> proc K -> Prop) (R S : list ns_event -> Prop) :
  so_far s evs s1 -> ((forall c, c ∈ letters opts -> c = "f"%char) -> Q (fork || given "f" opts) s1) ->
  wp (ns_exec_options pname opts fork) Q (ends s R S) s1.
Proof.
  intros Hs. revert fork. induction opts as [|[c arg] opts IH]; intros fork HQ; cbn [ns_exec_options].
  { apply wp_ret. rewrite orb_false_r in HQ. apply HQ. by intros c ?%elem_of_nil. }
  rewrite given_cons in HQ. destruct (decide (c = "f"%char)) as [->|Hc].
  - cbn in HQ |- *. apply IH. intros Hall. rewrite orb_true_l. rewrite orb_true_r in HQ. apply HQ. intros d [->|Hd]%elem_of_cons; auto.
  - rewrite bool_decide_eq_false_2 by done. by eapply wp_ns_exec_usage.
Qed.

(** The files of the options -n. *)
Definition files_named (opts : list option_arg) : list cstr :=
  opts ≫= fun '(Opt c arg) => if bool_decide (c = "n"%char) then [arg] else [].

Lemma wp_ns_run_options pname opts fork s evs s1 (Q : bool -> proc K -> Prop) (R S : list ns_event -> Prop) :
  so_far s evs s1 ->
  ((forall c, c ∈ letters opts -> c = "n"%char \/ c = "f"%char) ->
   forall s2, so_far s (evs ++ (Joined ∘ Some <$> files_named opts)) s2 -> files (kern s2) = files (kern s1) ->
   Q (fork || given "f" opts) s2) ->
  wp (ns_run_options pname opts fork) Q (ends s R S) s1.
Proof.
  revert evs s1 fork. induction opts as [|[c arg] opts IH]; intros evs s1 fork Hs HQ; cbn [ns_run_options].
  { apply wp_ret. rewrite orb_false_r in HQ. apply HQ; [by intros c ?%elem_of_nil|by rewrite app_nil_r|done]. }
  rewrite given_cons in HQ. destruct (decide (c = "n"%char)) as [->|Hn].
  - rewrite bool_decide_eq_true_2 by done. eapply wp_bind, wp_open_and_join; [exact Hs|]. intros fd s2 Hs2 Hnew Hf.
    apply wp_bind, wp_modify. pose proof (nl_close (kern s2) fd) as [Hc1 Hc2].
    assert (Hback : files (os_close (kern s2) fd) = files (kern s1)) by by rewrite Hc2, Hf, delete_insert_id.
    eapply IH; [|intros Hall s3 Hs3 Hf3; apply HQ].
    + destruct Hs2 as (Ha & Hb & _), Hs as (_ & _ & Hd). split_and!; [cbn; by rewrite Hc1|done|cbn; by rewrite Hback].
    + intros d [->|Hd]%elem_of_cons; auto.
    + rewrite <-app_assoc in Hs3. exact Hs3.
    + rewrite Hf3. exact Hback.
  - rewrite (bool_decide_eq_false_2 (c = "n"%char)) by done. destruct (decide (c = "f"%char)) as [->|Hc].
    + rewrite bool_decide_eq_true_2 by done. eapply IH; [exact Hs|]. intros Hall s2 Hs2 Hf2. cbn in HQ. rewrite orb_true_r in HQ.
      apply HQ; [intros d [->|Hd]%elem_of_cons; auto|done|done].
    + rewrite bool_decide_eq_false_2 by done. by eapply wp_ns_run_usage.
Qed.

Lemma wp_wait_then_end {A} s evs s1 (Q : A -> proc K -> Prop) (R S : list ns_event -> Prop) :
  so_far s evs s1 -> S evs -> (forall pid, S (evs ++ [Waited pid])) ->
  wp (let! w := syscall os_wait in exit3 EXIT_SUCCESS) Q (ends s R S) s1.
Proof.
  intros H H1 H2. eapply wp_bind, (wp_ns_call _ (fun pid => [Waited pid])); [exact H|apply nl_wait|intros ?; by apply harmless_1|..].
  - intros s2 Hs2. eapply wp_ns_exit3; [exact Hs2|by right].
  - intros pid s2 Hs2. eapply wp_ns_exit3; [exact Hs2|by right].
Qed.

Lemma wp_clone who argv stack flags s evs s1 (Q : option Z -> proc K -> Prop) (R S : list ns_event -> Prop) :
  so_far s evs s1 -> (forall s2, so_far s evs s2 -> Q None s2) ->
  (forall pid s2, who = Parent -> so_far s (evs ++ [Cloned flags pid]) s2 -> Q (Some pid) s2) ->
  (who = Child -> R ((evs ++ [ClonedFrom flags]) ++ [Executed argv])) ->
  wp (clone who (ns_childFunc argv) stack flags) Q (ends s R S) s1.
Proof.
  intros H HN HP HC. pose proof (nl_clone (kern s1) stack flags) as Hl. unfold wp, clone.
  destruct (os_clone _ _ _) as [k [e|[pid kc]]]; [by eapply HN, so_far_quiet|]. destruct Hl as [Hp Hc]. destruct who.
  - eapply HP, so_far_effect; [done|exact H|exact Hp|by apply harmless_1].
  - eapply (wp_execute (A := option Z)), HC; [|done]. eapply so_far_effect; [exact H|exact Hc|by apply harmless_1].
Qed.

Lemma wp_when_putout b t s evs s1 (E : exit_kind -> proc K -> Prop) :
  so_far s evs s1 -> wp (when b (putout t)) (fun _ => so_far s evs) E s1.
Proof. intros H. apply wp_when_inv; [done|]. intros _. apply wp_putout. intros s2 Hk _. by eapply so_far_kern. Qed.

(** ** What the commands run with *)

Definition in_child (b : bool) : list ns_event := if b then [ForkedFrom] else [].

(** A parent that has waited for a child, or has tried to. *)
Definition parent_waited (evs : list ns_event) : Prop :=
  exists pid, evs = [Forked pid] \/ exists p, evs = [Forked pid; Waited p].

(** unshare, without undefined behaviour, runs its command with the descriptors
    it was started with and after unsharing exactly the namespaces that its
    options name, in a child when -f is given; or it reports an error and has
    run nothing; or it is the parent of that child and ends with success. It
    also ends with success, having run nothing, when there is no child because
    fork has failed. *)
Theorem unshare_runs who pname opts operands s :
  wp (unshare_main who pname opts operands) (fun _ _ => False)
    (ends s (fun evs => operands <> [] /\ exists flags, flags_requested unshare_flags "f" opts flags /\
               evs = Unshared flags :: in_child (given "f" opts) ++ [Executed operands])
            (fun evs => given "f" opts = true /\ exists flags others, flags_requested unshare_flags "f" opts flags /\
               evs = Unshared flags :: others /\
               (who = Parent /\ parent_waited others \/ others = [] \/ exists p, others = [Waited p]))) s.
Proof.
  eapply wp_bind, wp_unshare_options; [apply so_far_refl|]. intros Hall. cbn beta iota. rewrite Z.lor_0_l, orb_false_l.
  pose proof (flags_requested_intro unshare_flags "f" opts unshare_own_bits eq_refl) as Hflags.
  set (flags := letter_flags _ _) in *. specialize (Hflags ltac:(by intros c flag Hc ->; set_solver) Hall).
  apply wp_bind, wp_when; intros Hop; [eapply wp_unshare_usage, so_far_refl|]. apply bool_decide_eq_false in Hop.
  eapply wp_bind, (wp_ns_call _ (fun _ => [Unshared flags])); [apply so_far_refl|apply nl_unshare|intros _; by apply harmless_1| |].
  { intros s1 H1. by eapply wp_ns_perror. }
  intros _ s1 H1. cbn [app] in H1. apply wp_bind, wp_when; intros Hf.
  - apply wp_bind. eapply wp_ns_fork; [exact H1|intros s2 H2|intros pid s2 Hwho Hpid H2|intros s2 _ H2].
    + apply wp_when; intros Hw; [|done]. eapply wp_wait_then_end; [exact H2|..]; unfold parent_waited; naive_solver.
    + apply wp_when; intros Hw; [|lia]. eapply wp_wait_then_end; [exact H2|..]; unfold parent_waited; naive_solver.
    + apply wp_when; intros Hw; [done|]. eapply wp_execute; [exact H2|]. split; [done|]. exists flags. by rewrite Hf.
  - eapply wp_execute; [exact H1|]. split; [done|]. exists flags. by rewrite Hf.
Qed.

(** ns_exec joins the namespace of its first operand and runs the rest of them,
    in a child when -f is given; it ends with success only as the parent of that
    child. *)
Theorem ns_exec_runs who pname opts operands s :
  wp (ns_exec who pname opts operands) (fun _ _ => False)
    (ends s (fun evs => exists file command, operands = file :: command /\ command <> [] /\
               evs = Joined (Some file) :: in_child (given "f" opts) ++ [Executed command])
            (fun evs => who = Parent /\ given "f" opts = true /\ exists file others,
               head operands = Some file /\ evs = Joined (Some file) :: others /\ parent_waited others)) s.
Proof.
  eapply wp_bind, wp_ns_exec_options; [apply so_far_refl|]. intros _. rewrite orb_false_l.
  destruct operands as [|file [|command args]]; [eapply wp_ns_exec_usage, so_far_refl..|].
  eapply wp_bind, wp_open_and_join; [apply so_far_refl|]. intros fd s1 H1 _ _. cbn [app] in H1. apply wp_bind, wp_when; intros Hf.
  - apply wp_bind. eapply wp_ns_fork; [exact H1|intros s2 H2|intros pid s2 Hwho Hpid H2|intros s2 _ H2].
    + apply wp_bind, wp_when; intros Hw; [by eapply wp_ns_perror|done].
    + apply wp_bind, wp_when; intros Hw; [lia|]. apply wp_when; intros Hz; [|lia].
      eapply wp_wait_then_end; [exact H2|..]; unfold parent_waited; naive_solver.
    + apply wp_bind, wp_when; intros Hw; [done|]. apply wp_when; intros Hz; [done|].
      eapply wp_execute; [exact H2|]. exists file, (command :: args). by rewrite Hf.
  - eapply wp_execute; [exact H1|]. exists file, (command :: args). by rewrite Hf.
Qed.

(** ns_run joins the namespaces of its options -n, in their order, and runs its
    operands, in a child when -f is given; it ends with success only as the
    parent of that child, for which it has waited. *)
Theorem ns_run_runs who pname opts operands s :
  let joins := Joined ∘ Some <$> files_named opts in
  wp (ns_run who pname opts operands) (fun _ _ => False)
    (ends s (fun evs => operands <> [] /\ (forall c, c ∈ letters opts -> c = "n"%char \/ c = "f"%char) /\
               evs = joins ++ in_child (given "f" opts) ++ [Executed operands])
            (fun evs => who = Parent /\ given "f" opts = true /\ exists pid, evs = joins ++ [Forked pid; Waited pid])) s.
Proof.
  intros joins. eapply wp_bind, wp_ns_run_options; [apply so_far_refl|]. intros Hall s1 H1 _. rewrite orb_false_l. cbn [app] in H1.
  fold joins in H1. apply wp_bind, wp_when; intros Hop; [by eapply wp_ns_run_usage|]. apply bool_decide_eq_false in Hop.
  apply wp_bind, wp_when; intros Hf.
  - apply wp_bind. eapply wp_ns_fork; [exact H1|intros s2 H2|intros pid s2 Hwho Hpid H2|intros s2 _ H2].
    + apply wp_bind, wp_when; intros Hw; [by eapply wp_ns_perror|done].
    + apply wp_bind, wp_when; intros Hw; [lia|]. apply wp_when; intros Hz; [|lia].
      eapply wp_bind, (wp_ns_call _ (fun _ => [Waited pid])); [exact H2|apply nl_waitpid|intros ?; by apply harmless_1|..].
      { intros s3 H3. by eapply wp_ns_perror. }
      intros _ s3 H3. eapply wp_ns_exit3; [exact H3|]. right. rewrite <-app_assoc. eauto.
    + apply wp_bind, wp_when; intros Hw; [done|]. apply wp_when; intros Hz; [done|].
      eapply wp_execute; [exact H2|]. by rewrite Hf, <-app_assoc.
  - eapply wp_execute; [exact H1|]. by rewrite Hf.
Qed.

(** ns_child_exec runs its operands in a child, made in new namespaces of
    exactly the kinds that its options name; it ends with success only as the
    parent of that child, for which it has waited. *)
Theorem ns_child_exec_runs who pname opts operands s :
  wp (ns_child_exec who pname opts operands) (fun _ _ => False)
    (ends s (fun evs => who = Child /\ operands <> [] /\ exists flags, flags_requested ns_child_flags "v" opts flags /\
               evs = [ClonedFrom (Z.lor flags SIGCHLD); Executed operands])
            (fun evs => who = Parent /\ exists flags pid, flags_requested ns_child_flags "v" opts flags /\
               evs = [Cloned (Z.lor flags SIGCHLD) pid; Waited pid])) s.
Proof.
  eapply wp_bind, wp_ns_child_options; [apply so_far_refl|]. intros Hall. cbn beta iota. rewrite Z.lor_0_l, orb_false_l.
  pose proof (flags_requested_intro ns_child_flags "v" opts ns_child_own_bits eq_refl) as Hflags.
  set (flags := letter_flags _ _) in *. specialize (Hflags ltac:(by intros c flag Hc ->; set_solver) Hall).
  apply wp_bind, wp_when; intros Hop; [eapply wp_ns_child_usage, so_far_refl|]. apply bool_decide_eq_false in Hop.
  eapply wp_bind, (wp_ns_call _ (fun _ => [])); [apply so_far_refl| |by intros _ argv ?%elem_of_nil|by intros s1 H1; eapply wp_ns_perror|].
  { pose proof (nl_mmap (kern s) STACK_SIZE) as Hm. by destruct (os_mmap (kern s) STACK_SIZE) as [k [e|a]]. }
  intros stack s1 H1. cbn [app] in H1.
  eapply wp_bind, wp_clone; [exact H1|by intros s2 H2; eapply wp_ns_perror|intros pid s2 Hwho H2|intros Hwho; by eauto].
  eapply wp_seq_inv; [by apply wp_when_putout|]. intros _ s3 H3. apply wp_bind, wp_modify.
  eapply wp_bind, (wp_ns_call _ (fun _ => [Waited pid])); [eapply so_far_quiet; [exact H3|apply nl_munmap]|apply nl_waitpid|intros ?; by apply harmless_1|..].
  { intros s4 H4. by eapply wp_ns_perror. }
  intros _ s4 H4. eapply wp_seq_inv; [by apply wp_when_putout|]. intros _ s5 H5. eapply wp_ns_exit3; [exact H5|]. right.
  split_and!; [done|done|]. by exists flags, pid.
Qed.

End Props.

(** ** Runs *)

Record demo_ns := DemoNs { dn_history : list ns_event; dn_files : gmap Z (cstr * bool); dn_full : bool }.

Definition dn_do (k : demo_ns) (ev : ns_event) : demo_ns := DemoNs (dn_history k ++ [ev]) (dn_files k) (dn_full k).

(** Descriptors are the next free numbers; when [dn_full] no process can be made. *)
#[export] Instance demo_ns_os : NsOS demo_ns := {|
  os_unshare k flags := (dn_do k (Unshared flags), inr tt);
  os_open k file := let fd := fresh (dom (dn_files k)) in
    (DemoNs (dn_history k) (<[fd := (file, true)]> (dn_files k)) (dn_full k), inr fd);
  os_setns k fd _ := (dn_do k (Joined (fst <$> dn_files k !! fd)), inr tt);
  os_close k fd := DemoNs (dn_history k) (delete fd (dn_files k)) (dn_full k);
  os_fork k := if dn_full k then (k, inl 11) else (dn_do k (Forked 77), inr (77, dn_do k ForkedFrom));
  os_mmap k _ := (k, inr 4096);
  os_munmap k _ _ := k;
  os_clone k _ flags := if dn_full k then (k, inl 11) else (dn_do k (Cloned flags 77), inr (77, dn_do k (ClonedFrom flags)));
  os_wait k := (dn_do k (Waited 77), inr 77);
  os_waitpid k pid := (dn_do k (Waited pid), inr pid);
  os_execvp k argv := (DemoNs (dn_history k ++ [Executed argv]) (kept (dn_files k)) (dn_full k), None)
|}.
#[export] Instance demo_ns_view : NsView demo_ns := {| history := dn_history; files := dn_files |}.
#[export] Instance demo_ns_laws : NsLaws demo_ns.
Proof.
  assert (Hnew : forall k : demo_ns, dn_files k !! fresh (dom (dn_files k)) = None) by (intros k; apply not_elem_of_dom, is_fresh).
  split; intros; cbn; try (destruct (dn_full k); cbn); unfold effect; cbn; rewrite ?app_nil_r; try done; by split_and!.
Qed.
#[export] Instance demo_ns_texts : ErrnoText := {| MAX_ENAME := 0; ename _ := []; strerror _ := [] |}.

Definition ns_start (full : bool) : proc demo_ns := Proc (DemoNs [] {[ 0 := (lit "tty", false) ]} full) 0 None [] [] [].
Definition events_of (o : outcome (proc demo_ns) unit) : option (exit_kind * list ns_event) :=
  match o with Exit e s => Some (e, dn_history (kern s)) | _ => None end.

Example ns_run_two_namespaces :
  events_of (ns_run Child [] [Opt "n" (lit "a"); Opt "f" []; Opt "n" (lit "b")] [lit "ls"] (ns_start false)) =
  Some (EXECED, [Joined (Some (lit "a")); Joined (Some (lit "b")); ForkedFrom; Executed [lit "ls"]]).
Proof. vm_compute. reflexivity. Qed.

(** With unshare -f a command that could not be started is reported as a success. *)
Example unshare_fork_fails :
  events_of (unshare_main Parent [] [Opt "f" []; Opt "p" []] [lit "ls"] (ns_start true)) =
  Some (EXIT_SUCCESS, [Unshared CLONE_NEWPID; Waited 77]).
Proof. vm_compute. reflexivity. Qed.
