(* ===== verification/PidFile.v ===== *)
(** filelock/region_locking.c and filelock/create_pid_file.c (src/tlpi-dist): a
    file that shows the process identifier of the one running instance of a
    program, held by a lock.

    Other processes run between any two calls. [LockLaws] says what they can do:
    while this process holds the write lock on the whole file none of those that
    follow the protocol changes it. *)
From Stdlib Require Import ZArith Lia Ascii String.
From stdpp Require Import base tactics list strings gmap sets.
From S2P Require Import Prelude CString Process.
#[local] Open Scope Z_scope.

(** ** region_locking.c *)

Inductive lock_type := F_RDLCK | F_WRLCK | F_UNLCK.
#[export] Instance lock_type_eq_dec : EqDecision lock_type.
Proof. solve_decision. Defined.
Inductive lock_cmd := F_SETLK | F_SETLKW.

Record flock := Flock { l_type : lock_type; l_whence : Z; l_start : Z; l_len : Z; l_pid : Z }.

Class LockOS (K : Type) := {
  os_setlk : K -> Z -> lock_cmd -> flock -> K * (Z + Z);
  os_getlk : K -> Z -> flock -> K * (Z + flock);
  os_getfd : K -> Z -> K * (Z + Z);
  os_setfd : K -> Z -> Z -> K * (Z + Z);
  os_open_creat : K -> cstr -> K * (Z + Z);
  os_ftruncate : K -> Z -> Z -> K * (Z + unit);
  os_write_file : K -> Z -> cstr -> K * (Z + Z);
  os_getpid : K -> K * Z
}.

Definition EAGAIN : Z := 11.
Definition SEEK_SET : Z := 0.
Definition FD_CLOEXEC : Z := 1.
Definition CPF_CLOEXEC : Z := 1.
Definition PID_BUF_SIZE : Z := 100.

Section Code.
Context `{ErrnoText} {K : Type} {OS : LockOS K}.
Abbreviation PM := (M (proc K)).

Definition lockReg (fd : Z) (cmd : lock_cmd) (type : lock_type) (whence start len : Z) : PM Z :=
  let! r := syscall (fun k => os_setlk k fd cmd (Flock type whence start len 0)) in
  ret (default (-1) r).

Definition lockRegion (fd : Z) (type : lock_type) (whence start len : Z) : PM Z :=
  lockReg fd F_SETLK type whence start len.

Definition lockRegionWait (fd : Z) (type : lock_type) (whence start len : Z) : PM Z :=
  lockReg fd F_SETLKW type whence start len.

Definition regionIsLocked (fd : Z) (type : lock_type) (whence start len : Z) : PM Z :=
  let! r := syscall (fun k => os_getlk k fd (Flock type whence start len 0)) in
  match r with
  | None => ret (-1)
  | Some fl => ret (if decide (l_type fl = F_UNLCK) then 0 else l_pid fl)
  end.

(** ** create_pid_file.c *)

Definition quoted (t : cstr) : cstr := lit "'" ++ t ++ lit "'".

Definition set_cloexec (pidFile : cstr) (fd : Z) : PM unit :=
  let! flags := syscall (fun k => os_getfd k fd) in
  match flags with
  | None => errExit (lit "Could not get flags for PID file " ++ pidFile)
  | Some flags =>
      let! r := syscall (fun k => os_setfd k fd (Z.lor flags FD_CLOEXEC)) in
      match r with
      | None => errExit (lit "Could not set flags for PID file " ++ pidFile)
      | Some _ => ret tt
      end
  end.

Definition createPidFile (progName pidFile : cstr) (flags : Z) : PM Z :=
  let! fd := syscall (fun k => os_open_creat k pidFile) in
  match fd with
  | None => errExit (lit "Could not open PID file " ++ pidFile)
  | Some fd =>
      when (has_bit flags CPF_CLOEXEC) (set_cloexec pidFile fd) ;;;
      let! locked := lockRegion fd F_WRLCK SEEK_SET 0 0 in
      (if locked =? -1 then
         let! s := get in
         if (errno s =? EAGAIN) || (errno s =? EACCES) then
           fatal (lit "PID file " ++ quoted pidFile ++ lit " is locked; probably " ++
                  quoted progName ++ lit " is already running")
         else errExit (lit "Unable to lock PID file " ++ quoted pidFile)
       else ret tt) ;;;
      let! r := syscall (fun k => os_ftruncate k fd 0) in
      match r with
      | None => errExit (lit "Could not truncate PID file " ++ quoted pidFile)
      | Some _ =>
          let! pid := syscall_ os_getpid in
          let buf := snprintf PID_BUF_SIZE (show_Z pid ++ [NEWLINE]) in
          let! n := syscall (fun k => os_write_file k fd buf) in
          if bool_decide (n = Some (strlen buf)) then ret fd
          else fatal (lit "Writing to PID file " ++ quoted pidFile)
      end
  end.

End Code.

(** ** One instance *)

(** What this process sees of the file: its content, the process that holds the
    write lock on the whole of it, the descriptors open on it with their
    offsets, those closed by exec, and the changes this process has made. *)
Record file_view := FileView {
  content : cstr;
  holder : option Z;
  offsets : gmap Z Z;
  cloexec : gset Z;
  changes : nat
}.

(** From [v] to [v'] by others: what this process has open stays, and while
    [me] holds the lock, so do the lock and the content. *)
Record others (me : Z) (v v' : file_view) : Prop := {
  ot_offsets : offsets v' = offsets v;
  ot_cloexec : cloexec v' = cloexec v;
  ot_changes : changes v' = changes v;
  ot_held : holder v = Some me -> holder v' = Some me /\ content v' = content v;
  ot_free : holder v <> Some me -> holder v' <> Some me
}.

(** A request for a write lock on the whole file. *)
Definition whole_file (fl : flock) : Prop :=
  l_type fl = F_WRLCK /\ l_whence fl = SEEK_SET /\ l_start fl = 0 /\ l_len fl = 0.

Class LockLaws (K : Type) {OS : LockOS K} (pidFile : cstr) := {
  file : K -> file_view;
  me : K -> Z;
  ll_me_pos k : 0 < me k < 2 ^ 31;
  ll_open k k' r : os_open_creat k pidFile = (k', r) -> me k' = me k /\
    exists v, others (me k) (file k) v /\
    file k' = (match r with
      | inl _ => v
      | inr fd => FileView (content v) (holder v) (<[fd := 0]> (offsets v)) (cloexec v ∖ {[ fd ]}) (changes v)
      end);
  ll_getfd k fd k' r : os_getfd k fd = (k', r) -> me k' = me k /\ others (me k) (file k) (file k');
  ll_setfd k fd flags k' r : os_setfd k fd flags = (k', r) -> me k' = me k /\
    exists v, others (me k) (file k) v /\
    file k' = (match r with
      | inl _ => v
      | inr _ => FileView (content v) (holder v) (offsets v)
          (if has_bit flags FD_CLOEXEC then cloexec v ∪ {[ fd ]} else cloexec v ∖ {[ fd ]}) (changes v)
      end);
  ll_setlk k fd cmd fl k' r : os_setlk k fd cmd fl = (k', r) -> is_Some (offsets (file k) !! fd) ->
    whole_file fl -> me k' = me k /\
    exists v, others (me k) (file k) v /\
    file k' = (match r with
      | inl _ => v
      | inr _ => FileView (content v) (Some (me k)) (offsets v) (cloexec v) (changes v)
      end) /\ (forall x, r = inr x -> x <> -1);
  ll_ftruncate k fd k' r : os_ftruncate k fd 0 = (k', r) -> is_Some (offsets (file k) !! fd) ->
    me k' = me k /\ exists v, others (me k) (file k) v /\
    file k' = (match r with
      | inl _ => v
      | inr _ => FileView [] (holder v) (offsets v) (cloexec v) (S (changes v))
      end);
  ll_write k fd text k' r off : os_write_file k fd text = (k', r) -> offsets (file k) !! fd = Some off ->
    me k' = me k /\ exists v, others (me k) (file k) v /\
    match r with
    | inl _ => file k' = v
    | inr n => 0 <= n <= strlen text /\ exists c, file k' =
        FileView c (holder v) (<[fd := off + n]> (offsets v)) (cloexec v) (S (changes v)) /\
        (content v = [] -> off = 0 -> c = take (Z.to_nat n) text)
    end;
  ll_getpid k k' pid : os_getpid k = (k', pid) ->
    me k' = me k /\ others (me k) (file k) (file k') /\ pid = me k
}.

Lemma show_digits_length fuel z acc : (length (show_digits fuel z acc) <= fuel + length acc)%nat.
Proof.
  revert z acc. induction fuel as [|fuel IH]; intros z acc; simpl; [lia|].
  case_match; simpl; [lia|]. etransitivity; [apply IH|]. simpl. lia.
Qed.
Lemma show_Z_short z : 0 <= z < 2 ^ 31 -> (length (show_Z z) <= 40)%nat.
Proof.
  intros Hz. unfold show_Z. rewrite (proj2 (Z.ltb_ge z 0)) by lia.
  etransitivity; [apply show_digits_length|]. simpl.
  assert (Z.log2 z <= Z.log2 (2 ^ 31 - 1)) by (apply Z.log2_le_mono; lia).
  change (Z.log2 (2 ^ 31 - 1)) with 30 in *. lia.
Qed.

Section Theorems.
Context `{ErrnoText} {K : Type} {OS : LockOS K} (pidFile : cstr) {LL : LockLaws K pidFile}.
Implicit Types (s : proc K).
Abbreviation fv s := (file (kern s)).
Abbreviation who s := (me (kern s)).

(** This process has not changed the file since [s], nor taken the lock. *)
Definition untouched s s' : Prop :=
  who s' = who s /\ changes (fv s') = changes (fv s) /\
  (holder (fv s) <> Some (who s) -> holder (fv s') <> Some (who s)).

(** [untouched], with [fd] open at its beginning and closed by exec if [c]. *)
Definition opened s0 fd (c : bool) s : Prop :=
  untouched s0 s /\ offsets (fv s) !! fd = Some 0 /\ (c = true -> fd ∈ cloexec (fv s)).

(** How the process ends: it has changed the file only if it holds the lock. *)
Definition gives_up s0 (e : exit_kind) s : Prop :=
  untouched s0 s \/ holder (fv s) = Some (who s0).

Lemma untouched_refl s : untouched s s.
Proof. by split_and!. Qed.

Lemma untouched_same s0 s s' : kern s' = kern s -> untouched s0 s -> untouched s0 s'.
Proof. intros Hk. unfold untouched. by rewrite Hk. Qed.

Lemma untouched_others s0 s s' :
  untouched s0 s -> who s' = who s -> others (who s) (fv s) (fv s') -> untouched s0 s'.
Proof.
  intros (H1 & H2 & H3) Hw [Ho1 Ho2 Ho3 Ho4 Ho5]. split_and!; [congruence|congruence|].
  intros Hf. rewrite <-H1. apply Ho5. rewrite H1. auto.
Qed.

Lemma wp_report_error {A} msg (Q : A -> proc K -> Prop) s0 s :
  gives_up s0 ABORT s -> wp (errExit msg) Q (gives_up s0) s.
Proof. intros Hg. apply wp_errExit. intros e s' Hk. unfold gives_up, untouched in *. by rewrite Hk. Qed.
Lemma wp_fatal_error {A} msg (Q : A -> proc K -> Prop) s0 s :
  gives_up s0 ABORT s -> wp (fatal msg) Q (gives_up s0) s.
Proof. intros Hg. apply wp_fatal. intros e s' Hk. unfold gives_up, untouched in *. by rewrite Hk. Qed.

Lemma wp_set_cloexec s0 fd s :
  opened s0 fd false s ->
  wp (set_cloexec pidFile fd) (fun _ => opened s0 fd true) (gives_up s0) s.
Proof.
  intros (Hu & Hoff & _). apply wp_bind, wp_syscall; intros k r Hk;
    destruct (ll_getfd _ _ _ _ Hk) as [Hw Ho].
  { apply wp_report_error. left. by apply (untouched_others _ s). }
  assert (Hu1 : untouched s0 (set_kern k s)) by by apply (untouched_others _ s).
  assert (Hoff1 : offsets (file k) !! fd = Some 0) by by rewrite (ot_offsets _ _ _ Ho).
  apply wp_bind, wp_syscall; intros k' r' Hk'; simpl in Hk';
    destruct (ll_setfd _ _ _ _ _ Hk') as (Hw' & v & Hv & Hf).
  - apply wp_report_error. left. apply (untouched_others _ (set_kern k s)); simpl; [done|done|]. by rewrite Hf.
  - apply wp_ret. destruct Hu1 as (U1 & U2 & U3). destruct Hv as [V1 V2 V3 V4 V5].
    unfold opened, untouched. simpl in *. rewrite Hf. simpl. split_and!; [congruence|congruence| | |].
    + intros Hf0. rewrite <-U1. apply V5. rewrite U1. auto.
    + congruence.
    + intros _. assert (Hb : has_bit (Z.lor r FD_CLOEXEC) FD_CLOEXEC = true).
      { apply has_bit_spec. rewrite Z.land_comm, Z.land_lor_distr_r. intros Hz.
        apply Z.lor_eq_0_iff in Hz as [_ Hz]. done. }
      rewrite Hb. set_solver.
Qed.

(** The lock, as createPidFile asks for it. *)
Lemma wp_lockRegion s0 fd c (Q : Z -> proc K -> Prop) E s :
  opened s0 fd c s ->
  (forall s', untouched s0 s' -> Q (-1) s') ->
  (forall x s', x <> -1 -> who s' = who s0 -> holder (fv s') = Some (who s0) -> offsets (fv s') !! fd = Some 0 ->
     (c = true -> fd ∈ cloexec (fv s')) -> Q x s') ->
  wp (lockRegion fd F_WRLCK SEEK_SET 0 0) Q E s.
Proof.
  intros (Hu & Hoff & Hc) Hbad Hok. apply wp_bind, wp_syscall; intros k r Hk; apply wp_ret; simpl;
    (destruct (ll_setlk _ _ _ _ _ _ Hk) as (Hw & v & Hv & Hf & Hne); [by eexists|by split_and!|]).
  - apply Hbad. apply (untouched_others _ s); simpl; [done|done|]. by rewrite Hf.
  - destruct Hu as (U1 & _ & _). destruct Hv as [V1 V2 _ _ _].
    apply Hok; simpl; rewrite ?Hf; simpl; [by apply Hne|congruence|congruence|congruence|].
    intros Hcc. rewrite V2. auto.
Qed.

Lemma pid_text_fits k : snprintf PID_BUF_SIZE (show_Z (me k) ++ [NEWLINE]) = show_Z (me k) ++ [NEWLINE].
Proof.
  apply snprintf_fits. unfold strlen. rewrite length_app. simpl.
  assert (Hme : 0 <= me k < 2 ^ 31) by (pose proof (ll_me_pos k); lia).
  pose proof (show_Z_short (me k) Hme). unfold PID_BUF_SIZE. lia.
Qed.

(** C23: When createPidFile returns, this process holds the write lock on the
    whole file, the file is exactly its identifier and a newline, and the
    descriptor returned is open and, if asked, closed by exec. When it ends the
    process instead, it has changed the file only if it holds the lock: the
    identifier of the instance that is running is never overwritten. *)
Theorem createPidFile_exclusive (progName : cstr) (flags : Z) s :
  wp (createPidFile progName pidFile flags)
    (fun fd s' => who s' = who s /\ holder (fv s') = Some (who s) /\
       content (fv s') = show_Z (who s) ++ [NEWLINE] /\ is_Some (offsets (fv s') !! fd) /\
       (has_bit flags CPF_CLOEXEC = true -> fd ∈ cloexec (fv s')))
    (fun _ s' => (changes (fv s') = changes (fv s)) \/ holder (fv s') = Some (who s)) s.
Proof.
  eapply (wp_mono _ _ _ (gives_up s)); [|intros fd s' Hfd; exact Hfd|].
  2:{ intros e s' [(_ & Hu & _)|Hh]; [by left|by right]. }
  apply wp_bind, wp_syscall; intros k r Hk; destruct (ll_open _ _ _ Hk) as (Hw & v & Hv & Hf).
  { apply wp_report_error. left. apply (untouched_others _ s); [apply untouched_refl|done|]. simpl. by rewrite Hf. }
  assert (Ho : opened s r false (set_kern k s)).
  { destruct Hv as [_ _ V3 _ V5]. unfold opened, untouched. simpl. rewrite Hf. simpl.
    split_and!; [done|done|done|by rewrite lookup_insert_eq|done]. }
  apply wp_bind.
  apply (wp_mono _ (fun _ => opened s r (has_bit flags CPF_CLOEXEC)) _ (gives_up s)); [| |done].
  { apply wp_when; intros ->; [by apply wp_set_cloexec|done]. }
  intros _ s1 Ho1. apply wp_bind. eapply wp_lockRegion; [exact Ho1| |].
  - intros s2 Hu. apply wp_bind. cbn [Z.eqb]. simpl. apply wp_bind, wp_get.
    destruct (_ || _); [apply wp_fatal_error|apply wp_report_error]; by left.
  - intros x s2 Hx Hw2 Hh2 Hoff2 Hc2. apply Z.eqb_neq in Hx. rewrite Hx. apply wp_bind, wp_ret.
    apply wp_bind, wp_syscall; intros k3 r3 Hk3;
      (destruct (ll_ftruncate _ _ _ _ Hk3) as (Hw3 & v3 & [T1 T2 _ T4 _] & Hf3); [by eexists|]);
      rewrite Hw2 in *; destruct (T4 Hh2) as [Th Tc].
    { apply wp_report_error. right. simpl. by rewrite Hf3. }
    apply wp_bind. unfold wp at 1, syscall_. destruct (os_getpid (kern (set_kern k3 s2))) as [k4 pid] eqn:Hk4.
    apply ll_getpid in Hk4 as (Hw4 & Hv4 & ->). simpl in Hw4, Hv4. rewrite Hf3, Hw3 in Hv4.
    destruct Hv4 as [G1 G2 _ G4 _]. simpl in G1, G2, G4. destruct (G4 Th) as [Gh Gc]. simpl.
    rewrite pid_text_fits. apply wp_bind, wp_syscall; intros k5 r5 Hk5; simpl in Hk5;
      (destruct (ll_write _ _ _ _ _ 0 Hk5) as (Hw5 & v5 & Hv5 & Hr5); [by rewrite G1, T1|]);
      rewrite Hw4, Hw3 in Hv5; destruct Hv5 as [W1 W2 _ W4 _]; destruct (W4 Gh) as [Wh Wc].
    + rewrite bool_decide_eq_false_2 by done. apply wp_fatal_error. right. simpl. by rewrite Hr5.
    + destruct Hr5 as (Hn & c & Hf5 & Hc5). case_bool_decide as Heq.
      2:{ apply wp_fatal_error. right. simpl. by rewrite Hf5. }
      apply wp_ret. simplify_eq/=. rewrite Hf5. simpl. split_and!.
      * congruence.
      * done.
      * rewrite Hc5 by congruence. unfold strlen. rewrite Nat2Z.id, firstn_all. by rewrite Hw3.
      * rewrite lookup_insert_eq. by eexists.
      * intros Hcl. rewrite W2, G2, T2. auto.
Qed.

End Theorems.

(** ** A file and a process *)

Definition demo_file : Type := file_view.

#[export] Instance demo_lock_os : LockOS demo_file := {
  os_setlk v fd cmd fl :=
    match holder v with
    | Some 7 | None => (FileView (content v) (Some 7) (offsets v) (cloexec v) (changes v), inr 0)
    | Some _ => (v, inl EAGAIN)
    end;
  os_getlk v fd fl :=
    (v, inr match holder v with
        | Some pid => Flock F_WRLCK 0 0 0 pid
        | None => Flock F_UNLCK (l_whence fl) (l_start fl) (l_len fl) (l_pid fl)
        end);
  os_getfd v fd := (v, inr (if decide (fd ∈ cloexec v) then FD_CLOEXEC else 0));
  os_setfd v fd flags :=
    (FileView (content v) (holder v) (offsets v)
       (if has_bit flags FD_CLOEXEC then cloexec v ∪ {[ fd ]} else cloexec v ∖ {[ fd ]}) (changes v), inr 0);
  os_open_creat v path :=
    let fd := fresh (dom (offsets v)) in
    (FileView (content v) (holder v) (<[fd := 0]> (offsets v)) (cloexec v ∖ {[ fd ]}) (changes v), inr fd);
  os_ftruncate v fd n := (FileView [] (holder v) (offsets v) (cloexec v) (S (changes v)), inr tt);
  os_write_file v fd text :=
    (FileView (match content v with [] => text | c => text ++ drop (length text) c end) (holder v)
       (<[fd := default 0 (offsets v !! fd) + strlen text]> (offsets v)) (cloexec v) (S (changes v)),
     inr (strlen text));
  os_getpid v := (v, 7)
}.

Lemma others_refl me v : others me v v.
Proof. by split. Qed.

#[export] Instance demo_lock_laws path : LockLaws demo_file path.
Proof.
  refine {| file v := v; me _ := 7 |}.
  - done.
  - intros k k' r [= <- <-]. split; [done|]. exists k. split; [apply others_refl|done].
  - intros k fd k' r [= <- <-]. split; [done|apply others_refl].
  - intros k fd flags k' r [= <- <-]. split; [done|]. exists k. split; [apply others_refl|done].
  - intros k fd cmd fl k' r Hs _ _. split; [done|]. exists k. split; [apply others_refl|]. simpl in Hs.
    repeat case_match; simplify_eq; (split; [done|]); by intros x [= <-].
  - intros k fd k' r [= <- <-] _. split; [done|]. exists k. split; [apply others_refl|done].
  - intros k fd text k' r off [= <- <-] Hoff. split; [done|]. exists k. split; [apply others_refl|].
    split; [unfold strlen; lia|]. eexists. split; [by rewrite Hoff|]. intros -> _.
    unfold strlen. by rewrite Nat2Z.id, firstn_all.
  - intros k k' pid [= <- <-]. split; [done|]. split; [apply others_refl|done].
Defined.

#[export] Instance demo_names : ErrnoText :=
  { MAX_ENAME := 3; ename := fun _ => lit "EX"; strerror := fun _ => lit "text" }.

Definition demo_caller (v : file_view) : proc demo_file := Proc v 0 None [] [] [].

(** A file left by an instance that is gone is taken over. *)
Example stale_file_taken :
  exists fd s', createPidFile (lit "d") (lit "/run/d.pid") 1 (demo_caller (FileView (lit "123456") None ∅ ∅ 0)) =
      Ret fd s' /\ content (kern s') = lit "7" ++ [NEWLINE] /\ fd ∈ cloexec (kern s').
Proof. do 2 eexists. split; [vm_compute; reflexivity|]. split; [done|]. by vm_compute. Qed.

(** One of a running instance is left alone. *)
Example running_instance_left :
  exists e s', createPidFile (lit "d") (lit "/run/d.pid") 1 (demo_caller (FileView (lit "5") (Some 5) ∅ ∅ 0)) =
      Exit e s' /\ content (kern s') = lit "5" /\ e = EXIT_FAILURE.
Proof. do 2 eexists. split; [vm_compute; reflexivity|done]. Qed.
