(* ===== verification/SemOps.v ===== *)
(** svsem/svsem_op.c (src/tlpi-dist): groups of operations on a semaphore set,
    read from the command line. The fields of [struct sembuf] are an unsigned
    short and two shorts: the source stores longs in them. *)
From Stdlib Require Import ZArith Lia Ascii String.
From stdpp Require Import base tactics list strings sets.
From S2P Require Import Prelude CString Process NumArgs.
#[local] Open Scope Z_scope.

Record sembuf := Sembuf { sem_num : Z; sem_op : Z; sem_flg : Z }.
#[export] Instance sembuf_eq_dec : EqDecision sembuf.
Proof. solve_decision. Defined.

Definition MAX_SEMOPS : nat := 1000.
Definition IPC_NOWAIT : Z := 2048.
Definition SEM_UNDO : Z := 4096.

Definition starts_with_digit (s : cstr) : bool := match s with c :: _ => isdigit c | [] => false end.

(** The clock and the set of semaphores. *)
Class SemOS (K : Type) := {
  os_semop : K -> Z -> list sembuf -> K * (Z + unit);
  os_time_text : K -> K * cstr;
  os_pid : K -> K * Z
}.

Section Code.
Context `{ErrnoText} {K : Type} {OS : SemOS K}.
Abbreviation PM := (M (proc K)).

Definition usage_lines (progName : cstr) : list cstr := [
  lit "Usage: " ++ progName ++ lit " semid op[,op...] ..." ++ [NEWLINE; NEWLINE];
  lit "'op' is either: <sem#>{+|-}<value>[n][u]" ++ [NEWLINE];
  lit "            or: <sem#>=0[n]" ++ [NEWLINE];
  lit "       " ++ [QUOTE] ++ lit "n" ++ [QUOTE] ++ lit " means include IPC_NOWAIT in 'op'" ++ [NEWLINE];
  lit "       " ++ [QUOTE] ++ lit "u" ++ [QUOTE] ++ lit " means include SEM_UNDO in 'op'" ++ [NEWLINE; NEWLINE];
  lit "The operations in each argument are performed in a single semop() call" ++ [NEWLINE; NEWLINE];
  lit "e.g.: " ++ progName ++ lit " 12345 0+1,1-2un" ++ [NEWLINE];
  lit "      " ++ progName ++ lit " 12345 0=0n 1+1,2-1u 1=0" ++ [NEWLINE] ].

Definition usageError {A} (progName : cstr) : PM A :=
  for_each (usage_lines progName) puterr ;;; exit3 EXIT_FAILURE.

Definition in_quotes (t : cstr) : cstr := [QUOTE] ++ t ++ [QUOTE].

(** The inner loop: the flags, and what follows them. *)
Fixpoint scan_flags (flags : cstr) (sem_flg : Z) : Z * cstr :=
  match flags with
  | c :: flags' =>
      if decide (c = "n")%char then scan_flags flags' (Z.lor sem_flg IPC_NOWAIT)
      else if decide (c = "u")%char then scan_flags flags' (Z.lor sem_flg SEM_UNDO)
      else (sem_flg, flags)
  | [] => (sem_flg, [])
  end.

(** One operation at [remaining]. *)
Definition parseOp (arg remaining : cstr) : PM sembuf :=
  if bool_decide (remaining = []) then fatal (lit "Trailing comma or empty argument: " ++ in_quotes arg)
  else if negb (starts_with_digit remaining) then
    cmdLineErr (lit "Expected initial digit: " ++ in_quotes arg ++ [NEWLINE])
  else
    let '(num, sign, _) := strtol remaining 10 in
    match sign with
    | sgn :: after =>
        if bool_decide (sgn ∉ lit "+-=") then
          cmdLineErr (lit "Expected '+', '-', or '=' in " ++ in_quotes arg ++ [NEWLINE])
        else if negb (starts_with_digit after) then
          cmdLineErr (lit "Expected digit after '" ++ [sgn] ++ lit "' in " ++ in_quotes arg ++ [NEWLINE])
        else
          let '(v, flags, _) := strtol after 10 in
          let op := to_signed 16 v in
          let op' := if decide (sgn = "-")%char then to_signed 16 (- op) else op in
          if bool_decide (sgn = "="%char) && negb (op =? 0) then
            cmdLineErr (lit "Expected " ++ in_quotes (lit "=0") ++ lit " in " ++ in_quotes arg ++ [NEWLINE])
          else
            let (flg, rest) := scan_flags flags 0 in
            match rest with
            | c :: _ =>
                if decide (c = COMMA) then ret (Sembuf (to_unsigned 16 num) op' flg)
                else cmdLineErr (lit "Bad trailing character (" ++ [c] ++ lit ") in " ++ in_quotes arg ++ [NEWLINE])
            | [] => ret (Sembuf (to_unsigned 16 num) op' flg)
            end
    | [] => cmdLineErr (lit "Expected '+', '-', or '=' in " ++ in_quotes arg ++ [NEWLINE])
    end.

(** The outer loop, with [room] for more operations in the array. *)
Fixpoint parse_loop (room : nat) (arg remaining : cstr) (sops : list sembuf) : PM (list sembuf) :=
  match room with
  | O => cmdLineErr (lit "Too many operations (maximum=" ++ show_Z (Z.of_nat MAX_SEMOPS) ++ lit "): " ++
           in_quotes arg ++ [NEWLINE])
  | S room =>
      let! op := parseOp arg remaining in
      let sops := sops ++ [op] in
      match strchr COMMA remaining with
      | None => ret sops
      | Some (_, remaining) => parse_loop room arg remaining sops
      end
  end.

(** The operations stored, whose number the source returns. *)
Definition parseOps (arg : cstr) : PM (list sembuf) := parse_loop MAX_SEMOPS arg arg [].

Definition pad5 (t : cstr) : cstr := replicate (5 - length t) " "%char ++ t.

Definition report (what arg : cstr) : PM unit :=
  let! pid := syscall_ os_pid in
  let! now := syscall_ os_time_text in
  putout (pad5 (show_Z pid) ++ lit ", " ++ now ++ what ++ lit " [" ++ arg ++ lit "]" ++ [NEWLINE]).

Definition one_group (semid : cstr) (arg : cstr) : PM unit :=
  let! sops := parseOps arg in
  report (lit ": about to semop() ") arg ;;;
  let! id := getInt (Some semid) 0 (Some (lit "semid")) in
  let! r := syscall (fun k => os_semop k id sops) in
  match r with
  | None => let! pid := syscall_ os_pid in errExit (lit "semop (PID=" ++ show_Z pid ++ lit ")")
  | Some _ => report (lit ": semop() completed") arg
  end.

Definition main (argv : list cstr) : PM unit :=
  match argv with
  | progName :: semid :: groups =>
      if streq semid (lit "--help") then usageError progName
      else for_each groups (one_group semid) ;;; exit3 EXIT_SUCCESS
  | _ => usageError (default [] (head argv))
  end.

End Code.

(** ** Facts *)

(** What fits the fields, with flags the program knows. *)
Definition well_formed (o : sembuf) : Prop :=
  0 <= sem_num o < 65536 /\ -32768 <= sem_op o < 32768 /\
  (sem_flg o = 0 \/ sem_flg o = IPC_NOWAIT \/ sem_flg o = SEM_UNDO \/ sem_flg o = Z.lor IPC_NOWAIT SEM_UNDO).

Definition show_flags (flg : Z) : cstr :=
  (if has_bit flg IPC_NOWAIT then lit "n" else []) ++ (if has_bit flg SEM_UNDO then lit "u" else []).

(** An operation as an argument of the program. *)
Definition show_op (o : sembuf) : cstr :=
  show_Z (sem_num o) ++
  (if sem_op o =? 0 then lit "=0" else if sem_op o <? 0 then lit "-" ++ show_Z (- sem_op o)
   else lit "+" ++ show_Z (sem_op o)) ++ show_flags (sem_flg o).

Fixpoint show_ops (ops : list sembuf) : cstr :=
  match ops with
  | [] => []
  | [o] => show_op o
  | o :: ops => show_op o ++ COMMA :: show_ops ops
  end.

Section Theorems.
Context `{ErrnoText} {K : Type} {OS : SemOS K}.
Implicit Types (s : proc K).

Lemma scan_flags_range flags flg :
  flg = 0 \/ flg = IPC_NOWAIT \/ flg = SEM_UNDO \/ flg = Z.lor IPC_NOWAIT SEM_UNDO ->
  let (f, _) := scan_flags flags flg in
  f = 0 \/ f = IPC_NOWAIT \/ f = SEM_UNDO \/ f = Z.lor IPC_NOWAIT SEM_UNDO.
Proof.
  revert flg. induction flags as [|c flags IH]; intros flg Hf; simpl; [done|].
  repeat case_decide; [apply IH..|done]; destruct Hf as [->|[->|[-> | ->]]]; vm_compute; auto.
Qed.

Lemma parseOp_wp arg remaining (Q : sembuf -> proc K -> Prop) E s :
  (forall o, well_formed o -> Q o s) -> (forall e s', kern s' = kern s -> E e s') ->
  wp (parseOp arg remaining) Q E s.
Proof.
  intros HQ HE. unfold parseOp.
  case_bool_decide; [by apply wp_fatal|]. case_match; [by apply wp_cmdLineErr; auto|].
  destruct (strtol remaining 10) as [[num sign] ?].
  destruct sign as [|sgn after]; [by apply wp_cmdLineErr; auto|].
  case_bool_decide; [by apply wp_cmdLineErr; auto|]. case_match; [by apply wp_cmdLineErr; auto|].
  destruct (strtol after 10) as [[v flags] ?]. cbv zeta.
  case_match; [by apply wp_cmdLineErr; auto|].
  pose proof (scan_flags_range flags 0 (or_introl eq_refl)) as Hf.
  destruct (scan_flags flags 0) as [flg rest].
  assert (Hok : well_formed (Sembuf (to_unsigned 16 num)
    (if decide (sgn = "-"%char) then to_signed 16 (- to_signed 16 v) else to_signed 16 v) flg)).
  { refine (conj _ (conj _ _)); simpl; [apply (to_unsigned_range 16); lia| |done].
    destruct (decide _); apply (to_signed_range 16); lia. }
  destruct rest as [|c rest]; [by apply HQ|]. destruct (decide (c = COMMA)); [by apply HQ|]. by apply wp_cmdLineErr; auto.
Qed.

Lemma parse_loop_wp room arg remaining sops (E : exit_kind -> proc K -> Prop) s :
  Forall well_formed sops -> (forall e s', kern s' = kern s -> E e s') ->
  wp (parse_loop room arg remaining sops)
    (fun ops s' => s' = s /\ Forall well_formed ops /\ (0 < length ops <= length sops + room)%nat) E s.
Proof.
  revert remaining sops. induction room as [|room IH]; intros remaining sops Hs HE; simpl.
  { apply wp_cmdLineErr. auto. }
  apply wp_bind, parseOp_wp; [|done]. intros o Ho.
  assert (Hs' : Forall well_formed (sops ++ [o])) by (apply Forall_app_2; [done|by apply Forall_singleton]).
  destruct (strchr COMMA remaining) as [[pre post]|].
  - eapply wp_mono; [by apply IH| |done]. intros ops s' (-> & H1 & H2).
    rewrite length_app in H2. simpl in H2. split_and!; [done|done|lia|lia].
  - apply wp_ret. rewrite length_app. simpl. split_and!; [done|done|lia|lia].
Qed.

(** ** Reading back *)

Lemma show_Z_digit_head z rest : 0 <= z -> starts_with_digit (show_Z z ++ rest) = true.
Proof.
  intros Hz. unfold show_Z. rewrite (proj2 (Z.ltb_ge z 0)) by lia.
  destruct (show_digits_head (Z.to_nat (Z.log2 z)) z []) as (d & r & Hd & ->); [lia|]. simpl.
  unfold isdigit. rewrite char_code_digit by lia. apply andb_true_intro; split; apply Z.leb_le; lia.
Qed.

(** After the numbers come the flags, and a comma or the end. *)
Definition op_ends (tail : cstr) : Prop := match tail with [] => True | c :: _ => c = COMMA end.

Lemma scan_show_flags flg tail :
  flg = 0 \/ flg = IPC_NOWAIT \/ flg = SEM_UNDO \/ flg = Z.lor IPC_NOWAIT SEM_UNDO ->
  op_ends tail -> scan_flags (show_flags flg ++ tail) 0 = (flg, tail).
Proof.
  intros Hf Ht. assert (Hstop : forall f, scan_flags tail f = (f, tail)).
  { intros f. destruct tail as [|c tail]; [done|]. simpl in Ht. by subst c. }
  destruct Hf as [->|[->|[-> | ->]]]; simpl; by rewrite Hstop.
Qed.

Lemma flags_stop flg tail : op_ends tail -> digits_stop (show_flags flg ++ tail).
Proof.
  intros Ht. unfold show_flags. destruct (has_bit flg IPC_NOWAIT); [done|].
  destruct (has_bit flg SEM_UNDO); [done|]. destruct tail as [|c tail]; [done|]. simpl in *. by subst c.
Qed.

Lemma parse_show_op arg o tail s :
  well_formed o -> op_ends tail -> parseOp arg (show_op o ++ tail) s = Ret o s.
Proof.
  intros ([Hn1 Hn2] & [Ho1 Ho2] & Hf) Ht. destruct o as [num op flg]. simpl in Hn1, Hn2, Ho1, Ho2, Hf.
  unfold parseOp, show_op. cbn [sem_num sem_op sem_flg].
  rewrite <-!(assoc_L (++)). rewrite show_Z_digit_head by lia.
  rewrite bool_decide_eq_false_2.
  2:{ destruct (show_Z_nonempty_char num) as (c & r & ->). done. }
  cbn [negb]. cbv iota.
  assert (Hnum : forall c t, c ∈ lit "+-=" -> strtol (show_Z num ++ c :: t) 10 = (num, c :: t, false)).
  { intros c t Hc. apply strtol_show_app; [unfold LONG_MAX; lia|]. simpl in Hc.
    rewrite !elem_of_cons in Hc. by destruct Hc as [->|[->|[->|Hc]]]; try by apply not_elem_of_nil in Hc. }
  assert (Hval : forall v, 0 <= v <= 32768 -> strtol (show_Z v ++ show_flags flg ++ tail) 10 = (v, show_flags flg ++ tail, false)).
  { intros v Hv. apply strtol_show_app; [unfold LONG_MAX; lia|by apply flags_stop]. }
  assert (Hend : match tail with
    | c :: _ => if decide (c = COMMA) then ret (Sembuf (to_unsigned 16 num) op flg)
                else cmdLineErr (lit "Bad trailing character (" ++ [c] ++ lit ") in " ++ in_quotes arg ++ [NEWLINE])
    | [] => ret (Sembuf (to_unsigned 16 num) op flg)
    end s = Ret (Sembuf num op flg) s).
  { rewrite (to_unsigned_small 16) by lia. destruct tail as [|c tail]; [done|]. simpl in Ht.
    by rewrite decide_True by done. }
  destruct (Z.eqb_spec op 0) as [->|Hne]; [|destruct (Z.ltb_spec op 0)].
  - change (lit "=0" ++ show_flags flg ++ tail) with ("="%char :: (show_Z 0 ++ show_flags flg ++ tail)).
    rewrite Hnum by (simpl; set_solver). rewrite bool_decide_eq_false_2 by (simpl; set_solver).
    rewrite show_Z_digit_head by lia. cbn [negb]. cbv iota. rewrite Hval by lia.
    rewrite scan_show_flags by done. exact Hend.
  - cbv iota. rewrite <-(assoc_L (++)). change (lit "-" ++ show_Z (- op) ++ show_flags flg ++ tail) with ("-"%char :: (show_Z (- op) ++ show_flags flg ++ tail)).
    rewrite Hnum by (simpl; set_solver). rewrite bool_decide_eq_false_2 by (simpl; set_solver).
    rewrite show_Z_digit_head by lia. cbn [negb]. cbv iota. rewrite Hval by lia.
    rewrite scan_show_flags by done. rewrite bool_decide_eq_false_2 by done. cbn [andb]. cbv iota.
    rewrite decide_True by done.
    assert (Hop : to_signed 16 (- to_signed 16 (- op)) = op).
    { destruct (decide (op = -32768)) as [->|]; [done|].
      rewrite !(to_signed_small 16) by (rewrite ?(to_signed_small 16); lia). lia. }
    rewrite Hop. exact Hend.
  - cbv iota. rewrite <-(assoc_L (++)). change (lit "+" ++ show_Z op ++ show_flags flg ++ tail) with ("+"%char :: (show_Z op ++ show_flags flg ++ tail)).
    rewrite Hnum by (simpl; set_solver). rewrite bool_decide_eq_false_2 by (simpl; set_solver).
    rewrite show_Z_digit_head by lia. cbn [negb]. cbv iota. rewrite Hval by lia.
    rewrite scan_show_flags by done. rewrite bool_decide_eq_false_2 by done. cbn [andb]. cbv iota.
    rewrite decide_False by done. rewrite (to_signed_small 16) by lia. exact Hend.
Qed.

Lemma show_flags_no_comma flg : COMMA ∉ show_flags flg.
Proof. unfold show_flags. destruct (has_bit flg _), (has_bit flg _); apply (bool_decide_unpack _); by vm_compute. Qed.

Lemma show_op_no_comma o : COMMA ∉ show_op o.
Proof.
  assert (Hz : forall z, COMMA ∉ show_Z z) by (intros z; by apply show_Z_no).
  unfold show_op. rewrite !elem_of_app. intros [Hc|[Hc|Hc]]; [by apply Hz in Hc| |by apply show_flags_no_comma in Hc].
  destruct (sem_op o =? 0); [revert Hc; apply (bool_decide_unpack (COMMA ∉ lit "=0")); by vm_compute|].
  destruct (sem_op o <? 0); apply elem_of_app in Hc as [Hc|Hc]; try (by apply Hz in Hc);
    by apply list_elem_of_singleton in Hc.
Qed.

Lemma parse_show_loop arg ops : forall o room sops s,
  Forall well_formed (o :: ops) -> (length ops < room)%nat ->
  parse_loop room arg (show_ops (o :: ops)) sops s = Ret (sops ++ o :: ops) s.
Proof.
  induction ops as [|o' ops IH]; intros o [|room] sops s Hw Hr; simpl in Hr; try lia;
    apply Forall_cons in Hw as [Ho Hw]; cbn [parse_loop].
  - change (show_ops [o]) with (show_op o). pose proof (parse_show_op arg o [] s Ho I) as Hp. rewrite app_nil_r in Hp.
    rewrite (bind_Ret _ _ _ _ _ Hp). by rewrite (proj2 (strchr_None _ _) (show_op_no_comma o)).
  - change (show_ops (o :: o' :: ops)) with (show_op o ++ COMMA :: show_ops (o' :: ops)).
    rewrite (bind_Ret _ _ _ _ _ (parse_show_op arg o (COMMA :: show_ops (o' :: ops)) s Ho eq_refl)).
    assert (Hc : strchr COMMA (show_op o ++ COMMA :: show_ops (o' :: ops)) = Some (show_op o, show_ops (o' :: ops)))
      by (apply strchr_Some; split; [done|apply show_op_no_comma]).
    rewrite Hc.
    rewrite IH by (done || lia). by rewrite <-app_assoc.
Qed.

(** C27: Whatever the argument, parseOps stays within the array of 1000
    operations: it gives between 1 and 1000 of them, with fields within the
    types of struct sembuf and no flags but IPC_NOWAIT and SEM_UNDO, or ends the
    process with a message; there is no undefined behaviour and no call to the
    kernel. *)
Theorem parseOps_bounds (arg : cstr) s :
  wp (parseOps arg)
    (fun ops s' => s' = s /\ Forall well_formed ops /\ (1 <= length ops <= 1000)%nat)
    (fun _ s' => kern s' = kern s) s.
Proof.
  unfold parseOps. eapply wp_mono; [apply (parse_loop_wp _ arg arg [] (fun _ s' => kern s' = kern s)); [by apply Forall_nil|done]| |done].
  simpl. intros ops s' (-> & H1 & H2). unfold MAX_SEMOPS in H2. split_and!; [done|done|lia|lia].
Qed.

(** Operations that fit struct sembuf, up to 1000 of them, are read back
    from the argument that writes them out. *)
Theorem parseOps_round_trip (ops : list sembuf) s :
  Forall well_formed ops -> (1 <= length ops <= 1000)%nat -> parseOps (show_ops ops) s = Ret ops s.
Proof.
  intros Hw Hl. destruct ops as [|o ops]; simpl in Hl; [lia|]. unfold parseOps.
  by rewrite parse_show_loop by (done || (unfold MAX_SEMOPS; lia)).
Qed.

End Theorems.

(** ** Examples *)

#[export] Instance demo_texts : ErrnoText :=
  { MAX_ENAME := 3; ename := fun _ => lit "EX"; strerror := fun _ => lit "text" }.
Definition demo_sem_process : proc unit := Proc tt 0 None [] [] [].

Definition demo_ops : list sembuf :=
  [Sembuf 0 0 IPC_NOWAIT; Sembuf 1 1 0; Sembuf 65535 (-32768) (Z.lor IPC_NOWAIT SEM_UNDO)].

Lemma parseOps_round_trip_witness :
  show_ops demo_ops = lit "0=0n,1+1,65535-32768nu" /\
  parseOps (show_ops demo_ops) demo_sem_process = Ret demo_ops demo_sem_process.
Proof.
  split; [by vm_compute|]. apply (parseOps_round_trip demo_ops demo_sem_process).
  - repeat (apply Forall_cons; split; [by split_and!; simpl; auto; lia|]). by apply Forall_nil.
  - simpl. lia.
Defined.

(** Numbers beyond the fields wrap: semaphore 65536 is semaphore 0, and adding
    40000 subtracts 25536. *)
Example numbers_wrap :
  parseOps (lit "65536+40000") demo_sem_process = Ret [Sembuf 0 (-25536) 0] demo_sem_process.
Proof. by vm_compute. Qed.

(** A value other than 0 passes for 0. *)
Example not_zero_accepted :
  parseOps (lit "0=65536") demo_sem_process = Ret [Sembuf 0 0 0] demo_sem_process.
Proof. by vm_compute. Qed.
