(* ===== verification/NsCapable.v ===== *)
(** namespaces/ns_capable.c (src/tlpi-dist): whether a process has capabilities in
    a user namespace, by walking up the parents of the namespace with ioctl.

    Text is printed as [printf] leaves it. [fgets] gives the lines of the file in
    pieces of at most 1023 characters. The loop over parents takes fuel; the
    depth of the target namespace is enough. *)
From Stdlib Require Import ZArith Lia Ascii String.
From stdpp Require Import base tactics list strings gmap relations.
From S2P Require Import Prelude CString Process.
#[local] Open Scope Z_scope.

(** A namespace is known by the device and inode of its file. *)
Definition ns_id : Type := Z * Z.

Class NsOS (K : Type) := {
  os_open_file : K -> cstr -> K * (Z + Z);
  os_close_fd : K -> Z -> K * (Z + unit);
  os_fstat : K -> Z -> K * (Z + ns_id);
  os_get_parent : K -> Z -> K * (Z + Z);
  os_get_userns : K -> Z -> K * (Z + Z);
  os_get_nstype : K -> Z -> K * (Z + Z);
  os_get_owner_uid : K -> Z -> K * (Z + Z);
  os_fopen_file : K -> cstr -> K * (Z + Z);
  os_fgets_line : K -> Z -> K * option cstr;
  os_fclose_file : K -> Z -> K * unit;
  os_cap_get_pid : K -> Z -> K * (Z + Z);
  os_cap_to_text : K -> Z -> K * (Z + cstr)
}.

Definition EPERM : Z := 1.
Definition CLONE_NEWUSER_TYPE : Z := 268435456.

Section Code.
Context `{ErrnoText} {K : Type} {OS : NsOS K}.
Abbreviation PM := (M (proc K)).

(** A call whose failure ends the program. *)
Definition must {A} (call : K -> K * (Z + A)) (msg : cstr) : PM A :=
  let! r := syscall call in
  match r with None => perror_exit msg | Some a => ret a end.

Definition display_process_capabilities (pid : Z) : PM unit :=
  let! caps := must (fun k => os_cap_get_pid k pid) (lit "cap_get_proc") in
  let! text := must (fun k => os_cap_to_text k caps) (lit "cap_to_text") in
  putout (lit "    Capabilities: " ++ text ++ [NEWLINE]).

Definition proc_file (pid : Z) (file : string) : cstr := lit "/proc/" ++ show_Z pid ++ lit file.

(** [sscanf(line, "Uid: %*d %d %*d %*d", &uid)]: [None] when it stores nothing. *)
Definition scan_uid (line : cstr) : option Z :=
  let text := drop 4 line in
  let '(_, rest, _) := strtol text 10 in
  if bool_decide (rest = text) then None
  else
    let '(uid, rest', _) := strtol rest 10 in
    if bool_decide (rest' = rest) then None else Some (to_signed 32 uid).

(** The loop of euid_of_process; [None] when the fuel is used up. *)
Fixpoint scan_status (fuel : nat) (path : cstr) (fp : Z) : PM (option Z) :=
  match fuel with
  | O => ret None
  | S fuel =>
      let! line := syscall_ (fun k => os_fgets_line k fp) in
      match line with
      | None =>
          puterr (lit "Failure scanning for 'Uid:' in " ++ path ++ [NEWLINE]) ;;; exit3 EXIT_FAILURE
      | Some line =>
          if strncmp_prefix (lit "Uid:") line then
            syscall_ (fun k => os_fclose_file k fp) ;;;
            match scan_uid line with Some uid => ret (Some uid) | None => undef end
          else scan_status fuel path fp
      end
  end.

Definition euid_of_process (fuel : nat) (pid : Z) : PM (option Z) :=
  let path := proc_file pid "/status" in
  let! fp := must (fun k => os_fopen_file k path) (lit "fopen-/proc/PID/status") in
  scan_status fuel path fp.

Definition ns_equal (nsfd1 nsfd2 : Z) : PM bool :=
  let! sb1 := must (fun k => os_fstat k nsfd1) (lit "fstat-nsfd1") in
  let! sb2 := must (fun k => os_fstat k nsfd2) (lit "fstat-nsfd2") in
  ret ((sb1.1 =? sb2.1) && (sb1.2 =? sb2.2)).

Definition ns_type (ns_fd : Z) : PM Z := must (fun k => os_get_nstype k ns_fd) (lit "ioctl-NS_GET_NSTYPE").
Definition owning_userns_of (ns_fd : Z) : PM Z := must (fun k => os_get_userns k ns_fd) (lit "ioctl-NS_GET_USERNS").
Definition uid_of_userns (userns_fd : Z) : PM Z :=
  let! uid := must (fun k => os_get_owner_uid k userns_fd) (lit "ioctl-NS_GET_OWNER_UID") in
  ret (to_signed 32 uid).

Definition must_close (fd : Z) (msg : cstr) : PM unit := must (fun k => os_close_fd k fd) msg.

(** [None] when the fuel is used up. *)
Fixpoint ancestor_loop (fuel : nat) (source_userns target_userns child : Z) : PM (option Z) :=
  match fuel with
  | O => ret None
  | S fuel =>
      let! parent := syscall (fun k => os_get_parent k child) in
      match parent with
      | None =>
          let! s := get in
          (if negb (errno s =? EPERM) then perror_exit (lit "ioctl-NS_GET_PARENT") else ret tt) ;;;
          when (negb (child =? target_userns)) (must_close child (lit "close(child)")) ;;;
          ret (Some (-1))
      | Some parent =>
          let! same := ns_equal parent source_userns in
          if same : bool then
            must_close parent (lit "close(parent)") ;;; ret (Some child)
          else
            when (negb (child =? target_userns)) (must_close child (lit "close(child) [loop]")) ;;;
            ancestor_loop fuel source_userns target_userns parent
      end
  end.
Definition is_ancestor_userns (fuel : nat) (source_userns target_userns : Z) : PM (option Z) :=
  ancestor_loop fuel source_userns target_userns target_userns.

Definition userns_from_pid (pid : Z) : PM Z :=
  must (fun k => os_open_file k (proc_file pid "/ns/user")) (lit "open-pid-userns").

Definition get_userns_from (arg : cstr) : PM Z :=
  if match arg with c :: _ => isdigit c | [] => false end then userns_from_pid (atoi arg)
  else
    let! ns := must (fun k => os_open_file k arg) (lit "open-ns-file") in
    let! type := ns_type ns in
    if type =? CLONE_NEWUSER_TYPE then ret ns
    else
      let! userns := owning_userns_of ns in
      must_close ns (lit "close-ns") ;;;
      ret userns.

Definition line (s : string) : cstr := lit s ++ [NEWLINE].
Definition in_target_text (pid : Z) : cstr :=
  lit "PID " ++ show_Z pid ++ line " is in the target namespace. Subject to LSM checks, it has the" ++
  line "capabilities that are in its sets, which are:" ++ [NEWLINE].
Definition not_ancestor_text (pid : Z) : cstr :=
  lit "PID " ++ show_Z pid ++ line " is not in an ancestor user namespace." ++
  line "Therefore, it has no capabilities in the target namespace.".
Definition owner_text (pid : Z) : cstr :=
  lit "PID " ++ show_Z pid ++ lit " is in an ancestor user namespace" ++ line " and its effective UID matches" ++
  line "the owner of the immediate child user namespace of that ancestor namespace." ++
  line "Therefore, subject to LSM checks, it has all capabilities in the target" ++ line "namespace!".
Definition not_owner_text (pid : Z) : cstr :=
  lit "PID " ++ show_Z pid ++ lit " is in an ancestor user namespace" ++ line ", but its effective UID does not match" ++
  line "the owner of the immediate child user namespace of that ancestor namespace." ++
  line "Therefore, subject to LSM checks, it has only the capabilities that are in its" ++
  line "sets, which are:" ++ [NEWLINE].

(** What main does with the two namespaces open; [None] when the fuel is used
    up. *)
Definition compare (fuel : nat) (pid source_userns target_userns : Z) : PM (option unit) :=
  let! same := ns_equal source_userns target_userns in
  if same : bool then
    putout (in_target_text pid) ;;; display_process_capabilities pid ;;; ret (Some tt)
  else
    let! child_userns := is_ancestor_userns fuel source_userns target_userns in
    match child_userns with
    | None => ret None
    | Some child_userns =>
        if child_userns =? -1 then putout (not_ancestor_text pid) ;;; ret (Some tt)
        else
          let! euid := euid_of_process fuel pid in
          match euid with
          | None => ret None
          | Some euid =>
              let! owner := uid_of_userns child_userns in
              (if euid =? owner then putout (owner_text pid)
               else putout (not_owner_text pid) ;;; display_process_capabilities pid) ;;;
              when (negb (child_userns =? target_userns)) (must_close child_userns (lit "close-child_userns")) ;;;
              ret (Some tt)
          end
    end.

Definition usage {A} (pname : cstr) : PM A :=
  puterr (lit "Usage: " ++ pname ++ line " <source-PID> <ns-file|target-PID>") ;;;
  puterr (ascii_of_nat 9 :: line "'ns-file' is a /proc/PID/ns/xxxx file") ;;;
  exit3 EXIT_FAILURE.

Definition main (fuel : nat) (argv : list cstr) : PM unit :=
  match argv with
  | [pname; pid_arg; target_arg] =>
      let pid := atoi pid_arg in
      let! source_userns := userns_from_pid pid in
      let! target_userns := get_userns_from target_arg in
      let! done := compare fuel pid source_userns target_userns in
      match done with
      | None => ret tt
      | Some _ =>
          must_close target_userns (lit "close-target_userns") ;;;
          must_close source_userns (lit "close-source_userns") ;;;
          exit3 EXIT_SUCCESS
      end
  | _ => usage (default [] (head argv))
  end.

End Code.

(** ** The rule *)

Inductive verdict := InTarget | NotAncestor | Owner | NotOwner.

Definition verdict_text (pid : Z) (v : verdict) (caps : cstr) : cstr :=
  let shown := lit "    Capabilities: " ++ caps ++ [NEWLINE] in
  match v with
  | InTarget => in_target_text pid ++ shown
  | NotAncestor => not_ancestor_text pid
  | Owner => owner_text pid
  | NotOwner => not_owner_text pid ++ shown
  end.

(** The namespaces of a system that does not change meanwhile: what the files
    refer to, the parents that can be seen, types, owners and the status files
    of processes; and the descriptors and streams this process has open. *)
Class NsLaws (K : Type) {OS : NsOS K} := {
  ns_file : cstr -> ns_id;
  nstype : ns_id -> Z;
  owning : ns_id -> ns_id;
  parent : ns_id -> option ns_id;
  depth : ns_id -> nat;
  owner : ns_id -> Z;
  status_lines : cstr -> list cstr;
  fds : K -> gmap Z ns_id;
  streams : K -> gmap Z (list cstr);
  nl_depth n p : parent n = Some p -> (depth p < depth n)%nat;
  nl_nonneg k fd n : fds k !! fd = Some n -> 0 <= fd;
  nl_open k path k' r : os_open_file k path = (k', r) ->
    match r with inl _ => True | inr fd => fds k !! fd = None /\ fds k' = <[fd := ns_file path]> (fds k) end;
  nl_close k fd k' r : os_close_fd k fd = (k', r) ->
    match r with inl _ => True | inr _ => fds k' = delete fd (fds k) end;
  nl_fstat k fd k' r n : os_fstat k fd = (k', r) -> fds k !! fd = Some n ->
    match r with inl _ => True | inr id => id = n /\ fds k' = fds k end;
  nl_parent k fd k' r n : os_get_parent k fd = (k', r) -> fds k !! fd = Some n ->
    match r with
    | inl e => fds k' = fds k /\ (e = EPERM -> parent n = None)
    | inr fd' => exists p, parent n = Some p /\ fds k !! fd' = None /\ fds k' = <[fd' := p]> (fds k)
    end;
  nl_userns k fd k' r n : os_get_userns k fd = (k', r) -> fds k !! fd = Some n ->
    match r with inl _ => True | inr fd' => fds k !! fd' = None /\ fds k' = <[fd' := owning n]> (fds k) end;
  nl_nstype k fd k' r n : os_get_nstype k fd = (k', r) -> fds k !! fd = Some n ->
    match r with inl _ => True | inr t => t = nstype n /\ fds k' = fds k end;
  nl_owner k fd k' r n : os_get_owner_uid k fd = (k', r) -> fds k !! fd = Some n ->
    match r with inl _ => True | inr u => u = owner n /\ fds k' = fds k end;
  nl_fopen k path k' r : os_fopen_file k path = (k', r) ->
    match r with inl _ => True | inr fp => fds k' = fds k /\ streams k' !! fp = Some (status_lines path) end;
  nl_fgets k fp k' r l : os_fgets_line k fp = (k', r) -> streams k !! fp = Some l ->
    r = head l /\ fds k' = fds k /\ streams k' !! fp = Some (tail l);
  nl_fclose k fp k' r : os_fclose_file k fp = (k', r) -> fds k' = fds k;
  nl_status path t : t ∈ status_lines path -> strncmp_prefix (lit "Uid:") t = true -> is_Some (scan_uid t);
  nl_cap_get k pid k' r : os_cap_get_pid k pid = (k', r) -> fds k' = fds k;
  nl_cap_text k c k' r : os_cap_to_text k c = (k', r) -> fds k' = fds k
}.

Section Theorems.
Context `{ErrnoText} {K : Type} {OS : NsOS K} {NL : NsLaws K}.
Implicit Types (s : proc K) (F : gmap Z ns_id) (T : cstr).

Definition parent_of (n p : ns_id) : Prop := parent n = Some p.

(** The effective user of a process: the second number of the first line of its
    status that begins with Uid:. *)
Definition uid_line (l : list cstr) : option cstr :=
  match list_find (fun t => strncmp_prefix (lit "Uid:") t = true) l with Some (_, t) => Some t | None => None end.
Definition euid_of (pid : Z) : option Z :=
  match uid_line (status_lines (proc_file pid "/status")) with Some t => scan_uid t | None => None end.

(** user_namespaces(7): a process has its capabilities in its own user namespace
    and those below it, all of them where its effective user owns the child of
    its namespace on the way down, and none elsewhere. *)
Definition verdict_ok (source target : ns_id) (euid : option Z) (v : verdict) : Prop :=
  match v with
  | InTarget => source = target
  | NotAncestor => source <> target /\ ~ tc parent_of target source
  | Owner => exists child, source <> target /\ rtc parent_of target child /\ parent child = Some source /\
      euid = Some (to_signed 32 (owner child))
  | NotOwner => exists child, source <> target /\ rtc parent_of target child /\ parent child = Some source /\
      is_Some euid /\ euid <> Some (to_signed 32 (owner child))
  end.

Definition target_of (arg : cstr) : ns_id :=
  if match arg with c :: _ => isdigit c | [] => false end then ns_file (proc_file (atoi arg) "/ns/user")
  else if nstype (ns_file arg) =? CLONE_NEWUSER_TYPE then ns_file arg else owning (ns_file arg).

(** The descriptors open and the text printed. *)
Definition at_ F T s : Prop := fds (kern s) = F /\ out_done s ++ out_pending s = T.
Definition failed (e : exit_kind) s : Prop := e = EXIT_FAILURE.

Lemma at_kern F F' T k s : at_ F T s -> fds k = F' -> at_ F' T (set_kern k s).
Proof. intros [_ HT] HF. by split. Qed.

Lemma wp_must {A} (call : K -> K * (Z + A)) msg (Q : A -> proc K -> Prop) (E : exit_kind -> proc K -> Prop) s :
  (forall s', E EXIT_FAILURE s') ->
  (forall k a, call (kern s) = (k, inr a) -> Q a (set_kern k s)) -> wp (must call msg) Q E s.
Proof.
  intros HE HQ. apply wp_bind, wp_syscall; intros k a Hk; [by apply wp_perror_exit|by apply wp_ret, HQ].
Qed.

Lemma wp_putout_at t F T (Q : unit -> proc K -> Prop) E s :
  at_ F T s -> (forall s', at_ F (T ++ t) s' -> Q tt s') -> wp (putout t) Q E s.
Proof.
  intros [HF HT] HQ. apply wp_modify, HQ. split; [done|]. simpl. by rewrite <-HT, (assoc_L (++)).
Qed.

Section Calls.
Context (E : exit_kind -> proc K -> Prop) (HE : forall s, E EXIT_FAILURE s).

Lemma wp_open_ns path msg F T (Q : Z -> proc K -> Prop) s :
  at_ F T s -> (forall fd s', F !! fd = None -> at_ (<[fd := ns_file path]> F) T s' -> Q fd s') ->
  wp (must (fun k => os_open_file k path) msg) Q E s.
Proof.
  intros Hs HQ. apply wp_must; [done|]. intros k fd Hk. destruct (nl_open _ _ _ _ Hk) as [H1 H2].
  destruct Hs as [HF HT]. apply HQ; [congruence|]. split; [simpl; congruence|done].
Qed.

Lemma wp_close_ns fd msg F T (Q : unit -> proc K -> Prop) s :
  at_ F T s -> (forall s', at_ (delete fd F) T s' -> Q tt s') -> wp (must_close fd msg) Q E s.
Proof.
  intros [HF HT] HQ. apply wp_must; [done|]. intros k [] Hk. pose proof (nl_close _ _ _ _ Hk) as H1.
  apply HQ. split; [simpl; congruence|done].
Qed.

Lemma wp_ns_equal fd1 fd2 n1 n2 F T (Q : bool -> proc K -> Prop) s :
  at_ F T s -> F !! fd1 = Some n1 -> F !! fd2 = Some n2 ->
  (forall s', at_ F T s' -> Q (bool_decide (n1 = n2)) s') -> wp (ns_equal fd1 fd2) Q E s.
Proof.
  intros [HF HT] H1 H2 HQ. subst F. apply wp_bind, wp_must; [done|]. intros k a Hk.
  destruct (nl_fstat _ _ _ _ _ Hk H1) as [-> Hf].
  apply wp_bind, wp_must; [done|]. intros k' b Hk'. simpl in Hk'.
  destruct (nl_fstat _ _ _ _ n2 Hk') as [-> Hf']; [congruence|].
  apply wp_ret. assert (Hb : (n1.1 =? n2.1) && (n1.2 =? n2.2) = bool_decide (n1 = n2)).
  { destruct n1 as [a b], n2 as [c d]. simpl. apply eq_bool_prop_intro. rewrite bool_decide_spec.
    rewrite Is_true_true, andb_true_iff, !Z.eqb_eq. naive_solver. }
  rewrite Hb. apply HQ. split; [simpl; congruence|done].
Qed.

Lemma wp_caps pid F T (Q : unit -> proc K -> Prop) s :
  at_ F T s -> (forall caps s', at_ F (T ++ lit "    Capabilities: " ++ caps ++ [NEWLINE]) s' -> Q tt s') ->
  wp (display_process_capabilities pid) Q E s.
Proof.
  intros [HF HT] HQ. apply wp_bind, wp_must; [done|]. intros k c Hk. apply nl_cap_get in Hk.
  apply wp_bind, wp_must; [done|]. intros k' t Hk'. apply nl_cap_text in Hk'. simpl in Hk'.
  eapply (wp_putout_at _ F T); [split; [simpl; congruence|done]|]. apply HQ.
Qed.


Lemma wp_scan_status fuel path fp l F T (Q : option Z -> proc K -> Prop) s :
  at_ F T s -> streams (kern s) !! fp = Some l -> (length l < fuel)%nat ->
  (forall t, t ∈ l -> strncmp_prefix (lit "Uid:") t = true -> is_Some (scan_uid t)) ->
  (forall t uid s', uid_line l = Some t -> scan_uid t = Some uid -> at_ F T s' -> Q (Some uid) s') ->
  wp (scan_status fuel path fp) Q E s.
Proof.
  revert l s. induction fuel as [|fuel IH]; intros l s Hs Hl Hf Hok HQ; [lia|]. simpl.
  apply wp_bind. unfold wp at 1, syscall_. destruct (os_fgets_line (kern s) fp) as [k r] eqn:Hk.
  destruct (nl_fgets _ _ _ _ _ Hk Hl) as (-> & Hfd & Hl').
  assert (Hs' : at_ F T (set_kern k s)) by (destruct Hs; split; [simpl; congruence|done]).
  destruct l as [|t l]; simpl in *.
  { apply wp_bind, wp_modify, wp_bind, wp_modify, wp_exit, HE. }
  destruct (strncmp_prefix (lit "Uid:") t) eqn:Hu; simpl in Hu; rewrite Hu.
  - apply wp_bind. unfold wp at 1, syscall_. destruct (os_fclose_file _ fp) as [k' u] eqn:Hk'.
    apply nl_fclose in Hk'. simpl in Hk'. destruct (Hok t) as [uid Huid]; [by left|done|]. rewrite Huid.
    apply wp_ret. apply (HQ t uid); [|done|destruct Hs'; split; [simpl in *; congruence|done]].
    unfold uid_line. simpl. by rewrite decide_True by done.
  - apply (IH l); [done|done|lia| |].
    + intros t' Ht'. apply Hok. by right.
    + intros t' uid s' Ht' Huid Hat. apply (HQ t' uid); [|done|done]. unfold uid_line in *. simpl.
      rewrite decide_False by (by rewrite Hu). by destruct (list_find _ l) as [[]|].
Qed.

Lemma wp_euid fuel pid F T (Q : option Z -> proc K -> Prop) s :
  at_ F T s -> (length (status_lines (proc_file pid "/status")) < fuel)%nat ->
  (forall uid s', euid_of pid = Some uid -> at_ F T s' -> Q (Some uid) s') ->
  wp (euid_of_process fuel pid) Q E s.
Proof.
  intros [HF HT] Hf HQ. apply wp_bind, wp_must; [done|]. intros k fp Hk.
  destruct (nl_fopen _ _ _ _ Hk) as [H1 H2].
  eapply (wp_scan_status _ _ _ _ F T); [split; [simpl; congruence|done]|exact H2|done|apply nl_status|].
  intros t uid s' Ht Hu Hs'. apply HQ; [|done]. unfold euid_of. by rewrite Ht.
Qed.

(** A descriptor in use besides those of [F0]: [tfd] itself, or another. *)
Definition extra F0 tfd (d : Z) (n : ns_id) F : Prop :=
  (d = tfd /\ F = F0) \/ (d <> tfd /\ F0 !! d = None /\ F = <[d := n]> F0).

Lemma extra_lookup F0 tfd d n F : F0 !! tfd = Some n \/ d <> tfd -> extra F0 tfd d n F -> F !! d = Some n.
Proof. intros Ht [[-> ->]|(? & ? & ->)]; [by destruct Ht|by rewrite lookup_insert_eq]. Qed.
Lemma extra_keeps F0 tfd d n F x y : extra F0 tfd d n F -> F0 !! x = Some y -> F !! x = Some y.
Proof. intros [[-> ->]|(? & ? & ->)] Hx; [done|]. rewrite lookup_insert_ne; [done|congruence]. Qed.

(** The close of the loop's old descriptor. *)
Lemma wp_drop F0 tfd d n msg F T (Q : unit -> proc K -> Prop) s :
  extra F0 tfd d n F -> at_ F T s -> (forall s', at_ F0 T s' -> Q tt s') ->
  wp (when (negb (d =? tfd)) (must_close d msg)) Q E s.
Proof.
  intros Hx Hs HQ. destruct Hx as [[-> ->]|(Hne & Hnone & ->)].
  - rewrite Z.eqb_refl. by apply HQ.
  - rewrite (proj2 (Z.eqb_neq _ _) Hne). eapply wp_close_ns; [exact Hs|]. intros s2 Hs2.
    apply HQ. by rewrite delete_insert_id in Hs2.
Qed.

Lemma tc_parent_of n p source : parent n = Some p -> tc parent_of n source -> p = source \/ tc parent_of p source.
Proof.
  intros Hp Ht. inversion Ht as [? ? H1|? y ? H1 H2]; subst; unfold parent_of in H1.
  - left. congruence.
  - right. by assert (y = p) as -> by congruence.
Qed.
Lemma tc_no_parent n source : parent n = None -> ~ tc parent_of n source.
Proof. intros Hp Ht. inversion Ht as [? ? H1|? y ? H1 H2]; unfold parent_of in H1; congruence. Qed.

(** The walk from [child], which is [c]. *)
Lemma wp_ancestor_loop fuel sfd tfd child source c F0 F T (Q : option Z -> proc K -> Prop) s :
  at_ F T s -> (depth c < fuel)%nat -> F !! child = Some c ->
  F0 !! sfd = Some source -> is_Some (F0 !! tfd) -> extra F0 tfd child c F ->
  (forall s', at_ F0 T s' -> ~ tc parent_of c source -> Q (Some (-1)) s') ->
  (forall d n F' s', at_ F' T s' -> F' !! d = Some n -> rtc parent_of c n -> parent n = Some source ->
     extra F0 tfd d n F' -> Q (Some d) s') ->
  wp (ancestor_loop fuel sfd tfd child) Q E s.
Proof.
  revert child c F s. induction fuel as [|fuel IH]; intros child c F s Hs Hd Hc Hsrc Htgt Hx Hno Hyes; [lia|].
  simpl. pose proof Hs as [HF HT]. apply wp_bind, wp_syscall; intros k r Hk; rewrite <-HF in Hc;
    pose proof (nl_parent _ _ _ _ _ Hk Hc) as Hp; simpl in Hp; rewrite HF in Hp, Hc.
  - destruct Hp as [Hf He]. apply wp_bind, wp_get, wp_bind. simpl.
    destruct (Z.eqb_spec r EPERM) as [->|Hne]; [|by apply wp_perror_exit].
    apply wp_ret, wp_bind. eapply (wp_drop F0 tfd child c _ F T); [exact Hx|by split; [simpl; congruence|]|].
    intros s2 Hs2. apply wp_ret, Hno; [done|]. by apply tc_no_parent, He.
  - destruct Hp as (p & Hpar & Hfresh & Hf).
    assert (Hs' : at_ (<[r := p]> F) T (set_kern k s)) by (split; [simpl; congruence|done]).
    assert (Hr0 : F0 !! r = None) by (destruct (F0 !! r) eqn:Hr; [|done]; by rewrite (extra_keeps _ _ _ _ _ _ _ Hx Hr) in Hfresh).
    assert (Hrc : r <> child) by (intros ->; congruence). assert (Hrs : r <> sfd) by (intros ->; congruence).
    apply wp_bind. eapply (wp_ns_equal r sfd p source); [exact Hs'|by rewrite lookup_insert_eq| |].
    { rewrite lookup_insert_ne by done. by eapply extra_keeps. }
    intros s2 Hs2. case_bool_decide as Heq.
    + subst p. apply wp_bind. eapply wp_close_ns; [exact Hs2|]. intros s3 Hs3. apply wp_ret.
      rewrite delete_insert_id in Hs3 by done. by eapply (Hyes child c); [exact Hs3|done|apply rtc_refl|done|].
    + apply wp_bind. pose proof (nl_depth _ _ Hpar) as Hdp.
      assert (Hgo : forall s3, at_ (<[r := p]> F0) T s3 -> wp (ancestor_loop fuel sfd tfd r) Q E s3).
      { intros s3 Hs3. apply (IH r p (<[r := p]> F0)); [done|lia|by rewrite lookup_insert_eq|done|done| | |].
        - right. split_and!; [|done|done]. intros ->. destruct Htgt. congruence.
        - intros s4 Hs4 Hn. apply Hno; [done|]. intros Ht. by destruct (tc_parent_of _ _ _ Hpar Ht).
        - intros d n F' s4 Hs4 Hd' Hrtc Hn Hdc. eapply (Hyes d n); [exact Hs4|done| |done|done].
          by eapply rtc_l. }
      destruct Hx as [[-> ->]|(Hne & Hnone & ->)].
      * rewrite Z.eqb_refl. by apply wp_ret, Hgo.
      * rewrite (proj2 (Z.eqb_neq _ _) Hne). eapply wp_close_ns; [exact Hs2|]. intros s3 Hs3.
        apply Hgo. by rewrite delete_insert_ne, delete_insert_id in Hs3 by done.
Qed.

Lemma wp_get_userns_from arg F T (Q : Z -> proc K -> Prop) s :
  at_ F T s -> (forall fd s', F !! fd = None -> at_ (<[fd := target_of arg]> F) T s' -> Q fd s') ->
  wp (get_userns_from arg) Q E s.
Proof.
  intros Hs HQ. unfold get_userns_from, target_of in *.
  destruct (match arg with c :: _ => isdigit c | [] => false end); [by eapply wp_open_ns|].
  apply wp_bind. eapply wp_open_ns; [exact Hs|]. intros ns s1 Hns Hs1. apply wp_bind, wp_must; [done|].
  destruct Hs1 as [HF1 HT1]. intros k t Hk.
  assert (Hl1 : fds (kern s1) !! ns = Some (ns_file arg)) by by rewrite HF1, lookup_insert_eq.
  destruct (nl_nstype _ _ _ _ _ Hk Hl1) as [-> Hf].
  destruct (nstype (ns_file arg) =? CLONE_NEWUSER_TYPE).
  { apply wp_ret, HQ; [done|]. split; [simpl; congruence|done]. }
  apply wp_bind, wp_must; [done|]. intros k2 u Hk2. simpl in Hk2.
  destruct (nl_userns _ _ _ _ (ns_file arg) Hk2) as [Hu Hf2]; [congruence|].
  rewrite Hf, HF1 in Hu, Hf2.
  assert (Hun : ns <> u) by (intros ->; by rewrite lookup_insert_eq in Hu).
  apply wp_bind. eapply (wp_close_ns _ _ (<[u := owning (ns_file arg)]> (<[ns := ns_file arg]> F)) T);
    [split; [simpl; congruence|done]|].
  intros s4 Hs4. apply wp_ret, HQ; [by rewrite lookup_insert_ne in Hu|].
  by rewrite delete_insert_ne, delete_insert_id in Hs4 by done.
Qed.

(** Comparing the two namespaces prints the verdict and leaves no descriptor
    behind. *)
Lemma wp_compare fuel pid sfd tfd source target F T s (Q : option unit -> proc K -> Prop) :
  at_ F T s -> F !! sfd = Some source -> F !! tfd = Some target ->
  (depth target < fuel)%nat -> (length (status_lines (proc_file pid "/status")) < fuel)%nat ->
  (forall v caps s', verdict_ok source target (euid_of pid) v -> at_ F (T ++ verdict_text pid v caps) s' ->
     Q (Some tt) s') ->
  wp (compare fuel pid sfd tfd) Q E s.
Proof.
  intros Hs Hsrc Htgt Hd Hl HQ. apply wp_bind. eapply wp_ns_equal; [done..|]. intros s1 Hs1.
  case_bool_decide as Heq.
  { apply wp_bind. eapply wp_putout_at; [exact Hs1|]. intros s2 Hs2. apply wp_bind.
    eapply wp_caps; [exact Hs2|]. intros caps s3 Hs3. apply wp_ret. apply (HQ InTarget caps); [done|].
    by rewrite <-(assoc_L (++)) in Hs3. }
  apply wp_bind. eapply (wp_ancestor_loop _ _ _ _ source target F F); [done|done|done|done|by eexists|by left| |].
  { intros s2 Hs2 Hno. simpl. apply wp_bind. eapply wp_putout_at; [exact Hs2|]. intros s3 Hs3.
    apply wp_ret. by apply (HQ NotAncestor []). }
  intros d n F' s2 Hs2 Hdn Hrtc Hpar Hx. pose proof Hs2 as [HF2 HT2].
  assert (Hd0 : (d =? -1) = false).
  { apply Z.eqb_neq. rewrite <-HF2 in Hdn. pose proof (nl_nonneg _ _ _ Hdn). lia. }
  rewrite Hd0. apply wp_bind. eapply wp_euid; [exact Hs2|done|]. intros uid s3 Huid Hs3.
  apply wp_bind, wp_bind, wp_must; [done|]. intros k o Hk. destruct Hs3 as [HF3 HT3].
  rewrite <-HF3 in Hdn. destruct (nl_owner _ _ _ _ _ Hk Hdn) as [-> Hf].
  apply wp_ret, wp_bind. assert (Hs4 : at_ F' T (set_kern k s3)) by (split; [simpl; congruence|done]).
  assert (Hend : forall v caps s5, verdict_ok source target (euid_of pid) v ->
      at_ F' (T ++ verdict_text pid v caps) s5 ->
      wp (when (negb (d =? tfd)) (must_close d (lit "close-child_userns")) ;;; ret (Some tt)) Q E s5).
  { intros v caps s5 Hv Hs5. apply wp_bind. eapply (wp_drop F tfd d n _ F'); [exact Hx|exact Hs5|].
    intros s6 Hs6. apply wp_ret. by eapply HQ. }
  destruct (Z.eqb_spec uid (to_signed 32 (owner n))) as [He|He].
  - eapply wp_putout_at; [exact Hs4|]. intros s5 Hs5. apply (Hend Owner []); [|done].
    exists n. split_and!; [done..|congruence].
  - apply wp_bind. eapply wp_putout_at; [exact Hs4|]. intros s5 Hs5. eapply wp_caps; [exact Hs5|].
    intros caps s6 Hs6. apply (Hend NotOwner caps).
    + exists n. split_and!; [done..|by rewrite Huid|by rewrite Huid; congruence].
    + by rewrite <-(assoc_L (++)) in Hs6.
Qed.

End Calls.

(** C25: When ns_capable ends successfully it has printed the verdict that
    user_namespaces(7) gives for the process and the namespace of its
    arguments, and closed every descriptor that it opened, none of them twice;
    it ends otherwise only with a failure, when a call fails. The walk over the
    parents ends. *)
Theorem ns_capable_verdict (fuel : nat) (pname pid_arg target_arg : cstr) s :
  (depth (target_of target_arg) < fuel)%nat ->
  (length (status_lines (proc_file (atoi pid_arg) "/status")) < fuel)%nat ->
  wp (main fuel [pname; pid_arg; target_arg]) (fun _ _ => False)
    (fun e s' => e = EXIT_FAILURE \/
       e = EXIT_SUCCESS /\ fds (kern s') = fds (kern s) /\
       exists v caps, verdict_ok (ns_file (proc_file (atoi pid_arg) "/ns/user")) (target_of target_arg)
           (euid_of (atoi pid_arg)) v /\
         out_done s' = out_done s ++ out_pending s ++ verdict_text (atoi pid_arg) v caps) s.
Proof.
  intros Hd Hl. set (F := fds (kern s)). set (T := out_done s ++ out_pending s).
  assert (Hs : at_ F T s) by done. unfold main. cbv zeta.
  apply wp_bind. eapply wp_open_ns; [by left|exact Hs|]. intros sfd s1 Hsfd Hs1.
  apply wp_bind. eapply wp_get_userns_from; [by left|exact Hs1|]. intros tfd s2 Htfd Hs2.
  assert (Hne : tfd <> sfd) by (intros ->; by rewrite lookup_insert_eq in Htfd).
  apply wp_bind. eapply wp_compare; [by left|exact Hs2|by rewrite lookup_insert_ne, lookup_insert_eq by done|
    by rewrite lookup_insert_eq|done|done|].
  intros v caps s3 Hv Hs3. apply wp_bind. eapply wp_close_ns; [by left|exact Hs3|]. intros s4 Hs4.
  rewrite delete_insert_id in Hs4 by done.
  apply wp_bind. eapply wp_close_ns; [by left|exact Hs4|]. intros s5 Hs5.
  rewrite delete_insert_id in Hs5 by done. destruct Hs5 as [HF5 HT5].
  apply wp_bind, wp_modify, wp_exit. right. split_and!; [done|done|]. exists v, caps. split; [done|].
  simpl. rewrite HT5. unfold T. by rewrite <-(assoc_L (++)).
Qed.

End Theorems.

(** ** A chain of three namespaces *)

Definition demo_ns : Type := gmap nat ns_id * gmap Z (list cstr).

Definition demo_file (path : cstr) : ns_id :=
  if streq path (lit "/proc/10/ns/user") then (0, 1) else if streq path (lit "/tmp/ns") then (0, 3) else (0, 2).
Definition demo_parent (n : ns_id) : option ns_id :=
  if decide (n = (0, 3)) then Some (0, 2) else if decide (n = (0, 2)) then Some (0, 1) else None.
Definition demo_depth (n : ns_id) : nat :=
  if decide (n = (0, 3)) then 2%nat else if decide (n = (0, 2)) then 1%nat else 0%nat.
Definition demo_owner (n : ns_id) : Z := if decide (n = (0, 2)) then 1000 else 0.
Definition demo_status : list cstr := [lit "Name: sh"; lit "Uid: 0 1000 0 0"].

Definition demo_look (k : demo_ns) (fd : Z) : option ns_id :=
  if decide (0 <= fd) then k.1 !! Z.to_nat fd else None.
Definition demo_new (k : demo_ns) (n : ns_id) : demo_ns * (Z + Z) :=
  let fd := fresh (dom k.1) in ((<[fd := n]> k.1, k.2), inr (Z.of_nat fd)).

#[export] Instance demo_ns_os : NsOS demo_ns := {
  os_open_file k path := demo_new k (demo_file path);
  os_close_fd k fd := ((delete (Z.to_nat fd) k.1, k.2), if decide (0 <= fd) then inr tt else inl 9);
  os_fstat k fd := (k, match demo_look k fd with Some n => inr n | None => inl 9 end);
  os_get_parent k fd :=
    match demo_look k fd with
    | Some n => match demo_parent n with Some p => demo_new k p | None => (k, inl EPERM) end
    | None => (k, inl 9)
    end;
  os_get_userns k fd := match demo_look k fd with Some n => demo_new k n | None => (k, inl 9) end;
  os_get_nstype k fd := (k, inr CLONE_NEWUSER_TYPE);
  os_get_owner_uid k fd := (k, match demo_look k fd with Some n => inr (demo_owner n) | None => inl 9 end);
  os_fopen_file k path := ((k.1, <[3 := demo_status]> k.2), inr 3);
  os_fgets_line k fp :=
    match k.2 !! fp with Some l => ((k.1, <[fp := tail l]> k.2), head l) | None => (k, None) end;
  os_fclose_file k fp := (k, tt);
  os_cap_get_pid k pid := (k, inr 0);
  os_cap_to_text k c := (k, inr (lit "="))
}.

Definition demo_fds (k : demo_ns) : gmap Z ns_id := kmap Z.of_nat k.1.

Lemma demo_fds_lookup k fd : demo_fds k !! fd = demo_look k fd.
Proof.
  unfold demo_fds, demo_look. case_decide as Hd.
  - rewrite <-(Z2Nat.id fd) at 1 by done. apply (lookup_kmap Z.of_nat).
  - apply (lookup_kmap_None Z.of_nat). intros i ->. lia.
Qed.

Lemma demo_new_spec k n k' r : demo_new k n = (k', r) ->
  exists fd, r = inr fd /\ demo_fds k !! fd = None /\ demo_fds k' = <[fd := n]> (demo_fds k).
Proof.
  intros [= <- <-]. eexists. split; [done|]. split.
  - unfold demo_fds. rewrite (lookup_kmap Z.of_nat). apply not_elem_of_dom, is_fresh.
  - unfold demo_fds. simpl. apply (kmap_insert Z.of_nat).
Qed.

#[export] Instance demo_ns_laws : NsLaws demo_ns.
Proof.
  refine {| ns_file := demo_file; nstype _ := CLONE_NEWUSER_TYPE; owning n := n; parent := demo_parent;
    depth := demo_depth; owner := demo_owner; status_lines _ := demo_status; fds := demo_fds;
    streams k := k.2 |}.
  - intros n p. unfold demo_parent, demo_depth. repeat case_decide; intros Hp; simplify_eq; simpl in *; try lia; done.
  - intros k fd n. rewrite demo_fds_lookup. unfold demo_look. by case_decide.
  - intros k path k' r Hk. by destruct (demo_new_spec _ _ _ _ Hk) as (fd & -> & H1 & H2).
  - intros k fd k' r. simpl. case_decide as Hd; intros [= <- <-]; [|done].
    unfold demo_fds. simpl. rewrite <-(Z2Nat.id fd) at 2 by done. apply (kmap_delete Z.of_nat).
  - intros k fd k' r n. rewrite demo_fds_lookup. simpl. intros Hk Hn. rewrite Hn in Hk. by injection Hk as <- <-.
  - intros k fd k' r n. rewrite demo_fds_lookup. simpl. intros Hk Hn. rewrite Hn in Hk.
    destruct (demo_parent n) as [p|] eqn:Hp; [|injection Hk as <- <-; done].
    destruct (demo_new_spec _ _ _ _ Hk) as (fd' & -> & H1 & H2). by exists p.
  - intros k fd k' r n. rewrite demo_fds_lookup. simpl. intros Hk Hn. rewrite Hn in Hk.
    by destruct (demo_new_spec _ _ _ _ Hk) as (fd' & -> & H1 & H2).
  - by intros k fd k' r n [= <- <-].
  - intros k fd k' r n. rewrite demo_fds_lookup. simpl. intros Hk Hn. rewrite Hn in Hk. by injection Hk as <- <-.
  - intros k path k' r [= <- <-]. simpl. by rewrite lookup_insert_eq.
  - intros k fp k' r l. simpl. intros Hk Hl. rewrite Hl in Hk. injection Hk as <- <-. simpl. by rewrite lookup_insert_eq.
  - by intros k fp k' r [= <- <-].
  - intros path t Ht Hp. apply elem_of_cons in Ht as [->|Ht]; [by vm_compute in Hp|].
    apply list_elem_of_singleton in Ht as ->. eexists. by vm_compute.
  - by intros k pid k' r [= <- <-].
  - by intros k c k' r [= <- <-].
Defined.

#[export] Instance demo_error_texts : ErrnoText :=
  { MAX_ENAME := 3; ename := fun _ => lit "EX"; strerror := fun _ => lit "text" }.
Definition demo_prober : proc demo_ns := Proc ({[ 0%nat := (9, 9) ]}, ∅) 0 None [] [] [].

Example owner_of_child :
  exists s', main 5 [lit "p"; lit "10"; lit "/tmp/ns"] demo_prober = Exit EXIT_SUCCESS s' /\
    out_done s' = owner_text 10 /\ (kern s').1 = {[ 0%nat := (9, 9) ]}.
Proof. eexists. split; [vm_compute; reflexivity|]. split; by vm_compute. Qed.

Lemma ns_capable_verdict_witness :
  wp (main 5 [lit "p"; lit "10"; lit "/tmp/ns"]) (fun _ _ => False)
    (fun e s' => e = EXIT_FAILURE \/
       e = EXIT_SUCCESS /\ fds (kern s') = fds (kern demo_prober) /\
       exists v caps, verdict_ok (ns_file (proc_file (atoi (lit "10")) "/ns/user")) (target_of (lit "/tmp/ns"))
           (euid_of (atoi (lit "10"))) v /\
         out_done s' = out_done demo_prober ++ out_pending demo_prober ++ verdict_text (atoi (lit "10")) v caps)
    demo_prober.
Proof. apply (ns_capable_verdict 5 (lit "p") (lit "10") (lit "/tmp/ns") demo_prober); vm_compute; lia. Defined.
